(* ===== verification/_CoqProject ===== *)
-Q . S2P
Prelude.v
GoStd.v
GoFloat.v
Model.v
World.v
SchedulerCore.v
RedisLease.v
LuaLease.v
Schema.v
Session.v
Lifecycle.v
RunEvents.v
Reconcile.v
SchedulerStore.v
SchedulerService.v
RunService.v
Cron.v
TaskService.v
AgentVersion.v
UpgradeStore.v
UpgradeService.v
UpgradeCoordinator.v
GoPath.v
GoCrypto.v
Passwords.v
Redaction.v
Secrets.v
Logs.v
Sha256.v
Accounts.v
AccountLaws.v
AccountSafety.v
ScriptSync.v
Artifacts.v
Json.v
ObjectStore.v
ScriptService.v
ScriptLibrary.v
LogArchive.v
Alerts.v
Notifications.v
OpsRules.v
Backups.v
FleetStore.v
FleetLaws.v
Dispatch.v
Hub.v
FleetService.v
Platform.v
FleetSafety.v
