(* ===== verification/Prelude.v ===== *)
(** * Yunling: a verification of the task platform

    The program under [src/] runs scripts on a fleet of servers.  Users keep a library of
    versioned scripts and define tasks and cron schedules over them; firing a task inserts
    a queued run; a scheduler places runs on servers and reserves their resources; a
    dispatcher sends the assignments to agents over websocket connections; the agents
    synchronise the script archives, report events that move the runs through their
    lifecycle, and stream the output, which is masked, stored and archived; a reconciler
    deals with servers that go offline and with retries; a coordinator upgrades the agents
    themselves in batches.  Beside this stand the accounts of the team, the secrets, the
    alerts with their notifications, and the rules that watch servers and runs.
    PostgreSQL is the source of truth, Redis holds the short-lived reservations, MinIO the
    archives.

    ** The layers

    - [Prelude]: notations, record update, the error and state monad, sorting.
    - [GoStd], [GoPath], [GoFloat], [GoCrypto], [Sha256], [Json]: what the code uses of
      Go's standard library (strings, decimal numbers, civil time, [path], UTF-8,
      [float64], base64, random bytes, SHA-256, [encoding/json]).
    - [Model]: the data the packages exchange and their sentinel errors.
    - [World]: programs against the outside.  A program runs on shared stores and an
      oracle that decides the clock, the identifiers and the failure of every remote
      action; [wp] quantifies over all oracles.  A remote action can be lost, or take
      effect while its reply is lost.  Where a statement is about an instant, [under]
      quantifies over the oracles of a regime, so that it can say that the clock gave the
      instant or that no fault may happen, and [starting] names the instant at which a
      program starts.  A component is written over any state [C] that has
      its tables as a part ([Has]), so that components compose without knowing each other.
    - [Schema], [Session]: the tables with the constraints of the migrations, SQL
      statements and transactions.
    - [Lifecycle]: well-formed tables ([wf_db]) and their evolution ([evolves]).

    ** The components

    - [SchedulerCore] (internal/scheduler filter.go, score.go, queue.go),
      [RedisLease] (internal/store/redis/lease.go: the Lua scripts and the store) with
      [LuaLease] (the same scripts with the doubles of Lua and the integers of Redis),
      [SchedulerStore] (scheduler/postgres.go), [SchedulerService]
      (scheduler/service.go, written against the interfaces of types.go).
    - [TaskService] and [Cron] (internal/task service.go, schedule.go,
      parameter_validation.go), [RunEvents] (event_service.go, usage.go), [Reconcile]
      (reconcile.go), [RunService] (run_service.go).
    - [Dispatch] (internal/dispatch) with [Artifacts] (agentprotocol/artifact.go), and
      [Hub] (internal/server/connections.go), whose methods, with the writes of the
      handlers of the connections, are also given as a step relation because a command is
      written after the hub's mutex is released.
    - [FleetStore], [FleetLaws], [FleetService] (internal/server: registry, enrollment,
      credentials, groups), with their guarantees in the composed system in [FleetSafety].
    - [ScriptSync] (script/sync_service.go), [ScriptService] and [ScriptLibrary]
      (script/service.go, artifact_provider.go) over [ObjectStore] (internal/artifact).
    - [Accounts], [AccountLaws], [AccountSafety] with [Passwords] (internal/auth and
      cmd/bootstrap).
    - [Secrets] and [Redaction] (internal/secret), [Logs] and [LogArchive]
      (internal/logstream).
    - [AgentVersion], [UpgradeStore], [UpgradeService], [UpgradeCoordinator]
      (internal/agentupgrade).
    - [Alerts] (internal/alert and the trigger of migration 000011), [Notifications]
      (internal/notification), [OpsRules] (internal/ops), [Backups] (internal/backup: the
      repository and the service).
    - [Platform]: the composition of cmd/api and cmd/scheduler; it instantiates every
      interface and states the theorems about the whole.

    ** What is shown

    - Of the whole: any sequence of operations, with any failures, keeps the tables
      well formed, lets runs only evolve along the lifecycle, and keeps the Redis
      counters equal to the leases; a run reported as assigned was placed on a fit
      server within its resources; dispatching only ever sends the command of an
      assigned run to its own server.
    - Of each store operation: its exact effect on every branch, errors included, and
      that a failed transaction leaves the tables as they were unless its commit took
      effect and only the reply was lost.
    - Idempotence: a redelivered event, a repeated retry, a schedule however often it is
      scanned, a repeated test message and a restored lease have their effect once.
    - Exactness of the pure parts: the filter, the score (without overflow), the queue,
      cron fields and next firing times, parameter validation, version comparison,
      literal search, the hysteresis of the rules whatever samples are read again.
    - Upgrades: staged batches, agents that cannot finish a target themselves, atomic
      saving with refusal of stale plans.
    - The fleet: an enrollment token works once, a revoked credential never
      authenticates, a transfer of a script follows its state machine and is ready only
      with the digest of the version.
    - The library: versions are numbered uniquely and never change, and a published
      version reads back as it was published.
    - The accounts: an administrator is always left, a member who was locked out stays
      locked out, a request passes exactly with a live session and a permission, and
      guessing a password is limited.
    - Logs and secrets: streams without gaps, chunks without the plain or encoded
      secrets of their run, archives that hold all the chunks, secrets that decrypt to
      what was stored.
    - Alerts: raising merges or opens exactly one alert and announces it once; a round of
      delivery marks the first delivery that is due as sent exactly when the webhook
      accepted it, and enough rounds drain the outbox; a scan leaves every rule in force
      as its evaluations ask; resolved alerts and finished deliveries stay as they are
      whatever is operated.
    - Backups: one run per slot of the schedule and per request, one lease at a time,
      local snapshots made once, and a pass that reports no error has made both snapshots
      of the run that was due.
    - Where the code falls short, the theorem says so: a NUL character, a secret split
      over two chunks, an entrypoint named like the manifest, a removed administrator, a
      lost report of a silent server, a disabled server with runs, alerts that pile up, a
      webhook that does not answer, runs that are scanned for ever, an export that
      outlasts its pass, a summary in the order of creation, a task with numbers too wide
      for the tables.

    ** Interfaces

    What is not under [src/], or is only called, is a class or a parameter with the
    documented laws: [AEAD], [Argon2], [UUIDs], [StringRange], [ArchiveFormat],
    [ManifestJSON], [LogFormat], [FeishuAPI], [BackupTools], the time zones, the
    iteration order of maps; and between components [AlertLaw], [SecretLaw],
    [SenderLaw], [SuccessRecorder], [OperationalScanner].  Each has an instance in the
    examples.

    ** Bounds

    Integers are [Z]; where Go's 64-bit arithmetic can overflow the operations wrap
    ([wrap64], [mul64], [add64]) and the theorems state the bounds under which nothing
    does.  The scripts of Redis are exact within 2^53 ([LuaLease]); the theorems about
    reservations are about the exact scripts.  The column types of [task_definitions] and
    [task_runs] are part of their constraints.  Lower case is that of ASCII.  Loops that
    are not structural carry fuel with a lemma that it suffices: the
    cron search stops after the five years the code allows, decimal printing after the
    number of digits, [path.Match] after the length of the pattern.  A delivery pass has
    the 100 rounds of the code; [outbox_drained] says how many rounds are enough.

    ** Not modelled

    Transactions run one after the other: the row and advisory locks by which the code
    obtains this are not part of the model, nor are the rounding of times to
    microseconds by PostgreSQL, the width of the integer columns of the other tables and
    the syntax of UUIDs (an exhausted supply of identifiers is an error).  The cancellation of a
    context is modelled where a theorem is about it ([CallContext] in [Notifications],
    [OpsRules] and [Backups]).  The HTTP handlers decode requests and encode replies
    around the modelled services.  The agent (internal/agent, internal/executor,
    internal/agentupdate), the tools of the backups and of the releases consist mostly
    of calls to systemd, the file system, restic, docker and PostgreSQL's programs, for
    which the repository has no specification; the ingestion of run artifacts and the
    catalogue of agent releases move files between archives and object storage.  The web
    interface is not Go. *)

From Stdlib Require Export ZArith Lia.
From stdpp Require Export base gmap sorting relations option strings list.

(** ** Scopes and notations *)

Declare Scope yunling_scope.
Delimit Scope yunling_scope with yunling.
Open Scope yunling_scope.
#[global] Open Scope Z_scope.

(** ** Record update

    Go assigns struct fields in place and SQL sets columns of a row; both are
    written [r <| field := v |>] below.  [Eta] gives the record's eta expansion
    and the setter of a projection is computed from it. *)

Class Eta (R : Type) := eta_expand : R → R.
Class Setter {R E : Type} (proj : R → E) := update_field : (E → E) → R → R.
Arguments update_field {R E} proj {_} f r /.

Ltac term_head t := lazymatch t with ?f _ => term_head f | _ => t end.

Ltac solve_setter :=
  lazymatch goal with
  | |- @Setter ?R ?E ?proj =>
    let inst := constr:(@eta_expand R _) in
    let inst := eval cbv beta delta [eta_expand] in inst in
    let c := term_head inst in
    let f := fresh "f" in
    let r := fresh "r" in
    unfold Setter; intros f r;
    let body := eval cbv beta delta [c] in (inst r) in
    let abs := eval pattern (proj r) in body in
    lazymatch abs with
    | ?g _ => let t := eval cbv beta in (g (f (proj r))) in exact t
    end
  end.

#[export] Hint Extern 1 (Setter _) => solve_setter : typeclass_instances.

Notation "r <| p := v |>" := (update_field p (λ _, v) r)
  (at level 1, p at level 0, v at level 200, left associativity,
   format "r  <| p  :=  v |>") : yunling_scope.
Notation "r <| p ::= f |>" := (update_field p f r)
  (at level 1, p at level 0, f at level 200, left associativity,
   format "r  <| p  ::=  f |>") : yunling_scope.

(** ** Automation *)

Create HintDb yunling.

(** Splits every conjunction and existential of the context. *)
Ltac split_hyps :=
  repeat match goal with
  | H : _ ∧ _ |- _ => destruct H
  | H : ∃ _, _ |- _ => destruct H
  end.

(** Case analysis on the discriminee of a [match] or [if] of the goal or of a
    hypothesis, keeping the equation, then cleaning up. *)
Ltac case_goal :=
  match goal with
  | |- context [match ?x with _ => _ end] => destruct x eqn:?
  end.
Ltac case_hyp H :=
  match type of H with
  | context [match ?x with _ => _ end] => destruct x eqn:?
  end.

(** Turns boolean tests of the code into propositions. *)
Lemma bool_decide_true_iff (P : Prop) `{Decision P} : bool_decide P = true ↔ P.
Proof. apply bool_decide_eq_true. Qed.
Lemma bool_decide_false_iff (P : Prop) `{Decision P} : bool_decide P = false ↔ ¬ P.
Proof. apply bool_decide_eq_false. Qed.

Create Rewrite HintDb yunling_bool.
#[export] Hint Rewrite
  andb_true_iff orb_true_iff negb_true_iff andb_false_iff orb_false_iff negb_false_iff
  Z.eqb_eq Z.eqb_neq Z.ltb_lt Z.ltb_ge Z.leb_le Z.leb_gt : yunling_bool.

Ltac bools :=
  repeat (first
    [ progress autorewrite with yunling_bool in *
    | rewrite bool_decide_eq_true in *
    | rewrite bool_decide_eq_false in * ]).

(** ** Machine integers

    Go's [int] and [int64] are 64-bit two's complement on the supported
    platforms; arithmetic wraps. *)

Definition int64_min : Z := - 2 ^ 63.
Definition int64_max : Z := 2 ^ 63 - 1.
Definition wrap64 (z : Z) : Z := (z + 2 ^ 63) mod 2 ^ 64 - 2 ^ 63.
Definition in_int64 (z : Z) : Prop := int64_min ≤ z ≤ int64_max.

Lemma wrap64_id z : in_int64 z → wrap64 z = z.
Proof.
  unfold in_int64, int64_min, int64_max, wrap64; intros H.
  rewrite Z.mod_small; lia.
Qed.

Lemma wrap64_range z : in_int64 (wrap64 z).
Proof.
  unfold in_int64, int64_min, int64_max, wrap64.
  pose proof (Z.mod_pos_bound (z + 2 ^ 63) (2 ^ 64) ltac:(lia)). lia.
Qed.

(** Go's integer division truncates toward zero. *)
Definition go_div (a b : Z) : Z := Z.quot a b.

Lemma go_div_pos a b : 0 ≤ a → 0 < b → go_div a b = a / b.
Proof. intros. unfold go_div. by apply Z.quot_div_nonneg. Qed.

(** ** Results and effects

    A Go function that returns [(T, error)] and works on state [S] is a value of
    [M S T].  The state survives an error, as a Go receiver's does. *)

Section monad.
Context {Error : Type}.

Inductive Res (A : Type) : Type :=
| Ok (a : A)
| Err (e : Error).

End monad.

Arguments Ok {Error A} a.
Arguments Err {Error A} e.

Definition is_ok {Error A} (r : Res (Error := Error) A) : bool :=
  match r with Ok _ => true | Err _ => false end.

Definition Eff (Error S A : Type) : Type := S → S * Res (Error := Error) A.

Definition ret {Error S A} (a : A) : Eff Error S A := λ s, (s, Ok a).
Definition throw {Error S A} (e : Error) : Eff Error S A := λ s, (s, Err e).
Definition bind {Error S A B} (m : Eff Error S A) (k : A → Eff Error S B) : Eff Error S B :=
  λ s, match m s with
       | (s', Ok a) => k a s'
       | (s', Err e) => (s', Err e)
       end.

(** [catch m] exposes the error of [m] to the code that follows, for the places
    where the source inspects or discards an [err] instead of returning it. *)
Definition catch {Error S A} (m : Eff Error S A) : Eff Error S (Res (Error := Error) A) :=
  λ s, let '(s', r) := m s in (s', Ok r).

Definition get_state {Error S} : Eff Error S S := λ s, (s, Ok s).
Definition modify {Error S} (f : S → S) : Eff Error S unit := λ s, (f s, Ok tt).

Notation "'let!' x ':=' m 'in' k" := (bind m (λ x, k))
  (at level 10, x pattern, m at level 100, k at level 200,
   format "'[v' 'let!'  x  ':='  m  'in' '/' k ']'") : yunling_scope.
Notation "m ;;! k" := (bind m (λ _, k))
  (at level 100, k at level 200, right associativity,
   format "'[v' m  ;;! '/' k ']'") : yunling_scope.

(** A [for _, x := range l] loop whose body may fail. *)
Fixpoint for_each {Error S A} (l : list A) (body : A → Eff Error S unit) : Eff Error S unit :=
  match l with
  | [] => ret tt
  | x :: rest => body x ;;! for_each rest body
  end.

(** Running a computation on a component of a larger state. *)
Definition zoom {Error S T A} (get : T → S) (put : S → T → T) (m : Eff Error S A) : Eff Error T A :=
  λ t, let '(s', r) := m (get t) in (put s' t, r).

Lemma bind_ok {Error S A B} (m : Eff Error S A) (k : A → Eff Error S B) s s' a :
  m s = (s', Ok a) → bind m k s = k a s'.
Proof. intros H. unfold bind. by rewrite H. Qed.

Lemma bind_err {Error S A B} (m : Eff Error S A) (k : A → Eff Error S B) s s' e :
  m s = (s', Err e) → bind m k s = (s', Err e).
Proof. intros H. unfold bind. by rewrite H. Qed.

Lemma bind_inv {Error S A B} (m : Eff Error S A) (k : A → Eff Error S B) s s' r :
  bind m k s = (s', r) →
  (∃ s1 a, m s = (s1, Ok a) ∧ k a s1 = (s', r)) ∨
  (∃ e, m s = (s', Err e) ∧ r = Err e).
Proof.
  unfold bind. destruct (m s) as [s1 [a|e]]; intros H.
  - left. eauto.
  - right. exists e. by simplify_eq.
Qed.

(** ** Stable sorting

    [sort.SliceStable] with a comparison function, and SQL's [ORDER BY]. *)

Section stable_sort.
Context {A : Type}.
Implicit Type less : A → A → bool.

Fixpoint sorted_insert less (x : A) (l : list A) : list A :=
  match l with
  | [] => [x]
  | y :: rest => if less y x then y :: sorted_insert less x rest else x :: y :: rest
  end.

Definition stable_sort less (l : list A) : list A := foldr (sorted_insert less) [] l.

(** What the [less] argument of a sort has to satisfy for the result to be
    determined: a strict weak order. *)
Class StrictWeak less : Prop := {
  less_irrefl a : less a a = false;
  less_trans a b c : less a b = true → less b c = true → less a c = true;
  less_neg_trans a b c : less a b = false → less b c = false → less a c = false
}.

Lemma less_asym less `{!StrictWeak less} a b : less a b = true → less b a = false.
Proof.
  intros H. destruct (less b a) eqn:E; [|done].
  pose proof (less_trans _ _ _ H E) as T. by rewrite less_irrefl in T.
Qed.

Lemma sorted_insert_perm less x l : sorted_insert less x l ≡ₚ x :: l.
Proof.
  induction l as [|y l IH]; simpl; [done|].
  destruct (less y x); [|done]. rewrite IH. apply Permutation_swap.
Qed.

Lemma stable_sort_perm less l : stable_sort less l ≡ₚ l.
Proof.
  induction l as [|x l IH]; simpl; [done|].
  by rewrite sorted_insert_perm, IH.
Qed.

Lemma stable_sort_nil less l : stable_sort less l = [] ↔ l = [].
Proof.
  split; [|by intros ->].
  intros H. apply Permutation_nil. by rewrite <-H, stable_sort_perm.
Qed.

Lemma elem_of_stable_sort less l x : x ∈ stable_sort less l ↔ x ∈ l.
Proof. by rewrite stable_sort_perm. Qed.

Definition not_after less : relation A := λ a b, less b a = false.

Lemma sorted_insert_sorted less `{!StrictWeak less} x l :
  StronglySorted (not_after less) l → StronglySorted (not_after less) (sorted_insert less x l).
Proof.
  induction 1 as [|y l Hl IH Hy]; simpl; [by repeat constructor|].
  destruct (less y x) eqn:E.
  - constructor; [done|]. rewrite sorted_insert_perm. constructor; [|done].
    unfold not_after. by apply (less_asym less).
  - constructor; [by constructor|]. constructor; [done|].
    eapply Forall_impl; [exact Hy|]. intros z Hz. unfold not_after in *.
    by eapply less_neg_trans.
Qed.

Lemma stable_sort_sorted less `{!StrictWeak less} l :
  StronglySorted (not_after less) (stable_sort less l).
Proof. induction l; simpl; [constructor|]. by apply sorted_insert_sorted. Qed.

(** Of two positions of the sorted list, the later never precedes the earlier. *)
Lemma stable_sort_lookup less `{!StrictWeak less} l i j a b :
  (i < j)%nat → stable_sort less l !! i = Some a → stable_sort less l !! j = Some b → less b a = false.
Proof.
  intros Hij Ha Hb. pose proof (stable_sort_sorted less l) as Hs.
  apply take_drop_middle in Ha. rewrite <-Ha in Hs. apply StronglySorted_app in Hs as (_ & _ & Hs).
  inversion Hs as [|? ? _ Hall]; subst. rewrite Forall_forall in Hall. apply Hall.
  apply list_elem_of_lookup. exists (j - S i)%nat. rewrite lookup_drop. rewrite <-Hb. f_equal. lia.
Qed.

(** The head of the sorted list is a minimum. *)
Lemma stable_sort_head less `{!StrictWeak less} l x rest :
  stable_sort less l = x :: rest → x ∈ l ∧ ∀ y, y ∈ l → less y x = false.
Proof.
  intros H. pose proof (stable_sort_sorted less l) as S. rewrite H in S.
  inversion S as [|? ? _ Hall]; subst. split.
  - apply (elem_of_stable_sort less). rewrite H. apply list_elem_of_here.
  - intros y Hy. apply (elem_of_stable_sort less) in Hy. rewrite H in Hy.
    apply elem_of_cons in Hy as [->|Hy]; [apply less_irrefl|].
    rewrite Forall_forall in Hall. by apply Hall.
Qed.

(** A sort by a comparison that separates the elements of the list does not
    depend on the order the elements come in (map iteration, table scans). *)
Lemma stable_sort_unique less `{!StrictWeak less} l1 l2 :
  (∀ x y, x ∈ l1 → y ∈ l1 → less x y = false → less y x = false → x = y) →
  l1 ≡ₚ l2 → stable_sort less l1 = stable_sort less l2.
Proof.
  intros Hsep Hp. apply (StronglySorted_unique_strong (not_after less)).
  - intros x y Hx Hy. rewrite elem_of_stable_sort in Hx, Hy.
    rewrite <-Hp in Hy. unfold not_after. intros. by apply Hsep.
  - by apply stable_sort_sorted.
  - by apply stable_sort_sorted.
  - by rewrite !stable_sort_perm.
Qed.

End stable_sort.

(** Comparison by a key, and lexicographic composition. *)
Definition less_by {A K} (ltk : K → K → bool) (key : A → K) : A → A → bool :=
  λ a b, ltk (key a) (key b).
Definition less_lex {A} (l1 l2 : A → A → bool) : A → A → bool :=
  λ a b, if l1 a b then true else if l1 b a then false else l2 a b.
Definition less_flip {A} (l : A → A → bool) : A → A → bool := λ a b, l b a.

#[global] Typeclasses Opaque less_by less_lex less_flip.

(** The sorts of the code state their order as nested tests; the order properties
    come from the composition the tests amount to. *)
Lemma StrictWeak_ext {A} (l l' : A → A → bool) :
  (∀ a b, l a b = l' a b) → StrictWeak l' → StrictWeak l.
Proof.
  intros E []. constructor; intros *; rewrite !E; eauto.
Qed.

#[export] Instance less_by_weak {A K} (ltk : K → K → bool) (key : A → K) :
  StrictWeak ltk → StrictWeak (less_by ltk key).
Proof.
  intros []. constructor; unfold less_by; eauto.
Qed.

#[export] Instance less_flip_weak {A} (l : A → A → bool) : StrictWeak l → StrictWeak (less_flip l).
Proof.
  intros []. constructor; unfold less_flip; eauto.
Qed.

Lemma less_lex_true {A} (l1 l2 : A → A → bool) a b :
  less_lex l1 l2 a b = true ↔ l1 a b = true ∨ (l1 a b = false ∧ l1 b a = false ∧ l2 a b = true).
Proof. unfold less_lex. destruct (l1 a b), (l1 b a); intuition congruence. Qed.

Lemma less_lex_false {A} (l1 l2 : A → A → bool) a b :
  less_lex l1 l2 a b = false ↔ l1 a b = false ∧ (l1 b a = true ∨ l2 a b = false).
Proof. unfold less_lex. destruct (l1 a b), (l1 b a); intuition congruence. Qed.

(** [l1 a c] holds as soon as one of the two links is strict. *)
Lemma less_weak_l {A} (l : A → A → bool) `{!StrictWeak l} a b c :
  l a b = true → l c b = false → l a c = true.
Proof.
  intros H1 H2. destruct (l a c) eqn:E; [done|].
  pose proof (less_neg_trans _ _ _ E H2). congruence.
Qed.
Lemma less_weak_r {A} (l : A → A → bool) `{!StrictWeak l} a b c :
  l b a = false → l b c = true → l a c = true.
Proof.
  intros H1 H2. destruct (l a c) eqn:E; [done|].
  pose proof (less_neg_trans _ _ _ H1 E). congruence.
Qed.

#[export] Instance less_lex_weak {A} (l1 l2 : A → A → bool) :
  StrictWeak l1 → StrictWeak l2 → StrictWeak (less_lex l1 l2).
Proof.
  intros S1 S2. constructor.
  - intros a. apply less_lex_false. rewrite !less_irrefl. auto.
  - intros a b c. rewrite !less_lex_true.
    intros [H|(H1 & H2 & H3)] [K|(K1 & K2 & K3)].
    + left. by eapply less_trans.
    + left. by eapply less_weak_l.
    + left. by eapply less_weak_r.
    + right. split_and!; eapply less_neg_trans || eapply less_trans; eauto.
  - intros a b c. rewrite !less_lex_false. intros [H1 H2] [K1 K2].
    split; [by eapply less_neg_trans|].
    destruct H2 as [H2|H2]; [left; by eapply less_weak_r|].
    destruct K2 as [K2|K2]; [left; by eapply less_weak_l|].
    right. by eapply less_neg_trans.
Qed.

#[export] Instance Zltb_weak : StrictWeak Z.ltb.
Proof.
  constructor; intros *; rewrite ?Z.ltb_lt, ?Z.ltb_ge; lia.
Qed.

(** Go compares strings bytewise, as [String.ltb] does. *)
Definition string_lt (a b : string) : bool := String.ltb a b.

Lemma string_lt_le a b : string_lt a b = true ↔ ¬ String.le b a.
Proof.
  unfold string_lt, String.ltb, String.le, String.leb.
  rewrite (String.compare_antisym b a).
  destruct (String.compare a b); simpl; unfold Is_true; intuition congruence.
Qed.

Lemma string_lt_false a b : string_lt a b = false ↔ String.le b a.
Proof.
  pose proof (string_lt_le a b) as H.
  destruct (string_lt a b), (decide (String.le b a)); intuition congruence.
Qed.

#[export] Instance string_lt_weak : StrictWeak string_lt.
Proof.
  constructor.
  - intros a. by apply string_lt_false.
  - intros a b c. rewrite !string_lt_le. intros H1 H2 H3. apply H1.
    destruct (total String.le b c) as [?|?]; [by etrans|done].
  - intros a b c. rewrite !string_lt_false. intros. by etrans.
Qed.

Lemma string_lt_sep a b : string_lt a b = false → string_lt b a = false → a = b.
Proof. rewrite !string_lt_false. intros. by apply (anti_symm String.le). Qed.

Lemma length_filter_fmap {A B} (f : A → B) (P : B → Prop) `{!∀ y, Decision (P y), !∀ x, Decision (P (f x))} (l : list A) :
  length (filter P (f <$> l)) = length (filter (λ x, P (f x)) l).
Proof.
  induction l as [|x l IH]; [done|]. rewrite fmap_cons, !filter_cons.
  destruct (decide (P (f x))), (decide (P (f x))); simpl; by rewrite ?IH.
Qed.
