(* ===== verification/GoStd.v ===== *)
(** * GoStd

    The parts of Go's standard library the modelled packages call: [strings]
    ([TrimSpace], [EqualFold], [ToLower], [Split], [Fields], [Contains],
    [HasPrefix]), [strconv] ([Atoi], decimal formatting), and [time] (instants,
    calendar fields, [time.Date] in a location).

    A Go string is a byte string, here [string].  White space is Unicode's, as
    in [unicode.IsSpace], recognised by its UTF-8 encodings.  [EqualFold] is exact
    when one of its operands is ASCII; [ToLower] changes ASCII letters only. *)

From Stdlib Require Ascii.
From S2P Require Import Prelude.
Export Stdlib.Strings.Ascii (ascii(..)).
Export (notations) Stdlib.Strings.Ascii.

(** ** strings *)

Definition byte_of (c : ascii) : Z := Z.of_N (Stdlib.Strings.Ascii.N_of_ascii c).

(** The encodings of the code points [unicode.IsSpace] accepts. *)
Definition space1 (a : ascii) : bool :=
  let x := byte_of a in ((9 <=? x) && (x <=? 13)) || (x =? 32).
Definition space2 (a b : ascii) : bool :=
  let x := byte_of a in let y := byte_of b in (x =? 194) && ((y =? 133) || (y =? 160)).
Definition space3 (a b c : ascii) : bool :=
  let x := byte_of a in let y := byte_of b in let z := byte_of c in
  ((x =? 225) && (y =? 154) && (z =? 128)) ||
  ((x =? 226) && (y =? 128) &&
    (((128 <=? z) && (z <=? 138)) || (z =? 168) || (z =? 169) || (z =? 175))) ||
  ((x =? 226) && (y =? 129) && (z =? 159)) ||
  ((x =? 227) && (y =? 128) && (z =? 128)).

Section trim.
Variables (s2 : ascii → ascii → bool) (s3 : ascii → ascii → ascii → bool).

Fixpoint trim_front (s : string) : string :=
  match s with
  | EmptyString => EmptyString
  | String a r1 =>
    if space1 a then trim_front r1 else
    match r1 with
    | String b r2 =>
      if s2 a b then trim_front r2 else
      match r2 with
      | String c r3 => if s3 a b c then trim_front r3 else s
      | EmptyString => s
      end
    | EmptyString => s
    end
  end.

End trim.

Definition trim_left : string → string := trim_front space2 space3.
Definition trim_right (s : string) : string :=
  String.rev (trim_front (λ a b, space2 b a) (λ a b c, space3 c b a) (String.rev s)).

(** [strings.TrimSpace]. *)
Definition TrimSpace (s : string) : string := trim_right (trim_left s).

(** Trimming is idempotent: what remains begins and ends with no white space, and
    neither side of the cut exposes any. *)
Abbreviation chars := Stdlib.Strings.String.list_ascii_of_string.

Lemma chars_inj s t : chars s = chars t → s = t.
Proof. revert t. induction s as [|a s IH]; intros [|b t] [=]; f_equal; auto. Qed.

Lemma chars_rev s : chars (String.rev s) = reverse (chars s).
Proof.
  assert (∀ t, chars (String.rev_app s t) = reverse (chars s) ++ chars t) as H.
  { induction s as [|a s IH]; intros t; simpl; [done|]. rewrite IH, reverse_cons. by rewrite <-app_assoc. }
  unfold String.rev. rewrite H. simpl. by rewrite app_nil_r.
Qed.

Lemma string_rev_involutive s : String.rev (String.rev s) = s.
Proof. apply chars_inj. by rewrite !chars_rev, reverse_involutive. Qed.

Section trim_laws.
Variables (s2 : ascii → ascii → bool) (s3 : ascii → ascii → ascii → bool).
#[local] Abbreviation trim := (trim_front s2 s3).

Lemma trim_front_spec s : chars (trim s) `suffix_of` chars s ∧ trim (trim s) = trim s.
Proof.
  remember (length (chars s)) as n eqn:Hn. revert s Hn.
  induction (lt_wf n) as [n _ IH]. intros s ->.
  assert (∀ t, (length (chars t) < length (chars s))%nat → chars t `suffix_of` chars s → trim s = trim t →
    chars (trim s) `suffix_of` chars s ∧ trim (trim s) = trim s) as Hcut.
  { intros t Hl Hs ->. destruct (IH _ Hl t eq_refl) as [H ->]. split; [by trans (chars t)|done]. }
  assert (trim s = s → chars (trim s) `suffix_of` chars s ∧ trim (trim s) = trim s) as Hstay.
  { intros E. by rewrite !E. }
  destruct s as [|a r]; [by apply Hstay|].
  destruct (space1 a) eqn:E1.
  { apply (Hcut r); simpl; [lia|by apply suffix_cons_r|by rewrite E1]. }
  destruct r as [|b r]; [apply Hstay; simpl; by rewrite E1|].
  destruct (s2 a b) eqn:E2.
  { apply (Hcut r); simpl; [lia|by do 2 apply suffix_cons_r|by rewrite E1, E2]. }
  destruct r as [|c r]; [apply Hstay; simpl; by rewrite E1, E2|].
  destruct (s3 a b c) eqn:E3.
  { apply (Hcut r); simpl; [lia|by do 3 apply suffix_cons_r|by rewrite E1, E2, E3]. }
  apply Hstay. simpl. by rewrite E1, E2, E3.
Qed.

Lemma trim_front_shorter s : (length (chars (trim s)) ≤ length (chars s))%nat.
Proof. apply suffix_length, trim_front_spec. Qed.

(** A prefix of a string with nothing to trim has nothing to trim. *)
Lemma trim_front_prefix s z : trim s = s → chars z `prefix_of` chars s → trim z = z.
Proof.
  intros Hs [w Hz].
  assert (∀ r, (length (chars r) < length (chars s))%nat → trim r ≠ s) as Hne.
  { intros r Hl E. pose proof (trim_front_shorter r) as L. rewrite E in L. lia. }
  destruct z as [|a z]; [done|]. destruct s as [|a' s]; [done|]. simpl in Hz. injection Hz as -> Hz.
  simpl in *. destruct (space1 a); [by destruct (Hne s); [lia|]|].
  destruct z as [|b z]; [done|]. destruct s as [|b' s]; [done|]. simpl in Hz. injection Hz as -> Hz.
  simpl in *. destruct (s2 a b); [by destruct (Hne s); [lia|]|].
  destruct z as [|c z]; [done|]. destruct s as [|c' s]; [done|]. simpl in Hz. injection Hz as -> Hz.
  simpl in *. destruct (s3 a b c); [by destruct (Hne s); [lia|]|done].
Qed.

End trim_laws.

Lemma TrimSpace_idemp s : TrimSpace (TrimSpace s) = TrimSpace s.
Proof.
  unfold TrimSpace. set (y := trim_left s).
  assert (trim_left (trim_right y) = trim_right y) as ->.
  { apply (trim_front_prefix _ _ y); [apply trim_front_spec|].
    unfold trim_right. rewrite chars_rev.
    destruct (trim_front_spec (λ a b, space2 b a) (λ a b c, space3 c b a) (String.rev y)) as [[k Hk] _].
    rewrite chars_rev in Hk. exists (reverse k).
    by rewrite <-(reverse_involutive (chars y)), Hk, reverse_app. }
  unfold trim_right. rewrite string_rev_involutive. f_equal. apply trim_front_spec.
Qed.

(** [strings.TrimSpace(s) == ""]. *)
Definition blank (s : string) : bool := bool_decide (TrimSpace s = "").

(** Case folding of ASCII letters; U+212A and U+017F are the only other code
    points that fold to an ASCII letter. *)
Definition lower_byte (a : ascii) : ascii :=
  let x := byte_of a in
  if (65 <=? x) && (x <=? 90) then Stdlib.Strings.Ascii.ascii_of_N (Z.to_N (x + 32)) else a.

Fixpoint fold_case (s : string) : string :=
  match s with
  | EmptyString => EmptyString
  | String a r1 =>
    match r1 with
    | String b r2 =>
      if (byte_of a =? 197) && (byte_of b =? 191) then String "s" (fold_case r2) else
      match r2 with
      | String c r3 =>
        if (byte_of a =? 226) && (byte_of b =? 132) && (byte_of c =? 170)
        then String "k" (fold_case r3) else String (lower_byte a) (fold_case r1)
      | EmptyString => String (lower_byte a) (fold_case r1)
      end
    | EmptyString => String (lower_byte a) EmptyString
    end
  end.

(** [strings.EqualFold]. *)
Definition EqualFold (a b : string) : bool := bool_decide (fold_case a = fold_case b).

(** [strings.ToLower], and [lower()] of PostgreSQL, on texts without letters beyond ASCII:
    those are left as they are here, where Go and PostgreSQL fold them.  Runtimes, schemes
    of URLs and hexadecimal digests have none; for e-mail addresses, the terms of a search
    and secrets with a percent sign, the model says what the code does when they have
    none. *)
Fixpoint ToLower (s : string) : string :=
  match s with
  | EmptyString => EmptyString
  | String a r => String (lower_byte a) (ToLower r)
  end.

(** [strings.Split] at a one-byte separator. *)
Fixpoint split_on (sep : ascii) (s : string) : list string :=
  match s with
  | EmptyString => [EmptyString]
  | String a r =>
    if bool_decide (a = sep) then EmptyString :: split_on sep r
    else match split_on sep r with
         | [] => [String a EmptyString]
         | x :: rest => String a x :: rest
         end
  end.

Fixpoint contains_byte (c : ascii) (s : string) : bool :=
  match s with
  | EmptyString => false
  | String a r => bool_decide (a = c) || contains_byte c r
  end.

Fixpoint HasPrefix (s prefix : string) : bool :=
  match prefix, s with
  | EmptyString, _ => true
  | String p ps, String a r => bool_decide (a = p) && HasPrefix r ps
  | String _ _, EmptyString => false
  end.

(** Every white-space code point as one blank. *)
Fixpoint unify_spaces (s : string) : string :=
  match s with
  | EmptyString => EmptyString
  | String a r1 =>
    if space1 a then String " " (unify_spaces r1) else
    match r1 with
    | String b r2 =>
      if space2 a b then String " " (unify_spaces r2) else
      match r2 with
      | String c r3 =>
        if space3 a b c then String " " (unify_spaces r3) else String a (unify_spaces r1)
      | EmptyString => String a (unify_spaces r1)
      end
    | EmptyString => String a EmptyString
    end
  end.

(** [strings.Fields]. *)
Definition Fields (s : string) : list string :=
  List.filter (λ f, negb (bool_decide (f = EmptyString))) (split_on " " (unify_spaces s)).

Definition len (s : string) : Z := Z.of_nat (String.length s).

(** ** strconv *)

Definition digit_of (c : ascii) : option Z :=
  let x := byte_of c in if (48 <=? x) && (x <=? 57) then Some (x - 48) else None.

(** The value of a string of decimal digits, [None] when another byte occurs. *)
Fixpoint digits_value (acc : Z) (s : string) : option Z :=
  match s with
  | EmptyString => Some acc
  | String c r => match digit_of c with Some d => digits_value (10 * acc + d) r | None => None end
  end.

Definition unsigned_value (s : string) : option Z :=
  match s with EmptyString => None | _ => digits_value 0 s end.

(** [strconv.Atoi]: an optional sign, at least one digit, within [int]. *)
Definition Atoi (s : string) : option Z :=
  let signed :=
    match s with
    | String c r =>
      if bool_decide (c = "-"%char) then Z.opp <$> unsigned_value r
      else if bool_decide (c = "+"%char) then unsigned_value r
      else unsigned_value s
    | EmptyString => None
    end in
  match signed with
  | Some z => if (int64_min <=? z) && (z <=? int64_max) then Some z else None
  | None => None
  end.

Definition digit_char (d : Z) : ascii := Stdlib.Strings.Ascii.ascii_of_N (Z.to_N (48 + d)).

(** Decimal representation of a non-negative number, most significant digit
    first; [fuel] bounds the number of digits. *)
Fixpoint format_digits (fuel : nat) (z : Z) (acc : string) : string :=
  match fuel with
  | O => acc
  | S fuel =>
    let acc := String (digit_char (z mod 10)) acc in
    if z <? 10 then acc else format_digits fuel (z / 10) acc
  end.

Definition digits_fuel (z : Z) : nat := S (Z.to_nat (Z.log2 z)).
Definition format_nonneg (z : Z) : string := format_digits (digits_fuel z) z EmptyString.

(** [%d] and [strconv.Itoa]. *)
Definition format_int (z : Z) : string := if z <? 0 then String "-" (format_nonneg (- z)) else format_nonneg z.

Lemma digit_of_char d : 0 ≤ d < 10 → digit_of (digit_char d) = Some d.
Proof.
  intros H. assert (d = 0 ∨ d = 1 ∨ d = 2 ∨ d = 3 ∨ d = 4 ∨ d = 5 ∨ d = 6 ∨ d = 7 ∨ d = 8 ∨ d = 9)
    as Hd by lia.
  repeat (destruct Hd as [->|Hd]; [reflexivity|]). by subst.
Qed.

Lemma digits_value_app acc s t :
  digits_value acc (s +:+ t) = digits_value acc s ≫= λ v, digits_value v t.
Proof.
  revert acc. induction s as [|c s IH]; intros acc; simpl; [done|].
  change (String.app (String c s) t) with (String c (s +:+ t)). simpl.
  destruct (digit_of c); [apply IH|done].
Qed.

(** Formatting then reading a number gives it back. *)
Lemma digits_fuel_step z : 10 ≤ z → (digits_fuel (z / 10) < digits_fuel z)%nat.
Proof.
  intros H. unfold digits_fuel. apply (proj1 (Nat.succ_lt_mono _ _)).
  assert (1 ≤ z / 10) by (apply Z.div_le_lower_bound; lia).
  assert (Z.log2 (z / 10) < Z.log2 z); [|pose proof (Z.log2_nonneg (z / 10)); lia].
  apply Z.log2_lt_pow2; [lia|].
  apply Z.div_lt_upper_bound; [lia|].
  pose proof (Z.log2_spec z ltac:(lia)) as [_ Hz].
  rewrite Z.pow_succ_r in Hz by apply Z.log2_nonneg.
  pose proof (Z.pow_pos_nonneg 2 (Z.log2 z) ltac:(lia) (Z.log2_nonneg z)). lia.
Qed.

Lemma format_digits_value fuel z acc v :
  0 ≤ z → (digits_fuel z ≤ fuel)%nat →
  digits_value v (format_digits fuel z acc) =
    digits_value (v * 10 ^ Z.of_nat (String.length (format_digits fuel z "")) + z) acc.
Proof.
  revert z acc v. induction fuel as [|fuel IH]; intros z acc v Hz Hf;
    [unfold digits_fuel in Hf; lia|].
  simpl. destruct (Z.ltb_spec z 10) as [Hlt|Hge].
  - simpl. rewrite Z.mod_small by lia. rewrite digit_of_char by lia.
    f_equal. lia.
  - pose proof (digits_fuel_step z Hge) as Hs.
    assert (0 ≤ z / 10) by (apply Z.div_pos; lia).
    rewrite (IH (z / 10)) by (lia || done). simpl.
    rewrite digit_of_char by (apply Z.mod_pos_bound; lia).
    assert (∀ a, String.length (format_digits fuel (z / 10) a)
                 = (String.length (format_digits fuel (z / 10) "") + String.length a)%nat) as Hlen.
    { generalize (z / 10). clear. induction fuel as [|f IHf]; intros z a; simpl; [done|].
      destruct (z <? 10); [simpl; lia|]. rewrite IHf, (IHf _ (String _ "")). simpl. lia. }
    rewrite (Hlen (String _ "")). simpl. f_equal.
    rewrite Nat2Z.inj_add. change (Z.of_nat 1) with 1.
    rewrite Z.pow_add_r by lia. rewrite Z.pow_1_r.
    pose proof (Z.div_mod z 10 ltac:(lia)). lia.
Qed.

Lemma format_nonneg_value z : 0 ≤ z → digits_value 0 (format_nonneg z) = Some z.
Proof.
  intros H. unfold format_nonneg. rewrite format_digits_value by done. simpl. f_equal; lia.
Qed.

(** ** time

    Instants are nanoseconds since the Unix epoch; durations are nanoseconds. *)

Definition Time : Type := Z.
Definition Duration : Type := Z.

Definition nanosecond : Duration := 1.
Definition second : Duration := 1000000000.
Definition minute : Duration := 60 * second.
Definition hour : Duration := 60 * minute.

(** [time.Time{}], January 1 of year 1. *)
Definition zero_time : Time := -62135596800 * second.
Definition is_zero_time (t : Time) : bool := t =? zero_time.

Definition unix_seconds (t : Time) : Z := t / second.
Definition unix_milli (t : Time) : Z := t / 1000000.
Definition milliseconds (d : Duration) : Z := go_div d 1000000.

(** [t.Truncate(time.Minute)]; the zero time is a whole number of minutes from
    the epoch. *)
Definition truncate_minute (t : Time) : Time := (t / minute) * minute.

(** Proleptic Gregorian calendar.  [days] counts from 1970-01-01; the calendar
    repeats every 400 years, 146097 days. *)
Definition doe_civil (doe : Z) : Z * Z * Z :=
  let yoe := (doe - doe / 1460 + doe / 36524 - doe / 146096) / 365 in
  let doy := doe - (365 * yoe + yoe / 4 - yoe / 100) in
  let mp := (5 * doy + 2) / 153 in
  let d := doy - (153 * mp + 2) / 5 + 1 in
  let m := if mp <? 10 then mp + 3 else mp - 9 in
  (yoe, m, d).

Definition civil_from_days (days : Z) : Z * Z * Z :=
  let z := days + 719468 in
  let '(yoe, m, d) := doe_civil (z mod 146097) in
  (yoe + 400 * (z / 146097) + (if m <=? 2 then 1 else 0), m, d).

Definition days_from_civil (y m d : Z) : Z :=
  let y := if m <=? 2 then y - 1 else y in
  let yoe := y mod 400 in
  let doy := (153 * (if m <=? 2 then m + 9 else m - 3) + 2) / 5 + d - 1 in
  (y / 400) * 146097 + (yoe * 365 + yoe / 4 - yoe / 100 + doy) - 719468.

Lemma doe_year_bounds doe :
  0 ≤ doe < 146097 →
  let yoe := (doe - doe / 1460 + doe / 36524 - doe / 146096) / 365 in
  0 ≤ yoe < 400 ∧ 0 ≤ doe - (365 * yoe + yoe / 4 - yoe / 100) ≤ 365.
Proof. intros H yoe. subst yoe. Z.div_mod_to_equations. lia. Qed.

Lemma doe_civil_spec doe :
  0 ≤ doe < 146097 →
  let '(yoe, m, d) := doe_civil doe in
  0 ≤ yoe < 400 ∧ 1 ≤ m ≤ 12 ∧ 1 ≤ d ≤ 31 ∧
  yoe * 365 + yoe / 4 - yoe / 100 +
    ((153 * (if m <=? 2 then m + 9 else m - 3) + 2) / 5 + d - 1) = doe.
Proof.
  intros H. unfold doe_civil. pose proof (doe_year_bounds doe H) as [Hy Hd].
  cbv zeta in Hy, Hd.
  set (yoe := (doe - doe / 1460 + doe / 36524 - doe / 146096) / 365) in *.
  set (doy := doe - (365 * yoe + yoe / 4 - yoe / 100)) in *.
  assert (0 ≤ (5 * doy + 2) / 153 ≤ 11) as Hmp by (Z.div_mod_to_equations; lia).
  assert (1 ≤ doy - (153 * ((5 * doy + 2) / 153) + 2) / 5 + 1 ≤ 31) as Hdd
    by (Z.div_mod_to_equations; lia).
  set (mp := (5 * doy + 2) / 153) in *.
  destruct (Z.ltb_spec mp 10); split_and!; try lia.
  - destruct (Z.leb_spec (mp + 3) 2); [lia|].
    replace (mp + 3 - 3) with mp by lia. lia.
  - destruct (Z.leb_spec (mp - 9) 2); [|lia].
    replace (mp - 9 + 9) with mp by lia. lia.
Qed.

Lemma civil_roundtrip days :
  let '(y, m, d) := civil_from_days days in
  days_from_civil y m d = days ∧ 1 ≤ m ≤ 12 ∧ 1 ≤ d ≤ 31.
Proof.
  unfold civil_from_days. set (z := days + 719468).
  pose proof (Z.mod_pos_bound z 146097 ltac:(lia)) as Hb.
  pose proof (doe_civil_spec _ Hb) as Hok.
  destruct (doe_civil (z mod 146097)) as [[yoe m] d].
  destruct Hok as (Hy & Hm & Hd & Heq).
  split; [|lia]. unfold days_from_civil.
  assert ((if m <=? 2 then yoe + 400 * (z / 146097) + (if m <=? 2 then 1 else 0) - 1
           else yoe + 400 * (z / 146097) + (if m <=? 2 then 1 else 0))
          = yoe + (z / 146097) * 400) as -> by (destruct (m <=? 2); lia).
  rewrite Z_div_plus_full, Z_mod_plus_full by lia.
  rewrite (Z.div_small yoe), (Z.mod_small yoe) by lia.
  pose proof (Z.div_mod z 146097 ltac:(lia)). unfold z in *. lia.
Qed.

(** A location gives the offset from UTC, in seconds, in force at an instant
    given in Unix seconds. *)
Definition Location : Type := Z → Z.
Definition UTC : Location := λ _, 0.

Definition local_seconds (loc : Location) (t : Time) : Z :=
  unix_seconds t + loc (unix_seconds t).

Record Civil := mkCivil {
  cv_year : Z; cv_month : Z; cv_day : Z; cv_hour : Z; cv_minute : Z; cv_second : Z;
  cv_weekday : Z
}.

(** [t.In(loc)] with its [Year], [Month], [Day], [Hour], [Minute], [Second] and
    [Weekday] (Sunday is 0). *)
Definition civil_in (loc : Location) (t : Time) : Civil :=
  let s := local_seconds loc t in
  let '(y, m, d) := civil_from_days (s / 86400) in
  mkCivil y m d ((s / 3600) mod 24) ((s / 60) mod 60) (s mod 60) ((s / 86400 + 4) mod 7).

(** [time.Date] in a location: the wall clock read as UTC, corrected by the
    offset found there, or by the offset at the corrected instant when the first
    one does not apply to it. *)
Definition date_in (loc : Location) (y m d secs nsec : Z) : Time :=
  let unix := days_from_civil y m d * 86400 + secs in
  let utc := unix - loc unix in
  (if loc utc =? loc unix then utc else unix - loc utc) * second + nsec.

(** [t.AddDate(years, 0, 0)]. *)
Definition add_years (loc : Location) (t : Time) (years : Z) : Time :=
  let s := local_seconds loc t in
  let '(y, m, d) := civil_from_days (s / 86400) in
  date_in loc (y + years) m d (s mod 86400) (t mod second).

Lemma civil_in_bounds loc t :
  let c := civil_in loc t in
  1 ≤ cv_month c ≤ 12 ∧ 1 ≤ cv_day c ≤ 31 ∧ 0 ≤ cv_hour c < 24 ∧
  0 ≤ cv_minute c < 60 ∧ 0 ≤ cv_weekday c < 7.
Proof.
  unfold civil_in. pose proof (civil_roundtrip (local_seconds loc t / 86400)) as H.
  destruct (civil_from_days _) as [[y m] d]. simpl.
  destruct H as (_ & Hm & Hd).
  split_and!; try apply Hm; try apply Hd; apply Z.mod_pos_bound; lia.
Qed.
