(* ===== verification/GoFloat.v ===== *)
(** * GoFloat

    [float64] of Go, by the Standard Library's executable specification of IEEE 754
    (binary64, round to nearest even): conversion from integers, division,
    multiplication, [math.Min] on the values the code computes, and conversion back. *)

From Stdlib Require Import SpecFloat.
From S2P Require Import Prelude GoStd.

Definition float64 : Type := spec_float.

Definition float_of_int (z : Z) : float64 := binary_normalize 53 1024 z 0 false.
Definition float_div (x y : float64) : float64 := SFdiv 53 1024 x y.
Definition float_mul (x y : float64) : float64 := SFmul 53 1024 x y.

(** [math.Min] on finite values and infinities. *)
Definition float_min (x y : float64) : float64 := if SFltb x y then x else y.

(** The value of a finite float, truncated towards zero. *)
Definition float_truncate (x : float64) : Z :=
  match x with
  | S754_finite s m e =>
    let magnitude := match e with
                     | Z0 => Zpos m
                     | Zpos p => Zpos m * 2 ^ Zpos p
                     | Zneg p => Zpos m / 2 ^ Zpos p
                     end in
    if s then - magnitude else magnitude
  | _ => 0
  end.

(** [int(x)]; out of range, NaN and infinities give what amd64 gives. *)
Definition int_of_float (x : float64) : Z :=
  match x with
  | S754_nan | S754_infinity _ => - 2 ^ 63
  | _ => let z := float_truncate x in if (- 2 ^ 63 <=? z) && (z <? 2 ^ 63) then z else - 2 ^ 63
  end.

Example float_percent : int_of_float (float_mul (float_div (float_of_int 29) (float_of_int 100)) (float_of_int 100)) = 28.
Proof. by vm_compute. Qed.
Example float_third : int_of_float (float_mul (float_div (float_of_int 1) (float_of_int 3)) (float_of_int 100)) = 33.
Proof. by vm_compute. Qed.
Example float_min_full : float_min (float_of_int 250) (float_of_int 100) = float_of_int 100.
Proof. by vm_compute. Qed.
