(* ===== verification/Model.v ===== *)
(** * Model

    The data the components exchange: the task model ([internal/task/model.go]),
    the messages between the platform and its agents ([internal/agentprotocol]),
    the scheduler's server snapshot ([internal/server/model.go]) and the sentinel
    errors of the packages.

    A Go string type whose values are only the listed constants (the database
    constrains the column) is an inductive type; a string type that also carries
    caller input keeps its strings.  [*T] is [option T] and [map[string]T] is
    [gmap string T]. *)

From S2P Require Import Prelude GoStd.

(** ** Errors, up to [errors.Is]: wrapping with [%w] keeps the sentinel, and a
    failure of the database, of Redis or of a connection is [EStorage] with the
    context string the code adds to it. *)
Inductive Error : Type :=
| EStorage (context : string)
(* task *)
| ErrRunNotFound | ErrInvalidRunEvent | ErrExecutionTokenMismatch | ErrRunEventConflict
| ErrRunEventSequence | ErrRunNotRetryable | ErrRunNotCancellable | ErrRunCommandUnavailable
| ErrDefinitionNotFound | ErrDefinitionDisabled | ErrInvalidDefinition | ErrVersionUnavailable
| ErrDuplicateRun | ErrInvalidParameters | ErrInvalidCron | errScheduleChanged
(* scheduler *)
| ErrInvalidEvent | ErrInvalidLeaseRequest
(* agentprotocol and server *)
| ErrInvalidPolicy | ErrAgentConnectionUnavailable
(* agentupgrade *)
| ErrInvalidPlan | ErrActivePlanExists | ErrServerIneligible | ErrUpgradeUnsupported
| ErrArtifactUnavailable | ErrNoUpgradeNeeded | ErrVersionNotComparable | ErrDowngradeNotAllowed
| ErrRollbackSourceChanged | ErrUpgradeSourceChanged | ErrReleaseNotFound | ErrPlanNotFound
| ErrTargetNotFound | ErrInvalidTransition
(* server *)
| ErrInvalidHeartbeat | ErrServerNotFound | ErrInvalidServerUpdate | ErrEnrollmentTokenInvalid
| ErrAgentCredentialInvalid | ErrInvalidCredentialOperation | ErrInvalidGroup | ErrGroupNotFound | ErrGroupNameExists
(* script *)
| ErrSyncNotFound | ErrInvalidSyncResult | ErrVersionNotFound | ErrInvalidDistribution
| ErrScriptNotFound | ErrInvalidScript | ErrInvalidDraft | ErrInvalidPublish | ErrInvalidReleaseNotes | ErrInvalidScriptParameters
| ErrInvalidArtifacts | ErrScriptContentTooLarge
(* auth *)
| ErrInvalidCredentials | ErrUserNotFound | ErrSessionNotFound | ErrInvalidRoles | ErrMemberNotFound | ErrInvalidMember
| ErrDuplicateEmail | ErrMemberStateConflict | ErrCannotModifySelf | ErrLastAdmin | ErrInvalidPasswordHash | ErrPasswordRejected
| ErrPasswordRateLimited | ErrPasswordChanged
(* alert and notification *)
| ErrInvalidAlert | ErrAlertNotFound | ErrNotificationUnavailable | ErrInvalidWebhook | ErrInvalidConfig | ErrInvalidRequest
| ErrNotConfigured | ErrDeliveryNotFound
(* secret and logstream *)
| ErrInvalidSecret | ErrSecretNotFound | ErrKeyUnavailable | ErrRunAccessDenied | ErrInvalidChunk | ErrSequenceGap | ErrChunkConflict
| ErrRunNotArchivable
(* artifact; a text for an error without a name *)
| ErrObjectMissing | ErrObjectConflict | EOther (text : string)
(* errors.Join *)
| EJoined (errors : list Error).

Abbreviation M S A := (Eff Error S A).
Abbreviation Result A := (Res (Error := Error) A).

(** ** task/model.go *)

Inductive RunState : Type :=
| Queued | Scheduling | Assigned | Syncing | Running
| Succeeded | Failed | TimedOut | Cancelled | Expired | Unknown.

#[export] Instance RunState_eq_dec : EqDecision RunState.
Proof. solve_decision. Defined.

Definition Terminal (s : RunState) : bool :=
  match s with
  | Succeeded | Failed | TimedOut | Cancelled | Expired => true
  | _ => false
  end.

Definition VersionLatest : string := "latest".
Definition VersionPinned : string := "pinned".

Definition TriggerManual : string := "manual".
Definition TriggerSchedule : string := "schedule".
Definition TriggerRetry : string := "retry".

Record Resources : Type := mkResources {
  CPUMillicores : Z;
  MemoryBytes : Z;
  DiskBytes : Z
}.

#[export] Instance Resources_eq_dec : EqDecision Resources.
Proof. solve_decision. Defined.

Record RetryPolicy : Type := mkRetryPolicy {
  MaxRetries : Z;
  BackoffSeconds : Z
}.

(** A value of type [any] as the JSON decoder and its callers build it.  Floats
    are split by what the validation asks of them. *)
Inductive FloatValue : Type := FFinite (repr : string) | FNaN | FInf.

Inductive Value : Type :=
| VNil
| VBool (b : bool)
| VString (s : string)
| VFloat64 (f : FloatValue)
| VFloat32 (f : FloatValue)
| VInteger (z : Z)
| VJSONNumber (repr : string) (parsed : option FloatValue)
| VArray (items : list Value)
| VObject (fields : list (string * Value)).

(** [Definition] of task/model.go. *)
Record TaskDefinition : Type := mkTaskDefinition {
  td_ID : string; td_Name : string; td_Description : string;
  td_ScriptID : string; td_ScriptName : string;
  td_VersionPolicy : string; td_PinnedVersionID : string;
  td_Parameters : gmap string Value; td_SecretRefs : gmap string string;
  td_Priority : Z; td_RequiredLabels : gmap string string; td_RequiredRuntime : string;
  td_Resources : Resources; td_MaxConcurrency : Z; td_TimeoutSeconds : Z;
  td_MaxWaitSeconds : Z; td_RetryPolicy : RetryPolicy; td_Idempotent : bool;
  td_Enabled : bool; td_CreatedBy : string; td_CreatedAt : Time; td_UpdatedAt : Time
}.

Record CreateInput : Type := mkCreateInput {
  ci_Name : string; ci_Description : string; ci_ScriptID : string;
  ci_VersionPolicy : string; ci_PinnedVersionID : string;
  ci_Parameters : option (gmap string Value); ci_SecretRefs : option (gmap string string);
  ci_Priority : Z; ci_RequiredLabels : option (gmap string string);
  ci_RequiredRuntime : string; ci_Resources : Resources; ci_MaxConcurrency : Z;
  ci_TimeoutSeconds : Z; ci_MaxWaitSeconds : Z; ci_RetryPolicy : RetryPolicy;
  ci_Idempotent : bool; ci_Enabled : bool; ci_CreatedBy : string
}.

#[export] Instance eta_CreateInput : Eta CreateInput := λ i,
  mkCreateInput (ci_Name i) (ci_Description i) (ci_ScriptID i) (ci_VersionPolicy i)
    (ci_PinnedVersionID i) (ci_Parameters i) (ci_SecretRefs i) (ci_Priority i)
    (ci_RequiredLabels i) (ci_RequiredRuntime i) (ci_Resources i) (ci_MaxConcurrency i)
    (ci_TimeoutSeconds i) (ci_MaxWaitSeconds i) (ci_RetryPolicy i) (ci_Idempotent i)
    (ci_Enabled i) (ci_CreatedBy i).

Record Trigger : Type := mkTrigger {
  tg_Type : string;
  tg_RequestedBy : string;
  tg_Parameters : gmap string Value;
  tg_ScheduledFor : option Time
}.

Record Run : Type := mkRun {
  RequiresArtifacts : bool;
  run_ID : string;
  run_DefinitionID : string;
  run_ScriptVersionID : string;
  run_TriggerType : string;
  run_State : RunState;
  run_Parameters : gmap string Value;
  run_RequiredLabels : gmap string string;
  run_RequiredRuntime : string;
  run_Priority : Z;
  run_Resources : Resources;
  run_MaxConcurrency : Z;
  run_TimeoutSeconds : Z;
  run_MaxWaitSeconds : Z;
  run_RetryPolicy : RetryPolicy;
  run_Idempotent : bool;
  run_ScheduledFor : option Time;
  run_QueuedAt : Time;
  run_CreatedAt : Time
}.

#[export] Instance eta_Run : Eta Run := λ r,
  mkRun (RequiresArtifacts r) (run_ID r) (run_DefinitionID r) (run_ScriptVersionID r)
    (run_TriggerType r) (run_State r) (run_Parameters r) (run_RequiredLabels r)
    (run_RequiredRuntime r) (run_Priority r) (run_Resources r) (run_MaxConcurrency r)
    (run_TimeoutSeconds r) (run_MaxWaitSeconds r) (run_RetryPolicy r) (run_Idempotent r)
    (run_ScheduledFor r) (run_QueuedAt r) (run_CreatedAt r).

Record Schedule : Type := mkSchedule {
  sch_ID : string; sch_DefinitionID : string; sch_CronExpression : string;
  sch_Timezone : string; sch_Enabled : bool; sch_NextRunAt : option Time;
  sch_CreatedAt : Time; sch_UpdatedAt : Time
}.

Record ScheduleInput : Type := mkScheduleInput {
  si_DefinitionID : string; si_CronExpression : string; si_Timezone : string; si_Enabled : bool
}.

(** ** agentprotocol *)

(** usage.go: a [None] counter means that the host cannot report it. *)
Record ResourceUsage : Type := mkResourceUsage {
  CPUTimeMillis : option Z;
  UsageMemoryBytes : option Z;
  PeakMemoryBytes : option Z;
  Processes : option Z;
  SampledAt : Time
}.

#[export] Instance ResourceUsage_eq_dec : EqDecision ResourceUsage.
Proof. solve_decision. Defined.

Definition usage_counters (u : ResourceUsage) : list (option Z) :=
  [CPUTimeMillis u; UsageMemoryBytes u; PeakMemoryBytes u; Processes u].

(** The loop of [Valid]: [None] when a negative counter ends it, otherwise the
    final value of [found]. *)
Fixpoint usage_found (found : bool) (counters : list (option Z)) : option bool :=
  match counters with
  | [] => Some found
  | None :: rest => usage_found found rest
  | Some v :: rest => if v <? 0 then None else usage_found true rest
  end.

Definition usage_Valid (u : option ResourceUsage) : bool :=
  match u with
  | None => false
  | Some u =>
    if is_zero_time (SampledAt u) then false
    else match usage_found false (usage_counters u) with Some found => found | None => false end
  end.

Definition counter_equal (a b : option Z) : bool :=
  match a, b with
  | Some x, Some y => x =? y
  | None, None => true
  | _, _ => false
  end.

Definition usage_Equal (u other : option ResourceUsage) : bool :=
  match u, other with
  | Some u, Some o =>
    if negb (SampledAt u =? SampledAt o) then false
    else forallb (λ p, counter_equal p.1 p.2) (zip (usage_counters u) (usage_counters o))
  | None, None => true
  | _, _ => false
  end.

(** assignment.go *)
Record RunEvent : Type := mkRunEvent {
  ev_Usage : option ResourceUsage;
  ev_RunID : string;
  ev_ExecutionToken : string;
  ev_Sequence : Z;
  ev_Type : string;
  ev_OccurredAt : Time;
  ev_ExitCode : Z;
  ev_Message : string
}.

#[export] Instance eta_RunEvent : Eta RunEvent := λ e,
  mkRunEvent (ev_Usage e) (ev_RunID e) (ev_ExecutionToken e) (ev_Sequence e) (ev_Type e)
    (ev_OccurredAt e) (ev_ExitCode e) (ev_Message e).

Record RunningProcess : Type := mkRunningProcess {
  rp_Usage : option ResourceUsage;
  rp_RunID : string;
  rp_ExecutionToken : string
}.

Record RunningReport : Type := mkRunningReport {
  rr_ServerID : string;
  rr_ReportedAt : Time;
  rr_Authoritative : bool;
  rr_Processes : list RunningProcess
}.

#[export] Instance eta_RunningReport : Eta RunningReport := λ r,
  mkRunningReport (rr_ServerID r) (rr_ReportedAt r) (rr_Authoritative r) (rr_Processes r).

Record ArtifactPolicy : Type := mkArtifactPolicy {
  AllowedGlobs : list string;
  MaxFileBytes : Z;
  MaxTotalBytes : Z
}.

Record ResourceLimits : Type := mkResourceLimits {
  rl_CPUMillicores : Z; rl_MemoryBytes : Z; rl_DiskBytes : Z; rl_TasksMax : Z
}.

Record AgentAssignment : Type := mkAgentAssignment {
  aa_Artifacts : option ArtifactPolicy;
  aa_RunID : string;
  aa_ExecutionToken : string;
  aa_ScriptVersionID : string;
  aa_Runtime : string;
  aa_ScriptPath : string;
  aa_Arguments : list string;
  aa_Environment : gmap string string;
  aa_Resources : ResourceLimits;
  aa_Timeout : Duration
}.

Record CancelCommand : Type := mkCancelCommand {
  cc_RunID : string;
  cc_ExecutionToken : string
}.

(** [ExecutionCommand]: the type tag with the payload that goes with it. *)
Inductive ExecutionCommand : Type :=
| CommandAssign (assignment : AgentAssignment)
| CommandCancel (cancellation : CancelCommand).

(** sync.go *)
Definition SyncPending : string := "pending".
Definition SyncDownloading : string := "downloading".
Definition SyncReady : string := "ready".
Definition SyncFailed : string := "failed".
Definition SyncDrifted : string := "drifted".

(** upgrade.go.  [Action] has two values, set by the platform; a stage is what the
    agent sent. *)
Inductive UpgradeAction : Type := UpgradeInstall | UpgradeRollback.

#[export] Instance UpgradeAction_eq_dec : EqDecision UpgradeAction.
Proof. solve_decision. Defined.

Definition StageAccepted : string := "accepted".
Definition StageDownloading : string := "downloading".
Definition StageVerifying : string := "verifying".
Definition StageInstalling : string := "installing".
Definition StageReconnecting : string := "reconnecting".
Definition StageSucceeded : string := "succeeded".
Definition StageRollingBack : string := "rolling_back".
Definition StageRolledBack : string := "rolled_back".
Definition StageFailed : string := "failed".

Record UpgradeCommand : Type := mkUpgradeCommand {
  uc_MessageType : string;
  uc_CommandID : string;
  uc_PlanID : string;
  uc_TargetID : string;
  uc_Action : UpgradeAction;
  uc_SourceVersion : string;
  uc_TargetVersion : string;
  uc_InstallCommandID : string;
  uc_DownloadURL : string;
  uc_FileName : string;
  uc_ByteSize : Z;
  uc_SHA256 : string;
  uc_ReconnectTimeout : Duration
}.

#[export] Instance eta_UpgradeCommand : Eta UpgradeCommand := λ c,
  mkUpgradeCommand (uc_MessageType c) (uc_CommandID c) (uc_PlanID c) (uc_TargetID c) (uc_Action c)
    (uc_SourceVersion c) (uc_TargetVersion c) (uc_InstallCommandID c) (uc_DownloadURL c) (uc_FileName c)
    (uc_ByteSize c) (uc_SHA256 c) (uc_ReconnectTimeout c).

Record UpgradeEvent : Type := mkUpgradeEvent {
  ue_CommandID : string;
  ue_TargetID : string;
  ue_Stage : string;
  ue_OccurredAt : Time;
  ue_ErrorCode : string;
  ue_Message : string
}.

Record UpgradeRuntimeState : Type := mkUpgradeRuntimeState {
  us_CommandID : string;
  us_TargetID : string;
  us_TargetVersion : string;
  us_RollbackVersion : string;
  us_Stage : string;
  us_UpdatedAt : Time;
  us_ErrorCode : string;
  us_Message : string
}.

(** messages.go *)
Record Heartbeat : Type := mkHeartbeat {
  hb_ServerID : string;
  hb_Sequence : Z;
  hb_SentAt : Time;
  hb_CPUTotalMilli : Z;
  hb_CPUUsedMilli : Z;
  hb_MemoryTotalBytes : Z;
  hb_MemoryUsedBytes : Z;
  hb_DiskTotalBytes : Z;
  hb_DiskFreeBytes : Z;
  hb_RunningTasks : Z;
  hb_LogSpoolUsedBytes : Z;
  hb_LogSpoolLimitBytes : Z;
  hb_Runtimes : list string;
  hb_AgentVersion : string;
  hb_AgentOS : string;
  hb_AgentArch : string;
  hb_Capabilities : list string;
  hb_Upgrade : option UpgradeRuntimeState
}.

(** ** agentupgrade/model.go *)

Inductive PlanStatus : Type := PlanPending | PlanRunning | PlanPaused | PlanSucceeded | PlanCancelled.

#[export] Instance PlanStatus_eq_dec : EqDecision PlanStatus.
Proof. solve_decision. Defined.

Inductive TargetStatus : Type :=
| TargetWaiting | TargetDraining | TargetDownloading | TargetVerifying | TargetInstalling
| TargetReconnecting | TargetHealthChecking | TargetSucceeded | TargetRollingBack
| TargetRolledBack | TargetManualIntervention | TargetCancelled.

#[export] Instance TargetStatus_eq_dec : EqDecision TargetStatus.
Proof. solve_decision. Defined.

(** The text of a status, as the event log records it. *)
Definition target_status_text (s : TargetStatus) : string :=
  match s with
  | TargetWaiting => "waiting" | TargetDraining => "draining" | TargetDownloading => "downloading"
  | TargetVerifying => "verifying" | TargetInstalling => "installing" | TargetReconnecting => "reconnecting"
  | TargetHealthChecking => "health_checking" | TargetSucceeded => "succeeded"
  | TargetRollingBack => "rolling_back" | TargetRolledBack => "rolled_back"
  | TargetManualIntervention => "manual_intervention" | TargetCancelled => "cancelled"
  end.

Record CreatePlanInput : Type := mkCreatePlanInput {
  cp_TargetReleaseID : string; cp_ServerIDs : list string; cp_BatchSize : Z;
  cp_DrainTimeoutSeconds : Z; cp_ReconnectTimeoutSeconds : Z; cp_VerificationSeconds : Z;
  cp_CreatedBy : string
}.

#[export] Instance eta_CreatePlanInput : Eta CreatePlanInput := λ i,
  mkCreatePlanInput (cp_TargetReleaseID i) (cp_ServerIDs i) (cp_BatchSize i) (cp_DrainTimeoutSeconds i)
    (cp_ReconnectTimeoutSeconds i) (cp_VerificationSeconds i) (cp_CreatedBy i).

Record Target : Type := mkTarget {
  t_ID : string; t_PlanID : string; t_ServerID : string; t_ServerName : string; t_BatchNumber : Z;
  t_SourceVersion : string; t_TargetVersion : string; t_SourceDraining : bool;
  t_Status : TargetStatus; t_Attempts : Z; t_CommandID : string; t_InstallCommandID : string;
  t_ErrorCode : string; t_ErrorMessage : string;
  t_StartedAt : option Time; t_UpdatedAt : Time; t_FinishedAt : option Time
}.

#[export] Instance eta_Target : Eta Target := λ t,
  mkTarget (t_ID t) (t_PlanID t) (t_ServerID t) (t_ServerName t) (t_BatchNumber t) (t_SourceVersion t)
    (t_TargetVersion t) (t_SourceDraining t) (t_Status t) (t_Attempts t) (t_CommandID t) (t_InstallCommandID t)
    (t_ErrorCode t) (t_ErrorMessage t) (t_StartedAt t) (t_UpdatedAt t) (t_FinishedAt t).

(** [Event] of agentupgrade/model.go. *)
Record PlanEvent : Type := mkPlanEvent {
  pe_ID : string; pe_PlanID : string; pe_TargetID : string; pe_ServerID : string; pe_CommandID : string;
  pe_Stage : string; pe_ErrorCode : string; pe_Message : string; pe_OccurredAt : Time
}.

(** [Plan] of agentupgrade/model.go. *)
Record UpgradePlan : Type := mkUpgradePlan {
  p_ID : string; p_TargetReleaseID : string; p_TargetVersion : string; p_Status : PlanStatus;
  p_FirstBatchSize : Z; p_BatchSize : Z; p_DrainTimeoutSeconds : Z; p_ReconnectTimeoutSeconds : Z;
  p_VerificationSeconds : Z; p_CurrentBatch : Z; p_Revision : Z; p_CancelRequested : bool;
  p_CreatedBy : string; p_PauseReason : string; p_CreatedAt : Time;
  p_StartedAt : option Time; p_FinishedAt : option Time;
  p_Targets : list Target; p_Events : list PlanEvent
}.

#[export] Instance eta_UpgradePlan : Eta UpgradePlan := λ p,
  mkUpgradePlan (p_ID p) (p_TargetReleaseID p) (p_TargetVersion p) (p_Status p) (p_FirstBatchSize p)
    (p_BatchSize p) (p_DrainTimeoutSeconds p) (p_ReconnectTimeoutSeconds p) (p_VerificationSeconds p)
    (p_CurrentBatch p) (p_Revision p) (p_CancelRequested p) (p_CreatedBy p) (p_PauseReason p) (p_CreatedAt p)
    (p_StartedAt p) (p_FinishedAt p) (p_Targets p) (p_Events p).

Record ArtifactInfo : Type := mkArtifactInfo {
  af_OS : string; af_Arch : string; af_FileName : string; af_SHA256 : string; af_DownloadURL : string;
  af_ByteSize : Z
}.

Record ReleaseInfo : Type := mkReleaseInfo {
  ri_ID : string; ri_Version : string; ri_Status : string; ri_Capabilities : list string;
  ri_Artifacts : list ArtifactInfo
}.

Record ServerRuntime : Type := mkServerRuntime {
  sr_Status : string; sr_Enabled : bool; sr_Draining : bool; sr_RunningTasks : Z;
  sr_AgentVersion : string; sr_AgentOS : string; sr_AgentArch : string; sr_LastSeenAt : option Time;
  sr_HasSnapshot : bool
}.

Record ServerInfo : Type := mkServerInfo {
  sf_ID : string; sf_Status : string; sf_AgentVersion : string; sf_AgentOS : string; sf_AgentArch : string;
  sf_Enabled : bool; sf_Draining : bool; sf_Capabilities : list string
}.

(** ** server/model.go *)

Definition StatusPending : string := "pending".
Definition StatusOnline : string := "online".
Definition StatusOffline : string := "offline".
Definition StatusDraining : string := "draining".
Definition StatusQuarantined : string := "quarantined".

Record Snapshot : Type := mkSnapshot {
  AgentCapabilities : list string;
  sn_ID : string;
  sn_Status : string;
  sn_Enabled : bool;
  sn_Draining : bool;
  sn_Labels : gmap string string;
  sn_Runtimes : list string;
  sn_MaxConcurrency : Z;
  sn_RunningTasks : Z;
  CPUTotalMillicores : Z;
  CPUAvailableMillicores : Z;
  MemoryTotalBytes : Z;
  MemoryAvailableBytes : Z;
  DiskTotalBytes : Z;
  DiskAvailableBytes : Z;
  ReadyScriptVersions : gmap string bool;
  BlockedScriptVersions : gmap string bool;
  sn_SchedulingWeight : Z;
  sn_FairnessScore : Z
}.

(** Indexing a Go map yields the zero value for an absent key. *)
Definition map_str (m : gmap string string) (k : string) : string := default "" (m !! k).
Definition map_bool (m : gmap string bool) (k : string) : bool := default false (m !! k).

(** ** Facts *)

Lemma usage_found_spec found counters b :
  usage_found found counters = Some b ↔
  (∀ v, Some v ∈ counters → 0 ≤ v) ∧ b = found || existsb (λ c, bool_decide (is_Some c)) counters.
Proof.
  revert found. induction counters as [|[v|] rest IH]; intros found; simpl.
  - rewrite orb_false_r. set_solver.
  - destruct (Z.ltb_spec v 0) as [Hv|Hv].
    + split; [done|]. intros [H _]. specialize (H v). set_unfold. intuition lia.
    + rewrite IH, orb_true_r. set_unfold. naive_solver.
  - rewrite IH. set_unfold. naive_solver.
Qed.

(** [Equal] decides equality of samples. *)
Lemma usage_Equal_eq u o : usage_Equal u o = true ↔ u = o.
Proof.
  assert (∀ a b, counter_equal a b = true ↔ a = b) as Hc.
  { intros [a|] [b|]; simpl; rewrite ?Z.eqb_eq; naive_solver. }
  destruct u as [[a b c d t]|], o as [[a' b' c' d' t']|]; simpl; [|naive_solver..].
  destruct (Z.eqb_spec t t') as [->|Hne]; simpl; [|naive_solver].
  rewrite !andb_true_iff, !Hc. naive_solver.
Qed.

#[export] Hint Resolve usage_Equal_eq : yunling.
