(* ===== verification/World.v ===== *)
(** * World

    How the code acts on what is outside the process.  A program runs on a pair:
    the stores the components share (a type [C]) and an [Oracle] that decides
    everything the program does not: the clock, the random identifiers and the
    failures of each remote action.

    A remote action (an SQL statement, a commit, a Redis script, a message to an
    agent) is atomic and may fail in two ways: the request is lost and nothing
    happens, or the reply is lost and the action has happened although the caller
    sees an error.

    [wp m c Q] says that [m], run on the stores [c], ends with a result and stores
    that satisfy [Q], for every oracle; [under W m c Q] says it for the oracles that abide by
    the regime [W], so that [Q] can speak of the instants read and of the faults met. *)

From S2P Require Import Prelude GoStd Model.

Inductive Fault : Type := Fine | LostRequest | LostReply.

Record Oracle : Type := mkOracle {
  o_faults : list Fault;
  o_ids : list string;
  o_clock : Time * list Time
}.

(** No failure ever, the given identifiers, a clock that stands still. *)
Definition calm (ids : list string) (t : Time) : Oracle := mkOracle [] ids (t, []).

(** What an oracle may do: the instants its clock may give and the faults that may happen. *)
Record Regime : Type := mkRegime { clock_gives : Time → Prop; may_happen : Fault → Prop }.

(** Any fault, at instants in [K]; no fault, at any time. *)
Definition at_times (K : Time → Prop) : Regime := mkRegime K (λ _, True).
Definition without_faults : Regime := mkRegime (λ _, True) (eq Fine).

Lemma without_faults_calm : ¬ (may_happen without_faults LostRequest ∨ may_happen without_faults LostReply).
Proof. by intros []. Qed.

Section programs.
Context {C : Type}.

Definition Prog (A : Type) : Type := Eff Error (C * Oracle) A.

Definition next_fault (o : Oracle) : Fault * Oracle :=
  match o_faults o with
  | [] => (Fine, o)
  | f :: rest => (f, mkOracle rest (o_ids o) (o_clock o))
  end.

(** An atomic action on the stores; [None] is a rejection by the store (a
    violated constraint).  Failures carry the context the code wraps them in. *)
Definition remote {A} (context : string) (action : C → option (C * A)) : Prog A :=
  λ '(c, o),
    let '(f, o') := next_fault o in
    match f, action c with
    | Fine, Some (c', a) => ((c', o'), Ok a)
    | LostReply, Some (c', _) => ((c', o'), Err (EStorage context))
    | _, _ => ((c, o'), Err (EStorage context))
    end.

Definition observe {A} (context : string) (read : C → A) : Prog A :=
  remote context (λ c, Some (c, read c)).

(** [now()], the injected clock or [time.Now]. *)
Definition clock_now : Prog Time :=
  λ '(c, o),
    match o_clock o with
    | (t, []) => ((c, o), Ok t)
    | (t, t' :: rest) => ((c, mkOracle (o_faults o) (o_ids o) (t', rest)), Ok t)
    end.

(** [uuid.NewString()] and the database's [gen_random_uuid()]. *)
Definition new_uuid : Prog string :=
  λ '(c, o),
    match o_ids o with
    | [] => ((c, o), Err (EStorage "uuid"))
    | id :: rest => ((c, mkOracle (o_faults o) rest (o_clock o)), Ok id)
    end.

(** A change of the process's own memory: cannot fail. *)
Definition local {A} (f : C → C * A) : Prog A :=
  λ '(c, o), let '(c', a) := f c in ((c', o), Ok a).

(** An operation whose result nobody waits for. *)
Definition ignore {A} (m : Prog A) : Prog unit := catch m ;;! ret tt.

(** ** Weakest preconditions *)

Definition wp {A} (m : Prog A) (c : C) (Q : Result A → C → Prop) : Prop :=
  ∀ o, match m (c, o) with ((c', _), r) => Q r c' end.

Lemma wp_mono {A} (m : Prog A) c (Q Q' : Result A → C → Prop) :
  wp m c Q → (∀ r c', Q r c' → Q' r c') → wp m c Q'.
Proof. intros H HQ o. specialize (H o). destruct (m (c, o)) as [[c' o'] r]. auto. Qed.

Lemma wp_conj {A} (m : Prog A) c (Q Q' : Result A → C → Prop) : wp m c Q → wp m c Q' → wp m c (λ r c', Q r c' ∧ Q' r c').
Proof. intros H H' o. specialize (H o). specialize (H' o). by destruct (m (c, o)) as [[]]. Qed.

Lemma wp_any {A} (m : Prog A) c : wp m c (λ _ _, True).
Proof. intros o. by destruct (m (c, o)) as [[]]. Qed.

Lemma wp_ret {A} (a : A) c Q : Q (Ok a) c → wp (ret a) c Q.
Proof. intros H o. done. Qed.

Lemma wp_throw {A} e c (Q : Result A → C → Prop) : Q (Err e) c → wp (throw e) c Q.
Proof. intros H o. done. Qed.

Lemma wp_bind {A B} (m : Prog A) (k : A → Prog B) c Q :
  wp m c (λ r c', match r with Ok a => wp (k a) c' Q | Err e => Q (Err e) c' end) →
  wp (bind m k) c Q.
Proof.
  intros H o. unfold bind. specialize (H o). destruct (m (c, o)) as [[c' o'] [a|e]]; [|done].
  apply H.
Qed.

Lemma wp_catch {A} (m : Prog A) c Q :
  wp m c (λ r c', Q (Ok r) c') → wp (catch m) c Q.
Proof.
  intros H o. unfold catch. specialize (H o). destruct (m (c, o)) as [[c' o'] r]. done.
Qed.

Lemma wp_ignore {A} (m : Prog A) c (Q : Result unit → C → Prop) : wp m c (λ _ c', Q (Ok tt) c') → wp (ignore m) c Q.
Proof. intros H. apply wp_bind, wp_catch. eapply wp_mono; [apply H|]. intros r c' HQ. by apply wp_ret. Qed.

Lemma wp_remote {A} context (action : C → option (C * A)) c Q :
  Q (Err (EStorage context)) c →
  (∀ c' a, action c = Some (c', a) → Q (Ok a) c' ∧ Q (Err (EStorage context)) c') →
  wp (remote context action) c Q.
Proof.
  intros H0 H1 o. unfold remote. destruct (next_fault o) as [f o'].
  destruct f, (action c) as [[c' a]|] eqn:E; try done; by destruct (H1 _ _ eq_refl).
Qed.

Lemma wp_observe {A} context (read : C → A) c Q :
  Q (Err (EStorage context)) c → Q (Ok (read c)) c → wp (observe context read) c Q.
Proof. intros. apply wp_remote; [done|]. intros ? ? [= <- <-]. done. Qed.

Lemma wp_clock_now c Q : (∀ t, Q (Ok t) c) → wp clock_now c Q.
Proof. intros H o. unfold clock_now. destruct (o_clock o) as [t [|]]; simpl; apply H. Qed.

Lemma wp_new_uuid c Q :
  Q (Err (EStorage "uuid")) c → (∀ id, Q (Ok id) c) → wp new_uuid c Q.
Proof. intros H0 H o. unfold new_uuid. destruct (o_ids o); simpl; auto. Qed.

Lemma wp_local {A} (f : C → C * A) c Q : Q (Ok (f c).2) (f c).1 → wp (local f) c Q.
Proof. intros H o. unfold local. by destruct (f c). Qed.

(** [starting m c Q] is [wp] with a post-condition that may speak of the instant the clock
    shows when the program starts. *)
Definition starting {A} (m : Prog A) (c : C) (Q : Time → Result A → C → Prop) : Prop :=
  ∀ o, match m (c, o) with ((c', _), r) => Q (o_clock o).1 r c' end.

Lemma starting_clock {A} (k : Time → Prog A) c (Q : Time → Result A → C → Prop) :
  (∀ now, wp (k now) c (Q now)) → starting (bind clock_now k) c Q.
Proof.
  intros H o. unfold bind, clock_now. destruct (o_clock o) as [t [|t' rest]]; simpl; apply H.
Qed.

Lemma starting_result {A} (m : Prog A) c Q o : starting m c Q → Q (o_clock o).1 (m (c, o)).2 (m (c, o)).1.1.
Proof. intros H. specialize (H o). by destruct (m (c, o)) as [[c' o'] r]. Qed.

(** Loops: an invariant indexed by what is left to do. *)
Lemma wp_for_each {A} (l : list A) (body : A → Prog unit) c (I : list A → C → Prop) Q :
  I l c →
  (∀ x rest c, I (x :: rest) c → x ∈ l →
     wp (body x) c (λ r c', match r with Ok _ => I rest c' | Err e => Q (Err e) c' end)) →
  (∀ c, I [] c → Q (Ok tt) c) →
  wp (for_each l body) c Q.
Proof.
  intros HI Hstep Hdone.
  assert (∀ l' c, (∀ x, x ∈ l' → x ∈ l) → I l' c → wp (for_each l' body) c Q) as Hgen.
  { clear HI c. intros l'. induction l' as [|x rest IH]; intros c Hsub HI; simpl.
    - apply wp_ret. auto.
    - apply wp_bind. eapply wp_mono; [apply Hstep; [done|set_solver]|].
      intros [u|e] c' H; [|done]. apply IH; [set_solver|done]. }
  by apply Hgen.
Qed.

(** A run of a program is an instance of its weakest precondition. *)
Lemma wp_run {A} (m : Prog A) c Q o c' o' r :
  wp m c Q → m (c, o) = ((c', o'), r) → Q r c'.
Proof. intros H E. specialize (H o). by rewrite E in H. Qed.

Lemma wp_result {A} (m : Prog A) c Q o : wp m c Q → Q (m (c, o)).2 (m (c, o)).1.1.
Proof. intros H. specialize (H o). by destruct (m (c, o)) as [[c' o'] r]. Qed.

(** Programs that move the state along a preorder, whatever fails. *)
Section respects.
Context (R : C → C → Prop) `{!PreOrder R}.

Definition respects {A} (m : Prog A) : Prop := ∀ c, wp m c (λ _ c', R c c').

Lemma respects_same {A} (m : Prog A) : (∀ c, wp m c (λ _ c', c' = c)) → respects m.
Proof. intros H c. eapply wp_mono; [apply H|]. by intros r c' ->. Qed.

Lemma respects_ret {A} (a : A) : respects (ret a).
Proof. intros c. by apply wp_ret. Qed.

Lemma respects_throw {A} e : respects (throw (A := A) e).
Proof. intros c. by apply wp_throw. Qed.

Lemma respects_bind {A B} (m : Prog A) (k : A → Prog B) : respects m → (∀ a, respects (k a)) → respects (bind m k).
Proof.
  intros Hm Hk c. apply wp_bind. eapply wp_mono; [apply Hm|]. intros [a|e] c1 H1; [|done]. eapply wp_mono; [apply Hk|]. intros r c2 H2. by etrans.
Qed.

Lemma respects_catch {A} (m : Prog A) : respects m → respects (catch m).
Proof. intros H c. apply wp_catch. eapply wp_mono; [apply H|]. done. Qed.

Lemma respects_ignore {A} (m : Prog A) : respects m → respects (ignore m).
Proof. intros H. apply respects_bind; [by apply respects_catch|]. intros r. apply respects_ret. Qed.

Lemma respects_clock : respects clock_now.
Proof. apply respects_same. intros c. by apply wp_clock_now. Qed.

Lemma respects_uuid : respects new_uuid.
Proof. apply respects_same. intros c. by apply wp_new_uuid. Qed.

Lemma respects_observe {A} context (read : C → A) : respects (observe context read).
Proof. apply respects_same. intros c. by apply wp_observe. Qed.

Lemma respects_for_each {A} (l : list A) (body : A → Prog unit) : (∀ x, respects (body x)) → respects (for_each l body).
Proof. intros Hb. induction l as [|x l IH]; [apply respects_ret|]. by apply respects_bind. Qed.

End respects.

(** ** What the oracle may do

    A [Regime] bounds the oracle: the instants its clock gives and the faults that may
    happen.  [under W m c Q] is [wp m c Q] for the oracles that abide by [W]; a
    post-condition that mentions [W] speaks of the instants the program has read and of
    the faults it has met.  ([Fine] is no fault: an oracle without faults left goes on
    without any.) *)
Definition readings (o : Oracle) : list Time := (o_clock o).1 :: (o_clock o).2.

Definition abides (W : Regime) (o : Oracle) : Prop := Forall (clock_gives W) (readings o) ∧ Forall (may_happen W) (o_faults o).

Definition under {A} (W : Regime) (m : Prog A) (c : C) (Q : Result A → C → Prop) : Prop :=
  ∀ o, abides W o → match m (c, o) with ((c', o'), r) => abides W o' ∧ Q r c' end.

(** The program hands on what is left of the oracle, and makes nothing up. *)
Definition forward {A} (m : Prog A) : Prop :=
  ∀ c o, readings (m (c, o)).1.2 ⊆ readings o ∧ o_faults (m (c, o)).1.2 ⊆ o_faults o.

Lemma under_wp {A} W (m : Prog A) c Q : forward m → wp m c Q → under W m c Q.
Proof.
  intros Hf H o [H1 H2]. destruct (Hf c o) as [F1 F2]. specialize (H o). destruct (m (c, o)) as [[c' o'] r].
  split; [|done]. unfold abides. rewrite !Forall_forall in *. split; intros x Hx; [apply H1, F1, Hx|apply H2, F2, Hx].
Qed.

Lemma under_mono {A} W (m : Prog A) c (Q Q' : Result A → C → Prop) :
  under W m c Q → (∀ r c', Q r c' → Q' r c') → under W m c Q'.
Proof. intros H HQ o Ho. specialize (H o Ho). destruct (m (c, o)) as [[c' o'] r]. naive_solver. Qed.

Lemma under_conj {A} W (m : Prog A) c (Q Q' : Result A → C → Prop) :
  under W m c Q → under W m c Q' → under W m c (λ r c', Q r c' ∧ Q' r c').
Proof. intros H H' o Ho. specialize (H o Ho). specialize (H' o Ho). destruct (m (c, o)) as [[]]. naive_solver. Qed.

Lemma under_ret {A} W (a : A) c Q : Q (Ok a) c → under W (ret a) c Q.
Proof. intros H o Ho. done. Qed.

Lemma under_throw {A} W e c (Q : Result A → C → Prop) : Q (Err e) c → under W (throw e) c Q.
Proof. intros H o Ho. done. Qed.

Lemma under_bind {A B} W (m : Prog A) (k : A → Prog B) c Q :
  under W m c (λ r c', match r with Ok a => under W (k a) c' Q | Err e => Q (Err e) c' end) →
  under W (bind m k) c Q.
Proof.
  intros H o Ho. unfold bind. specialize (H o Ho). destruct (m (c, o)) as [[c' o'] [a|e]]; [|done].
  destruct H as [Ho' H]. by apply H.
Qed.

Lemma under_catch {A} W (m : Prog A) c Q : under W m c (λ r c', Q (Ok r) c') → under W (catch m) c Q.
Proof. intros H o Ho. unfold catch. specialize (H o Ho). by destruct (m (c, o)) as [[c' o'] r]. Qed.

Lemma under_ignore {A} W (m : Prog A) c (Q : Result unit → C → Prop) : under W m c (λ _ c', Q (Ok tt) c') → under W (ignore m) c Q.
Proof. intros H. apply under_bind, under_catch. eapply under_mono; [apply H|]. intros r c' HQ. by apply under_ret. Qed.

Lemma under_local {A} W (f : C → C * A) c Q : Q (Ok (f c).2) (f c).1 → under W (local f) c Q.
Proof. intros H o Ho. unfold local. by destruct (f c). Qed.

Lemma under_clock_now W c Q : (∀ t, clock_gives W t → Q (Ok t) c) → under W clock_now c Q.
Proof.
  intros H o [Ho Hf]. unfold clock_now, abides, readings in *. destruct (o_clock o) as [t [|t' rest]] eqn:E; simpl in *.
  - rewrite E. split; [done|]. apply H. by inversion Ho.
  - inversion Ho; subst. split; [done|]. by apply H.
Qed.

(** The request or its reply may be lost. *)
Definition faulty (W : Regime) : Prop := may_happen W LostRequest ∨ may_happen W LostReply.

Lemma under_remote {A} W context (action : C → option (C * A)) c Q :
  (faulty W ∨ action c = None → Q (Err (EStorage context)) c) →
  (∀ c' a, action c = Some (c', a) → Q (Ok a) c' ∧ (faulty W → Q (Err (EStorage context)) c')) →
  under W (remote context action) c Q.
Proof.
  intros H0 H1 o [Ho Hf]. unfold remote, next_fault, abides, faulty in *. destruct (o_faults o) as [|f faults] eqn:E.
  - destruct (action c) as [[c' a]|] eqn:Ea; rewrite E; split_and!; [done..|by apply (H1 _ _ eq_refl)|done|done|by auto].
  - apply Forall_cons in Hf as [Hf Hfs]. destruct f, (action c) as [[c' a]|] eqn:Ea; split_and!; try done;
      first [apply (H1 _ _ eq_refl); by auto | apply H0; by auto].
Qed.

Lemma under_observe {A} W context (read : C → A) c Q :
  (faulty W → Q (Err (EStorage context)) c) → Q (Ok (read c)) c → under W (observe context read) c Q.
Proof. intros H0 H1. apply under_remote; [intros [?|?]; [auto|done]|]. intros ? ? [= <- <-]. auto. Qed.

Lemma under_for_each {A} W (l : list A) (body : A → Prog unit) c (I : C → Prop) :
  I c → (∀ x c, I c → x ∈ l → under W (body x) c (λ r c', r = Ok tt ∧ I c')) → under W (for_each l body) c (λ r c', r = Ok tt ∧ I c').
Proof.
  revert c. induction l as [|x l IH]; intros c HI Hb; simpl; [by apply under_ret|].
  apply under_bind. eapply under_mono; [apply Hb; [done|left]|]. intros r c' [-> HI']. apply IH; [done|]. intros y c2 H2 Hy. apply Hb; [done|by right].
Qed.

Lemma under_result {A} W (m : Prog A) c Q o : under W m c Q → abides W o → Q (m (c, o)).2 (m (c, o)).1.1.
Proof. intros H Ho. specialize (H o Ho). destruct (m (c, o)) as [[c' o'] r]. apply H. Qed.

Lemma under_any {A} (m : Prog A) c Q : under (at_times (λ _, True)) m c Q → wp m c Q.
Proof. intros H o. specialize (H o). destruct (m (c, o)) as [[c' o'] r]. apply H. split; by apply Forall_true. Qed.

Lemma next_fault_readings o : readings (next_fault o).2 = readings o ∧ o_faults (next_fault o).2 ⊆ o_faults o.
Proof. unfold next_fault. destruct (o_faults o) eqn:E; simpl; [by rewrite E|]. split; [done|]. set_solver. Qed.

Lemma forward_ret {A} (a : A) : forward (ret a).
Proof. by intros c o. Qed.

Lemma forward_throw {A} e : forward (throw (A := A) e).
Proof. by intros c o. Qed.

Lemma forward_bind {A B} (m : Prog A) (k : A → Prog B) : forward m → (∀ a, forward (k a)) → forward (bind m k).
Proof.
  intros Hm Hk c o. unfold bind. destruct (Hm c o) as [F1 F2]. destruct (m (c, o)) as [[c' o'] [a|e]]; [|done].
  destruct (Hk a c' o'). split; by etrans.
Qed.

Lemma forward_catch {A} (m : Prog A) : forward m → forward (catch m).
Proof. intros H c o. unfold catch. specialize (H c o). by destruct (m (c, o)) as [[c' o'] r]. Qed.

Lemma forward_ignore {A} (m : Prog A) : forward m → forward (ignore m).
Proof. intros H. apply forward_bind; [by apply forward_catch|]. intros r. apply forward_ret. Qed.

Lemma forward_remote {A} context (action : C → option (C * A)) : forward (remote context action).
Proof.
  intros c o. unfold remote. destruct (next_fault_readings o) as [E F]. destruct (next_fault o) as [f o'].
  destruct f, (action c) as [[c' a]|]; simpl in *; by rewrite E.
Qed.

Lemma forward_observe {A} context (read : C → A) : forward (observe context read).
Proof. apply forward_remote. Qed.

Lemma forward_clock : forward clock_now.
Proof.
  intros c o. unfold clock_now. destruct (o_clock o) as [t [|t' rest]] eqn:E; simpl; [done|].
  unfold readings. rewrite E. simpl. split; [set_solver|done].
Qed.

Lemma forward_uuid : forward new_uuid.
Proof. intros c o. unfold new_uuid. by destruct (o_ids o). Qed.

Lemma forward_local {A} (f : C → C * A) : forward (local f).
Proof. intros c o. unfold local. by destruct (f c). Qed.

Lemma forward_for_each {A} (l : list A) (body : A → Prog unit) : (∀ x, forward (body x)) → forward (for_each l body).
Proof. intros Hb. induction l as [|x l IH]; [apply forward_ret|]. by apply forward_bind. Qed.

(** ** Runs without failures *)

Lemma remote_calm {A} context (action : C → option (C * A)) c ids clock c' a :
  action c = Some (c', a) →
  remote context action (c, mkOracle [] ids clock) = ((c', mkOracle [] ids clock), Ok a).
Proof. intros H. unfold remote, next_fault. simpl. by rewrite H. Qed.

Lemma observe_calm {A} context (read : C → A) c ids clock :
  observe context read (c, mkOracle [] ids clock) = ((c, mkOracle [] ids clock), Ok (read c)).
Proof. by apply remote_calm. Qed.

End programs.

Arguments Prog : clear implicits.
Create HintDb forward.

#[export] Hint Resolve forward_ret forward_throw forward_bind forward_catch forward_ignore forward_remote forward_observe forward_clock forward_uuid forward_local forward_for_each : forward.

(** One step of the proof that a program hands its clock on: the rule of the head
    of the program, a case of the code, or a fact about a part of it. *)
Ltac forward_step :=
  cbv beta zeta;
  lazymatch goal with
  | |- forward (bind _ _) => apply forward_bind; [|intros ?]
  | |- forward (match ?x with _ => _ end) => destruct x
  | |- forward (for_each _ _) => apply forward_for_each; intros ?
  | |- forward (catch _) => apply forward_catch
  | |- forward (ignore _) => apply forward_ignore
  | |- forward _ => solve [auto 2 with forward nocore]
  end.

(** One step of the proof that a program respects a relation. *)
Ltac respects_step :=
  cbv beta zeta;
  lazymatch goal with
  | |- respects ?R (bind _ _) => apply (respects_bind R); [|intros ?]
  | |- respects ?R (ret _) => apply (respects_ret R)
  | |- respects ?R (throw _) => apply (respects_throw R)
  | |- respects ?R (catch _) => apply (respects_catch R)
  | |- respects ?R (ignore _) => apply (respects_ignore R)
  | |- respects ?R (observe _ _) => apply (respects_observe R)
  | |- respects ?R clock_now => apply (respects_clock R)
  | |- respects ?R new_uuid => apply (respects_uuid R)
  | |- respects ?R (for_each _ _) => apply (respects_for_each R); intros ?
  | |- respects ?R (match ?x with _ => _ end) => destruct x
  end.

(** Applies the rule for the head of the program. *)
Ltac wp_rule :=
  lazymatch goal with
  | |- wp (bind _ _) _ _ => apply wp_bind
  | |- wp (ret _) _ _ => apply wp_ret
  | |- wp (throw _) _ _ => apply wp_throw
  | |- wp (catch _) _ _ => apply wp_catch
  | |- wp (observe _ _) _ _ => apply wp_observe
  | |- wp clock_now _ _ => apply wp_clock_now; intros ?t
  | |- wp new_uuid _ _ => apply wp_new_uuid; [|intros ?id]
  | |- wp (local _) _ _ => apply wp_local
  | |- wp (match ?x with _ => _ end) _ _ => destruct x eqn:?
  end.
