(* ===== verification/SchedulerCore.v ===== *)
(** * SchedulerCore

    The pure decisions of the scheduler: which servers can take a run
    ([internal/scheduler/filter.go]), how the candidates are ranked
    ([score.go]), the in-memory priority queue ([queue.go]) and the values these
    work on ([types.go]).  Scores are computed in [int64], wrap-around included. *)

From S2P Require Import Prelude GoStd Model.

(** ** types.go *)

Inductive Outcome : Type := OutcomeAssigned | OutcomeQueued | OutcomeExpired.

#[export] Instance Outcome_eq_dec : EqDecision Outcome.
Proof. solve_decision. Defined.

Definition RunQueued : string := "run.queued".
Definition ResourceReleased : string := "resource.released".
Definition ServerOnline : string := "server.online".
Definition ServerChanged : string := "server.changed".
Definition ScriptReady : string := "script.ready".

Record SchedulerEvent : Type := mkSchedulerEvent {
  se_Type : string;
  se_RunID : string;
  se_ServerID : string
}.

Record Candidate : Type := mkCandidate {
  cd_ServerID : string;
  cd_Total : Resources;
  cd_Available : Resources;
  cd_RunningTasks : Z;
  cd_MaxConcurrency : Z;
  cd_ScriptCached : bool;
  cd_FairnessScore : Z;
  cd_SchedulingWeight : Z
}.

Record LeaseRequest : Type := mkLeaseRequest {
  lr_RunID : string;
  lr_ServerID : string;
  lr_Available : Resources;
  lr_Required : Resources;
  lr_Now : Time;
  lr_TTL : Duration
}.

Record Lease : Type := mkLease {
  le_ID : string;
  le_RunID : string;
  le_ServerID : string;
  le_Resources : Resources;
  le_ExpiresAt : Time
}.

Record Assignment : Type := mkAssignment {
  as_RunID : string;
  as_ServerID : string;
  as_ScriptVersionID : string;
  as_ExecutionToken : string;
  as_Lease : Lease;
  as_AssignedAt : Time
}.

(** ** filter.go *)

Module Filtering.

(** Each required label, read from the server's map (an absent key reads as the
    empty string). *)
Definition labelsMatch (required available : gmap string string) : bool :=
  forallb (λ kv, bool_decide (map_str available kv.1 = kv.2)) (map_to_list required).

Definition runtimeAvailable (required : string) (runtimes : list string) : bool :=
  existsb (λ runtimeName, EqualFold (TrimSpace runtimeName) (TrimSpace required)) runtimes.

Definition contains_str (l : list string) (x : string) : bool :=
  existsb (λ y, bool_decide (y = x)) l.

(** One iteration of the loop of [Filter]: the candidate a server yields, unless
    a [continue] skips it. *)
Definition filter_one (run : Run) (item : Snapshot) : option Candidate :=
  if negb (bool_decide (sn_Status item = StatusOnline)) || negb (sn_Enabled item) || sn_Draining item
  then None else
  if negb (labelsMatch (run_RequiredLabels run) (sn_Labels item)) then None else
  if negb (runtimeAvailable (run_RequiredRuntime run) (sn_Runtimes item)) then None else
  if RequiresArtifacts run && negb (contains_str (AgentCapabilities item) "run_artifacts_v1")
  then None else
  if (sn_MaxConcurrency item <=? 0) || (sn_MaxConcurrency item <=? sn_RunningTasks item)
  then None else
  if map_bool (BlockedScriptVersions item) (run_ScriptVersionID run) then None else
  if CPUAvailableMillicores item <? CPUMillicores (run_Resources run) then None else
  if MemoryAvailableBytes item <? MemoryBytes (run_Resources run) then None else
  if DiskAvailableBytes item <? DiskBytes (run_Resources run) then None else
  let weight := if sn_SchedulingWeight item <=? 0 then 100 else sn_SchedulingWeight item in
  Some (mkCandidate (sn_ID item)
    (mkResources (CPUTotalMillicores item) (MemoryTotalBytes item) (DiskTotalBytes item))
    (mkResources (CPUAvailableMillicores item) (MemoryAvailableBytes item) (DiskAvailableBytes item))
    (sn_RunningTasks item) (sn_MaxConcurrency item)
    (map_bool (ReadyScriptVersions item) (run_ScriptVersionID run))
    (sn_FairnessScore item) weight).

Fixpoint Filter (run : Run) (servers : list Snapshot) : list Candidate :=
  match servers with
  | [] => []
  | item :: rest =>
    match filter_one run item with
    | Some c => c :: Filter run rest
    | None => Filter run rest
    end
  end.

(** What a server must offer to be given a run, without reference to the code. *)
Record schedulable (run : Run) (item : Snapshot) : Prop := {
  sc_online : sn_Status item = StatusOnline;
  sc_enabled : sn_Enabled item = true;
  sc_not_draining : sn_Draining item = false;
  sc_labels : ∀ k v, run_RequiredLabels run !! k = Some v → map_str (sn_Labels item) k = v;
  sc_runtime : ∃ r, r ∈ sn_Runtimes item ∧
    fold_case (TrimSpace r) = fold_case (TrimSpace (run_RequiredRuntime run));
  sc_artifacts : RequiresArtifacts run = true → "run_artifacts_v1" ∈ AgentCapabilities item;
  sc_slot : 0 < sn_MaxConcurrency item ∧ sn_RunningTasks item < sn_MaxConcurrency item;
  sc_not_blocked : map_bool (BlockedScriptVersions item) (run_ScriptVersionID run) = false;
  sc_cpu : CPUMillicores (run_Resources run) ≤ CPUAvailableMillicores item;
  sc_memory : MemoryBytes (run_Resources run) ≤ MemoryAvailableBytes item;
  sc_disk : DiskBytes (run_Resources run) ≤ DiskAvailableBytes item
}.

Lemma labelsMatch_spec required available :
  labelsMatch required available = true ↔
  ∀ k v, required !! k = Some v → map_str available k = v.
Proof.
  unfold labelsMatch. rewrite forallb_forall. split.
  - intros H k v Hk. specialize (H (k, v)). simpl in H.
    rewrite bool_decide_eq_true in H. apply H.
    by apply list_elem_of_In, elem_of_map_to_list.
  - intros H [k v] Hin. apply list_elem_of_In, elem_of_map_to_list in Hin.
    simpl. apply bool_decide_eq_true. by apply H.
Qed.

Lemma runtimeAvailable_spec required runtimes :
  runtimeAvailable required runtimes = true ↔
  ∃ r, r ∈ runtimes ∧ fold_case (TrimSpace r) = fold_case (TrimSpace required).
Proof.
  unfold runtimeAvailable, EqualFold. rewrite existsb_exists.
  setoid_rewrite bool_decide_eq_true. setoid_rewrite <-list_elem_of_In. done.
Qed.

Lemma contains_str_spec l x : contains_str l x = true ↔ x ∈ l.
Proof.
  unfold contains_str. rewrite existsb_exists.
  setoid_rewrite bool_decide_eq_true. setoid_rewrite <-list_elem_of_In.
  split; [intros (y & Hy & ->); done | intros H; exists x; done].
Qed.

(** The guards of [filter_one] taken together. *)
Lemma filter_one_schedulable run item :
  is_Some (filter_one run item) ↔ schedulable run item.
Proof.
  unfold filter_one. split.
  - intros [c Hc]. repeat (case_match; [done|]).
    repeat match goal with
    | H : _ || _ = false |- _ => apply orb_false_iff in H as [? ?]
    | H : negb _ = false |- _ => apply negb_false_iff in H
    | H : bool_decide _ = true |- _ => apply bool_decide_eq_true in H
    | H : (_ <? _) = false |- _ => apply Z.ltb_ge in H
    | H : (_ <=? _) = false |- _ => apply Z.leb_gt in H
    end.
    constructor; try done; try lia.
    + by apply labelsMatch_spec.
    + by apply runtimeAvailable_spec.
    + intros Ha. apply contains_str_spec.
      destruct (contains_str _ _); [done|]. by rewrite Ha in *.
  - intros [Ho He Hd Hl Hr Ha [Hs1 Hs2] Hb Hc Hm Hk].
    rewrite He, Hd, Hb, bool_decide_eq_true_2 by done. simpl.
    apply labelsMatch_spec in Hl. apply runtimeAvailable_spec in Hr. rewrite Hl, Hr. simpl.
    assert (RequiresArtifacts run && negb (contains_str (AgentCapabilities item) "run_artifacts_v1")
            = false) as ->.
    { destruct (RequiresArtifacts run); simpl; [|done].
      apply negb_false_iff, contains_str_spec. auto. }
    assert ((sn_MaxConcurrency item <=? 0) || (sn_MaxConcurrency item <=? sn_RunningTasks item)
            = false) as -> by (apply orb_false_iff; split; apply Z.leb_gt; lia).
    rewrite !(proj2 (Z.ltb_ge _ _)) by lia. eauto.
Qed.

Lemma filter_one_candidate run item c :
  filter_one run item = Some c →
  cd_ServerID c = sn_ID item ∧
  cd_Available c = mkResources (CPUAvailableMillicores item) (MemoryAvailableBytes item)
                     (DiskAvailableBytes item) ∧
  0 < cd_SchedulingWeight c.
Proof.
  unfold filter_one. repeat (case_match; [done|]). intros [= <-]; simpl.
  split_and!; [done..|]. destruct (Z.leb_spec (sn_SchedulingWeight item) 0); lia.
Qed.

Lemma elem_of_Filter run servers c :
  c ∈ Filter run servers ↔ ∃ item, item ∈ servers ∧ filter_one run item = Some c.
Proof.
  induction servers as [|item rest IH]; simpl; [set_solver|].
  destruct (filter_one run item) eqn:E; set_unfold; naive_solver.
Qed.

(** [Filter] is exact: every candidate comes from a listed server that is
    online, enabled, not draining, carries the required labels and runtime, has
    the artifact capability when it is needed, a free slot, an unblocked script
    version and enough CPU, memory and disk; every such server yields a
    candidate; and the candidates keep the order of the servers. *)
Theorem Filter_correct run servers :
  (∀ c, c ∈ Filter run servers →
     ∃ item, item ∈ servers ∧ schedulable run item ∧ filter_one run item = Some c) ∧
  (∀ item, item ∈ servers → schedulable run item →
     ∃ c, c ∈ Filter run servers ∧ cd_ServerID c = sn_ID item) ∧
  (cd_ServerID <$> Filter run servers) `sublist_of` (sn_ID <$> servers).
Proof.
  split_and!.
  - intros c Hc. apply elem_of_Filter in Hc as (item & Hi & Hf).
    exists item. split_and!; [done| |done]. apply filter_one_schedulable; eauto.
  - intros item Hi [c Hc]%filter_one_schedulable. exists c. split.
    + apply elem_of_Filter; eauto.
    + by apply filter_one_candidate in Hc as (? & _).
  - induction servers as [|item rest IH]; simpl; [done|].
    destruct (filter_one run item) as [c|] eqn:E; simpl.
    + apply filter_one_candidate in E as (-> & _). by constructor.
    + by constructor.
Qed.

End Filtering.

(** ** score.go *)

Module Scoring.

Definition scoreBasis : Z := 10000.

Definition mul64 (a b : Z) : Z := wrap64 (a * b).
Definition add64 (a b : Z) : Z := wrap64 (a + b).
Definition sub64 (a b : Z) : Z := wrap64 (a - b).

Definition clamp (value minimum maximum : Z) : Z :=
  if value <? minimum then minimum else if maximum <? value then maximum else value.

Definition ratio (available total : Z) : Z :=
  if (total <=? 0) || (available <=? 0) then 0
  else clamp (go_div (mul64 available scoreBasis) total) 0 scoreBasis.

Definition Score (candidate : Candidate) : Z :=
  let memory := ratio (MemoryBytes (cd_Available candidate)) (MemoryBytes (cd_Total candidate)) in
  let cpu := ratio (CPUMillicores (cd_Available candidate)) (CPUMillicores (cd_Total candidate)) in
  let availableSlots := sub64 (cd_MaxConcurrency candidate) (cd_RunningTasks candidate) in
  let concurrency := ratio availableSlots (cd_MaxConcurrency candidate) in
  let cache := if cd_ScriptCached candidate then scoreBasis else 0 in
  let fairness := clamp (cd_FairnessScore candidate) 0 scoreBasis in
  let base := go_div (add64 (add64 (add64 (add64 (mul64 memory 35) (mul64 cpu 25))
                (mul64 concurrency 20)) (mul64 cache 15)) (mul64 fairness 5)) 100 in
  let weight := if cd_SchedulingWeight candidate <=? 0 then 100 else cd_SchedulingWeight candidate in
  go_div (mul64 base weight) 100.

Arguments Score : simpl never.

(** The comparison function of [RankCandidates]. *)
Definition rank_less (left right : Candidate) : bool :=
  let leftScore := Score left in
  let rightScore := Score right in
  if negb (leftScore =? rightScore) then rightScore <? leftScore
  else string_lt (cd_ServerID left) (cd_ServerID right).

Definition RankCandidates (candidates : list Candidate) : list Candidate :=
  stable_sort rank_less candidates.

(** The score as a rational average, without machine arithmetic. *)
Definition ideal_ratio (available total : Z) : Z :=
  if (total <=? 0) || (available <=? 0) then 0 else Z.min (available * 10000 / total) 10000.

Definition ideal_score (c : Candidate) : Z :=
  (ideal_ratio (MemoryBytes (cd_Available c)) (MemoryBytes (cd_Total c)) * 35
   + ideal_ratio (CPUMillicores (cd_Available c)) (CPUMillicores (cd_Total c)) * 25
   + ideal_ratio (cd_MaxConcurrency c - cd_RunningTasks c) (cd_MaxConcurrency c) * 20
   + (if cd_ScriptCached c then 10000 else 0) * 15
   + Z.max 0 (Z.min (cd_FairnessScore c) 10000) * 5) / 100
  * (if cd_SchedulingWeight c <=? 0 then 100 else cd_SchedulingWeight c) / 100.

(** The largest amount whose product with the score basis fits [int64]. *)
Definition exact_limit : Z := int64_max / scoreBasis.

(** The inputs for which no intermediate product of [Score] leaves [int64]. *)
Record score_exact (c : Candidate) : Prop := {
  se_memory : MemoryBytes (cd_Available c) ≤ exact_limit;
  se_cpu : CPUMillicores (cd_Available c) ≤ exact_limit;
  se_slots : 0 ≤ cd_RunningTasks c ∧ cd_MaxConcurrency c ≤ exact_limit;
  se_slots_low : - exact_limit ≤ cd_MaxConcurrency c - cd_RunningTasks c;
  se_weight : cd_SchedulingWeight c ≤ exact_limit
}.

Lemma clamp_bounds v lo hi : lo ≤ hi → lo ≤ clamp v lo hi ≤ hi.
Proof. unfold clamp. intros. destruct (Z.ltb_spec v lo), (Z.ltb_spec hi v); lia. Qed.

Lemma clamp_min_max v : clamp v 0 scoreBasis = Z.max 0 (Z.min v 10000).
Proof. unfold clamp, scoreBasis. destruct (Z.ltb_spec v 0), (Z.ltb_spec 10000 v); lia. Qed.

Lemma ratio_bounds a t : 0 ≤ ratio a t ≤ scoreBasis.
Proof.
  unfold ratio. destruct (_ || _); [unfold scoreBasis; lia|].
  apply clamp_bounds. unfold scoreBasis; lia.
Qed.

Lemma exact_limit_eq : exact_limit = 922337203685477.
Proof. reflexivity. Qed.

Lemma exact_limit_mul a : 0 ≤ a ≤ exact_limit → in_int64 (a * scoreBasis).
Proof. rewrite exact_limit_eq. unfold in_int64, int64_min, int64_max, scoreBasis. lia. Qed.

Lemma ratio_ideal a t : a ≤ exact_limit → ratio a t = ideal_ratio a t.
Proof.
  intros Ha. unfold ratio, ideal_ratio.
  destruct (Z.leb_spec t 0); simpl; [done|].
  destruct (Z.leb_spec a 0); simpl; [done|].
  unfold mul64. rewrite wrap64_id by (apply exact_limit_mul; lia).
  unfold scoreBasis in *. rewrite go_div_pos by lia.
  pose proof (Z.div_pos (a * 10000) t ltac:(lia) ltac:(lia)).
  unfold clamp. destruct (Z.ltb_spec (a * 10000 / t) 0), (Z.ltb_spec 10000 (a * 10000 / t)); lia.
Qed.

Lemma small_int64 z : 0 ≤ z ≤ 1000000 → in_int64 z.
Proof. unfold in_int64, int64_min, int64_max. lia. Qed.

Lemma mul64_small a b : 0 ≤ a ≤ 10000 → 0 ≤ b ≤ 100 → mul64 a b = a * b.
Proof. intros. unfold mul64. apply wrap64_id, small_int64. nia. Qed.
Lemma add64_small a b : 0 ≤ a → 0 ≤ b → a + b ≤ 1000000 → add64 a b = a + b.
Proof. intros. unfold add64. apply wrap64_id, small_int64. lia. Qed.

(** The weighted sum stays far below the wrap-around. *)
Lemma base_exact m c k h f :
  0 ≤ m ≤ 10000 → 0 ≤ c ≤ 10000 → 0 ≤ k ≤ 10000 → 0 ≤ h ≤ 10000 → 0 ≤ f ≤ 10000 →
  go_div (add64 (add64 (add64 (add64 (mul64 m 35) (mul64 c 25)) (mul64 k 20)) (mul64 h 15)) (mul64 f 5)) 100
  = (m * 35 + c * 25 + k * 20 + h * 15 + f * 5) / 100
  ∧ 0 ≤ (m * 35 + c * 25 + k * 20 + h * 15 + f * 5) / 100 ≤ 10000.
Proof.
  intros. rewrite !mul64_small by lia.
  rewrite (add64_small (m * 35)), (add64_small (m * 35 + c * 25)),
    (add64_small (m * 35 + c * 25 + k * 20)), (add64_small (m * 35 + c * 25 + k * 20 + h * 15)) by lia.
  rewrite go_div_pos by lia. split; [done|].
  split; [apply Z.div_pos; lia|]. apply Z.div_le_upper_bound; lia.
Qed.

(** Scaling by the weight. *)
Lemma weighted_exact base weight :
  0 ≤ base ≤ 10000 → 0 < weight ≤ exact_limit →
  go_div (mul64 base weight) 100 = base * weight / 100 ∧ 0 ≤ base * weight / 100 ≤ 100 * weight.
Proof.
  intros Hb Hw. rewrite exact_limit_eq in Hw.
  assert (0 ≤ base * weight) by (apply Z.mul_nonneg_nonneg; lia).
  assert (base * weight ≤ 10000 * weight) by (apply Z.mul_le_mono_nonneg_r; lia).
  assert (in_int64 (base * weight)) by (unfold in_int64, int64_min, int64_max; lia).
  unfold mul64. rewrite wrap64_id, go_div_pos by (done || lia).
  split; [done|]. split; [apply Z.div_pos; lia|]. apply Z.div_le_upper_bound; lia.
Qed.

Lemma weight_bounds w :
  w ≤ exact_limit → 0 < (if w <=? 0 then 100 else w) ≤ exact_limit.
Proof. rewrite exact_limit_eq. intros. destruct (Z.leb_spec w 0); lia. Qed.

Lemma cache_bounds (b : bool) : 0 ≤ (if b then scoreBasis else 0) ≤ 10000.
Proof. unfold scoreBasis. destruct b; lia. Qed.

(** Within the range of memory and slot counts where [available*10000] fits
    [int64] (up to about 838 TiB of memory), [Score] is the exact weighted average
    35/25/20/15/5 of memory, CPU, free slots, cache hit and fairness scaled by the
    server's weight, and it lies between 0 and 100 times that weight. *)
Theorem Score_exact c :
  score_exact c →
  Score c = ideal_score c ∧
  0 ≤ Score c ≤ 100 * (if cd_SchedulingWeight c <=? 0 then 100 else cd_SchedulingWeight c).
Proof.
  intros [Hm Hc [Hr Hx] Hl Hw]. unfold Score, ideal_score.
  assert (in_int64 (cd_MaxConcurrency c - cd_RunningTasks c)) as Hs.
  { rewrite exact_limit_eq in *. unfold in_int64, int64_min, int64_max. lia. }
  unfold sub64. rewrite (wrap64_id _ Hs).
  rewrite !ratio_ideal by lia.
  pose proof (ratio_bounds (MemoryBytes (cd_Available c)) (MemoryBytes (cd_Total c))) as B1.
  pose proof (ratio_bounds (CPUMillicores (cd_Available c)) (CPUMillicores (cd_Total c))) as B2.
  pose proof (ratio_bounds (cd_MaxConcurrency c - cd_RunningTasks c) (cd_MaxConcurrency c)) as B3.
  rewrite !ratio_ideal in B1, B2, B3 by lia.
  pose proof (cache_bounds (cd_ScriptCached c)) as B4.
  pose proof (clamp_bounds (cd_FairnessScore c) 0 scoreBasis ltac:(unfold scoreBasis; lia)) as B5.
  destruct (base_exact _ _ _ _ _ B1 B2 B3 B4 B5) as [-> Hb].
  rewrite clamp_min_max in *. unfold scoreBasis in *.
  set (base := (_ / 100)) in *.
  set (weight := if cd_SchedulingWeight c <=? 0 then 100 else cd_SchedulingWeight c).
  pose proof (weight_bounds _ Hw) as Hwt. fold weight in Hwt.
  destruct (weighted_exact base weight Hb Hwt) as [-> Hs2]. by split.
Qed.

(** A 32-core, 64 GiB server with a quarter of its memory in use. *)
Definition example_candidate : Candidate :=
  mkCandidate "node-a" (mkResources 32000 68719476736 1099511627776)
    (mkResources 24000 51539607552 549755813888) 2 8 true 10000 100.

Lemma Score_exact_witness :
  score_exact example_candidate ∧ Score example_candidate = 8000 ∧
  Score example_candidate = ideal_score example_candidate.
Proof.
  assert (score_exact example_candidate) as H
    by (split; rewrite ?exact_limit_eq; simpl; lia).
  split; [exact H|]. split; [vm_compute; reflexivity|].
  exact (proj1 (Score_exact example_candidate H)).
Defined.

#[export] Instance rank_less_weak : StrictWeak rank_less.
Proof.
  apply (StrictWeak_ext _ (less_lex (less_flip (less_by Z.ltb Score)) (less_by string_lt cd_ServerID)));
    [|apply _].
  intros a b. unfold rank_less, less_lex, less_flip, less_by.
  generalize (Score a) (Score b). intros x y.
  destruct (Z.eqb_spec x y) as [->|Hne]; simpl.
  - by rewrite Z.ltb_irrefl.
  - destruct (Z.ltb_spec y x), (Z.ltb_spec x y); lia.
Qed.

Lemma rank_less_false a b :
  rank_less b a = false →
  Score b < Score a ∨ (Score a = Score b ∧ string_lt (cd_ServerID b) (cd_ServerID a) = false).
Proof.
  unfold rank_less. generalize (Score a) (Score b). intros x y.
  destruct (Z.eqb_spec y x) as [->|]; simpl; [by right|].
  rewrite Z.ltb_ge. lia.
Qed.

(** [RankCandidates] reorders the candidates it is given and nothing else,
    best score first, and equal scores by ascending server id. *)
Theorem RankCandidates_sorted candidates :
  RankCandidates candidates ≡ₚ candidates ∧
  ∀ i j a b, (i < j)%nat → RankCandidates candidates !! i = Some a →
    RankCandidates candidates !! j = Some b →
    Score b < Score a ∨ (Score a = Score b ∧ string_lt (cd_ServerID b) (cd_ServerID a) = false).
Proof.
  split; [apply stable_sort_perm|]. intros i j a b Hij Ha Hb.
  apply rank_less_false.
  by eapply (stable_sort_lookup rank_less candidates).
Qed.

End Scoring.

(** ** queue.go *)

Module Queueing.

(** The comparison function of [sortRuns]. *)
Definition run_less (left right : Run) : bool :=
  if negb (run_Priority left =? run_Priority right) then run_Priority right <? run_Priority left
  else if negb (run_QueuedAt left =? run_QueuedAt right) then run_QueuedAt left <? run_QueuedAt right
  else string_lt (run_ID left) (run_ID right).

Definition sortRuns (items : list Run) : list Run := stable_sort run_less items.

(** [Queue]: the [items] map, keyed by run id. *)
Definition Queue : Type := gmap string Run.

Definition NewQueue : gmap string Run := ∅.

Definition Push (run : Run) (q : gmap string Run) : gmap string Run :=
  if bool_decide (run_ID run = "") then q else <[run_ID run := run]> q.

(** [Pop] over the items in the order a map iteration yields them. *)
Definition pop_from (items : list Run) (q : gmap string Run) : option Run * gmap string Run :=
  match sortRuns items with
  | [] => (None, q)
  | selected :: _ => (Some selected, delete (run_ID selected) q)
  end.

Definition Pop (q : gmap string Run) : option Run * gmap string Run :=
  if bool_decide (size q = 0%nat) then (None, q) else pop_from (map_to_list q).*2 q.

Definition Remove (runID : string) (q : gmap string Run) : gmap string Run := delete runID q.

Definition Len (q : gmap string Run) : Z := Z.of_nat (size q).

(** Every item sits under its own, non-empty id. *)
Definition queue_ok (q : gmap string Run) : Prop :=
  ∀ k r, q !! k = Some r → run_ID r = k ∧ k ≠ "".

Lemma NewQueue_ok : queue_ok NewQueue.
Proof. intros k r H. unfold NewQueue in H. by rewrite lookup_empty in H. Qed.

Lemma Push_ok run q : queue_ok q → queue_ok (Push run q).
Proof.
  intros Hq. unfold Push. case_bool_decide; [done|].
  intros k r. rewrite lookup_insert. case_decide; [by intros [= <-]; subst|apply Hq].
Qed.

Lemma Remove_ok runID q : queue_ok q → queue_ok (Remove runID q).
Proof.
  intros Hq k r. unfold Remove. rewrite lookup_delete. case_decide; [done|]. apply Hq.
Qed.

#[export] Instance run_less_weak : StrictWeak run_less.
Proof.
  apply (StrictWeak_ext _ (less_lex (less_flip (less_by Z.ltb run_Priority))
    (less_lex (less_by Z.ltb run_QueuedAt) (less_by string_lt run_ID)))); [|apply _].
  intros a b. unfold run_less, less_lex, less_flip, less_by.
  destruct (Z.eqb_spec (run_Priority a) (run_Priority b)) as [->|Hne]; simpl.
  - rewrite Z.ltb_irrefl.
    destruct (Z.eqb_spec (run_QueuedAt a) (run_QueuedAt b)) as [->|Hne]; simpl.
    + by rewrite Z.ltb_irrefl.
    + destruct (Z.ltb_spec (run_QueuedAt a) (run_QueuedAt b)),
        (Z.ltb_spec (run_QueuedAt b) (run_QueuedAt a)); lia.
  - destruct (Z.ltb_spec (run_Priority b) (run_Priority a)),
      (Z.ltb_spec (run_Priority a) (run_Priority b)); lia.
Qed.

(** Runs the order does not separate carry the same id. *)
Lemma run_less_sep a b : run_less a b = false → run_less b a = false → run_ID a = run_ID b.
Proof.
  unfold run_less.
  destruct (Z.eqb_spec (run_Priority a) (run_Priority b)) as [->|Hne]; simpl.
  - rewrite Z.eqb_refl. simpl.
    destruct (Z.eqb_spec (run_QueuedAt a) (run_QueuedAt b)) as [->|Hne]; simpl.
    + rewrite Z.eqb_refl. simpl. apply string_lt_sep.
    + rewrite (proj2 (Z.eqb_neq (run_QueuedAt b) (run_QueuedAt a))) by done. simpl.
      rewrite !Z.ltb_ge. lia.
  - rewrite (proj2 (Z.eqb_neq (run_Priority b) (run_Priority a))) by done. simpl.
    rewrite !Z.ltb_ge. lia.
Qed.

(** [a] may not be passed over in favour of [b]. *)
Definition served_before (a b : Run) : Prop :=
  run_Priority b < run_Priority a ∨
  (run_Priority a = run_Priority b ∧
     (run_QueuedAt a < run_QueuedAt b ∨
      (run_QueuedAt a = run_QueuedAt b ∧ String.le (run_ID a) (run_ID b)))).

Lemma run_less_false a b : run_less b a = false → served_before a b.
Proof.
  unfold run_less, served_before.
  destruct (Z.eqb_spec (run_Priority b) (run_Priority a)); simpl.
  - destruct (Z.eqb_spec (run_QueuedAt b) (run_QueuedAt a)); simpl.
    + rewrite string_lt_false. auto.
    + rewrite Z.ltb_ge. lia.
  - rewrite Z.ltb_ge. lia.
Qed.

Lemma elem_of_items (q : gmap string Run) r :
  r ∈ (map_to_list q).*2 ↔ ∃ k, q !! k = Some r.
Proof.
  rewrite list_elem_of_fmap. split.
  - intros ([k r'] & -> & H). apply elem_of_map_to_list in H. eauto.
  - intros [k H]. exists (k, r). split; [done|]. by apply elem_of_map_to_list.
Qed.

(** The choice does not depend on the iteration order. *)
Lemma pop_from_order q items :
  queue_ok q → items ≡ₚ (map_to_list q).*2 → pop_from items q = pop_from (map_to_list q).*2 q.
Proof.
  intros Hq Hp. unfold pop_from, sortRuns.
  rewrite (stable_sort_unique run_less items ((map_to_list q).*2)); [done| |done].
  intros x y Hx Hy H1 H2. rewrite Hp in Hx, Hy.
  apply elem_of_items in Hx as [kx Hx]. apply elem_of_items in Hy as [ky Hy].
  pose proof (run_less_sep _ _ H1 H2) as E.
  destruct (Hq _ _ Hx) as [<- _], (Hq _ _ Hy) as [<- _]. rewrite E in Hx. congruence.
Qed.

Lemma pop_from_None q : fst (pop_from (map_to_list q).*2 q) = None → q = ∅.
Proof.
  unfold pop_from, sortRuns.
  destruct (stable_sort run_less _) as [|x rest] eqn:E; [|done].
  apply stable_sort_nil in E. intros _.
  apply fmap_nil_inv in E. by apply map_to_list_empty_iff.
Qed.

(** [Pop] on a well-formed queue: it fails only on the empty queue; otherwise
    it returns a queued run that no other queued run precedes (higher priority
    first, then the earlier queue time, then the smaller id), removes exactly that
    run, keeps the queue well formed, and makes the same choice for every order in
    which Go may iterate over the map. *)
Theorem Pop_correct q :
  queue_ok q →
  match Pop q with
  | (None, q') => q = ∅ ∧ q' = q
  | (Some r, q') =>
    q !! run_ID r = Some r ∧ q' = delete (run_ID r) q ∧ queue_ok q' ∧
    (∀ k r', q !! k = Some r' → served_before r r') ∧
    (∀ items, items ≡ₚ (map_to_list q).*2 → pop_from items q = Pop q)
  end.
Proof.
  intros Hq. unfold Pop. case_bool_decide as Hs.
  { split; [by apply map_size_empty_inv|done]. }
  assert (∀ items, items ≡ₚ (map_to_list q).*2 → pop_from items q = pop_from (map_to_list q).*2 q)
    as Hord by (intros; by apply pop_from_order).
  destruct (pop_from (map_to_list q).*2 q) as [[r|] q'] eqn:E.
  - unfold pop_from, sortRuns in E.
    destruct (stable_sort run_less (map_to_list q).*2) as [|x rest] eqn:Hsort; simplify_eq.
    apply (stable_sort_head run_less) in Hsort as [Hin Hmin].
    apply elem_of_items in Hin as [k Hk]. destruct (Hq _ _ Hk) as [<- ?].
    split_and!; try done; [by apply Remove_ok|].
    intros k' r' Hk'. apply run_less_false, Hmin, elem_of_items. eauto.
  - assert (q = ∅) as -> by (apply pop_from_None; by rewrite E). by rewrite map_size_empty in Hs.
Qed.

(** Three runs: the urgent one is served first. *)
Definition example_run (id : string) (priority queued : Z) : Run :=
  mkRun false id "def" "ver" "manual" Queued ∅ ∅ "python" priority (mkResources 100 1 1)
    1 3600 0 (mkRetryPolicy 0 0) true None queued queued.

Definition example_queue : gmap string Run :=
  Push (example_run "c" 50 7) (Push (example_run "b" 90 9) (Push (example_run "a" 50 5) NewQueue)).

Lemma Pop_correct_witness :
  queue_ok example_queue ∧ fst (Pop example_queue) = Some (example_run "b" 90 9) ∧
  match Pop example_queue with
  | (None, q') => example_queue = ∅ ∧ q' = example_queue
  | (Some r, q') =>
    example_queue !! run_ID r = Some r ∧ q' = delete (run_ID r) example_queue ∧ queue_ok q' ∧
    (∀ k r', example_queue !! k = Some r' → served_before r r') ∧
    (∀ items, items ≡ₚ (map_to_list example_queue).*2 →
       pop_from items example_queue = Pop example_queue)
  end.
Proof.
  assert (queue_ok example_queue) as H by (unfold example_queue; auto using Push_ok, NewQueue_ok).
  split; [exact H|]. split; [vm_compute; reflexivity|].
  exact (Pop_correct example_queue H).
Defined.

End Queueing.
