(* ===== verification/RedisLease.v ===== *)
(** * RedisLease

    The Redis lease store ([internal/store/redis/lease.go]).  For each server Redis
    holds a hash of reserved totals, a hash of packed amounts per run and a sorted
    set of expirations, and per run a marker key with the lease id.  The three Lua
    scripts run atomically and are modelled command by command; a script's writes
    stay even when it answers 0.  Numbers are exact integers here; [LuaLease] has the
    scripts with the doubles of Lua and the 64-bit integers of Redis, and proves that they
    are these scripts while totals and amounts stay within 2^53. *)

From S2P Require Import Prelude GoStd Model World SchedulerCore.

(** ** Resource vectors *)

Definition res_zero : Resources := mkResources 0 0 0.
Definition res_add (a b : Resources) : Resources :=
  mkResources (CPUMillicores a + CPUMillicores b) (MemoryBytes a + MemoryBytes b)
    (DiskBytes a + DiskBytes b).
Definition res_sub (a b : Resources) : Resources :=
  mkResources (CPUMillicores a - CPUMillicores b) (MemoryBytes a - MemoryBytes b)
    (DiskBytes a - DiskBytes b).
Definition res_le (a b : Resources) : Prop :=
  CPUMillicores a ≤ CPUMillicores b ∧ MemoryBytes a ≤ MemoryBytes b ∧ DiskBytes a ≤ DiskBytes b.

Lemma res_eq a b :
  CPUMillicores a = CPUMillicores b → MemoryBytes a = MemoryBytes b → DiskBytes a = DiskBytes b → a = b.
Proof. destruct a, b; simpl; congruence. Qed.

Ltac res_solve := apply res_eq; simpl; lia.

(** ** The keys of one server *)

Record LeaseState : Type := mkLeaseState {
  ls_reserved : Resources;
  ls_amounts : gmap string string;
  ls_expirations : gmap string Z;
  ls_markers : gmap string (string * Z)
}.

#[export] Instance eta_LeaseState : Eta LeaseState := λ s,
  mkLeaseState (ls_reserved s) (ls_amounts s) (ls_expirations s) (ls_markers s).

Definition ls_empty : LeaseState := mkLeaseState res_zero ∅ ∅ ∅.

(** [cpu .. ':' .. memory .. ':' .. disk]. *)
Definition pack (r : Resources) : string :=
  format_nonneg (CPUMillicores r) +:+ ":" +:+ format_nonneg (MemoryBytes r) +:+ ":" +:+
  format_nonneg (DiskBytes r).

(** [string.match(packed, '^(%d+):(%d+):(%d+)$')] with [tonumber]. *)
Definition unpack (packed : string) : option Resources :=
  match split_on ":" packed with
  | [a; b; c] =>
    match unsigned_value a, unsigned_value b, unsigned_value c with
    | Some cpu, Some memory, Some disk => Some (mkResources cpu memory disk)
    | _, _, _ => None
    end
  | _ => None
  end.

(** [HINCRBY] of the three fields by minus the unpacked amounts, when they
    match. *)
Definition give_back (packed : string) (s : LeaseState) : LeaseState :=
  match unpack packed with
  | Some r => s <| ls_reserved ::= λ t, res_sub t r |>
  | None => s
  end.

(** [HGET]/[HINCRBY]/[HDEL] of one run, shared by the reserve and release
    scripts. *)
Definition drop_amount (run : string) (s : LeaseState) : LeaseState :=
  match ls_amounts s !! run with
  | Some packed => (give_back packed s) <| ls_amounts ::= delete run |>
  | None => s
  end.

Definition expire_one (s : LeaseState) (run : string) : LeaseState :=
  (drop_amount run s) <| ls_expirations ::= delete run |>.

(** [ZRANGEBYSCORE key -inf now]: members by score, then by name. *)
Definition expired_members (now : Z) (s : LeaseState) : list string :=
  (stable_sort (λ a b, if negb (a.2 =? b.2) then a.2 <? b.2 else string_lt a.1 b.1)
     (filter (λ e, e.2 ≤ now) (map_to_list (ls_expirations s)))).*1.

Definition expire_all (now : Z) (s : LeaseState) : LeaseState :=
  foldl expire_one s (expired_members now s).

(** [reserveScript]. *)
Definition reserveScript (now : Z) (run : string) (required available : Resources)
    (expiresAt : Z) (leaseID : string) (ttl : Z) (s : LeaseState) : LeaseState * Z :=
  let s := expire_all now s in
  if bool_decide (is_Some (ls_amounts s !! run)) then (s, 0) else
  let reserved := ls_reserved s in
  if (CPUMillicores available - CPUMillicores reserved <? CPUMillicores required)
     || (MemoryBytes available - MemoryBytes reserved <? MemoryBytes required)
     || (DiskBytes available - DiskBytes reserved <? DiskBytes required)
  then (s, 0) else
  (mkLeaseState (res_add reserved required) (<[run := pack required]> (ls_amounts s))
     (<[run := expiresAt]> (ls_expirations s)) (<[run := (leaseID, ttl)]> (ls_markers s)), 1).

(** [releaseScript]. *)
Definition releaseScript (run : string) (s : LeaseState) : LeaseState * Z :=
  let s := drop_amount run s in
  (s <| ls_expirations ::= delete run |> <| ls_markers ::= delete run |>, 1).

(** [restoreScript]; [None] is the error reply. *)
Definition restoreScript (run : string) (amounts : Resources) (expiresAt : Z) (leaseID : string)
    (ttl : Z) (s : LeaseState) : option (LeaseState * Z) :=
  let reserved :=
    match ls_amounts s !! run with
    | None => Some (res_add (ls_reserved s) amounts)
    | Some packed =>
      match unpack packed with
      | None => None
      | Some old => Some (res_add (ls_reserved s) (res_sub amounts old))
      end
    end in
  match reserved with
  | None => None
  | Some reserved =>
    Some (mkLeaseState reserved (<[run := pack amounts]> (ls_amounts s))
      (<[run := expiresAt]> (ls_expirations s)) (<[run := (leaseID, ttl)]> (ls_markers s)), 1)
  end.

(** ** The store: the keys of every server *)

Definition RedisStore : Type := gmap string LeaseState.

Definition server_leases (r : gmap string LeaseState) (server : string) : LeaseState :=
  default ls_empty (r !! server).

Definition eval_script (server : string) (script : LeaseState → option (LeaseState * Z))
    (r : gmap string LeaseState) : option (gmap string LeaseState * Z) :=
  match script (server_leases r server) with
  | Some (s, reply) => Some (<[server := s]> r, reply)
  | None => None
  end.

Definition positive (r : Resources) : bool :=
  (0 <? CPUMillicores r) && (0 <? MemoryBytes r) && (0 <? DiskBytes r).
Definition non_negative (r : Resources) : bool :=
  (0 <=? CPUMillicores r) && (0 <=? MemoryBytes r) && (0 <=? DiskBytes r).

Definition validateRequest (request : LeaseRequest) : Result unit :=
  if bool_decide (lr_RunID request = "") || bool_decide (lr_ServerID request = "") ||
     (lr_TTL request <=? 0) || is_zero_time (lr_Now request) ||
     negb (positive (lr_Required request)) || negb (non_negative (lr_Available request))
  then Err ErrInvalidLeaseRequest else Ok tt.

Definition TryReserve (request : LeaseRequest) : Prog (gmap string LeaseState) (option Lease) :=
  match validateRequest request with
  | Err e => throw e
  | Ok _ =>
    let! leaseID := new_uuid in
    let expiresAt := lr_Now request + lr_TTL request in
    let! result := remote "申请 Redis 资源租约" (eval_script (lr_ServerID request) (λ s,
        Some (reserveScript (unix_milli (lr_Now request)) (lr_RunID request)
          (lr_Required request) (lr_Available request) (unix_milli expiresAt) leaseID
          (milliseconds (lr_TTL request)) s))) in
    if negb (result =? 1) then ret None
    else ret (Some (mkLease leaseID (lr_RunID request) (lr_ServerID request)
                     (lr_Required request) expiresAt))
  end.

Definition Release (lease : Lease) : Prog (gmap string LeaseState) unit :=
  if bool_decide (le_RunID lease = "") || bool_decide (le_ServerID lease = "")
  then throw ErrInvalidLeaseRequest else
  remote "释放 Redis 资源租约"
    (eval_script (le_ServerID lease) (λ s, Some (releaseScript (le_RunID lease) s))) ;;!
  ret tt.

Definition Restore (lease : Lease) (now : Time) : Prog (gmap string LeaseState) unit :=
  if bool_decide (le_ID lease = "") || bool_decide (le_RunID lease = "") ||
     bool_decide (le_ServerID lease = "") || is_zero_time now || negb (positive (le_Resources lease))
  then throw ErrInvalidLeaseRequest else
  let ttl := le_ExpiresAt lease - now in
  if ttl <=? 0 then ret tt else
  remote "恢复 Redis 资源租约"
    (eval_script (le_ServerID lease) (restoreScript (le_RunID lease) (le_Resources lease)
       (unix_milli (le_ExpiresAt lease)) (le_ID lease) (milliseconds ttl))) ;;!
  ret tt.

(** ** Packing *)

Definition no_colon (s : string) : Prop := contains_byte ":" s = false.

Lemma contains_byte_app c a b : contains_byte c (a +:+ b) = contains_byte c a || contains_byte c b.
Proof.
  induction a as [|x a IH]; [done|].
  change (String x a +:+ b) with (String x (a +:+ b)). simpl. by rewrite IH, orb_assoc.
Qed.

Lemma format_digits_no_colon fuel z acc :
  no_colon acc → no_colon (format_digits fuel z acc).
Proof.
  revert z acc. induction fuel as [|fuel IH]; intros z acc Hacc; simpl; [done|].
  assert (no_colon (String (digit_char (z mod 10)) acc)) as H.
  { unfold no_colon. simpl. rewrite Hacc, orb_false_r. apply bool_decide_eq_false.
    pose proof (digit_of_char (z mod 10) (Z.mod_pos_bound z 10 ltac:(lia))) as Hd.
    intros E. rewrite E in Hd. done. }
  destruct (z <? 10); [done|]. by apply IH.
Qed.

Lemma format_nonneg_no_colon z : no_colon (format_nonneg z).
Proof. by apply format_digits_no_colon. Qed.

Lemma split_on_no_sep sep s : contains_byte sep s = false → split_on sep s = [s].
Proof.
  induction s as [|c s IH]; simpl; [done|]. intros [H1 H2]%orb_false_iff.
  rewrite H1, IH by done. done.
Qed.

Lemma split_on_app sep a b :
  contains_byte sep a = false → split_on sep (a +:+ String sep b) = a :: split_on sep b.
Proof.
  induction a as [|c a IH]; simpl.
  - intros _. change ("" +:+ String sep b) with (String sep b). simpl.
    by rewrite bool_decide_eq_true_2.
  - intros [H1 H2]%orb_false_iff.
    change (String c a +:+ String sep b) with (String c (a +:+ String sep b)). simpl.
    by rewrite H1, IH.
Qed.

Lemma format_digits_nonempty fuel z acc : acc ≠ "" ∨ fuel ≠ O → format_digits fuel z acc ≠ "".
Proof.
  revert z acc. induction fuel as [|fuel IH]; intros z acc H; simpl; [naive_solver|].
  destruct (z <? 10); [done|]. apply IH. left. done.
Qed.

Lemma unsigned_format z : 0 ≤ z → unsigned_value (format_nonneg z) = Some z.
Proof.
  intros Hz. unfold unsigned_value. pose proof (format_nonneg_value z Hz) as H.
  destruct (format_nonneg z) eqn:E; [|done].
  exfalso. unfold format_nonneg in E. revert E. apply format_digits_nonempty. right. done.
Qed.

Lemma unpack_pack r :
  0 ≤ CPUMillicores r → 0 ≤ MemoryBytes r → 0 ≤ DiskBytes r → unpack (pack r) = Some r.
Proof.
  intros Hc Hm Hd. unfold unpack, pack.
  change (":" +:+ format_nonneg (MemoryBytes r) +:+ ":" +:+ format_nonneg (DiskBytes r))
    with (String ":" (format_nonneg (MemoryBytes r) +:+ String ":" (format_nonneg (DiskBytes r)))).
  rewrite !split_on_app by apply format_nonneg_no_colon.
  rewrite split_on_no_sep by apply format_nonneg_no_colon.
  rewrite !unsigned_format by done. by destruct r.
Qed.

#[export] Hint Resolve unpack_pack : yunling.

(** ** Accounting *)

Definition amount_of (packed : string) : Resources := default res_zero (unpack packed).

(** What the recorded leases add up to. *)
Definition total (amounts : gmap string string) : Resources :=
  map_fold (λ _ packed acc, res_add (amount_of packed) acc) res_zero amounts.

Lemma total_insert amounts run packed :
  amounts !! run = None →
  total (<[run := packed]> amounts) = res_add (amount_of packed) (total amounts).
Proof.
  intros H. unfold total. rewrite map_fold_insert_L; [done| |done].
  intros. res_solve.
Qed.

Lemma total_delete amounts run packed :
  amounts !! run = Some packed →
  total (delete run amounts) = res_sub (total amounts) (amount_of packed).
Proof.
  intros H. rewrite <-(insert_id amounts run packed H) at 2.
  rewrite <-insert_delete_eq. rewrite total_insert by apply lookup_delete_eq. res_solve.
Qed.

(** The invariant of the three structures of a server: every recorded amount is a
    well-formed non-negative triple, the runs with an amount are those with an
    expiration, and the counters are the sum of the amounts. *)
Record lease_inv (s : LeaseState) : Prop := {
  li_amounts : ∀ run packed, ls_amounts s !! run = Some packed →
    ∃ r, unpack packed = Some r ∧ res_le res_zero r;
  li_dom : dom (ls_amounts s) = dom (ls_expirations s);
  li_total : ls_reserved s = total (ls_amounts s)
}.

Definition redis_inv (r : gmap string LeaseState) : Prop := ∀ server, lease_inv (server_leases r server).

Lemma lease_inv_empty : lease_inv ls_empty.
Proof. split; simpl; [|set_solver|done]. intros run packed H. by rewrite lookup_empty in H. Qed.

Lemma positive_nonneg r : positive r = true → res_le res_zero r.
Proof. unfold positive, res_le. simpl. rewrite !andb_true_iff, !Z.ltb_lt. lia. Qed.

Lemma positive_unpack r : positive r = true → unpack (pack r) = Some r.
Proof. intros [? [? ?]]%positive_nonneg. by apply unpack_pack. Qed.

Lemma total_nonneg amounts :
  (∀ run packed, amounts !! run = Some packed → ∃ r, unpack packed = Some r ∧ res_le res_zero r) →
  res_le res_zero (total amounts).
Proof.
  induction amounts as [|run packed amounts Hn IH] using map_ind; intros H.
  - unfold total. rewrite map_fold_empty. unfold res_le; simpl; lia.
  - rewrite total_insert by done.
    destruct (H run packed) as (r & Hr & Hle); [apply lookup_insert_eq|].
    assert (res_le res_zero (total amounts)) as Ht.
    { apply IH. intros run' packed' H'. apply (H run'). rewrite lookup_insert_ne; [done|].
      intros ->. congruence. }
    unfold amount_of. rewrite Hr. unfold res_le in *; simpl in *; lia.
Qed.

(** Dropping one run's amount and expiration. *)
Lemma drop_amount_inv run s :
  lease_inv s →
  let s' := (drop_amount run s) <| ls_expirations ::= delete run |> in
  lease_inv s' ∧ ls_amounts s' = delete run (ls_amounts s) ∧
  ls_expirations s' = delete run (ls_expirations s).
Proof.
  intros [Ha Hd Ht]. unfold drop_amount.
  destruct (ls_amounts s !! run) as [packed|] eqn:E.
  - destruct (Ha _ _ E) as (r & Hr & Hle). unfold give_back. rewrite Hr. simpl.
    split_and!; [|done..]. split; simpl.
    + intros run' packed' H. apply lookup_delete_Some in H as [_ H]. by eapply Ha.
    + by rewrite !dom_delete_L, Hd.
    + rewrite (total_delete _ _ _ E), Ht. unfold amount_of. by rewrite Hr.
  - simpl. assert (ls_expirations s !! run = None) as E'.
    { apply not_elem_of_dom. rewrite <-Hd. by apply not_elem_of_dom. }
    rewrite !delete_id by done. split_and!; [by split|done..].
Qed.

Lemma expire_one_inv s run :
  lease_inv s →
  lease_inv (expire_one s run) ∧ ls_amounts (expire_one s run) = delete run (ls_amounts s) ∧
  ls_expirations (expire_one s run) = delete run (ls_expirations s).
Proof. apply drop_amount_inv. Qed.

Lemma foldl_expire_inv runs s :
  lease_inv s →
  let s' := foldl expire_one s runs in
  lease_inv s' ∧
  (∀ run, ls_amounts s' !! run = if decide (run ∈ runs) then None else ls_amounts s !! run) ∧
  (∀ run, ls_expirations s' !! run = if decide (run ∈ runs) then None else ls_expirations s !! run).
Proof.
  revert s. induction runs as [|x runs IH]; intros s Hs; simpl.
  { by split_and!. }
  destruct (expire_one_inv s x Hs) as (H1 & H2 & H3).
  destruct (IH _ H1) as (I1 & I2 & I3). split_and!; [done|intros run..].
  - rewrite I2, H2, lookup_delete. repeat case_decide; set_solver.
  - rewrite I3, H3, lookup_delete. repeat case_decide; set_solver.
Qed.

Lemma elem_of_expired_members now s run :
  run ∈ expired_members now s ↔ ∃ t, ls_expirations s !! run = Some t ∧ t ≤ now.
Proof.
  unfold expired_members. rewrite list_elem_of_fmap. split.
  - intros ([k t] & -> & H). apply elem_of_stable_sort, list_elem_of_filter in H as [Hle H].
    apply elem_of_map_to_list in H. eauto.
  - intros (t & H & Hle). exists (run, t). split; [done|].
    apply elem_of_stable_sort, list_elem_of_filter. split; [done|]. by apply elem_of_map_to_list.
Qed.

(** After the clean-up only live leases are left, unchanged. *)
Lemma expire_all_spec now s :
  lease_inv s →
  let s' := expire_all now s in
  lease_inv s' ∧
  (∀ run t, ls_expirations s' !! run = Some t ↔ ls_expirations s !! run = Some t ∧ now < t) ∧
  (∀ run packed, ls_amounts s' !! run = Some packed ↔
     ls_amounts s !! run = Some packed ∧ ∃ t, ls_expirations s !! run = Some t ∧ now < t).
Proof.
  intros Hs. unfold expire_all.
  destruct (foldl_expire_inv (expired_members now s) s Hs) as (H1 & H2 & H3).
  split_and!; [done| |].
  - intros run t. rewrite H3. case_decide as Hd; rewrite elem_of_expired_members in Hd.
    + split; [done|]. intros [E Hlt]. destruct Hd as (t' & E' & Hle). simplify_eq. lia.
    + split; [|by intros [? _]]. intros E. split; [done|].
      destruct (Z.lt_ge_cases now t); [done|]. exfalso. eauto.
  - intros run packed. rewrite H2. case_decide as Hd; rewrite elem_of_expired_members in Hd.
    + split; [done|]. intros (_ & t & E & Hlt). destruct Hd as (t' & E' & Hle). simplify_eq. lia.
    + split; [|by intros [? _]]. intros E. split; [done|].
      assert (is_Some (ls_expirations s !! run)) as [t Ht].
      { apply elem_of_dom. rewrite <-(li_dom s Hs). apply elem_of_dom. eauto. }
      exists t. split; [done|]. destruct (Z.lt_ge_cases now t); [done|]. exfalso. eauto.
Qed.

(** Recording a lease under a run that has none. *)
Lemma record_lease_inv s run r expiresAt marker :
  lease_inv s → ls_amounts s !! run = None → positive r = true →
  lease_inv (mkLeaseState (res_add (ls_reserved s) r) (<[run := pack r]> (ls_amounts s))
    (<[run := expiresAt]> (ls_expirations s)) marker).
Proof.
  intros [Ha Hd Ht] Hn Hp. split; simpl.
  - intros run' packed' H. apply lookup_insert_Some in H as [[-> <-]|[_ H]]; [|by eapply Ha].
    exists r. split; [by apply positive_unpack|by apply positive_nonneg].
  - by rewrite !dom_insert_L, Hd.
  - rewrite total_insert by done. unfold amount_of. rewrite positive_unpack by done.
    simpl. rewrite Ht. res_solve.
Qed.

(** ** The scripts *)

Lemma reserveScript_cases now run required available expiresAt leaseID ttl s :
  let s0 := expire_all now s in
  (reserveScript now run required available expiresAt leaseID ttl s = (s0, 0) ∧
     (is_Some (ls_amounts s0 !! run) ∨ ¬ res_le (res_add (ls_reserved s0) required) available)) ∨
  (reserveScript now run required available expiresAt leaseID ttl s =
     (mkLeaseState (res_add (ls_reserved s0) required) (<[run := pack required]> (ls_amounts s0))
        (<[run := expiresAt]> (ls_expirations s0)) (<[run := (leaseID, ttl)]> (ls_markers s0)), 1) ∧
   ls_amounts s0 !! run = None ∧ res_le (res_add (ls_reserved s0) required) available).
Proof.
  cbv zeta. unfold reserveScript. set (s0 := expire_all now s).
  case_bool_decide as Hrun; [left; auto|].
  rewrite <-eq_None_not_Some in Hrun.
  destruct ((_ <? _) || _ || _) eqn:E.
  - left. split; [done|]. right. unfold res_le; simpl.
    rewrite !orb_true_iff, !Z.ltb_lt in E. lia.
  - right. split_and!; [done|done|]. unfold res_le; simpl.
    rewrite !orb_false_iff, !Z.ltb_ge in E. lia.
Qed.

Lemma reserveScript_inv now run required available expiresAt leaseID ttl s :
  lease_inv s → positive required = true →
  lease_inv (reserveScript now run required available expiresAt leaseID ttl s).1.
Proof.
  intros Hs Hp. destruct (expire_all_spec now s Hs) as (H0 & _).
  destruct (reserveScript_cases now run required available expiresAt leaseID ttl s)
    as [[-> _]|(-> & Hn & _)]; simpl; [done|].
  by apply record_lease_inv.
Qed.

Lemma releaseScript_inv run s : lease_inv s → lease_inv (releaseScript run s).1.
Proof.
  intros Hs. destruct (drop_amount_inv run s Hs) as ([Ha Hd Ht] & _).
  by split; simpl in *.
Qed.

Lemma restoreScript_some run amounts expiresAt leaseID ttl s :
  lease_inv s →
  restoreScript run amounts expiresAt leaseID ttl s =
    Some (mkLeaseState
            (res_add (res_sub (ls_reserved s) (default res_zero (amount_of <$> ls_amounts s !! run))) amounts)
            (<[run := pack amounts]> (ls_amounts s)) (<[run := expiresAt]> (ls_expirations s))
            (<[run := (leaseID, ttl)]> (ls_markers s)), 1).
Proof.
  intros Hs. unfold restoreScript. destruct (ls_amounts s !! run) as [packed|] eqn:E; simpl.
  - destruct (li_amounts s Hs _ _ E) as (old & Hold & _). unfold amount_of. rewrite Hold. simpl.
    do 3 f_equal. res_solve.
  - do 3 f_equal. res_solve.
Qed.

Lemma restoreScript_inv run amounts expiresAt leaseID ttl s s' n :
  lease_inv s → positive amounts = true →
  restoreScript run amounts expiresAt leaseID ttl s = Some (s', n) → lease_inv s'.
Proof.
  intros Hs Hp. rewrite restoreScript_some by done. intros [= <- <-].
  destruct (drop_amount_inv run s Hs) as (H0 & Ha & He).
  set (s0 := (drop_amount run s) <| ls_expirations ::= delete run |>) in *.
  assert (ls_reserved s0 = res_sub (ls_reserved s) (default res_zero (amount_of <$> ls_amounts s !! run)))
    as Hr.
  { rewrite (li_total _ H0), (li_total _ Hs), Ha.
    destruct (ls_amounts s !! run) as [packed|] eqn:E; simpl.
    - by rewrite (total_delete _ _ _ E).
    - rewrite delete_id by done. res_solve. }
  pose proof (record_lease_inv s0 run amounts expiresAt
    (<[run := (leaseID, ttl)]> (ls_markers s)) H0) as Hrec.
  rewrite Ha, He, Hr, lookup_delete_eq, !insert_delete_eq in Hrec. by apply Hrec.
Qed.

Lemma redis_inv_insert r server s : redis_inv r → lease_inv s → redis_inv (<[server := s]> r).
Proof.
  intros Hr Hs server'. unfold server_leases. rewrite lookup_insert.
  case_decide; [done|]. apply Hr.
Qed.

Lemma server_leases_insert r server s : server_leases (<[server := s]> r) server = s.
Proof. unfold server_leases. by rewrite lookup_insert_eq. Qed.

Lemma validateRequest_ok request u :
  validateRequest request = Ok u →
  lr_RunID request ≠ "" ∧ lr_ServerID request ≠ "" ∧ 0 < lr_TTL request ∧
  positive (lr_Required request) = true.
Proof.
  unfold validateRequest. destruct (_ || _) eqn:E; [done|]. intros _.
  rewrite !orb_false_iff, !bool_decide_eq_false, Z.leb_gt, !negb_false_iff in E. tauto.
Qed.

Lemma TryReserve_inv r request : redis_inv r → wp (TryReserve request) r (λ _, redis_inv).
Proof.
  intros Hr. unfold TryReserve. destruct (validateRequest request) as [u|e] eqn:E; [|by apply wp_throw].
  apply validateRequest_ok in E as (_ & _ & _ & Hp).
  apply wp_bind, wp_new_uuid; [done|]. intros id. apply wp_bind, wp_remote; [done|].
  intros r' n Hact. unfold eval_script in Hact.
  destruct (reserveScript _ _ _ _ _ _ _ _) as [s' n'] eqn:Es. simplify_eq.
  assert (redis_inv (<[lr_ServerID request := s']> r)) as Hr'.
  { apply redis_inv_insert; [done|]. eapply (f_equal fst) in Es. simpl in Es. subst.
    by apply reserveScript_inv. }
  split; [|done]. case_match; by apply wp_ret.
Qed.

Lemma Release_inv r lease : redis_inv r → wp (Release lease) r (λ _, redis_inv).
Proof.
  intros Hr. unfold Release. case_match; [by apply wp_throw|]. apply wp_bind, wp_remote; [done|].
  intros r' n Hact. unfold eval_script in Hact.
  destruct (releaseScript _ _) as [s' n'] eqn:Es. simplify_eq.
  apply (f_equal fst) in Es. simpl in Es. subst s'. split; [apply wp_ret|];
    (apply redis_inv_insert; [done|by apply releaseScript_inv]).
Qed.

Lemma Restore_inv r lease now : redis_inv r → wp (Restore lease now) r (λ _, redis_inv).
Proof.
  intros Hr. unfold Restore. case_match eqn:E; [by apply wp_throw|]. case_match; [by apply wp_ret|].
  apply orb_false_iff in E as [_ Hp%negb_false_iff].
  apply wp_bind, wp_remote; [done|]. intros r' n Hact. unfold eval_script in Hact.
  destruct (restoreScript _ _ _ _ _ _) as [[s' n']|] eqn:Es; [|done]. simplify_eq.
  split; [apply wp_ret|]; (apply redis_inv_insert; [done|by eapply restoreScript_inv]).
Qed.

(** Accounting of the Redis store: whatever fails, every operation keeps, for
    every server, the reserved counters equal to the sum of the recorded leases,
    the recorded amounts well formed, and a lease recorded exactly for the runs
    that have an expiration. *)
Theorem redis_accounting r request lease now :
  redis_inv r →
  wp (TryReserve request) r (λ _, redis_inv) ∧
  wp (Release lease) r (λ _, redis_inv) ∧
  wp (Restore lease now) r (λ _, redis_inv).
Proof. intros Hr. split_and!; [by apply TryReserve_inv|by apply Release_inv|by apply Restore_inv]. Qed.

Definition live (s : LeaseState) (now : Z) (run : string) (packed : string) : Prop :=
  ls_amounts s !! run = Some packed ∧ ∃ t, ls_expirations s !! run = Some t ∧ now < t.

(** What a reservation means. *)
Definition reserve_post (request : LeaseRequest) (r : gmap string LeaseState) (result : Result (option Lease))
    (r' : gmap string LeaseState) : Prop :=
    let s := server_leases r (lr_ServerID request) in
    let s' := server_leases r' (lr_ServerID request) in
    let now := unix_milli (lr_Now request) in
    (∀ server, server ≠ lr_ServerID request → server_leases r' server = server_leases r server) ∧
    match result with
    | Ok (Some lease) =>
      le_RunID lease = lr_RunID request ∧ le_ServerID lease = lr_ServerID request ∧
      le_Resources lease = lr_Required request ∧
      le_ExpiresAt lease = lr_Now request + lr_TTL request ∧
      (∀ packed, ¬ live s now (lr_RunID request) packed) ∧
      total (ls_amounts s') = res_add (total (ls_amounts (expire_all now s))) (lr_Required request) ∧
      res_le (total (ls_amounts s')) (lr_Available request)
    | Ok None => ∀ run packed, ls_amounts s' !! run = Some packed ↔ live s now run packed
    | Err _ => True
    end.

Lemma TryReserve_spec r request : redis_inv r → wp (TryReserve request) r (reserve_post request r).
Proof.
  intros Hr. unfold reserve_post, TryReserve. destruct (validateRequest request) as [u|e] eqn:E;
    [|by apply wp_throw].
  apply validateRequest_ok in E as (_ & _ & _ & Hp).
  set (server := lr_ServerID request). set (now := unix_milli (lr_Now request)).
  apply wp_bind, wp_new_uuid; [done|]. intros id. apply wp_bind, wp_remote; [done|].
  intros r' n Hact. unfold eval_script in Hact.
  destruct (reserveScript _ _ _ _ _ _ _ _) as [s' n'] eqn:Es. simplify_eq.
  destruct (expire_all_spec now (server_leases r server) (Hr server)) as (H0 & _ & Hlive).
  assert (∀ server', server' ≠ server → server_leases (<[server := s']> r) server' = server_leases r server')
    as Hother by (intros; unfold server_leases; by rewrite lookup_insert_ne).
  assert (lease_inv s') as Hinv.
  { pose proof (reserveScript_inv now (lr_RunID request) (lr_Required request) (lr_Available request)
      (unix_milli (lr_Now request + lr_TTL request)) id (milliseconds (lr_TTL request)) _ (Hr server) Hp).
    by rewrite Es in *. }
  split; [|by split].
  destruct (reserveScript_cases now (lr_RunID request) (lr_Required request) (lr_Available request)
    (unix_milli (lr_Now request + lr_TTL request)) id (milliseconds (lr_TTL request))
    (server_leases r server)) as [[Hc _]|(Hc & Hn & Hle)]; rewrite Hc in Es; simplify_eq; simpl.
  - apply wp_ret. split; [done|]. rewrite server_leases_insert. apply Hlive.
  - apply wp_ret. split; [done|]. rewrite server_leases_insert.
    split_and!; try done.
    + intros packed Hl%Hlive. congruence.
    + rewrite <-(li_total _ Hinv), <-(li_total _ H0). done.
    + rewrite <-(li_total _ Hinv). done.
Qed.

(** C35: What a reservation means.  When [TryReserve] grants a lease, the run held
    no live lease on the server, the lease carries the request's data, and the sum
    of all recorded leases of the server, the new one included, fits the
    availability the request states.  When it refuses without an error, exactly
    the expired leases are gone.  Other servers are never touched. *)
Theorem TryReserve_safe r request :
  redis_inv r →
  wp (TryReserve request) r (λ result r',
    let s := server_leases r (lr_ServerID request) in
    let s' := server_leases r' (lr_ServerID request) in
    let now := unix_milli (lr_Now request) in
    (∀ server, server ≠ lr_ServerID request → server_leases r' server = server_leases r server) ∧
    match result with
    | Ok (Some lease) =>
      le_RunID lease = lr_RunID request ∧ le_ServerID lease = lr_ServerID request ∧
      le_Resources lease = lr_Required request ∧
      le_ExpiresAt lease = lr_Now request + lr_TTL request ∧
      (∀ packed, ¬ live s now (lr_RunID request) packed) ∧
      total (ls_amounts s') = res_add (total (ls_amounts (expire_all now s))) (lr_Required request) ∧
      res_le (total (ls_amounts s')) (lr_Available request)
    | Ok None => ∀ run packed, ls_amounts s' !! run = Some packed ↔ live s now run packed
    | Err _ => True
    end).
Proof. apply TryReserve_spec. Qed.


(** Releasing a lease undoes its reservation: after a granted reservation,
    [Release] of the run brings the counters, the amounts and the expirations back
    to what the reservation found once expired leases were cleaned up. *)
Theorem release_undoes_reserve now run required available expiresAt leaseID ttl s s1 :
  lease_inv s → positive required = true →
  reserveScript now run required available expiresAt leaseID ttl s = (s1, 1) →
  let s0 := expire_all now s in
  let s2 := (releaseScript run s1).1 in
  ls_reserved s2 = ls_reserved s0 ∧ ls_amounts s2 = ls_amounts s0 ∧
  ls_expirations s2 = ls_expirations s0.
Proof.
  intros Hs Hp Hres. destruct (expire_all_spec now s Hs) as (H0 & _).
  destruct (reserveScript_cases now run required available expiresAt leaseID ttl s)
    as [[Hc _]|(Hc & Hn & _)]; rewrite Hc in Hres; simplify_eq.
  assert (ls_expirations (expire_all now s) !! run = None) as Hne.
  { apply not_elem_of_dom. rewrite <-(li_dom _ H0). by apply not_elem_of_dom. }
  unfold releaseScript, drop_amount. simpl. rewrite lookup_insert_eq.
  unfold give_back. rewrite positive_unpack by done. simpl.
  rewrite !delete_insert_id by done. split_and!; [res_solve|done|done].
Qed.

(** [Restore] may be repeated by every scan: on a consistent server state it
    succeeds, a second restore of the same lease changes no counter, amount or
    expiration whatever the remaining time to live, and after a loss of the Redis
    state it rebuilds exactly this lease. *)
Theorem restore_idempotent run amounts expiresAt leaseID ttl ttl' s :
  lease_inv s → positive amounts = true →
  ∃ s1 s2,
    restoreScript run amounts expiresAt leaseID ttl s = Some (s1, 1) ∧
    restoreScript run amounts expiresAt leaseID ttl' s1 = Some (s2, 1) ∧
    ls_reserved s2 = ls_reserved s1 ∧ ls_amounts s2 = ls_amounts s1 ∧
    ls_expirations s2 = ls_expirations s1 ∧
    restoreScript run amounts expiresAt leaseID ttl ls_empty =
      Some (mkLeaseState amounts {[run := pack amounts]} {[run := expiresAt]}
              {[run := (leaseID, ttl)]}, 1).
Proof.
  intros Hs Hp. pose proof (restoreScript_some run amounts expiresAt leaseID ttl s Hs) as H1.
  pose proof (restoreScript_inv _ _ _ _ _ _ _ _ Hs Hp H1) as Hs1.
  pose proof (restoreScript_some run amounts expiresAt leaseID ttl' _ Hs1) as H2.
  eexists _, _. split; [exact H1|]. split; [exact H2|]. simpl.
  rewrite lookup_insert_eq, !insert_insert_eq. simpl.
  assert (amount_of (pack amounts) = amounts) as -> by (unfold amount_of; by rewrite positive_unpack).
  split_and!; [res_solve|done|done|].
  rewrite restoreScript_some by apply lease_inv_empty. simpl.
  rewrite lookup_empty. do 3 f_equal. res_solve.
Qed.

(** ** Witnesses *)

Definition example_request : LeaseRequest :=
  mkLeaseRequest "run-1" "srv-1" (mkResources 1000 4096 8192) (mkResources 500 1024 2048)
    (1700000000 * second) (60 * second).

Lemma redis_inv_empty : redis_inv ∅.
Proof. intros server. unfold server_leases. rewrite lookup_empty. apply lease_inv_empty. Qed.

(** A grant on an empty store, then a second grant that no longer fits. *)
Lemma redis_accounting_witness :
  redis_inv ∅ ∧ wp (TryReserve example_request) ∅ (λ _, redis_inv).
Proof.
  split; [exact redis_inv_empty|].
  exact (proj1 (redis_accounting ∅ example_request
    (mkLease "" "run-1" "srv-1" (mkResources 500 1024 2048) 0) 0 redis_inv_empty)).
Defined.

Lemma TryReserve_safe_witness :
  redis_inv ∅ ∧
  ∃ r' o' lease,
    TryReserve example_request (∅, calm ["lease-1"] 0) = ((r', o'), Ok (Some lease)) ∧
    total (ls_amounts (server_leases r' "srv-1")) = mkResources 500 1024 2048 ∧
    res_le (total (ls_amounts (server_leases r' "srv-1"))) (mkResources 1000 4096 8192).
Proof.
  split; [exact redis_inv_empty|].
  destruct (TryReserve example_request (∅, calm ["lease-1"] 0)) as [[r' o'] res] eqn:E.
  pose proof (wp_run _ _ _ _ _ _ _ (TryReserve_safe ∅ example_request redis_inv_empty) E) as H.
  assert (∃ lease, res = Ok (Some lease)) as [lease ->].
  { apply (f_equal snd) in E. simpl in E. rewrite <-E. eexists. vm_compute. reflexivity. }
  exists r', o', lease. split; [done|]. destruct H as (_ & _ & _ & _ & _ & _ & Ht & Hle).
  split; [|exact Hle]. simpl in Ht. rewrite Ht. vm_compute. reflexivity.
Defined.

Lemma release_undoes_reserve_witness :
  ∃ s1, reserveScript 0 "run-1" (mkResources 500 1024 2048) (mkResources 1000 4096 8192) 60000 "lease-1" 60000
          ls_empty = (s1, 1) ∧
        ls_reserved (releaseScript "run-1" s1).1 = ls_reserved (expire_all 0 ls_empty).
Proof.
  eexists. split; [vm_compute; reflexivity|].
  eapply (release_undoes_reserve 0 "run-1" (mkResources 500 1024 2048) (mkResources 1000 4096 8192)
    60000 "lease-1" 60000 ls_empty); [exact lease_inv_empty|reflexivity|vm_compute; reflexivity].
Defined.

Lemma restore_idempotent_witness :
  ∃ s1 s2,
    restoreScript "run-1" (mkResources 500 1024 2048) 60000 "lease-1" 60000 ls_empty = Some (s1, 1) ∧
    restoreScript "run-1" (mkResources 500 1024 2048) 60000 "lease-1" 30000 s1 = Some (s2, 1) ∧
    ls_reserved s2 = ls_reserved s1.
Proof.
  destruct (restore_idempotent "run-1" (mkResources 500 1024 2048) 60000 "lease-1" 60000 30000 ls_empty
    lease_inv_empty eq_refl) as (s1 & s2 & H1 & H2 & H3 & _).
  exists s1, s2. auto.
Defined.
