(* ===== verification/LuaLease.v ===== *)
(** * LuaLease

    The numbers of the lease scripts ([internal/store/redis/lease.go]).  [RedisLease]
    computes with exact integers.  In Redis the amounts that [tonumber] yields are
    doubles, a double is handed to [HINCRBY] as it is printed with seventeen digits, and
    [HINCRBY] adds 64-bit integers and fails beyond them, which ends the script and
    leaves what it has written.  Here the scripts are written with these numbers, command
    by command, and the theorems say that they are the scripts of [RedisLease] as long as
    the reserved totals and the amounts of the request stay within 2^53; beyond, a
    reservation that does not fit can be granted. *)

From S2P Require Import Prelude GoStd Model World SchedulerCore RedisLease.

(** ** Numbers *)

(** The double nearest to an integer, ties to even. *)
Definition double (z : Z) : Z :=
  let m := Z.abs z in
  if m <=? 2 ^ 53 then z
  else
    let e := Z.log2 m - 52 in
    let q := m / 2 ^ e in
    let r := m mod 2 ^ e in
    let up := (2 ^ (e - 1) <? r) || ((r =? 2 ^ (e - 1)) && Z.odd q) in
    Z.sgn z * ((if up then q + 1 else q) * 2 ^ e).

Definition exact (z : Z) : Prop := Z.abs z ≤ 2 ^ 53.

Lemma double_exact z : exact z → double z = z.
Proof. unfold exact, double. intros H. by replace (Z.abs z <=? 2 ^ 53) with true by lia. Qed.

Definition LuaScript (A : Type) : Type := Eff Error LeaseState A.

Inductive Field : Type := Cpu | Memory | Disk.

Definition field (f : Field) (r : Resources) : Z :=
  match f with Cpu => CPUMillicores r | Memory => MemoryBytes r | Disk => DiskBytes r end.

Definition add_field (f : Field) (amount : Z) (r : Resources) : Resources :=
  match f with
  | Cpu => mkResources (CPUMillicores r + amount) (MemoryBytes r) (DiskBytes r)
  | Memory => mkResources (CPUMillicores r) (MemoryBytes r + amount) (DiskBytes r)
  | Disk => mkResources (CPUMillicores r) (MemoryBytes r) (DiskBytes r + amount)
  end.

(** [HINCRBY] by an integer; by a double, which is not printed as an integer from 10^17 on. *)
Definition hincrby (f : Field) (amount : Z) : LuaScript unit := λ s,
  let value := field f (ls_reserved s) + amount in
  if (- 2 ^ 63 <=? amount) && (amount <? 2 ^ 63) && (- 2 ^ 63 <=? value) && (value <? 2 ^ 63)
  then (s <| ls_reserved ::= add_field f amount |>, Ok tt) else (s, Err (EStorage "HINCRBY")).

Definition hincrby_number (f : Field) (amount : Z) : LuaScript unit :=
  if Z.abs amount <? 10 ^ 17 then hincrby f amount else throw (EStorage "HINCRBY").

Definition hincrby_all (by_ : Field → Z) : LuaScript unit :=
  hincrby_number Cpu (by_ Cpu) ;;! hincrby_number Memory (by_ Memory) ;;! hincrby_number Disk (by_ Disk).

(** ** The scripts *)

Definition lua_drop (run : string) : LuaScript unit :=
  let! s := get_state in
  match ls_amounts s !! run with
  | None => ret tt
  | Some packed =>
    match unpack packed with
    | Some r => hincrby_all (λ f, - double (field f r))
    | None => ret tt
    end ;;!
    modify (λ s, s <| ls_amounts ::= delete run |>)
  end.

Definition lua_reserve (now : Z) (run : string) (required available : Resources) (expiresAt : Z) (leaseID : string) (ttl : Z) : LuaScript Z :=
  let! s := get_state in
  for_each (expired_members now s) (λ expired, lua_drop expired ;;! modify (λ s, s <| ls_expirations ::= delete expired |>)) ;;!
  let! s := get_state in
  if bool_decide (is_Some (ls_amounts s !! run)) then ret 0
  else
    let exceeds f := double (double (field f available) - double (field f (ls_reserved s))) <? double (field f required) in
    if exceeds Cpu || exceeds Memory || exceeds Disk then ret 0
    else
      hincrby_all (λ f, double (field f required)) ;;!
      modify (λ s, s <| ls_amounts ::= <[run := pack required]> |> <| ls_expirations ::= <[run := expiresAt]> |>
        <| ls_markers ::= <[run := (leaseID, ttl)]> |>) ;;!
      ret 1.

Definition lua_release (run : string) : LuaScript Z :=
  lua_drop run ;;!
  modify (λ s, s <| ls_expirations ::= delete run |> <| ls_markers ::= delete run |>) ;;!
  ret 1.

(** A new lease is added as the text of the argument. *)
Definition lua_restore (run : string) (amounts : Resources) (expiresAt : Z) (leaseID : string) (ttl : Z) : LuaScript Z :=
  let! s := get_state in
  match ls_amounts s !! run with
  | None => hincrby Cpu (CPUMillicores amounts) ;;! hincrby Memory (MemoryBytes amounts) ;;! hincrby Disk (DiskBytes amounts)
  | Some packed =>
    match unpack packed with
    | None => throw (EStorage "invalid stored lease amounts")
    | Some old => hincrby_all (λ f, double (double (field f amounts) - double (field f old)))
    end
  end ;;!
  modify (λ s, s <| ls_amounts ::= <[run := pack amounts]> |> <| ls_expirations ::= <[run := expiresAt]> |>
    <| ls_markers ::= <[run := (leaseID, ttl)]> |>) ;;!
  ret 1.

(** ** Within 2^53 *)

(** No field of [r] is above 2^53 (or below 0). *)
Definition small (r : Resources) : Prop := ∀ f, 0 ≤ field f r ≤ 2 ^ 53.

Lemma small_le r r' : res_le res_zero r → res_le r r' → small r' → small r.
Proof. intros (? & ? & ?) (? & ? & ?) Hs f. specialize (Hs f). destruct f; simpl in *; lia. Qed.

Lemma hincrby_exact f amount s : exact amount → exact (field f (ls_reserved s) + amount) →
  hincrby f amount s = (s <| ls_reserved ::= add_field f amount |>, Ok tt).
Proof. unfold exact, hincrby. intros H1 H2. by destruct (_ && _ && _ && _) eqn:E; [|lia]. Qed.

Lemma hincrby_number_exact f amount s : exact amount → exact (field f (ls_reserved s) + amount) →
  hincrby_number f amount s = (s <| ls_reserved ::= add_field f amount |>, Ok tt).
Proof. intros H1 H2. unfold hincrby_number. replace (Z.abs amount <? 10 ^ 17) with true by (unfold exact in H1; lia). by apply hincrby_exact. Qed.

Lemma hincrby_all_exact by_ s : (∀ f, exact (by_ f) ∧ exact (field f (ls_reserved s) + by_ f)) →
  hincrby_all by_ s = (s <| ls_reserved ::= λ t, res_add t (mkResources (by_ Cpu) (by_ Memory) (by_ Disk)) |>, Ok tt).
Proof.
  intros H. unfold hincrby_all, bind. rewrite hincrby_number_exact by apply H. rewrite hincrby_number_exact by apply (H Memory).
  rewrite hincrby_number_exact by apply (H Disk). done.
Qed.

Lemma stored_small s run packed : lease_inv s → small (ls_reserved s) → ls_amounts s !! run = Some packed →
  ∃ r, unpack packed = Some r ∧ small r ∧ small (res_sub (ls_reserved s) r) ∧ res_le r (ls_reserved s).
Proof.
  intros Hs Hsm E. destruct (li_amounts _ Hs _ _ E) as (r & Hr & Hle). exists r. split; [done|].
  assert (res_le r (ls_reserved s)) as Hle'.
  { pose proof (total_delete _ _ _ E) as Ht. rewrite (li_total _ Hs). unfold amount_of in Ht. rewrite Hr in Ht. simpl in Ht.
    assert (res_le res_zero (total (delete run (ls_amounts s)))) as H.
    { apply total_nonneg. intros run' p' [_ H']%lookup_delete_Some. by eapply (li_amounts _ Hs). }
    rewrite Ht in H. destruct H as (? & ? & ?). simpl in *. unfold res_le. lia. }
  split_and!; [by eapply small_le| |done]. eapply small_le; [|..|exact Hsm]; destruct Hle as (?&?&?), Hle' as (?&?&?); unfold res_le; simpl in *; lia.
Qed.

Lemma lua_drop_exact run s : lease_inv s → small (ls_reserved s) →
  lua_drop run s = (drop_amount run s, Ok tt) ∧ small (ls_reserved (drop_amount run s)).
Proof.
  intros Hs Hsm. unfold lua_drop, drop_amount, bind, get_state. destruct (ls_amounts s !! run) as [packed|] eqn:E; [|done].
  destruct (stored_small _ _ _ Hs Hsm E) as (r & Hr & Hsr & Hsd & Hle). unfold give_back. rewrite Hr.
  assert (∀ f, double (field f r) = field f r) as Hd. { intros f. apply double_exact. specialize (Hsr f). unfold exact. lia. }
  rewrite hincrby_all_exact.
  - rewrite !Hd. unfold modify. split; [|exact Hsd]. done.
  - intros f. rewrite Hd. specialize (Hsr f). specialize (Hsd f). unfold exact. destruct f; simpl in *; lia.
Qed.

Lemma expire_one_exact run s : lease_inv s → small (ls_reserved s) →
  (lua_drop run ;;! modify (λ s, s <| ls_expirations ::= delete run |>)) s = (expire_one s run, Ok tt) ∧
  lease_inv (expire_one s run) ∧ small (ls_reserved (expire_one s run)).
Proof.
  intros Hs Hsm. destruct (lua_drop_exact run s Hs Hsm) as [E Hsm']. split_and!; [|by apply expire_one_inv|done]. unfold bind. by rewrite E.
Qed.

Lemma expire_exact runs s : lease_inv s → small (ls_reserved s) →
  for_each runs (λ expired, lua_drop expired ;;! modify (λ s, s <| ls_expirations ::= delete expired |>)) s = (foldl expire_one s runs, Ok tt) ∧
  small (ls_reserved (foldl expire_one s runs)).
Proof.
  revert s. induction runs as [|run runs IH]; intros s Hs Hsm; [done|]. destruct (expire_one_exact run s Hs Hsm) as (E & Hs' & Hsm').
  destruct (IH _ Hs' Hsm') as [E' H]. split; [|exact H]. cbn [for_each foldl]. unfold bind at 1. by rewrite E.
Qed.

(** The scripts with the numbers of Lua and Redis are those of [RedisLease], replies and
    state, while the reserved totals and the amounts asked for stay within 2^53. *)
Theorem lua_reserve_exact now run required available expiresAt leaseID ttl s :
  lease_inv s → small (ls_reserved s) → small required → small available →
  lua_reserve now run required available expiresAt leaseID ttl s =
    let '(s', reply) := reserveScript now run required available expiresAt leaseID ttl s in (s', Ok reply).
Proof.
  intros Hs Hsm Hreq Hav. unfold lua_reserve, reserveScript, expire_all, bind at 1, get_state. cbn beta iota.
  destruct (expire_exact (expired_members now s) s Hs Hsm) as [E Hsm']. unfold bind at 1. rewrite E. cbn beta iota zeta.
  set (s0 := foldl expire_one s (expired_members now s)) in *. unfold bind at 1. cbn beta iota. case_bool_decide; [done|].
  assert (∀ f, (double (double (field f available) - double (field f (ls_reserved s0))) <? double (field f required)) =
    (field f available - field f (ls_reserved s0) <? field f required)) as Hx.
  { intros f. specialize (Hsm' f). specialize (Hreq f). specialize (Hav f). rewrite !(double_exact (field _ _)) by (unfold exact; lia).
    by rewrite double_exact by (unfold exact; lia). }
  rewrite !Hx. simpl field. destruct (_ || _ || _) eqn:Eo; [done|]. apply orb_false_iff in Eo as [[? ?]%orb_false_iff ?].
  assert (∀ f, double (field f required) = field f required) as Hd. { intros f. apply double_exact. specialize (Hreq f). unfold exact. lia. }
  unfold bind at 1. rewrite hincrby_all_exact.
  - rewrite !Hd. done.
  - intros f. rewrite Hd. specialize (Hsm' f). specialize (Hreq f). specialize (Hav f). unfold exact. destruct f; simpl in *; lia.
Qed.

Theorem lua_release_exact run s : lease_inv s → small (ls_reserved s) →
  lua_release run s = let '(s', reply) := releaseScript run s in (s', Ok reply).
Proof.
  intros Hs Hsm. destruct (lua_drop_exact run s Hs Hsm) as [E _]. unfold lua_release, bind. by rewrite E.
Qed.

Theorem lua_restore_exact run amounts expiresAt leaseID ttl s :
  lease_inv s → small (ls_reserved s) → small amounts → small (res_add (ls_reserved s) amounts) →
  Some (lua_restore run amounts expiresAt leaseID ttl s) =
    (λ p, (p.1, Ok p.2)) <$> restoreScript run amounts expiresAt leaseID ttl s.
Proof.
  intros Hs Hsm Ha Hsum. unfold lua_restore, restoreScript, bind at 1, get_state. cbn beta iota.
  destruct (ls_amounts s !! run) as [packed|] eqn:E.
  - destruct (stored_small _ _ _ Hs Hsm E) as (old & Ho & Hso & Hsd & Hle). rewrite Ho.
    assert (∀ f, double (double (field f amounts) - double (field f old)) = field f amounts - field f old) as Hd.
    { intros f. specialize (Hso f). specialize (Ha f). rewrite !(double_exact (field _ _)) by (unfold exact; lia).
      by rewrite double_exact by (unfold exact; lia). }
    unfold bind at 1. rewrite hincrby_all_exact; [by rewrite !Hd|].
    intros f. rewrite Hd. specialize (Hso f). specialize (Ha f). specialize (Hsd f). specialize (Hsum f). unfold exact. destruct f; simpl in *; lia.
  - assert (∀ f, 0 ≤ field f (ls_reserved s) ∧ 0 ≤ field f amounts ∧ field f (ls_reserved s) + field f amounts ≤ 2 ^ 53) as H.
    { intros f. specialize (Hsm f). specialize (Ha f). specialize (Hsum f). destruct f; simpl in *; lia. }
    assert (∀ f, exact (field f amounts) ∧ exact (field f (ls_reserved s) + field f amounts)) as Hx by (intros f; specialize (H f); unfold exact; lia).
    unfold bind. rewrite (hincrby_exact Cpu) by apply (Hx Cpu). rewrite (hincrby_exact Memory) by apply (Hx Memory).
    rewrite (hincrby_exact Disk) by apply (Hx Disk). done.
Qed.

(** Beyond, a lease is granted that does not fit: the sum exceeds what is available by one. *)
Example beyond_doubles :
  let s := mkLeaseState (mkResources (2 ^ 53) 1 1) {["run-1" := pack (mkResources (2 ^ 53) 1 1)]} {["run-1" := 10]} ∅ in
  (lua_reserve 5 "run-2" (mkResources 4 1 1) (mkResources (2 ^ 53 + 3) (2 ^ 54) (2 ^ 54)) 20 "lease" 15 s).2 = Ok 1 ∧
  (reserveScript 5 "run-2" (mkResources 4 1 1) (mkResources (2 ^ 53 + 3) (2 ^ 54) (2 ^ 54)) 20 "lease" 15 s).2 = 0.
Proof. split_and!; vm_compute; reflexivity. Qed.
