(* ===== verification/Schema.v ===== *)
(** * Schema

    The PostgreSQL tables the scheduling core works on ([migrations/]), as one
    value [DB], and the row-level statements the SQL of the packages is made of,
    with the constraints the migrations declare: a statement that violates a
    primary key, a foreign key, a unique index or a check yields [None].

    Conventions.  A nullable column is an [option].  The JSON columns hold the
    data the code puts there.  The columns of [task_runs] that no [UPDATE] of the
    source writes form [RunSpec]; the others are fields of [RunRow].  [run_events]
    is kept by run, in insertion order.  A query without [ORDER BY] returns rows in
    the enumeration order of the map; no theorem depends on it.  Identifiers are
    UUIDs in text form. *)

From S2P Require Import Prelude GoStd GoFloat Model.

(** ** Rows *)

(** script/model.go *)
Definition DistributionAllCompatible : string := "all_compatible".
Definition DistributionServerGroup : string := "server_group".
Definition DistributionLabels : string := "labels".
Definition DistributionOnDemand : string := "on_demand".

Record DistributionRule : Type := mkDistributionRule {
  dn_Mode : string; dn_ServerGroupID : string; dn_Labels : gmap string string
}.

Record ParameterDefinition : Type := mkParameterDefinition {
  pd_Name : string; pd_Type : string; pd_Required : bool; pd_Description : string
}.

Record Manifest : Type := mkManifest {
  mf_Artifacts : option ArtifactPolicy; mf_Runtime : string; mf_Entrypoint : string; mf_Category : string;
  mf_Tags : list string; mf_Distribution : DistributionRule; mf_ParameterDefinitions : list ParameterDefinition;
  mf_Resources : Resources
}.

#[export] Instance eta_Manifest : Eta Manifest := λ m,
  mkManifest (mf_Artifacts m) (mf_Runtime m) (mf_Entrypoint m) (mf_Category m) (mf_Tags m) (mf_Distribution m)
    (mf_ParameterDefinitions m) (mf_Resources m).

Definition no_manifest : Manifest :=
  mkManifest None "" "" "" [] (mkDistributionRule DistributionOnDemand "" ∅) [] (mkResources 0 0 0).

Record ScriptRow : Type := mkScriptRow {
  sc_name : string; sc_description : string; sc_runtime : string; sc_created_by : option string;
  sc_created_at : Time; sc_updated_at : Time
}.

#[export] Instance eta_ScriptRow : Eta ScriptRow := λ s,
  mkScriptRow (sc_name s) (sc_description s) (sc_runtime s) (sc_created_by s) (sc_created_at s) (sc_updated_at s).

Record VersionRow : Type := mkVersionRow {
  sv_script_id : string; sv_version : Z; sv_artifact_uri : string; sv_artifact_sha256 : string;
  sv_entrypoint : string; sv_manifest : Manifest; sv_release_notes : string; sv_created_by : option string;
  sv_created_at : Time
}.

(** A row of [script_drafts], one per script. *)
Record DraftRow : Type := mkDraftRow {
  sd_base_version_id : option string; sd_content : string; sd_manifest : Manifest; sd_updated_by : option string;
  sd_created_at : Time; sd_updated_at : Time
}.

#[export] Instance eta_DraftRow : Eta DraftRow := λ r,
  mkDraftRow (sd_base_version_id r) (sd_content r) (sd_manifest r) (sd_updated_by r) (sd_created_at r) (sd_updated_at r).

(** A row of [script_syncs]; the pair of server and version, unique by a constraint,
    stands for its generated identifier. *)
Record SyncRow : Type := mkSyncRow {
  sy_status : string; sy_artifact_sha256 : option string; sy_error_code : string; sy_error_message : string;
  sy_synced_at : option Time; sy_failure_count : Z; sy_next_retry_at : option Time;
  sy_created_at : Time; sy_updated_at : Time
}.

#[export] Instance eta_SyncRow : Eta SyncRow := λ y,
  mkSyncRow (sy_status y) (sy_artifact_sha256 y) (sy_error_code y) (sy_error_message y) (sy_synced_at y)
    (sy_failure_count y) (sy_next_retry_at y) (sy_created_at y) (sy_updated_at y).

Definition new_sync (at_ : Time) : SyncRow := mkSyncRow SyncPending None "" "" None 0 None at_ at_.

Record DefinitionRow : Type := mkDefinitionRow {
  df_name : string; df_description : string; df_script_id : string;
  df_version_policy : string; df_pinned_version_id : option string; df_enabled : bool;
  df_parameters : gmap string Value; df_secret_bindings : gmap string string;
  df_required_labels : gmap string string; df_required_runtime : string;
  df_resources : Resources; df_timeout_seconds : Z; df_max_retries : Z; df_priority : Z;
  df_max_concurrency : Z; df_max_wait_seconds : Z; df_retry_backoff_seconds : Z;
  df_idempotent : bool; df_created_by : option string; df_created_at : Time; df_updated_at : Time
}.

#[export] Instance eta_DefinitionRow : Eta DefinitionRow := λ r,
  mkDefinitionRow (df_name r) (df_description r) (df_script_id r) (df_version_policy r)
    (df_pinned_version_id r) (df_enabled r) (df_parameters r) (df_secret_bindings r)
    (df_required_labels r) (df_required_runtime r) (df_resources r) (df_timeout_seconds r)
    (df_max_retries r) (df_priority r) (df_max_concurrency r) (df_max_wait_seconds r)
    (df_retry_backoff_seconds r) (df_idempotent r) (df_created_by r) (df_created_at r)
    (df_updated_at r).

Record ScheduleRow : Type := mkScheduleRow {
  ts_task_definition_id : string; ts_cron_expression : string; ts_timezone : string;
  ts_enabled : bool; ts_next_run_at : option Time; ts_created_at : Time; ts_updated_at : Time
}.

#[export] Instance eta_ScheduleRow : Eta ScheduleRow := λ r,
  mkScheduleRow (ts_task_definition_id r) (ts_cron_expression r) (ts_timezone r) (ts_enabled r)
    (ts_next_run_at r) (ts_created_at r) (ts_updated_at r).

(** The columns of [task_runs] fixed by the [INSERT]. *)
Record RunSpec : Type := mkRunSpec {
  rs_task_definition_id : string; rs_script_version_id : string;
  rs_requested_by : option string; rs_trigger_type : string;
  rs_parameters_snapshot : gmap string Value; rs_scheduled_for : option Time;
  rs_queued_at : Time; rs_attempt : Z; rs_retry_of : option string; rs_priority : Z;
  rs_resources : Resources; rs_max_concurrency : Z; rs_timeout_seconds : Z;
  rs_max_wait_seconds : Z; rs_max_retries : Z; rs_retry_backoff_seconds : Z;
  rs_idempotent : bool; rs_required_labels : gmap string string;
  rs_required_runtime : string; rs_created_at : Time
}.

Record RunRow : Type := mkRunRow {
  tr_spec : RunSpec;
  tr_state : RunState;
  tr_assigned_server_id : option string;
  tr_assigned_at : option Time;
  tr_started_at : option Time;
  tr_finished_at : option Time;
  tr_exit_code : option Z;
  tr_result_summary : string;
  tr_execution_token : option string;
  tr_process_confirmed_gone : bool;
  tr_dispatch_attempts : Z;
  tr_last_dispatch_at : option Time;
  tr_dispatch_error : string;
  tr_updated_at : Time
}.

#[export] Instance eta_RunRow : Eta RunRow := λ r,
  mkRunRow (tr_spec r) (tr_state r) (tr_assigned_server_id r) (tr_assigned_at r)
    (tr_started_at r) (tr_finished_at r) (tr_exit_code r) (tr_result_summary r)
    (tr_execution_token r) (tr_process_confirmed_gone r) (tr_dispatch_attempts r)
    (tr_last_dispatch_at r) (tr_dispatch_error r) (tr_updated_at r).

(** A freshly inserted run: the column defaults. *)
Definition new_run (spec : RunSpec) (updated_at : Time) : RunRow :=
  mkRunRow spec Queued None None None None None "" None false 0 None "" updated_at.

(** The JSON object of [run_events.payload]: its keys, when present and not null. *)
Record Payload : Type := mkPayload {
  pl_message : option string;
  pl_exitCode : option Z;
  pl_usage : option ResourceUsage;
  pl_automaticRetry : option bool;
  pl_secretRefs : option (gmap string string);
  pl_retryOf : option string;
  pl_serverId : option string;
  pl_leaseId : option string
}.

#[export] Instance eta_Payload : Eta Payload := λ p,
  mkPayload (pl_message p) (pl_exitCode p) (pl_usage p) (pl_automaticRetry p) (pl_secretRefs p)
    (pl_retryOf p) (pl_serverId p) (pl_leaseId p).

Definition no_payload : Payload := mkPayload None None None None None None None None.
Definition message (text : string) : Payload := no_payload <| pl_message := Some text |>.

Record EventRow : Type := mkEventRow {
  er_sequence : Z;
  er_event_type : string;
  er_state : RunState;
  er_payload : Payload;
  er_occurred_at : Time;
  (* execution_token and agent_sequence: both set by the agent's events *)
  er_agent : option (string * Z)
}.

Record LeaseRow : Type := mkLeaseRow {
  rl_task_run_id : string; rl_server_id : string; rl_resources : Resources;
  rl_expires_at : Time; rl_released_at : option Time; rl_created_at : Time
}.

#[export] Instance eta_LeaseRow : Eta LeaseRow := λ l,
  mkLeaseRow (rl_task_run_id l) (rl_server_id l) (rl_resources l) (rl_expires_at l)
    (rl_released_at l) (rl_created_at l).

(** The columns [created_at] and [updated_at] of the servers are read by nothing. *)
Record ServerRow : Type := mkServerRow {
  se_name : string; se_status : string; se_enabled : bool; se_drain_requested : bool;
  se_labels : gmap string string; se_runtimes : list string;
  se_agent_capabilities : list string; se_max_concurrency : Z; se_scheduling_weight : Z;
  se_agent_version : string; se_agent_os : string; se_agent_arch : string; se_last_seen_at : option Time;
  se_last_heartbeat_sequence : Z; se_server_group_id : string; se_cloud_provider : string; se_region : string
}.

#[export] Instance eta_ServerRow : Eta ServerRow := λ s,
  mkServerRow (se_name s) (se_status s) (se_enabled s) (se_drain_requested s) (se_labels s) (se_runtimes s)
    (se_agent_capabilities s) (se_max_concurrency s) (se_scheduling_weight s) (se_agent_version s)
    (se_agent_os s) (se_agent_arch s) (se_last_seen_at s) (se_last_heartbeat_sequence s) (se_server_group_id s)
    (se_cloud_provider s) (se_region s).

(** A freshly enrolled server: the column defaults. *)
Definition new_server (name cloud_provider region : string) (labels : gmap string string) : ServerRow :=
  mkServerRow name StatusPending true false labels [] [] 1 100 "" "" "" None 0 "" cloud_provider region.

(** The tables of the agents' identities and of the server groups. *)
Record TokenRow : Type := mkTokenRow {
  et_token_hash : string; et_server_name : string; et_cloud_provider : string; et_region : string;
  et_labels : gmap string string; et_expires_at : Time; et_used_at : option Time; et_created_at : Time
}.

#[export] Instance eta_TokenRow : Eta TokenRow := λ t,
  mkTokenRow (et_token_hash t) (et_server_name t) (et_cloud_provider t) (et_region t) (et_labels t) (et_expires_at t)
    (et_used_at t) (et_created_at t).

Record IdentityRow : Type := mkIdentityRow {
  ai_server_id : string; ai_credential_hash : string; ai_pending_activation : bool; ai_rotated_from_id : option string;
  ai_last_authenticated_at : option Time; ai_revoked_at : option Time; ai_created_at : Time
}.

#[export] Instance eta_IdentityRow : Eta IdentityRow := λ i,
  mkIdentityRow (ai_server_id i) (ai_credential_hash i) (ai_pending_activation i) (ai_rotated_from_id i)
    (ai_last_authenticated_at i) (ai_revoked_at i) (ai_created_at i).

Record GroupRow : Type := mkGroupRow { sg_name : string; sg_created_at : Time }.

#[export] Instance eta_GroupRow : Eta GroupRow := λ g, mkGroupRow (sg_name g) (sg_created_at g).

Record FleetTables : Type := mkFleetTables {
  server_enrollment_tokens : gmap string TokenRow;
  agent_identities : gmap string IdentityRow;
  server_groups : gmap string GroupRow
}.

#[export] Instance eta_FleetTables : Eta FleetTables := λ f,
  mkFleetTables (server_enrollment_tokens f) (agent_identities f) (server_groups f).

Definition no_fleet : FleetTables := mkFleetTables ∅ ∅ ∅.

Record ServerSnapshotRow : Type := mkServerSnapshotRow {
  ss_id : string; ss_server_id : string; ss_cpu_total_milli : Z; ss_cpu_used_milli : Z;
  ss_memory_total_bytes : Z; ss_memory_available_bytes : Z; ss_disk_total_bytes : Z;
  ss_disk_available_bytes : Z; ss_running_tasks : Z; ss_collected_at : Time; ss_cpu_usage_percent : float64
}.

Record LogRow : Type := mkLogRow {
  lc_task_run_id : string; lc_execution_token : string; lc_stream : string; lc_sequence : Z; lc_content : string; lc_byte_size : Z;
  lc_created_at : Time; lc_archive_cursor : Z; lc_received_at : Time
}.

Record ArchiveRow : Type := mkArchiveRow {
  av_object_key : string; av_byte_size : Z; av_sha256 : string; av_first_log_at : Time; av_last_log_at : Time; av_archived_at : Time;
  av_last_log_cursor : Z; av_chunk_count : Z
}.

(** [log_chunks] in insertion order with the last value of its cursor, and [run_log_archives]. *)
Record LogTables : Type := mkLogTables {
  log_rows : list LogRow;
  log_cursor : Z;
  run_log_archives : gmap string ArchiveRow
}.

#[export] Instance eta_LogTables : Eta LogTables := λ l, mkLogTables (log_rows l) (log_cursor l) (run_log_archives l).

Definition no_logs : LogTables := mkLogTables [] 0 ∅.

(** The rows of the upgrade tables.  A release carries its artifacts. *)
Record ArtifactRow : Type := mkArtifactRow {
  ar_os : string; ar_arch : string; ar_file_name : string; ar_byte_size : Z; ar_sha256 : string
}.

Record ReleaseRow : Type := mkReleaseRow {
  re_version : string; re_status : string; re_capabilities : list string; re_artifacts : list ArtifactRow
}.

Record PlanRow : Type := mkPlanRow {
  pr_target_release_id : string; pr_status : PlanStatus; pr_first_batch_size : Z; pr_batch_size : Z;
  pr_drain_timeout_seconds : Z; pr_reconnect_timeout_seconds : Z; pr_verification_seconds : Z;
  pr_current_batch : Z; pr_revision : Z; pr_cancel_requested : bool; pr_created_by : string;
  pr_pause_reason : string; pr_created_at : Time; pr_started_at : option Time; pr_finished_at : option Time
}.

#[export] Instance eta_PlanRow : Eta PlanRow := λ p,
  mkPlanRow (pr_target_release_id p) (pr_status p) (pr_first_batch_size p) (pr_batch_size p)
    (pr_drain_timeout_seconds p) (pr_reconnect_timeout_seconds p) (pr_verification_seconds p)
    (pr_current_batch p) (pr_revision p) (pr_cancel_requested p) (pr_created_by p) (pr_pause_reason p)
    (pr_created_at p) (pr_started_at p) (pr_finished_at p).

Record TargetRow : Type := mkTargetRow {
  ut_plan_id : string; ut_server_id : string; ut_batch_number : Z; ut_source_version : string;
  ut_target_version : string; ut_source_draining : bool; ut_status : TargetStatus; ut_attempts : Z;
  ut_command_id : string; ut_install_command_id : string; ut_error_code : string; ut_error_message : string;
  ut_started_at : option Time; ut_updated_at : Time; ut_finished_at : option Time
}.

Record UpgradeTables : Type := mkUpgradeTables {
  agent_releases : gmap string ReleaseRow;
  agent_upgrade_plans : gmap string PlanRow;
  agent_upgrade_targets : gmap string TargetRow;
  agent_upgrade_events : list PlanEvent
}.

#[export] Instance eta_UpgradeTables : Eta UpgradeTables := λ u,
  mkUpgradeTables (agent_releases u) (agent_upgrade_plans u) (agent_upgrade_targets u) (agent_upgrade_events u).

Definition no_upgrades : UpgradeTables := mkUpgradeTables ∅ ∅ ∅ [].

(** ** Accounts *)

(** A row of [users]. *)
Record UserRow : Type := mkUserRow {
  ur_email : string; ur_display_name : string; ur_password_hash : string; ur_enabled : bool;
  ur_must_change_password : bool; ur_removed_at : option Time; ur_created_at : Time; ur_updated_at : Time
}.

#[export] Instance eta_UserRow : Eta UserRow := λ u,
  mkUserRow (ur_email u) (ur_display_name u) (ur_password_hash u) (ur_enabled u) (ur_must_change_password u) (ur_removed_at u)
    (ur_created_at u) (ur_updated_at u).

(** A row of [sessions]. *)
Record SessionRow : Type := mkSessionRow {
  ses_user_id : string; ses_token_hash : string; ses_expires_at : Time; ses_revoked_at : option Time; ses_created_at : Time
}.

#[export] Instance eta_SessionRow : Eta SessionRow := λ s,
  mkSessionRow (ses_user_id s) (ses_token_hash s) (ses_expires_at s) (ses_revoked_at s) (ses_created_at s).

(** A role stands for its generated identifier, as its name is unique; the column of
    permissions is never read.  A rate limit is the start of its window and the attempts. *)
Record AccountTables : Type := mkAccountTables {
  user_rows : gmap string UserRow;
  roles : gset string;
  user_roles : gset (string * string);
  sessions : gmap string SessionRow;
  auth_rate_limits : gmap (string * string) (Time * Z)
}.

#[export] Instance eta_AccountTables : Eta AccountTables := λ a,
  mkAccountTables (user_rows a) (roles a) (user_roles a) (sessions a) (auth_rate_limits a).

Definition no_accounts : AccountTables := mkAccountTables ∅ ∅ ∅ ∅ ∅.

(** ** The database *)

Record DB : Type := mkDB {
  accounts : AccountTables;
  scripts : gmap string ScriptRow;
  script_versions : gmap string VersionRow;
  servers : gmap string ServerRow;
  server_snapshots : list ServerSnapshotRow;
  script_syncs : gmap (string * string) SyncRow;
  task_definitions : gmap string DefinitionRow;
  task_schedules : gmap string ScheduleRow;
  task_runs : gmap string RunRow;
  run_events : gmap string (list EventRow);
  resource_leases : gmap string LeaseRow;
  logs : LogTables;
  upgrades : UpgradeTables;
  fleet : FleetTables;
  script_drafts : gmap string DraftRow
}.

#[export] Instance eta_DB : Eta DB := λ d,
  mkDB (accounts d) (scripts d) (script_versions d) (servers d) (server_snapshots d)
    (script_syncs d) (task_definitions d) (task_schedules d) (task_runs d) (run_events d)
    (resource_leases d) (logs d) (upgrades d) (fleet d) (script_drafts d).

(** A database just migrated. *)
Definition empty_tables : DB := mkDB no_accounts ∅ ∅ ∅ [] ∅ ∅ ∅ ∅ ∅ ∅ no_logs no_upgrades no_fleet ∅.

(** The identifiers other tables refer to. *)
Definition users (d : DB) : gset string := dom (user_rows (accounts d)).

Definition log_chunks (d : DB) : list LogRow := log_rows (logs d).

(** The rows of [run_events] of a run, oldest first. *)
Definition events_of (d : DB) (run : string) : list EventRow := default [] (run_events d !! run).

(** The server holds the script with the digest of the published version. *)
Definition script_matches (d : DB) (serverID versionID : string) : Prop :=
  ∃ sync version, script_syncs d !! (serverID, versionID) = Some sync ∧ script_versions d !! versionID = Some version ∧
    sy_status sync = SyncReady ∧ sy_artifact_sha256 sync = Some (sv_artifact_sha256 version).

(** ** Statements on runs, events and leases *)

(** [UPDATE task_runs SET ... WHERE id=$1]: no effect when there is no such row. *)
Definition update_run (id : string) (set : RunRow → RunRow) (d : DB) : DB :=
  d <| task_runs ::= alter set id |>.

(** [UPDATE task_runs SET ... WHERE condition RETURNING id]. *)
Definition matching_runs (where_ : RunRow → bool) (d : DB) : list string :=
  (filter (λ p, where_ p.2 = true) (map_to_list (task_runs d))).*1.

Definition update_runs_where (where_ : RunRow → bool) (set : RunRow → RunRow) (d : DB) : DB * list string :=
  (d <| task_runs ::= fmap (λ row, if where_ row then set row else row) |>, matching_runs where_ d).

(** [COALESCE(MAX(sequence),-1)+1]. *)
Definition next_sequence (events : list EventRow) : Z :=
  foldr (λ e acc, Z.max (er_sequence e) acc) (-1) events + 1.

(** [COALESCE(MAX(agent_sequence),0)+1] for one execution token. *)
Definition next_agent_sequence (token : string) (events : list EventRow) : Z :=
  foldr (λ e acc, match er_agent e with
                  | Some (t, n) => if bool_decide (t = token) then Z.max n acc else acc
                  | None => acc
                  end) 0 events + 1.

Definition agent_event (token : string) (sequence : Z) (e : EventRow) : bool :=
  bool_decide (er_agent e = Some (token, sequence)).

Definition insert_event (run : string) (e : EventRow) (d : DB) : option DB :=
  match task_runs d !! run with
  | None => None
  | Some _ =>
    if existsb (λ e', er_sequence e' =? er_sequence e) (events_of d run) then None
    else if match er_agent e with
            | Some (token, sequence) => existsb (agent_event token sequence) (events_of d run)
            | None => false
            end then None
    else Some (d <| run_events ::= <[run := events_of d run ++ [e]]> |>)
  end.

Definition append_event (run type : string) (state : RunState) (payload : Payload) (at_ : Time)
  (agent : option (string * Z)) (d : DB) : option DB :=
  insert_event run (mkEventRow (next_sequence (events_of d run)) type state payload at_ agent) d.

(** [UPDATE resource_leases SET released_at=$2 WHERE task_run_id=$1 AND released_at IS NULL]. *)
Definition open_lease (run : string) (l : LeaseRow) : bool :=
  bool_decide (rl_task_run_id l = run) && bool_decide (rl_released_at l = None).

Definition release_leases (run : string) (at_ : Time) (d : DB) : DB :=
  d <| resource_leases ::=
         fmap (λ l, if open_lease run l then l <| rl_released_at := Some at_ |> else l) |>.

Definition insert_lease (id : string) (l : LeaseRow) (d : DB) : option DB :=
  match resource_leases d !! id, task_runs d !! rl_task_run_id l, servers d !! rl_server_id l with
  | None, Some _, Some _ =>
    if existsb (open_lease (rl_task_run_id l)) (map_to_list (resource_leases d)).*2 then None
    else if (0 <? CPUMillicores (rl_resources l)) && (0 <? MemoryBytes (rl_resources l)) &&
            (0 <? DiskBytes (rl_resources l))
    then Some (d <| resource_leases ::= <[id := l]> |>) else None
  | _, _, _ => None
  end.

(** [INSERT INTO task_runs]: primary key, foreign keys, checks and the index on
    the scheduled time. *)
Definition same_firing (definition : string) (time : option Time) (row : RunRow) : bool :=
  bool_decide (rs_task_definition_id (tr_spec row) = definition) &&
  bool_decide (is_Some time) && bool_decide (rs_scheduled_for (tr_spec row) = time).

Definition firing_exists (definition : string) (time : option Time) (d : DB) : bool :=
  existsb (same_firing definition time) (map_to_list (task_runs d)).*2.

Definition reference {V} (table : gmap string V) (key : option string) : bool :=
  match key with None => true | Some k => bool_decide (is_Some (table !! k)) end.

(** The ranges of the column types [integer] and [bigint]. *)
Definition int4 (z : Z) : bool := (- 2 ^ 31 <=? z) && (z <? 2 ^ 31).
Definition int8 (z : Z) : bool := (- 2 ^ 63 <=? z) && (z <? 2 ^ 63).
#[global] Arguments int4 : simpl never.
#[global] Arguments int8 : simpl never.

(** The column types of [task_runs]. *)
Definition spec_columns (s : RunSpec) : bool :=
  int4 (rs_priority s) && int4 (CPUMillicores (rs_resources s)) && int8 (MemoryBytes (rs_resources s)) && int8 (DiskBytes (rs_resources s)) &&
  int4 (rs_max_concurrency s) && int4 (rs_timeout_seconds s) && int4 (rs_max_wait_seconds s) && int4 (rs_max_retries s) &&
  int4 (rs_retry_backoff_seconds s) && int4 (rs_attempt s).
#[global] Arguments spec_columns : simpl never.

Definition spec_checks (s : RunSpec) : bool :=
  spec_columns s &&
  (bool_decide (rs_trigger_type s = TriggerManual) || bool_decide (rs_trigger_type s = TriggerSchedule) ||
   bool_decide (rs_trigger_type s = TriggerRetry)) &&
  (0 <=? rs_priority s) && (rs_priority s <=? 100) &&
  (0 <? CPUMillicores (rs_resources s)) && (0 <? MemoryBytes (rs_resources s)) &&
  (0 <? DiskBytes (rs_resources s)) && (0 <? rs_max_concurrency s) && (0 <? rs_timeout_seconds s) &&
  (0 <=? rs_max_wait_seconds s) && (0 <=? rs_max_retries s) && (0 <=? rs_retry_backoff_seconds s) &&
  (0 <? rs_attempt s).

Lemma int4_spec z : int4 z = true ↔ - 2 ^ 31 ≤ z < 2 ^ 31.
Proof. unfold int4. rewrite andb_true_iff, Z.leb_le, Z.ltb_lt. done. Qed.

Lemma int8_spec z : int8 z = true ↔ - 2 ^ 63 ≤ z < 2 ^ 63.
Proof. unfold int8. rewrite andb_true_iff, Z.leb_le, Z.ltb_lt. done. Qed.

Lemma spec_checks_retries s : spec_checks s = true → 0 < rs_attempt s ∧ 0 ≤ rs_max_retries s.
Proof. unfold spec_checks. rewrite !andb_true_iff, !Z.ltb_lt, !Z.leb_le. tauto. Qed.

Definition insert_run (id : string) (row : RunRow) (d : DB) : option DB :=
  let s := tr_spec row in
  if bool_decide (is_Some (task_runs d !! id)) then None
  else if negb (reference (task_definitions d) (Some (rs_task_definition_id s))) then None
  else if negb (reference (script_versions d) (Some (rs_script_version_id s))) then None
  else if negb (reference (task_runs d) (rs_retry_of s)) then None
  else if negb (match rs_requested_by s with None => true | Some u => bool_decide (u ∈ users d) end)
  then None
  else if firing_exists (rs_task_definition_id s) (rs_scheduled_for s) d then None
  else if negb (spec_checks s) then None
  else Some (d <| task_runs ::= <[id := row]> |>).

(** The unique index on [execution_token]. *)
Definition token_used (token : string) (except : string) (d : DB) : bool :=
  existsb (λ p, bool_decide (p.1 ≠ except) && bool_decide (tr_execution_token p.2 = Some token))
    (map_to_list (task_runs d)).

(** ** What the statements do *)

Lemma events_of_insert d run events i :
  events_of (d <| run_events ::= <[run := events]> |>) i = if decide (i = run) then events else events_of d i.
Proof.
  unfold events_of. simpl. destruct (decide (i = run)) as [->|].
  - by rewrite lookup_insert_eq.
  - by rewrite lookup_insert_ne.
Qed.

Lemma existsb_false_iff {A} (f : A → bool) l : existsb f l = false ↔ ∀ x, x ∈ l → f x = false.
Proof.
  induction l as [|a l IH]; simpl; [set_solver|].
  rewrite orb_false_iff, IH. set_unfold. naive_solver.
Qed.

Lemma insert_event_inv run e d d' :
  insert_event run e d = Some d' →
  is_Some (task_runs d !! run) ∧ d' = d <| run_events ::= <[run := events_of d run ++ [e]]> |>.
Proof.
  unfold insert_event. destruct (task_runs d !! run); [|done].
  repeat case_match; intros; by simplify_eq.
Qed.

Lemma append_event_inv run type state payload at_ agent d d' :
  append_event run type state payload at_ agent d = Some d' →
  is_Some (task_runs d !! run) ∧
  d' = d <| run_events ::= <[run := events_of d run ++
        [mkEventRow (next_sequence (events_of d run)) type state payload at_ agent]]> |>.
Proof. apply insert_event_inv. Qed.

Lemma next_sequence_above events e : e ∈ events → er_sequence e < next_sequence events.
Proof.
  unfold next_sequence. induction events as [|x events IH]; [set_solver|].
  rewrite foldr_cons. intros [->|H]%elem_of_cons; [lia|]. specialize (IH H). lia.
Qed.

Lemma next_agent_above events e token n :
  e ∈ events → er_agent e = Some (token, n) → n < next_agent_sequence token events.
Proof.
  unfold next_agent_sequence. induction events as [|x events IH]; [set_solver|].
  rewrite foldr_cons. intros [->|H]%elem_of_cons E.
  - rewrite E, bool_decide_true by done. lia.
  - specialize (IH H E). destruct (er_agent x) as [[t m]|]; [|done]. case_bool_decide; lia.
Qed.

(** An event that is not a repeated agent event is always accepted for an existing run. *)
Lemma append_event_some run type state payload at_ agent d :
  is_Some (task_runs d !! run) →
  (∀ token n, agent = Some (token, n) → n = next_agent_sequence token (events_of d run)) →
  is_Some (append_event run type state payload at_ agent d).
Proof.
  intros [row Hrow] Ha. unfold append_event, insert_event. rewrite Hrow. simpl.
  rewrite (proj2 (existsb_false_iff _ _)).
  2:{ intros e He. apply next_sequence_above in He. apply Z.eqb_neq. lia. }
  destruct agent as [[token n]|]; [|eauto]. rewrite (proj2 (existsb_false_iff _ _)); [eauto|].
  intros e He. unfold agent_event. apply bool_decide_eq_false. intros E.
  pose proof (next_agent_above _ _ _ _ He E). specialize (Ha _ _ eq_refl). lia.
Qed.

Lemma update_run_lookup id set d i :
  task_runs (update_run id set d) !! i = if decide (i = id) then set <$> task_runs d !! i else task_runs d !! i.
Proof.
  unfold update_run. simpl. destruct (decide (i = id)) as [->|].
  - apply lookup_alter_eq.
  - by apply lookup_alter_ne.
Qed.

Lemma update_run_insert id set d row :
  task_runs d !! id = Some row → task_runs (update_run id set d) = <[id := set row]> (task_runs d).
Proof.
  intros H. apply map_eq. intros i. rewrite update_run_lookup, lookup_insert.
  destruct (decide (i = id)) as [->|]; [by rewrite decide_True, H|by rewrite decide_False].
Qed.

Lemma matching_runs_nodup where_ d : NoDup (matching_runs where_ d).
Proof.
  unfold matching_runs. pose proof (NoDup_fst_map_to_list (task_runs d)) as Hnd.
  revert Hnd. generalize (map_to_list (task_runs d)). intros l Hnd.
  eapply sublist_NoDup; [exact Hnd|]. apply fmap_sublist, sublist_filter.
Qed.

Lemma elem_of_matching_runs where_ d id :
  id ∈ matching_runs where_ d ↔ ∃ row, task_runs d !! id = Some row ∧ where_ row = true.
Proof.
  unfold matching_runs. rewrite list_elem_of_fmap. split.
  - intros ([id' row] & -> & [Hw Hin]%list_elem_of_filter). apply elem_of_map_to_list in Hin. eauto.
  - intros (row & Hrow & Hw). exists (id, row). split; [done|]. apply list_elem_of_filter.
    split; [done|]. by apply elem_of_map_to_list.
Qed.

Lemma update_runs_where_lookup where_ set d i :
  task_runs (update_runs_where where_ set d).1 !! i =
    (λ row, if where_ row then set row else row) <$> task_runs d !! i.
Proof. apply lookup_fmap. Qed.

Lemma insert_run_inv id row d d' :
  insert_run id row d = Some d' →
  task_runs d !! id = None ∧ spec_checks (tr_spec row) = true ∧
  firing_exists (rs_task_definition_id (tr_spec row)) (rs_scheduled_for (tr_spec row)) d = false ∧
  is_Some (task_definitions d !! rs_task_definition_id (tr_spec row)) ∧
  d' = d <| task_runs ::= <[id := row]> |>.
Proof.
  unfold insert_run. intros H. case_bool_decide as Hn; [discriminate H|].
  destruct (reference (task_definitions d) _) eqn:Hd; cbn [negb] in H; [|discriminate H].
  destruct (reference (script_versions d) _); cbn [negb] in H; [|discriminate H].
  destruct (reference (task_runs d) _); cbn [negb] in H; [|discriminate H].
  destruct (negb (match rs_requested_by _ with None => _ | Some _ => _ end)); [discriminate H|].
  destruct (firing_exists _ _ d) eqn:Hf; [discriminate H|]. destruct (spec_checks (tr_spec row)) eqn:Hs; cbn [negb] in H; [|discriminate H].
  injection H as <-. apply bool_decide_eq_true in Hd. split; [by apply eq_None_not_Some|]. split; [reflexivity|]. split; [reflexivity|]. by split.
Qed.

Lemma firing_exists_false definition time d :
  firing_exists definition time d = false →
  ∀ t i r, time = Some t → task_runs d !! i = Some r → rs_task_definition_id (tr_spec r) = definition →
    rs_scheduled_for (tr_spec r) ≠ Some t.
Proof.
  unfold firing_exists. rewrite existsb_false_iff. intros H t i r -> Hr Hd Ht.
  assert (r ∈ (map_to_list (task_runs d)).*2) as Hin.
  { apply list_elem_of_fmap. exists (i, r). split; [done|]. by apply elem_of_map_to_list. }
  specialize (H r Hin).
  unfold same_firing in H. rewrite !bool_decide_true in H by eauto. done.
Qed.
