(* ===== verification/Session.v ===== *)
(** * Session

    How the packages reach the stores they share.

    [Has X C] says that a state [C] holds a part of type [X] (the database, Redis,
    the connections to the agents, ...).  A component is written against the parts
    it uses, so that its theorems hold in every composition that provides them.

    A database transaction works on a copy of the tables that a successful commit
    installs; leaving it without a commit, as [defer tx.Rollback(ctx)] does, drops
    the copy.  A commit whose reply is lost has taken effect although the caller
    sees an error.  Transactions run one after the other: the row and advisory
    locks the code takes to obtain this are not modelled. *)

From S2P Require Import Prelude GoStd Model World Schema.

Class Has (X C : Type) : Type := {
  part : C → X;
  set_part : X → C → C;
  part_set : ∀ x c, part (set_part x c) = x;
  set_part_same : ∀ c, set_part (part c) c = c;
  set_part_twice : ∀ x y c, set_part x (set_part y c) = set_part x c
}.

#[export] Instance Has_self X : Has X X.
Proof. by refine {| part := id; set_part := λ x _, x |}. Defined.

(** Two parts of the state do not overlap. *)
Class Apart (X Y C : Type) `{!Has X C, !Has Y C} : Prop := {
  apart : ∀ (x : X) (c : C), part (X := Y) (set_part x c) = part c
}.

(** A program on a part, run on the whole. *)
Definition on_part {X C A} `{!Has X C} (m : Prog X A) : Prog C A :=
  λ '(c, o), let '((x, o'), r) := m (part c, o) in ((set_part x c, o'), r).

Lemma wp_on_part {X C A} `{!Has X C} (m : Prog X A) (c : C) Q :
  wp m (part c) (λ r x, Q r (set_part x c)) → wp (on_part m) c Q.
Proof.
  intros H o. unfold on_part. specialize (H o). by destruct (m (part c, o)) as [[x o'] r].
Qed.

Lemma forward_on_part {X C A} `{!Has X C} (m : Prog X A) : forward m → forward (C := C) (on_part m).
Proof. intros H c o. unfold on_part. specialize (H (part c) o). by destruct (m (part c, o)) as [[]]. Qed.

Section database.
(** [T] is the type of the tables a component uses. *)
Context {T C : Type} `{!Has T C}.

(** A statement on the pool, outside any transaction. *)
Definition pool {A} (context : string) (f : T → option (T * A)) : Prog C A :=
  remote context (λ c, match f (part c) with Some (d, a) => Some (set_part d c, a) | None => None end).

Definition pool_query {A} (context : string) (f : T → A) : Prog C A := observe context (λ c, f (part c)).

(** The state inside a transaction: the whole and the transaction's tables. *)
Definition TxOn (A : Type) : Type := Prog (C * T) A.

Definition stmt {A} (context : string) (f : T → option (T * A)) : TxOn A :=
  remote context (λ '(c, d), match f d with Some (d', a) => Some ((c, d'), a) | None => None end).

Definition exec (context : string) (f : T → option T) : TxOn unit :=
  stmt context (λ d, match f d with Some d' => Some (d', tt) | None => None end).

Definition query {A} (context : string) (f : T → A) : TxOn A := observe context (λ '(_, d), f d).

(** A query for exactly one row: no row is an error. *)
Definition query_one {A} (context : string) (f : T → option A) : TxOn A :=
  stmt context (λ d, match f d with Some a => Some (d, a) | None => None end).

Definition commit (context : string) : TxOn unit :=
  remote context (λ '(c, d), Some ((set_part d c, d), tt)).

(** An action outside the database while the transaction is open. *)
Definition outside {A} (m : Prog C A) : TxOn A :=
  λ '((c, d), o), let '((c', o'), r) := m (c, o) in (((c', d), o'), r).

(** [Begin], the body, and the deferred rollback. *)
Definition transaction {A} (context : string) (body : TxOn A) : Prog C A :=
  observe context (λ _, tt) ;;!
  (λ '(c, o), let '(((c', _), o'), r) := body ((c, part c), o) in ((c', o'), r)).

Lemma wp_pool {A} context (f : T → option (T * A)) c Q :
  Q (Err (EStorage context)) c →
  (∀ d a, f (part c) = Some (d, a) →
     Q (Ok a) (set_part d c) ∧ Q (Err (EStorage context)) (set_part d c)) →
  wp (pool context f) c Q.
Proof.
  intros H0 H1. apply wp_remote; [done|]. intros c' a H.
  destruct (f (part c)) as [[d a']|] eqn:E; simplify_eq. by apply H1.
Qed.

Lemma wp_pool_query {A} context (f : T → A) (c : C) Q :
  Q (Err (EStorage context)) c → Q (Ok (f (part c))) c → wp (pool_query context f) c Q.
Proof. intros. by apply wp_observe. Qed.

Lemma wp_stmt {A} context (f : T → option (T * A)) (c : C) d Q :
  Q (Err (EStorage context)) (c, d) →
  (∀ d' a, f d = Some (d', a) → Q (Ok a) (c, d') ∧ Q (Err (EStorage context)) (c, d')) →
  wp (stmt context f) (c, d) Q.
Proof.
  intros H0 H1. apply wp_remote; [done|]. intros c' a H.
  destruct (f d) as [[d' a']|] eqn:E; simplify_eq. by apply H1.
Qed.

Lemma wp_exec context (f : T → option T) (c : C) d Q :
  Q (Err (EStorage context)) (c, d) →
  (∀ d', f d = Some d' → Q (Ok tt) (c, d') ∧ Q (Err (EStorage context)) (c, d')) →
  wp (exec context f) (c, d) Q.
Proof.
  intros H0 H1. apply wp_stmt; [done|]. intros d' a H.
  destruct (f d) as [d''|] eqn:E; simplify_eq. by apply H1.
Qed.

Lemma wp_query {A} context (f : T → A) (c : C) d Q :
  Q (Err (EStorage context)) (c, d) → Q (Ok (f d)) (c, d) → wp (query context f) (c, d) Q.
Proof. intros. by apply wp_observe. Qed.

Lemma wp_query_one {A} context (f : T → option A) (c : C) d Q :
  Q (Err (EStorage context)) (c, d) → (∀ a, f d = Some a → Q (Ok a) (c, d)) →
  wp (query_one context f) (c, d) Q.
Proof.
  intros H0 H1. apply wp_stmt; [done|]. intros d' a H. destruct (f d) eqn:E; simplify_eq. auto.
Qed.

Lemma wp_commit context (c : C) d Q :
  Q (Err (EStorage context)) (c, d) →
  Q (Ok tt) (set_part d c, d) → Q (Err (EStorage context)) (set_part d c, d) →
  wp (commit context) (c, d) Q.
Proof. intros. apply wp_remote; [done|]. intros ? ? [= <- <-]. done. Qed.

Lemma wp_outside {A} (m : Prog C A) (c : C) (d : T) Q :
  wp m c (λ r c', Q r (c', d)) → wp (outside m) (c, d) Q.
Proof.
  intros H o. unfold outside. specialize (H o). by destruct (m (c, o)) as [[c' o'] r].
Qed.

Lemma wp_transaction {A} context (body : TxOn A) (c : C) Q :
  Q (Err (EStorage context)) c → wp body (c, part c) (λ r p, Q r p.1) →
  wp (transaction context body) c Q.
Proof.
  intros H0 H1. apply wp_bind, wp_observe; [done|]. intros o. specialize (H1 o).
  by destruct (body (c, part c, o)) as [[[c' d'] o'] r].
Qed.

(** Operations that only touch the database: [P] relates the tables before, the
    result and the tables after; the rest of the state is unchanged. *)
Definition db_spec {A} (m : Prog C A) (P : T → Result A → T → Prop) : Prop :=
  ∀ c, wp m c (λ r c', c' = set_part (part c') c ∧ P (part c) r (part c')).

Lemma db_spec_mono {A} (m : Prog C A) (P P' : T → Result A → T → Prop) :
  db_spec m P → (∀ d r d', P d r d' → P' d r d') → db_spec m P'.
Proof. intros H HP c. eapply wp_mono; [apply H|]. simpl. intros r c' [? ?]. auto. Qed.

Lemma db_spec_conj {A} (m : Prog C A) (P P' : T → Result A → T → Prop) :
  db_spec m P → db_spec m P' → db_spec m (λ d r d', P d r d' ∧ P' d r d').
Proof.
  intros H H' c o. specialize (H c o). specialize (H' c o).
  destruct (m (c, o)) as [[c' o'] r]. naive_solver.
Qed.

Lemma db_spec_throw {A} (e : Error) (P : T → Result A → T → Prop) :
  (∀ d, P d (Err e) d) → db_spec (throw e) P.
Proof. intros H c. apply wp_throw. by rewrite set_part_same. Qed.

Lemma db_spec_ret {A} (a : A) (P : T → Result A → T → Prop) :
  (∀ d, P d (Ok a) d) → db_spec (ret a) P.
Proof. intros H c. apply wp_ret. by rewrite set_part_same. Qed.

(** The rule for a transaction that only touches the database: an exit before the
    commit is judged with the tables unchanged, an exit after it with the committed
    tables. *)
Definition tx_post {A} (c : C) (P : T → Result A → T → Prop) (r : Result A) (p : C * T) : Prop :=
  p.1 = set_part (part p.1) c ∧ P (part c) r (part p.1).

Lemma tx_exit {A} c (P : T → Result A → T → Prop) r d : P (part c) r (part c) → tx_post c P r (c, d).
Proof. intros H. split; simpl; [by rewrite set_part_same|done]. Qed.

Lemma tx_committed {A} c (P : T → Result A → T → Prop) r d d' :
  P (part c) r d → tx_post c P r (set_part d c, d').
Proof. intros H. split; simpl; by rewrite part_set. Qed.

Lemma db_spec_transaction {A} context (body : TxOn A) (P : T → Result A → T → Prop) :
  (∀ d, P d (Err (EStorage context)) d) →
  (∀ c, wp body (c, part c) (tx_post c P)) →
  db_spec (transaction context body) P.
Proof.
  intros H0 H1 c. apply wp_transaction; [by rewrite set_part_same|]. apply H1.
Qed.

(** Operations composed of parts that change the tables along a preorder. *)
Section preorder.
Context (R : T → T → Prop) `{!PreOrder R}.

Abbreviation moves m := (db_spec m (λ d _ d', R d d')).

Lemma moves_same {A} (m : Prog C A) : (∀ c, wp m c (λ _ c', c' = c)) → moves m.
Proof. intros H c. eapply wp_mono; [apply H|]. intros r c' ->. by rewrite set_part_same. Qed.

Lemma moves_bind {A B} (m : Prog C A) (k : A → Prog C B) : moves m → (∀ a, moves (k a)) → moves (bind m k).
Proof.
  intros Hm Hk c. apply wp_bind. eapply wp_mono; [apply Hm|]. intros [a|e] c1 [Hc1 H1]; [|done].
  eapply wp_mono; [apply Hk|]. intros r c2 [Hc2 H2]. split; [|by etrans].
  rewrite Hc2, Hc1. by rewrite !part_set, set_part_twice.
Qed.

Lemma moves_catch {A} (m : Prog C A) : moves m → moves (catch m).
Proof. intros H c. apply wp_catch. eapply wp_mono; [apply H|]. done. Qed.

Lemma moves_for_each {A} (l : list A) body : (∀ x, moves (body x)) → moves (for_each l body).
Proof. intros Hb. induction l as [|x l IH]; simpl; [by apply db_spec_ret|]. by apply moves_bind. Qed.

Lemma moves_pool {A} context (f : T → option (T * A)) : (∀ d d' a, f d = Some (d', a) → R d d') → moves (pool context f).
Proof. intros H c. apply wp_pool; [by rewrite set_part_same|]. intros d a Hf. rewrite part_set. specialize (H _ _ _ Hf). done. Qed.

Lemma moves_query {A} context (f : T → A) : moves (pool_query context f).
Proof. intros c. apply wp_pool_query; by rewrite set_part_same. Qed.

Lemma moves_clock : moves clock_now.
Proof. apply moves_same. intros c. by apply wp_clock_now. Qed.

Lemma moves_uuid : moves new_uuid.
Proof. apply moves_same. intros c. by apply wp_new_uuid. Qed.

End preorder.

(** ** Regimes *)

Lemma under_pool {A} W context (f : T → option (T * A)) (c : C) Q :
  (faulty W ∨ f (part c) = None → Q (Err (EStorage context)) c) →
  (∀ d a, f (part c) = Some (d, a) → Q (Ok a) (set_part d c) ∧ (faulty W → Q (Err (EStorage context)) (set_part d c))) →
  under W (pool context f) c Q.
Proof.
  intros H0 H1. apply under_remote.
  - intros [Hf|Hn]; apply H0; [by left|right]. by destruct (f (part c)) as [[d a]|].
  - intros c' a H. destruct (f (part c)) as [[d a']|] eqn:E; simplify_eq. by apply H1.
Qed.

Lemma under_pool_query {A} W context (f : T → A) (c : C) Q :
  (faulty W → Q (Err (EStorage context)) c) → Q (Ok (f (part c))) c → under W (pool_query context f) c Q.
Proof. intros. by apply under_observe. Qed.


Lemma under_stmt {A} W context (f : T → option (T * A)) (c : C) d Q :
  (faulty W ∨ f d = None → Q (Err (EStorage context)) (c, d)) →
  (∀ d' a, f d = Some (d', a) → Q (Ok a) (c, d') ∧ (faulty W → Q (Err (EStorage context)) (c, d'))) →
  under W (stmt context f) (c, d) Q.
Proof.
  intros H0 H1. apply under_remote.
  - intros [Hf|Hn]; apply H0; [by left|right]. by destruct (f d) as [[d' a]|].
  - intros c' a H. destruct (f d) as [[d' a']|] eqn:E; simplify_eq. by apply H1.
Qed.

Lemma under_commit W context (c : C) d Q :
  (faulty W → Q (Err (EStorage context)) (c, d) ∧ Q (Err (EStorage context)) (set_part d c, d)) → Q (Ok tt) (set_part d c, d) →
  under W (commit context) (c, d) Q.
Proof. intros H0 H1. apply under_remote; [intros [Hf|?]; [by apply H0|done]|]. intros ? ? [= <- <-]. split; [done|]. intros Hf. by apply H0. Qed.

Lemma under_transaction {A} W context (body : TxOn A) (c : C) Q :
  (faulty W → Q (Err (EStorage context)) c) → under W body (c, part c) (λ r p, Q r p.1) →
  under W (transaction context body) c Q.
Proof.
  intros H0 H1. apply under_bind, under_observe; [done|]. intros o Ho. specialize (H1 o Ho).
  by destruct (body (c, part c, o)) as [[[c' d'] o'] r].
Qed.

Lemma forward_pool {A} context (f : T → option (T * A)) : forward (C := C) (pool context f).
Proof. apply forward_remote. Qed.

Lemma forward_pool_query {A} context (f : T → A) : forward (C := C) (pool_query context f).
Proof. apply forward_observe. Qed.

Lemma forward_stmt {A} context (f : T → option (T * A)) : forward (C := C * T) (stmt context f).
Proof. apply forward_remote. Qed.

Lemma forward_exec context (f : T → option T) : forward (C := C * T) (exec context f).
Proof. apply forward_remote. Qed.

Lemma forward_query {A} context (f : T → A) : forward (C := C * T) (query context f).
Proof. apply forward_observe. Qed.

Lemma forward_query_one {A} context (f : T → option A) : forward (C := C * T) (query_one context f).
Proof. apply forward_remote. Qed.

Lemma forward_commit context : forward (C := C * T) (commit context).
Proof. apply forward_remote. Qed.

Lemma forward_outside {A} (m : Prog C A) : forward m → forward (C := C * T) (outside m).
Proof. intros H [c d] o. unfold outside. specialize (H c o). by destruct (m (c, o)) as [[]]. Qed.

Lemma forward_transaction {A} context (body : TxOn A) : forward body → forward (C := C) (transaction context body).
Proof.
  intros H. apply forward_bind; [apply forward_observe|]. intros _ c o. specialize (H (c, part c) o).
  by destruct (body (c, part c, o)) as [[[]]].
Qed.

(** ** Runs without failures

    [succeeds m c a c']: when nothing fails, [m] returns [a] and leaves [c']. *)
Definition succeeds {S A} (m : Prog S A) (s : S) (a : A) (s' : S) : Prop :=
  ∀ ids clock, m (s, mkOracle [] ids clock) = ((s', mkOracle [] ids clock), Ok a).

Lemma succeeds_ret {S A} (a : A) (s : S) : succeeds (ret a) s a s.
Proof. done. Qed.

Lemma succeeds_bind {S A B} (m : Prog S A) (k : A → Prog S B) s a s1 b s2 :
  succeeds m s a s1 → succeeds (k a) s1 b s2 → succeeds (bind m k) s b s2.
Proof. intros H1 H2 ids clock. unfold bind. rewrite H1. apply H2. Qed.

Lemma succeeds_query {A} context (f : T → A) (c : C) d : succeeds (query context f) (c, d) (f d) (c, d).
Proof. done. Qed.

Lemma succeeds_exec context (f : T → option T) (c : C) d d' :
  f d = Some d' → succeeds (exec context f) (c, d) tt (c, d').
Proof. intros H ids clock. unfold exec, stmt, remote. simpl. by rewrite H. Qed.

Lemma succeeds_stmt {A} context (f : T → option (T * A)) (c : C) d d' a :
  f d = Some (d', a) → succeeds (stmt context f) (c, d) a (c, d').
Proof. intros H ids clock. unfold stmt, remote. simpl. by rewrite H. Qed.

Lemma succeeds_commit context (c : C) d : succeeds (commit context) (c, d) tt (set_part d c, d).
Proof. done. Qed.

Lemma succeeds_transaction {A} context (body : TxOn A) (c : C) a c' d' :
  succeeds body (c, part c) a (c', d') → succeeds (transaction context body) c a c'.
Proof. intros H ids clock. unfold transaction, bind, observe, remote. simpl. by rewrite H. Qed.

End database.

Arguments TxOn : clear implicits.
#[export] Hint Resolve forward_pool forward_pool_query forward_stmt forward_exec forward_query forward_query_one forward_commit forward_outside forward_transaction forward_on_part : forward.

(** [forward_step], also below a transaction. *)
Ltac forward_tx :=
  first [apply forward_transaction | apply forward_outside | forward_step].
Abbreviation Tx := (TxOn DB).
Abbreviation moves R m := (db_spec m (λ d _ d', R d d')).

Ltac wp_db_rule :=
  lazymatch goal with
  | |- wp (bind _ _) _ _ => apply wp_bind; cbv beta
  | |- wp (ret _) _ _ => apply wp_ret
  | |- wp (throw _) _ _ => apply wp_throw
  | |- wp (catch _) _ _ => apply wp_catch
  | |- wp (query _ _) _ _ => apply wp_query
  | |- wp (query_one _ _) _ _ => apply wp_query_one; [|intros ?a ?Hrow]
  | |- wp (stmt _ _) _ _ => apply wp_stmt; [|intros ?d' ?a ?Hstmt; split]
  | |- wp (exec _ _) _ _ => apply wp_exec; [|intros ?d' ?Hstmt; split]
  | |- wp (commit _) _ _ => apply wp_commit
  | |- wp (outside _) _ _ => apply wp_outside
  | |- wp (pool_query _ _) _ _ => apply wp_pool_query
  | |- wp (pool _ _) _ _ => apply wp_pool; [|intros ?d' ?a ?Hstmt]
  | |- wp clock_now _ _ => apply wp_clock_now; intros ?t
  | |- wp new_uuid _ _ => apply wp_new_uuid; [|intros ?id]
  end.

(** One step of the analysis of a transaction: the rule of the next action, a case
    of the code, or the judgement of an exit. *)
Ltac tx_step :=
  cbv beta iota zeta;
  lazymatch goal with
  | |- tx_post _ _ _ (set_part _ _, _) => apply tx_committed
  | |- tx_post _ _ _ _ => apply tx_exit
  | |- wp (match ?x with _ => _ end) _ _ => let E := fresh "Hcase" in destruct x eqn:E
  | |- wp _ _ _ => wp_db_rule
  end.

(** A case of the code outside a transaction. *)
Ltac code_case :=
  lazymatch goal with
  | |- db_spec (match ?x with _ => _ end) _ => destruct x eqn:?
  | |- wp (match ?x with _ => _ end) _ _ => destruct x eqn:?
  end.

(** Reads the facts of a path through the code: rows found or not, boolean tests,
    statements executed. *)
Ltac tx_facts :=
  repeat match goal with
  | H : _ <$> _ = Some _ |- _ => apply fmap_Some in H as (? & ? & ?)
  | H : _ <$> _ = None |- _ => apply fmap_None in H
  | H : negb _ = true |- _ => apply negb_true_iff in H
  | H : negb _ = false |- _ => apply negb_false_iff in H
  | H : bool_decide _ = true |- _ => apply bool_decide_eq_true in H
  | H : bool_decide _ = false |- _ => apply bool_decide_eq_false in H
  | H : (_ =? _) = true |- _ => apply Z.eqb_eq in H
  | H : (_ =? _) = false |- _ => apply Z.eqb_neq in H
  | H : Some _ = Some _ |- _ => injection H as H
  | _ => progress simplify_eq
  end.

Ltac append_facts :=
  repeat match goal with
  | H : append_event _ _ _ _ _ _ _ = Some _ |- _ => apply append_event_inv in H as [? ->]
  end.
