(* ===== verification/Lifecycle.v ===== *)
(** * Lifecycle

    What the tables promise about runs, independent of which operation writes
    them: the state machine of a run, the well-formedness of the database
    ([wf_db]) and how the database may evolve ([evolves]).

    [db_change] is the shape of every write that creates no run and grants no
    lease; it keeps [wf_db] and entails [evolves].  The components prove that what
    they commit has this shape (or is one of the three other shapes: a new run, an
    assignment, a change of tables that hold no runs). *)

From S2P Require Import Prelude GoStd Model Schema.

(** ** The state machine *)

(** A run that may occupy an executor. *)
Definition occupied (s : RunState) : bool :=
  match s with Assigned | Syncing | Running | Unknown => true | _ => false end.

(** The states in which the run counts against the concurrency limit. *)
Definition active (s : RunState) : bool :=
  match s with Assigned | Syncing | Running => true | _ => false end.

Definition transition (from to : RunState) : bool :=
  match from, to with
  | Queued, (Assigned | Cancelled | Expired) => true
  | (Assigned | Syncing | Running | Unknown), (Running | Succeeded | Failed | TimedOut | Cancelled | Unknown) => true
  | _, _ => bool_decide (from = to)
  end.

(** [legal from states to]: the states recorded one after the other lead from
    [from] to [to] by transitions. *)
Fixpoint legal (from : RunState) (states : list RunState) (to : RunState) : Prop :=
  match states with
  | [] => from = to
  | s :: rest => transition from s = true ∧ legal s rest to
  end.

Definition reaches : relation RunState := rtc (λ a b, transition a b = true).

Lemma legal_app from l1 mid l2 to : legal from l1 mid → legal mid l2 to → legal from (l1 ++ l2) to.
Proof. revert from. induction l1; simpl; [by intros ? -> |naive_solver]. Qed.

Lemma legal_reaches from l to : legal from l to → reaches from to.
Proof.
  revert from. induction l as [|s l IH]; simpl; [by intros ? ->; constructor|].
  intros from [H1 H2]. econstructor; [exact H1|]. by apply IH.
Qed.

Lemma transition_terminal s s' : Terminal s = true → transition s s' = true → s' = s.
Proof. by destruct s, s'. Qed.

Lemma reaches_terminal s s' : reaches s s' → Terminal s = true → s' = s.
Proof.
  intros H Ht. induction H as [|a b c Hab _ IH]; [done|].
  apply transition_terminal in Hab; [|done]. subst. auto.
Qed.

(** ** Well-formed rows *)

Record spec_ok (s : RunSpec) : Prop := {
  so_attempt : 1 ≤ rs_attempt s ≤ rs_max_retries s + 1;
  so_root : rs_retry_of s = None → rs_attempt s = 1;
  so_checks : spec_checks s = true
}.

Record row_ok (row : RunRow) : Prop := {
  ro_spec : spec_ok (tr_spec row);
  ro_finished : Terminal (tr_state row) = true → is_Some (tr_finished_at row);
  ro_assigned : occupied (tr_state row) = true →
    is_Some (tr_assigned_server_id row) ∧ is_Some (tr_execution_token row);
  ro_gone : tr_process_confirmed_gone row = true → tr_state row = Unknown ∨ Terminal (tr_state row) = true
}.

Definition agent_number (token : string) (e : EventRow) : option Z :=
  match er_agent e with
  | Some (t, n) => if bool_decide (t = token) then Some n else None
  | None => None
  end.

Definition agent_numbers (token : string) (events : list EventRow) : list Z :=
  omap (agent_number token) events.

(** The events of a run: numbered 0, 1, 2, ...; those of one execution numbered
    1, 2, 3, ... by its agent; the recorded states form a path of the state machine
    from [Queued] to the run's current state. *)
Record history_ok (row : RunRow) (events : list EventRow) : Prop := {
  ho_sequences : er_sequence <$> events = seqZ 0 (Z.of_nat (length events));
  ho_agents : ∀ token, agent_numbers token events = seqZ 1 (Z.of_nat (length (agent_numbers token events)));
  ho_path : ∃ first rest, er_state <$> events = first :: rest ∧ first = Queued ∧ legal Queued rest (tr_state row)
}.

Definition run_ok (row : option RunRow) (events : list EventRow) : Prop :=
  match row with
  | None => events = []
  | Some row => row_ok row ∧ history_ok row events
  end.

(** ** Well-formed tables *)

Definition root_of (id : string) (row : RunRow) : string := default id (rs_retry_of (tr_spec row)).

(** A retry points at the first attempt of its lineage, and no two runs of a
    lineage have the same attempt number: the lineage never forks. *)
Definition lineage_ok (runs : gmap string RunRow) : Prop :=
  (∀ id row root, runs !! id = Some row → rs_retry_of (tr_spec row) = Some root →
     ∃ first, runs !! root = Some first ∧ rs_retry_of (tr_spec first) = None) ∧
  (∀ id1 id2 r1 r2, runs !! id1 = Some r1 → runs !! id2 = Some r2 →
     root_of id1 r1 = root_of id2 r2 → rs_attempt (tr_spec r1) = rs_attempt (tr_spec r2) → id1 = id2).

Definition tokens_ok (runs : gmap string RunRow) : Prop :=
  ∀ id1 id2 r1 r2 token, runs !! id1 = Some r1 → runs !! id2 = Some r2 →
    tr_execution_token r1 = Some token → tr_execution_token r2 = Some token → id1 = id2.

Definition firings_ok (runs : gmap string RunRow) : Prop :=
  ∀ id1 id2 r1 r2 time, runs !! id1 = Some r1 → runs !! id2 = Some r2 →
    rs_task_definition_id (tr_spec r1) = rs_task_definition_id (tr_spec r2) →
    rs_scheduled_for (tr_spec r1) = Some time → rs_scheduled_for (tr_spec r2) = Some time → id1 = id2.

(** An open lease belongs to a run that occupies the lease's server, and a run has
    at most one. *)
Definition leases_ok (runs : gmap string RunRow) (leases : gmap string LeaseRow) : Prop :=
  (∀ id l, leases !! id = Some l → is_Some (runs !! rl_task_run_id l)) ∧
  (∀ id l row, leases !! id = Some l → rl_released_at l = None → runs !! rl_task_run_id l = Some row →
     occupied (tr_state row) = true ∧ tr_assigned_server_id row = Some (rl_server_id l)) ∧
  (∀ id1 id2 l1 l2, leases !! id1 = Some l1 → leases !! id2 = Some l2 →
     rl_released_at l1 = None → rl_released_at l2 = None → rl_task_run_id l1 = rl_task_run_id l2 → id1 = id2).

Record wf_db (d : DB) : Prop := {
  wf_runs : ∀ id, run_ok (task_runs d !! id) (events_of d id);
  wf_leases : leases_ok (task_runs d) (resource_leases d);
  wf_lineage : lineage_ok (task_runs d);
  wf_tokens : tokens_ok (task_runs d);
  wf_firings : firings_ok (task_runs d)
}.

(** Tables without runs, events and leases. *)
Lemma wf_no_runs d : task_runs d = ∅ → run_events d = ∅ → resource_leases d = ∅ → wf_db d.
Proof.
  intros Er Ee El. split; rewrite ?Er, ?El.
  - intros id. unfold events_of. by rewrite Ee, !lookup_empty.
  - split; [intros * H; by destruct (lookup_empty_Some _ _ H)|].
    split; intros * H; by destruct (lookup_empty_Some _ _ H).
  - split; intros * H; by destruct (lookup_empty_Some _ _ H).
  - intros ????? H; by destruct (lookup_empty_Some _ _ H).
  - intros ????? H; by destruct (lookup_empty_Some _ _ H).
Qed.

(** ** Evolution *)

(** What a run keeps whatever happens to it. *)
Record run_evolves (row : RunRow) (events : list EventRow) (row' : RunRow) (events' : list EventRow) : Prop := {
  re_spec : tr_spec row' = tr_spec row;
  re_state : reaches (tr_state row) (tr_state row');
  re_log : events `prefix_of` events'
}.

Definition lease_evolves (l l' : LeaseRow) : Prop :=
  l' <| rl_released_at := None |> = l <| rl_released_at := None |> ∧
  (is_Some (rl_released_at l) → rl_released_at l' = rl_released_at l).

Record evolves (d d' : DB) : Prop := {
  ev_runs : ∀ id row, task_runs d !! id = Some row →
    ∃ row', task_runs d' !! id = Some row' ∧ run_evolves row (events_of d id) row' (events_of d' id);
  ev_leases : ∀ id l, resource_leases d !! id = Some l →
    ∃ l', resource_leases d' !! id = Some l' ∧ lease_evolves l l'
}.

#[export] Instance evolves_preorder : PreOrder evolves.
Proof.
  split.
  - intros d. split; intros id x H; exists x; (split; [done|]).
    + split; [done|constructor|done].
    + by split.
  - intros d1 d2 d3 [Hr1 Hl1] [Hr2 Hl2]. split.
    + intros id row H. destruct (Hr1 _ _ H) as (row2 & H2 & [E1 S1 L1]).
      destruct (Hr2 _ _ H2) as (row3 & H3 & [E2 S2 L2]). exists row3. split; [done|].
      split; [congruence|exact (transitivity S1 S2)|by etrans].
    + intros id l H. destruct (Hl1 _ _ H) as (l2 & H2 & [E1 F1]).
      destruct (Hl2 _ _ H2) as (l3 & H3 & [E2 F2]). exists l3. split; [done|].
      split; [congruence|]. intros HS. pose proof (F1 HS) as E. rewrite F2; [done|].
      by rewrite E.
Qed.

(** The property components prove of what they commit. *)
Definition sound (d d' : DB) : Prop := wf_db d → wf_db d' ∧ evolves d d'.

#[export] Instance sound_preorder : PreOrder sound.
Proof.
  split; [done|]. intros d1 d2 d3 H1 H2 Hw. destruct (H1 Hw) as [Hw2 E1].
  destruct (H2 Hw2) as [Hw3 E2]. split; [done|by etrans].
Qed.

(** ** Changes that create no run and grant no lease *)

Record row_change (row : RunRow) (events : list EventRow) (row' : RunRow) (events' : list EventRow) : Prop := {
  rc_spec : tr_spec row' = tr_spec row;
  rc_ok : row_ok row → row_ok row';
  rc_token : tr_execution_token row' = tr_execution_token row;
  rc_server : tr_assigned_server_id row' = tr_assigned_server_id row;
  rc_log : ∃ new, events' = events ++ new ∧
    er_sequence <$> new = seqZ (Z.of_nat (length events)) (Z.of_nat (length new)) ∧
    (∀ token, agent_numbers token new =
       seqZ (1 + Z.of_nat (length (agent_numbers token events))) (Z.of_nat (length (agent_numbers token new)))) ∧
    legal (tr_state row) (er_state <$> new) (tr_state row')
}.

Definition run_change (row : option RunRow) (events : list EventRow) (row' : option RunRow)
  (events' : list EventRow) : Prop :=
  match row, row' with
  | Some row, Some row' => row_change row events row' events'
  | None, None => events' = events
  | _, _ => False
  end.

Definition lease_change (runs' : gmap string RunRow) (l l' : option LeaseRow) : Prop :=
  match l, l' with
  | Some l, Some l' => lease_evolves l l' ∧
      (rl_released_at l' = None → ∀ row', runs' !! rl_task_run_id l = Some row' → occupied (tr_state row') = true)
  | None, None => True
  | _, _ => False
  end.

Record db_change (d d' : DB) : Prop := {
  dc_runs : ∀ id, run_change (task_runs d !! id) (events_of d id) (task_runs d' !! id) (events_of d' id);
  dc_leases : ∀ id, lease_change (task_runs d') (resource_leases d !! id) (resource_leases d' !! id)
}.

Lemma agent_numbers_app token l1 l2 :
  agent_numbers token (l1 ++ l2) = agent_numbers token l1 ++ agent_numbers token l2.
Proof. apply omap_app. Qed.

Lemma seqZ_snoc_app m (n1 n2 : nat) :
  seqZ m (Z.of_nat n1) ++ seqZ (m + Z.of_nat n1) (Z.of_nat n2) = seqZ m (Z.of_nat (n1 + n2)).
Proof. rewrite Nat2Z.inj_add, seqZ_app by lia. done. Qed.

Lemma history_change row events row' events' :
  history_ok row events → row_change row events row' events' → history_ok row' events'.
Proof.
  intros [Hs Ha (first & rest & Hp & Hq & Hl)] [_ _ _ _ (new & -> & Hs' & Ha' & Hl')]. split.
  - rewrite fmap_app, Hs, Hs', length_app. apply (seqZ_snoc_app 0).
  - intros token. rewrite agent_numbers_app, length_app, <-seqZ_snoc_app.
    by rewrite Ha at 1; rewrite Ha' at 1.
  - exists first, (rest ++ (er_state <$> new)). rewrite fmap_app, Hp. split_and!; [done|done|].
    by eapply legal_app.
Qed.

Lemma row_change_evolves row events row' events' :
  row_change row events row' events' → run_evolves row events row' events'.
Proof.
  intros [Hs _ _ _ (new & -> & _ & _ & Hl)]. split; [done|by eapply legal_reaches|].
  by exists new.
Qed.

Lemma run_change_back (runs runs' : gmap string RunRow) e e' (H : ∀ id : string, run_change (runs !! id) (e id) (runs' !! id) (e' id))
  id (row' : RunRow) :
  runs' !! id = Some row' → ∃ row, runs !! id = Some row ∧ row_change row (e id) row' (e' id).
Proof.
  intros H'. specialize (H id). rewrite H' in H. destruct (runs !! id) as [row|]; [|done]. eauto.
Qed.

Lemma run_change_forth (runs runs' : gmap string RunRow) e e' (H : ∀ id : string, run_change (runs !! id) (e id) (runs' !! id) (e' id))
  id (row : RunRow) :
  runs !! id = Some row → ∃ row', runs' !! id = Some row' ∧ row_change row (e id) row' (e' id).
Proof.
  intros H'. specialize (H id). rewrite H' in H. destruct (runs' !! id) as [row'|]; [|done]. eauto.
Qed.

Lemma lineage_specs (runs runs' : gmap string RunRow) :
  (∀ id, tr_spec <$> runs' !! id = tr_spec <$> runs !! id) →
  (lineage_ok runs → lineage_ok runs') ∧ (firings_ok runs → firings_ok runs').
Proof.
  intros Hs.
  assert (∀ id r', runs' !! id = Some r' → ∃ r, runs !! id = Some r ∧ tr_spec r' = tr_spec r) as Hback.
  { intros id r' H. specialize (Hs id). rewrite H in Hs. destruct (runs !! id) as [r|]; [|done].
    exists r. by simplify_eq/=. }
  split.
  - intros [H1 H2]. split.
    + intros id row root H Hr. destruct (Hback _ _ H) as (r & Hr' & E). rewrite E in Hr.
      destruct (H1 _ _ _ Hr' Hr) as (first & Hf & Hn). specialize (Hs root). rewrite Hf in Hs.
      destruct (runs' !! root) as [first'|]; [|done]. exists first'. simplify_eq/=. split; congruence.
    + intros id1 id2 r1 r2 Hr1 Hr2. destruct (Hback _ _ Hr1) as (? & ? & E1).
      destruct (Hback _ _ Hr2) as (? & ? & E2). unfold root_of. rewrite E1, E2. by eapply H2.
  - intros H id1 id2 r1 r2 t Hr1 Hr2. destruct (Hback _ _ Hr1) as (? & ? & E1).
    destruct (Hback _ _ Hr2) as (? & ? & E2). rewrite E1, E2. by eapply H.
Qed.

Lemma db_change_specs d d' :
  db_change d d' → ∀ id, tr_spec <$> task_runs d' !! id = tr_spec <$> task_runs d !! id.
Proof.
  intros [H _] id. specialize (H id). unfold run_change in H.
  destruct (task_runs d !! id), (task_runs d' !! id); try done. simpl. by rewrite (rc_spec _ _ _ _ H).
Qed.

Lemma db_change_leases d d' : db_change d d' → wf_db d → leases_ok (task_runs d') (resource_leases d').
Proof.
  intros [Hr Hl] Hw. destruct (wf_leases _ Hw) as (L1 & L2 & L3).
  assert (∀ id l', resource_leases d' !! id = Some l' → ∃ l, resource_leases d !! id = Some l ∧
    lease_evolves l l' ∧ (rl_released_at l' = None → rl_released_at l = None ∧
      ∀ row', task_runs d' !! rl_task_run_id l = Some row' → occupied (tr_state row') = true)) as Hback.
  { intros id l' H. specialize (Hl id). unfold lease_change in Hl. rewrite H in Hl.
    destruct (resource_leases d !! id) as [l|]; [|done]. destruct Hl as [He Ho].
    exists l. split_and!; [done|done|]. intros Hn. split; [|auto].
    destruct (rl_released_at l) eqn:E; [|done]. destruct He as [_ He]. rewrite He in Hn; congruence || eauto. }
  assert (∀ l l', lease_evolves l l' → rl_task_run_id l' = rl_task_run_id l ∧ rl_server_id l' = rl_server_id l)
    as Hsame by (intros [] [] [H _]; by simplify_eq/=).
  split_and!.
  - intros id l' H. destruct (Hback _ _ H) as (l & H0 & He & _). destruct (Hsame _ _ He) as [-> _].
    destruct (L1 _ _ H0) as [row Hrow]. by destruct (run_change_forth _ _ _ _ Hr _ _ Hrow) as (? & -> & _).
  - intros id l' row' H Hn Hrow'. destruct (Hback _ _ H) as (l & H0 & He & Ho).
    destruct (Hsame _ _ He) as [Es Esrv]. rewrite Es in Hrow'. destruct (Ho Hn) as [Hn0 Hocc].
    destruct (run_change_back _ _ _ _ Hr _ _ Hrow') as (row & Hrow & Hc).
    split; [by apply Hocc|]. rewrite (rc_server _ _ _ _ Hc), Esrv.
    by destruct (L2 _ _ _ H0 Hn0 Hrow).
  - intros id1 id2 l1' l2' H1 H2 N1 N2. destruct (Hback _ _ H1) as (l1 & ? & E1 & O1).
    destruct (Hback _ _ H2) as (l2 & ? & E2 & O2). destruct (Hsame _ _ E1) as [-> _].
    destruct (Hsame _ _ E2) as [-> _]. destruct (O1 N1), (O2 N2). by eapply L3.
Qed.

Lemma db_change_sound d d' : db_change d d' → sound d d'.
Proof.
  intros Hc Hw. pose proof (db_change_specs _ _ Hc) as Hs.
  pose proof (db_change_leases _ _ Hc Hw) as Hl. destruct Hc as [Hr Hle]. split; [split|split].
  - intros id. pose proof (wf_runs _ Hw id) as H. specialize (Hr id). unfold run_ok, run_change in *.
    destruct (task_runs d !! id), (task_runs d' !! id); try done; [|by rewrite Hr].
    destruct H as [H1 H2]. split; [by apply (rc_ok _ _ _ _ Hr)|by eapply history_change].
  - done.
  - apply (lineage_specs _ _ Hs), Hw.
  - intros id1 id2 r1 r2 t H1 H2. destruct (run_change_back _ _ _ _ Hr _ _ H1) as (? & ? & E1).
    destruct (run_change_back _ _ _ _ Hr _ _ H2) as (? & ? & E2).
    rewrite (rc_token _ _ _ _ E1), (rc_token _ _ _ _ E2). by eapply (wf_tokens _ Hw).
  - apply (lineage_specs _ _ Hs), Hw.
  - intros id row H. destruct (run_change_forth _ _ _ _ Hr _ _ H) as (row' & H' & E).
    exists row'. split; [done|]. by apply row_change_evolves.
  - intros id l H. specialize (Hle id). unfold lease_change in Hle. rewrite H in Hle.
    destruct (resource_leases d' !! id) as [l'|]; [|done]. exists l'. by destruct Hle.
Qed.

(** ** Building changes *)

Lemma foldr_max_seqZ base m (n : nat) :
  base ≤ m → foldr Z.max base (seqZ m (Z.of_nat n)) = if decide (n = 0%nat) then base else m + Z.of_nat n - 1.
Proof.
  revert m. induction n as [|n IH]; intros m Hm; [done|].
  rewrite seqZ_cons by lia. replace (Z.pred (Z.of_nat (S n))) with (Z.of_nat n) by lia.
  rewrite foldr_cons, IH by lia. destruct n as [|n]; repeat case_decide; lia.
Qed.

Lemma next_sequence_length events :
  er_sequence <$> events = seqZ 0 (Z.of_nat (length events)) → next_sequence events = Z.of_nat (length events).
Proof.
  intros H. unfold next_sequence.
  assert (foldr (λ e acc, Z.max (er_sequence e) acc) (-1) events =
          foldr Z.max (-1) (er_sequence <$> events)) as ->.
  { clear. induction events as [|e events IH]; [done|]. rewrite fmap_cons, !foldr_cons. by f_equal. }
  rewrite H, foldr_max_seqZ by lia. case_decide; lia.
Qed.

Lemma agent_numbers_cons token e events :
  agent_numbers token (e :: events) =
    match agent_number token e with
    | Some n => n :: agent_numbers token events
    | None => agent_numbers token events
    end.
Proof. done. Qed.

Lemma next_agent_length token events :
  agent_numbers token events = seqZ 1 (Z.of_nat (length (agent_numbers token events))) →
  next_agent_sequence token events = 1 + Z.of_nat (length (agent_numbers token events)).
Proof.
  intros H. unfold next_agent_sequence.
  assert (foldr (λ e acc, match er_agent e with
                  | Some (t, n) => if bool_decide (t = token) then Z.max n acc else acc
                  | None => acc end) 0 events = foldr Z.max 0 (agent_numbers token events)) as ->.
  { clear. induction events as [|e events IH]; [done|]. rewrite agent_numbers_cons, foldr_cons.
    unfold agent_number. destruct (er_agent e) as [[t n]|]; [|done].
    case_bool_decide; [|done]. rewrite foldr_cons. by f_equal. }
  rewrite H at 1. rewrite foldr_max_seqZ by lia. case_decide; lia.
Qed.

(** A change without an event keeps the state. *)
Lemma row_change_quiet row events row' :
  tr_spec row' = tr_spec row → tr_state row' = tr_state row → (row_ok row → row_ok row') →
  tr_execution_token row' = tr_execution_token row →
  tr_assigned_server_id row' = tr_assigned_server_id row →
  row_change row events row' events.
Proof.
  intros H1 H2 H3 H4 H5. split; try done. exists []. rewrite app_nil_r. by rewrite H2.
Qed.

(** A change recorded by one event with the numbers the statements compute. *)
Lemma row_change_event row events row' e :
  history_ok row events →
  tr_spec row' = tr_spec row → (row_ok row → row_ok row') →
  tr_execution_token row' = tr_execution_token row →
  tr_assigned_server_id row' = tr_assigned_server_id row →
  er_sequence e = next_sequence events →
  (∀ token n, er_agent e = Some (token, n) → n = next_agent_sequence token events) →
  er_state e = tr_state row' → transition (tr_state row) (tr_state row') = true →
  row_change row events row' (events ++ [e]).
Proof.
  intros [Hs Ha _] H1 H2 H3 H4 H5 H6 H7 H8. split; try done. exists [e]. split_and!.
  - done.
  - simpl. rewrite H5, next_sequence_length by done. by rewrite seqZ_cons, seqZ_nil by lia.
  - intros token. rewrite agent_numbers_cons. unfold agent_number.
    destruct (er_agent e) as [[t n]|] eqn:E; [|done]. case_bool_decide; [|done]. subst t. simpl.
    rewrite (H6 _ _ eq_refl), next_agent_length by done. by rewrite seqZ_cons, seqZ_nil by lia.
  - simpl. by rewrite H7.
Qed.

Lemma row_change_trans r1 e1 r2 e2 r3 e3 :
  row_change r1 e1 r2 e2 → row_change r2 e2 r3 e3 → row_change r1 e1 r3 e3.
Proof.
  intros [A1 A2 A3 A4 (n1 & -> & A5 & A6 & A7)] [B1 B2 B3 B4 (n2 & -> & B5 & B6 & B7)].
  split; [congruence|auto|congruence|congruence|]. exists (n1 ++ n2). split_and!.
  - by rewrite app_assoc.
  - rewrite fmap_app, A5, B5, !length_app, Nat2Z.inj_add. apply seqZ_snoc_app.
  - intros token. rewrite !agent_numbers_app, A6 at 1. rewrite B6 at 1.
    rewrite agent_numbers_app, !length_app, !Nat2Z.inj_add, Z.add_assoc.
    rewrite seqZ_snoc_app. f_equal. rewrite <-(Nat2Z.inj_add (length _)). done.
  - rewrite fmap_app. by eapply legal_app.
Qed.

Lemma run_change_refl row events :
  run_change row events row events.
Proof. destruct row; simpl; [|done]. by apply row_change_quiet. Qed.

Lemma lease_evolves_refl l : lease_evolves l l.
Proof. by split. Qed.

Lemma lease_change_refl d (runs' : gmap string RunRow) :
  wf_db d →
  (∀ id row row', task_runs d !! id = Some row → runs' !! id = Some row' →
     occupied (tr_state row) = true → occupied (tr_state row') = true) →
  ∀ id, lease_change runs' (resource_leases d !! id) (resource_leases d !! id).
Proof.
  intros Hw H id. destruct (resource_leases d !! id) as [l|] eqn:E; [|done].
  split; [apply lease_evolves_refl|]. intros Hn row' Hrow'.
  destruct (wf_leases _ Hw) as (L1 & L2 & _). destruct (L1 _ _ E) as [row Hrow].
  eapply H; [exact Hrow|exact Hrow'|]. by eapply L2.
Qed.

Lemma release_leases_lookup run at_ d id :
  resource_leases (release_leases run at_ d) !! id =
    (λ l, if open_lease run l then l <| rl_released_at := Some at_ |> else l) <$> resource_leases d !! id.
Proof. apply lookup_fmap. Qed.

Lemma open_lease_true run l : open_lease run l = true ↔ rl_task_run_id l = run ∧ rl_released_at l = None.
Proof. unfold open_lease. by rewrite andb_true_iff, !bool_decide_eq_true. Qed.

Lemma lease_change_release d run at_ (runs' : gmap string RunRow) :
  wf_db d →
  (∀ id row row', id ≠ run → task_runs d !! id = Some row → runs' !! id = Some row' →
     occupied (tr_state row) = true → occupied (tr_state row') = true) →
  ∀ id, lease_change runs' (resource_leases d !! id) (resource_leases (release_leases run at_ d) !! id).
Proof.
  intros Hw H id. rewrite release_leases_lookup.
  destruct (resource_leases d !! id) as [l|] eqn:E; [|done]. simpl.
  destruct (open_lease run l) eqn:Eo.
  - apply open_lease_true in Eo as [Er En]. split; [split|]; simpl; [done| |done].
    rewrite En. by intros [? ?].
  - split; [apply lease_evolves_refl|]. intros Hn row' Hrow'.
    destruct (wf_leases _ Hw) as (L1 & L2 & _). destruct (L1 _ _ E) as [row Hrow].
    eapply H; [|exact Hrow|exact Hrow'|by eapply L2]. intros Er.
    by rewrite (proj2 (open_lease_true _ _)) in Eo.
Qed.

(** A change of one run. *)
Lemma single_runs d id row row' events' i :
  task_runs d !! id = Some row → row_change row (events_of d id) row' events' →
  run_change (task_runs d !! i) (events_of d i) (<[id := row']> (task_runs d) !! i)
    (if decide (i = id) then events' else events_of d i).
Proof.
  intros H Hc. destruct (decide (i = id)) as [->|Hne].
  - by rewrite H, lookup_insert_eq.
  - rewrite lookup_insert_ne by done. apply run_change_refl.
Qed.

Lemma single_change d d' id row row' events' :
  wf_db d → task_runs d !! id = Some row →
  task_runs d' = <[id := row']> (task_runs d) →
  (∀ i, events_of d' i = if decide (i = id) then events' else events_of d i) →
  row_change row (events_of d id) row' events' →
  (resource_leases d' = resource_leases d ∧
     (occupied (tr_state row) = true → occupied (tr_state row') = true) ∨
   ∃ at_, resource_leases d' = resource_leases (release_leases id at_ d)) →
  db_change d d'.
Proof.
  intros Hw Hrow Hr He Hc Hl. split.
  - intros i. rewrite Hr, He. by apply single_runs with row.
  - rewrite Hr. destruct Hl as [[Hl Ho]|[at_ Hl]]; rewrite Hl.
    + apply lease_change_refl; [done|]. intros i r r' H H'.
      apply lookup_insert_Some in H' as [[<- <-]|[_ H']]; [|congruence].
      assert (r = row) as -> by congruence. done.
    + apply lease_change_release; [done|]. intros i r r' Hne H H'.
      rewrite lookup_insert_ne in H' by done. congruence.
Qed.

(** The first event of a new run. *)
Lemma history_first spec at0 type payload at_ :
  history_ok (new_run spec at0) [mkEventRow 0 type Queued payload at_ None].
Proof. split; [done|done|]. by exists Queued, []. Qed.

(** ** The other shapes *)

(** Tables that hold no runs, events or leases are free to change. *)
Lemma sound_other d d' :
  task_runs d' = task_runs d → run_events d' = run_events d → resource_leases d' = resource_leases d →
  sound d d'.
Proof.
  intros H1 H2 H3 Hw.
  assert (∀ i, events_of d' i = events_of d i) as He by (intros; unfold events_of; by rewrite H2).
  split; [split; rewrite ?H1, ?H3; try apply Hw|split].
  - intros id. rewrite He. apply Hw.
  - intros id row H. exists row. rewrite H1, He. split; [done|]. split; [done|constructor|done].
  - intros id l H. exists l. rewrite H3. split; [done|]. apply lease_evolves_refl.
Qed.

(** A new run with its first event. *)
Lemma sound_insert d d' id row events :
  task_runs d !! id = None →
  task_runs d' = <[id := row]> (task_runs d) →
  (∀ i, events_of d' i = if decide (i = id) then events else events_of d i) →
  resource_leases d' = resource_leases d →
  row_ok row → history_ok row events → tr_execution_token row = None →
  (∀ root, rs_retry_of (tr_spec row) = Some root →
     (∃ first, task_runs d !! root = Some first ∧ rs_retry_of (tr_spec first) = None) ∧
     ∀ i r, task_runs d !! i = Some r → root_of i r = root →
       rs_attempt (tr_spec r) ≠ rs_attempt (tr_spec row)) →
  (∀ time i r, rs_scheduled_for (tr_spec row) = Some time → task_runs d !! i = Some r →
     rs_task_definition_id (tr_spec r) = rs_task_definition_id (tr_spec row) →
     rs_scheduled_for (tr_spec r) ≠ Some time) →
  sound d d'.
Proof.
  intros Hn Hr He Hl Hok Hh Htok Hlin Hfire Hw.
  assert (∀ i r, task_runs d !! i = Some r → i ≠ id) as Hne by congruence.
  assert (∀ i r, task_runs d !! i = Some r → root_of i r ≠ root_of id row ∨
            rs_attempt (tr_spec r) ≠ rs_attempt (tr_spec row)) as Hfresh.
  { intros i r H. destruct (rs_retry_of (tr_spec row)) as [root|] eqn:E.
    - destruct (Hlin root eq_refl) as [_ H2]. unfold root_of at 2. rewrite E. simpl.
      destruct (decide (root_of i r = root)); [right; by eapply H2|by left].
    - left. unfold root_of at 2. rewrite E. simpl. unfold root_of.
      destruct (rs_retry_of (tr_spec r)) as [root|] eqn:E2; simpl; [|by eapply Hne].
      destruct (proj1 (wf_lineage _ Hw) _ _ _ H E2) as (first & Hf & _). intros ->. congruence. }
  split; [split|split].
  - intros i. rewrite Hr, He. destruct (decide (i = id)) as [->|Hd].
    + by rewrite lookup_insert_eq.
    + rewrite lookup_insert_ne by done. apply Hw.
  - rewrite Hl, Hr. destruct (wf_leases _ Hw) as (L1 & L2 & L3). split_and!; [| |exact L3].
    + intros lid l H. apply lookup_insert_is_Some. destruct (decide (id = rl_task_run_id l)); [by left|].
      right. split; [done|by eapply L1].
    + intros lid l r H Hnone H'. destruct (L1 _ _ H) as [r0 H0].
      apply lookup_insert_Some in H' as [[E _]|[_ H']]; [|by eapply L2].
      rewrite <-E in H0. congruence.
  - rewrite Hr. destruct (wf_lineage _ Hw) as [L1 L2]. split.
    + intros i r root H E. apply lookup_insert_Some in H as [[<- <-]|[_ H]].
      * destruct (Hlin _ E) as ((first & Hf & Hf') & _). exists first.
        rewrite lookup_insert_ne by (symmetry; by eapply Hne). done.
      * destruct (L1 _ _ _ H E) as (first & Hf & Hf'). exists first.
        rewrite lookup_insert_ne by (symmetry; by eapply Hne). done.
    + intros i1 i2 r1 r2 H1 H2 Hroot Hatt.
      apply lookup_insert_Some in H1 as [[<- <-]|[_ H1]];
        apply lookup_insert_Some in H2 as [[<- <-]|[_ H2]]; [done| | |by eapply L2].
      * by destruct (Hfresh _ _ H2).
      * by destruct (Hfresh _ _ H1).
  - rewrite Hr. intros i1 i2 r1 r2 t H1 H2 T1 T2.
    apply lookup_insert_Some in H1 as [[<- <-]|[_ H1]]; [congruence|].
    apply lookup_insert_Some in H2 as [[<- <-]|[_ H2]]; [congruence|].
    by eapply (wf_tokens _ Hw).
  - rewrite Hr. intros i1 i2 r1 r2 t H1 H2 D T1 T2.
    apply lookup_insert_Some in H1 as [[<- <-]|[_ H1]];
      apply lookup_insert_Some in H2 as [[<- <-]|[_ H2]]; [done| | |by eapply (wf_firings _ Hw)].
    + by destruct (Hfire _ _ _ T1 H2 (eq_sym D)).
    + by destruct (Hfire _ _ _ T2 H1 D).
  - intros i r H. exists r. rewrite Hr, He, lookup_insert_ne by (symmetry; by eapply Hne).
    rewrite decide_False by (by eapply Hne). split; [done|]. split; [done|constructor|done].
  - intros lid l H. exists l. rewrite Hl. split; [done|apply lease_evolves_refl].
Qed.

(** A queued run gets a server, a fresh token and a lease. *)
Lemma sound_assign d d' id row row' lid l token e :
  task_runs d !! id = Some row → tr_state row = Queued →
  task_runs d' = <[id := row']> (task_runs d) →
  (∀ i, events_of d' i = if decide (i = id) then events_of d id ++ [e] else events_of d i) →
  resource_leases d' = <[lid := l]> (resource_leases d) → resource_leases d !! lid = None →
  rl_task_run_id l = id → rl_released_at l = None →
  tr_spec row' = tr_spec row → tr_state row' = Assigned →
  tr_assigned_server_id row' = Some (rl_server_id l) → tr_execution_token row' = Some token →
  tr_process_confirmed_gone row' = false →
  (∀ i r, i ≠ id → task_runs d !! i = Some r → tr_execution_token r ≠ Some token) →
  er_sequence e = next_sequence (events_of d id) → er_agent e = None → er_state e = Assigned →
  sound d d'.
Proof.
  intros Hrow Hq Hr He Hl Hlid Hlr Hlo Hspec Hst Hsrv Htok Hgone Hfresh Hseq Hag Hes Hw.
  assert (∀ i, tr_spec <$> task_runs d' !! i = tr_spec <$> task_runs d !! i) as Hs.
  { intros i. rewrite Hr. destruct (decide (i = id)) as [->|]; [|by rewrite lookup_insert_ne].
    rewrite lookup_insert_eq, Hrow. simpl. by rewrite Hspec. }
  pose proof (wf_runs _ Hw id) as Hid. rewrite Hrow in Hid.
  destruct Hid as [[Hso _ _ _] Hh].
  (* the history as if the token and the server had been there before *)
  set (row0 := row' <| tr_state := Queued |>).
  assert (row_change row0 (events_of d id) row' (events_of d id ++ [e])) as Hc.
  { apply row_change_event; simpl; rewrite ?Hst; try done.
    - destruct Hh as [? ? Hp]. split; [done|done|]. simpl. by rewrite Hq in Hp.
    - intros [S1 S2 S3 S4]. split; [done|by rewrite Hst| |].
      + by rewrite Hsrv, Htok.
      + by rewrite Hgone.
    - by rewrite Hag. }
  assert (history_ok row0 (events_of d id)) as Hh0.
  { destruct Hh as [? ? Hp]. split; [done|done|]. simpl. by rewrite Hq in Hp. }
  split; [split|split].
  - intros i. rewrite Hr, He. destruct (decide (i = id)) as [->|Hd].
    + rewrite lookup_insert_eq. split; [|by eapply history_change]. split.
      * by rewrite Hspec.
      * by rewrite Hst.
      * by rewrite Hsrv, Htok.
      * by rewrite Hgone.
    + rewrite lookup_insert_ne by done. apply Hw.
  - rewrite Hr, Hl. destruct (wf_leases _ Hw) as (L1 & L2 & L3).
    assert (∀ i l0, resource_leases d !! i = Some l0 → rl_released_at l0 = None → rl_task_run_id l0 ≠ id) as Hnone.
    { intros i l0 H Hn E. rewrite <-E in Hrow. destruct (L2 _ _ _ H Hn Hrow) as [Ho _]. by rewrite Hq in Ho. }
    split_and!.
    + intros i l0 H. apply lookup_insert_is_Some.
      apply lookup_insert_Some in H as [[<- <-]|[_ H]]; [by left|].
      destruct (decide (id = rl_task_run_id l0)); [by left|]. right. split; [done|by eapply L1].
    + intros i l0 r H Hn H'. apply lookup_insert_Some in H as [[<- <-]|[_ H]].
      * rewrite Hlr, lookup_insert_eq in H'. simplify_eq. by rewrite Hst.
      * rewrite lookup_insert_ne in H' by (symmetry; by eapply Hnone). by eapply L2.
    + intros i1 i2 l1 l2 H1 H2 N1 N2 E.
      apply lookup_insert_Some in H1 as [[<- <-]|[_ H1]];
        apply lookup_insert_Some in H2 as [[<- <-]|[_ H2]]; [done| | |by eapply L3].
      * by destruct (Hnone _ _ H2 N2); rewrite <-E.
      * by destruct (Hnone _ _ H1 N1); rewrite E.
  - apply (lineage_specs _ _ Hs), Hw.
  - rewrite Hr. intros i1 i2 r1 r2 t H1 H2 T1 T2.
    apply lookup_insert_Some in H1 as [[<- <-]|[? H1]];
      apply lookup_insert_Some in H2 as [[<- <-]|[? H2]]; [done| | |by eapply (wf_tokens _ Hw)].
    + rewrite Htok in T1. simplify_eq. by destruct (Hfresh i2 r2).
    + rewrite Htok in T2. simplify_eq. by destruct (Hfresh i1 r1).
  - apply (lineage_specs _ _ Hs), Hw.
  - intros i r H. rewrite Hr, He. destruct (decide (i = id)) as [->|Hd].
    + assert (r = row) as -> by congruence. exists row'. rewrite lookup_insert_eq. split; [done|].
      split; [done| |by exists [e]]. rewrite Hq, Hst. by apply rtc_once.
    + exists r. rewrite lookup_insert_ne by done. split; [done|]. split; [done|constructor|done].
  - intros i l0 H. rewrite Hl. exists l0. rewrite lookup_insert_ne by congruence.
    split; [done|apply lease_evolves_refl].
Qed.
