(* ===== verification/RunEvents.v ===== *)
(** * RunEvents

    The events agents report about their executions: [internal/task/event_service.go]
    and [internal/task/usage.go], with [appendSystemRunEvent] of
    [internal/task/reconcile.go] that the other components use to record their own
    events. *)

From S2P Require Import Prelude GoStd Model World Schema Session Lifecycle.

Section events.
Context {C : Type} `{!Has DB C}.

(** ** reconcile.go: appendSystemRunEvent *)

Definition appendSystemRunEvent (runID eventType : string) (state : RunState) (payload : Payload) (at_ : Time)
  : Tx C unit :=
  exec "写入任务对账事件" (append_event runID eventType state payload at_ None).

(** ** event_service.go *)

Definition validAgentTransition (from to : RunState) : bool :=
  if bool_decide (from = to) then true
  else if bool_decide (to = Running) then
    bool_decide (from = Assigned) || bool_decide (from = Syncing) || bool_decide (from = Unknown)
  else Terminal to && (bool_decide (from = Assigned) || bool_decide (from = Syncing) ||
                       bool_decide (from = Running) || bool_decide (from = Unknown)).

Definition stateForAgentEvent (eventType : string) : option RunState :=
  if bool_decide (eventType = "started") then Some Running
  else if bool_decide (eventType = "succeeded") then Some Succeeded
  else if bool_decide (eventType = "failed") then Some Failed
  else if bool_decide (eventType = "timed_out") then Some TimedOut
  else if bool_decide (eventType = "cancelled") then Some Cancelled
  else None.

(** The comparison of a repeated event with the saved one. *)
Definition event_conflict (saved : EventRow) (event : RunEvent) : bool :=
  negb (bool_decide (er_event_type saved = String.append "run." (ev_Type event))) ||
  negb (default 0 (pl_exitCode (er_payload saved)) =? ev_ExitCode event) ||
  negb (bool_decide (default "" (pl_message (er_payload saved)) = ev_Message event)) ||
  negb (usage_Equal (pl_usage (er_payload saved)) (ev_Usage event)).

(** The payload stored with an agent event. *)
Definition event_payload (event : RunEvent) (currentState state : RunState) : Payload :=
  mkPayload (Some (ev_Message event)) (Some (ev_ExitCode event)) (ev_Usage event)
    (Some (negb (Terminal currentState) && (bool_decide (state = Failed) || bool_decide (state = TimedOut))))
    None None None None.

(** [UPDATE task_runs SET state=$2, ...] *)
Definition event_update (event : RunEvent) (state : RunState) (row : RunRow) : RunRow :=
  let finishedAt := if Terminal state then Some (ev_OccurredAt event) else None in
  row <| tr_state := state |>
      <| tr_started_at := (if bool_decide (state = Running)
                           then Some (default (ev_OccurredAt event) (tr_started_at row))
                           else tr_started_at row) |>
      <| tr_finished_at := (match finishedAt with Some t => Some t | None => tr_finished_at row end) |>
      <| tr_exit_code := (match finishedAt with Some _ => Some (ev_ExitCode event) | None => tr_exit_code row end) |>
      <| tr_process_confirmed_gone := (match finishedAt with Some _ => true | None => false end) |>
      <| tr_updated_at := ev_OccurredAt event |>.

Definition ApplyRunEvent (event : RunEvent) (state : RunState) : Prog C bool :=
  let id := ev_RunID event in
  transaction "开始任务事件事务" (
    let! current := query "锁定任务运行实例" (λ d,
      (λ row, (default "" (tr_execution_token row), tr_state row)) <$> task_runs d !! id) in
    match current with
    | None => throw ErrRunNotFound
    | Some (currentToken, currentState) =>
      if negb (bool_decide (currentToken = ev_ExecutionToken event)) then throw ErrExecutionTokenMismatch
      else
        let! existing := query "检查重复任务事件" (λ d,
          List.find (agent_event (ev_ExecutionToken event) (ev_Sequence event)) (events_of d id)) in
        match existing with
        | Some saved => if event_conflict saved event then throw ErrRunEventConflict else ret false
        | None =>
          let! nextSequence := query "读取下一个任务运行事件序号" (λ d,
            next_agent_sequence (ev_ExecutionToken event) (events_of d id)) in
          if negb (ev_Sequence event =? nextSequence) then throw ErrRunEventSequence
          else if negb (validAgentTransition currentState state) then throw ErrInvalidRunEvent
          else
            exec "保存任务运行事件" (append_event id (String.append "run." (ev_Type event)) state
              (event_payload event currentState state) (ev_OccurredAt event)
              (Some (ev_ExecutionToken event, ev_Sequence event))) ;;!
            exec "更新任务运行状态" (λ d, Some (update_run id (event_update event state) d)) ;;!
            (if Terminal state
             then exec "释放任务资源租约" (λ d, Some (release_leases id (ev_OccurredAt event) d))
             else ret tt) ;;!
            commit "提交任务运行事件" ;;!
            ret true
        end
    end).

(** [EventService.Apply]; the service and its store are present. *)
Definition Apply (event : RunEvent) : Prog C unit :=
  match stateForAgentEvent (ev_Type event) with
  | Some state =>
    if bool_decide (TrimSpace (ev_RunID event) = "") || bool_decide (TrimSpace (ev_ExecutionToken event) = "") ||
       (ev_Sequence event =? 0) ||
       (match ev_Usage event with Some _ => negb (usage_Valid (ev_Usage event)) | None => false end)
    then throw ErrInvalidRunEvent
    else
      let! event := (if is_zero_time (ev_OccurredAt event)
                     then let! t := clock_now in ret (event <| ev_OccurredAt := t |>)
                     else ret event) in
      ApplyRunEvent event state ;;!
      ret tt
  | None => throw ErrInvalidRunEvent
  end.

(** ** usage.go *)

Definition sampled_from (at_ : Time) (e : EventRow) : bool :=
  match pl_usage (er_payload e) with Some u => at_ <=? SampledAt u | None => false end.

Definition saveRunUsage (runID : string) (usage : option ResourceUsage) : Tx C unit :=
  if negb (usage_Valid usage) then ret tt
  else
    match usage with
    | None => ret tt
    | Some u =>
      let! fresh := query "读取资源采样时间" (λ d, negb (existsb (sampled_from (SampledAt u)) (events_of d runID))) in
      if negb fresh then ret tt
      else appendSystemRunEvent runID "run.usage" Running (no_payload <| pl_usage := Some u |>) (SampledAt u)
    end.

(** [ORDER BY sampledAt DESC, sequence DESC LIMIT 1] *)
Definition usage_later (a b : EventRow) : bool :=
  let t e := match pl_usage (er_payload e) with Some u => SampledAt u | None => 0 end in
  (t b <? t a) || ((t a =? t b) && (er_sequence b <? er_sequence a)).

Definition latest_usage (events : list EventRow) : option ResourceUsage :=
  match stable_sort usage_later (filter (λ e, is_Some (pl_usage (er_payload e))) events) with
  | [] => None
  | e :: _ => pl_usage (er_payload e)
  end.

Definition loadUsage (runID : string) : Prog C (option ResourceUsage) :=
  pool_query "" (λ d, latest_usage (events_of d runID)).

(** [saveRunUsage] adds nothing, or one sample. *)
Lemma wp_saveRunUsage runID usage (c : C) d Q :
  (∀ context d1, Q (Err (EStorage context)) (c, d1)) →
  Q (Ok tt) (c, d) →
  (∀ u d1, usage = Some u → usage_Valid usage = true →
     existsb (sampled_from (SampledAt u)) (events_of d runID) = false →
     append_event runID "run.usage" Running (no_payload <| pl_usage := Some u |>) (SampledAt u) None d = Some d1 →
     Q (Ok tt) (c, d1)) →
  wp (saveRunUsage runID usage) (c, d) Q.
Proof.
  intros He H0 H1. unfold saveRunUsage. destruct (usage_Valid usage) eqn:Ev; simpl; [|by apply wp_ret].
  destruct usage as [u|]; [|by apply wp_ret]. apply wp_bind, wp_query; [done|].
  destruct (existsb _ _) eqn:Ef; simpl; [by apply wp_ret|].
  apply wp_exec; [done|]. intros d1 Hd1. split; [by eapply H1|done].
Qed.

(** ** One event for each of several runs *)

(** [d'] is [d] with one event of the given type and state appended to each run of
    [ids]. *)
Record events_appended (ids : list string) (type : string) (state : RunState) (d d' : DB) : Prop := {
  ea_tables : d' = d <| run_events := run_events d' |>;
  ea_events : ∀ i, if decide (i ∈ ids)
    then ∃ payload at_, events_of d' i =
           events_of d i ++ [mkEventRow (next_sequence (events_of d i)) type state payload at_ None]
    else events_of d' i = events_of d i
}.

Lemma wp_append_each ids type state (body : string → Tx C unit) (c : C) d Q :
  NoDup ids →
  (∀ id d Q', (∀ context d1, Q' (Err (EStorage context)) (c, d1)) →
     (∀ payload at_ d1, append_event id type state payload at_ None d = Some d1 → Q' (Ok tt) (c, d1)) →
     wp (body id) (c, d) Q') →
  (∀ context d1, Q (Err (EStorage context)) (c, d1)) →
  (∀ d', events_appended ids type state d d' → Q (Ok tt) (c, d')) →
  wp (for_each ids body) (c, d) Q.
Proof.
  intros Hnd Hbody He. revert d. induction ids as [|id ids IH]; intros d Hok; simpl.
  - apply wp_ret, Hok. split; [by destruct d|]. intros i. by rewrite decide_False by set_solver.
  - apply NoDup_cons in Hnd as [Hnin Hnd]. apply wp_bind, Hbody; [done|].
    intros payload at_ d1 [_ ->]%append_event_inv. apply IH; [done|].
    intros d' [Ht Hev]. apply Hok. split.
    + rewrite Ht. done.
    + intros i. specialize (Hev i). destruct (decide (i ∈ ids)) as [Hin|Hin].
      * rewrite decide_True by set_solver. rewrite events_of_insert, decide_False in Hev by set_solver. done.
      * rewrite events_of_insert in Hev. destruct (decide (i = id)) as [->|].
        -- rewrite decide_True by set_solver. eauto.
        -- by rewrite decide_False by set_solver.
Qed.

(** Several runs change state by one statement and get one event each. *)
Lemma batch_change where_ set type state d d' :
  wf_db d →
  events_appended (matching_runs where_ d) type state (update_runs_where where_ set d).1 d' →
  (∀ row, where_ row = true →
     tr_spec (set row) = tr_spec row ∧ tr_execution_token (set row) = tr_execution_token row ∧
     tr_assigned_server_id (set row) = tr_assigned_server_id row ∧ (row_ok row → row_ok (set row)) ∧
     tr_state (set row) = state ∧ transition (tr_state row) state = true ∧
     (occupied (tr_state row) = true → occupied state = true)) →
  db_change d d'.
Proof.
  intros Hw [Ht He] Hset.
  assert (∀ i, task_runs d' !! i = (λ row, if where_ row then set row else row) <$> task_runs d !! i) as Hruns.
  { intros i. rewrite <-(update_runs_where_lookup where_ set). by rewrite Ht. }
  assert (resource_leases d' = resource_leases d) as Hl by (by rewrite Ht).
  split.
  - intros i. specialize (He i). rewrite Hruns. pose proof (wf_runs _ Hw i) as Hrun.
    destruct (task_runs d !! i) as [row|] eqn:Erow; simpl.
    + destruct (where_ row) eqn:Ew.
      * rewrite decide_True in He by (apply elem_of_matching_runs; eauto).
        destruct He as (payload & at_ & ->). destruct (Hset _ Ew) as (H1 & H2 & H3 & H4 & H5 & H6 & _).
        apply row_change_event; try done; [apply Hrun|by rewrite H5].
      * rewrite decide_False in He.
        -- rewrite He. by apply row_change_quiet.
        -- intros (row' & E & ?)%elem_of_matching_runs. congruence.
    + rewrite decide_False in He; [done|]. intros (row' & E & ?)%elem_of_matching_runs. congruence.
  - rewrite Hl. apply lease_change_refl; [done|]. intros i row row' H H'.
    rewrite Hruns, H in H'. simpl in H'. simplify_eq. destruct (where_ row) eqn:Ew; [|done].
    destruct (Hset _ Ew) as (_ & _ & _ & _ & -> & _ & Ho). done.
Qed.

(** ** What an accepted event does *)

(** The tables after an accepted event. *)
Definition event_tables (event : RunEvent) (state : RunState) (row : RunRow) (d : DB) : DB :=
  let id := ev_RunID event in
  let d1 := d <| run_events ::= <[id := events_of d id ++
               [mkEventRow (next_sequence (events_of d id)) (String.append "run." (ev_Type event)) state
                  (event_payload event (tr_state row) state) (ev_OccurredAt event)
                  (Some (ev_ExecutionToken event, ev_Sequence event))]]> |> in
  let d2 := update_run id (event_update event state) d1 in
  if Terminal state then release_leases id (ev_OccurredAt event) d2 else d2.

Definition event_acceptable (event : RunEvent) (state : RunState) (row : RunRow) (d : DB) : Prop :=
  task_runs d !! ev_RunID event = Some row ∧
  default "" (tr_execution_token row) = ev_ExecutionToken event ∧
  ev_Sequence event = next_agent_sequence (ev_ExecutionToken event) (events_of d (ev_RunID event)) ∧
  validAgentTransition (tr_state row) state = true.

Lemma stateForAgentEvent_cases type state :
  stateForAgentEvent type = Some state →
  state = Running ∨ state = Succeeded ∨ state = Failed ∨ state = TimedOut ∨ state = Cancelled.
Proof. unfold stateForAgentEvent. repeat case_bool_decide; naive_solver. Qed.

Lemma agent_transition type from to :
  stateForAgentEvent type = Some to → validAgentTransition from to = true →
  transition from to = true ∧ (to = Running → occupied from = true).
Proof.
  intros H%stateForAgentEvent_cases. unfold validAgentTransition.
  destruct from; naive_solver.
Qed.

Lemma event_update_ok event type from_row state :
  stateForAgentEvent type = Some state → validAgentTransition (tr_state from_row) state = true →
  row_ok from_row → row_ok (event_update event state from_row).
Proof.
  intros Hs Hv [R1 R2 R3 R4]. destruct (agent_transition _ _ _ Hs Hv) as [_ Ho].
  apply stateForAgentEvent_cases in Hs as [->|[->|[->|[->| ->]]]]; split; simpl; try done; eauto.
Qed.

Lemma event_tables_sound event state row d :
  stateForAgentEvent (ev_Type event) = Some state → event_acceptable event state row d →
  sound d (event_tables event state row d).
Proof.
  intros Hs (Hrow & Htok & Hseq & Hv) Hw. revert Hw. change (sound d (event_tables event state row d)).
  intros Hw. refine (db_change_sound _ _ _ Hw).
  pose proof (wf_runs _ Hw (ev_RunID event)) as Hrun. rewrite Hrow in Hrun. destruct Hrun as [_ Hh].
  destruct (agent_transition _ _ _ Hs Hv) as [Ht Ho].
  assert (task_runs (event_tables event state row d) =
    <[ev_RunID event := event_update event state row]> (task_runs d)) as Hruns.
  { unfold event_tables. destruct (Terminal state); simpl;
      apply (update_run_insert _ (event_update event state) d row Hrow). }
  set (e := mkEventRow (next_sequence (events_of d (ev_RunID event))) (String.append "run." (ev_Type event)) state
    (event_payload event (tr_state row) state) (ev_OccurredAt event)
    (Some (ev_ExecutionToken event, ev_Sequence event))).
  apply single_change with (ev_RunID event) row (event_update event state row) (events_of d (ev_RunID event) ++ [e]);
    [done|done|done| |apply row_change_event; try done|].
  - intros i. unfold event_tables. rewrite <-events_of_insert. by destruct (Terminal state).
  - by eapply event_update_ok.
  - simpl. by intros token n [= <- <-].
  - unfold event_tables. destruct (Terminal state) eqn:E.
    + right. by exists (ev_OccurredAt event).
    + left. split; [done|]. intros _. simpl.
      by apply stateForAgentEvent_cases in Hs as [->|[->|[->|[->| ->]]]].
Qed.

(** The tables of an execution whose event is new. *)
Lemma find_agent_event_none token sequence events :
  sequence = next_agent_sequence token events →
  List.find (agent_event token sequence) events = None.
Proof.
  intros ->. destruct (List.find _ events) as [e|] eqn:E; [|done].
  apply find_some in E as [Hin He]. unfold agent_event in He. apply bool_decide_eq_true in He.
  apply list_elem_of_In in Hin. pose proof (next_agent_above _ _ _ _ Hin He). lia.
Qed.

(** The complete behaviour of [ApplyRunEvent], failures included. *)
Definition ApplyRunEvent_post (event : RunEvent) (state : RunState) (d : DB) (r : Result bool) (d' : DB) : Prop :=
  match r with
  | Ok true => ∃ row, event_acceptable event state row d ∧ d' = event_tables event state row d
  | Ok false =>
    d' = d ∧ ∃ row saved, task_runs d !! ev_RunID event = Some row ∧
      default "" (tr_execution_token row) = ev_ExecutionToken event ∧
      List.find (agent_event (ev_ExecutionToken event) (ev_Sequence event)) (events_of d (ev_RunID event)) = Some saved ∧
      event_conflict saved event = false
  | Err ErrRunNotFound => d' = d ∧ task_runs d !! ev_RunID event = None
  | Err ErrExecutionTokenMismatch =>
    d' = d ∧ ∃ row, task_runs d !! ev_RunID event = Some row ∧
      default "" (tr_execution_token row) ≠ ev_ExecutionToken event
  | Err ErrRunEventConflict =>
    d' = d ∧ ∃ saved,
      List.find (agent_event (ev_ExecutionToken event) (ev_Sequence event)) (events_of d (ev_RunID event)) = Some saved ∧
      event_conflict saved event = true
  | Err ErrRunEventSequence =>
    d' = d ∧
    List.find (agent_event (ev_ExecutionToken event) (ev_Sequence event)) (events_of d (ev_RunID event)) = None ∧
    ev_Sequence event ≠ next_agent_sequence (ev_ExecutionToken event) (events_of d (ev_RunID event))
  | Err ErrInvalidRunEvent =>
    d' = d ∧ ∃ row, task_runs d !! ev_RunID event = Some row ∧ validAgentTransition (tr_state row) state = false
  | Err (EStorage _) =>
    d' = d ∨ ∃ row, event_acceptable event state row d ∧ d' = event_tables event state row d
  | Err _ => False
  end.

Lemma ApplyRunEvent_spec event state :
  db_spec (ApplyRunEvent event state) (ApplyRunEvent_post event state).
Proof.
  apply db_spec_transaction; [by left|]. intros c.
  repeat tx_step; try (by left); tx_facts; append_facts; simpl; try (by eauto 10).
  all: try right; exists x; (split; [done|]); unfold event_tables; by rewrite Hcase5.
Qed.

Lemma ApplyRunEvent_sound event state :
  stateForAgentEvent (ev_Type event) = Some state →
  db_spec (ApplyRunEvent event state) (λ d _ d', sound d d').
Proof.
  intros Hs. eapply db_spec_mono; [apply ApplyRunEvent_spec|]. intros d r d' H.
  assert (d' = d ∨ ∃ row, event_acceptable event state row d ∧ d' = event_tables event state row d)
    as [->|(row & Ha & ->)].
  { destruct r as [[]|[]]; simpl in H; naive_solver. }
  - reflexivity.
  - by apply event_tables_sound.
Qed.

(** [EventService.Apply] keeps the tables well formed. *)
Lemma Apply_sound event : db_spec (Apply event) (λ d _ d', sound d d').
Proof.
  unfold Apply. destruct (stateForAgentEvent (ev_Type event)) as [state|] eqn:Hs;
    [|by apply db_spec_throw].
  code_case; [by apply db_spec_throw|]. intros c. apply wp_bind.
  assert (∀ event', ev_Type event' = ev_Type event →
    wp (ApplyRunEvent event' state ;;! ret tt) c
      (λ _ c', c' = set_part (part c') c ∧ sound (part c) (part c'))) as Hgo.
  { intros event' He. apply wp_bind. eapply wp_mono; [apply ApplyRunEvent_sound; by rewrite He|].
    intros [b|e] c' Hc'; [by apply wp_ret|done]. }
  code_case; [|by apply wp_ret, Hgo].
  apply wp_bind, wp_clock_now. intros t. apply wp_ret. by apply Hgo.
Qed.

(** ** Redelivery *)

Lemma events_of_event_tables event state row d :
  events_of (event_tables event state row d) (ev_RunID event) =
    events_of d (ev_RunID event) ++
      [mkEventRow (next_sequence (events_of d (ev_RunID event))) (String.append "run." (ev_Type event)) state
         (event_payload event (tr_state row) state) (ev_OccurredAt event)
         (Some (ev_ExecutionToken event, ev_Sequence event))].
Proof.
  etrans; [|apply (decide_True (P := ev_RunID event = ev_RunID event)); reflexivity].
  rewrite <-(events_of_insert d). unfold event_tables. by destruct (Terminal state).
Qed.

Lemma find_snoc {A} (f : A → bool) l x :
  List.find f l = None → f x = true → List.find f (l ++ [x]) = Some x.
Proof. induction l as [|y l IH]; simpl; [by intros _ ->|]. by destruct (f y). Qed.

(** A second delivery finds the event recorded by the first. *)
Lemma event_tables_replay event state row d r d2 :
  event_acceptable event state row d →
  ApplyRunEvent_post event state (event_tables event state row d) r d2 →
  d2 = event_tables event state row d ∧ (r = Ok false ∨ ∃ context, r = Err (EStorage context)).
Proof.
  intros (Hrow & Htok & Hseq & Hv) Hpost.
  set (saved := mkEventRow (next_sequence (events_of d (ev_RunID event))) (String.append "run." (ev_Type event)) state
         (event_payload event (tr_state row) state) (ev_OccurredAt event)
         (Some (ev_ExecutionToken event, ev_Sequence event))).
  set (d1 := event_tables event state row d) in *.
  assert (List.find (agent_event (ev_ExecutionToken event) (ev_Sequence event)) (events_of d1 (ev_RunID event))
    = Some saved) as Hfind.
  { unfold d1. rewrite events_of_event_tables. apply find_snoc; [by apply find_agent_event_none|].
    unfold agent_event. by rewrite bool_decide_true. }
  assert (event_conflict saved event = false) as Hsame.
  { unfold event_conflict. simpl. rewrite !bool_decide_true, Z.eqb_refl by done.
    by rewrite (proj2 (usage_Equal_eq _ _)). }
  assert (ev_Sequence event ≠ next_agent_sequence (ev_ExecutionToken event) (events_of d1 (ev_RunID event))) as Hne.
  { apply find_some in Hfind as [Hin He]. apply list_elem_of_In in Hin.
    apply bool_decide_eq_true in He. pose proof (next_agent_above _ _ _ _ Hin He). lia. }
  assert (task_runs d1 !! ev_RunID event = Some (event_update event state row)) as Hrow1.
  { assert (task_runs d1 = <[ev_RunID event := event_update event state row]> (task_runs d)) as ->;
      [|apply lookup_insert_eq].
    unfold d1, event_tables. destruct (Terminal state); simpl;
      apply (update_run_insert _ (event_update event state) d row Hrow). }
  assert (∀ row1, ¬ event_acceptable event state row1 d1) as Hna by (intros row1 (_ & _ & H & _); done).
  assert (validAgentTransition (tr_state (event_update event state row)) state = true) as Hvt
    by (unfold validAgentTransition; by rewrite bool_decide_true).
  destruct r as [[]|[]]; simpl in Hpost; try done; try naive_solver; exfalso.
  - destruct Hpost as [_ (row1 & H1 & H2)]. congruence.
  - destruct Hpost as [_ (saved1 & H1 & H2)]. congruence.
Qed.

(** An agent that sends an event again and again until it sees a result. *)
Fixpoint deliver (n : nat) (event : RunEvent) (state : RunState) : Prog C (list (Result bool)) :=
  match n with
  | O => ret []
  | S n =>
    let! r := catch (ApplyRunEvent event state) in
    let! rest := deliver n event state in
    ret (r :: rest)
  end.

(** One delivery of an acceptable event: recorded, or a failure without effect. *)
Lemma deliver_outcome event state row d r d1 :
  event_acceptable event state row d → ApplyRunEvent_post event state d r d1 →
  d1 = event_tables event state row d ∨ d1 = d ∧ is_ok r = false.
Proof.
  intros (Hrow & Htok & Hseq & Hv) Hp.
  pose proof (find_agent_event_none _ _ _ Hseq) as Hf.
  assert (∀ row', event_acceptable event state row' d → row' = row) as Hu.
  { intros row' (H' & _). congruence. }
  destruct r as [[]|e]; simpl in Hp.
  - destruct Hp as (row' & Ha & ->). rewrite (Hu _ Ha). by left.
  - destruct Hp as [_ (r' & saved & _ & _ & Hf' & _)]. congruence.
  - destruct e; try done; try (right; split; [|done]; by destruct Hp).
    destruct Hp as [->|(row' & Ha & ->)]; [by right|]. rewrite (Hu _ Ha). by left.
Qed.

Lemma deliver_spec n event state row (c : C) :
  event_acceptable event state row (part c) →
  wp (deliver n event state) c (λ rs c',
    part c' = event_tables event state row (part c) ∨
    part c' = part c ∧ ∀ rs', rs = Ok rs' → existsb is_ok rs' = false).
Proof.
  intros Ha.
  assert (∀ n c1, part c1 = event_tables event state row (part c) →
    wp (deliver n event state) c1 (λ _ c', part c' = event_tables event state row (part c))) as Hdone.
  { clear n. intros n. induction n as [|n IH]; intros c1 H1; simpl; [by apply wp_ret|].
    apply wp_bind, wp_catch. eapply wp_mono; [apply ApplyRunEvent_spec|].
    intros r c2 [_ Hp]. rewrite H1 in Hp. apply event_tables_replay in Hp as [H2 _]; [|done].
    apply wp_bind. eapply wp_mono; [by apply IH|]. intros [rs|e] c3 H3; [by apply wp_ret|done]. }
  assert (∀ n c1, part c1 = part c →
    wp (deliver n event state) c1 (λ rs c', part c' = event_tables event state row (part c) ∨
      part c' = part c ∧ ∀ rs', rs = Ok rs' → existsb is_ok rs' = false)) as Hgen.
  { clear n. intros n. induction n as [|n IH]; intros c1 H1; simpl.
    { apply wp_ret. right. split; [done|]. by intros rs' [= <-]. }
    apply wp_bind, wp_catch. eapply wp_mono; [apply ApplyRunEvent_spec|].
    intros r c2 [_ Hp]. rewrite H1 in Hp. apply wp_bind.
    destruct (deliver_outcome event state row (part c) r (part c2) Ha Hp) as [H2|[H2 Hr]].
    - eapply wp_mono; [by apply Hdone|]. intros [rs|e] c3 H3; [apply wp_ret|]; by left.
    - eapply wp_mono; [by apply IH|]. intros [rs|e] c3 H3; [apply wp_ret|].
      + destruct H3 as [H3|[H3 Hf]]; [by left|]. right. split; [done|]. intros rs' [= <-]. simpl.
        rewrite Hr. simpl. by apply Hf.
      + destruct H3 as [H3|[H3 Hf]]; [by left|]. right. by split. }
  by apply Hgen.
Qed.

(** ** Properties *)

(** C33: What [ApplyRunEvent] does, in every case and under every failure: it
    commits exactly the tables of the accepted event, reports a repetition of a saved
    event without writing, refuses with the error that names the violated condition
    and without writing, and after a storage failure the event is either recorded
    completely or not at all. *)
Theorem ApplyRunEvent_correct event state :
  db_spec (ApplyRunEvent event state) (ApplyRunEvent_post event state).
Proof. apply ApplyRunEvent_spec. Qed.

(** Delivering an event any number of times, under any failures, records it at
    most once, and it has been recorded as soon as one delivery reported success. *)
Theorem redelivery_exactly_once n event state row (c : C) :
  event_acceptable event state row (part c) →
  wp (deliver n event state) c (λ rs c',
    part c' = event_tables event state row (part c) ∨
    part c' = part c ∧ ∀ rs', rs = Ok rs' → existsb is_ok rs' = false).
Proof. apply deliver_spec. Qed.

(** Without failures an acceptable event is recorded: the constraints of the
    tables never stand in its way. *)
Theorem acceptable_event_recorded event state row (c : C) :
  event_acceptable event state row (part c) →
  succeeds (ApplyRunEvent event state) c true (set_part (event_tables event state row (part c)) c).
Proof.
  intros (Hrow & Htok & Hseq & Hv). eapply succeeds_transaction.
  eapply succeeds_bind; [apply succeeds_query|]. rewrite Hrow. simpl.
  rewrite bool_decide_true by done. simpl. eapply succeeds_bind; [apply succeeds_query|].
  rewrite find_agent_event_none by done. eapply succeeds_bind; [apply succeeds_query|].
  rewrite <-Hseq, Z.eqb_refl, Hv. simpl.
  destruct (append_event_some (ev_RunID event) (String.append "run." (ev_Type event)) state
    (event_payload event (tr_state row) state) (ev_OccurredAt event)
    (Some (ev_ExecutionToken event, ev_Sequence event)) (part c)) as [d1 Hd1];
    [by rewrite Hrow|by intros ? ? [= <- <-]|].
  eapply succeeds_bind; [apply succeeds_exec, Hd1|]. eapply succeeds_bind; [by apply succeeds_exec|].
  apply append_event_inv in Hd1 as [_ ->].
  eapply succeeds_bind.
  { instantiate (2 := tt). instantiate (1 := (c, event_tables event state row (part c))).
    unfold event_tables. destruct (Terminal state); [by apply succeeds_exec|apply succeeds_ret]. }
  eapply succeeds_bind; [apply succeeds_commit|]. apply succeeds_ret.
Qed.

End events.

(** ** Witnesses *)

Definition example_spec : RunSpec :=
  mkRunSpec "def-1" "ver-1" None TriggerManual ∅ None 0 1 None 50 (mkResources 100 1 1) 1 60 0 2 30 true ∅ "bash" 0.

Definition example_row : RunRow :=
  mkRunRow example_spec Assigned (Some "srv-1") (Some 5) None None None "" (Some "tok-1") false 1 (Some 6) "" 6.

Definition example_events : list EventRow :=
  [mkEventRow 0 "run.queued" Queued (message "queued") 0 None;
   mkEventRow 1 "run.assigned" Assigned no_payload 5 None].

Definition example_db : DB :=
  mkDB no_accounts ∅ ∅ {["srv-1" := mkServerRow "one" StatusOnline true false ∅ ["bash"] [] 4 100 "1.0.0" "linux" "amd64" (Some 0) 1 "" "" ""]} [] ∅ ∅ ∅
    {["run-1" := example_row]} {["run-1" := example_events]}
    {["lease-1" := mkLeaseRow "run-1" "srv-1" (mkResources 100 1 1) 600 None 5]} no_logs no_upgrades no_fleet ∅.

Definition example_event : RunEvent := mkRunEvent None "run-1" "tok-1" 1 "failed" 9 3 "boom".

Lemma example_acceptable : event_acceptable example_event Failed example_row example_db.
Proof. by split_and!; vm_compute. Qed.

Lemma redelivery_exactly_once_witness :
  wp (C := DB) (deliver 3 example_event Failed) example_db (λ rs c',
    part c' = event_tables example_event Failed example_row example_db ∨
    part c' = example_db ∧ ∀ rs', rs = Ok rs' → existsb is_ok rs' = false).
Proof. exact (redelivery_exactly_once 3 example_event Failed example_row example_db example_acceptable). Defined.

Lemma acceptable_event_recorded_witness :
  ∃ d', succeeds (ApplyRunEvent example_event Failed) example_db true d' ∧
    (tr_state <$> task_runs d' !! "run-1") = Some Failed ∧
    (rl_released_at <$> resource_leases d' !! "lease-1") = Some (Some 9).
Proof.
  eexists. split; [exact (acceptable_event_recorded example_event Failed example_row example_db example_acceptable)|].
  split; reflexivity.
Defined.
