(* ===== verification/Reconcile.v ===== *)
(** * Reconcile

    [internal/task/reconcile.go]: what the platform concludes when a server goes
    offline, when an agent reports the processes it runs, and when a run is tried
    again, by request or automatically. *)

From S2P Require Import Prelude GoStd Model World Schema Session Lifecycle RunEvents.

Section reconcile.
Context {C : Type} `{!Has DB C}.

(** ** Server offline *)

Definition on_server (serverID : string) (states : RunState → bool) (row : RunRow) : bool :=
  bool_decide (tr_assigned_server_id row = Some serverID) && states (tr_state row).

Definition set_unknown (gone : bool) (at_ : Time) (row : RunRow) : RunRow :=
  row <| tr_state := Unknown |> <| tr_process_confirmed_gone := gone |> <| tr_updated_at := at_ |>.

Definition MarkServerRunsUnknown (serverID : string) (at_ : Time) : Prog C unit :=
  transaction "开始服务器失联对账" (
    let! runIDs := stmt "标记待确认任务" (λ d,
      Some (update_runs_where (on_server serverID active) (set_unknown false at_) d)) in
    for_each runIDs (λ runID,
      appendSystemRunEvent runID "run.unknown" Unknown (message "执行服务器失联，等待代理重连确认") at_) ;;!
    commit "").

(** ** Running report *)

Record candidate : Type := mkItem {
  cd_id : string; cd_token : string; cd_state : RunState; cd_gone : bool
}.

Definition candidates_of (serverID : string) (d : DB) : list candidate :=
  (λ p, mkItem p.1 (default "" (tr_execution_token p.2)) (tr_state p.2) (tr_process_confirmed_gone p.2)) <$>
    filter (λ p, on_server serverID occupied p.2 = true) (map_to_list (task_runs d)).

(** [active[process.RunID] = process.ExecutionToken], and the same for [usages]. *)
Definition reported_tokens (processes : list RunningProcess) : gmap string string :=
  foldl (λ m p, <[rp_RunID p := rp_ExecutionToken p]> m) ∅ processes.
Definition reported_usages (processes : list RunningProcess) : gmap string (option ResourceUsage) :=
  foldl (λ m p, <[rp_RunID p := rp_Usage p]> m) ∅ processes.

Definition set_running (at_ : Time) (row : RunRow) : RunRow :=
  row <| tr_state := Running |> <| tr_process_confirmed_gone := false |> <| tr_updated_at := at_ |>.

(** The body of the loop over the candidates. *)
Definition reconcile_candidate (report : RunningReport) (at_ : Time) (item : candidate) : Tx C unit :=
  let reported := reported_tokens (rr_Processes report) !! cd_id item in
  if bool_decide (reported = Some (cd_token item)) then
    saveRunUsage (cd_id item) (default None (reported_usages (rr_Processes report) !! cd_id item)) ;;!
    exec "恢复运行任务状态" (λ d, Some (update_run (cd_id item) (set_running at_) d)) ;;!
    (if bool_decide (cd_state item = Running) then ret tt
     else appendSystemRunEvent (cd_id item) "run.reconciled" Running (message "代理重连后确认任务仍在运行") at_)
  else if negb (rr_Authoritative report) then ret tt
  else
    exec "释放已确认消失进程的租约" (λ d, Some (release_leases (cd_id item) at_ d)) ;;!
    (if cd_gone item then ret tt
     else
       exec "确认原任务进程已结束" (λ d, Some (update_run (cd_id item) (set_unknown true at_) d)) ;;!
       (* the enclosing condition already is [!running || reportedToken != item.token] *)
       appendSystemRunEvent (cd_id item) "run.process_absent" Unknown
         (message "代理已确认原执行进程不存在，可按策略重试") at_).

Definition ReconcileRunning (report : RunningReport) (at_ : Time) : Prog C unit :=
  transaction "开始代理重连对账" (
    let! candidates := query "读取服务器运行任务" (candidates_of (rr_ServerID report)) in
    for_each candidates (reconcile_candidate report at_) ;;!
    commit "").

(** ** Retry *)

Definition retryable_state (s : RunState) : bool :=
  bool_decide (s = Failed) || bool_decide (s = TimedOut) || bool_decide (s = Cancelled) || bool_decide (s = Unknown).

(** Durable retry intent: an event [run.failed] or [run.timed_out] that carries it,
    and no request to cancel. *)
Definition automatic_intent (events : list EventRow) : bool :=
  existsb (λ e, (bool_decide (er_event_type e = "run.failed") || bool_decide (er_event_type e = "run.timed_out")) &&
                bool_decide (pl_automaticRetry (er_payload e) = Some true)) events &&
  negb (existsb (λ e, bool_decide (er_event_type e = "run.cancel_requested")) events).

(** [ORDER BY attempt, created_at, id LIMIT 1] *)
Definition attempt_order (a b : string * RunRow) : bool :=
  let sa := tr_spec a.2 in let sb := tr_spec b.2 in
  (rs_attempt sa <? rs_attempt sb) ||
  ((rs_attempt sa =? rs_attempt sb) &&
   ((rs_created_at sa <? rs_created_at sb) ||
    ((rs_created_at sa =? rs_created_at sb) && string_lt a.1 b.1))).

Definition is_successor (rootID : string) (attempt : Z) (row : RunRow) : bool :=
  bool_decide (rs_retry_of (tr_spec row) = Some rootID) && (attempt <? rs_attempt (tr_spec row)).

Definition successor (rootID : string) (attempt : Z) (d : DB) : option string :=
  match stable_sort attempt_order (filter (λ p, is_successor rootID attempt p.2 = true) (map_to_list (task_runs d))) with
  | [] => None
  | p :: _ => Some p.1
  end.

(** [INSERT INTO task_runs ... SELECT ... FROM task_runs WHERE id=$1] *)
Definition retry_spec (runID : string) (row : RunRow) (at_ : Time) : RunSpec :=
  let s := tr_spec row in
  mkRunSpec (rs_task_definition_id s) (rs_script_version_id s) (rs_requested_by s) TriggerRetry
    (rs_parameters_snapshot s) None
    (Z.max at_ (default (tr_updated_at row) (tr_finished_at row) + rs_retry_backoff_seconds s * second))
    (rs_attempt s + 1) (Some (default runID (rs_retry_of s)))
    (rs_priority s) (rs_resources s) (rs_max_concurrency s) (rs_timeout_seconds s)
    (rs_max_wait_seconds s) (rs_max_retries s) (rs_retry_backoff_seconds s)
    (rs_idempotent s) (rs_required_labels s) (rs_required_runtime s) at_.

Definition insert_retry (runID retryID : string) (at_ : Time) (d : DB) : option DB :=
  match task_runs d !! runID with
  | None => None
  | Some row => insert_run retryID (new_run (retry_spec runID row at_) at_) d
  end.

(** The secret references of the first [run.queued] event, or the definition's. *)
Definition queued_secret_refs (events : list EventRow) : option (gmap string string) :=
  match stable_sort (λ a b, er_sequence a <? er_sequence b)
          (filter (λ e, er_event_type e = "run.queued") events) with
  | [] => None
  | e :: _ => pl_secretRefs (er_payload e)
  end.

Definition secret_refs_of (runID : string) (d : DB) : option (gmap string string) :=
  match task_runs d !! runID with
  | None => None
  | Some row =>
    match task_definitions d !! rs_task_definition_id (tr_spec row) with
    | None => None
    | Some definition => Some (default (df_secret_bindings definition) (queued_secret_refs (events_of d runID)))
    end
  end.

(** [SELECT enabled FROM task_definitions WHERE id=(...)]; no row is an error. *)
Definition definition_enabled (runID : string) (d : DB) : option bool :=
  match task_runs d !! runID with
  | None => None
  | Some row => df_enabled <$> task_definitions d !! rs_task_definition_id (tr_spec row)
  end.

Definition retryRun (runID : string) (at_ : Time) (automatic : bool) : Prog C string :=
  transaction "开始任务重试事务" (
    let! root := query "读取任务重试链" (λ d, root_of runID <$> task_runs d !! runID) in
    match root with
    | None => throw ErrRunNotFound
    | Some rootID =>
      query "锁定任务重试链" (λ _, tt) ;;!
      let! enabled := query_one "" (definition_enabled runID) in
      if negb enabled then throw ErrRunNotRetryable
      else
        let! found := query "读取任务重试条件" (λ d, task_runs d !! runID) in
        match found with
        | None => throw ErrRunNotFound
        | Some row =>
          let s := tr_spec row in
          if negb (rs_idempotent s) || negb (tr_process_confirmed_gone row) ||
             (rs_max_retries s <? rs_attempt s) || negb (retryable_state (tr_state row))
          then throw ErrRunNotRetryable
          else
            (if automatic then
               let! eligible := query "" (λ d, automatic_intent (events_of d runID)) in
               if negb eligible || negb (bool_decide (tr_state row = Failed) || bool_decide (tr_state row = TimedOut))
               then throw ErrRunNotRetryable else ret tt
             else ret tt) ;;!
            exec "释放重试前的旧租约" (λ d, Some (release_leases runID at_ d)) ;;!
            let! existing := query "读取已有重试实例" (successor rootID (rs_attempt s)) in
            match existing with
            | Some retryID => commit "" ;;! ret retryID
            | None =>
              let! retryID := new_uuid in
              exec "创建重试运行实例" (insert_retry runID retryID at_) ;;!
              let! secretRefs := query_one "读取重试敏感参数引用快照" (secret_refs_of runID) in
              appendSystemRunEvent retryID "run.queued" Queued
                ((message "重试任务已进入排队队列") <| pl_retryOf := Some runID |> <| pl_secretRefs := Some secretRefs |>)
                at_ ;;!
              commit "提交任务重试" ;;!
              ret retryID
            end
        end
    end).

Definition RetryRun (runID : string) (at_ : Time) : Prog C string := retryRun runID at_ false.

(** [RetryFailed]: its selection, then one transaction per run. *)
Definition has_successor (id : string) (row : RunRow) (d : DB) : bool :=
  existsb (λ p, is_successor (root_of id row) (rs_attempt (tr_spec row)) p.2) (map_to_list (task_runs d)).

Definition retry_due (d : DB) (id : string) (row : RunRow) : bool :=
  let s := tr_spec row in
  (bool_decide (tr_state row = Failed) || bool_decide (tr_state row = TimedOut)) && rs_idempotent s &&
  tr_process_confirmed_gone row && (rs_attempt s <=? rs_max_retries s) &&
  (match task_definitions d !! rs_task_definition_id s with Some f => df_enabled f | None => false end) &&
  automatic_intent (events_of d id) && negb (has_successor id row d).

(** [ORDER BY run.finished_at, run.id]; NULLs come last. *)
Definition finished_order (a b : string * RunRow) : bool :=
  match tr_finished_at a.2, tr_finished_at b.2 with
  | Some x, Some y => (x <? y) || ((x =? y) && string_lt a.1 b.1)
  | Some _, None => true
  | None, Some _ => false
  | None, None => string_lt a.1 b.1
  end.

Definition retry_candidates (d : DB) : list string :=
  (take 100 (stable_sort finished_order
     (filter (λ p, retry_due d p.1 p.2 = true) (map_to_list (task_runs d))))).*1.

Definition retry_skipped (e : Error) : bool :=
  match e with ErrRunNotRetryable | ErrRunNotFound => true | _ => false end.

Definition RetryFailed (at_ : Time) : Prog C unit :=
  let! ids := pool_query "读取自动重试意图" retry_candidates in
  for_each ids (λ id,
    let! r := catch (retryRun id at_ true) in
    match r with
    | Err e => if retry_skipped e then ret tt else throw e
    | Ok _ => ret tt
    end).

(** ** Reconciler *)

Definition ServerOffline (serverID : string) : Prog C unit :=
  if bool_decide (TrimSpace serverID = "") then throw ErrInvalidRunEvent
  else let! now := clock_now in MarkServerRunsUnknown serverID now.

Definition Reconcile (report : RunningReport) : Prog C unit :=
  if bool_decide (TrimSpace (rr_ServerID report) = "") then throw ErrInvalidRunEvent
  else
    let! report := (if is_zero_time (rr_ReportedAt report)
                    then let! t := clock_now in ret (report <| rr_ReportedAt := t |>)
                    else ret report) in
    if existsb (λ p, bool_decide (TrimSpace (rp_RunID p) = "") || bool_decide (TrimSpace (rp_ExecutionToken p) = ""))
         (rr_Processes report)
    then throw ErrInvalidRunEvent
    else let! now := clock_now in ReconcileRunning report now.

Definition Retry (runID : string) : Prog C string :=
  if bool_decide (TrimSpace runID = "") then throw ErrRunNotRetryable
  else let! now := clock_now in RetryRun runID now.

(** ** Server offline: what is committed *)

Lemma append_system_body (type : string) state payload at_ id (c : C) d Q :
  (∀ context d1, Q (Err (EStorage context)) (c, d1)) →
  (∀ payload at_ d1, append_event id type state payload at_ None d = Some d1 → Q (Ok tt) (c, d1)) →
  wp (appendSystemRunEvent id type state payload at_) (c, d) Q.
Proof. intros He Hok. apply wp_exec; [done|]. intros d1 H. split; [by eapply Hok|done]. Qed.

Definition offline_tables (serverID : string) (at_ : Time) (d d' : DB) : Prop :=
  events_appended (matching_runs (on_server serverID active) d) "run.unknown" Unknown
    (update_runs_where (on_server serverID active) (set_unknown false at_) d).1 d'.

Lemma MarkServerRunsUnknown_spec serverID at_ :
  db_spec (MarkServerRunsUnknown serverID at_) (λ d r d',
    match r with
    | Ok _ => offline_tables serverID at_ d d'
    | Err e => (∃ context, e = EStorage context) ∧ (d' = d ∨ offline_tables serverID at_ d d')
    end).
Proof.
  apply db_spec_transaction; [by eauto|]. intros c.
  tx_step. apply wp_stmt; [tx_step; by eauto|]. intros d' ids [= <- <-].
  split; [|tx_step; by eauto]. tx_step. eapply wp_append_each with (type := "run.unknown") (state := Unknown).
  - apply matching_runs_nodup.
  - intros id d Q He Hok. by apply append_system_body.
  - intros context d1. tx_step. eauto.
  - intros d2 H2. repeat tx_step; eauto.
Qed.

Lemma MarkServerRunsUnknown_sound serverID at_ :
  db_spec (MarkServerRunsUnknown serverID at_) (λ d _ d', sound d d').
Proof.
  eapply db_spec_mono; [apply MarkServerRunsUnknown_spec|]. intros d r d' H.
  assert (d' = d ∨ offline_tables serverID at_ d d') as [->|Ht]; [|reflexivity|].
  { destruct r; [by right|by destruct H]. }
  intros Hw. refine (db_change_sound _ _ _ Hw). eapply batch_change; [done|exact Ht|].
  intros row [_ Ha]%andb_true_iff. simpl. split_and!; try done.
  - intros [R1 R2 R3 R4]. split; simpl; try done. intros _. apply R3. by destruct (tr_state row).
  - by destruct (tr_state row).
Qed.

(** ** Running report: what is committed *)

Definition confirmed (report : RunningReport) (item : candidate) : bool :=
  bool_decide (reported_tokens (rr_Processes report) !! cd_id item = Some (cd_token item)).

Definition absent (report : RunningReport) (item : candidate) : bool :=
  negb (confirmed report item) && rr_Authoritative report.

(** The row of a candidate after the report. *)
Definition item_row (report : RunningReport) (at_ : Time) (item : candidate) (row : RunRow) : RunRow :=
  if confirmed report item then set_running at_ row
  else if absent report item && negb (cd_gone item) then set_unknown true at_ row
  else row.

Definition candidate_of (id : string) (row : RunRow) : candidate :=
  mkItem id (default "" (tr_execution_token row)) (tr_state row) (tr_process_confirmed_gone row).

Definition item_current (item : candidate) (row : RunRow) (d : DB) : Prop :=
  task_runs d !! cd_id item = Some row ∧ item = candidate_of (cd_id item) row ∧ occupied (tr_state row) = true.

Record item_effect (report : RunningReport) (at_ : Time) (item : candidate) (row : RunRow) (d d' : DB) : Prop := {
  ie_runs : task_runs d' = <[cd_id item := item_row report at_ item row]> (task_runs d);
  ie_leases : resource_leases d' =
    if absent report item then resource_leases (release_leases (cd_id item) at_ d) else resource_leases d;
  ie_events : ∃ new,
    (∀ i, events_of d' i = if decide (i = cd_id item) then events_of d (cd_id item) ++ new else events_of d i) ∧
    (history_ok row (events_of d (cd_id item)) →
     row_change row (events_of d (cd_id item)) (item_row report at_ item row) (events_of d (cd_id item) ++ new))
}.

Lemma set_running_ok at_ row : occupied (tr_state row) = true → row_ok row → row_ok (set_running at_ row).
Proof. intros Ho [R1 R2 R3 R4]. split; simpl; try done. intros _. by apply R3. Qed.

Lemma set_unknown_ok at_ row : occupied (tr_state row) = true → row_ok row → row_ok (set_unknown true at_ row).
Proof. intros Ho [R1 R2 R3 R4]. split; simpl; try done; [intros _; by apply R3|by left]. Qed.

Lemma history_change_row row row' events :
  tr_state row' = tr_state row → history_ok row events → history_ok row' events.
Proof. intros E [H1 H2 H3]. split; [done|done|]. by rewrite E. Qed.

(** The events of a run confirmed to be running: at most a usage sample, then the
    note that it was reconciled. *)
Lemma running_change at_ row events usage note :
  history_ok row events → occupied (tr_state row) = true →
  (∀ e, e ∈ usage ++ note → er_state e = Running ∧ er_agent e = None) →
  (usage = [] ∨ ∃ e, usage = [e] ∧ er_sequence e = next_sequence events) →
  (note = [] ∧ tr_state row = Running ∨
   ∃ e, note = [e] ∧ er_sequence e = next_sequence (events ++ usage)) →
  row_change row events (set_running at_ row) (events ++ usage ++ note).
Proof.
  intros Hh Ho He Hu Hn.
  assert (transition (tr_state row) Running = true) as Ht by (by destruct (tr_state row)).
  assert (∀ r evs e, history_ok r evs → occupied (tr_state r) = true → er_sequence e = next_sequence evs →
    er_state e = Running → er_agent e = None → row_change r evs (set_running at_ r) (evs ++ [e])) as Hone.
  { intros r evs e Hh' Ho' Hs Hst Ha. apply row_change_event; try done.
    - by apply set_running_ok.
    - by rewrite Ha.
    - simpl. by destruct (tr_state r). }
  assert (set_running at_ (set_running at_ row) = set_running at_ row) as Hidem by done.
  destruct Hu as [->|(u & -> & Hu)]; destruct Hn as [[-> Hr]|(n & -> & Hn)]; simpl.
  - rewrite app_nil_r. apply row_change_quiet; try done. by apply set_running_ok.
  - destruct (He n) as [? ?]; [set_solver|]. apply Hone; try done. by rewrite app_nil_r in Hn.
  - destruct (He u) as [? ?]; [set_solver|]. by apply Hone.
  - destruct (He u) as [? ?]; [set_solver|]. destruct (He n) as [? ?]; [set_solver|].
    assert (row_change row events (set_running at_ row) (events ++ [u])) as Hfirst by (by apply Hone).
    eapply row_change_trans; [exact Hfirst|]. change [u; n] with ([u] ++ [n]); rewrite app_assoc.
    rewrite <-Hidem at 2. apply Hone; try done. by eapply history_change.
Qed.

Definition usage_event (u : ResourceUsage) (events : list EventRow) : EventRow :=
  mkEventRow (next_sequence events) "run.usage" Running (no_payload <| pl_usage := Some u |>) (SampledAt u) None.
Definition reconciled_event (at_ : Time) (events : list EventRow) : EventRow :=
  mkEventRow (next_sequence events) "run.reconciled" Running (message "代理重连后确认任务仍在运行") at_ None.

(** The end of the branch of a confirmed run, after the sample. *)
Lemma wp_confirm report at_ item row usage (c : C) d d1 Q :
  item_current item row d → confirmed report item = true →
  d1 = d <| run_events := run_events d1 |> →
  (∀ i, events_of d1 i = if decide (i = cd_id item) then events_of d (cd_id item) ++ usage else events_of d i) →
  (usage = [] ∨ ∃ u, usage = [usage_event u (events_of d (cd_id item))]) →
  (∀ context d1, Q (Err (EStorage context)) (c, d1)) →
  (∀ d', item_effect report at_ item row d d' → Q (Ok tt) (c, d')) →
  wp (exec "恢复运行任务状态" (λ d, Some (update_run (cd_id item) (set_running at_) d)) ;;!
      (if bool_decide (cd_state item = Running) then ret tt
       else appendSystemRunEvent (cd_id item) "run.reconciled" Running (message "代理重连后确认任务仍在运行") at_))
     (c, d1) Q.
Proof.
  intros (Hrow & Hitem & Hocc) Hconf Ht He Hu Herr Hok.
  assert (absent report item = false) as Habs by (unfold absent; by rewrite Hconf).
  assert (task_runs d1 = task_runs d ∧ resource_leases d1 = resource_leases d) as [Hr1 Hl1] by (by rewrite Ht).
  assert (∀ note d', (note = [] ∧ tr_state row = Running ∨
      ∃ e, note = [e] ∧ e = reconciled_event at_ (events_of d (cd_id item) ++ usage)) →
    task_runs d' = <[cd_id item := set_running at_ row]> (task_runs d) → resource_leases d' = resource_leases d →
    (∀ i, events_of d' i = if decide (i = cd_id item) then events_of d (cd_id item) ++ usage ++ note
          else events_of d i) → item_effect report at_ item row d d') as Hdone.
  { intros note d' Hn Hr Hl Hev. split.
    - unfold item_row. by rewrite Hconf.
    - by rewrite Habs.
    - exists (usage ++ note). split; [done|]. intros Hh. unfold item_row. rewrite Hconf.
      apply running_change; try done.
      + intros e. destruct Hu as [->|(u & ->)], Hn as [[-> _]|(? & -> & ->)]; set_solver.
      + destruct Hu as [->|(u & ->)]; [by left|right; eauto].
      + destruct Hn as [[-> Hr']|(? & -> & ->)]; [by left|right; eauto]. }
  apply wp_bind, wp_exec; [done|]. intros d2 [= <-]. split; [|done].
  assert (task_runs (update_run (cd_id item) (set_running at_) d1) =
    <[cd_id item := set_running at_ row]> (task_runs d)) as Hr2.
  { rewrite <-Hr1. apply update_run_insert. by rewrite Hr1. }
  case_bool_decide as Hst.
  - apply wp_ret, Hok. apply Hdone with []; [left; split; [done|]; by rewrite Hitem in Hst|done|done|].
    intros i. rewrite app_nil_r. apply He.
  - apply wp_exec; [done|]. intros d3 [_ ->]%append_event_inv. split; [|done].
    apply Hok, Hdone with [reconciled_event at_ (events_of d (cd_id item) ++ usage)]; [right; eauto|done|done|].
    intros i. rewrite events_of_insert.
    assert (∀ j, events_of (update_run (cd_id item) (set_running at_) d1) j = events_of d1 j) as Hsame by done.
    rewrite !Hsame, !He. rewrite (decide_True (P := cd_id item = cd_id item)) by done. case_decide; [|done]. by rewrite <-app_assoc.
Qed.

Lemma wp_reconcile_candidate report at_ item row (c : C) d Q :
  item_current item row d →
  (∀ context d1, Q (Err (EStorage context)) (c, d1)) →
  (∀ d', item_effect report at_ item row d d' → Q (Ok tt) (c, d')) →
  wp (reconcile_candidate report at_ item) (c, d) Q.
Proof.
  intros Hcur Herr Hok. pose proof Hcur as (Hrow & Hitem & Hocc). unfold reconcile_candidate. cbv zeta.
  case_bool_decide as Hc.
  - assert (confirmed report item = true) as Hconf by (by apply bool_decide_eq_true).
    apply wp_bind, wp_saveRunUsage.
    + done.
    + apply (wp_confirm report at_ item row [] c d d); [done|done|by destruct d| |by left|done|done].
      intros i. case_decide; [subst|done]. by rewrite app_nil_r.
    + intros u d1 _ _ _ [_ ->]%append_event_inv.
      apply (wp_confirm report at_ item row [usage_event u (events_of d (cd_id item))] c d);
        [done|done|done| |right; by exists u|done|done]. intros i. by rewrite events_of_insert.
  - assert (confirmed report item = false) as Hconf by (by apply bool_decide_eq_false).
    destruct (rr_Authoritative report) eqn:Hauth; simpl.
    + assert (absent report item = true) as Habs by (unfold absent; by rewrite Hconf, Hauth).
      apply wp_bind, wp_exec; [done|]. intros d1 [= <-]. split; [|done].
      destruct (cd_gone item) eqn:Hg.
      * apply wp_ret, Hok. split; unfold item_row; rewrite ?Hconf, ?Habs, ?Hg; simpl.
        -- by rewrite insert_id.
        -- done.
        -- exists []. rewrite app_nil_r. split; [|by intros; apply row_change_quiet].
           intros i. by case_decide; subst.
      * apply wp_bind, wp_exec; [done|]. intros d1 [= <-]. split; [|done].
        apply wp_exec; [done|]. intros d2 [_ ->]%append_event_inv. split; [|done].
        apply Hok. split; unfold item_row; rewrite ?Hconf, ?Habs, ?Hg; simpl.
        -- by apply (update_run_insert _ (set_unknown true at_) d).
        -- done.
        -- eexists [_]. split; [intros i; apply (events_of_insert (update_run (cd_id item) (set_unknown true at_)
             (release_leases (cd_id item) at_ d)))|].
           intros Hh. apply row_change_event; try done.
           ++ by apply set_unknown_ok.
           ++ simpl. by destruct (tr_state row).
    + apply wp_ret, Hok. assert (absent report item = false) as Habs by (unfold absent; by rewrite Hconf, Hauth).
      split; unfold item_row; rewrite ?Hconf, ?Habs; simpl.
      * by rewrite insert_id.
      * done.
      * exists []. rewrite app_nil_r. split; [|by intros; apply row_change_quiet].
        intros i. by case_decide; subst.
Qed.

Lemma item_effect_sound report at_ item row d d' :
  item_current item row d → item_effect report at_ item row d d' → sound d d'.
Proof.
  intros (Hrow & Hitem & Hocc) [Hr Hl (new & He & Hc)] Hw. refine (db_change_sound _ _ _ Hw).
  pose proof (wf_runs _ Hw (cd_id item)) as Hrun. rewrite Hrow in Hrun. destruct Hrun as [_ Hh].
  eapply single_change; [done|exact Hrow|exact Hr|exact He|by apply Hc|].
  rewrite Hl. destruct (absent report item) eqn:Habs; [by right; eauto|]. left. split; [done|].
  intros _. unfold item_row. rewrite Habs. by destruct (confirmed report item).
Qed.

(** The row of any run after the report. *)
Definition reconciled_row (report : RunningReport) (at_ : Time) (id : string) (row : RunRow) : RunRow :=
  if on_server (rr_ServerID report) occupied row then item_row report at_ (candidate_of id row) row else row.

(** The tables after the candidates other than [rest] have been treated. *)
Record report_progress (report : RunningReport) (at_ : Time) (d : DB) (rest : list candidate) (d' : DB) : Prop := {
  rp_runs : ∀ id, task_runs d' !! id =
    if decide (id ∈ cd_id <$> rest) then task_runs d !! id
    else reconciled_row report at_ id <$> task_runs d !! id;
  rp_leases : ∀ id row lid l, task_runs d !! id = Some row → on_server (rr_ServerID report) occupied row = true →
    absent report (candidate_of id row) = true → id ∉ cd_id <$> rest →
    resource_leases d' !! lid = Some l → rl_task_run_id l = id → is_Some (rl_released_at l);
  rp_sound : sound d d'
}.

Lemma elem_of_candidates serverID d item :
  item ∈ candidates_of serverID d ↔
  ∃ row, task_runs d !! cd_id item = Some row ∧ item = candidate_of (cd_id item) row ∧
         on_server serverID occupied row = true.
Proof.
  unfold candidates_of. rewrite list_elem_of_fmap. split.
  - intros ([id row] & -> & [Hw Hin]%list_elem_of_filter). apply elem_of_map_to_list in Hin. eauto.
  - intros (row & Hrow & Hitem & Hw). exists (cd_id item, row). split; [done|].
    apply list_elem_of_filter. split; [done|]. by apply elem_of_map_to_list.
Qed.

Lemma candidates_nodup serverID d : NoDup (cd_id <$> candidates_of serverID d).
Proof.
  unfold candidates_of. rewrite <-list_fmap_compose. pose proof (NoDup_fst_map_to_list (task_runs d)) as Hnd.
  revert Hnd. generalize (map_to_list (task_runs d)). intros l Hnd.
  eapply sublist_NoDup; [exact Hnd|]. apply fmap_sublist, sublist_filter.
Qed.

Lemma report_progress_start report at_ d :
  report_progress report at_ d (candidates_of (rr_ServerID report) d) d.
Proof.
  assert (∀ id row, task_runs d !! id = Some row → on_server (rr_ServerID report) occupied row = true →
    id ∈ cd_id <$> candidates_of (rr_ServerID report) d) as Hin.
  { intros id row Hrow Hw. apply list_elem_of_fmap. exists (candidate_of id row). split; [done|].
    apply elem_of_candidates. eauto. }
  split; [|intros id row lid l Hrow Hw _ Hn; destruct (Hn (Hin _ _ Hrow Hw))|reflexivity].
  intros id. case_decide as Hn; [done|]. destruct (task_runs d !! id) as [row|] eqn:E; [|done]. simpl.
  unfold reconciled_row. destruct (on_server _ _ row) eqn:Ew; [|done]. destruct (Hn (Hin _ _ E Ew)).
Qed.

Lemma report_progress_step report at_ d item rest d1 d2 :
  NoDup (cd_id <$> item :: rest) → item ∈ candidates_of (rr_ServerID report) d →
  report_progress report at_ d (item :: rest) d1 →
  ∃ row, item_current item row d1 ∧
    (item_effect report at_ item row d1 d2 → report_progress report at_ d rest d2).
Proof.
  intros Hnd (row & Hrow & Hitem & Hw)%elem_of_candidates [Hr Hl Hs]. simpl in *.
  apply NoDup_cons in Hnd as [Hnin Hnd]. exists row.
  assert (item_current item row d1) as Hcur.
  { split_and!; [|done|apply andb_true_iff in Hw as [_ Hw]; exact Hw]. rewrite Hr, decide_True by set_solver. done. }
  split; [done|]. intros Heff. pose proof (item_effect_sound _ _ _ _ _ _ Hcur Heff) as Hs2.
  destruct Heff as [Er El _]. split; [| |by etrans].
  - intros id. rewrite Er. destruct (decide (id = cd_id item)) as [->|Hne].
    + rewrite lookup_insert_eq, decide_False, Hrow by done. simpl. unfold reconciled_row.
      by rewrite Hw, <-Hitem.
    + rewrite lookup_insert_ne by done. rewrite Hr. do 2 case_decide; set_solver.
  - intros id row' lid l Hrow' Hw' Habs Hn Hlid Hid. destruct (decide (id = cd_id item)) as [->|Hne].
    + assert (row' = row) as -> by congruence. rewrite <-Hitem in Habs. rewrite El, Habs in Hlid.
      rewrite release_leases_lookup in Hlid. apply fmap_Some in Hlid as (l0 & Hl0 & ->).
      destruct (open_lease (cd_id item) l0) eqn:Eo; [simpl; eauto|].
      destruct (rl_released_at l0) eqn:E0; [eauto|]. rewrite (proj2 (open_lease_true _ _)) in Eo; done.
    + rewrite El in Hlid. destruct (absent report item).
      * rewrite release_leases_lookup in Hlid. apply fmap_Some in Hlid as (l0 & Hl0 & ->).
        destruct (open_lease (cd_id item) l0) eqn:Eo; [simpl; eauto|]. eapply Hl; eauto. set_solver.
      * eapply Hl; eauto. set_solver.
Qed.

Lemma ReconcileRunning_spec report at_ :
  db_spec (ReconcileRunning report at_) (λ d r d',
    match r with
    | Ok _ => report_progress report at_ d [] d'
    | Err e => (∃ context, e = EStorage context) ∧ (d' = d ∨ report_progress report at_ d [] d')
    end).
Proof.
  apply db_spec_transaction; [by eauto|]. intros c. tx_step. tx_step; [tx_step; by eauto|].
  tx_step.
  apply wp_for_each with (I := λ rest p, p.1 = c ∧ NoDup (cd_id <$> rest) ∧
    (∀ x, x ∈ rest → x ∈ candidates_of (rr_ServerID report) (part c)) ∧
    report_progress report at_ (part c) rest p.2).
  - split_and!; [done|apply candidates_nodup|done|apply report_progress_start].
  - intros item rest [c1 d1] (Hc & Hnd & Hsub & Hp) _. simpl in Hc, Hp. subst c1.
    destruct (report_progress_step report at_ (part c) item rest d1 d1 Hnd) as (row & Hcur & _);
      [by apply Hsub; left|done|].
    apply wp_reconcile_candidate with row; [done|intros; tx_step; by eauto|].
    intros d2 Heff. destruct (report_progress_step report at_ (part c) item rest d1 d2 Hnd) as (row' & Hcur' & Hgo);
      [by apply Hsub; left|done|].
    assert (row' = row) as -> by (destruct Hcur' as [? _], Hcur as [? _]; congruence).
    apply NoDup_cons in Hnd as [_ Hnd]. split_and!; [done|done|set_solver|by apply Hgo].
  - intros [c1 d1] (Hc & _ & _ & Hp). simpl in Hc, Hp. subst c1. repeat tx_step; eauto.
Qed.

Lemma ReconcileRunning_sound report at_ : db_spec (ReconcileRunning report at_) (λ d _ d', sound d d').
Proof.
  eapply db_spec_mono; [apply ReconcileRunning_spec|]. intros d [u|e] d' H; [apply H|].
  destruct H as [_ [->|H]]; [reflexivity|apply H].
Qed.

(** ** Retry: what is committed *)

Definition retry_allowed (automatic : bool) (runID : string) (row : RunRow) (d : DB) : Prop :=
  task_runs d !! runID = Some row ∧ definition_enabled runID d = Some true ∧
  rs_idempotent (tr_spec row) = true ∧ tr_process_confirmed_gone row = true ∧
  rs_attempt (tr_spec row) ≤ rs_max_retries (tr_spec row) ∧ retryable_state (tr_state row) = true ∧
  (automatic = true → automatic_intent (events_of d runID) = true ∧
     (tr_state row = Failed ∨ tr_state row = TimedOut)).

(** The tables with the new attempt [retryID]. *)
Definition retry_created (runID retryID : string) (at_ : Time) (d d' : DB) : Prop :=
  ∃ d1 refs, insert_retry runID retryID at_ (release_leases runID at_ d) = Some d1 ∧
    secret_refs_of runID d1 = Some refs ∧
    append_event retryID "run.queued" Queued
      ((message "重试任务已进入排队队列") <| pl_retryOf := Some runID |> <| pl_secretRefs := Some refs |>)
      at_ None d1 = Some d'.

Definition retried (automatic : bool) (runID retryID : string) (at_ : Time) (d d' : DB) : Prop :=
  ∃ row, retry_allowed automatic runID row d ∧
    (successor (root_of runID row) (rs_attempt (tr_spec row)) d = Some retryID ∧ d' = release_leases runID at_ d ∨
     successor (root_of runID row) (rs_attempt (tr_spec row)) d = None ∧ retry_created runID retryID at_ d d').

Definition retryRun_post (automatic : bool) (runID : string) (at_ : Time) (d : DB) (r : Result string) (d' : DB) : Prop :=
  match r with
  | Ok retryID => retried automatic runID retryID at_ d d'
  | Err ErrRunNotFound => d' = d ∧ task_runs d !! runID = None
  | Err ErrRunNotRetryable => d' = d ∧ ∀ row, ¬ retry_allowed automatic runID row d
  | Err (EStorage _) => d' = d ∨ ∃ retryID, retried automatic runID retryID at_ d d'
  | Err _ => False
  end.

Lemma retry_guard row :
  negb (rs_idempotent (tr_spec row)) || negb (tr_process_confirmed_gone row) ||
  (rs_max_retries (tr_spec row) <? rs_attempt (tr_spec row)) || negb (retryable_state (tr_state row)) = false ↔
  rs_idempotent (tr_spec row) = true ∧ tr_process_confirmed_gone row = true ∧
  rs_attempt (tr_spec row) ≤ rs_max_retries (tr_spec row) ∧ retryable_state (tr_state row) = true.
Proof. rewrite !orb_false_iff, !negb_false_iff, Z.ltb_ge. tauto. Qed.

Lemma retry_automatic_guard eligible row :
  negb eligible || negb (bool_decide (tr_state row = Failed) || bool_decide (tr_state row = TimedOut)) = false ↔
  eligible = true ∧ (tr_state row = Failed ∨ tr_state row = TimedOut).
Proof.
  rewrite orb_false_iff, !negb_false_iff, orb_true_iff, !bool_decide_eq_true. done.
Qed.

Lemma retryRun_spec runID at_ automatic :
  db_spec (retryRun runID at_ automatic) (retryRun_post automatic runID at_).
Proof.
  apply db_spec_transaction; [by left|]. intros c.
  repeat first [tx_step | progress unfold appendSystemRunEvent]; try (by left); tx_facts.
  all: try match goal with H : _ || _ = false |- _ => apply retry_guard in H as (? & ? & ? & ?) end.
  all: try match goal with H : negb _ || _ = false |- _ => apply retry_automatic_guard in H as [? ?] end.
  all: cbv beta iota; unfold retryRun_post.
  all: try (split; [done|]; intros row' (R1 & R2 & R3 & R4 & R5 & R6 & R7); simplify_eq).
  all: try (exfalso; match goal with H : _ || _ = true |- _ => apply not_false_iff_true in H; apply H end;
    first [by apply retry_guard|by apply retry_automatic_guard, R7]).
  all: try (by split).
  all: try (right; eexists).
  all: match goal with H : task_runs (part _) !! _ = Some ?row |- _ => exists row end.
  all: (split; [unfold retry_allowed; by split_and!|]).
  all: first [by left|right; split; [done|]; eexists _, _; by eauto].
Qed.

Lemma successor_none root attempt d :
  successor root attempt d = None →
  ∀ i r, task_runs d !! i = Some r → rs_retry_of (tr_spec r) = Some root → rs_attempt (tr_spec r) ≤ attempt.
Proof.
  unfold successor. destruct (stable_sort _ _) as [|p l] eqn:E; [|done]. intros _ i r Hr Hroot.
  apply stable_sort_nil in E. destruct (decide (rs_attempt (tr_spec r) ≤ attempt)) as [|Hgt]; [done|].
  assert ((i, r) ∈ filter (λ p, is_successor root attempt p.2 = true) (map_to_list (task_runs d))) as Hin.
  { apply list_elem_of_filter. split; [|by apply elem_of_map_to_list].
    unfold is_successor. simpl. rewrite bool_decide_true by done. apply Z.ltb_lt. lia. }
  rewrite E in Hin. set_solver.
Qed.

Lemma successor_some root attempt d id :
  successor root attempt d = Some id →
  ∃ r, task_runs d !! id = Some r ∧ rs_retry_of (tr_spec r) = Some root ∧ attempt < rs_attempt (tr_spec r).
Proof.
  unfold successor. destruct (stable_sort _ _) as [|p l] eqn:E; [done|]. intros [= <-].
  assert (p ∈ filter (λ p, is_successor root attempt p.2 = true) (map_to_list (task_runs d))) as Hin.
  { rewrite <-elem_of_stable_sort, E. by left. }
  apply list_elem_of_filter in Hin as [Hs Hin]. destruct p as [i r]. apply elem_of_map_to_list in Hin.
  unfold is_successor in Hs. apply andb_true_iff in Hs as [Hs1 Hs2].
  apply bool_decide_eq_true in Hs1. apply Z.ltb_lt in Hs2. eauto.
Qed.

Lemma release_sound runID at_ d : sound d (release_leases runID at_ d).
Proof.
  intros Hw. refine (db_change_sound _ _ _ Hw). split.
  - intros i. apply run_change_refl.
  - apply lease_change_release; [done|]. simpl. intros. congruence.
Qed.

Lemma retry_created_sound automatic runID retryID at_ row d d' :
  retry_allowed automatic runID row d →
  successor (root_of runID row) (rs_attempt (tr_spec row)) d = None →
  retry_created runID retryID at_ d d' → sound d d'.
Proof.
  intros (Hrow & _ & _ & _ & Hatt & _) Hnone (d1 & refs & Hins & _ & Happ).
  transitivity (release_leases runID at_ d); [apply release_sound|].
  set (d0 := release_leases runID at_ d) in *. unfold insert_retry in Hins.
  change (task_runs d0) with (task_runs d) in Hins. rewrite Hrow in Hins.
  apply insert_run_inv in Hins as (Hn & Hchk & Hfire & _ & ->). apply append_event_inv in Happ as [_ ->].
  intros Hw. pose proof (wf_runs _ Hw runID) as Hrun. change (task_runs d0 !! runID) with (task_runs d !! runID) in Hrun.
  rewrite Hrow in Hrun. destruct Hrun as [[Hso _ _ _] _].
  assert (events_of d0 retryID = []) as Hev by (pose proof (wf_runs _ Hw retryID) as H; by rewrite Hn in H).
  match goal with |- _ ?d2 ∧ _ => assert (sound d0 d2) as Hs; [|exact (Hs Hw)] end.
  eapply sound_insert with (id := retryID) (row := new_run (retry_spec runID row at_) at_);
    [done|done|intros i; rewrite events_of_insert; reflexivity|done| | |done| |].
  - split; simpl; try done. split; simpl; [|done|done].
    pose proof (so_attempt _ Hso). lia.
  - change (events_of (d0 <| task_runs ::= _ |>) retryID) with (events_of d0 retryID). rewrite Hev.
    apply history_first.
  - simpl. intros root [= <-]. change (default runID (rs_retry_of (tr_spec row))) with (root_of runID row).
    destruct (wf_lineage _ Hw) as [L1 L2]. split.
    + unfold root_of. destruct (rs_retry_of (tr_spec row)) as [root|] eqn:Er; simpl; [by eapply L1|eauto].
    + intros i r Hr Hroot. unfold root_of at 1 in Hroot. pose proof (so_attempt _ Hso).
      destruct (rs_retry_of (tr_spec r)) as [root'|] eqn:Er; simpl in Hroot.
      * subst root'. pose proof (successor_none _ _ _ Hnone i r Hr Er). lia.
      * pose proof (wf_runs _ Hw i) as Hi. change (task_runs d0 !! i) with (task_runs d !! i) in Hi. rewrite Hr in Hi. destruct Hi as [[Hsi _ _ _] _].
        rewrite (so_root _ Hsi Er). lia.
  - simpl. done.
Qed.

Lemma retryRun_sound runID at_ automatic : db_spec (retryRun runID at_ automatic) (λ d _ d', sound d d').
Proof.
  eapply db_spec_mono; [apply retryRun_spec|]. intros d r d' H.
  assert (d' = d ∨ ∃ retryID, retried automatic runID retryID at_ d d') as [->|(retryID & row & Ha & Hcase)].
  { destruct r as [id|[]]; simpl in H; naive_solver. }
  - reflexivity.
  - destruct Hcase as [[_ ->]|[Hn Hc]]; [apply release_sound|by eapply retry_created_sound].
Qed.

(** Loops over database operations. *)
Lemma db_spec_sound_each {A} (l : list A) (body : A → Prog C unit) :
  (∀ x, db_spec (body x) (λ d _ d', sound d d')) → db_spec (for_each l body) (λ d _ d', sound d d').
Proof.
  intros H c.
  apply wp_for_each with (I := λ _ c', c' = set_part (part c') c ∧ sound (part c) (part c')).
  - by rewrite set_part_same.
  - intros x rest c1 [Hc Hs] _. eapply wp_mono; [apply H|]. intros r c2 [Hc2 Hs2].
    assert (c2 = set_part (part c2) c ∧ sound (part c) (part c2)) as Hgoal.
    { split; [|by etrans]. rewrite Hc2, Hc. by rewrite !part_set, set_part_twice. }
    by destruct r.
  - done.
Qed.

Lemma RetryFailed_sound at_ : db_spec (RetryFailed at_) (λ d _ d', sound d d').
Proof.
  intros c. apply wp_bind, wp_pool_query; [by rewrite set_part_same|].
  apply db_spec_sound_each. intros id c1. apply wp_bind, wp_catch.
  eapply wp_mono; [apply retryRun_sound|]. intros [x|e] c2 H; [by apply wp_ret|].
  destruct (retry_skipped e); [by apply wp_ret|by apply wp_throw].
Qed.

(** A second retry of the same run finds the first one's successor. *)
Lemma retried_again a1 a2 runID id1 id2 t1 t2 d d1 d2 :
  retried a1 runID id1 t1 d d1 → retried a2 runID id2 t2 d1 d2 → id2 = id1 ∧ task_runs d2 = task_runs d1.
Proof.
  intros (row & (Hrow & _) & Hcase) (row2 & (Hrow2 & _) & Hcase2).
  assert (row2 = row ∧ successor (root_of runID row) (rs_attempt (tr_spec row)) d1 = Some id1) as [-> Hsucc].
  { destruct Hcase as [[Hs ->]|(Hnone & d0 & refs & Hins & _ & Happ)].
    - change (task_runs (release_leases runID t1 d)) with (task_runs d) in Hrow2. split; [congruence|exact Hs].
    - unfold insert_retry in Hins. change (task_runs (release_leases runID t1 d)) with (task_runs d) in Hins.
      rewrite Hrow in Hins. apply insert_run_inv in Hins as (Hn & _ & _ & _ & ->).
      apply append_event_inv in Happ as [_ ->]. simpl in Hn, Hrow2.
      rewrite lookup_insert_ne in Hrow2 by congruence. split; [congruence|].
      unfold successor. simpl. set (new := new_run (retry_spec runID row t1) t1).
      set (f := λ p : string * RunRow, is_successor (root_of runID row) (rs_attempt (tr_spec row)) p.2 = true).
      assert (filter f (map_to_list (task_runs d)) = []) as Hempty.
      { apply stable_sort_nil with (less := attempt_order). unfold successor in Hnone.
        by destruct (stable_sort _ _) eqn:E in Hnone |- *; [|done]. }
      assert (filter f (map_to_list (<[id1 := new]> (task_runs d))) ≡ₚ [(id1, new)]) as Hperm.
      { rewrite map_to_list_insert by done. rewrite filter_cons_True; [by rewrite Hempty|].
        unfold f, is_successor. simpl. unfold root_of. rewrite bool_decide_true by done. apply Z.ltb_lt. lia. }
      apply Permutation_singleton_r in Hperm. by rewrite Hperm. }
  destruct Hcase2 as [[Hs2 ->]|[Hs2 _]]; [|congruence]. split; [congruence|done].
Qed.

(** Retrying one run leaves every other run as it was. *)
Lemma retried_frame automatic runID retryID at_ d d' :
  retried automatic runID retryID at_ d d' →
  task_definitions d' = task_definitions d ∧
  ∀ i row, task_runs d !! i = Some row → task_runs d' !! i = Some row ∧ events_of d' i = events_of d i.
Proof.
  intros (row0 & (Hrow0 & _) & [[_ ->]|(_ & d1 & refs & Hins & _ & Happ)]); [done|].
  unfold insert_retry in Hins. change (task_runs (release_leases runID at_ d)) with (task_runs d) in Hins.
  rewrite Hrow0 in Hins. apply insert_run_inv in Hins as (Hn & _ & _ & _ & ->).
  apply append_event_inv in Happ as [_ ->]. split; [done|]. intros i row Hi. simpl in Hn.
  assert (i ≠ retryID) as Hne by congruence.
  split; [simpl; by rewrite lookup_insert_ne|]. rewrite events_of_insert. by rewrite decide_False.
Qed.

(** The run a retry returns is a later attempt of the lineage. *)
Lemma retried_has_successor automatic runID retryID at_ row d d' :
  retried automatic runID retryID at_ d d' → task_runs d !! runID = Some row →
  has_successor runID row d' = true.
Proof.
  intros (row0 & (Hrow0 & _) & Hcase) Hrow. assert (row0 = row) as -> by congruence.
  assert (∃ r, task_runs d' !! retryID = Some r ∧
    is_successor (root_of runID row) (rs_attempt (tr_spec row)) r = true) as (r & Hr & Hs).
  { destruct Hcase as [[Hs ->]|(_ & d1 & refs & Hins & _ & Happ)].
    - apply successor_some in Hs as (r & Hr & H1 & H2). exists r. split; [done|].
      unfold is_successor. rewrite bool_decide_true by done. by apply Z.ltb_lt.
    - unfold insert_retry in Hins. change (task_runs (release_leases runID at_ d)) with (task_runs d) in Hins.
      rewrite Hrow in Hins. apply insert_run_inv in Hins as (_ & _ & _ & _ & ->).
      apply append_event_inv in Happ as [_ ->]. eexists. split; [apply lookup_insert_eq|].
      unfold is_successor. simpl. rewrite bool_decide_true by done. apply Z.ltb_lt. lia. }
  unfold has_successor. apply existsb_exists. exists (retryID, r). split; [|done].
  apply list_elem_of_In, elem_of_map_to_list, Hr.
Qed.

Lemma retry_due_allowed d id row :
  task_runs d !! id = Some row → retry_due d id row = true → retry_allowed true id row d.
Proof.
  intros Hrow H. unfold retry_due in H. cbv zeta in H.
  rewrite !andb_true_iff, Z.leb_le, orb_true_iff, !bool_decide_eq_true in H.
  destruct H as ((((((Hst & Hi) & Hg) & Ha) & Hd) & Hint) & _).
  split_and!; try done.
  - unfold definition_enabled. rewrite Hrow.
    destruct (task_definitions d !! rs_task_definition_id (tr_spec row)); [simpl; by rewrite Hd|done].
  - unfold retryable_state. by destruct Hst as [-> | ->].
Qed.

Lemma elem_of_retry_candidates d id :
  id ∈ retry_candidates d → ∃ row, task_runs d !! id = Some row ∧ retry_due d id row = true.
Proof.
  unfold retry_candidates. rewrite list_elem_of_fmap. intros ([i row] & -> & Hin).
  apply (subseteq_take 100) in Hin. rewrite elem_of_stable_sort in Hin.
  apply list_elem_of_filter in Hin as [Hd Hin]. apply elem_of_map_to_list in Hin. eauto.
Qed.

(** What the loop of [RetryFailed] keeps: the runs to do are as they were selected,
    the others have their successor. *)
Record retry_progress (d : DB) (rest : list string) (d' : DB) : Prop := {
  ry_definitions : task_definitions d' = task_definitions d;
  ry_runs : ∀ i row, task_runs d !! i = Some row → task_runs d' !! i = Some row ∧ events_of d' i = events_of d i;
  ry_done : ∀ id row, id ∈ retry_candidates d → id ∉ rest → task_runs d !! id = Some row →
    has_successor id row d' = true
}.

Lemma has_successor_kept automatic runID retryID at_ d d' id row :
  retried automatic runID retryID at_ d d' → has_successor id row d = true → has_successor id row d' = true.
Proof.
  intros H%retried_frame. destruct H as [_ H]. unfold has_successor. rewrite !existsb_exists.
  intros ([i r] & Hin & Hs). exists (i, r). split; [|done].
  apply list_elem_of_In, elem_of_map_to_list. apply list_elem_of_In, elem_of_map_to_list in Hin.
  by destruct (H _ _ Hin).
Qed.

Lemma retry_progress_allowed d id rest d1 :
  id ∈ retry_candidates d → retry_progress d (id :: rest) d1 →
  ∃ row, task_runs d !! id = Some row ∧ retry_allowed true id row d1.
Proof.
  intros (row & Hrow & Hdue)%elem_of_retry_candidates [Hd Hr _]. exists row. split; [done|].
  destruct (Hr _ _ Hrow) as [Hrow1 Hev]. destruct (retry_due_allowed _ _ _ Hrow Hdue)
    as (_ & R2 & R3 & R4 & R5 & R6 & R7). split_and!; try done.
  - unfold definition_enabled in *. by rewrite Hrow1, Hd, Hrow in *.
  - by rewrite Hev.
Qed.

Lemma retry_progress_step d id rest d1 d2 retryID at_ :
  retry_progress d (id :: rest) d1 → retried true id retryID at_ d1 d2 → retry_progress d rest d2.
Proof.
  intros [Hd Hr Hdone] Hret. destruct (retried_frame _ _ _ _ _ _ Hret) as [Hd2 Hr2]. split.
  - congruence.
  - intros i row Hi. destruct (Hr _ _ Hi) as [H1 H2]. destruct (Hr2 _ _ H1) as [H3 H4]. split; congruence.
  - intros i row Hin Hnin Hrow. destruct (decide (i = id)) as [->|Hne].
    + eapply retried_has_successor; [exact Hret|]. by apply Hr.
    + eapply has_successor_kept; [exact Hret|]. apply Hdone; set_solver.
Qed.

Lemma RetryFailed_spec at_ :
  db_spec (RetryFailed at_) (λ d r d',
    match r with Ok _ => retry_progress d [] d' | Err e => ∃ context, e = EStorage context end).
Proof.
  intros c. apply wp_bind, wp_pool_query; [rewrite set_part_same; by eauto|].
  apply wp_for_each with (I := λ rest c', c' = set_part (part c') c ∧
    (∀ x, x ∈ rest → x ∈ retry_candidates (part c)) ∧ retry_progress (part c) rest (part c')).
  - rewrite set_part_same. split_and!; [done|done|]. split; [done|done|]. intros id row H1 H2. done.
  - intros id rest c1 (Hc & Hsub & Hp) _. apply wp_bind, wp_catch.
    destruct (retry_progress_allowed _ _ _ _ (Hsub id (list_elem_of_here _ _)) Hp) as (row & _ & Hallow).
    eapply wp_mono; [apply retryRun_spec|]. intros r c2 [Hc2 Hpost].
    assert (c2 = set_part (part c2) c) as Hc2'.
    { rewrite Hc2, Hc. by rewrite !part_set, set_part_twice. }
    destruct r as [retryID|e].
    + apply wp_ret. split_and!; [done|set_solver|by eapply retry_progress_step].
    + destruct e; try done; simpl; try (by apply wp_throw; eauto).
      * destruct Hpost as [_ Hn]. destruct Hallow as [Hrow _]. congruence.
      * destruct Hpost as [_ Hn]. by destruct (Hn row).
  - intros c' (Hc & _ & Hp). done.
Qed.

(** ** Properties *)

(** The tables after a report has been applied: every run the server should be
    executing is running if the agent confirmed its token, is unknown with its
    process gone if an authoritative report does not confirm it (a run already known
    to be gone keeps its row, so its back-off clock is not postponed), and is
    untouched otherwise, as is every other run; the leases of the absent runs are
    closed. *)
Definition report_applied (report : RunningReport) (at_ : Time) (d d' : DB) : Prop :=
  (∀ id, task_runs d' !! id = reconciled_row report at_ id <$> task_runs d !! id) ∧
  (∀ id row lid l, task_runs d !! id = Some row → on_server (rr_ServerID report) occupied row = true →
     absent report (candidate_of id row) = true →
     resource_leases d' !! lid = Some l → rl_task_run_id l = id → is_Some (rl_released_at l)).

Lemma report_progress_applied report at_ d d' : report_progress report at_ d [] d' → report_applied report at_ d d'.
Proof.
  intros [Hr Hl _]. split.
  - intros id. rewrite Hr. by rewrite decide_False by set_solver.
  - intros. eapply Hl; eauto. set_solver.
Qed.

(** An agent's running report is applied completely or not at all: when
    [ReconcileRunning] succeeds the tables are those of [report_applied], and it only
    fails with a storage error, which leaves the tables as they were or, when the
    reply to the commit was lost, completely applied. *)
Theorem ReconcileRunning_correct report at_ :
  db_spec (ReconcileRunning report at_) (λ d r d',
    match r with
    | Ok _ => report_applied report at_ d d'
    | Err e => (∃ context, e = EStorage context) ∧ (d' = d ∨ report_applied report at_ d d')
    end).
Proof.
  eapply db_spec_mono; [apply ReconcileRunning_spec|]. intros d [u|e] d' H.
  - by apply report_progress_applied.
  - destruct H as [He [->|H]]; (split; [done|]); [by left|right; by apply report_progress_applied].
Qed.

(** The tables after a server went offline. *)
Definition server_offline (serverID : string) (at_ : Time) (d d' : DB) : Prop :=
  resource_leases d' = resource_leases d ∧
  ∀ id, match task_runs d !! id with
    | Some row =>
      if on_server serverID active row then
        task_runs d' !! id = Some (set_unknown false at_ row) ∧
        ∃ e, events_of d' id = events_of d id ++ [e] ∧ er_event_type e = "run.unknown" ∧ er_state e = Unknown
      else task_runs d' !! id = Some row ∧ events_of d' id = events_of d id
    | None => task_runs d' !! id = None ∧ events_of d' id = events_of d id
    end.

Lemma offline_tables_pointwise serverID at_ d d' : offline_tables serverID at_ d d' → server_offline serverID at_ d d'.
Proof.
  intros [Ht He].
  assert (∀ i, task_runs d' !! i = (λ row, if on_server serverID active row then set_unknown false at_ row else row)
    <$> task_runs d !! i) as Hruns.
  { intros i. rewrite <-(update_runs_where_lookup _ (set_unknown false at_)). by rewrite Ht. }
  split; [by rewrite Ht|]. intros id. specialize (He id). rewrite Hruns.
  destruct (task_runs d !! id) as [row|] eqn:Erow; simpl.
  - destruct (on_server serverID active row) eqn:Ew.
    + rewrite decide_True in He by (apply elem_of_matching_runs; eauto).
      destruct He as (payload & t & ->). split; [done|]. by eexists.
    + rewrite decide_False in He; [done|]. intros (row' & E & ?)%elem_of_matching_runs. congruence.
  - rewrite decide_False in He; [done|]. intros (row' & E & ?)%elem_of_matching_runs. congruence.
Qed.

(** When a server goes offline, exactly its assigned, syncing and running runs
    become unknown, each with one event, all or none; nothing else changes, in
    particular no lease is released and no process is declared gone. *)
Theorem MarkServerRunsUnknown_correct serverID at_ :
  db_spec (MarkServerRunsUnknown serverID at_) (λ d r d',
    match r with
    | Ok _ => server_offline serverID at_ d d'
    | Err e => (∃ context, e = EStorage context) ∧ (d' = d ∨ server_offline serverID at_ d d')
    end).
Proof.
  eapply db_spec_mono; [apply MarkServerRunsUnknown_spec|]. intros d [u|e] d' H.
  - by apply offline_tables_pointwise.
  - destruct H as [He [->|H]]; (split; [done|]); [by left|right; by apply offline_tables_pointwise].
Qed.

(** Retrying a run: [retryRun] returns the existing later attempt of the lineage
    or creates the next one, only for an enabled definition and an idempotent run that
    ended (or is unknown) with its process gone and attempts left; the automatic mode
    also requires the recorded intent; every refusal and failure leaves the tables as
    they were, or a lost commit reply leaves the complete effect. *)
Theorem retryRun_correct runID at_ automatic :
  db_spec (retryRun runID at_ automatic) (retryRun_post automatic runID at_).
Proof. apply retryRun_spec. Qed.

(** Retrying is idempotent and a lineage never forks: once a retry of a run has
    been accepted, every further retry of the same run, manual or automatic, returns
    the same successor and creates no run. *)
Theorem retry_idempotent a1 a2 runID id1 id2 t1 t2 d d1 d2 :
  retryRun_post a1 runID t1 d (Ok id1) d1 →
  retryRun_post a2 runID t2 d1 (Ok id2) d2 →
  id2 = id1 ∧ task_runs d2 = task_runs d1.
Proof. apply retried_again. Qed.

(** [RetryFailed] consumes the recorded intents: when it succeeds, every run it
    selected has a later attempt, and no existing run, event or definition has
    changed; otherwise the error is a storage error. *)
Theorem RetryFailed_complete at_ :
  db_spec (RetryFailed at_) (λ d r d',
    match r with
    | Ok _ =>
      task_definitions d' = task_definitions d ∧
      (∀ i row, task_runs d !! i = Some row → task_runs d' !! i = Some row ∧ events_of d' i = events_of d i) ∧
      (∀ id row, id ∈ retry_candidates d → task_runs d !! id = Some row →
         has_successor id row d' = true ∧ retry_due d' id row = false)
    | Err e => ∃ context, e = EStorage context
    end).
Proof.
  eapply db_spec_mono; [apply RetryFailed_spec|]. intros d [u|e] d' H; [|done].
  destruct H as [H1 H2 H3]. split_and!; [done|done|]. intros id row Hin Hrow.
  assert (has_successor id row d' = true) as Hs by (apply H3; [done|set_solver|done]).
  split; [done|]. unfold retry_due. rewrite Hs. by rewrite andb_false_r.
Qed.

End reconcile.

(** ** Witness *)

Definition failed_row : RunRow :=
  mkRunRow example_spec Failed (Some "srv-1") (Some 5) (Some 6) (Some 9) (Some 1) "" (Some "tok-1") true 1 (Some 6) "" 9.

Definition example_definition : DefinitionRow :=
  mkDefinitionRow "nightly" "" "scr-1" VersionLatest None true ∅ ∅ ∅ "bash" (mkResources 100 1 1) 60 2 50 1 0 30 true
    None 0 0.

Definition retry_db : DB :=
  mkDB no_accounts {["scr-1" := mkScriptRow "job" "" "bash" None 0 0]}
    {["ver-1" := mkVersionRow "scr-1" 1 "uri" "sum" "main.sh" no_manifest "" None 0]} ∅ [] ∅
    {["def-1" := example_definition]} ∅ {["run-1" := failed_row]}
    {["run-1" := [mkEventRow 0 "run.queued" Queued (message "queued") 0 None;
                  mkEventRow 1 "run.assigned" Assigned no_payload 5 None;
                  mkEventRow 2 "run.failed" Failed ((message "boom") <| pl_automaticRetry := Some true |>) 9
                    (Some ("tok-1", 1))]]} ∅ no_logs no_upgrades no_fleet ∅.

(** A manual and an automatic retry of a failed run, one after the other. *)
Lemma retry_idempotent_witness :
  ∃ d1 d2 o1 o2 id1 id2,
    retryRun "run-1" 20 false (retry_db, calm ["run-2"; "run-3"] 0) = ((d1, o1), Ok id1) ∧
    retryRun "run-1" 30 true (d1, o1) = ((d2, o2), Ok id2) ∧
    id1 = "run-2" ∧ id2 = id1 ∧ task_runs d2 = task_runs d1.
Proof.
  destruct (retryRun "run-1" 20 false (retry_db, calm ["run-2"; "run-3"] 0)) as [[d1 o1] r1] eqn:E1.
  assert (r1 = Ok "run-2") as ->.
  { apply (f_equal snd) in E1. simpl in E1. rewrite <-E1. vm_compute. reflexivity. }
  destruct (retryRun "run-1" 30 true (d1, o1)) as [[d2 o2] r2] eqn:E2.
  assert (r2 = Ok "run-2") as ->.
  { assert ((d1, o1) = (retryRun "run-1" 20 false (retry_db, calm ["run-2"; "run-3"] 0)).1) as Ed by (by rewrite E1).
    rewrite Ed in E2. apply (f_equal snd) in E2. simpl in E2. rewrite <-E2. vm_compute. reflexivity. }
  exists d1, d2, o1, o2, "run-2", "run-2".
  split; [reflexivity|]. split; [exact E2|]. split; [reflexivity|]. split; [reflexivity|].
  pose proof (wp_run _ _ _ _ _ _ _ (retryRun_spec (C := DB) "run-1" 20 false retry_db) E1) as [_ P1].
  pose proof (wp_run _ _ _ _ _ _ _ (retryRun_spec (C := DB) "run-1" 30 true d1) E2) as [_ P2].
  exact (proj2 (retry_idempotent false true "run-1" "run-2" "run-2" 20 30 retry_db d1 d2 P1 P2)).
Defined.
