(* ===== verification/SchedulerStore.v ===== *)
(** * SchedulerStore

    [internal/scheduler/postgres.go]: the scheduler's view of the tables and its
    three writes (assign, expire, queue reason). *)

From S2P Require Import Prelude GoStd Model World SchedulerCore Schema Session Lifecycle RunEvents Reconcile.

Section store.
Context {C : Type} `{!Has DB C}.

(** ** Reads *)

(** [runSelect] and [scanRun]: the joins drop a run whose definition or version is
    missing. *)
Definition scanRun (d : DB) (id : string) (row : RunRow) : option Run :=
  let s := tr_spec row in
  match task_definitions d !! rs_task_definition_id s, script_versions d !! rs_script_version_id s with
  | Some _, Some version =>
    Some (mkRun (bool_decide (is_Some (mf_Artifacts (sv_manifest version)))) id (rs_task_definition_id s)
      (rs_script_version_id s) (rs_trigger_type s) (tr_state row) (rs_parameters_snapshot s)
      (rs_required_labels s) (rs_required_runtime s) (rs_priority s) (rs_resources s) (rs_max_concurrency s)
      (rs_timeout_seconds s) (rs_max_wait_seconds s) (mkRetryPolicy (rs_max_retries s) (rs_retry_backoff_seconds s))
      (rs_idempotent s) (rs_scheduled_for s) (rs_queued_at s) (rs_created_at s))
  | _, _ => None
  end.

Definition find_run (runID : string) (d : DB) : option Run :=
  match task_runs d !! runID with Some row => scanRun d runID row | None => None end.

Definition Get (runID : string) : Prog C Run :=
  let! found := pool_query "读取调度运行实例" (find_run runID) in
  match found with Some run => ret run | None => throw ErrRunNotFound end.

(** [ORDER BY run.priority DESC, run.queued_at, run.id] *)
Definition queue_order (a b : string * RunRow) : bool :=
  let sa := tr_spec a.2 in let sb := tr_spec b.2 in
  (rs_priority sb <? rs_priority sa) ||
  ((rs_priority sa =? rs_priority sb) &&
   ((rs_queued_at sa <? rs_queued_at sb) ||
    ((rs_queued_at sa =? rs_queued_at sb) && string_lt a.1 b.1))).

Definition queued_runs (d : DB) : list Run :=
  omap (λ p, scanRun d p.1 p.2)
    (stable_sort queue_order (filter (λ p, tr_state p.2 = Queued) (map_to_list (task_runs d)))).

Definition ListQueued : Prog C (list Run) := pool_query "读取排队任务" queued_runs.

Definition count_active (definitionID : string) (runs : gmap string RunRow) : Z :=
  Z.of_nat (length (filter (λ p : string * RunRow,
    rs_task_definition_id (tr_spec p.2) = definitionID ∧ active (tr_state p.2) = true) (map_to_list runs))).

Definition CountActive (definitionID : string) : Prog C Z :=
  pool_query "统计任务并发" (λ d, count_active definitionID (task_runs d)).

Definition ListReleasedLeases (now : Time) : Prog C (list Lease) :=
  pool_query "" (λ d,
    (λ p, mkLease p.1 (rl_task_run_id p.2) (rl_server_id p.2) (mkResources 0 0 0) zero_time) <$>
      filter (λ p, is_Some (rl_released_at p.2) ∧ now < rl_expires_at p.2) (map_to_list (resource_leases d))).

Definition lease_order (a b : string * LeaseRow) : bool :=
  (rl_created_at a.2 <? rl_created_at b.2) ||
  ((rl_created_at a.2 =? rl_created_at b.2) && string_lt a.1 b.1).

Definition lease_active (d : DB) (now : Time) (l : LeaseRow) : bool :=
  bool_decide (rl_released_at l = None) && (now <? rl_expires_at l) &&
  match task_runs d !! rl_task_run_id l with Some row => active (tr_state row) | None => false end.

Definition active_leases (now : Time) (d : DB) : list Lease :=
  (λ p, mkLease p.1 (rl_task_run_id p.2) (rl_server_id p.2) (rl_resources p.2) (rl_expires_at p.2)) <$>
    stable_sort lease_order (filter (λ p, lease_active d now p.2 = true) (map_to_list (resource_leases d))).

Definition ListActiveLeases (now : Time) : Prog C (list Lease) :=
  pool_query "读取活动资源租约" (active_leases now).

(** [Snapshots]: the latest report of each server, the state of the run's script on
    it, and a fairness score from the time since its last assignment. *)
Definition latest_snapshot (serverID : string) (d : DB) : option ServerSnapshotRow :=
  head (stable_sort (λ a b, ss_collected_at b <? ss_collected_at a)
    (filter (λ s, ss_server_id s = serverID) (server_snapshots d))).

Definition last_assigned (serverID : string) (d : DB) : option Time :=
  foldr (λ p acc, if bool_decide (tr_assigned_server_id p.2 = Some serverID)
                  then match tr_assigned_at p.2, acc with
                       | Some t, Some m => Some (Z.max t m)
                       | Some t, None => Some t
                       | None, _ => acc
                       end
                  else acc) None (map_to_list (task_runs d)).

(** [LEAST(10000, GREATEST(0, seconds*10000/3600))::bigint], rounded. *)
Definition fairness (now : Time) (assigned : option Time) : Z :=
  match assigned with
  | None => 10000
  | Some t => Z.min 10000 (Z.max 0 ((2 * (now - t) * 10000 + hour) / (2 * hour)))
  end.

Definition snapshot_of (d : DB) (now : Time) (versionID : string) (id : string) (s : ServerRow) : Snapshot :=
  let report := latest_snapshot id d in
  let field (f : ServerSnapshotRow → Z) := match report with Some r => f r | None => 0 end in
  let syncState := match script_syncs d !! (id, versionID) with Some sync => sy_status sync | None => "" end in
  let cpuTotal := field ss_cpu_total_milli in
  mkSnapshot (se_agent_capabilities s) id (se_status s) (se_enabled s) (se_drain_requested s) (se_labels s)
    (se_runtimes s) (se_max_concurrency s) (field ss_running_tasks)
    cpuTotal (Z.max (cpuTotal - field ss_cpu_used_milli) 0)
    (field ss_memory_total_bytes) (field ss_memory_available_bytes)
    (field ss_disk_total_bytes) (field ss_disk_available_bytes)
    {[versionID := bool_decide (syncState = SyncReady)]}
    {[versionID := bool_decide (syncState = SyncDrifted) || bool_decide (syncState = SyncFailed)]}
    (se_scheduling_weight s) (fairness now (last_assigned id d)).

Definition Snapshots (run : Run) : Prog C (list Snapshot) :=
  let! now := clock_now in
  pool_query "读取服务器调度快照" (λ d,
    (λ p, snapshot_of d now (run_ScriptVersionID run) p.1 p.2) <$>
      stable_sort (λ a b, string_lt a.1 b.1) (map_to_list (servers d))).

(** ** Assign *)

(** [INSERT INTO script_syncs ... ON CONFLICT DO NOTHING] *)
Definition ensure_sync (serverID versionID : string) (at_ : Time) (d : DB) : option DB :=
  if bool_decide (is_Some (servers d !! serverID)) && bool_decide (is_Some (script_versions d !! versionID)) then
    match script_syncs d !! (serverID, versionID) with
    | Some _ => Some d
    | None => Some (d <| script_syncs ::= <[(serverID, versionID) := new_sync at_]> |>)
    end
  else None.

Definition script_verified (serverID versionID : string) (d : DB) : option bool :=
  match script_syncs d !! (serverID, versionID), script_versions d !! versionID with
  | Some sync, Some version =>
    Some (bool_decide (sy_status sync = SyncReady) &&
          bool_decide (sy_artifact_sha256 sync = Some (sv_artifact_sha256 version)))
  | _, _ => None
  end.

Definition queued_version (runID : string) (at_ : Time) (d : DB) : option string :=
  match task_runs d !! runID with
  | Some row => if bool_decide (tr_state row = Queued) && (rs_queued_at (tr_spec row) <=? at_)
                then Some (rs_script_version_id (tr_spec row)) else None
  | None => None
  end.

Definition assigned_row (a : Assignment) (row : RunRow) : RunRow :=
  row <| tr_state := Assigned |> <| tr_assigned_server_id := Some (as_ServerID a) |>
      <| tr_assigned_at := Some (as_AssignedAt a) |> <| tr_execution_token := Some (as_ExecutionToken a) |>
      <| tr_process_confirmed_gone := false |> <| tr_result_summary := "" |> <| tr_updated_at := as_AssignedAt a |>.

(** [UPDATE task_runs AS candidate ... WHERE (SELECT count(...)) < candidate.max_concurrency
    RETURNING id]: whether a row was updated. *)
Definition assign_run (a : Assignment) (d : DB) : option (DB * bool) :=
  match task_runs d !! as_RunID a with
  | None => Some (d, false)
  | Some row =>
    if bool_decide (tr_state row = Queued) &&
       (count_active (rs_task_definition_id (tr_spec row)) (task_runs d) <? rs_max_concurrency (tr_spec row))
    then if token_used (as_ExecutionToken a) (as_RunID a) d || negb (bool_decide (is_Some (servers d !! as_ServerID a)))
         then None
         else Some (update_run (as_RunID a) (assigned_row a) d, true)
    else Some (d, false)
  end.

Definition lease_row (a : Assignment) : LeaseRow :=
  mkLeaseRow (as_RunID a) (as_ServerID a) (le_Resources (as_Lease a)) (le_ExpiresAt (as_Lease a)) None (as_AssignedAt a).

Definition assigned_payload (a : Assignment) : Payload :=
  no_payload <| pl_serverId := Some (as_ServerID a) |> <| pl_leaseId := Some (le_ID (as_Lease a)) |>.

Definition Assign (a : Assignment) : Prog C bool :=
  transaction "开始任务分配事务" (
    let! definitionID := query "读取任务并发键" (λ d,
      (λ row, rs_task_definition_id (tr_spec row)) <$> task_runs d !! as_RunID a) in
    match definitionID with
    | None => ret false
    | Some _ =>
      query "锁定任务并发配额" (λ _, tt) ;;!
      let! version := query "锁定待同步运行" (queued_version (as_RunID a) (as_AssignedAt a)) in
      match version with
      | None => ret false
      | Some versionID =>
        exec "准备按需脚本同步" (ensure_sync (as_ServerID a) versionID (as_AssignedAt a)) ;;!
        let! verified := query_one "检查按需脚本同步" (script_verified (as_ServerID a) versionID) in
        if negb verified then commit "" ;;! ret false
        else
          let! updated := stmt "锁定任务分配" (assign_run a) in
          if negb updated then ret false
          else
            exec "保存数据库资源租约" (insert_lease (le_ID (as_Lease a)) (lease_row a)) ;;!
            exec "写入任务分配事件" (append_event (as_RunID a) "run.assigned" Assigned (assigned_payload a)
              (as_AssignedAt a) None) ;;!
            commit "提交任务分配事务" ;;!
            ret true
      end
    end).

(** ** Expire and SetQueueReason *)

Definition expired_row (at_ : Time) (row : RunRow) : RunRow :=
  row <| tr_state := Expired |> <| tr_finished_at := Some at_ |> <| tr_updated_at := at_ |>.

Definition is_queued (runID : string) (d : DB) : bool :=
  match task_runs d !! runID with Some row => bool_decide (tr_state row = Queued) | None => false end.

Definition Expire (runID : string) (at_ : Time) : Prog C bool :=
  transaction "开始任务过期事务" (
    let! expired := stmt "标记排队任务过期" (λ d,
      if is_queued runID d then Some (update_run runID (expired_row at_) d, true) else Some (d, false)) in
    if negb expired then ret false
    else
      exec "写入任务过期事件" (append_event runID "run.expired" Expired (message "任务超过最大等待时间") at_ None) ;;!
      commit "提交任务过期事务" ;;!
      ret true).

Definition needs_reason (runID reason : string) (d : DB) : bool :=
  match task_runs d !! runID with
  | Some row => bool_decide (tr_state row = Queued) && negb (bool_decide (tr_result_summary row = reason))
  | None => false
  end.

Definition SetQueueReason (runID reason : string) : Prog C unit :=
  transaction "" (
    let! changed := stmt "" (λ d,
      if needs_reason runID reason d
      then Some (update_run runID (λ row, row <| tr_result_summary := reason |>) d, true) else Some (d, false)) in
    let! now := clock_now in
    (if changed
     then exec "" (append_event runID "run.queue_reason" Queued (message reason) now None)
     else ret tt) ;;!
    commit "").

(** ** What is committed *)

Record assigned_effect (a : Assignment) (row : RunRow) (d d' : DB) : Prop := {
  ae_row : task_runs d !! as_RunID a = Some row;
  ae_queued : tr_state row = Queued;
  ae_due : rs_queued_at (tr_spec row) ≤ as_AssignedAt a;
  ae_verified : script_verified (as_ServerID a) (rs_script_version_id (tr_spec row)) d = Some true;
  ae_quota : count_active (rs_task_definition_id (tr_spec row)) (task_runs d) < rs_max_concurrency (tr_spec row);
  ae_token : ∀ i r, i ≠ as_RunID a → task_runs d !! i = Some r → tr_execution_token r ≠ Some (as_ExecutionToken a);
  ae_lease : resource_leases d !! le_ID (as_Lease a) = None;
  ae_tables : d' = d <| task_runs := <[as_RunID a := assigned_row a row]> (task_runs d) |>
                     <| resource_leases := <[le_ID (as_Lease a) := lease_row a]> (resource_leases d) |>
                     <| run_events := <[as_RunID a := events_of d (as_RunID a) ++
                          [mkEventRow (next_sequence (events_of d (as_RunID a))) "run.assigned" Assigned
                             (assigned_payload a) (as_AssignedAt a) None]]> (run_events d) |>
}.

Definition Assign_post (a : Assignment) (d : DB) (r : Result bool) (d' : DB) : Prop :=
  let refused := d' = d ∨ ∃ versionID, ensure_sync (as_ServerID a) versionID (as_AssignedAt a) d = Some d' in
  match r with
  | Ok true => ∃ row, assigned_effect a row d d'
  | Ok false => refused
  | Err (EStorage _) => refused ∨ ∃ row, assigned_effect a row d d'
  | Err _ => False
  end.

Lemma queued_version_inv runID at_ d versionID :
  queued_version runID at_ d = Some versionID →
  ∃ row, task_runs d !! runID = Some row ∧ tr_state row = Queued ∧ rs_queued_at (tr_spec row) ≤ at_ ∧
         versionID = rs_script_version_id (tr_spec row).
Proof.
  unfold queued_version. destruct (task_runs d !! runID) as [row|]; [|done].
  destruct (_ && _) eqn:E; [|done]. intros [= <-]. apply andb_true_iff in E as [E1 E2].
  apply bool_decide_eq_true in E1. apply Z.leb_le in E2. eauto.
Qed.

Lemma ensure_sync_verified serverID versionID at_ d d1 :
  ensure_sync serverID versionID at_ d = Some d1 → script_verified serverID versionID d1 = Some true →
  d1 = d.
Proof.
  unfold ensure_sync. destruct (_ && _); [|done].
  destruct (script_syncs d !! (serverID, versionID)) eqn:E; intros [= <-]; [done|].
  unfold script_verified. simpl. rewrite lookup_insert_eq. by destruct (script_versions d !! versionID).
Qed.

Lemma ensure_sync_frame serverID versionID at_ d d1 :
  ensure_sync serverID versionID at_ d = Some d1 →
  task_runs d1 = task_runs d ∧ run_events d1 = run_events d ∧ resource_leases d1 = resource_leases d.
Proof.
  unfold ensure_sync. destruct (_ && _); [|done].
  destruct (script_syncs d !! (serverID, versionID)); by intros [= <-].
Qed.

Lemma token_used_false token except d :
  token_used token except d = false →
  ∀ i r, i ≠ except → task_runs d !! i = Some r → tr_execution_token r ≠ Some token.
Proof.
  unfold token_used. rewrite existsb_false_iff. intros H i r Hne Hr Ht.
  specialize (H (i, r)). rewrite elem_of_map_to_list in H. specialize (H Hr). simpl in H.
  by rewrite !bool_decide_true in H.
Qed.

Lemma assign_run_true a d d1 :
  assign_run a d = Some (d1, true) →
  ∃ row, task_runs d !! as_RunID a = Some row ∧ tr_state row = Queued ∧
    count_active (rs_task_definition_id (tr_spec row)) (task_runs d) < rs_max_concurrency (tr_spec row) ∧
    (∀ i r, i ≠ as_RunID a → task_runs d !! i = Some r → tr_execution_token r ≠ Some (as_ExecutionToken a)) ∧
    d1 = update_run (as_RunID a) (assigned_row a) d.
Proof.
  unfold assign_run. destruct (task_runs d !! as_RunID a) as [row|] eqn:Hrow; [|done].
  destruct (_ && _) eqn:E; [|done]. destruct (_ || _) eqn:E2; [done|]. intros [= <-].
  apply andb_true_iff in E as [E1 E3]. apply bool_decide_eq_true in E1. apply Z.ltb_lt in E3.
  apply orb_false_iff in E2 as [E2 _]. exists row. split_and!; try done. by apply token_used_false.
Qed.

Lemma insert_lease_inv id l d d1 :
  insert_lease id l d = Some d1 →
  resource_leases d !! id = None ∧ d1 = d <| resource_leases ::= <[id := l]> |>.
Proof.
  unfold insert_lease. destruct (resource_leases d !! id); [done|].
  repeat case_match; intros; by simplify_eq.
Qed.

Lemma Assign_effect_intro a versionID d d1 d2 d3 d4 :
  queued_version (as_RunID a) (as_AssignedAt a) d = Some versionID →
  ensure_sync (as_ServerID a) versionID (as_AssignedAt a) d = Some d1 →
  script_verified (as_ServerID a) versionID d1 = Some true →
  assign_run a d1 = Some (d2, true) →
  insert_lease (le_ID (as_Lease a)) (lease_row a) d2 = Some d3 →
  append_event (as_RunID a) "run.assigned" Assigned (assigned_payload a) (as_AssignedAt a) None d3 = Some d4 →
  ∃ row, assigned_effect a row d d4.
Proof.
  intros (row & Hrow & Hq & Hdue & ->)%queued_version_inv Hsync Hver Hrun Hlease Hev.
  pose proof (ensure_sync_verified _ _ _ _ _ Hsync Hver) as ->.
  apply assign_run_true in Hrun as (row' & Hrow' & _ & Hquota & Htok & ->).
  assert (row' = row) as -> by congruence.
  apply insert_lease_inv in Hlease as [Hl ->]. apply append_event_inv in Hev as [_ ->].
  exists row. split; try done. simpl. f_equal. by apply (update_run_insert _ (assigned_row a) d).
Qed.

Lemma Assign_spec a : db_spec (Assign a) (Assign_post a).
Proof.
  apply db_spec_transaction; [by left; left|]. intros c.
  repeat tx_step; try (by left; left); try (by left); tx_facts.
  all: try (left; right; by eauto).
  all: try (right; by eauto).
  all: try (by eapply Assign_effect_intro).
  all: right; by eapply Assign_effect_intro.
Qed.

Lemma assigned_effect_sound a row d d' : assigned_effect a row d d' → sound d d'.
Proof.
  intros [H1 H2 H3 H4 H5 H6 H7 ->].
  apply sound_assign with (id := as_RunID a) (row := row) (row' := assigned_row a row)
    (lid := le_ID (as_Lease a)) (l := lease_row a) (token := as_ExecutionToken a)
    (e := mkEventRow (next_sequence (events_of d (as_RunID a))) "run.assigned" Assigned
            (assigned_payload a) (as_AssignedAt a) None); try done.
  intros i. unfold events_of at 1. simpl. destruct (decide (i = as_RunID a)) as [->|Hne].
  - by rewrite lookup_insert_eq.
  - by rewrite lookup_insert_ne.
Qed.

Lemma Assign_sound a : db_spec (Assign a) (λ d _ d', sound d d').
Proof.
  eapply db_spec_mono; [apply Assign_spec|]. intros d r d' H.
  assert (d' = d ∨ (∃ versionID, ensure_sync (as_ServerID a) versionID (as_AssignedAt a) d = Some d') ∨
    ∃ row, assigned_effect a row d d') as [->|[(v & Hs)|(row & He)]].
  { destruct r as [[]|[]]; simpl in H; tauto. }
  - reflexivity.
  - apply ensure_sync_frame in Hs as (? & ? & ?). by apply sound_other.
  - by eapply assigned_effect_sound.
Qed.

Lemma count_active_insert definitionID (runs : gmap string RunRow) id row row' :
  runs !! id = Some row →
  count_active definitionID (<[id := row']> runs) =
    count_active definitionID runs
    - (if decide (rs_task_definition_id (tr_spec row) = definitionID ∧ active (tr_state row) = true) then 1 else 0)
    + (if decide (rs_task_definition_id (tr_spec row') = definitionID ∧ active (tr_state row') = true) then 1 else 0).
Proof.
  intros Hrow. unfold count_active.
  assert (∀ r, map_to_list (<[id := r]> runs) ≡ₚ (id, r) :: map_to_list (delete id runs)) as Hp.
  { intros r. rewrite <-insert_delete_eq. apply map_to_list_insert, lookup_delete_eq. }
  rewrite (Hp row'). rewrite <-(insert_id runs id row Hrow) at 2. rewrite (Hp row).
  rewrite !filter_cons. simpl. repeat case_decide; simpl; lia.
Qed.

(** An assignment takes one of the definition's places. *)
Lemma assigned_effect_count a row d d' :
  assigned_effect a row d d' →
  let definitionID := rs_task_definition_id (tr_spec row) in
  count_active definitionID (task_runs d') = count_active definitionID (task_runs d) + 1.
Proof.
  intros [H1 H2 _ _ _ _ _ ->]. simpl. rewrite (count_active_insert _ _ _ row) by done. simpl.
  rewrite decide_False by (rewrite H2; naive_solver). rewrite decide_True by done. lia.
Qed.

Lemma Expire_spec runID at_ :
  db_spec (Expire runID at_) (λ d r d',
    let done := ∃ row, task_runs d !! runID = Some row ∧ tr_state row = Queued ∧
      append_event runID "run.expired" Expired (message "任务超过最大等待时间") at_ None
        (update_run runID (expired_row at_) d) = Some d' in
    match r with
    | Ok true => done
    | Ok false => d' = d ∧ is_queued runID d = false
    | Err (EStorage _) => d' = d ∨ done
    | Err _ => False
    end).
Proof.
  apply db_spec_transaction; [by left|]. intros c. tx_step. tx_step; [tx_step; by left| |tx_step; by left].
  destruct (is_queued runID (part c)) eqn:Eq; simplify_eq; simpl negb; cbv iota.
  - unfold is_queued in Eq. destruct (task_runs (part c) !! runID) as [row|] eqn:Erow; [|done].
    apply bool_decide_eq_true in Eq. repeat tx_step; try (by left); try (right; by eauto); by eauto.
  - repeat tx_step; done.
Qed.

Lemma expired_sound runID at_ d d' row :
  task_runs d !! runID = Some row → tr_state row = Queued →
  append_event runID "run.expired" Expired (message "任务超过最大等待时间") at_ None
    (update_run runID (expired_row at_) d) = Some d' → sound d d'.
Proof.
  intros Hrow Hq [_ ->]%append_event_inv Hw. refine (db_change_sound _ _ _ Hw).
  pose proof (wf_runs _ Hw runID) as Hrun. rewrite Hrow in Hrun. destruct Hrun as [_ Hh].
  eapply single_change; [done|exact Hrow|by apply (update_run_insert _ (expired_row at_) d)|
    intros i; rewrite events_of_insert; reflexivity| |].
  - apply row_change_event; try done.
    + intros [R1 R2 R3 R4]. split; simpl; eauto; done.
    + simpl. by rewrite Hq.
  - left. split; [done|]. by rewrite Hq.
Qed.

Lemma Expire_sound runID at_ : db_spec (Expire runID at_) (λ d _ d', sound d d').
Proof.
  eapply db_spec_mono; [apply Expire_spec|]. cbv zeta. intros d r d' H.
  assert (d' = d ∨ ∃ row, task_runs d !! runID = Some row ∧ tr_state row = Queued ∧
      append_event runID "run.expired" Expired (message "任务超过最大等待时间") at_ None
        (update_run runID (expired_row at_) d) = Some d') as [->|(row & H1 & H2 & H3)].
  { destruct r as [[]|[]]; tauto. }
  - reflexivity.
  - by eapply expired_sound.
Qed.

Lemma SetQueueReason_sound runID reason : db_spec (SetQueueReason runID reason) (λ d _ d', sound d d').
Proof.
  apply db_spec_transaction; [done|]. intros c. tx_step. tx_step; [by tx_step| |by tx_step].
  destruct (needs_reason runID reason (part c)) eqn:En; simplify_eq.
  - unfold needs_reason in En. destruct (task_runs (part c) !! runID) as [row|] eqn:Hrow; [|done].
    apply andb_true_iff in En as [Eq _]. apply bool_decide_eq_true in Eq.
    repeat tx_step; try done.
    all: match goal with H : append_event _ _ _ _ _ _ _ = Some _ |- _ => apply append_event_inv in H as [_ ->] end.
    all: intros Hw; refine (db_change_sound _ _ _ Hw).
    all: pose proof (wf_runs _ Hw runID) as Hrun; rewrite Hrow in Hrun; destruct Hrun as [_ Hh].
    all: eapply single_change; [done|exact Hrow|by apply (update_run_insert _ _ (part c))|
      intros i; rewrite events_of_insert; reflexivity| |left; split; [done|by simpl]].
    all: apply row_change_event; simpl; try done; try (intros [R1 R2 R3 R4]; by split); by rewrite Eq.
  - repeat tx_step; done.
Qed.

(** ** Properties *)

(** C34: [Assign] is the only way a run gets a server, and it is exact: it succeeds
    only for a queued run whose eligibility time has come, on a server that holds the
    verified artifact of exactly the run's version, with an unused token and an unused
    lease identifier, and within the definition's concurrency limit, which still holds
    afterwards; the row, the lease and the event are then committed together.  In every
    other case at most the request to synchronise the script is committed. *)
Theorem Assign_correct a :
  db_spec (Assign a) (λ d r d', Assign_post a d r d' ∧
    (r = Ok true → ∃ row, task_runs d !! as_RunID a = Some row ∧
       count_active (rs_task_definition_id (tr_spec row)) (task_runs d') =
         count_active (rs_task_definition_id (tr_spec row)) (task_runs d) + 1 ∧
       count_active (rs_task_definition_id (tr_spec row)) (task_runs d') ≤ rs_max_concurrency (tr_spec row))).
Proof.
  eapply db_spec_mono; [apply Assign_spec|]. intros d r d' H. split; [done|]. intros ->.
  destruct H as (row & He). exists row. pose proof (assigned_effect_count _ _ _ _ He) as Hc.
  simpl in Hc. destruct He. split_and!; [done|done|lia].
Qed.

(** Expiring a run: only a queued run expires, it gets its finish time and its
    event in the same transaction, and a run that is no longer queued is left alone. *)
Theorem Expire_correct runID at_ :
  db_spec (Expire runID at_) (λ d r d',
    match r with
    | Ok true => ∃ row, task_runs d !! runID = Some row ∧ tr_state row = Queued ∧
        task_runs d' = <[runID := expired_row at_ row]> (task_runs d) ∧
        ∃ e, events_of d' runID = events_of d runID ++ [e] ∧ er_state e = Expired ∧ er_occurred_at e = at_
    | Ok false => d' = d ∧ ∀ row, task_runs d !! runID = Some row → tr_state row ≠ Queued
    | Err e => (∃ context, e = EStorage context) ∧
        (d' = d ∨ ∃ row, task_runs d !! runID = Some row ∧ tr_state row = Queued ∧
           task_runs d' = <[runID := expired_row at_ row]> (task_runs d))
    end).
Proof.
  eapply db_spec_mono; [apply Expire_spec|]. cbv zeta. intros d r d' H.
  assert (∀ row, task_runs d !! runID = Some row →
    append_event runID "run.expired" Expired (message "任务超过最大等待时间") at_ None
      (update_run runID (expired_row at_) d) = Some d' →
    task_runs d' = <[runID := expired_row at_ row]> (task_runs d) ∧
    ∃ e, events_of d' runID = events_of d runID ++ [e] ∧ er_state e = Expired ∧ er_occurred_at e = at_) as Hd.
  { intros row Hrow [_ ->]%append_event_inv. split; [by apply (update_run_insert _ (expired_row at_) d)|].
    rewrite events_of_insert, decide_True by done. by eexists. }
  destruct r as [[]|[]]; try done.
  - destruct H as (row & H1 & H2 & H3). exists row. destruct (Hd _ H1 H3) as (Ht & e & He). eauto 10.
  - destruct H as [-> Hn]. split; [done|]. intros row Hrow Hq. unfold is_queued in Hn.
    by rewrite Hrow, bool_decide_true in Hn.
  - split; [by eauto|]. destruct H as [->|(row & H1 & H2 & H3)]; [by left|right].
    exists row. destruct (Hd _ H1 H3). eauto.
Qed.

End store.
