(* ===== verification/SchedulerService.v ===== *)
(** * SchedulerService

    [internal/scheduler/service.go]: the scheduling decision for one run
    ([ScheduleOne]), the reaction to events and the periodic scan.

    The service is written against the interfaces of [types.go], as classes: a
    capability that the code discovers with a type assertion is an [option].  They
    are instantiated with the PostgreSQL store ([SchedulerStore]) and the Redis lease
    store ([RedisLease]) in [Platform].

    An error hides the [Outcome] Go returns next to it: every caller in the code
    drops it in that case. *)

From S2P Require Import Prelude GoStd Model World SchedulerCore RedisLease Schema Session Lifecycle RunEvents Reconcile.
From S2P Require Import SchedulerStore.
Import Filtering Scoring Queueing.

(** ** Interfaces *)

Class RunStore (C : Type) : Type := {
  store_Get : string → Prog C Run;
  store_ListQueued : Prog C (list Run);
  store_CountActive : string → Prog C Z;
  store_Assign : Assignment → Prog C bool;
  store_Expire : string → Time → Prog C bool;
  store_SetQueueReason : option (string → string → Prog C unit);
  store_RetryFailed : option (Time → Prog C unit);
  store_ListReleasedLeases : option (Time → Prog C (list Lease));
  store_ListActiveLeases : option (Time → Prog C (list Lease))
}.

Class ServerSource (C : Type) : Type := { source_Snapshots : Run → Prog C (list Snapshot) }.

Class LeaseStore (C : Type) : Type := {
  leases_TryReserve : LeaseRequest → Prog C (option Lease);
  leases_Release : Lease → Prog C unit;
  leases_Restore : option (Lease → Time → Prog C unit)
}.

(** alert.Event, as the scheduler fills it. *)
Record AlertEvent : Type := mkAlertEvent {
  al_ResourceType : string; al_ResourceID : string; al_Code : string;
  al_Severity : string; al_Title : string; al_Message : string
}.

Class AlertSink (C : Type) : Type := { sink_Raise : option (AlertEvent → Prog C unit) }.

(** Alerts go to tables of their own. *)
Class AlertLaw {C : Type} `{alerts : !AlertSink C} : Prop := {
  raise_frame : ∀ raise event (c : C), sink_Raise = Some raise → wp (raise event) c (λ _ c', c' = c)
}.

Section service.
Context {C : Type} `{!RunStore C, !ServerSource C, !LeaseStore C, !AlertSink C, !Has (gmap string Run) C}.

(** The service's own queue. *)
Definition queue_do {A} (f : gmap string Run → gmap string Run * A) : Prog C A :=
  local (λ c, let '(q, a) := f (part c) in (set_part q c, a)).
Definition queue_push (run : Run) : Prog C unit := queue_do (λ q, (Push run q, tt)).
Definition queue_remove (runID : string) : Prog C unit := queue_do (λ q, (Remove runID q, tt)).
Definition queue_pop : Prog C (option Run) := queue_do (λ q, let '(r, q') := Pop q in (q', r)).
Definition queue_len : Prog C Z := queue_do (λ q, (q, Len q)).

Definition leaseTTL (run : Run) : Duration :=
  let timeout := wrap64 (run_TimeoutSeconds run * second) in
  let timeout := if timeout <=? 0 then hour else timeout in
  wrap64 (timeout + 2 * minute).

Definition setQueueReason (runID reason : string) : Prog C unit :=
  match store_SetQueueReason with Some set => set runID reason | None => ret tt end.

Definition queue_timeout_alert (runID : string) : AlertEvent :=
  mkAlertEvent "task_run" runID "task_queue_timeout" "warning" "任务排队超时"
    "在最大等待时间内没有可分配的服务器，任务已停止排队".

(** The loop over the ranked candidates: [Some] is a [return] inside the loop,
    [None] its end. *)
Fixpoint try_candidates (run : Run) (now : Time) (candidates : list Candidate) : Prog C (option Outcome) :=
  match candidates with
  | [] => ret None
  | candidate :: rest =>
    let! reserved := leases_TryReserve (mkLeaseRequest (run_ID run) (cd_ServerID candidate)
                       (cd_Available candidate) (run_Resources run) now (leaseTTL run)) in
    match reserved with
    | None => try_candidates run now rest
    | Some lease =>
      let! token := new_uuid in
      let! assigned := catch (store_Assign (mkAssignment (run_ID run) (cd_ServerID candidate)
                         (run_ScriptVersionID run) token lease now)) in
      match assigned with
      | Err e => catch (leases_Release lease) ;;! throw e
      | Ok false => catch (leases_Release lease) ;;! ret (Some OutcomeQueued)
      | Ok true => queue_remove (run_ID run) ;;! ret (Some OutcomeAssigned)
      end
    end
  end.

(** The part of [ScheduleOne] after the deadline check. *)
Definition place (run : Run) (now : Time) : Prog C Outcome :=
  let! active := store_CountActive (run_DefinitionID run) in
  if (0 <? run_MaxConcurrency run) && (run_MaxConcurrency run <=? active) then
    queue_push run ;;!
    setQueueReason (run_ID run) "等待任务并发名额释放" ;;!
    ret OutcomeQueued
  else
    let! snapshots := source_Snapshots run in
    let candidates := Filter run snapshots in
    let! placed := try_candidates run now (RankCandidates candidates) in
    match placed with
    | Some outcome => ret outcome
    | None =>
      queue_push run ;;!
      let reason :=
        if RequiresArtifacts run && bool_decide (length candidates = 0%nat) &&
           bool_decide (0 < length (Filter (run <| RequiresArtifacts := false |>) snapshots))%nat
        then "等待支持产物采集的执行代理，请将兼容节点升级至具备 run_artifacts_v1 能力的版本"
        else "等待满足运行环境、标签、资源和并发要求的在线服务器" in
      setQueueReason (run_ID run) reason ;;!
      ret OutcomeQueued
    end.

Definition waited_too_long (run : Run) (now : Time) : bool :=
  (0 <? run_MaxWaitSeconds run) && negb (now <? run_QueuedAt run + wrap64 (run_MaxWaitSeconds run * second)).

Definition ScheduleOne (runID : string) : Prog C Outcome :=
  let! run := store_Get runID in
  if negb (bool_decide (run_State run = Queued)) then
    ret (if bool_decide (run_State run = Expired) then OutcomeExpired else OutcomeQueued)
  else
    let! now := clock_now in
    if now <? run_QueuedAt run then ret OutcomeQueued
    else
      let! expired := (if waited_too_long run now then store_Expire (run_ID run) now else ret false) in
      if expired then
        queue_remove (run_ID run) ;;!
        (match sink_Raise with
         | Some raise => raise (queue_timeout_alert (run_ID run))
         | None => ret tt
         end) ;;!
        ret OutcomeExpired
      else place run now.

Definition restoreActiveLeases : Prog C unit :=
  match store_ListActiveLeases, leases_Restore with
  | Some list_active, Some restore =>
    let! now := clock_now in
    let! leases := list_active now in
    for_each leases (λ lease, restore lease now)
  | _, _ => ret tt
  end.

(** [for index := 0; index < count; index++]: pop and schedule. *)
Fixpoint drain (count : nat) : Prog C unit :=
  match count with
  | O => ret tt
  | S count =>
    let! popped := queue_pop in
    match popped with
    | None => ret tt
    | Some run => ScheduleOne (run_ID run) ;;! drain count
    end
  end.

Definition Scan : Prog C unit :=
  (match store_RetryFailed with
   | Some retry => let! now := clock_now in retry now
   | None => ret tt
   end) ;;!
  (match store_ListReleasedLeases with
   | Some list_released =>
     let! now := clock_now in
     let! leases := list_released now in
     for_each leases leases_Release
   | None => ret tt
   end) ;;!
  restoreActiveLeases ;;!
  let! runs := store_ListQueued in
  for_each runs queue_push ;;!
  let! count := queue_len in
  drain (Z.to_nat count).

Definition HandleEvent (event : SchedulerEvent) : Prog C unit :=
  let type := se_Type event in
  if bool_decide (type = RunQueued) then
    if bool_decide (se_RunID event = "") then throw ErrInvalidEvent
    else ScheduleOne (se_RunID event) ;;! ret tt
  else if bool_decide (type = ResourceReleased) || bool_decide (type = ServerOnline) ||
          bool_decide (type = ServerChanged) || bool_decide (type = ScriptReady)
  then Scan
  else throw ErrInvalidEvent.

(** ** What the service needs of its stores, and what it then keeps *)

Definition keeps (I : C → Prop) {A} (m : Prog C A) : Prop := ∀ c, I c → wp m c (λ _ c', I c').

Definition keeps_opt (I : C → Prop) {A} (m : option (A → Prog C unit)) : Prop :=
  match m with Some f => ∀ a, keeps I (f a) | None => True end.

(** The contract of the stores: each of their operations keeps [I]. *)
Class StoreContract (I : C → Prop) : Prop := {
  sc_get : ∀ id, keeps I (store_Get id);
  sc_list : keeps I store_ListQueued;
  sc_count : ∀ id, keeps I (store_CountActive id);
  sc_assign : ∀ a, keeps I (store_Assign a);
  sc_expire : ∀ id t, keeps I (store_Expire id t);
  sc_reason : match store_SetQueueReason with Some f => ∀ id r, keeps I (f id r) | None => True end;
  sc_retry : keeps_opt I store_RetryFailed;
  sc_released : match store_ListReleasedLeases with Some f => ∀ t, keeps I (f t) | None => True end;
  sc_active : match store_ListActiveLeases with Some f => ∀ t, keeps I (f t) | None => True end;
  sc_snapshots : ∀ run, keeps I (source_Snapshots run);
  sc_reserve : ∀ request, keeps I (leases_TryReserve request);
  sc_release : ∀ lease, keeps I (leases_Release lease);
  sc_restore : match leases_Restore with Some f => ∀ l t, keeps I (f l t) | None => True end;
  sc_raise : keeps_opt I sink_Raise;
  sc_queue : ∀ c q, I c → queue_ok q → I (set_part q c);
  sc_queue_ok : ∀ c, I c → queue_ok (part c)
}.

Section keeping.
Context (I : C → Prop) `{!StoreContract I}.

Lemma keeps_ret {A} (a : A) : keeps I (ret a).
Proof. intros c H. by apply wp_ret. Qed.

Lemma keeps_throw {A} e : keeps I (A := A) (throw e).
Proof. intros c H. by apply wp_throw. Qed.

Lemma keeps_bind {A B} (m : Prog C A) (k : A → Prog C B) :
  keeps I m → (∀ a, keeps I (k a)) → keeps I (bind m k).
Proof.
  intros Hm Hk c H. apply wp_bind. eapply wp_mono; [by apply Hm|]. intros [a|e] c' H'; [by apply Hk|done].
Qed.

Lemma keeps_catch {A} (m : Prog C A) : keeps I m → keeps I (catch m).
Proof. intros Hm c H. apply wp_catch. by apply Hm. Qed.

Lemma keeps_clock : keeps I clock_now.
Proof. intros c H. by apply wp_clock_now. Qed.

Lemma keeps_uuid : keeps I new_uuid.
Proof. intros c H. by apply wp_new_uuid. Qed.

Lemma keeps_for_each {A} (l : list A) body : (∀ x, keeps I (body x)) → keeps I (for_each l body).
Proof.
  intros Hb. induction l as [|x l IH]; simpl; [apply keeps_ret|]. apply keeps_bind; [apply Hb|done].
Qed.

Lemma keeps_queue {A} (f : gmap string Run → gmap string Run * A) :
  (∀ q, queue_ok q → queue_ok (f q).1) → keeps I (queue_do f).
Proof.
  intros Hf c H. apply wp_local. pose proof (Hf _ (sc_queue_ok _ H)) as Hq.
  destruct (f (part c)) as [q a]. by apply sc_queue.
Qed.

Lemma Pop_ok q : queue_ok q → queue_ok (Pop q).2.
Proof.
  intros Hq. unfold Pop. case_bool_decide; [done|]. unfold pop_from.
  destruct (sortRuns _); [done|]. by apply Remove_ok.
Qed.

Ltac keep :=
  repeat first
    [ apply keeps_ret | apply keeps_throw | apply keeps_clock | apply keeps_uuid
    | apply keeps_catch | apply keeps_bind; [|intros ?] | apply keeps_for_each; intros ?
    | apply sc_get | apply sc_list | apply sc_count | apply sc_assign | apply sc_expire
    | apply sc_snapshots | apply sc_reserve | apply sc_release ].

Lemma keeps_push run : keeps I (queue_push run).
Proof. apply keeps_queue. intros q. apply Push_ok. Qed.
Lemma keeps_remove id : keeps I (queue_remove id).
Proof. apply keeps_queue. intros q. apply Remove_ok. Qed.
Lemma keeps_pop : keeps I queue_pop.
Proof. apply keeps_queue. intros q Hq. pose proof (Pop_ok q Hq). by destruct (Pop q). Qed.
Lemma keeps_len : keeps I queue_len.
Proof. by apply keeps_queue. Qed.

Lemma keeps_reason id reason : keeps I (setQueueReason id reason).
Proof. unfold setQueueReason. pose proof sc_reason as H. destruct store_SetQueueReason; [apply H|apply keeps_ret]. Qed.

Lemma keeps_candidates run now l : keeps I (try_candidates run now l).
Proof.
  induction l as [|candidate l IH]; simpl; [apply keeps_ret|]. keep.
  destruct a as [lease|]; [|done]. keep. destruct a0 as [[]|e]; keep. apply keeps_remove.
Qed.

Lemma keeps_place run now : keeps I (place run now).
Proof.
  unfold place. keep. destruct (_ && _); keep; [apply keeps_push|apply keeps_reason|apply keeps_candidates|].
  destruct a1; keep; [apply keeps_push|apply keeps_reason].
Qed.

Lemma keeps_ScheduleOne id : keeps I (ScheduleOne id).
Proof.
  unfold ScheduleOne. keep. destruct (negb _); keep. destruct (_ <? _); keep.
  - destruct (waited_too_long _ _); keep.
  - destruct a1; [|apply keeps_place]. keep; [apply keeps_remove|].
    pose proof sc_raise as H. destruct sink_Raise; [apply H|apply keeps_ret].
Qed.

Lemma keeps_drain n : keeps I (drain n).
Proof.
  induction n as [|n IH]; simpl; [apply keeps_ret|].
  apply keeps_bind; [apply keeps_pop|]. intros [run|]; [|apply keeps_ret].
  apply keeps_bind; [apply keeps_ScheduleOne|done].
Qed.

Lemma keeps_restore : keeps I restoreActiveLeases.
Proof.
  unfold restoreActiveLeases. pose proof sc_active as Ha. pose proof sc_restore as Hr.
  destruct store_ListActiveLeases as [f|]; [|apply keeps_ret].
  destruct leases_Restore as [g|]; [|apply keeps_ret]. keep; [apply Ha|apply Hr].
Qed.

Lemma keeps_Scan : keeps I Scan.
Proof.
  unfold Scan. pose proof sc_retry as Hy. pose proof sc_released as Hl.
  apply keeps_bind; [destruct store_RetryFailed; keep; apply Hy|intros _].
  apply keeps_bind; [destruct store_ListReleasedLeases; keep; apply Hl|intros _].
  apply keeps_bind; [apply keeps_restore|intros _]. apply keeps_bind; [apply sc_list|intros runs].
  apply keeps_bind; [apply keeps_for_each, keeps_push|intros _].
  apply keeps_bind; [apply keeps_len|intros count]. apply keeps_drain.
Qed.

Lemma keeps_HandleEvent event : keeps I (HandleEvent event).
Proof.
  unfold HandleEvent. cbv zeta. case_bool_decide.
  - case_bool_decide; [apply keeps_throw|]. apply keeps_bind; [apply keeps_ScheduleOne|intros; apply keeps_ret].
  - destruct (_ || _); [apply keeps_Scan|apply keeps_throw].
Qed.

End keeping.

End service.
