(* ===== verification/RunService.v ===== *)
(** * RunService

    [internal/task/run_service.go]: cancelling runs and the queries of the run
    pages.  Commands to the agents go through an interface; its law is that sending
    does not touch the database. *)

From S2P Require Import Prelude GoStd Model World Schema Session Lifecycle RunEvents Reconcile.

(** [ExecutionCommandSender] *)
Class CommandSender (C : Type) : Type := {
  SendExecutionCommand : string → ExecutionCommand → Prog C unit
}.

Class SenderLaw (C : Type) `{!Has DB C, !CommandSender C} : Prop := {
  send_frame : ∀ serverID command (c : C),
    wp (SendExecutionCommand serverID command) c (λ _ c', part (X := DB) c' = part c)
}.

Section run_service.
Context {C : Type} `{!Has DB C}.

(** ** CancelRun *)

Definition cancelled_row (now : Time) (row : RunRow) : RunRow :=
  row <| tr_state := Cancelled |> <| tr_finished_at := Some now |>
      <| tr_process_confirmed_gone := true |> <| tr_updated_at := now |>.

(** [sender] is the service's [commands], [None] for nil. *)
Definition CancelRun (sender : option (string → ExecutionCommand → Prog C unit)) (id : string) : Prog C unit :=
  transaction "" (
    let! found := query "" (λ d, (λ row, (tr_state row, default "" (tr_assigned_server_id row),
                                          default "" (tr_execution_token row))) <$> task_runs d !! id) in
    match found with
    | None => throw ErrRunNotFound
    | Some (state, serverID, token) =>
      let! now := clock_now in
      if bool_decide (state = Queued) then
        exec "" (λ d, Some (update_run id (cancelled_row now) d)) ;;!
        appendSystemRunEvent id "run.cancelled" Cancelled (message "排队任务已取消") now ;;!
        commit ""
      else if negb (active state) then throw ErrRunNotCancellable
      else
        match sender with
        | None => throw ErrRunCommandUnavailable
        | Some send =>
          if bool_decide (serverID = "") || bool_decide (token = "") then throw ErrRunCommandUnavailable
          else
            let! sent := catch (outside (send serverID (CommandCancel (mkCancelCommand id token)))) in
            match sent with
            | Err _ => throw ErrRunCommandUnavailable
            | Ok _ =>
              appendSystemRunEvent id "run.cancel_requested" state (message "已向执行服务器发送取消命令") now ;;!
              commit ""
            end
        end
    end).

(** ** Queries *)

Record RunView : Type := mkRunView {
  rv_Usage : option ResourceUsage; rv_ID : string; rv_DefinitionID : string; rv_TaskName : string;
  rv_ScriptID : string; rv_ScriptName : string; rv_ScriptVersionID : string; rv_VersionNumber : Z;
  rv_ServerID : string; rv_ServerName : string; rv_TriggerType : string; rv_State : RunState;
  rv_Parameters : gmap string Value; rv_Resources : Resources; rv_RequiredRuntime : string;
  rv_Priority : Z; rv_Attempt : Z; rv_MaxRetries : Z; rv_Idempotent : bool; rv_ProcessConfirmedGone : bool;
  rv_QueuedAt : Time; rv_AssignedAt : option Time; rv_StartedAt : option Time; rv_FinishedAt : option Time;
  rv_ExitCode : option Z; rv_ResultSummary : string; rv_CreatedAt : Time
}.

#[export] Instance eta_RunView : Eta RunView := λ v,
  mkRunView (rv_Usage v) (rv_ID v) (rv_DefinitionID v) (rv_TaskName v) (rv_ScriptID v) (rv_ScriptName v)
    (rv_ScriptVersionID v) (rv_VersionNumber v) (rv_ServerID v) (rv_ServerName v) (rv_TriggerType v) (rv_State v)
    (rv_Parameters v) (rv_Resources v) (rv_RequiredRuntime v) (rv_Priority v) (rv_Attempt v) (rv_MaxRetries v)
    (rv_Idempotent v) (rv_ProcessConfirmedGone v) (rv_QueuedAt v) (rv_AssignedAt v) (rv_StartedAt v)
    (rv_FinishedAt v) (rv_ExitCode v) (rv_ResultSummary v) (rv_CreatedAt v).

(** [runViewSelect] and [scanRunView]: three inner joins, one outer join. *)
Definition scanRunView (d : DB) (id : string) (row : RunRow) : option RunView :=
  let s := tr_spec row in
  match task_definitions d !! rs_task_definition_id s with
  | None => None
  | Some definition =>
    match scripts d !! df_script_id definition, script_versions d !! rs_script_version_id s with
    | Some script, Some version =>
      let server := match tr_assigned_server_id row with Some i => pair i <$> servers d !! i | None => None end in
      Some (mkRunView None id (rs_task_definition_id s) (df_name definition) (df_script_id definition)
        (sc_name script) (rs_script_version_id s) (sv_version version)
        (match server with Some (i, _) => i | None => "" end)
        (match server with Some (_, sv) => se_name sv | None => "" end)
        (rs_trigger_type s) (tr_state row) (rs_parameters_snapshot s) (rs_resources s) (rs_required_runtime s)
        (rs_priority s) (rs_attempt s) (rs_max_retries s) (rs_idempotent s) (tr_process_confirmed_gone row)
        (rs_queued_at s) (tr_assigned_at row) (tr_started_at row) (tr_finished_at row) (tr_exit_code row)
        (tr_result_summary row) (rs_created_at s))
    | _, _ => None
    end
  end.

Record RunFilter : Type := mkRunFilter {
  rf_Query : string; rf_DefinitionID : string; rf_ScriptID : string; rf_ServerID : string;
  rf_State : option RunState; rf_From : option Time; rf_Until : option Time; rf_Limit : Z; rf_Offset : Z
}.

#[export] Instance eta_RunFilter : Eta RunFilter := λ f,
  mkRunFilter (rf_Query f) (rf_DefinitionID f) (rf_ScriptID f) (rf_ServerID f) (rf_State f) (rf_From f)
    (rf_Until f) (rf_Limit f) (rf_Offset f).

Record RunPage : Type := mkRunPage {
  pg_Runs : list RunView; pg_HasMore : bool; pg_Limit : Z; pg_Offset : Z
}.

Definition backslash : ascii := Stdlib.Strings.Ascii.ascii_of_nat 92.
Definition percent : ascii := Stdlib.Strings.Ascii.ascii_of_nat 37.
Definition underscore : ascii := Stdlib.Strings.Ascii.ascii_of_nat 95.

(** [strings.NewReplacer(`\`, `\\`, `%`, `\%`, `_`, `\_`)] *)
Fixpoint escape_like (s : string) : string :=
  match s with
  | EmptyString => EmptyString
  | String a rest =>
    if bool_decide (a = backslash) || bool_decide (a = percent) || bool_decide (a = underscore)
    then String backslash (String a (escape_like rest))
    else String a (escape_like rest)
  end.

(** SQL's [ILIKE]: [%] is any sequence, [_] any character, [\c] the character [c];
    letters compare without case (in ASCII). *)
Definition same_letter (a b : ascii) : bool := bool_decide (lower_byte a = lower_byte b).

Fixpoint ilike (pattern : string) : string → bool :=
  match pattern with
  | EmptyString => λ s, bool_decide (s = EmptyString)
  | String a rest =>
    if bool_decide (a = percent) then
      fix any (s : string) : bool :=
        ilike rest s || match s with EmptyString => false | String _ s' => any s' end
    else if bool_decide (a = backslash) then
      match rest with
      | EmptyString => λ _, false
      | String b rest' => λ s, match s with
                               | EmptyString => false
                               | String x s' => same_letter b x && ilike rest' s'
                               end
      end
    else λ s, match s with
              | EmptyString => false
              | String x s' => (bool_decide (a = underscore) || same_letter a x) && ilike rest s'
              end
  end.

(** [concat_ws(' ', ...)] skips a missing server name. *)
Definition searchable (v : RunView) : string :=
  String.append (rv_TaskName v) (String.append " " (String.append (rv_ScriptName v) (String.append " "
    (if bool_decide (rv_ServerID v = "") then rv_ID v
     else String.append (rv_ServerName v) (String.append " " (rv_ID v)))))).

(** The conjunction [runFilterQuery] builds. *)
Definition filter_matches (f : RunFilter) (row : RunRow) (v : RunView) : bool :=
  (bool_decide (rf_Query f = "") ||
   ilike (String percent (String.append (escape_like (rf_Query f)) (String percent EmptyString))) (searchable v)) &&
  (match rf_State f with None => true | Some s => bool_decide (tr_state row = s) end) &&
  (bool_decide (rf_DefinitionID f = "") || bool_decide (rs_task_definition_id (tr_spec row) = rf_DefinitionID f)) &&
  (bool_decide (rf_ScriptID f = "") || bool_decide (rv_ScriptID v = rf_ScriptID f)) &&
  (bool_decide (rf_ServerID f = "") || bool_decide (tr_assigned_server_id row = Some (rf_ServerID f))) &&
  (match rf_From f with None => true | Some t => t <=? rs_created_at (tr_spec row) end) &&
  (match rf_Until f with None => true | Some t => rs_created_at (tr_spec row) <? t end).

(** [ORDER BY run.created_at DESC, run.id DESC] *)
Definition newest_first (a b : RunView) : bool :=
  (rv_CreatedAt b <? rv_CreatedAt a) || ((rv_CreatedAt a =? rv_CreatedAt b) && string_lt (rv_ID b) (rv_ID a)).

Definition matching_views (f : RunFilter) (d : DB) : list RunView :=
  stable_sort newest_first
    (omap (λ p, match scanRunView d p.1 p.2 with
                | Some v => if filter_matches f p.2 v then Some v else None
                | None => None
                end) (map_to_list (task_runs d))).

(** [LIMIT $n OFFSET $m] *)
Definition runFilterQuery (f : RunFilter) (d : DB) : list RunView :=
  take (Z.to_nat (rf_Limit f + 1)) (drop (Z.to_nat (rf_Offset f)) (matching_views f d)).

Definition normalize_filter (f : RunFilter) : RunFilter :=
  let f := if (rf_Limit f <=? 0) || (200 <? rf_Limit f) then f <| rf_Limit := 50 |> else f in
  if rf_Offset f <? 0 then f <| rf_Offset := 0 |> else f.

Definition QueryRuns (f : RunFilter) : Prog C RunPage :=
  let f := normalize_filter f in
  let! runs := pool_query "读取执行记录" (runFilterQuery f) in
  let hasMore := rf_Limit f <? Z.of_nat (length runs) in
  ret (mkRunPage (if hasMore then take (Z.to_nat (rf_Limit f)) runs else runs) hasMore (rf_Limit f) (rf_Offset f)).

Definition ListRuns : Prog C (list RunView) :=
  let! page := QueryRuns (mkRunFilter "" "" "" "" None None None 200 0) in
  ret (pg_Runs page).

Definition GetRun (id : string) : Prog C RunView :=
  let! found := pool_query "读取执行详情" (λ d,
    match task_runs d !! id with Some row => scanRunView d id row | None => None end) in
  match found with
  | None => throw ErrRunNotFound
  | Some run =>
    let! usage := loadUsage id in
    ret (run <| rv_Usage := usage |>)
  end.

(** ** ListRunEvents *)

Record RunStreamEvent : Type := mkRunStreamEvent {
  st_Usage : option ResourceUsage; st_ID : string; st_Kind : string; st_State : option RunState;
  st_EventType : string; st_Stream : string; st_Sequence : Z; st_Message : string; st_Content : string;
  st_ExitCode : option Z; st_OccurredAt : Time
}.

(** [fmt.Sprintf("%020d", n)] *)
Fixpoint zeros (n : nat) : string := match n with O => "" | S n => String "0" (zeros n) end.
Definition pad20 (n : Z) : string :=
  let digits := format_nonneg n in String.append (zeros (20 - String.length digits)) digits.

Definition state_event (e : EventRow) : RunStreamEvent :=
  let text := default "" (pl_message (er_payload e)) in
  mkRunStreamEvent (pl_usage (er_payload e)) (String.append "state:" (pad20 (er_sequence e))) "state"
    (Some (er_state e)) (er_event_type e) "" (er_sequence e)
    (if bool_decide (er_event_type e = "run.assigned") && bool_decide (TrimSpace text = "")
     then "已分配执行服务器" else text)
    "" (pl_exitCode (er_payload e)) (er_occurred_at e).

Definition log_event (l : LogRow) : RunStreamEvent :=
  mkRunStreamEvent None (String.append "log:" (String.append (lc_stream l) (String.append ":" (pad20 (lc_sequence l)))))
    "log" None "" (lc_stream l) (lc_sequence l) "" (lc_content l) None (lc_created_at l).

Definition log_order (a b : LogRow) : bool :=
  (lc_created_at a <? lc_created_at b) ||
  ((lc_created_at a =? lc_created_at b) &&
   (string_lt (lc_stream a) (lc_stream b) ||
    (bool_decide (lc_stream a = lc_stream b) && (lc_sequence a <? lc_sequence b)))).

Definition stream_less (a b : RunStreamEvent) : bool :=
  if st_OccurredAt a =? st_OccurredAt b then string_lt (st_ID a) (st_ID b) else st_OccurredAt a <? st_OccurredAt b.

Definition ListRunEvents (id : string) : Prog C (list RunStreamEvent) :=
  let! exists_ := pool_query "" (λ d, bool_decide (is_Some (task_runs d !! id))) in
  if negb exists_ then throw ErrRunNotFound
  else
    let! states := pool_query "读取运行状态事件" (λ d,
      stable_sort (λ a b, er_sequence a <? er_sequence b) (events_of d id)) in
    let! logs := pool_query "读取实时日志" (λ d,
      stable_sort log_order (filter (λ l, lc_task_run_id l = id) (log_chunks d))) in
    ret (stable_sort stream_less ((state_event <$> states) ++ (log_event <$> logs))).

(** [RunService.RetryRun] with the default reconciler. *)
Definition RunService_RetryRun (id : string) : Prog C string := Retry id.

(** ** Cancelling: what is committed *)

Definition cancel_queued (id : string) (d d' : DB) : Prop :=
  ∃ row now, task_runs d !! id = Some row ∧ tr_state row = Queued ∧
    append_event id "run.cancelled" Cancelled (message "排队任务已取消") now None
      (update_run id (cancelled_row now) d) = Some d'.

Definition cancel_active (id : string) (d d' : DB) : Prop :=
  ∃ row now, task_runs d !! id = Some row ∧ active (tr_state row) = true ∧
    default "" (tr_assigned_server_id row) ≠ "" ∧ default "" (tr_execution_token row) ≠ "" ∧
    append_event id "run.cancel_requested" (tr_state row) (message "已向执行服务器发送取消命令") now None d = Some d'.

Definition CancelRun_post (id : string) (d : DB) (r : Result unit) (d' : DB) : Prop :=
  match r with
  | Ok _ => cancel_queued id d d' ∨ cancel_active id d d'
  | Err ErrRunNotFound => d' = d ∧ task_runs d !! id = None
  | Err ErrRunNotCancellable =>
    d' = d ∧ ∃ row, task_runs d !! id = Some row ∧ tr_state row ≠ Queued ∧ active (tr_state row) = false
  | Err ErrRunCommandUnavailable => d' = d ∧ ∃ row, task_runs d !! id = Some row ∧ active (tr_state row) = true
  | Err (EStorage _) => d' = d ∨ cancel_queued id d d' ∨ cancel_active id d d'
  | Err _ => False
  end.

Lemma CancelRun_spec sender id (c : C) :
  (∀ send, sender = Some send → ∀ serverID command c, wp (send serverID command) c (λ _ c', part (X := DB) c' = part c)) →
  wp (CancelRun sender id) c (λ r c', CancelRun_post id (part c) r (part c')).
Proof.
  intros Hlaw. apply wp_transaction; [by left|].
  apply wp_bind, wp_query; [by left|].
  destruct (task_runs (part c) !! id) as [row|] eqn:Hrow; simpl; [|by apply wp_throw].
  apply wp_bind, wp_clock_now. intros now. case_bool_decide as Hq.
  - apply wp_bind, wp_exec; [by left|]. intros d1 [= <-]. split; [|by left].
    apply wp_bind, wp_exec; [by left|]. intros d2 Hd2. split; [|by left].
    assert (cancel_queued id (part c) d2) as Hc by (by exists row, now).
    apply wp_commit; simpl; rewrite ?part_set; auto.
  - destruct (active (tr_state row)) eqn:Ha; simpl; [|apply wp_throw; split; [done|by eauto]].
    destruct sender as [send|]; [|apply wp_throw; split; [done|by eauto]].
    destruct (_ || _) eqn:Eb; [apply wp_throw; split; [done|by eauto]|].
    apply orb_false_iff in Eb as [E1 E2]. apply bool_decide_eq_false in E1, E2.
    apply wp_bind, wp_catch, wp_outside. eapply wp_mono; [by apply (Hlaw send)|].
    intros [u|e] c1 Hc1; [|apply wp_throw; split; [done|by eauto]].
    apply wp_bind, wp_exec; [by left|]. intros d2 Hd2. split; [|by left].
    assert (cancel_active id (part c) d2) as Hc by (by exists row, now).
    apply wp_commit; simpl; rewrite ?part_set; auto.
Qed.

Lemma cancel_queued_sound id d d' : cancel_queued id d d' → sound d d'.
Proof.
  intros (row & now & Hrow & Hq & [_ ->]%append_event_inv) Hw. refine (db_change_sound _ _ _ Hw).
  pose proof (wf_runs _ Hw id) as Hrun. rewrite Hrow in Hrun. destruct Hrun as [_ Hh].
  eapply single_change; [done|exact Hrow|by apply (update_run_insert _ (cancelled_row now) d)|
    intros i; rewrite events_of_insert; reflexivity| |left; split; [done|by rewrite Hq]].
  apply row_change_event; try done.
  - intros [R1 R2 R3 R4]. split; simpl; eauto; done.
  - simpl. by rewrite Hq.
Qed.

Lemma cancel_active_sound id d d' : cancel_active id d d' → sound d d'.
Proof.
  intros (row & now & Hrow & Ha & _ & _ & [_ ->]%append_event_inv) Hw. refine (db_change_sound _ _ _ Hw).
  pose proof (wf_runs _ Hw id) as Hrun. rewrite Hrow in Hrun. destruct Hrun as [_ Hh].
  eapply single_change with (row' := row); [done|exact Hrow|symmetry; by apply insert_id|
    intros i; rewrite events_of_insert; reflexivity| |by left].
  apply row_change_event; try done. by destruct (tr_state row).
Qed.

Lemma CancelRun_sound sender id (c : C) :
  (∀ send, sender = Some send → ∀ serverID command c, wp (send serverID command) c (λ _ c', part (X := DB) c' = part c)) →
  wp (CancelRun sender id) c (λ _ c', sound (part c) (part c')).
Proof.
  intros Hlaw. eapply wp_mono; [by apply CancelRun_spec|]. intros r c' H.
  assert (part c' = part c ∨ cancel_queued id (part c) (part c') ∨ cancel_active id (part c) (part c'))
    as [->|[Hc|Hc]].
  { destruct r as [u|[]]; simpl in H; tauto. }
  - reflexivity.
  - by eapply cancel_queued_sound.
  - by eapply cancel_active_sound.
Qed.

(** ** Literal search *)

Lemma append_nil_l b : String.append EmptyString b = b.
Proof. done. Qed.

Lemma append_cons x a b : String.append (String x a) b = String x (String.append a b).
Proof. done. Qed.

Lemma ilike_percent_tail s : ilike (String percent EmptyString) s = true.
Proof. induction s as [|x s IH]; [done|]. simpl in *. by rewrite IH. Qed.

Lemma ilike_percent pattern s :
  ilike (String percent pattern) s = true ↔ ∃ a b, s = String.append a b ∧ ilike pattern b = true.
Proof.
  induction s as [|x s IH].
  - simpl. rewrite orb_false_r. split.
    + intros H. by exists EmptyString, EmptyString.
    + intros ([|] & b & E & H); [|done]. rewrite append_nil_l in E. by subst.
  - change (ilike (String percent pattern) (String x s)) with
      (ilike pattern (String x s) || ilike (String percent pattern) s).
    rewrite orb_true_iff, IH. split.
    + intros [H|(a & b & -> & H)]; [by exists EmptyString, (String x s)|by exists (String x a), b].
    + intros ([|y a] & b & E & H); rewrite ?append_nil_l, ?append_cons in E; [left; by subst|right].
      injection E as <- ->. by exists a, b.
Qed.

Lemma ilike_literal q tail s :
  ilike (String.append (escape_like q) tail) s = true ↔
  ∃ b c, s = String.append b c ∧ ToLower b = ToLower q ∧ ilike tail c = true.
Proof.
  revert s. induction q as [|a q IH]; intros s.
  { rewrite append_nil_l. split; [intros H; by exists EmptyString, s|]. intros ([|] & c & -> & E & H); done. }
  assert (∀ x s', ilike (String.append (escape_like (String a q)) tail) (String x s') =
    same_letter a x && ilike (String.append (escape_like q) tail) s') as Hstep.
  { intros x s'. change (escape_like (String a q)) with
      (if bool_decide (a = backslash) || bool_decide (a = percent) || bool_decide (a = underscore)
       then String backslash (String a (escape_like q)) else String a (escape_like q)).
    destruct (_ || _) eqn:E; [done|]. apply orb_false_iff in E as [E E3]. apply orb_false_iff in E as [E1 E2].
    simpl. rewrite E1, E2, E3. done. }
  destruct s as [|x s].
  - split; [|intros ([|] & c & E & El & _); [done|]; done]. intros H. exfalso. revert H.
    change (escape_like (String a q)) with
      (if bool_decide (a = backslash) || bool_decide (a = percent) || bool_decide (a = underscore)
       then String backslash (String a (escape_like q)) else String a (escape_like q)).
    destruct (_ || _) eqn:E; [done|]. apply orb_false_iff in E as [E E3]. apply orb_false_iff in E as [E1 E2].
    simpl. by rewrite E1, E2.
  - rewrite Hstep, andb_true_iff, IH. unfold same_letter. rewrite bool_decide_eq_true. split.
    + intros (El & b & c & -> & Eb & H). exists (String x b), c. split_and!; [done|simpl; by rewrite Eb, El|done].
    + intros ([|y b] & c & E & El & H); [done|]. rewrite append_cons in E. simpl in El. injection E as <- ->. injection El as Ey Eb.
      split; [done|]. by exists b, c.
Qed.

(** ** Properties *)

(** Cancelling a run: a queued run is cancelled on the spot; for an active run the
    state is left to the agent and only the request is recorded, after the command has
    been sent to the run's server; other states, an unknown run and an unreachable
    agent are refused without a trace in the tables. *)
Theorem CancelRun_correct sender id (c : C) :
  (∀ send, sender = Some send → ∀ serverID command c, wp (send serverID command) c (λ _ c', part (X := DB) c' = part c)) →
  wp (CancelRun sender id) c (λ r c', CancelRun_post id (part c) r (part c')).
Proof. apply CancelRun_spec. Qed.

(** The search field is literal: the pattern [runFilterQuery] builds matches
    exactly the texts that contain the query, letter case aside; wildcards and
    backslashes typed by the user have no special meaning. *)
Theorem search_is_literal q s :
  ilike (String percent (String.append (escape_like q) (String percent EmptyString))) s = true ↔
  ∃ a b c, s = String.append a (String.append b c) ∧ ToLower b = ToLower q.
Proof.
  rewrite ilike_percent. split.
  - intros (a & r & -> & (b & c & -> & E & _)%ilike_literal). by exists a, b, c.
  - intros (a & b & c & -> & E). exists a, (String.append b c). split; [done|].
    apply ilike_literal. exists b, c. split_and!; [done|done|apply ilike_percent_tail].
Qed.

(** Paging: [QueryRuns] returns the runs at positions [offset, offset+limit) of the
    filtered list, newest first, with a limit between 1 and 200, and says there is more
    exactly when the list goes on. *)
Theorem QueryRuns_page f (c : C) :
  wp (QueryRuns f) c (λ r c', c' = c ∧
    match r with
    | Ok page =>
      let views := matching_views (normalize_filter f) (part c) in
      1 ≤ pg_Limit page ≤ 200 ∧ 0 ≤ pg_Offset page ∧
      pg_Runs page = take (Z.to_nat (pg_Limit page)) (drop (Z.to_nat (pg_Offset page)) views) ∧
      (pg_HasMore page = true ↔ pg_Offset page + pg_Limit page < Z.of_nat (length views))
    | Err e => ∃ context, e = EStorage context
    end).
Proof.
  unfold QueryRuns. cbv zeta. set (g := normalize_filter f).
  assert (1 ≤ rf_Limit g ≤ 200 ∧ 0 ≤ rf_Offset g) as [Hl Ho].
  { unfold g, normalize_filter. destruct ((rf_Limit f <=? 0) || (200 <? rf_Limit f)) eqn:E; simpl.
    - destruct (Z.ltb_spec (rf_Offset f) 0); simpl; lia.
    - apply orb_false_iff in E as [E1%Z.leb_gt E2%Z.ltb_ge].
      destruct (Z.ltb_spec (rf_Offset f) 0); simpl; lia. }
  apply wp_bind, wp_pool_query; [by eauto|]. apply wp_ret. split; [done|]. simpl.
  set (views := matching_views g (part c)). unfold runFilterQuery. fold views.
  set (rest := drop (Z.to_nat (rf_Offset g)) views).
  assert (length (take (Z.to_nat (rf_Limit g + 1)) rest) =
    Nat.min (Z.to_nat (rf_Limit g + 1)) (length views - Z.to_nat (rf_Offset g))) as Hlen.
  { unfold rest. by rewrite length_take, length_drop. }
  split_and!; [lia|lia|lia| |].
  - destruct (Z.ltb_spec (rf_Limit g) (Z.of_nat (length (take (Z.to_nat (rf_Limit g + 1)) rest)))) as [H|H].
    + rewrite take_take. f_equal. lia.
    + rewrite (take_ge rest (Z.to_nat (rf_Limit g + 1))), (take_ge rest (Z.to_nat (rf_Limit g))); [done| |];
        unfold rest in *; rewrite length_drop in *; lia.
  - rewrite Z.ltb_lt, Hlen. lia.
Qed.

#[export] Instance stream_less_weak : StrictWeak stream_less.
Proof.
  apply (StrictWeak_ext _ (less_lex (less_by Z.ltb st_OccurredAt) (less_by string_lt st_ID))); [|apply _].
  intros a b. unfold stream_less, less_lex, less_by.
  destruct (Z.eqb_spec (st_OccurredAt a) (st_OccurredAt b)) as [->|Hne]; simpl.
  - by rewrite Z.ltb_irrefl.
  - destruct (Z.ltb_spec (st_OccurredAt a) (st_OccurredAt b)),
      (Z.ltb_spec (st_OccurredAt b) (st_OccurredAt a)); lia.
Qed.

(** The event stream of a run is complete and chronological: every recorded
    state event and log chunk of the run appears exactly once, ordered by time and then
    by identifier; an unknown run is reported as such. *)
Theorem ListRunEvents_complete id (c : C) :
  wp (ListRunEvents id) c (λ r c', c' = c ∧
    match r with
    | Ok events =>
      is_Some (task_runs (part c) !! id) ∧
      events ≡ₚ (state_event <$> events_of (part c) id) ++
                (log_event <$> filter (λ l, lc_task_run_id l = id) (log_chunks (part c))) ∧
      ∀ i j a b, (i < j)%nat → events !! i = Some a → events !! j = Some b →
        st_OccurredAt a ≤ st_OccurredAt b ∧
        (st_OccurredAt a = st_OccurredAt b → string_lt (st_ID b) (st_ID a) = false)
    | Err e => (e = ErrRunNotFound ∧ task_runs (part c) !! id = None) ∨ ∃ context, e = EStorage context
    end).
Proof.
  unfold ListRunEvents. apply wp_bind, wp_pool_query; [by eauto|].
  case_bool_decide as Hrun; simpl; [|apply wp_throw; split; [done|left]; split; [done|by apply eq_None_not_Some]].
  apply wp_bind, wp_pool_query; [by eauto|]. apply wp_bind, wp_pool_query; [by eauto|].
  apply wp_ret. split_and!; [done|done| |].
  - by rewrite !stable_sort_perm.
  - intros i j a b Hij Ha Hb.
    pose proof (stable_sort_lookup stream_less _ _ _ _ _ Hij Ha Hb) as Hab.
    unfold stream_less in Hab.
    destruct (Z.eqb_spec (st_OccurredAt b) (st_OccurredAt a)) as [E|E].
    + split; [lia|done].
    + apply Z.ltb_ge in Hab. split; [lia|lia].
Qed.

End run_service.

(** ** Witness *)

(** Cancelling an assigned run through a connection that accepts every command. *)
Lemma CancelRun_correct_witness :
  wp (C := DB) (CancelRun (Some (λ _ _, ret tt)) "run-1") example_db
     (λ r d', CancelRun_post "run-1" example_db r d').
Proof.
  exact (CancelRun_correct (C := DB) (Some (λ _ _, ret tt)) "run-1" example_db
    ltac:(intros send E serverID command c; injection E as <-; by apply wp_ret)).
Defined.
