(* ===== verification/Cron.v ===== *)
(** * Cron

    The cron rules of [internal/task/schedule.go]: [parseCron], [parseCronField],
    [ValidateCron] and [nextCronTime].

    The time zone database is not part of the repository: [LoadLocation] is a
    parameter, a function from zone names to locations. *)

From S2P Require Import Prelude GoStd Model.

Module Cron.

Record cronSpec : Type := mkCronSpec {
  cs_minute : gset Z; cs_hour : gset Z; cs_day : gset Z; cs_month : gset Z; cs_weekday : gset Z;
  cs_dayWildcard : bool; cs_weekdayWildcard : bool
}.

(** ** Fields *)

(** The base and the step of a part of a field. *)
Definition part_step (part : string) : option (string * Z) :=
  if contains_byte "/" part then
    match split_on "/" part with
    | [base; stepText] =>
      match Atoi stepText with
      | Some step => if step <=? 0 then None else Some (base, step)
      | None => None
      end
    | _ => None
    end
  else Some (part, 1).

(** The bounds of a part. *)
Definition part_bounds (base : string) (step minimum maximum : Z) : option (Z * Z) :=
  if bool_decide (base = "*") then Some (minimum, maximum)
  else if contains_byte "-" base then
    match split_on "-" base with
    | [first; last] =>
      match Atoi first, Atoi last with
      | Some start, Some end_ => Some (start, end_)
      | _, _ => None
      end
    | _ => None
    end
  else
    match Atoi base with
    | Some parsed => if negb (step =? 1) then None else Some (parsed, parsed)
    | None => None
    end.

(** [start], [end] and [step] of a part, within the field. *)
Definition parse_part (part : string) (minimum maximum : Z) : option (Z * Z * Z) :=
  match part_step part with
  | None => None
  | Some (base, step) =>
    match part_bounds base step minimum maximum with
    | None => None
    | Some (start, end_) =>
      if (start <? minimum) || (maximum <? end_) || (end_ <? start) then None else Some (start, end_, step)
    end
  end.

(** [for item := start; item <= end; item += step]: Go's [int] wraps around. *)
Fixpoint part_items (fuel : nat) (item end_ step : Z) : list Z :=
  match fuel with
  | O => []
  | S fuel => if item <=? end_ then item :: part_items fuel (wrap64 (item + step)) end_ step else []
  end.

(** A field has at most 60 values: see [part_items_enough]. *)
Definition items_fuel : nat := 200.

Definition normalize_item (normalizeSunday : bool) (item : Z) : Z :=
  if normalizeSunday && (item =? 7) then 0 else item.

Fixpoint field_parts (parts : list string) (minimum maximum : Z) (normalizeSunday : bool) (selected : gset Z)
  : option (gset Z) :=
  match parts with
  | [] => Some selected
  | part :: rest =>
    match parse_part part minimum maximum with
    | None => None
    | Some (start, end_, step) =>
      field_parts rest minimum maximum normalizeSunday
        (foldl (λ s item, {[normalize_item normalizeSunday item]} ∪ s) selected (part_items items_fuel start end_ step))
    end
  end.

Definition parseCronField (value : string) (minimum maximum : Z) (normalizeSunday : bool) : option (gset Z * bool) :=
  match field_parts (split_on "," value) minimum maximum normalizeSunday ∅ with
  | None => None
  | Some selected => if bool_decide (selected = ∅) then None else Some (selected, bool_decide (value = "*"))
  end.

Definition parseCron (expression : string) : Result cronSpec :=
  match Fields expression with
  | [f0; f1; f2; f3; f4] =>
    match parseCronField f0 0 59 false with
    | None => Err ErrInvalidCron
    | Some (minute, _) =>
      match parseCronField f1 0 23 false with
      | None => Err ErrInvalidCron
      | Some (hour, _) =>
        match parseCronField f2 1 31 false with
        | None => Err ErrInvalidCron
        | Some (day, dayWildcard) =>
          match parseCronField f3 1 12 false with
          | None => Err ErrInvalidCron
          | Some (month, _) =>
            match parseCronField f4 0 7 true with
            | None => Err ErrInvalidCron
            | Some (weekday, weekdayWildcard) =>
              Ok (mkCronSpec minute hour day month weekday dayWildcard weekdayWildcard)
            end
          end
        end
      end
    end
  | _ => Err ErrInvalidCron
  end.

(** ** The next time *)

Definition defaultTimezone : string := "Asia/Shanghai".

(** The calendar test and the condition of the loop's [return]. *)
Definition calendarMatches (spec : cronSpec) (c : Civil) : bool :=
  let dayMatches := bool_decide (cv_day c ∈ cs_day spec) in
  let weekdayMatches := bool_decide (cv_weekday c ∈ cs_weekday spec) in
  if cs_dayWildcard spec && cs_weekdayWildcard spec then true
  else if cs_dayWildcard spec then weekdayMatches
  else if cs_weekdayWildcard spec then dayMatches
  else dayMatches || weekdayMatches.

Definition matches (spec : cronSpec) (location : Location) (candidate : Time) : bool :=
  let c := civil_in location candidate in
  bool_decide (cv_minute c ∈ cs_minute spec) && bool_decide (cv_hour c ∈ cs_hour spec) &&
  bool_decide (cv_month c ∈ cs_month spec) && calendarMatches spec c.

Inductive Progress : Type :=
| Found (t : Time)
| Stopped
| More (t : Time).

(** [2^k] iterations of the loop [for candidate.Before(limit)]. *)
Fixpoint search (k : nat) (test : Time → bool) (limit candidate : Time) : Progress :=
  match k with
  | O => if candidate <? limit then if test candidate then Found candidate else More (candidate + minute)
         else Stopped
  | S k => match search k test limit candidate with
           | More candidate' => search k test limit candidate'
           | result => result
           end
  end.

(** Enough doublings to reach the limit. *)
Definition search_depth (limit candidate : Time) : nat := Z.to_nat (Z.log2_up ((limit - candidate) / minute + 2)).

Section locations.
Context (LoadLocation : string → option Location).

Definition first_candidate (after : Time) : Time := truncate_minute after + minute.

Definition nextCronTime (expression timezone : string) (after : Time) : Result Time :=
  match parseCron expression with
  | Err e => Err e
  | Ok spec =>
    match LoadLocation timezone with
    | None => Err ErrInvalidCron
    | Some location =>
      let candidate := first_candidate after in
      let limit := add_years location candidate 5 in
      match search (search_depth limit candidate) (matches spec location) limit candidate with
      | Found t => Ok t
      | _ => Err ErrInvalidCron
      end
    end
  end.

Definition ValidateCron (expression timezone : string) : Result unit :=
  let timezone := if bool_decide (TrimSpace timezone = "") then defaultTimezone else timezone in
  if bool_decide (timezone = "Local") then Err ErrInvalidCron
  else
    match LoadLocation timezone with
    | None => Err ErrInvalidCron
    | Some _ => match parseCron expression with Ok _ => Ok tt | Err e => Err e end
    end.

End locations.

(** ** The search *)

Lemma search_spec k test limit candidate :
  match search k test limit candidate with
  | Found t => ∃ i, 0 ≤ i < 2 ^ Z.of_nat k ∧ t = candidate + i * minute ∧ t < limit ∧ test t = true ∧
      ∀ j, 0 ≤ j < i → test (candidate + j * minute) = false
  | Stopped => ∃ i, 0 ≤ i < 2 ^ Z.of_nat k ∧ limit ≤ candidate + i * minute ∧
      ∀ j, 0 ≤ j < i → test (candidate + j * minute) = false
  | More t => t = candidate + 2 ^ Z.of_nat k * minute ∧ candidate + (2 ^ Z.of_nat k - 1) * minute < limit ∧
      ∀ j, 0 ≤ j < 2 ^ Z.of_nat k → test (candidate + j * minute) = false
  end.
Proof.
  revert candidate. induction k as [|k IH]; intros candidate; simpl search.
  - change (2 ^ Z.of_nat 0) with 1.
    destruct (Z.ltb_spec candidate limit); [destruct (test candidate) eqn:E|].
    + exists 0. rewrite Z.mul_0_l, Z.add_0_r. split_and!; try lia; try done.
    + split_and!; [lia|lia|]. intros j Hj. replace j with 0 by lia. by rewrite Z.mul_0_l, Z.add_0_r.
    + exists 0. split_and!; lia.
  - replace (2 ^ Z.of_nat (S k)) with (2 ^ Z.of_nat k + 2 ^ Z.of_nat k)
      by (rewrite Nat2Z.inj_succ, Z.pow_succ_r by lia; lia).
    pose proof (IH candidate) as H1. destruct (search k test limit candidate) as [t| |t].
    + destruct H1 as (i & Hi & H1). exists i. split; [lia|done].
    + destruct H1 as (i & Hi & H1). exists i. split; [lia|done].
    + destruct H1 as (-> & Hlt & Hno). pose proof (IH (candidate + 2 ^ Z.of_nat k * minute)) as H2.
      set (n := 2 ^ Z.of_nat k) in *.
      assert (∀ i, 0 ≤ i → (∀ j, 0 ≤ j < i → test (candidate + n * minute + j * minute) = false) →
        ∀ j, 0 ≤ j < n + i → test (candidate + j * minute) = false) as Hjoin.
      { intros i Hi H j Hj. destruct (Z.lt_ge_cases j n); [apply Hno; lia|].
        replace (candidate + j * minute) with (candidate + n * minute + (j - n) * minute) by lia. apply H. lia. }
      destruct (search k test limit _) as [t| |t].
      * destruct H2 as (i & Hi & -> & ? & ? & Hj). exists (n + i). split_and!; try lia; try done.
        apply Hjoin; [lia|done].
      * destruct H2 as (i & Hi & ? & Hj). exists (n + i). split_and!; try lia. apply Hjoin; [lia|done].
      * destruct H2 as (-> & ? & Hj). split_and!; try lia. apply Hjoin; [lia|done].
Qed.

Lemma minute_pos : 0 < minute.
Proof. done. Qed.

(** The depth is enough: the loop ends. *)
Lemma search_ends test limit candidate t :
  search (search_depth limit candidate) test limit candidate ≠ More t.
Proof.
  intros E. pose proof (search_spec (search_depth limit candidate) test limit candidate) as H.
  rewrite E in H. destruct H as (_ & H & _). revert H. unfold search_depth.
  set (q := (limit - candidate) / minute).
  assert (limit - candidate < (q + 1) * minute) as Hq.
  { unfold q. pose proof (Z.mod_pos_bound (limit - candidate) minute minute_pos).
    pose proof (Z.div_mod (limit - candidate) minute). pose proof minute_pos. lia. }
  intros H. destruct (Z.lt_ge_cases q 0) as [Hneg|Hnn].
  - pose proof (Z.pow_pos_nonneg 2 (Z.of_nat (Z.to_nat (Z.log2_up (q + 2)))) ltac:(lia) ltac:(lia)).
    pose proof minute_pos. nia.
  - rewrite Z2Nat.id in H by apply Z.log2_up_nonneg.
    pose proof (Z.log2_up_spec (q + 2) ltac:(lia)) as [_ Hup]. pose proof minute_pos. nia.
Qed.

(** ** The items of a part *)

Lemma wrap64_sum item step : 0 ≤ step → item + step ≤ int64_max → int64_min ≤ item → wrap64 (item + step) = item + step.
Proof. intros. apply wrap64_id. unfold in_int64. lia. Qed.

(** The steps for which no addition of the loop overflows. *)
Definition step_fits (step : Z) : Prop := 0 < step ≤ 2 ^ 62.

Lemma part_items_exact fuel item end_ step i :
  step_fits step → 0 ≤ item → end_ ≤ 60 → (Z.to_nat (end_ - item + 1) ≤ fuel)%nat →
  i ∈ part_items fuel item end_ step ↔ item ≤ i ≤ end_ ∧ (i - item) mod step = 0.
Proof.
  intros [Hs1 Hs2]. revert item. induction fuel as [|fuel IH]; intros item Hi He Hf; simpl.
  - split; [set_solver|]. lia.
  - destruct (Z.leb_spec item end_) as [Hle|Hgt].
    + rewrite wrap64_sum by (unfold int64_max, int64_min; lia).
      rewrite elem_of_cons, IH by lia. split.
      * intros [->|[? Hm]]; [split; [lia|by rewrite Z.sub_diag, Z.mod_0_l by lia]|].
        split; [lia|]. replace (i - item) with ((i - (item + step)) + 1 * step) by lia.
        by rewrite Z.mod_add by lia.
      * intros [? Hm]. destruct (decide (i = item)) as [->|Hne]; [by left|right].
        assert (step ≤ i - item) as Hst.
        { apply Z.mod_divide in Hm as [q Hq]; [|lia]. destruct (Z.lt_ge_cases q 1); nia. }
        split; [lia|]. replace (i - (item + step)) with ((i - item) + (-1) * step) by lia.
        by rewrite Z.mod_add by lia.
    + split; [set_solver|lia].
Qed.

(** With a step so large that the addition overflows, the loop still ends. *)
Lemma part_items_overflow fuel item end_ r :
  1 ≤ r ≤ 100 → - r ≤ item ≤ 100 → end_ ≤ 60 →
  Z.of_nat (length (part_items fuel item end_ (2 ^ 63 - r))) ≤ item + r + 1.
Proof.
  intros Hr. revert item. induction fuel as [fuel IH] using lt_wf_ind. intros item Hi He.
  destruct fuel as [|fuel]; simpl; [lia|]. destruct (Z.leb_spec item end_) as [Hle|Hgt]; simpl; [|lia].
  destruct (Z.lt_ge_cases item r) as [Hsmall|Hbig].
  - rewrite wrap64_sum by (unfold int64_max, int64_min; lia).
    destruct fuel as [|fuel]; simpl; [lia|].
    destruct (Z.leb_spec (item + (2 ^ 63 - r)) end_); simpl; lia.
  - assert (wrap64 (item + (2 ^ 63 - r)) = item - r - 2 ^ 63) as ->.
    { unfold wrap64. replace (item + (2 ^ 63 - r) + 2 ^ 63) with (item - r + 1 * 2 ^ 64) by lia.
      rewrite Z.mod_add, Z.mod_small by lia. lia. }
    destruct fuel as [|fuel]; simpl; [lia|].
    destruct (Z.leb_spec (item - r - 2 ^ 63) end_); simpl; [|lia].
    assert (wrap64 (item - r - 2 ^ 63 + (2 ^ 63 - r)) = item - 2 * r) as ->.
    { replace (item - r - 2 ^ 63 + (2 ^ 63 - r)) with (item - 2 * r) by lia.
      apply wrap64_id. unfold in_int64, int64_min, int64_max. lia. }
    pose proof (IH fuel ltac:(lia) (item - 2 * r) ltac:(lia) He). lia.
Qed.

Lemma part_items_short fuel item end_ step :
  0 ≤ item ≤ 60 → end_ ≤ 60 → 0 < step ≤ int64_max →
  Z.of_nat (length (part_items fuel item end_ step)) ≤ 161.
Proof.
  intros Hi He Hs. destruct (Z.lt_ge_cases step (2 ^ 63 - 100)) as [Hsmall|Hbig].
  - assert (∀ item, 0 ≤ item ≤ 60 + step →
      Z.of_nat (length (part_items fuel item end_ step)) ≤ Z.max 0 (end_ - item + 1)) as Hgen.
    { clear Hi item. induction fuel as [|fuel IH]; intros item Hi; simpl; [lia|].
      destruct (Z.leb_spec item end_) as [Hle|Hgt]; simpl; [|lia].
      rewrite wrap64_sum by (unfold int64_max, int64_min; lia).
      pose proof (IH (item + step) ltac:(lia)). lia. }
    pose proof (Hgen item ltac:(lia)). lia.
  - pose proof (part_items_overflow fuel item end_ (2 ^ 63 - step)) as H.
    unfold int64_max in Hs. replace (2 ^ 63 - (2 ^ 63 - step)) with step in H by lia.
    specialize (H ltac:(lia) ltac:(lia) He). lia.
Qed.

Lemma part_items_more fuel extra item end_ step :
  (length (part_items fuel item end_ step) < fuel)%nat →
  part_items (fuel + extra) item end_ step = part_items fuel item end_ step.
Proof.
  revert item. induction fuel as [|fuel IH]; intros item; simpl; [lia|].
  destruct (item <=? end_); simpl; [|done]. intros H. by rewrite IH by lia.
Qed.

(** The fuel of the item loop is enough for every part the parser accepts. *)
Lemma part_items_enough extra item end_ step :
  0 ≤ item ≤ 60 → end_ ≤ 60 → 0 < step ≤ int64_max →
  part_items (items_fuel + extra) item end_ step = part_items items_fuel item end_ step.
Proof.
  intros H1 H2 H3. apply part_items_more. unfold items_fuel.
  pose proof (part_items_short 200 item end_ step H1 H2 H3). lia.
Qed.

(** ** What a field selects *)

Lemma foldl_union norm (items : list Z) (s : gset Z) i :
  i ∈ foldl (λ s item, {[normalize_item norm item]} ∪ s) s items ↔
  i ∈ s ∨ ∃ item, item ∈ items ∧ i = normalize_item norm item.
Proof.
  revert s. induction items as [|x items IH]; intros s; simpl; [set_solver|].
  rewrite IH. set_unfold. naive_solver.
Qed.

Lemma field_parts_spec parts minimum maximum norm s s' :
  field_parts parts minimum maximum norm s = Some s' →
  ∀ i, i ∈ s' ↔ i ∈ s ∨ ∃ part start end_ step item, part ∈ parts ∧
    parse_part part minimum maximum = Some (start, end_, step) ∧
    item ∈ part_items items_fuel start end_ step ∧ i = normalize_item norm item.
Proof.
  revert s. induction parts as [|part parts IH]; intros s; cbn [field_parts].
  { intros [= <-] i. split; [by left|]. intros [Hi|(p & st & en & sp & item & Hp & _)]; [done|].
    by apply elem_of_nil in Hp. }
  destruct (parse_part part minimum maximum) as [[[start end_] step]|] eqn:E; [|done].
  intros H i. rewrite (IH _ H), foldl_union. split.
  - intros [[Hi|(item & Hitem & ->)]|(p & st & en & sp & item & Hp & Hr)].
    + by left.
    + right. exists part, start, end_, step, item. split; [by left|done].
    + right. exists p, st, en, sp, item. split; [by right|done].
  - intros [Hi|(p & st & en & sp & item & [->|Hp]%elem_of_cons & Hpp & Hr)]; [by left; left| |].
    + rewrite E in Hpp. simplify_eq. left. right. exists item. naive_solver.
    + right. exists p, st, en, sp, item. done.
Qed.

Lemma parse_part_bounds part minimum maximum start end_ step :
  parse_part part minimum maximum = Some (start, end_, step) →
  minimum ≤ start ≤ end_ ∧ end_ ≤ maximum ∧ 0 < step.
Proof.
  unfold parse_part. destruct (part_step part) as [[base st]|] eqn:Es; [|done].
  assert (0 < st) as Hst.
  { unfold part_step in Es. repeat case_match; simplify_eq; [|lia].
    match goal with H : (_ <=? _) = false |- _ => apply Z.leb_gt in H; lia end. }
  destruct (part_bounds base st minimum maximum) as [[a b]|]; [|done].
  destruct (_ || _) eqn:E; [done|]. intros [= <- <- <-].
  rewrite !orb_false_iff, !Z.ltb_ge in E. lia.
Qed.

Lemma nextCronTime_least LoadLocation expression timezone after spec location :
  parseCron expression = Ok spec → LoadLocation timezone = Some location →
  let limit := add_years location (first_candidate after) 5 in
  let firing t := t mod minute = 0 ∧ after < t < limit ∧ matches spec location t = true in
  match nextCronTime LoadLocation expression timezone after with
  | Ok t => firing t ∧ ∀ t', firing t' → t ≤ t'
  | Err e => e = ErrInvalidCron ∧ ∀ t, ¬ firing t
  end.
Proof.
  intros Hp Hl. cbv zeta. unfold nextCronTime. rewrite Hp, Hl.
  set (c := first_candidate after). set (limit := add_years location c 5).
  set (test := matches spec location).
  assert (c mod minute = 0 ∧ after < c ≤ after + minute) as [Hc Hac].
  { unfold c, first_candidate, truncate_minute. pose proof minute_pos.
    pose proof (Z.div_mod after minute). pose proof (Z.mod_pos_bound after minute).
    replace (after / minute * minute + minute) with ((after / minute + 1) * minute) at 1 by lia.
    rewrite Z.mod_mul by lia. lia. }
  assert (∀ t, t mod minute = 0 → after < t → ∃ j, 0 ≤ j ∧ t = c + j * minute) as Hgrid.
  { intros t Ht Hat. apply Z.mod_divide in Ht as [q Hq]; [|done]. apply Z.mod_divide in Hc as [p Hp']; [|done].
    exists (q - p). pose proof minute_pos. split; nia. }
  pose proof (search_spec (search_depth limit c) test limit c) as Hs.
  pose proof (search_ends test limit c) as Hend.
  destruct (search (search_depth limit c) test limit c) as [t| |t].
  - destruct Hs as (i & Hi & -> & Hlt & Ht & Hno). pose proof minute_pos. split.
    + split_and!; [|nia|done|done]. by rewrite Z.mod_add by done.
    + intros t' (Ht1 & [Ht2 Ht3] & Ht4). destruct (Hgrid _ Ht1 Ht2) as (j & Hj & ->).
      destruct (Z.lt_ge_cases j i) as [Hji|Hji]; [|nia]. by rewrite (Hno j) in Ht4.
  - destruct Hs as (i & Hi & Hle & Hno). split; [done|].
    intros t (Ht1 & [Ht2 Ht3] & Ht4). destruct (Hgrid _ Ht1 Ht2) as (j & Hj & ->). pose proof minute_pos.
    destruct (Z.lt_ge_cases j i) as [Hji|Hji]; [|nia]. by rewrite (Hno j) in Ht4.
  - by destruct (Hend t).
Qed.

Lemma nextCronTime_later LoadLocation expression timezone after t :
  nextCronTime LoadLocation expression timezone after = Ok t → after < t.
Proof.
  intros H. assert (∃ spec location, parseCron expression = Ok spec ∧ LoadLocation timezone = Some location)
    as (spec & location & Hp & Hl).
  { unfold nextCronTime in H. destruct (parseCron expression); [|done]. destruct (LoadLocation timezone); [|done]. eauto. }
  pose proof (nextCronTime_least LoadLocation expression timezone after spec location Hp Hl) as Hs.
  rewrite H in Hs. destruct Hs as [(_ & ? & _) _]. lia.
Qed.

(** ** Properties *)

(** An item of a field, without reference to the loop. *)
Definition selects (value : string) (minimum maximum item : Z) : Prop :=
  ∃ part start end_ step, part ∈ split_on "," value ∧
    parse_part part minimum maximum = Some (start, end_, step) ∧
    start ≤ item ≤ end_ ∧ (item - start) mod step = 0.

(** No step of the field is so large that Go's [int] overflows. *)
Definition steps_fit (value : string) (minimum maximum : Z) : Prop :=
  ∀ part start end_ step, part ∈ split_on "," value →
    parse_part part minimum maximum = Some (start, end_, step) → step ≤ 2 ^ 62.

(** A cron field that parses selects exactly the values its comma-separated
    parts denote (ranges, steps, [*]), with 7 read as Sunday in the weekday field; the
    values lie in the field's range and there is at least one. *)
Theorem parseCronField_exact value minimum maximum norm selected wildcard :
  0 ≤ minimum → maximum ≤ 60 → steps_fit value minimum maximum →
  parseCronField value minimum maximum norm = Some (selected, wildcard) →
  (∀ i, i ∈ selected ↔ ∃ item, selects value minimum maximum item ∧ i = normalize_item norm item) ∧
  (∀ item, selects value minimum maximum item → minimum ≤ item ≤ maximum) ∧
  selected ≠ ∅ ∧ (wildcard = true ↔ value = "*").
Proof.
  intros Hmin Hmax Hfit. unfold parseCronField.
  destruct (field_parts _ _ _ _ _) as [s|] eqn:E; [|done]. case_bool_decide as Hne; [done|].
  intros [= -> <-]. split_and!; [| |done|by rewrite bool_decide_eq_true].
  - intros i. rewrite (field_parts_spec _ _ _ _ _ _ E). split.
    + intros [[]%elem_of_empty|(part & start & end_ & step & item & Hp & Hpp & Hin & ->)].
      exists item. split; [|done]. exists part, start, end_, step.
      destruct (parse_part_bounds _ _ _ _ _ _ Hpp) as (? & ? & ?). pose proof (Hfit _ _ _ _ Hp Hpp).
      split_and!; [done|done|..]; apply part_items_exact in Hin; unfold step_fits, items_fuel; lia.
    + intros (item & (part & start & end_ & step & Hp & Hpp & Hr & Hm) & ->). right.
      exists part, start, end_, step, item. split_and!; [done|done| |done].
      destruct (parse_part_bounds _ _ _ _ _ _ Hpp) as (? & ? & ?). pose proof (Hfit _ _ _ _ Hp Hpp).
      apply part_items_exact; unfold step_fits, items_fuel; lia.
  - intros item (part & start & end_ & step & Hp & Hpp & Hr & Hm).
    destruct (parse_part_bounds _ _ _ _ _ _ Hpp). lia.
Qed.

(** C37: The next firing time: for a rule that parses and a known zone,
    [nextCronTime] ends and returns the first whole minute after [after] that matches
    the rule in the zone, or reports an invalid rule when no minute of the next five
    years matches. *)
Theorem nextCronTime_first LoadLocation expression timezone after spec location :
  parseCron expression = Ok spec → LoadLocation timezone = Some location →
  let limit := add_years location (first_candidate after) 5 in
  let firing t := t mod minute = 0 ∧ after < t < limit ∧ matches spec location t = true in
  match nextCronTime LoadLocation expression timezone after with
  | Ok t => firing t ∧ ∀ t', firing t' → t ≤ t'
  | Err e => e = ErrInvalidCron ∧ ∀ t, ¬ firing t
  end.
Proof. apply nextCronTime_least. Qed.

(** The overflow the exactness theorem excludes is real: the part selects 59 and
    then, wrapping around, also 57, 55, ... *)
Lemma step_overflow_selects :
  match parseCronField "59-59/9223372036854775807" 0 59 false with
  | Some (selected, _) => bool_decide (57 ∈ selected) && bool_decide (1 ∈ selected) && bool_decide (-1 ∈ selected)
  | None => false
  end = true.
Proof. vm_compute. reflexivity. Qed.

(** ** Witnesses *)

Lemma parseCronField_exact_witness :
  ∃ selected, parseCronField "1-5/2,7" 0 7 true = Some (selected, false) ∧
    (∀ i, i ∈ selected ↔ ∃ item, selects "1-5/2,7" 0 7 item ∧ i = normalize_item true item).
Proof.
  assert (parseCronField "1-5/2,7" 0 7 true = Some ({[1; 3; 5; 0]}, false)) as E by (vm_compute; reflexivity).
  exists {[1; 3; 5; 0]}. split; [exact E|].
  refine (proj1 (parseCronField_exact "1-5/2,7" 0 7 true _ _ _ _ _ E)); [lia|lia|].
  intros part start end_ step Hin Hp.
  change (split_on "," "1-5/2,7") with ["1-5/2"; "7"] in Hin.
  apply elem_of_cons in Hin as [->|Hin].
  - vm_compute in Hp. injection Hp as _ _ <-. lia.
  - apply list_elem_of_singleton in Hin as ->. vm_compute in Hp. injection Hp as _ _ <-. lia.
Defined.

(** Half past every hour, in UTC. *)
Lemma nextCronTime_first_witness :
  ∃ t spec, parseCron "30 * * * *" = Ok spec ∧
    nextCronTime (λ _, Some UTC) "30 * * * *" "UTC" (1700494200 * second) = Ok t ∧
    t mod minute = 0 ∧ matches spec UTC t = true ∧ t = 1700497800 * second.
Proof.
  destruct (parseCron "30 * * * *") as [spec|e] eqn:Ep; [|vm_compute in Ep; discriminate].
  pose proof (nextCronTime_first (λ _, Some UTC) "30 * * * *" "UTC" (1700494200 * second) spec UTC Ep eq_refl) as H.
  assert (nextCronTime (λ _, Some UTC) "30 * * * *" "UTC" (1700494200 * second)
    = Ok (1700497800 * second)) as E by (vm_compute; reflexivity).
  rewrite E in H. destruct H as [(H1 & _ & H2) _].
  exists (1700497800 * second), spec. auto.
Defined.

End Cron.
