(* ===== verification/TaskService.v ===== *)
(** * TaskService

    Task definitions, the creation of runs and the cron schedules:
    [internal/task/service.go], [internal/task/parameter_validation.go] and the
    database part of [internal/task/schedule.go].

    A JSON column holds the decoded value: a value that [json.Marshal] refuses (a
    number that is not finite) cannot be stored.  The cancellation of the caller's
    context is not modelled. *)

From S2P Require Import Prelude GoStd Model World Schema Session Lifecycle RunEvents Cron.
Import Cron.

(** ** Definitions: normalisation and validation *)

Definition normalizeInput (input : CreateInput) : CreateInput :=
  let input := input <| ci_Name := TrimSpace (ci_Name input) |>
                     <| ci_Description := TrimSpace (ci_Description input) |>
                     <| ci_ScriptID := TrimSpace (ci_ScriptID input) |>
                     <| ci_PinnedVersionID := TrimSpace (ci_PinnedVersionID input) |>
                     <| ci_RequiredRuntime := ToLower (TrimSpace (ci_RequiredRuntime input)) |> in
  let input := if bool_decide (ci_VersionPolicy input = "") then input <| ci_VersionPolicy := VersionLatest |> else input in
  let input := input <| ci_Parameters := Some (default ∅ (ci_Parameters input)) |>
                     <| ci_SecretRefs := Some (default ∅ (ci_SecretRefs input)) |>
                     <| ci_RequiredLabels := Some (default ∅ (ci_RequiredLabels input)) |> in
  let input := if ci_MaxConcurrency input =? 0 then input <| ci_MaxConcurrency := 1 |> else input in
  if ci_TimeoutSeconds input =? 0 then input <| ci_TimeoutSeconds := 3600 |> else input.

Definition validateInput (input : CreateInput) : Result unit :=
  if bool_decide (ci_Name input = "") || bool_decide (ci_ScriptID input = "") ||
     bool_decide (ci_RequiredRuntime input = "") ||
     (CPUMillicores (ci_Resources input) <=? 0) || (MemoryBytes (ci_Resources input) <=? 0) ||
     (DiskBytes (ci_Resources input) <=? 0) || (ci_Priority input <? 0) || (100 <? ci_Priority input) ||
     (ci_MaxConcurrency input <=? 0) || (ci_TimeoutSeconds input <=? 0) || (ci_MaxWaitSeconds input <? 0) ||
     (MaxRetries (ci_RetryPolicy input) <? 0) || (BackoffSeconds (ci_RetryPolicy input) <? 0)
  then Err ErrInvalidDefinition
  else if bool_decide (ci_VersionPolicy input = VersionLatest) && bool_decide (ci_PinnedVersionID input = "") then Ok tt
  else if bool_decide (ci_VersionPolicy input = VersionPinned) && negb (bool_decide (ci_PinnedVersionID input = "")) then Ok tt
  else Err ErrInvalidDefinition.

Definition nullableUUID (value : string) : option string :=
  if bool_decide (TrimSpace value = "") then None else Some value.

(** What [json.Marshal] accepts: finite floats and, of a [json.Number], the JSON
    number grammar (the empty number is written as 0). *)
Definition is_digit (c : ascii) : bool := bool_decide (is_Some (digit_of c)).

Fixpoint skip_digits (s : string) : string :=
  match s with
  | String c r => if is_digit c then skip_digits r else s
  | EmptyString => EmptyString
  end.

(** At least one digit, then the rest. *)
Definition some_digits (s : string) : option string :=
  match s with
  | String c r => if is_digit c then Some (skip_digits r) else None
  | EmptyString => None
  end.

Definition after_sign (signs s : string) : string :=
  match s with String c r => if contains_byte c signs then r else s | EmptyString => s end.

Definition number_exponent (s : string) : bool :=
  match s with
  | EmptyString => true
  | String c r =>
    contains_byte c "eE" &&
    match some_digits (after_sign "+-" r) with Some rest => bool_decide (rest = "") | None => false end
  end.

Definition number_fraction (s : string) : bool :=
  match s with
  | String c r =>
    if bool_decide (c = "."%char) then match some_digits r with Some rest => number_exponent rest | None => false end
    else number_exponent s
  | EmptyString => true
  end.

Definition valid_json_number (s : string) : bool :=
  bool_decide (s = "") ||
  match after_sign "-" s with
  | EmptyString => false
  | String c r =>
    if bool_decide (c = "0"%char) then number_fraction r
    else if is_digit c then number_fraction (skip_digits r)
    else false
  end.

Definition float_marshals (f : FloatValue) : bool := match f with FFinite _ => true | _ => false end.

Fixpoint value_marshals (v : Value) : bool :=
  match v with
  | VNil | VBool _ | VString _ | VInteger _ => true
  | VFloat64 f | VFloat32 f => float_marshals f
  | VJSONNumber repr _ => valid_json_number repr
  | VArray items => forallb value_marshals items
  | VObject fields => forallb (λ p, value_marshals p.2) fields
  end.

Definition map_marshals (m : gmap string Value) : bool := forallb (λ p, value_marshals p.2) (map_to_list m).

(** The row [Create] inserts and [Update] writes. *)
Definition definition_row (input : CreateInput) (created_by : option string) (created_at updated_at : Time) : DefinitionRow :=
  mkDefinitionRow (ci_Name input) (ci_Description input) (ci_ScriptID input) (ci_VersionPolicy input)
    (nullableUUID (ci_PinnedVersionID input)) (ci_Enabled input) (default ∅ (ci_Parameters input))
    (default ∅ (ci_SecretRefs input)) (default ∅ (ci_RequiredLabels input)) (ci_RequiredRuntime input)
    (ci_Resources input) (ci_TimeoutSeconds input) (MaxRetries (ci_RetryPolicy input)) (ci_Priority input)
    (ci_MaxConcurrency input) (ci_MaxWaitSeconds input) (BackoffSeconds (ci_RetryPolicy input)) (ci_Idempotent input)
    created_by created_at updated_at.

(** The checks, foreign keys and the unique name of [task_definitions]. *)
Definition policy_check (row : DefinitionRow) : bool :=
  (bool_decide (df_version_policy row = VersionLatest) && bool_decide (df_pinned_version_id row = None)) ||
  (bool_decide (df_version_policy row = VersionPinned) && bool_decide (is_Some (df_pinned_version_id row))).

Definition definition_columns (row : DefinitionRow) : bool :=
  int4 (df_priority row) && int4 (CPUMillicores (df_resources row)) && int8 (MemoryBytes (df_resources row)) && int8 (DiskBytes (df_resources row)) &&
  int4 (df_max_concurrency row) && int4 (df_timeout_seconds row) && int4 (df_max_wait_seconds row) && int4 (df_max_retries row) &&
  int4 (df_retry_backoff_seconds row).
#[global] Arguments definition_columns : simpl never.

Definition definition_checks (row : DefinitionRow) : bool :=
  definition_columns row &&
  (0 <=? df_priority row) && (df_priority row <=? 100) && (0 <? CPUMillicores (df_resources row)) &&
  (0 <? MemoryBytes (df_resources row)) && (0 <? DiskBytes (df_resources row)) && (0 <? df_max_concurrency row) &&
  (0 <? df_timeout_seconds row) && (0 <=? df_max_wait_seconds row) && (0 <=? df_max_retries row) &&
  (0 <=? df_retry_backoff_seconds row) && policy_check row.

Definition name_used (name except : string) (d : DB) : bool :=
  existsb (λ p, bool_decide (p.1 ≠ except) && bool_decide (df_name p.2 = name)) (map_to_list (task_definitions d)).

Definition write_definition (id : string) (row : DefinitionRow) (d : DB) : option DB :=
  if name_used (df_name row) id d || negb (reference (scripts d) (Some (df_script_id row))) ||
     negb (reference (script_versions d) (df_pinned_version_id row)) ||
     negb (match df_created_by row with None => true | Some u => bool_decide (u ∈ users d) end) ||
     negb (definition_checks row) || negb (map_marshals (df_parameters row))
  then None
  else Some (d <| task_definitions ::= <[id := row]> |>).

(** [definitionSelect] and [scanDefinition] *)
Definition scanDefinition (d : DB) (id : string) (row : DefinitionRow) : option TaskDefinition :=
  match scripts d !! df_script_id row with
  | None => None
  | Some script =>
    Some (mkTaskDefinition id (df_name row) (df_description row) (df_script_id row) (sc_name script)
      (df_version_policy row) (default "" (df_pinned_version_id row)) (df_parameters row) (df_secret_bindings row)
      (df_priority row) (df_required_labels row) (df_required_runtime row) (df_resources row)
      (df_max_concurrency row) (df_timeout_seconds row) (df_max_wait_seconds row)
      (mkRetryPolicy (df_max_retries row) (df_retry_backoff_seconds row)) (df_idempotent row) (df_enabled row)
      (default "" (df_created_by row)) (df_created_at row) (df_updated_at row))
  end.

(** ** Parameters *)

Definition is_number (v : Value) : bool :=
  match v with
  | VFloat64 f | VFloat32 f => float_marshals f
  | VInteger _ => true
  | VJSONNumber _ (Some f) => float_marshals f
  | _ => false
  end.

Definition value_has_type (type : string) (v : Value) : bool :=
  if bool_decide (type = "string") then match v with VString _ => true | _ => false end
  else if bool_decide (type = "boolean") then match v with VBool _ => true | _ => false end
  else if bool_decide (type = "number") then is_number v
  else false.

Definition validate_parameter (def : ParameterDefinition) (values : gmap string Value) (refs : gmap string string) : bool :=
  if negb (bool_decide (TrimSpace (map_str refs (pd_Name def)) = "")) then
    if negb (bool_decide (pd_Type def = "string")) then false
    else negb (bool_decide (is_Some (values !! pd_Name def)))
  else
    match values !! pd_Name def with
    | None | Some VNil => negb (pd_Required def)
    | Some v => value_has_type (pd_Type def) v
    end.

Definition validateParameters (definitions : list ParameterDefinition) (values : gmap string Value)
  (refs : gmap string string) : Result unit :=
  if forallb (λ def, validate_parameter def values refs) definitions then Ok tt else Err ErrInvalidParameters.

Section task_service.
Context {C : Type} `{!Has DB C} (LoadLocation : string → option Location).

Definition validateVersionParameters (scriptID versionID : string) (values : gmap string Value)
  (refs : gmap string string) : Tx C unit :=
  let! found := query "读取脚本参数定义" (λ d,
    match script_versions d !! versionID with
    | Some v => if bool_decide (sv_script_id v = scriptID) then Some (sv_manifest v) else None
    | None => None
    end) in
  match found with
  | None => throw ErrVersionUnavailable
  | Some manifest =>
    match validateParameters (mf_ParameterDefinitions manifest) values refs with
    | Ok _ => ret tt
    | Err e => throw e
    end
  end.

(** ** Definitions: operations *)

Definition validateReferences (input : CreateInput) : Prog C unit :=
  let! runtime := pool_query "校验任务脚本" (λ d, sc_runtime <$> scripts d !! ci_ScriptID input) in
  match runtime with
  | None => throw ErrInvalidDefinition
  | Some runtime =>
    if negb (bool_decide (ToLower runtime = ci_RequiredRuntime input)) then throw ErrInvalidDefinition
    else if bool_decide (ci_VersionPolicy input = VersionPinned) then
      let! exists_ := pool_query "校验固定脚本版本" (λ d,
        match script_versions d !! ci_PinnedVersionID input with
        | Some v => bool_decide (sv_script_id v = ci_ScriptID input)
        | None => false
        end) in
      if negb exists_ then throw ErrInvalidDefinition else ret tt
    else ret tt
  end.

Definition Get (id : string) : Prog C TaskDefinition :=
  let! found := pool_query "读取任务定义" (λ d,
    match task_definitions d !! id with Some row => scanDefinition d id row | None => None end) in
  match found with Some definition => ret definition | None => throw ErrDefinitionNotFound end.

Definition List_ : Prog C (list TaskDefinition) :=
  pool_query "读取任务定义列表" (λ d,
    omap (λ p, scanDefinition d p.1 p.2)
      (stable_sort (λ a b, df_created_at b.2 <? df_created_at a.2) (map_to_list (task_definitions d)))).

Definition Create (input : CreateInput) : Prog C TaskDefinition :=
  let input := normalizeInput input in
  match validateInput input with
  | Err e => throw e
  | Ok _ =>
    validateReferences input ;;!
    let! id := new_uuid in
    let! now := clock_now in
    pool "创建任务定义" (λ d,
      if bool_decide (is_Some (task_definitions d !! id)) then None
      else match write_definition id (definition_row input (nullableUUID (ci_CreatedBy input)) now now) d with
           | Some d' => Some (d', tt)
           | None => None
           end) ;;!
    Get id
  end.

Definition update_definition (id : string) (input : CreateInput) (now : Time) (d : DB) : option (DB * bool) :=
  match task_definitions d !! id with
  | None => Some (d, false)
  | Some old =>
    match write_definition id (definition_row input (df_created_by old) (df_created_at old) now) d with
    | Some d' => Some (d', true)
    | None => None
    end
  end.

Definition Update (id : string) (input : CreateInput) : Prog C TaskDefinition :=
  let input := normalizeInput input in
  match validateInput input with
  | Err e => throw e
  | Ok _ =>
    validateReferences input ;;!
    let! now := clock_now in
    let! updated := pool "更新任务定义" (update_definition id input now) in
    if negb updated then throw ErrDefinitionNotFound else Get id
  end.

(** [ON DELETE RESTRICT] on the runs, [ON DELETE CASCADE] on the schedules. *)
Definition delete_definition (id : string) (d : DB) : option (DB * bool) :=
  match task_definitions d !! id with
  | None => Some (d, false)
  | Some _ =>
    if existsb (λ p, bool_decide (rs_task_definition_id (tr_spec p.2) = id)) (map_to_list (task_runs d)) then None
    else Some (d <| task_definitions ::= delete id |>
                 <| task_schedules ::= filter (λ p, ts_task_definition_id p.2 ≠ id) |>, true)
  end.

Definition Delete (id : string) : Prog C unit :=
  let! deleted := pool "删除任务定义" (delete_definition id) in
  if negb deleted then throw ErrDefinitionNotFound else ret tt.

Definition cancelled_by_disable (now : Time) (row : RunRow) : RunRow :=
  row <| tr_state := Cancelled |> <| tr_finished_at := Some now |> <| tr_updated_at := now |>.

Definition queued_of (definitionID : string) (row : RunRow) : bool :=
  bool_decide (rs_task_definition_id (tr_spec row) = definitionID) && bool_decide (tr_state row = Queued).

Definition SetEnabled (id : string) (enabled cancelQueued : bool) : Prog C unit :=
  transaction "开始停启任务事务" (
    let! t1 := clock_now in
    let! updated := stmt "停启任务定义" (λ d,
      Some (d <| task_definitions ::= alter (λ row, row <| df_enabled := enabled |> <| df_updated_at := t1 |>) id |>,
            bool_decide (is_Some (task_definitions d !! id)))) in
    if negb updated then throw ErrDefinitionNotFound
    else
      (if negb enabled && cancelQueued then
         let! t2 := clock_now in
         let! runIDs := stmt "取消排队实例" (λ d, Some (update_runs_where (queued_of id) (cancelled_by_disable t2) d)) in
         for_each runIDs (λ runID,
           let! t := clock_now in
           exec "写入取消事件" (append_event runID "run.cancelled" Cancelled (message "任务停用并取消排队") t None))
       else ret tt) ;;!
      commit "提交停启任务事务").

(** ** Creating runs *)

Record dueSchedule : Type := mkDueSchedule {
  ds_id : string; ds_definitionID : string; ds_expression : string; ds_timezone : string;
  ds_fireTime : Time; ds_updatedAt : Time
}.

Definition lockDueSchedule (expected : option dueSchedule) : Tx C (option Time) :=
  match expected with
  | None => ret None
  | Some e =>
    let! found := query "锁定定时计划" (λ d,
      match task_schedules d !! ds_id e with
      | Some row => if bool_decide (ts_task_definition_id row = ds_definitionID e) then Some row else None
      | None => None
      end) in
    match found with
    | None => throw errScheduleChanged
    | Some row =>
      if negb (ts_enabled row) || negb (bool_decide (ts_next_run_at row = Some (ds_fireTime e))) ||
         negb (bool_decide (ts_cron_expression row = ds_expression e)) ||
         negb (bool_decide (ts_timezone row = ds_timezone e)) || negb (ts_updated_at row =? ds_updatedAt e)
      then throw errScheduleChanged
      else
        match nextCronTime LoadLocation (ts_cron_expression row) (ts_timezone row) (ds_fireTime e) with
        | Ok next => ret (Some next)
        | Err err => throw err
        end
    end
  end.

Definition advanceDueSchedule (schedule : option dueSchedule) (next : option Time) (now : Time) : Tx C unit :=
  match schedule with
  | None => ret tt
  | Some s => exec "推进定时计划" (λ d, Some (d <| task_schedules ::=
      alter (λ row, row <| ts_next_run_at := next |> <| ts_updated_at := now |>) (ds_id s) |>))
  end.

(** [SELECT id FROM script_versions WHERE script_id=$1 ORDER BY version DESC LIMIT 1] *)
Definition latest_version (scriptID : string) (d : DB) : option string :=
  fst <$> head (stable_sort (λ a b, sv_version b.2 <? sv_version a.2)
    (filter (λ p, sv_script_id p.2 = scriptID) (map_to_list (script_versions d)))).

Definition trigger_spec (definitionID versionID : string) (trigger : Trigger) (definition : DefinitionRow)
  (parameters : gmap string Value) (now : Time) : RunSpec :=
  mkRunSpec definitionID versionID (nullableUUID (tg_RequestedBy trigger)) (tg_Type trigger) parameters
    (tg_ScheduledFor trigger) now 1 None (df_priority definition) (df_resources definition)
    (df_max_concurrency definition) (df_timeout_seconds definition) (df_max_wait_seconds definition)
    (df_max_retries definition) (df_retry_backoff_seconds definition) (df_idempotent definition)
    (df_required_labels definition) (df_required_runtime definition) now.

(** The [Run] value the function returns. *)
Definition triggered_run (id : string) (spec : RunSpec) : Run :=
  mkRun false id (rs_task_definition_id spec) (rs_script_version_id spec) (rs_trigger_type spec) Queued
    (rs_parameters_snapshot spec) (rs_required_labels spec) (rs_required_runtime spec) (rs_priority spec)
    (rs_resources spec) (rs_max_concurrency spec) (rs_timeout_seconds spec) (rs_max_wait_seconds spec)
    (mkRetryPolicy (rs_max_retries spec) (rs_retry_backoff_seconds spec)) (rs_idempotent spec)
    (rs_scheduled_for spec) (rs_queued_at spec) (rs_created_at spec).

(** [INSERT ... ON CONFLICT (task_definition_id, scheduled_for) DO NOTHING RETURNING id] *)
Definition insert_triggered (id : string) (spec : RunSpec) (now : Time) (d : DB) : option (DB * bool) :=
  if firing_exists (rs_task_definition_id spec) (rs_scheduled_for spec) d then Some (d, false)
  else match insert_run id (new_run spec now) d with Some d' => Some (d', true) | None => None end.

Definition queued_payload (refs : gmap string string) : Payload :=
  (message "任务已进入排队队列") <| pl_secretRefs := Some refs |>.

Definition resolve_version (definition : DefinitionRow) : Tx C string :=
  match bool_decide (df_version_policy definition = VersionPinned), df_pinned_version_id definition with
  | true, Some pinned => ret pinned
  | _, _ =>
    let! latest := query "解析脚本版本" (latest_version (df_script_id definition)) in
    match latest with Some v => ret v | None => throw ErrVersionUnavailable end
  end.

(** The transaction of [trigger], for a trigger whose type has been checked. *)
Definition trigger_body (definitionID : string) (trigger : Trigger) (schedule : option dueSchedule) : Tx C Run :=
  let! found := query "读取任务定义" (λ d, task_definitions d !! definitionID) in
  match found with
  | None => throw ErrDefinitionNotFound
  | Some definition =>
    if negb (df_enabled definition) then throw ErrDefinitionDisabled
    else
      let! nextScheduled := lockDueSchedule schedule in
      let! versionID := resolve_version definition in
      let parameters := tg_Parameters trigger ∪ df_parameters definition in
      validateVersionParameters (df_script_id definition) versionID parameters (df_secret_bindings definition) ;;!
      if negb (map_marshals parameters) then throw ErrInvalidParameters
      else
        let! now := clock_now in
        let spec := trigger_spec definitionID versionID trigger definition parameters now in
        let! id := new_uuid in
        let! inserted := stmt "创建运行实例" (insert_triggered id spec now) in
        if negb inserted then
          advanceDueSchedule schedule nextScheduled now ;;!
          commit "提交计划去重" ;;!
          throw ErrDuplicateRun
        else
          exec "写入排队事件" (insert_event id
            (mkEventRow 0 "run.queued" Queued (queued_payload (df_secret_bindings definition)) now None)) ;;!
          advanceDueSchedule schedule nextScheduled now ;;!
          commit "提交运行实例" ;;!
          ret (triggered_run id spec)
  end.

#[export] Instance eta_Trigger : Eta Trigger := λ t,
  mkTrigger (tg_Type t) (tg_RequestedBy t) (tg_Parameters t) (tg_ScheduledFor t).

Definition trigger (definitionID : string) (request : Trigger) (schedule : option dueSchedule) : Prog C Run :=
  let request := if bool_decide (tg_Type request = "") then request <| tg_Type := TriggerManual |> else request in
  if negb (bool_decide (tg_Type request = TriggerManual)) && negb (bool_decide (tg_Type request = TriggerSchedule)) &&
     negb (bool_decide (tg_Type request = TriggerRetry))
  then throw ErrInvalidDefinition
  else transaction "开始创建运行实例事务" (trigger_body definitionID request schedule).

Definition Trigger_ (definitionID : string) (request : Trigger) : Prog C Run := trigger definitionID request None.

(** ** Schedules *)

Definition schedule_of (id : string) (row : ScheduleRow) : Schedule :=
  mkSchedule id (ts_task_definition_id row) (ts_cron_expression row) (ts_timezone row) (ts_enabled row)
    (ts_next_run_at row) (ts_created_at row) (ts_updated_at row).

Definition zone_or_default (timezone : string) : string :=
  if bool_decide (TrimSpace timezone = "") then defaultTimezone else TrimSpace timezone.

Definition CreateSchedule (input : ScheduleInput) : Prog C Schedule :=
  let definitionID := TrimSpace (si_DefinitionID input) in
  let expression := TrimSpace (si_CronExpression input) in
  let timezone := zone_or_default (si_Timezone input) in
  if bool_decide (definitionID = "") || negb (is_ok (ValidateCron LoadLocation expression timezone))
  then throw ErrInvalidCron
  else
    let! now := clock_now in
    match nextCronTime LoadLocation expression timezone now with
    | Err e => throw e
    | Ok next =>
      let! id := new_uuid in
      let! created := clock_now in
      pool "创建定时计划" (λ d,
        if bool_decide (is_Some (task_schedules d !! id)) || negb (reference (task_definitions d) (Some definitionID))
        then None
        else
          let row := mkScheduleRow definitionID expression timezone (si_Enabled input) (Some next) created created in
          Some (d <| task_schedules ::= <[id := row]> |>, schedule_of id row))
    end.

Definition ListSchedules (definitionID : string) : Prog C (list Schedule) :=
  pool_query "读取定时计划" (λ d,
    (λ p, schedule_of p.1 p.2) <$>
      stable_sort (λ a b, ts_created_at a.2 <? ts_created_at b.2)
        (filter (λ p, ts_task_definition_id p.2 = definitionID) (map_to_list (task_schedules d)))).

Definition UpdateSchedule (scheduleID : string) (input : ScheduleInput) : Prog C Schedule :=
  let expression := TrimSpace (si_CronExpression input) in
  let timezone := zone_or_default (si_Timezone input) in
  if bool_decide (si_DefinitionID input = "") || negb (is_ok (ValidateCron LoadLocation expression timezone))
  then throw ErrInvalidCron
  else
    let! now := clock_now in
    match nextCronTime LoadLocation expression timezone now with
    | Err e => throw e
    | Ok next =>
      let! updatedAt := clock_now in
      let! updated := pool "更新定时计划" (λ d,
        match task_schedules d !! scheduleID with
        | Some row =>
          if bool_decide (ts_task_definition_id row = si_DefinitionID input) then
            let row := row <| ts_cron_expression := expression |> <| ts_timezone := timezone |>
                           <| ts_enabled := si_Enabled input |> <| ts_next_run_at := Some next |>
                           <| ts_updated_at := updatedAt |> in
            Some (d <| task_schedules ::= <[scheduleID := row]> |>, Some (schedule_of scheduleID row))
          else Some (d, None)
        | None => Some (d, None)
        end) in
      match updated with Some schedule => ret schedule | None => throw ErrDefinitionNotFound end
    end.

Definition DeleteSchedule (definitionID scheduleID : string) : Prog C unit :=
  let! deleted := pool "删除定时计划" (λ d,
    match task_schedules d !! scheduleID with
    | Some row =>
      if bool_decide (ts_task_definition_id row = definitionID)
      then Some (d <| task_schedules ::= delete scheduleID |>, true) else Some (d, false)
    | None => Some (d, false)
    end) in
  if negb deleted then throw ErrDefinitionNotFound else ret tt.

(** The schedules [ScheduleDue] selects. *)
Definition due_schedule (d : DB) (now : Time) (p : string * ScheduleRow) : option dueSchedule :=
  let row := p.2 in
  match ts_next_run_at row, task_definitions d !! ts_task_definition_id row with
  | Some fireTime, Some definition =>
    if ts_enabled row && df_enabled definition && (fireTime <=? now)
    then Some (mkDueSchedule p.1 (ts_task_definition_id row) (ts_cron_expression row) (ts_timezone row) fireTime
                 (ts_updated_at row))
    else None
  | _, _ => None
  end.

Definition due_schedules (now : Time) (d : DB) : list dueSchedule :=
  stable_sort (λ a b, (ds_fireTime a <? ds_fireTime b) || ((ds_fireTime a =? ds_fireTime b) && string_lt (ds_id a) (ds_id b)))
    (omap (due_schedule d now) (map_to_list (task_schedules d))).

Definition due_ignored (e : Error) : bool :=
  match e with
  | ErrDuplicateRun | errScheduleChanged | ErrDefinitionDisabled | ErrDefinitionNotFound => true
  | _ => false
  end.

(** The loop: the runs created and the failures collected. *)
Fixpoint fire_each (due : list dueSchedule) : Prog C (list Run * list Error) :=
  match due with
  | [] => ret ([], [])
  | item :: rest =>
    let! result := catch (trigger (ds_definitionID item)
                     (mkTrigger TriggerSchedule "" ∅ (Some (ds_fireTime item))) (Some item)) in
    let! outcome := fire_each rest in
    let '(runs, failures) := outcome in
    ret (match result with
         | Ok run => (run :: runs, failures)
         | Err e => (runs, if due_ignored e then failures else e :: failures)
         end)
  end.

(** The runs, and the errors [errors.Join] combines. *)
Definition ScheduleDue (now : Time) : Prog C (list Run * list Error) :=
  let! due := pool_query "读取到期计划" (due_schedules now) in
  fire_each due.

(** ** Creating runs: what is committed *)

Definition advance (schedule : option dueSchedule) (next : option Time) (now : Time) (d : DB) : DB :=
  match schedule with
  | None => d
  | Some s => d <| task_schedules ::= alter (λ row, row <| ts_next_run_at := next |> <| ts_updated_at := now |>) (ds_id s) |>
  end.

(** The schedule is still the one that was found due; [next] is its next time. *)
Definition schedule_current (schedule : option dueSchedule) (next : option Time) (d : DB) : Prop :=
  match schedule with
  | None => next = None
  | Some e => ∃ row t, task_schedules d !! ds_id e = Some row ∧ ts_task_definition_id row = ds_definitionID e ∧
      ts_enabled row = true ∧ ts_next_run_at row = Some (ds_fireTime e) ∧
      nextCronTime LoadLocation (ts_cron_expression row) (ts_timezone row) (ds_fireTime e) = Ok t ∧ next = Some t
  end.

Definition resolved_version (definition : DefinitionRow) (versionID : string) (d : DB) : Prop :=
  (df_version_policy definition = VersionPinned ∧ df_pinned_version_id definition = Some versionID) ∨
  ((df_version_policy definition ≠ VersionPinned ∨ df_pinned_version_id definition = None) ∧
   latest_version (df_script_id definition) d = Some versionID).

(** What a new run or a detected duplicate requires. *)
Record trigger_ready (definitionID : string) (request : Trigger) (schedule : option dueSchedule) (d : DB)
  (definition : DefinitionRow) (versionID : string) (next : option Time) : Prop := {
  tr_definition : task_definitions d !! definitionID = Some definition;
  tr_enabled : df_enabled definition = true;
  tr_schedule : schedule_current schedule next d;
  tr_version : resolved_version definition versionID d;
  tr_parameters : ∃ v, script_versions d !! versionID = Some v ∧ sv_script_id v = df_script_id definition ∧
    validateParameters (mf_ParameterDefinitions (sv_manifest v)) (tg_Parameters request ∪ df_parameters definition)
      (df_secret_bindings definition) = Ok tt
}.

Definition run_spec (definitionID versionID : string) (request : Trigger) (definition : DefinitionRow) (now : Time) : RunSpec :=
  trigger_spec definitionID versionID request definition (tg_Parameters request ∪ df_parameters definition) now.

Definition trigger_created (definitionID : string) (request : Trigger) (schedule : option dueSchedule) (run : Run)
  (d d' : DB) : Prop :=
  ∃ definition versionID next now id d1 d2,
    trigger_ready definitionID request schedule d definition versionID next ∧
    let spec := run_spec definitionID versionID request definition now in
    run = triggered_run id spec ∧ insert_triggered id spec now d = Some (d1, true) ∧
    insert_event id (mkEventRow 0 "run.queued" Queued (queued_payload (df_secret_bindings definition)) now None) d1 = Some d2 ∧
    d' = advance schedule next now d2.

Definition trigger_duplicate (definitionID : string) (request : Trigger) (schedule : option dueSchedule) (d d' : DB) : Prop :=
  ∃ definition versionID next now,
    trigger_ready definitionID request schedule d definition versionID next ∧
    firing_exists definitionID (tg_ScheduledFor request) d = true ∧ d' = advance schedule next now d.

Definition trigger_post (definitionID : string) (request : Trigger) (schedule : option dueSchedule)
  (d : DB) (r : Result Run) (d' : DB) : Prop :=
  match r with
  | Ok run => trigger_created definitionID request schedule run d d'
  | Err ErrDuplicateRun => trigger_duplicate definitionID request schedule d d'
  | Err e => d' = d ∨ ((∃ context, e = EStorage context) ∧
      ((∃ run, trigger_created definitionID request schedule run d d') ∨
       trigger_duplicate definitionID request schedule d d'))
  end.

Lemma nextCronTime_error expression timezone after e :
  nextCronTime LoadLocation expression timezone after = Err e → e = ErrInvalidCron.
Proof.
  unfold nextCronTime. destruct (parseCron expression) as [spec|e'] eqn:E.
  - repeat case_match; naive_solver.
  - intros [= ->]. unfold parseCron in E. repeat case_match; naive_solver.
Qed.

(** An error of the reading steps. *)
Definition early_error (e : Error) : Prop := e ≠ ErrDuplicateRun.

Lemma wp_lockDueSchedule schedule (c : C) d Q :
  (∀ e, early_error e → Q (Err e) (c, d)) → (∀ next, schedule_current schedule next d → Q (Ok next) (c, d)) →
  wp (lockDueSchedule schedule) (c, d) Q.
Proof.
  intros He Hok. destruct schedule as [s|]; simpl; [|apply wp_ret; by apply Hok].
  apply wp_bind, wp_query; [by apply He|].
  destruct (task_schedules d !! ds_id s) as [row|] eqn:Erow; [|apply wp_throw; by apply He].
  case_bool_decide as Hdef; [|apply wp_throw; by apply He].
  destruct (_ || _) eqn:Eb; [apply wp_throw; by apply He|].
  rewrite !orb_false_iff, !negb_false_iff, !bool_decide_eq_true in Eb. destruct Eb as ((((E1 & E2) & E3) & E4) & E5).
  destruct (nextCronTime _ _ _ _) as [t|e] eqn:En.
  - apply wp_ret, Hok. by exists row, t.
  - apply wp_throw, He. apply nextCronTime_error in En. by subst.
Qed.

Lemma wp_validateVersionParameters scriptID versionID values refs (c : C) d Q :
  (∀ e, early_error e → Q (Err e) (c, d)) →
  (∀ v, script_versions d !! versionID = Some v → sv_script_id v = scriptID →
     validateParameters (mf_ParameterDefinitions (sv_manifest v)) values refs = Ok tt → Q (Ok tt) (c, d)) →
  wp (validateVersionParameters scriptID versionID values refs) (c, d) Q.
Proof.
  intros He Hok. apply wp_bind, wp_query; [by apply He|].
  destruct (script_versions d !! versionID) as [v|] eqn:Ev; [|apply wp_throw; by apply He].
  case_bool_decide as Hs; [|apply wp_throw; by apply He].
  destruct (validateParameters _ _ _) as [[]|e] eqn:Ep; [apply wp_ret; by eapply Hok|].
  apply wp_throw, He. unfold validateParameters in Ep. by case_match; simplify_eq.
Qed.

Lemma wp_advanceDueSchedule schedule next now (c : C) d Q :
  (∀ context d1, Q (Err (EStorage context)) (c, d1)) → Q (Ok tt) (c, advance schedule next now d) →
  wp (advanceDueSchedule schedule next now) (c, d) Q.
Proof.
  intros He Hok. destruct schedule as [s|]; simpl; [|by apply wp_ret].
  apply wp_exec; [done|]. intros d1 [= <-]. split; [done|apply He].
Qed.

Lemma wp_resolve_version definition (c : C) d Q :
  (∀ e, early_error e → Q (Err e) (c, d)) → (∀ v, resolved_version definition v d → Q (Ok v) (c, d)) →
  wp (resolve_version definition) (c, d) Q.
Proof.
  intros He Hok.
  assert ((df_version_policy definition ≠ VersionPinned ∨ df_pinned_version_id definition = None) →
    wp (let! latest := query "解析脚本版本" (latest_version (df_script_id definition)) in
        match latest with Some v => ret v | None => throw ErrVersionUnavailable end) (c, d) Q) as Hlatest.
  { intros Hp. apply wp_bind, wp_query; [by apply He|]. destruct (latest_version _ _) eqn:El.
    - apply wp_ret, Hok. by right.
    - apply wp_throw. by apply He. }
  unfold resolve_version. case_bool_decide as Hpol; [destruct (df_pinned_version_id definition) eqn:Hpin|].
  - apply wp_ret, Hok. by left.
  - apply Hlatest. by right.
  - apply Hlatest. by left.
Qed.

Lemma trigger_body_spec definitionID request schedule (c : C) :
  wp (trigger_body definitionID request schedule) (c, part c)
    (tx_post c (trigger_post definitionID request schedule)).
Proof.
  assert (∀ e d, early_error e → tx_post c (trigger_post definitionID request schedule) (Err e) (c, d)) as Herr.
  { intros e d He. apply tx_exit. unfold trigger_post. destruct e; try (by left); done. }
  unfold trigger_body. apply wp_bind, wp_query; [by apply Herr|].
  destruct (task_definitions (part c) !! definitionID) as [definition|] eqn:Hdef; [|apply wp_throw; by apply Herr].
  destruct (df_enabled definition) eqn:Hen; simpl; [|apply wp_throw; by apply Herr].
  apply wp_bind, wp_lockDueSchedule; [intros; by apply Herr|]. intros next Hsched.
  apply wp_bind, wp_resolve_version; [intros; by apply Herr|]. intros versionID Hver.
  apply wp_bind, wp_validateVersionParameters; [intros; by apply Herr|]. intros v Hv1 Hv2 Hv3.
  assert (trigger_ready definitionID request schedule (part c) definition versionID next) as Hready
    by (split; eauto).
  destruct (map_marshals _); simpl; [|apply wp_throw; by apply Herr].
  apply wp_bind, wp_clock_now. intros now. apply wp_bind, wp_new_uuid; [by apply Herr|]. intros id.
  apply wp_bind, wp_stmt; [by apply Herr|]. intros d1 inserted Hins. split; [|by apply Herr].
  destruct inserted; simpl.
  - apply wp_bind, wp_exec; [by apply Herr|]. intros d2 Hev. split; [|by apply Herr].
    apply wp_bind, wp_advanceDueSchedule; [intros; by apply Herr|].
    assert (trigger_created definitionID request schedule (triggered_run id (run_spec definitionID versionID request definition now))
      (part c) (advance schedule next now d2)) as Hcr
      by (exists definition, versionID, next, now, id, d1, d2; split_and!; done).
    apply wp_bind, wp_commit; [by apply Herr|apply wp_ret; by apply tx_committed|].
    apply tx_committed. right. split; [by eauto|]. left. by eauto.
  - assert (d1 = part c ∧ firing_exists definitionID (tg_ScheduledFor request) (part c) = true) as [-> Hfire].
    { unfold insert_triggered in Hins. simpl in Hins. destruct (firing_exists _ _ _); [by simplify_eq|].
      by destruct (insert_run _ _ _). }
    apply wp_bind, wp_advanceDueSchedule; [intros; by apply Herr|].
    assert (trigger_duplicate definitionID request schedule (part c) (advance schedule next now (part c))) as Hdup
      by (by exists definition, versionID, next, now).
    apply wp_bind, wp_commit; [by apply Herr|apply wp_throw; by apply tx_committed|].
    apply tx_committed. right. split; [by eauto|]. by right.
Qed.

Lemma trigger_spec_holds definitionID request schedule :
  let request' := if bool_decide (tg_Type request = "") then request <| tg_Type := TriggerManual |> else request in
  db_spec (trigger definitionID request schedule) (trigger_post definitionID request' schedule).
Proof.
  cbv zeta. unfold trigger. cbv zeta. code_case; [apply db_spec_throw; by left|].
  apply db_spec_transaction; [by left|]. apply trigger_body_spec.
Qed.

Lemma advance_sound schedule next now d : sound d (advance schedule next now d).
Proof. destruct schedule; [by apply sound_other|reflexivity]. Qed.

Lemma advance_frame schedule next now d :
  task_runs (advance schedule next now d) = task_runs d ∧ run_events (advance schedule next now d) = run_events d ∧
  resource_leases (advance schedule next now d) = resource_leases d ∧
  task_definitions (advance schedule next now d) = task_definitions d.
Proof. by destruct schedule. Qed.

(** What [trigger] inserts. *)
Lemma triggered_tables id spec now e d d1 d2 :
  insert_triggered id spec now d = Some (d1, true) → insert_event id e d1 = Some d2 →
  task_runs d !! id = None ∧ spec_checks spec = true ∧
  firing_exists (rs_task_definition_id spec) (rs_scheduled_for spec) d = false ∧
  d2 = d <| task_runs := <[id := new_run spec now]> (task_runs d) |>
         <| run_events := <[id := events_of d id ++ [e]]> (run_events d) |>.
Proof.
  unfold insert_triggered. destruct (firing_exists _ _ _) eqn:Ef; [done|].
  destruct (insert_run _ _ _) as [d0|] eqn:Ei; [|done]. intros [= <-].
  apply insert_run_inv in Ei as (Hn & Hc & _ & _ & ->). intros [_ ->]%insert_event_inv. done.
Qed.

Lemma trigger_created_sound definitionID request schedule run d d' :
  trigger_created definitionID request schedule run d d' → sound d d'.
Proof.
  intros (definition & versionID & next & now & id & d1 & d2 & _ & _ & Hins & Hev & ->).
  transitivity d2; [|apply advance_sound].
  destruct (triggered_tables _ _ _ _ _ _ _ Hins Hev) as (Hn & Hchk & Hfire & ->).
  intros Hw. assert (events_of d id = []) as Hnone by (pose proof (wf_runs _ Hw id) as H; by rewrite Hn in H).
  rewrite Hnone. match goal with |- _ ?d2 ∧ _ => assert (sound d d2) as Hs; [|exact (Hs Hw)] end.
  eapply sound_insert with (id := id); [done|done| |done| | |done|done|].
  - intros i. unfold events_of at 1. simpl. destruct (decide (i = id)) as [->|].
    + by rewrite lookup_insert_eq.
    + by rewrite lookup_insert_ne.
  - split; [|done..]. split; simpl; [|done|exact Hchk].
    apply spec_checks_retries in Hchk as [_ Hchk]. simpl in Hchk. lia.
  - apply history_first.
  - intros time i r Ht Hr Hd. eapply firing_exists_false; [exact Hfire|exact Ht|exact Hr|exact Hd].
Qed.

Lemma trigger_sound definitionID request schedule :
  db_spec (trigger definitionID request schedule) (λ d _ d', sound d d').
Proof.
  eapply db_spec_mono; [apply trigger_spec_holds|]. intros d r d' H.
  set (request' := if bool_decide (tg_Type request = "") then _ else _) in *.
  assert (d' = d ∨ (∃ run, trigger_created definitionID request' schedule run d d') ∨
    trigger_duplicate definitionID request' schedule d d') as [->|[[run Hc]|Hd]].
  { destruct r as [run|[]]; simpl in H; eauto; tauto. }
  - reflexivity.
  - by eapply trigger_created_sound.
  - destruct Hd as (? & ? & ? & ? & _ & _ & ->). apply advance_sound.
Qed.

Lemma fire_each_sound due : db_spec (fire_each due) (λ d _ d', sound d d').
Proof.
  induction due as [|item due IH]; simpl; [by apply db_spec_ret|].
  intros c. apply wp_bind, wp_catch. eapply wp_mono; [apply trigger_sound|].
  intros r c1 [Hc1 Hs1]. apply wp_bind. eapply wp_mono; [apply IH|].
  intros r2 c2 [Hc2 Hs2].
  assert (c2 = set_part (part c2) c ∧ sound (part c) (part c2)) as Hgoal.
  { split; [|by etrans]. rewrite Hc2, Hc1. by rewrite !part_set, set_part_twice. }
  destruct r2 as [[runs failures]|e]; [by apply wp_ret|done].
Qed.

Lemma ScheduleDue_sound now : db_spec (ScheduleDue now) (λ d _ d', sound d d').
Proof.
  intros c. apply wp_bind, wp_pool_query; [by rewrite set_part_same|]. apply fire_each_sound.
Qed.

(** ** Enabling and disabling *)

Definition enabled_definition (enabled : bool) (at_ : Time) (id : string) (d : DB) : DB :=
  d <| task_definitions ::= alter (λ row, row <| df_enabled := enabled |> <| df_updated_at := at_ |>) id |>.

(** The tables after [SetEnabled]. *)
Definition set_enabled_tables (id : string) (enabled cancelQueued : bool) (d d' : DB) : Prop :=
  ∃ t1 t2, is_Some (task_definitions d !! id) ∧
    let d1 := enabled_definition enabled t1 id d in
    if negb enabled && cancelQueued
    then events_appended (matching_runs (queued_of id) d1) "run.cancelled" Cancelled
           (update_runs_where (queued_of id) (cancelled_by_disable t2) d1).1 d'
    else d' = d1.

Lemma SetEnabled_spec id enabled cancelQueued :
  db_spec (SetEnabled id enabled cancelQueued) (λ d r d',
    match r with
    | Ok _ => set_enabled_tables id enabled cancelQueued d d'
    | Err ErrDefinitionNotFound => d' = d ∧ task_definitions d !! id = None
    | Err (EStorage _) => d' = d ∨ set_enabled_tables id enabled cancelQueued d d'
    | Err _ => False
    end).
Proof.
  apply db_spec_transaction; [by left|]. intros c. do 2 tx_step. tx_step.
  tx_step; [tx_step; by left| |tx_step; by left]. injection Hstmt as <- <-.
  case_bool_decide as Hdef; simpl; [|repeat tx_step; split; [done|by apply eq_None_not_Some]].
  tx_step. destruct (negb enabled && cancelQueued) eqn:Eb.
  - do 2 tx_step. tx_step. tx_step; [tx_step; by left| |tx_step; by left]. injection Hstmt as <- <-.
    eapply wp_append_each with (type := "run.cancelled") (state := Cancelled).
    + apply matching_runs_nodup.
    + intros runID d Q He Hok. apply wp_bind, wp_clock_now. intros t'. apply wp_exec; [done|].
      intros d1 H1. split; [by eapply Hok|done].
    + intros context d1. tx_step. by left.
    + intros d2 H2. assert (set_enabled_tables id enabled cancelQueued (part c) d2) as Hd.
      { exists t, t0. split; [done|]. by rewrite Eb. }
      repeat tx_step; auto.
  - assert (set_enabled_tables id enabled cancelQueued (part c) (enabled_definition enabled t id (part c))) as Hd.
    { exists t, t. split; [done|]. by rewrite Eb. }
    repeat tx_step; auto.
Qed.

Lemma enabled_definition_sound enabled t id d : sound d (enabled_definition enabled t id d).
Proof. by apply sound_other. Qed.

Lemma set_enabled_sound id enabled cancelQueued d d' :
  set_enabled_tables id enabled cancelQueued d d' → sound d d'.
Proof.
  intros (t1 & t2 & _ & H). transitivity (enabled_definition enabled t1 id d); [apply enabled_definition_sound|].
  cbv zeta in H. destruct (negb enabled && cancelQueued); [|subst; reflexivity].
  intros Hw. refine (db_change_sound _ _ _ Hw). eapply batch_change; [done|exact H|].
  intros row [_ Hq%bool_decide_eq_true]%andb_true_iff. simpl. split_and!; try done.
  - intros [R1 R2 R3 R4]. split; simpl; eauto; done.
  - by rewrite Hq.
  - by rewrite Hq.
Qed.

Lemma SetEnabled_sound id enabled cancelQueued :
  db_spec (SetEnabled id enabled cancelQueued) (λ d _ d', sound d d').
Proof.
  eapply db_spec_mono; [apply SetEnabled_spec|]. intros d r d' H.
  assert (d' = d ∨ set_enabled_tables id enabled cancelQueued d d') as [->|Hd].
  { destruct r as [u|[]]; tauto. }
  - reflexivity.
  - by eapply set_enabled_sound.
Qed.

(** ** The operations that only touch definitions and schedules *)

Definition same_runs (d d' : DB) : Prop :=
  task_runs d' = task_runs d ∧ run_events d' = run_events d ∧ resource_leases d' = resource_leases d.

#[export] Instance same_runs_preorder : PreOrder same_runs.
Proof. split; unfold same_runs; [done|]. intros d1 d2 d3 (-> & -> & ->). tauto. Qed.

Lemma same_runs_refl d : same_runs d d.
Proof. done. Qed.

Ltac same :=
  repeat first
    [ apply (moves_query same_runs) | apply (moves_clock same_runs) | apply (moves_uuid same_runs)
    | apply db_spec_ret; intros; apply same_runs_refl | apply db_spec_throw; intros; apply same_runs_refl
    | apply (moves_bind same_runs); [|intros ?] | apply (moves_pool same_runs); intros ? ? ? | code_case ].

Lemma write_definition_same id row d d' : write_definition id row d = Some d' → same_runs d d'.
Proof. unfold write_definition. case_match; [done|]. by intros [= <-]. Qed.

Lemma Create_same input : db_spec (Create input) (λ d _ d', same_runs d d').
Proof.
  unfold Create. cbv zeta. same.
  case_bool_decide; [done|]. destruct (write_definition _ _ _) eqn:E; [|done]. intros [= <- <-].
  by eapply write_definition_same.
Qed.

Lemma Update_same id input : db_spec (Update id input) (λ d _ d', same_runs d d').
Proof.
  unfold Update. cbv zeta. same.
  unfold update_definition. destruct (task_definitions _ !! id); [|by intros [= <- <-]].
  destruct (write_definition _ _ _) eqn:E; [|done]. intros [= <- <-]. by eapply write_definition_same.
Qed.

Lemma Delete_same id : db_spec (Delete id) (λ d _ d', same_runs d d').
Proof. unfold Delete. same. unfold delete_definition. repeat case_match; intros; by simplify_eq. Qed.

Lemma CreateSchedule_same input : db_spec (CreateSchedule input) (λ d _ d', same_runs d d').
Proof. unfold CreateSchedule. cbv zeta. same. case_match; [done|]. by intros [= <- <-]. Qed.

Lemma UpdateSchedule_same id input : db_spec (UpdateSchedule id input) (λ d _ d', same_runs d d').
Proof. unfold UpdateSchedule. cbv zeta. same. repeat case_match; intros; by simplify_eq. Qed.

Lemma DeleteSchedule_same definitionID id : db_spec (DeleteSchedule definitionID id) (λ d _ d', same_runs d d').
Proof. unfold DeleteSchedule. same. repeat case_match; intros; by simplify_eq. Qed.

(** ** Properties *)

(** Creating a run: [trigger] commits the new run, its first event and the advance
    of the schedule together; it requires an enabled definition, an unchanged due
    schedule, an existing version of the definition's script and parameters that
    satisfy that version; a firing that already has its run is reported as a duplicate
    with the schedule advanced; every other outcome leaves the tables unchanged, except
    for a lost commit reply, after which the effect is complete. *)
Theorem trigger_correct definitionID request schedule :
  let request' := if bool_decide (tg_Type request = "") then request <| tg_Type := TriggerManual |> else request in
  db_spec (trigger definitionID request schedule) (trigger_post definitionID request' schedule).
Proof. apply trigger_spec_holds. Qed.

(** Exactly one run for the definition and the firing time, and a schedule that has
    moved to a strictly later time. *)
Definition fired_once (item : dueSchedule) (d : DB) : Prop :=
  (∃ id, (∃ row, task_runs d !! id = Some row ∧ rs_task_definition_id (tr_spec row) = ds_definitionID item ∧
            rs_scheduled_for (tr_spec row) = Some (ds_fireTime item)) ∧
         ∀ id' row', task_runs d !! id' = Some row' → rs_task_definition_id (tr_spec row') = ds_definitionID item →
           rs_scheduled_for (tr_spec row') = Some (ds_fireTime item) → id' = id) ∧
  (∃ row t, task_schedules d !! ds_id item = Some row ∧ ts_next_run_at row = Some t ∧ ds_fireTime item < t).

Lemma trigger_post_fired item d d' r :
  wf_db d →
  trigger_post (ds_definitionID item) (mkTrigger TriggerSchedule "" ∅ (Some (ds_fireTime item))) (Some item) d r d' →
  (is_ok r = true ∨ r = Err ErrDuplicateRun) → fired_once item d'.
Proof.
  intros Hw Hpost Hr.
  assert (∀ next now d2, schedule_current (Some item) next d → task_schedules d2 = task_schedules d →
    ∃ row t, task_schedules (advance (Some item) next now d2) !! ds_id item = Some row ∧
      ts_next_run_at row = Some t ∧ ds_fireTime item < t) as Hadv.
  { intros next now d2 (row & t & Hrow & _ & _ & _ & Hn & ->) Hd2.
    eexists _, t. split; [simpl; rewrite lookup_alter_eq, Hd2, Hrow; reflexivity|]. split; [done|].
    by eapply nextCronTime_later. }
  assert (wf_db d') as Hw'.
  { destruct r as [run|e]; [by apply (trigger_created_sound _ _ _ _ _ _ Hpost Hw)|].
    destruct Hr as [|[= ->]]; [done|]. destruct Hpost as (? & ? & ? & ? & _ & _ & ->). by apply (advance_sound _ _ _ _ Hw). }
  assert ((∃ id row, task_runs d' !! id = Some row ∧ rs_task_definition_id (tr_spec row) = ds_definitionID item ∧
    rs_scheduled_for (tr_spec row) = Some (ds_fireTime item)) ∧
    (∃ row t, task_schedules d' !! ds_id item = Some row ∧ ts_next_run_at row = Some t ∧ ds_fireTime item < t))
    as [(id & row & Hrow & Hd & Ht) Hs].
  { destruct r as [run|e].
    - destruct Hpost as (definition & versionID & next & now & id & d1 & d2 & Hready & _ & Hins & Hev & ->).
      destruct (triggered_tables _ _ _ _ _ _ _ Hins Hev) as (_ & _ & _ & ->). split.
      + exists id. eexists. split; [apply lookup_insert_eq|]. done.
      + apply Hadv; [apply Hready|done].
    - destruct Hr as [|[= ->]]; [done|]. destruct Hpost as (definition & versionID & next & now & Hready & Hfire & ->).
      split; [|apply Hadv; [apply Hready|done]].
      unfold firing_exists in Hfire. apply existsb_exists in Hfire as (row & Hin & Hsame).
      apply list_elem_of_In, list_elem_of_fmap in Hin as ([id row'] & -> & Hin).
      apply elem_of_map_to_list in Hin. exists id, row'. split; [done|].
      unfold same_firing in Hsame. rewrite !andb_true_iff, !bool_decide_eq_true in Hsame. tauto. }
  split; [|done]. exists id. split; [by eauto|]. intros id' row' H1 H2 H3.
  eapply (wf_firings _ Hw'); [exact H1|exact Hrow|congruence|exact H3|exact Ht].
Qed.

(** *** Scans

    A schedule that was found due is [current] as long as neither it nor its definition
    changes. *)
Definition current (item : dueSchedule) (d : DB) : Prop :=
  (∃ definition, task_definitions d !! ds_definitionID item = Some definition ∧ df_enabled definition = true) ∧
  (∃ row, task_schedules d !! ds_id item = Some row ∧ ts_task_definition_id row = ds_definitionID item ∧ ts_enabled row = true ∧
     ts_next_run_at row = Some (ds_fireTime item) ∧ ts_cron_expression row = ds_expression item ∧ ts_timezone row = ds_timezone item ∧
     ts_updated_at row = ds_updatedAt item).

(** Scans keep what has fired, and a current schedule is current until it has fired. *)
Definition scan_step (d d' : DB) : Prop :=
  wf_db d → wf_db d' ∧ ∀ item, (fired_once item d → fired_once item d') ∧ (current item d → current item d' ∨ fired_once item d').

#[export] Instance scan_step_preorder : PreOrder scan_step.
Proof.
  split; [by intros d H; split; [done|]; auto|]. intros d1 d2 d3 H12 H23 Hw. destruct (H12 Hw) as [Hw2 H2]. destruct (H23 Hw2) as [Hw3 H3].
  split; [done|]. intros item. specialize (H2 item). specialize (H3 item). tauto.
Qed.

Abbreviation firing item := (mkTrigger TriggerSchedule "" ∅ (Some (ds_fireTime item))).

(** The trigger of a schedule did its work. *)
Definition triggered (item : dueSchedule) (d d' : DB) : Prop :=
  ∃ r, (is_ok r = true ∨ r = Err ErrDuplicateRun) ∧ trigger_post (ds_definitionID item) (firing item) (Some item) d r d'.

Lemma trigger_post_cases item d r d' :
  trigger_post (ds_definitionID item) (firing item) (Some item) d r d' → d' = d ∧ is_ok r = false ∧ r ≠ Err ErrDuplicateRun ∨ triggered item d d'.
Proof.
  intros H. destruct r as [run|e]; [right; by exists (Ok run); split; [left|]|].
  assert (d' = d ∧ e ≠ ErrDuplicateRun ∨ triggered item d d') as [[-> ?]|?]; [|left; split_and!; [done..|congruence]|by right].
  destruct e; simpl in H; try (destruct H as [->|([? ?] & _)]; [by left|done]).
  - destruct H as [->|[_ [[run H]|H]]]; [by left|right; by exists (Ok run); split; [left|]|right; by exists (Err ErrDuplicateRun); split; [right|]].
  - right. by exists (Err ErrDuplicateRun); split; [right|].
Qed.

(** What the trigger of a schedule touches. *)
Lemma triggered_frame item d d' :
  triggered item d d' →
  ∃ next now, schedule_current (Some item) next d ∧ task_definitions d' = task_definitions d ∧ task_runs d ⊆ task_runs d' ∧
    task_schedules d' = alter (λ row, row <| ts_next_run_at := next |> <| ts_updated_at := now |>) (ds_id item) (task_schedules d).
Proof.
  intros ([run|e] & Hr & H).
  - destruct H as (definition & versionID & next & now & id & d1 & d2 & Hready & _ & Hins & Hev & ->). exists next, now.
    destruct (triggered_tables _ _ _ _ _ _ _ Hins Hev) as (Hn & _ & _ & ->). split_and!; [apply Hready|done| |done]. by apply insert_subseteq.
  - destruct Hr as [|[= ->]]; [done|]. destruct H as (definition & versionID & next & now & Hready & _ & ->). exists next, now. by split_and!; [apply Hready|..].
Qed.

Lemma fired_once_same x y d : ds_id x = ds_id y → ds_definitionID x = ds_definitionID y → ds_fireTime x = ds_fireTime y → fired_once x d → fired_once y d.
Proof. unfold fired_once. by intros -> -> ->. Qed.

Lemma fired_once_grows y d d' :
  wf_db d' → task_runs d ⊆ task_runs d' →
  (∃ row t, task_schedules d' !! ds_id y = Some row ∧ ts_next_run_at row = Some t ∧ ds_fireTime y < t) → fired_once y d → fired_once y d'.
Proof.
  intros Hw' Hruns Hs [(id & (row & Hrow & Hd & Ht) & _) _]. split; [|done]. exists id. pose proof (lookup_weaken _ _ _ _ Hrow Hruns) as Hrow'.
  split; [by eauto|]. intros id' row' H1 H2 H3. eapply (wf_firings _ Hw'); [exact H1|exact Hrow'|congruence|exact H3|exact Ht].
Qed.

Lemma triggered_step item d d' : triggered item d d' → scan_step d d'.
Proof.
  intros Htr Hw. pose proof (triggered_frame _ _ _ Htr) as (next & now & (row & t & Hrow & Hdef & Hen & Hnext & Hcron & ->) & Edef & Hruns & Esch).
  assert (wf_db d') as Hw'.
  { destruct Htr as ([run|e] & Hr & H); [by apply (trigger_created_sound _ _ _ _ _ _ H Hw)|].
    destruct Hr as [|[= ->]]; [done|]. destruct H as (? & ? & ? & ? & _ & _ & ->). by apply (advance_sound _ _ _ _ Hw). }
  apply nextCronTime_later in Hcron.
  assert (∃ row', task_schedules d' !! ds_id item = Some row' ∧ ts_next_run_at row' = Some t) as (row' & Hrow' & Hnext').
  { rewrite Esch, lookup_alter_eq, Hrow. eexists. by split. }
  split; [done|]. intros y. destruct (decide (ds_id y = ds_id item)) as [Eid|Hne].
  - split.
    + intros Hy. apply (fired_once_grows _ d); [done..| |done]. destruct Hy as [_ (r0 & t0 & Hr0 & Hn0 & Hlt)]. exists row', t.
      rewrite Eid in *. split_and!; [done..|]. simplify_eq. lia.
    + intros [_ (r0 & Hr0 & Hd0 & _ & Hn0 & _)]. right. rewrite Eid in Hr0. simplify_eq. destruct Htr as (r & Hr & Hpost).
      apply (fired_once_same item); [done|congruence|congruence|]. exact (trigger_post_fired item d d' r Hw Hpost Hr).
  - assert (task_schedules d' !! ds_id y = task_schedules d !! ds_id y) as E by (by rewrite Esch, lookup_alter_ne by done).
    split; [|left; unfold current; by rewrite E, Edef]. intros Hy. apply (fired_once_grows _ d); [done..| |done]. rewrite E. apply Hy.
Qed.

(** The trigger of a current schedule never reports that it or its definition changed. *)
Definition outdated (e : Error) : bool := match e with errScheduleChanged | ErrDefinitionDisabled | ErrDefinitionNotFound => true | _ => false end.

Lemma trigger_current item (c : C) :
  current item (part c) → wp (trigger (ds_definitionID item) (firing item) (Some item)) c (λ r _, ∀ e, r = Err e → outdated e = false).
Proof.
  intros [(definition & Hdef & Hen) (row & Hrow & Hid & Hon & Hnext & Hexpr & Hzone & Hupd)].
  unfold trigger. simpl. apply wp_transaction; [by intros e [= <-]|]. unfold trigger_body. apply wp_bind, wp_query; [by intros e [= <-]|].
  rewrite Hdef, Hen. simpl. apply wp_bind, wp_bind, wp_query; [by intros e [= <-]|]. rewrite Hrow, bool_decide_true by done.
  rewrite Hon, Hnext, Hexpr, Hzone, Hupd, !bool_decide_true, Z.eqb_refl by done. simpl.
  destruct (nextCronTime _ _ _ _) as [next|e] eqn:En; [apply wp_ret|apply wp_throw; apply nextCronTime_error in En as ->; by intros e [= <-]].
  apply wp_bind. eapply wp_mono with (Q := λ r p, ∀ e, r = Err e → outdated e = false).
  { unfold resolve_version. repeat tx_step; by intros e [= <-]. }
  intros [versionID|e] p1 H1; [|by intros e' [= <-]; apply H1]. clear H1. destruct p1 as [c1 d1]. apply wp_bind.
  eapply wp_mono with (Q := λ r p, ∀ e, r = Err e → outdated e = false).
  { unfold validateVersionParameters, validateParameters. repeat tx_step; intros e1 He1; simplify_eq; by repeat case_match; simplify_eq. }
  intros [[]|e] [c2 d2] H1; [|by intros e' [= <-]; apply H1]. clear H1.
  unfold advanceDueSchedule. repeat tx_step; by intros e [= <-].
Qed.

Lemma trigger_moves item : moves scan_step (trigger (ds_definitionID item) (firing item) (Some item)).
Proof.
  eapply db_spec_mono; [apply trigger_spec_holds|]. intros d r d' [[-> _]|H]%trigger_post_cases; [done|by eapply triggered_step].
Qed.

Lemma fire_each_moves due : moves scan_step (fire_each due).
Proof.
  induction due as [|item due IH]; simpl; [by apply db_spec_ret|].
  apply moves_bind; [apply _|apply moves_catch, trigger_moves|]. intros r. apply moves_bind; [apply _|apply IH|]. intros [runs failures]. by apply db_spec_ret.
Qed.

Lemma ScheduleDue_moves now : moves scan_step (ScheduleDue now).
Proof. apply moves_bind; [apply _|by apply moves_query; apply _|]. intros due. apply fire_each_moves. Qed.

Lemma fire_each_fires due (c : C) :
  wf_db (part c) → (∀ item, item ∈ due → current item (part c) ∨ fired_once item (part c)) →
  wp (fire_each due) c (λ r c', ∀ runs item, r = Ok (runs, []) → item ∈ due → fired_once item (part c')).
Proof.
  revert c. induction due as [|item due IH]; intros c Hw Hdue; [apply wp_ret; by intros runs item _ ?%elem_of_nil|]. simpl.
  apply wp_bind, wp_catch. eapply wp_mono with (Q := λ r c1, scan_step (part c) (part c1) ∧
    (match r with Ok _ => True | Err e => due_ignored e = true end → fired_once item (part c1))).
  { destruct (Hdue item ltac:(left)) as [Hcur|Hfired].
    - eapply wp_mono; [apply wp_conj; [by apply trigger_current|apply trigger_spec_holds]|]. intros r c1 [Hout [_ Hpost]].
      destruct (trigger_post_cases _ _ _ _ Hpost) as [(-> & Hr & Hd)|Ht].
      + split; [done|]. intros Hig. destruct r as [run|e]; [done|]. specialize (Hout e eq_refl). by destruct e.
      + split; [by eapply triggered_step|]. intros _. destruct Ht as (r' & Hr' & Ht). by eapply trigger_post_fired.
    - eapply wp_mono; [apply trigger_moves|]. intros r c1 [_ Hs]. split; [done|]. intros _. by apply (Hs Hw). }
  intros r c1 [Hs Hr]. destruct (Hs Hw) as [Hw1 Hkeep]. apply wp_bind.
  eapply wp_mono; [apply wp_conj; [apply IH; [done|]|apply fire_each_moves]|].
  { intros y Hy. destruct (Hdue y ltac:(by right)) as [H|H]; apply Hkeep in H; auto. }
  intros [[runs failures]|e] c2 [H2 [_ Hs2]]; [|done]. apply wp_ret. intros runs' y E [->|Hy]%elem_of_cons.
  - apply (Hs2 Hw1), Hr. destruct r as [run|e]; [done|]. injection E as _ E. by destruct (due_ignored e).
  - eapply H2; [|done]. by destruct r as [run|e]; injection E as _ E; [subst|destruct (due_ignored e); [subst|discriminate E]].
Qed.

Lemma due_current now d item : item ∈ due_schedules now d → current item d ∧ ds_fireTime item ≤ now.
Proof.
  unfold due_schedules. rewrite elem_of_stable_sort, list_elem_of_omap. intros ([id row] & Hin%elem_of_map_to_list & H).
  unfold due_schedule in H. simpl in H. destruct (ts_next_run_at row) as [t|] eqn:Et; [|done].
  destruct (task_definitions d !! _) as [definition|] eqn:Ed; [|done]. destruct (_ && _) eqn:Eb; [|done].
  apply andb_true_iff in Eb as [[E1 E2]%andb_true_iff E3%Z.leb_le]. injection H as <-. split; [|done]. split; [by exists definition|]. by exists row.
Qed.

(** A scan, and the scans that follow it whatever becomes of them. *)
Definition scan_then (now : Time) (later : list Time) : Prog C (list Run * list Error) :=
  let! outcome := ScheduleDue now in
  for_each later (λ t, ignore (ScheduleDue t)) ;;!
  ret outcome.

(** C36: A scheduled firing happens once: after a scan that reports no failure, every schedule
    that was due has exactly one run for its definition and firing time and has moved to
    a strictly later time, and this stays so however many scans follow at whatever times
    and whatever fails in them. *)
Theorem scheduled_firing_once now later item (c : C) :
  wf_db (part c) → item ∈ due_schedules now (part c) →
  wp (scan_then now later) c (λ r c', ∀ runs, r = Ok (runs, []) → fired_once item (part c')).
Proof.
  intros Hw Hitem. apply wp_bind, wp_bind, wp_pool_query; [done|].
  eapply wp_mono; [apply wp_conj; [apply fire_each_fires; [done|]|apply fire_each_moves]|].
  { intros y Hy. left. by eapply due_current. }
  intros [[runs failures]|e] c1 [Hf [_ Hs]]; [|done]. destruct (Hs Hw) as [Hw1 _]. apply wp_bind.
  assert (moves scan_step (for_each later (λ t, ignore (ScheduleDue t)))) as Hlater.
  { apply moves_for_each; [apply _|]. intros t. apply moves_bind; [apply _|apply moves_catch, ScheduleDue_moves|]. intros r. by apply db_spec_ret. }
  eapply wp_mono; [apply Hlater|]. intros [[]|e] c2 [_ Hs2]; [|done]. apply wp_ret. intros runs' [= -> ->].
  apply (Hs2 Hw1), (Hf runs' item eq_refl Hitem).
Qed.

(** Disabling a definition and cancelling its queue is atomic and complete: the
    definition is switched, every queued run of the definition is cancelled with its
    own event, no queued run of it remains, and no other run changes. *)
Theorem SetEnabled_correct id enabled cancelQueued :
  db_spec (SetEnabled id enabled cancelQueued) (λ d r d',
    match r with
    | Ok _ =>
      (∃ row, task_definitions d' !! id = Some row ∧ df_enabled row = enabled) ∧
      (∀ i row, task_runs d !! i = Some row →
         if negb enabled && cancelQueued && queued_of id row then
           (∃ t, task_runs d' !! i = Some (cancelled_by_disable t row)) ∧
           ∃ e, events_of d' i = events_of d i ++ [e] ∧ er_event_type e = "run.cancelled" ∧ er_state e = Cancelled
         else task_runs d' !! i = Some row ∧ events_of d' i = events_of d i) ∧
      (negb enabled && cancelQueued = true → ∀ i row, task_runs d' !! i = Some row → queued_of id row = false)
    | Err ErrDefinitionNotFound => d' = d ∧ task_definitions d !! id = None
    | Err (EStorage _) => d' = d ∨ set_enabled_tables id enabled cancelQueued d d'
    | Err _ => False
    end).
Proof.
  eapply db_spec_mono; [apply SetEnabled_spec|]. intros d [u|e] d' H; [|done].
  destruct H as (t1 & t2 & [old Hold] & H). cbv zeta in H.
  set (d1 := enabled_definition enabled t1 id d) in *.
  assert (task_definitions d1 !! id = Some (old <| df_enabled := enabled |> <| df_updated_at := t1 |>)) as Hdef
    by (unfold d1; simpl; by rewrite lookup_alter_eq, Hold).
  destruct (negb enabled && cancelQueued); simpl.
  - destruct H as [Ht He].
    assert (∀ i, task_runs d' !! i = (λ row, if queued_of id row then cancelled_by_disable t2 row else row)
      <$> task_runs d !! i) as Hruns.
    { intros i. rewrite <-(update_runs_where_lookup (queued_of id) (cancelled_by_disable t2) d1). by rewrite Ht. }
    split_and!.
    + eexists. split; [rewrite Ht; exact Hdef|done].
    + intros i row Hrow. specialize (He i). rewrite Hruns, Hrow. simpl.
      destruct (queued_of id row) eqn:Eq.
      * rewrite decide_True in He by (apply elem_of_matching_runs; eauto). destruct He as (p & t & ->).
        split; [by eauto|]. by eexists.
      * rewrite decide_False in He; [done|]. intros (row' & E & ?)%elem_of_matching_runs.
        change (task_runs d1 !! i) with (task_runs d !! i) in E. congruence.
    + intros _ i row' Hrow'. rewrite Hruns in Hrow'. apply fmap_Some in Hrow' as (row & _ & ->).
      destruct (queued_of id row) eqn:Eq; [|done]. unfold queued_of. simpl. by rewrite andb_false_r.
  - subst d'. split_and!; [by eauto|by intros|done].
Qed.

End task_service.

(** [validateParameters] accepts exactly the parameter sets in which every declared
    parameter is either a text bound to a secret and not also given a value, or has a
    value of its type, or is absent and not required. *)
Theorem validateParameters_exact definitions values refs :
  validateParameters definitions values refs = Ok tt ↔
  ∀ def, def ∈ definitions →
    let name := pd_Name def in
    if bool_decide (TrimSpace (map_str refs name) = "") then
      (∃ v, values !! name = Some v ∧ v ≠ VNil ∧ value_has_type (pd_Type def) v = true) ∨
      ((values !! name = None ∨ values !! name = Some VNil) ∧ pd_Required def = false)
    else pd_Type def = "string" ∧ values !! name = None.
Proof.
  unfold validateParameters.
  assert (∀ def, validate_parameter def values refs = true ↔
    if bool_decide (TrimSpace (map_str refs (pd_Name def)) = "") then
      (∃ v, values !! pd_Name def = Some v ∧ v ≠ VNil ∧ value_has_type (pd_Type def) v = true) ∨
      ((values !! pd_Name def = None ∨ values !! pd_Name def = Some VNil) ∧ pd_Required def = false)
    else pd_Type def = "string" ∧ values !! pd_Name def = None) as Hone.
  { intros def. unfold validate_parameter. destruct (bool_decide (TrimSpace _ = "")); simpl.
    - destruct (values !! pd_Name def) as [[]|]; rewrite ?negb_true_iff; naive_solver.
    - case_bool_decide as Ht; simpl; [|naive_solver].
      rewrite negb_true_iff, bool_decide_eq_false, <-eq_None_not_Some. naive_solver. }
  transitivity (forallb (λ def, validate_parameter def values refs) definitions = true).
  { destruct (forallb _ _); naive_solver. }
  rewrite forallb_forall. split.
  - intros H def Hin. apply Hone, H. by apply list_elem_of_In.
  - intros H def Hin. apply Hone, H. by apply list_elem_of_In.
Qed.

(** The integers of an input fit the columns they are written to. *)
Record input_fits (input : CreateInput) : Prop := {
  if_cpu : CPUMillicores (ci_Resources input) < 2 ^ 31;
  if_memory : MemoryBytes (ci_Resources input) < 2 ^ 63;
  if_disk : DiskBytes (ci_Resources input) < 2 ^ 63;
  if_concurrency : ci_MaxConcurrency input < 2 ^ 31;
  if_timeout : ci_TimeoutSeconds input < 2 ^ 31;
  if_wait : ci_MaxWaitSeconds input < 2 ^ 31;
  if_retries : MaxRetries (ci_RetryPolicy input) < 2 ^ 31;
  if_backoff : BackoffSeconds (ci_RetryPolicy input) < 2 ^ 31
}.


(** ** Witnesses *)

Definition daily_input : CreateInput :=
  mkCreateInput "nightly" "" "scr-1" "" "" None None 50 None "bash" (mkResources 100 1 1) 0 0 0
    (mkRetryPolicy 1 30) true true "".

(** The same with a time limit of 2^31 seconds, which passes validation. *)
Definition endless_input : CreateInput :=
  mkCreateInput "nightly" "" "scr-1" "" "" None None 50 None "bash" (mkResources 100 1 1) 0 (2 ^ 31) 0
    (mkRetryPolicy 1 30) true true "".

Lemma endless_input_refused :
  validateInput (normalizeInput endless_input) = Ok tt ∧ definition_checks (definition_row (normalizeInput endless_input) None 0 0) = false.
Proof. vm_compute. split; reflexivity. Qed.


(** A definition with a schedule due at the first minute of the epoch. *)
Definition due_item : dueSchedule := mkDueSchedule "sch-1" "def-1" "* * * * *" "UTC" 0 0.

Definition due_db : DB :=
  mkDB no_accounts {["scr-1" := mkScriptRow "nightly" "" "bash" None 0 0]} {["ver-1" := mkVersionRow "scr-1" 1 "uri" "sum" "main.sh" no_manifest "" None 0]}
    ∅ [] ∅ {["def-1" := definition_row (normalizeInput daily_input) None 0 0]}
    {["sch-1" := mkScheduleRow "def-1" "* * * * *" "UTC" true (Some 0) 0 0]} ∅ ∅ ∅ no_logs no_upgrades no_fleet ∅.

Lemma due_db_wf : wf_db due_db.
Proof. by apply wf_no_runs. Qed.

Abbreviation fired_db := (scan_then (C := DB) (λ _, Some UTC) 30 [31; 90 * second] (due_db, calm ["run-1"; "run-2"; "run-3"] 5)).

Lemma scheduled_firing_once_witness :
  size (task_runs fired_db.1.1) = 2%nat ∧ fired_once due_item fired_db.1.1.
Proof.
  split; [vm_compute; reflexivity|].
  assert (due_item ∈ due_schedules 30 (part (C := DB) due_db)) as Hdue.
  { assert (due_schedules 30 due_db = [due_item]) as E by (vm_compute; reflexivity). unfold part; simpl. rewrite E. apply list_elem_of_here. }
  assert (∃ runs, fired_db.2 = Ok (runs, [])) as [runs Hr] by (eexists; vm_compute; reflexivity).
  exact (wp_result _ _ _ (calm ["run-1"; "run-2"; "run-3"] 5)
    (scheduled_firing_once (C := DB) (λ _, Some UTC) 30 [31; 90 * second] due_item due_db due_db_wf Hdue) runs Hr).
Defined.
