(* ===== verification/AgentVersion.v ===== *)
(** * AgentVersion

    [internal/agentupgrade/version.go]: ordering agent versions of the form [x.y.z]
    or [vx.y.z].  The code compares digit strings by length and then bytewise; the
    theorem is that this is the order of the numbers they denote. *)

From S2P Require Import Prelude GoStd Model.

(** The checks on one segment. *)
Definition all_digits (s : string) : bool := forallb (λ c, bool_decide (is_Some (digit_of c))) (chars s).

Definition stable_segment (segment : string) : bool :=
  match segment with
  | EmptyString => false
  | String first rest => negb ((1 <? len segment) && bool_decide (first = "0"%char)) && all_digits segment
  end.

Definition stableVersionParts (version : string) : option (list string) :=
  if (len version =? 0) || (64 <? len version) then None
  else
    let version := match version with
                   | String c rest => if bool_decide (c = "v"%char) then rest else version
                   | EmptyString => version
                   end in
    let segments := split_on "." version in
    if negb (bool_decide (length segments = 3%nat)) then None
    else if forallb stable_segment segments then Some segments else None.

(** [strings.Compare] *)
Definition strings_Compare (a b : string) : Z :=
  match String.compare a b with Lt => -1 | Eq => 0 | Gt => 1 end.

(** The loop over the parts. *)
Fixpoint compare_parts (leftParts rightParts : list string) : Z :=
  match leftParts, rightParts with
  | l :: leftParts, r :: rightParts =>
    if len l <? len r then -1
    else if len r <? len l then 1
    else if strings_Compare l r =? 0 then compare_parts leftParts rightParts else strings_Compare l r
  | _, _ => 0
  end.

(** The result and the flag, as an option. *)
Definition compareStableVersions (l r : string) : option Z :=
  match stableVersionParts l, stableVersionParts r with
  | Some leftParts, Some rightParts => Some (compare_parts leftParts rightParts)
  | _, _ => None
  end.

(** ** Specification *)

(** The sign of the lexicographic comparison of numbers. *)
Fixpoint compare_numbers (a b : list Z) : Z :=
  match a, b with
  | x :: a, y :: b => if x <? y then -1 else if y <? x then 1 else compare_numbers a b
  | _, _ => 0
  end.

(** The text of a version: decimal numbers without leading zeros, joined by dots. *)
Definition version_text (numbers : list Z) : string := String.concat "." (format_nonneg <$> numbers).

Definition is_version (numbers : list Z) (s : string) : Prop :=
  length numbers = 3%nat ∧ Forall (λ n, 0 ≤ n) numbers ∧ len s ≤ 64 ∧
  (s = version_text numbers ∨ s = String "v" (version_text numbers)).

(** ** Decimal strings *)

Lemma digit_of_bounds c d : digit_of c = Some d → 0 ≤ d < 10.
Proof. unfold digit_of. destruct (_ && _) eqn:E; intros [=]. apply andb_true_iff in E as [?%Z.leb_le ?%Z.leb_le]. lia. Qed.

Lemma digit_of_byte c d : digit_of c = Some d → byte_of c = 48 + d.
Proof. unfold digit_of. destruct (_ && _); intros [=]. lia. Qed.

Lemma byte_of_inj a b : byte_of a = byte_of b → a = b.
Proof.
  unfold byte_of. intros H%N2Z.inj.
  rewrite <-(Stdlib.Strings.Ascii.ascii_N_embedding a), <-(Stdlib.Strings.Ascii.ascii_N_embedding b). by f_equal.
Qed.

Lemma len_cons c s : len (String c s) = len s + 1.
Proof. unfold len. simpl. lia. Qed.

Lemma len_nonneg s : 0 ≤ len s.
Proof. unfold len. lia. Qed.

(** A digit string has a value, between the bounds its length gives. *)
Lemma digits_value_bounds s acc :
  all_digits s = true → 0 ≤ acc →
  ∃ v, digits_value acc s = Some v ∧ acc * 10 ^ len s ≤ v < (acc + 1) * 10 ^ len s.
Proof.
  revert acc. induction s as [|c s IH]; intros acc Hd Ha; simpl in *.
  - exists acc. split; [done|]. unfold len. simpl. lia.
  - apply andb_true_iff in Hd as [[d Hc]%bool_decide_eq_true Hd]. rewrite Hc.
    pose proof (digit_of_bounds _ _ Hc). destruct (IH (10 * acc + d) Hd ltac:(lia)) as (v & Hv & Hb).
    exists v. split; [done|]. rewrite len_cons, Z.pow_add_r, Z.pow_1_r by (pose proof (len_nonneg s); lia).
    pose proof (Z.pow_pos_nonneg 10 (len s) ltac:(lia) (len_nonneg s)). nia.
Qed.

(** Digit strings of the same length compare as their values. *)
Lemma compare_same_length s t a v w :
  all_digits s = true → all_digits t = true → len s = len t → 0 ≤ a →
  digits_value a s = Some v → digits_value a t = Some w → String.compare s t = (v ?= w).
Proof.
  revert t a. induction s as [|c s IH]; intros [|c' t] a Hs Ht Hl Ha Hv Hw;
    rewrite ?len_cons in Hl; try (unfold len in Hl; simpl in Hl; lia); simpl in *.
  { simplify_eq. symmetry. apply Z.compare_refl. }
  apply andb_true_iff in Hs as [[d Hc]%bool_decide_eq_true Hs], Ht as [[d' Hc']%bool_decide_eq_true Ht].
  rewrite Hc in Hv. rewrite Hc' in Hw.
  pose proof (digit_of_bounds _ _ Hc). pose proof (digit_of_bounds _ _ Hc').
  assert (len s = len t) as Hl' by lia.
  assert (Stdlib.Strings.Ascii.compare c c' = (d ?= d')) as ->.
  { unfold Stdlib.Strings.Ascii.compare. rewrite <-N2Z.inj_compare. change ((byte_of c ?= byte_of c') = (d ?= d')).
    rewrite (digit_of_byte _ _ Hc), (digit_of_byte _ _ Hc'). apply Z.add_compare_mono_l. }
  destruct (digits_value_bounds s (10 * a + d) Hs ltac:(lia)) as (v' & Hv' & Bv).
  destruct (digits_value_bounds t (10 * a + d') Ht ltac:(lia)) as (w' & Hw' & Bw).
  pose proof (Z.pow_pos_nonneg 10 (len t) ltac:(lia) (len_nonneg t)). rewrite Hl' in Bv. simplify_eq.
  destruct (Z.compare_spec d d') as [->|Hd|Hd]; symmetry.
  - symmetry. apply (IH t (10 * a + d')); auto with lia.
  - apply Z.compare_lt_iff. nia.
  - apply Z.compare_gt_iff. nia.
Qed.

Lemma stable_segment_digits s : stable_segment s = true → s ≠ "" ∧ all_digits s = true.
Proof. destruct s as [|c s]; [done|]. unfold stable_segment. rewrite andb_true_iff. by intros [_ ->]. Qed.

(** A segment that passes the checks is below [10 ^ n] exactly when it has at most [n] digits. *)
Lemma stable_segment_value s :
  stable_segment s = true →
  ∃ v, digits_value 0 s = Some v ∧ 0 ≤ v < 10 ^ len s ∧ (1 < len s → 10 ^ (len s - 1) ≤ v).
Proof.
  intros H. destruct (stable_segment_digits s H) as [Hne Hd]. destruct s as [|c s]; [done|].
  unfold stable_segment in H. apply andb_true_iff in H as [H _].
  destruct (digits_value_bounds _ 0 Hd ltac:(lia)) as (v & Hv & Hb). exists v. split_and!; [done|lia|lia|].
  intros Hl. simpl in Hd, Hv. apply andb_true_iff in Hd as [[d Hc]%bool_decide_eq_true Hd]. rewrite Hc in Hv.
  pose proof (digit_of_bounds _ _ Hc).
  destruct (digits_value_bounds s (10 * 0 + d) Hd ltac:(lia)) as (v' & Hv' & Hb'). simplify_eq.
  rewrite len_cons in *. replace (len s + 1 - 1) with (len s) by lia.
  assert (d ≠ 0) as Hd0; [|pose proof (Z.pow_pos_nonneg 10 (len s) ltac:(lia) (len_nonneg s)); nia].
  intros ->. rewrite (proj2 (Z.ltb_lt _ _) Hl) in H. simpl in H. apply negb_true_iff, bool_decide_eq_false in H.
  apply H, byte_of_inj. by rewrite (digit_of_byte _ _ Hc).
Qed.

(** Segments compare as their values: first by length, then bytewise. *)
Lemma compare_segments s t v w :
  stable_segment s = true → stable_segment t = true →
  digits_value 0 s = Some v → digits_value 0 t = Some w →
  (len s < len t → v < w) ∧ (len t < len s → w < v) ∧ (len s = len t → String.compare s t = (v ?= w)).
Proof.
  intros Hs Ht Hv Hw.
  assert (∀ s t v w, stable_segment s = true → stable_segment t = true →
    digits_value 0 s = Some v → digits_value 0 t = Some w → len s < len t → v < w) as Hlt.
  { clear. intros s t v w Hs Ht Hv Hw Hl.
    destruct (stable_segment_value s Hs) as (v' & Hv' & Bv & _).
    destruct (stable_segment_value t Ht) as (w' & Hw' & _ & Bw). simplify_eq.
    assert (0 < len s) by (destruct s; [done|rewrite len_cons; pose proof (len_nonneg s); lia]).
    pose proof (Z.pow_le_mono_r 10 (len s) (len t - 1) ltac:(lia) ltac:(lia)). specialize (Bw ltac:(lia)). lia. }
  split_and!; [by eapply Hlt|by eapply Hlt|].
  intros Hl. apply stable_segment_digits in Hs as [_ Hs], Ht as [_ Ht]. by eapply compare_same_length.
Qed.

Lemma segment_value_inj s t v :
  stable_segment s = true → stable_segment t = true →
  digits_value 0 s = Some v → digits_value 0 t = Some v → s = t.
Proof.
  intros Hs Ht Hv Hw. destruct (compare_segments s t v v Hs Ht Hv Hw) as (H1 & H2 & H3).
  apply Stdlib.Strings.String.compare_eq_iff. rewrite H3 by lia. apply Z.compare_refl.
Qed.

(** The decimal representation of a number passes the checks. *)
Lemma digit_char_digit d : 0 ≤ d < 10 → is_Some (digit_of (digit_char d)).
Proof. intros H. rewrite digit_of_char by done. eauto. Qed.

Lemma format_digits_digits fuel z acc :
  0 ≤ z → all_digits acc = true → all_digits (format_digits fuel z acc) = true.
Proof.
  revert z acc. induction fuel as [|fuel IH]; intros z acc Hz Ha; [done|].
  assert (all_digits (String (digit_char (z mod 10)) acc) = true) as Hc.
  { unfold all_digits. cbn [Stdlib.Strings.String.list_ascii_of_string forallb]. rewrite bool_decide_eq_true_2; [done|].
    apply digit_char_digit, Z.mod_pos_bound. lia. }
  cbn [format_digits]. destruct (z <? 10); [done|]. apply IH; [apply Z.div_pos; lia|done].
Qed.

Lemma format_digits_first fuel z acc :
  0 < z → (digits_fuel z ≤ fuel)%nat →
  ∃ d r, 1 ≤ d < 10 ∧ format_digits fuel z acc = String (digit_char d) r.
Proof.
  revert z acc. induction fuel as [|fuel IH]; intros z acc Hz Hf; [unfold digits_fuel in Hf; lia|].
  cbn [format_digits]. destruct (Z.ltb_spec z 10).
  - exists z, acc. split; [lia|]. by rewrite Z.mod_small by lia.
  - apply IH; [apply Z.div_str_pos; lia|]. pose proof (digits_fuel_step z ltac:(lia)). lia.
Qed.

Lemma format_nonneg_stable n : 0 ≤ n → stable_segment (format_nonneg n) = true.
Proof.
  intros Hn. pose proof (format_digits_digits (digits_fuel n) n "" Hn eq_refl) as Hd.
  destruct (decide (n = 0)) as [->|]; [reflexivity|].
  destruct (format_digits_first (digits_fuel n) n "" ltac:(lia) ltac:(done)) as (d & r & Hr & E).
  unfold format_nonneg. rewrite E in *. unfold stable_segment. rewrite Hd, andb_true_r.
  apply negb_true_iff, andb_false_iff. right. apply bool_decide_eq_false. intros E0.
  pose proof (digit_of_char d ltac:(lia)) as H0. rewrite E0 in H0. vm_compute in H0. injection H0 as H0. lia.
Qed.

(** The segments that pass the checks are the decimal representations. *)
Lemma stable_segment_decimal s :
  stable_segment s = true ↔ ∃ n, 0 ≤ n ∧ s = format_nonneg n.
Proof.
  split.
  - intros H. destruct (stable_segment_value s H) as (v & Hv & Hb & _). exists v. split; [lia|].
    eapply segment_value_inj; [done|apply format_nonneg_stable; lia|done|apply format_nonneg_value; lia].
  - intros (n & Hn & ->). by apply format_nonneg_stable.
Qed.

(** ** Versions *)

Lemma digit_not_dot c : is_Some (digit_of c) → c ≠ "."%char ∧ c ≠ "v"%char.
Proof. intros [d Hd]. split; intros ->; by vm_compute in Hd. Qed.

Lemma split_on_digits s : all_digits s = true → split_on "." s = [s].
Proof.
  induction s as [|c s IH]; [done|]. intros [Hc%bool_decide_eq_true Hs]%andb_true_iff.
  cbn [split_on]. rewrite bool_decide_eq_false_2 by apply (digit_not_dot c Hc). by rewrite IH.
Qed.

Lemma split_on_first s t : all_digits s = true → split_on "." (s +:+ String "." t) = s :: split_on "." t.
Proof.
  induction s as [|c s IH]; [done|]. intros [Hc%bool_decide_eq_true Hs]%andb_true_iff.
  change (split_on "." (String c (s +:+ String "." t)) = String c s :: split_on "." t).
  cbn [split_on]. rewrite bool_decide_eq_false_2 by apply (digit_not_dot c Hc). by rewrite IH.
Qed.

(** Joining the parts gives the string back. *)
Lemma split_on_join s : String.concat "." (split_on "." s) = s ∧ split_on "." s ≠ [].
Proof.
  induction s as [|c s [IH Hne]]; [done|]. cbn [split_on]. destruct (split_on "." s) as [|x l] eqn:E; [done|].
  case_bool_decide as Hc; (split; [|done]).
  - subst c. change (String "." (String.concat "." (x :: l)) = String "." s). by rewrite IH.
  - rewrite <-IH. by destruct l.
Qed.

Lemma version_text_parts a b c :
  0 ≤ a → 0 ≤ b → 0 ≤ c →
  split_on "." (version_text [a; b; c]) = [format_nonneg a; format_nonneg b; format_nonneg c].
Proof.
  intros Ha Hb Hc.
  assert (∀ n, 0 ≤ n → all_digits (format_nonneg n) = true) as Hd
    by (intros n Hn; by apply stable_segment_digits, format_nonneg_stable).
  change (version_text [a; b; c]) with
    (format_nonneg a +:+ String "." (format_nonneg b +:+ String "." (format_nonneg c))).
  by rewrite !split_on_first, split_on_digits by auto.
Qed.

Lemma version_text_first numbers c r :
  length numbers = 3%nat → Forall (λ n, 0 ≤ n) numbers → version_text numbers = String c r → c ≠ "v"%char.
Proof.
  destruct numbers as [|n [|? [|? []]]]; try done. intros _ [Hn _]%Forall_cons E.
  pose proof (format_nonneg_stable n Hn) as [Hne Hd]%stable_segment_digits.
  destruct (format_nonneg n) as [|c' r'] eqn:En; [done|].
  assert (c = c') as -> by (unfold version_text in E; simpl in E; rewrite En in E; by injection E).
  apply andb_true_iff in Hd as [Hd%bool_decide_eq_true _]. by apply digit_not_dot.
Qed.

(** The strings [stableVersionParts] accepts are the versions, and the parts are the
    representations of their numbers. *)
Lemma stableVersionParts_spec s parts :
  stableVersionParts s = Some parts ↔ ∃ numbers, is_version numbers s ∧ parts = format_nonneg <$> numbers.
Proof.
  unfold stableVersionParts, is_version. split.
  - destruct (_ || _) eqn:Eb; [done|]. apply orb_false_iff in Eb as [_ Hl%Z.ltb_ge]. cbv zeta.
    set (body := match s with String c rest => if bool_decide (c = "v"%char) then rest else s | "" => s end).
    assert (s = body ∨ s = String "v" body) as Hbody.
    { unfold body. destruct s as [|c r]; [by left|]. case_bool_decide; [right; by subst|by left]. }
    case_bool_decide as H3; [|done]. simpl. destruct (forallb _ _) eqn:Hf; [|done]. intros [= <-].
    pose proof (proj1 (split_on_join body)) as Hj.
    destruct (split_on "." body) as [|a [|b [|c []]]]; try done. simpl in Hf. rewrite !andb_true_iff in Hf.
    destruct Hf as (Ha & Hb & Hc & _). apply stable_segment_decimal in Ha as (na & ? & ->), Hb as (nb & ? & ->), Hc as (nc & ? & ->).
    exists [na; nb; nc]. split; [|done]. split_and!; [done|by repeat constructor|done|].
    change (version_text [na; nb; nc] = body) in Hj. by rewrite Hj.
  - intros (numbers & (H3 & Hn & Hl & Hs) & ->).
    assert (∀ c r, version_text numbers = String c r → c ≠ "v"%char) as Hv by eauto using version_text_first.
    assert (len s ≠ 0) as H0.
    { destruct Hs as [->| ->]; [|rewrite len_cons; pose proof (len_nonneg (version_text numbers)); lia].
      destruct numbers as [|n [|? [|? []]]]; try done. apply Forall_cons in Hn as [Hn _].
      pose proof (format_nonneg_stable n Hn) as [Hne _]%stable_segment_digits.
      unfold version_text. simpl. destruct (format_nonneg n) as [|c r]; [done|].
      intros E. unfold len in E. simpl in E. lia. }
    rewrite (proj2 (Z.eqb_neq _ _) H0), (proj2 (Z.ltb_ge _ _) Hl). cbv zeta. simpl.
    assert (match s with String c rest => if bool_decide (c = "v"%char) then rest else s | "" => s end
            = version_text numbers) as ->.
    { destruct Hs as [->| ->]; [|by rewrite bool_decide_eq_true_2].
      destruct (version_text numbers) as [|c r] eqn:E; [done|]. by rewrite bool_decide_eq_false_2 by by eapply Hv. }
    destruct numbers as [|a [|b [|c []]]]; try done. rewrite !Forall_cons in Hn. destruct Hn as (? & ? & ? & _).
    rewrite version_text_parts by done. simpl. by rewrite !format_nonneg_stable.
Qed.

(** Comparing the representations compares the numbers. *)
Lemma compare_parts_numbers a b :
  length a = length b → Forall (λ n, 0 ≤ n) a → Forall (λ n, 0 ≤ n) b →
  compare_parts (format_nonneg <$> a) (format_nonneg <$> b) = compare_numbers a b.
Proof.
  revert b. induction a as [|x a IH]; intros [|y b] Hl Ha Hb; try done.
  apply Forall_cons in Ha as [Hx Ha], Hb as [Hy Hb]. injection Hl as Hl.
  destruct (compare_segments (format_nonneg x) (format_nonneg y) x y) as (H1 & H2 & H3);
    [by apply format_nonneg_stable..|by apply format_nonneg_value|by apply format_nonneg_value|].
  cbn [fmap list_fmap compare_parts compare_numbers].
  destruct (Z.ltb_spec (len (format_nonneg x)) (len (format_nonneg y))) as [L1|L1].
  { by rewrite (proj2 (Z.ltb_lt _ _) (H1 L1)). }
  destruct (Z.ltb_spec (len (format_nonneg y)) (len (format_nonneg x))) as [L2|L2].
  { specialize (H2 L2). by rewrite (proj2 (Z.ltb_ge x y)), (proj2 (Z.ltb_lt y x)) by lia. }
  unfold strings_Compare. rewrite H3 by lia. rewrite Z.ltb_compare, (Z.ltb_compare y x), (Z.compare_antisym x y).
  destruct (Z.compare_spec x y) as [->|?|?]; simpl; [by apply IH|done|done].
Qed.

(** [compareStableVersions] orders versions as triples of numbers: it answers
    exactly for two strings of the form [x.y.z] or [vx.y.z] without leading zeros and
    of at most 64 bytes, and the answer is the sign of the lexicographic comparison. *)
Theorem compareStableVersions_numeric l r c :
  compareStableVersions l r = Some c ↔
  ∃ a b, is_version a l ∧ is_version b r ∧ c = compare_numbers a b.
Proof.
  unfold compareStableVersions. split.
  - destruct (stableVersionParts l) as [pl|] eqn:El; [|done]. destruct (stableVersionParts r) as [pr|] eqn:Er; [|done].
    intros [= <-]. apply stableVersionParts_spec in El as (a & Ha & ->), Er as (b & Hb & ->).
    exists a, b. split_and!; [done|done|]. destruct Ha as (Ha & ? & _), Hb as (Hb & ? & _).
    apply compare_parts_numbers; [congruence|done|done].
  - intros (a & b & Ha & Hb & ->).
    rewrite (proj2 (stableVersionParts_spec l (format_nonneg <$> a))) by eauto.
    rewrite (proj2 (stableVersionParts_spec r (format_nonneg <$> b))) by eauto.
    destruct Ha as (Ha & ? & _), Hb as (Hb & ? & _). f_equal. apply compare_parts_numbers; [congruence|done|done].
Qed.

Example compare_10_9 : compareStableVersions "v1.10.0" "1.9.9" = Some 1.
Proof. reflexivity. Qed.
