(* ===== verification/UpgradeStore.v ===== *)
(** * UpgradeStore

    [internal/agentupgrade/postgres.go]: the repository of upgrade plans on the tables
    [agent_releases], [agent_upgrade_plans], [agent_upgrade_targets] and
    [agent_upgrade_events] of the migrations 14 and 15.

    Plans are saved with an optimistic check of their revision.  The event log has a
    unique index on target, command and stage: [AppendEvent] skips a duplicate,
    [SavePlan] fails on it. *)

From S2P Require Import Prelude GoStd Model World Schema Session Lifecycle RunEvents Reconcile SchedulerStore.

(** ** url.PathEscape *)

Definition hex_digit (n : Z) : ascii :=
  Stdlib.Strings.Ascii.ascii_of_N (Z.to_N (if n <? 10 then 48 + n else 55 + n)).

(** Letters, digits and [-_.~$&+:=@] stand for themselves. *)
Definition unescaped (c : ascii) : bool :=
  let x := byte_of c in
  ((65 <=? x) && (x <=? 90)) || ((97 <=? x) && (x <=? 122)) || ((48 <=? x) && (x <=? 57)) ||
  existsb (λ a, bool_decide (a = c)) (chars "-_.~$&+:=@").

Fixpoint PathEscape (s : string) : string :=
  match s with
  | EmptyString => EmptyString
  | String c rest =>
    if unescaped c then String c (PathEscape rest)
    else String "%" (String (hex_digit (byte_of c / 16)) (String (hex_digit (byte_of c mod 16)) (PathEscape rest)))
  end.

(** ** Statements *)

Definition plan_active (s : PlanStatus) : bool :=
  match s with PlanPending | PlanRunning | PlanPaused => true | _ => false end.

(** [agent_upgrade_plans_one_active_idx]: another active plan than [id] exists. *)
Definition other_active (id : string) (u : UpgradeTables) : bool :=
  existsb (λ p, bool_decide (p.1 ≠ id) && plan_active (pr_status p.2)) (map_to_list (agent_upgrade_plans u)).

Definition plan_checks (r : PlanRow) : bool :=
  (pr_first_batch_size r =? 1) && (1 <=? pr_batch_size r) && (pr_batch_size r <=? 100) &&
  (60 <=? pr_drain_timeout_seconds r) && (pr_drain_timeout_seconds r <=? 86400) &&
  (30 <=? pr_reconnect_timeout_seconds r) && (pr_reconnect_timeout_seconds r <=? 3600) &&
  (10 <=? pr_verification_seconds r) && (pr_verification_seconds r <=? 600) &&
  (0 <? pr_current_batch r) && (0 <=? pr_revision r).

Definition plan_row (p : UpgradePlan) : PlanRow :=
  mkPlanRow (p_TargetReleaseID p) (p_Status p) (p_FirstBatchSize p) (p_BatchSize p) (p_DrainTimeoutSeconds p)
    (p_ReconnectTimeoutSeconds p) (p_VerificationSeconds p) (p_CurrentBatch p) 0 false (p_CreatedBy p)
    (p_PauseReason p) (p_CreatedAt p) (p_StartedAt p) (p_FinishedAt p).

(** The [INSERT] of a plan; [false] when the index on active plans rejects it. *)
Definition insert_plan (p : UpgradePlan) (d : DB) : option (DB * bool) :=
  let u := upgrades d in
  if negb (plan_checks (plan_row p)) || bool_decide (is_Some (agent_upgrade_plans u !! p_ID p)) then None
  else if plan_active (p_Status p) && other_active (p_ID p) u then Some (d, false)
  else if negb (reference (agent_releases u) (Some (p_TargetReleaseID p))) || bool_decide (p_CreatedBy p ∉ users d)
  then None
  else Some (d <| upgrades := u <| agent_upgrade_plans ::= <[p_ID p := plan_row p]> |> |>, true).

Definition target_row (planID : string) (t : Target) : TargetRow :=
  mkTargetRow planID (t_ServerID t) (t_BatchNumber t) (t_SourceVersion t) (t_TargetVersion t) (t_SourceDraining t)
    (t_Status t) (t_Attempts t) (t_CommandID t) (t_InstallCommandID t) (t_ErrorCode t) (t_ErrorMessage t)
    (t_StartedAt t) (t_UpdatedAt t) (t_FinishedAt t).

Definition insert_target (planID : string) (t : Target) (d : DB) : option DB :=
  let u := upgrades d in
  if bool_decide (is_Some (agent_upgrade_targets u !! t_ID t)) || (t_BatchNumber t <=? 0) || (t_Attempts t <? 0) ||
     existsb (λ p, bool_decide (ut_plan_id p.2 = planID) && bool_decide (ut_server_id p.2 = t_ServerID t))
       (map_to_list (agent_upgrade_targets u)) ||
     negb (reference (agent_upgrade_plans u) (Some planID)) || negb (reference (servers d) (Some (t_ServerID t)))
  then None
  else Some (d <| upgrades := u <| agent_upgrade_targets ::= <[t_ID t := target_row planID t]> |> |>).

Definition saved_plan (p : UpgradePlan) (r : PlanRow) : PlanRow :=
  r <| pr_status := p_Status p |> <| pr_current_batch := p_CurrentBatch p |> <| pr_pause_reason := p_PauseReason p |>
    <| pr_started_at := p_StartedAt p |> <| pr_finished_at := p_FinishedAt p |>
    <| pr_cancel_requested := p_CancelRequested p |> <| pr_revision := pr_revision r + 1 |>.

Inductive PlanUpdate : Type := Updated | NoRow | Conflict.

(** [UPDATE agent_upgrade_plans ... WHERE id=$1 AND revision=$8] *)
Definition update_plan (p : UpgradePlan) (d : DB) : option (DB * PlanUpdate) :=
  let u := upgrades d in
  match agent_upgrade_plans u !! p_ID p with
  | Some r =>
    if negb (pr_revision r =? p_Revision p) then Some (d, NoRow)
    else if negb (plan_checks (saved_plan p r)) then None
    else if plan_active (p_Status p) && other_active (p_ID p) u then Some (d, Conflict)
    else Some (d <| upgrades := u <| agent_upgrade_plans ::= <[p_ID p := saved_plan p r]> |> |>, Updated)
  | None => Some (d, NoRow)
  end.

Definition saved_target (t : Target) (r : TargetRow) : TargetRow :=
  mkTargetRow (ut_plan_id r) (ut_server_id r) (ut_batch_number r) (ut_source_version r) (ut_target_version r)
    (ut_source_draining r) (t_Status t) (t_Attempts t) (t_CommandID t) (t_InstallCommandID t) (t_ErrorCode t)
    (t_ErrorMessage t) (t_StartedAt t) (t_UpdatedAt t) (t_FinishedAt t).

Definition plan_target (planID id : string) (d : DB) : option TargetRow :=
  match agent_upgrade_targets (upgrades d) !! id with
  | Some r => if bool_decide (ut_plan_id r = planID) then Some r else None
  | None => None
  end.

(** The [UPDATE] of one target: its row count. *)
Definition update_target (planID : string) (t : Target) (d : DB) : option (DB * bool) :=
  match plan_target planID (t_ID t) d with
  | Some r =>
    if t_Attempts t <? 0 then None
    else Some (d <| upgrades := (upgrades d) <| agent_upgrade_targets ::= <[t_ID t := saved_target t r]> |> |>, true)
  | None => Some (d, false)
  end.

Definition event_key (e : PlanEvent) : string * string * string := (pe_TargetID e, pe_CommandID e, pe_Stage e).

Definition event_recorded (key : string * string * string) (d : DB) : bool :=
  existsb (λ e, bool_decide (event_key e = key)) (agent_upgrade_events (upgrades d)).

Definition event_references (e : PlanEvent) (d : DB) : bool :=
  reference (agent_upgrade_plans (upgrades d)) (Some (pe_PlanID e)) &&
  reference (agent_upgrade_targets (upgrades d)) (Some (pe_TargetID e)) &&
  reference (servers d) (Some (pe_ServerID e)).

Definition add_event (e : PlanEvent) (d : DB) : DB :=
  d <| upgrades := (upgrades d) <| agent_upgrade_events ::= λ l, l ++ [e] |> |>.

(** [INSERT INTO agent_upgrade_events] *)
Definition insert_plan_event (e : PlanEvent) (d : DB) : option DB :=
  if existsb (λ e', bool_decide (pe_ID e' = pe_ID e)) (agent_upgrade_events (upgrades d)) ||
     event_recorded (event_key e) d || negb (event_references e d)
  then None
  else Some (add_event e d).

(** ... [ON CONFLICT (target_id,command_id,stage) DO NOTHING] *)
Definition insert_new_event (e : PlanEvent) (d : DB) : option DB :=
  if existsb (λ e', bool_decide (pe_ID e' = pe_ID e)) (agent_upgrade_events (upgrades d)) then None
  else if event_recorded (event_key e) d then Some d
  else if negb (event_references e d) then None
  else Some (add_event e d).

(** [planSelect] and [scanPlan] *)
Definition scanPlan (d : DB) (id : string) (r : PlanRow) : option UpgradePlan :=
  match agent_releases (upgrades d) !! pr_target_release_id r with
  | Some release =>
    Some (mkUpgradePlan id (pr_target_release_id r) (re_version release) (pr_status r) (pr_first_batch_size r)
      (pr_batch_size r) (pr_drain_timeout_seconds r) (pr_reconnect_timeout_seconds r) (pr_verification_seconds r)
      (pr_current_batch r) (pr_revision r) (pr_cancel_requested r) (pr_created_by r) (pr_pause_reason r)
      (pr_created_at r) (pr_started_at r) (pr_finished_at r) [] [])
  | None => None
  end.

Definition target_of (id : string) (r : TargetRow) (serverName : string) : Target :=
  mkTarget id (ut_plan_id r) (ut_server_id r) serverName (ut_batch_number r) (ut_source_version r)
    (ut_target_version r) (ut_source_draining r) (ut_status r) (ut_attempts r) (ut_command_id r)
    (ut_install_command_id r) (ut_error_code r) (ut_error_message r) (ut_started_at r) (ut_updated_at r)
    (ut_finished_at r).

(** [ORDER BY target.batch_number,target.updated_at,target.id] *)
Definition target_order (a b : string * TargetRow) : bool :=
  (ut_batch_number a.2 <? ut_batch_number b.2) ||
  ((ut_batch_number a.2 =? ut_batch_number b.2) &&
   ((ut_updated_at a.2 <? ut_updated_at b.2) ||
    ((ut_updated_at a.2 =? ut_updated_at b.2) && string_lt a.1 b.1))).

Definition plan_targets (d : DB) (planID : string) : list Target :=
  omap (λ p, (λ s, target_of p.1 p.2 (se_name s)) <$> servers d !! ut_server_id p.2)
    (stable_sort target_order
      (filter (λ p, ut_plan_id p.2 = planID) (map_to_list (agent_upgrade_targets (upgrades d))))).

(** [ORDER BY occurred_at,id] *)
Definition plan_event_order (a b : PlanEvent) : bool :=
  (pe_OccurredAt a <? pe_OccurredAt b) || ((pe_OccurredAt a =? pe_OccurredAt b) && string_lt (pe_ID a) (pe_ID b)).

Definition plan_events (d : DB) (planID : string) : list PlanEvent :=
  stable_sort plan_event_order (filter (λ e, pe_PlanID e = planID) (agent_upgrade_events (upgrades d))).

Definition artifact_order (a b : ArtifactRow) : bool := string_lt (ar_arch a) (ar_arch b).

Definition newest_snapshot (a b : ServerSnapshotRow) : bool :=
  (ss_collected_at b <? ss_collected_at a) ||
  ((ss_collected_at a =? ss_collected_at b) && string_lt (ss_id b) (ss_id a)).

Definition set_draining (draining : bool) (s : ServerRow) : ServerRow :=
  s <| se_drain_requested := draining |>
    <| se_status := if draining && bool_decide (se_status s = StatusOnline) then StatusDraining
                    else if negb draining && bool_decide (se_status s = StatusDraining) then StatusOnline
                    else se_status s |>.

(** ** Interfaces

    [Repository] of service.go and [CoordinatorStore] of coordinator.go, which the
    PostgreSQL repository both implements. *)
Class UpgradeRepository (C : Type) : Type := {
  repo_ActivePlan : Prog C (option UpgradePlan);
  repo_Release : string → Prog C ReleaseInfo;
  repo_ReleaseByVersion : string → Prog C ReleaseInfo;
  repo_Servers : list string → Prog C (list ServerInfo);
  repo_CreatePlan : UpgradePlan → Prog C UpgradePlan;
  repo_ListPlans : Prog C (list UpgradePlan);
  repo_Plan : string → Prog C UpgradePlan;
  repo_SavePlan : UpgradePlan → Prog C UpgradePlan;
  repo_ServerRuntime : string → Prog C ServerRuntime;
  repo_SetServerDraining : string → bool → Prog C unit;
  repo_AppendEvent : PlanEvent → Prog C unit
}.

(** [UpgradeCommandSender] *)
Class UpgradeSender (C : Type) : Type := { SendUpgradeCommand : string → UpgradeCommand → Prog C unit }.

(** ** The repository *)

Section repository.
Context {C : Type} `{!Has DB C} (publicBaseURL : string).

Definition planByQuery (select : DB → option UpgradePlan) : Prog C UpgradePlan :=
  let! found := pool_query "" select in
  match found with
  | None => throw ErrPlanNotFound
  | Some plan =>
    let! targets := pool_query "" (λ d, plan_targets d (p_ID plan)) in
    let! events := pool_query "" (λ d, plan_events d (p_ID plan)) in
    ret (plan <| p_Targets := targets |> <| p_Events := events |>)
  end.

Definition select_plan (id : string) (d : DB) : option UpgradePlan :=
  match agent_upgrade_plans (upgrades d) !! id with Some r => scanPlan d id r | None => None end.

(** [ORDER BY plan.created_at DESC LIMIT 1] among the active plans. *)
Definition select_active (d : DB) : option UpgradePlan :=
  head (omap (λ p, scanPlan d p.1 p.2)
    (stable_sort (λ a b, pr_created_at b.2 <? pr_created_at a.2)
      (filter (λ p, plan_active (pr_status p.2) = true) (map_to_list (agent_upgrade_plans (upgrades d)))))).

Definition Plan (id : string) : Prog C UpgradePlan := planByQuery (select_plan id).

Definition ActivePlan : Prog C (option UpgradePlan) :=
  let! r := catch (planByQuery select_active) in
  match r with
  | Ok plan => ret (Some plan)
  | Err ErrPlanNotFound => ret None
  | Err e => throw e
  end.

(** The rows of a page of plans, newest first, then the targets and events of each. *)
Fixpoint complete_plans (plans : list UpgradePlan) : Prog C (list UpgradePlan) :=
  match plans with
  | [] => ret []
  | plan :: rest =>
    let! targets := pool_query "" (λ d, plan_targets d (p_ID plan)) in
    let! events := pool_query "" (λ d, plan_events d (p_ID plan)) in
    let! others := complete_plans rest in
    ret (plan <| p_Targets := targets |> <| p_Events := events |> :: others)
  end.

Definition plan_order (a b : string * PlanRow) : bool :=
  (pr_created_at b.2 <? pr_created_at a.2) ||
  ((pr_created_at a.2 =? pr_created_at b.2) && string_lt b.1 a.1).

Definition ListPlans : Prog C (list UpgradePlan) :=
  let! plans := pool_query "" (λ d, omap (λ p, scanPlan d p.1 p.2)
    (stable_sort plan_order (map_to_list (agent_upgrade_plans (upgrades d))))) in
  complete_plans plans.

Definition artifact_info (version : string) (a : ArtifactRow) : ArtifactInfo :=
  mkArtifactInfo (ar_os a) (ar_arch a) (ar_file_name a) (ar_sha256 a)
    (publicBaseURL +:+ "/api/releases/agent/" +:+ PathEscape version +:+ "/" +:+ PathEscape (ar_sha256 a) +:+ "/" +:+
     PathEscape (ar_file_name a)) (ar_byte_size a).

Definition releaseBy (predicate : string * ReleaseRow → bool) : Prog C ReleaseInfo :=
  let! found := pool_query "" (λ d, List.find predicate (map_to_list (agent_releases (upgrades d)))) in
  match found with
  | None => throw ErrReleaseNotFound
  | Some (id, release) =>
    let! artifacts := pool_query "" (λ d,
      match agent_releases (upgrades d) !! id with
      | Some r => stable_sort artifact_order (re_artifacts r)
      | None => []
      end) in
    ret (mkReleaseInfo id (re_version release) (re_status release) (re_capabilities release)
      (artifact_info (re_version release) <$> artifacts))
  end.

Definition Release_ (id : string) : Prog C ReleaseInfo := releaseBy (λ p, bool_decide (p.1 = id)).
Definition ReleaseByVersion (version : string) : Prog C ReleaseInfo :=
  releaseBy (λ p, bool_decide (re_version p.2 = version)).

Definition runtime_of (id : string) (s : ServerRow) (d : DB) : ServerRuntime :=
  let snapshots := stable_sort newest_snapshot (filter (λ x, ss_server_id x = id) (server_snapshots d)) in
  mkServerRuntime (se_status s) (se_enabled s) (se_drain_requested s)
    (match snapshots with x :: _ => ss_running_tasks x | [] => 0 end)
    (se_agent_version s) (se_agent_os s) (se_agent_arch s) (se_last_seen_at s)
    (negb (bool_decide (snapshots = []))).

Definition ServerRuntime_ (serverID : string) : Prog C ServerRuntime :=
  let! found := pool_query "" (λ d, (λ s, runtime_of serverID s d) <$> servers d !! serverID) in
  match found with None => throw ErrServerIneligible | Some runtime => ret runtime end.

Definition SetServerDraining (serverID : string) (draining : bool) : Prog C unit :=
  let! affected := pool "" (λ d, Some (d <| servers ::= alter (set_draining draining) serverID |>,
                                       bool_decide (is_Some (servers d !! serverID)))) in
  if negb affected then throw ErrServerIneligible else ret tt.

Definition AppendEvent (event : PlanEvent) : Prog C unit :=
  pool "" (λ d, match insert_new_event event d with Some d' => Some (d', tt) | None => None end).

Definition server_info (id : string) (s : ServerRow) : ServerInfo :=
  mkServerInfo id (se_status s) (se_agent_version s) (se_agent_os s) (se_agent_arch s) (se_enabled s)
    (se_drain_requested s) (se_agent_capabilities s).

Fixpoint Servers (ids : list string) : Prog C (list ServerInfo) :=
  match ids with
  | [] => ret []
  | id :: ids =>
    let! found := pool_query "" (λ d, server_info id <$> servers d !! id) in
    match found with
    | None => throw ErrServerIneligible
    | Some server => let! rest := Servers ids in ret (server :: rest)
    end
  end.

Definition CreatePlan (plan : UpgradePlan) : Prog C UpgradePlan :=
  transaction "" (
    let! inserted := stmt "保存代理升级计划" (insert_plan plan) in
    if negb inserted then throw ErrActivePlanExists
    else
      for_each (p_Targets plan) (λ target, exec "保存代理升级计划" (insert_target (p_ID plan) target)) ;;!
      commit "保存代理升级计划") ;;!
  Plan (p_ID plan).

(** The loop body of [SavePlan]. *)
Definition save_target (planID : string) (target : Target) : Tx C unit :=
  let! previous := query "" (plan_target planID (t_ID target)) in
  match previous with
  | None => throw ErrTargetNotFound
  | Some row =>
    let! affected := stmt "" (update_target planID target) in
    if negb affected then throw ErrTargetNotFound
    else if bool_decide (ut_status row = t_Status target) then ret tt
    else
      let! id := new_uuid in
      exec "" (insert_plan_event (mkPlanEvent id planID (t_ID target) (t_ServerID target) (t_CommandID target)
        (target_status_text (t_Status target)) (t_ErrorCode target) (t_ErrorMessage target) (t_UpdatedAt target)))
  end.

(** The transaction of [SavePlan]. *)
Definition save_plan_tx (plan : UpgradePlan) : Tx C unit :=
  let! updated := stmt "保存代理升级计划" (update_plan plan) in
  match updated with
  | Conflict => throw ErrActivePlanExists
  | NoRow =>
    let! exists_ := query "" (λ d, bool_decide (is_Some (agent_upgrade_plans (upgrades d) !! p_ID plan))) in
    if negb exists_ then throw ErrPlanNotFound else throw ErrInvalidTransition
  | Updated =>
    for_each (p_Targets plan) (save_target (p_ID plan)) ;;!
    commit "保存代理升级计划"
  end.

Definition SavePlan (plan : UpgradePlan) : Prog C UpgradePlan :=
  transaction "" (save_plan_tx plan) ;;! Plan (p_ID plan).

#[export] Instance PostgresRepository : UpgradeRepository C := {|
  repo_ActivePlan := ActivePlan;
  repo_Release := Release_;
  repo_ReleaseByVersion := ReleaseByVersion;
  repo_Servers := Servers;
  repo_CreatePlan := CreatePlan;
  repo_ListPlans := ListPlans;
  repo_Plan := Plan;
  repo_SavePlan := SavePlan;
  repo_ServerRuntime := ServerRuntime_;
  repo_SetServerDraining := SetServerDraining;
  repo_AppendEvent := AppendEvent
|}.

End repository.

(** ** SavePlan *)

Definition status_event (planID id : string) (t : Target) : PlanEvent :=
  mkPlanEvent id planID (t_ID t) (t_ServerID t) (t_CommandID t) (target_status_text (t_Status t))
    (t_ErrorCode t) (t_ErrorMessage t) (t_UpdatedAt t).

Definition put_target (t : Target) (r : TargetRow) (d : DB) : DB :=
  d <| upgrades := (upgrades d) <| agent_upgrade_targets ::= <[t_ID t := saved_target t r]> |> |>.

(** Saving the targets one after the other: each is found, and a change of status is
    recorded by an event that is new for its command. *)
Fixpoint save_all (planID : string) (targets : list Target) (d d' : DB) : Prop :=
  match targets with
  | [] => d' = d
  | t :: rest => ∃ r d1, plan_target planID (t_ID t) d = Some r ∧
      (if bool_decide (ut_status r = t_Status t) then d1 = put_target t r d
       else ∃ id, insert_plan_event (status_event planID id t) (put_target t r d) = Some d1) ∧
      save_all planID rest d1 d'
  end.

(** The effect of a save: the revision is the one the caller read. *)
Definition plan_saved (plan : UpgradePlan) (d d' : DB) : Prop :=
  ∃ row, agent_upgrade_plans (upgrades d) !! p_ID plan = Some row ∧ pr_revision row = p_Revision plan ∧
    plan_checks (saved_plan plan row) = true ∧
    (plan_active (p_Status plan) = true → other_active (p_ID plan) (upgrades d) = false) ∧
    save_all (p_ID plan) (p_Targets plan)
      (d <| upgrades := (upgrades d) <| agent_upgrade_plans ::= <[p_ID plan := saved_plan plan row]> |> |>) d'.

Definition stale (plan : UpgradePlan) (d : DB) : Prop :=
  ∃ row, agent_upgrade_plans (upgrades d) !! p_ID plan = Some row ∧ pr_revision row ≠ p_Revision plan.

Definition SavePlan_post (plan : UpgradePlan) (d : DB) (r : Result UpgradePlan) (d' : DB) : Prop :=
  match r with
  | Ok saved => plan_saved plan d d' ∧ p_ID saved = p_ID plan ∧
      ∃ row, agent_upgrade_plans (upgrades d') !! p_ID plan = Some row ∧ p_Revision saved = pr_revision row ∧
        p_Targets saved = plan_targets d' (p_ID plan)
  | Err ErrInvalidTransition => d' = d ∧ stale plan d
  | Err _ => d' = d ∨ plan_saved plan d d'
  end.

Lemma plan_target_Some planID id d r :
  plan_target planID id d = Some r → agent_upgrade_targets (upgrades d) !! id = Some r ∧ ut_plan_id r = planID.
Proof.
  unfold plan_target. destruct (agent_upgrade_targets (upgrades d) !! id); [|done]. case_bool_decide; naive_solver.
Qed.

Section save.
Context {C : Type} `{!Has DB C}.

Definition save_error (e : Error) : Prop := e = ErrTargetNotFound ∨ ∃ context, e = EStorage context.

Lemma wp_save_target planID t (c : C) d Q :
  (∀ e d', save_error e → Q (Err e) (c, d')) →
  (∀ r d', plan_target planID (t_ID t) d = Some r →
     (if bool_decide (ut_status r = t_Status t) then d' = put_target t r d
      else ∃ id, insert_plan_event (status_event planID id t) (put_target t r d) = Some d') → Q (Ok tt) (c, d')) →
  wp (save_target planID t) (c, d) Q.
Proof.
  intros He Hok. assert (∀ context d', Q (Err (EStorage context)) (c, d')) as Hst by (intros; apply He; right; eauto).
  unfold save_target. repeat (tx_step; try (apply Hst || (apply He; by left))).
  all: unfold update_target in *; rewrite ?Hcase in *; destruct (t_Attempts t <? 0); simplify_eq.
  all: apply (Hok t0); [done|]; rewrite Hcase1; eauto.
Qed.

Lemma wp_save_all planID ts (c : C) d Q :
  (∀ e d', save_error e → Q (Err e) (c, d')) → (∀ d', save_all planID ts d d' → Q (Ok tt) (c, d')) →
  wp (for_each ts (save_target planID)) (c, d) Q.
Proof.
  intros He. revert d. induction ts as [|t ts IH]; intros d Hok; simpl.
  { apply wp_ret. by apply Hok. }
  apply wp_bind, wp_save_target; [done|]. intros r d1 Hr Hd1. apply IH. intros d' Hd'. apply Hok. simpl. eauto.
Qed.

(** Reading a plan changes nothing. *)
Definition read_plan (d : DB) (plan : UpgradePlan) : UpgradePlan :=
  plan <| p_Targets := plan_targets d (p_ID plan) |> <| p_Events := plan_events d (p_ID plan) |>.

Lemma wp_planByQuery select (c : C) Q :
  (∀ context, Q (Err (EStorage context)) c) → Q (Err ErrPlanNotFound) c →
  (∀ plan, select (part c) = Some plan → Q (Ok (read_plan (part c) plan)) c) →
  wp (planByQuery select) c Q.
Proof.
  intros He Hn Hok. unfold planByQuery. apply wp_bind, wp_pool_query; [done|].
  destruct (select (part c)) as [plan|]; [|by apply wp_throw].
  apply wp_bind, wp_pool_query; [done|]. apply wp_bind, wp_pool_query; [done|]. apply wp_ret. by apply Hok.
Qed.

End save.

Lemma insert_plan_event_inv e d d' : insert_plan_event e d = Some d' → d' = add_event e d ∧ event_recorded (event_key e) d = false.
Proof.
  unfold insert_plan_event. destruct (_ || _) eqn:E; intros [= <-]. rewrite !orb_false_iff in E. naive_solver.
Qed.

(** What a step of the save does to the tables. *)
Lemma save_all_tables planID ts d d' :
  save_all planID ts d d' →
  d' = d <| upgrades := upgrades d' |> ∧
  agent_releases (upgrades d') = agent_releases (upgrades d) ∧
  agent_upgrade_plans (upgrades d') = agent_upgrade_plans (upgrades d) ∧
  (∀ id, id ∉ t_ID <$> ts → agent_upgrade_targets (upgrades d') !! id = agent_upgrade_targets (upgrades d) !! id) ∧
  ∃ new, agent_upgrade_events (upgrades d') = agent_upgrade_events (upgrades d) ++ new ∧
    Forall (λ e, pe_PlanID e = planID) new.
Proof.
  revert d. induction ts as [|t ts IH]; intros d; simpl.
  { intros ->. split_and!; [by destruct d|done..|]. exists []. by rewrite app_nil_r. }
  intros (r & d1 & Hr & Hd1 & H). destruct (IH _ H) as (E1 & E2 & E3 & E4 & new & E5 & E6).
  assert (∃ u, d1 = d <| upgrades := u |> ∧ agent_releases u = agent_releases (upgrades d) ∧
    agent_upgrade_plans u = agent_upgrade_plans (upgrades d) ∧
    agent_upgrade_targets u = <[t_ID t := saved_target t r]> (agent_upgrade_targets (upgrades d)) ∧
    ∃ new, agent_upgrade_events u = agent_upgrade_events (upgrades d) ++ new ∧ Forall (λ e, pe_PlanID e = planID) new)
    as (u & -> & U1 & U2 & U3 & new' & U4 & U5).
  { case_bool_decide.
    - subst d1. eexists. split; [reflexivity|]. simpl. split_and!; [done..|]. exists []. by rewrite app_nil_r.
    - destruct Hd1 as (id & [-> _]%insert_plan_event_inv). eexists. split; [reflexivity|]. simpl.
      split_and!; [done..|]. eexists. split; [reflexivity|]. by repeat constructor. }
  simpl in *. split_and!; [rewrite E1; reflexivity|congruence..| |].
  - intros id Hid. rewrite E4 by set_solver. rewrite U3. apply lookup_insert_ne. set_solver.
  - exists (new' ++ new). rewrite E5, U4, app_assoc. split; [done|]. by apply Forall_app.
Qed.

(** With distinct targets, every target's row ends as the plan has it. *)
Lemma save_all_targets planID ts d d' :
  NoDup (t_ID <$> ts) → save_all planID ts d d' →
  ∀ t, t ∈ ts → ∃ r, plan_target planID (t_ID t) d = Some r ∧
    agent_upgrade_targets (upgrades d') !! t_ID t = Some (saved_target t r).
Proof.
  revert d. induction ts as [|t ts IH]; intros d Hnd H t' Ht'; [by apply elem_of_nil in Ht'|].
  simpl in Hnd. apply NoDup_cons in Hnd as [Hnew Hnd]. destruct H as (r & d1 & Hr & Hd1 & H).
  assert (agent_upgrade_targets (upgrades d1) = <[t_ID t := saved_target t r]> (agent_upgrade_targets (upgrades d))) as E.
  { case_bool_decide; [by subst d1|]. by destruct Hd1 as (id & [-> _]%insert_plan_event_inv). }
  apply elem_of_cons in Ht' as [->|Ht'].
  - exists r. split; [done|]. destruct (save_all_tables _ _ _ _ H) as (_ & _ & _ & -> & _); [|done].
    rewrite E. apply lookup_insert_eq.
  - destruct (IH _ Hnd H t' Ht') as (r' & Hr' & ->). exists r'. split; [|done].
    unfold plan_target in *. rewrite E, lookup_insert_ne in Hr'; [done|].
    intros Heq. apply Hnew. rewrite Heq. by apply (list_elem_of_fmap_2 t_ID).
Qed.

(** The event log never holds two events of one target, command and stage. *)
Definition event_keys_unique (d : DB) : Prop := NoDup (event_key <$> agent_upgrade_events (upgrades d)).

Lemma event_recorded_false key d : event_recorded key d = false ↔ key ∉ event_key <$> agent_upgrade_events (upgrades d).
Proof.
  unfold event_recorded. rewrite <-not_true_iff_false, existsb_exists, list_elem_of_fmap.
  setoid_rewrite <-list_elem_of_In. setoid_rewrite bool_decide_eq_true. naive_solver.
Qed.

Lemma add_event_unique e d :
  event_keys_unique d → event_recorded (event_key e) d = false → event_keys_unique (add_event e d).
Proof.
  unfold event_keys_unique. simpl. rewrite fmap_app, event_recorded_false. intros Hd He.
  apply NoDup_app. split_and!; [done| |apply NoDup_singleton].
  intros k Hk ->%list_elem_of_singleton. done.
Qed.

Lemma save_all_unique planID ts d d' : event_keys_unique d → save_all planID ts d d' → event_keys_unique d'.
Proof.
  revert d. induction ts as [|t ts IH]; intros d Hu; simpl; [by intros ->|].
  intros (r & d1 & Hr & Hd1 & H). apply (IH d1); [|done]. case_bool_decide; [by subst d1|].
  destruct Hd1 as (id & [-> He]%insert_plan_event_inv). by apply add_event_unique.
Qed.

Section save_plan.
Context {C : Type} `{!Has DB C}.

Definition save_tx_post (plan : UpgradePlan) (d : DB) (r : Result unit) (d' : DB) : Prop :=
  match r with
  | Ok _ => plan_saved plan d d'
  | Err ErrInvalidTransition => d' = d ∧ stale plan d
  | Err _ => d' = d ∨ plan_saved plan d d'
  end.

Lemma save_tx_error plan e d d' : save_error e → d' = d ∨ plan_saved plan d d' → save_tx_post plan d (Err e) d'.
Proof. by intros [->|[context ->]]. Qed.

Lemma update_plan_inv plan d d' u :
  update_plan plan d = Some (d', u) →
  match u with
  | NoRow => d' = d ∧ (agent_upgrade_plans (upgrades d) !! p_ID plan = None ∨ stale plan d)
  | Conflict => d' = d
  | Updated => ∃ row, agent_upgrade_plans (upgrades d) !! p_ID plan = Some row ∧ pr_revision row = p_Revision plan ∧
      plan_checks (saved_plan plan row) = true ∧
      (plan_active (p_Status plan) = true → other_active (p_ID plan) (upgrades d) = false) ∧
      d' = d <| upgrades := (upgrades d) <| agent_upgrade_plans ::= <[p_ID plan := saved_plan plan row]> |> |>
  end.
Proof.
  unfold update_plan, stale. destruct (agent_upgrade_plans (upgrades d) !! p_ID plan) as [row|].
  2:{ intros [= <- <-]. auto. }
  destruct (Z.eqb_spec (pr_revision row) (p_Revision plan)) as [Hrev|Hrev]; cbn [negb].
  2:{ intros [= <- <-]. eauto. }
  generalize (eq_refl (plan_checks (saved_plan plan row))).
  generalize (plan_checks (saved_plan plan row)) at 1 3. intros [] Hc; [|done]. cbn [negb].
  destruct (plan_active (p_Status plan)) eqn:Ea; cbn [andb].
  - destruct (other_active (p_ID plan) (upgrades d)); intros [= <- <-]; [done|]. exists row. auto.
  - intros [= <- <-]. exists row. split_and!; done.
Qed.

Lemma save_plan_tx_spec plan (c : C) : wp (save_plan_tx plan) (c, part c) (tx_post c (save_tx_post plan)).
Proof.
  unfold save_plan_tx. tx_step. tx_step; [by tx_step; left| |by tx_step; left].
  apply update_plan_inv in Hstmt. destruct a.
  - destruct Hstmt as (row & Hrow & Hrev & Hc & Ha & ->). tx_step. apply wp_save_all.
    { intros e d' He. tx_step. apply save_tx_error; [done|by left]. }
    intros d' Hd'. assert (plan_saved plan (part c) d') as Hsaved by (exists row; auto).
    tx_step; tx_step; [left; reflexivity|exact Hsaved|right; exact Hsaved].
  - destruct Hstmt as (-> & Hrow). repeat tx_step; [by left|by left|].
    apply negb_false_iff, bool_decide_eq_true in Hcase as [row Hcase]. destruct Hrow as [Hrow|Hs]; [congruence|by split].
  - subst d'. repeat tx_step. by left.
Qed.

Lemma SavePlan_spec plan : db_spec (C := C) (SavePlan plan) (SavePlan_post plan).
Proof.
  intros c. unfold SavePlan. apply wp_bind.
  eapply wp_mono; [apply (db_spec_transaction "" _ (save_tx_post plan)); [by left|apply save_plan_tx_spec]|].
  intros [u|e] c' [Hc HQ]; [|by split]. simpl in HQ.
  apply wp_planByQuery; [by split; [|right]..|].
  intros saved Hsel. split; [done|]. unfold select_plan in Hsel.
  destruct (agent_upgrade_plans (upgrades (part c')) !! p_ID plan) as [row|] eqn:Erow; [|done].
  unfold scanPlan in Hsel. destruct (agent_releases _ !! _); simplify_eq. split; [done|]. split; [done|].
  by exists row.
Qed.

Lemma plan_saved_row plan d d' :
  plan_saved plan d d' →
  ∃ row, agent_upgrade_plans (upgrades d) !! p_ID plan = Some row ∧ pr_revision row = p_Revision plan ∧
    agent_upgrade_plans (upgrades d') = <[p_ID plan := saved_plan plan row]> (agent_upgrade_plans (upgrades d)).
Proof.
  intros (row & Hrow & Hrev & _ & _ & H). exists row. split_and!; [done..|].
  destruct (save_all_tables _ _ _ _ H) as (_ & _ & -> & _). done.
Qed.

Lemma plan_saved_stale plan d d' : plan_saved plan d d' → stale plan d'.
Proof.
  intros (row & Hrow & Hrev & H)%plan_saved_row. exists (saved_plan plan row). rewrite H, lookup_insert_eq.
  split; [done|]. simpl. lia.
Qed.

(** The tables after a save. *)
Definition save_effect (plan : UpgradePlan) (d d' : DB) : Prop :=
  (∃ row, agent_upgrade_plans (upgrades d) !! p_ID plan = Some row ∧ pr_revision row = p_Revision plan ∧
     agent_upgrade_plans (upgrades d') = <[p_ID plan := saved_plan plan row]> (agent_upgrade_plans (upgrades d))) ∧
  (∀ t, t ∈ p_Targets plan → ∃ r, plan_target (p_ID plan) (t_ID t) d = Some r ∧
     agent_upgrade_targets (upgrades d') !! t_ID t = Some (saved_target t r)) ∧
  (∀ id, id ∉ t_ID <$> p_Targets plan →
     agent_upgrade_targets (upgrades d') !! id = agent_upgrade_targets (upgrades d) !! id) ∧
  d' = d <| upgrades := upgrades d' |> ∧
  agent_upgrade_events (upgrades d) `prefix_of` agent_upgrade_events (upgrades d') ∧ event_keys_unique d'.

Lemma plan_saved_effect plan d d' :
  NoDup (t_ID <$> p_Targets plan) → event_keys_unique d → plan_saved plan d d' → save_effect plan d d'.
Proof.
  intros Hnd Hu Hs. pose proof (plan_saved_row _ _ _ Hs) as Hrow.
  destruct Hs as (row & Hrow' & _ & _ & _ & Hall). pose proof (save_all_targets _ _ _ _ Hnd Hall) as Ht.
  assert (event_keys_unique d') as Hu' by (eapply save_all_unique; [|exact Hall]; exact Hu).
  destruct (save_all_tables _ _ _ _ Hall) as (E1 & _ & _ & E2 & new & E3 & _).
  split_and!; [exact Hrow|exact Ht|exact E2|rewrite E1 at 1; reflexivity|exists new; exact E3|exact Hu'].
Qed.

(** Saving a plan is atomic and optimistic.  Either nothing changes and the call
    fails, with [ErrInvalidTransition] only when the stored revision is not the one the
    caller read; or the revision was that one, the plan and each of its targets are
    stored, other plans and targets and all other tables are unchanged, the event log is
    only extended and keeps its unique keys, and the caller's revision is now stale, so
    that a second save of the same reading cannot succeed. *)
Theorem SavePlan_correct plan :
  db_spec (C := C) (SavePlan plan) (λ d r d',
    NoDup (t_ID <$> p_Targets plan) → event_keys_unique d →
    (d' = d ∧ is_ok r = false ∧ (r = Err ErrInvalidTransition → stale plan d)) ∨
    (save_effect plan d d' ∧ r ≠ Err ErrInvalidTransition ∧ stale plan d')).
Proof.
  eapply db_spec_mono; [apply SavePlan_spec|]. intros d r d' H Hnd Hu.
  destruct r as [saved|e]; simpl in H.
  { destruct H as [H _]. right. split; [by apply plan_saved_effect|]. split; [done|]. by eapply plan_saved_stale. }
  assert ((d' = d ∧ (Err e = Err (A := UpgradePlan) ErrInvalidTransition → stale plan d)) ∨
    (plan_saved plan d d' ∧ Err e ≠ Err (A := UpgradePlan) ErrInvalidTransition)) as [[-> Hs]|[Hs He]].
  { destruct e; naive_solver. }
  - left. done.
  - right. split; [by apply plan_saved_effect|]. split; [done|]. by eapply plan_saved_stale.
Qed.

(** A change of status whose event is already in the log cannot be saved. *)
Lemma recorded_event_blocks plan t d d' r :
  plan_target (p_ID plan) (t_ID t) d = Some r → p_Targets plan = [t] → ut_status r ≠ t_Status t →
  event_recorded (t_ID t, t_CommandID t, target_status_text (t_Status t)) d = true → ¬ plan_saved plan d d'.
Proof.
  intros Hr Ht Hst Hrec (row & _ & _ & _ & _ & H). rewrite Ht in H. destruct H as (r' & d1 & Hr' & H & _).
  assert (r' = r) as -> by (unfold plan_target in *; simpl in *; congruence).
  rewrite bool_decide_eq_false_2 in H by done. destruct H as (id & [_ H]%insert_plan_event_inv).
  change (event_recorded (t_ID t, t_CommandID t, target_status_text (t_Status t)) d = false) in H. congruence.
Qed.

End save_plan.

(** ** CreatePlan *)

Fixpoint insert_all (planID : string) (targets : list Target) (d d' : DB) : Prop :=
  match targets with
  | [] => d' = d
  | t :: rest => ∃ d1, insert_target planID t d = Some d1 ∧ insert_all planID rest d1 d'
  end.

Lemma insert_target_inv planID t d d' :
  insert_target planID t d = Some d' →
  agent_upgrade_targets (upgrades d) !! t_ID t = None ∧
  d' = d <| upgrades := (upgrades d) <| agent_upgrade_targets ::= <[t_ID t := target_row planID t]> |> |>.
Proof.
  unfold insert_target. destruct (_ || _) eqn:E; intros [= <-]. rewrite !orb_false_iff in E.
  destruct E as (((((E & _) & _) & _) & _) & _). apply bool_decide_eq_false in E. by rewrite <-eq_None_not_Some in E.
Qed.

(** The new targets are stored as given; nothing else changes. *)
Lemma insert_all_tables planID ts d d' :
  insert_all planID ts d d' →
  d' = d <| upgrades := upgrades d' |> ∧
  agent_upgrade_plans (upgrades d') = agent_upgrade_plans (upgrades d) ∧
  agent_upgrade_events (upgrades d') = agent_upgrade_events (upgrades d) ∧
  NoDup (t_ID <$> ts) ∧
  (∀ t, t ∈ ts → agent_upgrade_targets (upgrades d) !! t_ID t = None ∧
     agent_upgrade_targets (upgrades d') !! t_ID t = Some (target_row planID t)) ∧
  (∀ id, id ∉ t_ID <$> ts → agent_upgrade_targets (upgrades d') !! id = agent_upgrade_targets (upgrades d) !! id).
Proof.
  revert d. induction ts as [|t ts IH]; intros d; simpl.
  { intros ->. split_and!; [by destruct d|done|done|constructor| |done]. by intros t ?%elem_of_nil. }
  intros (d1 & [Hnew ->]%insert_target_inv & H). destruct (IH _ H) as (E1 & E2 & E3 & E4 & E5 & E6). simpl in *.
  assert (t_ID t ∉ t_ID <$> ts) as Hfresh.
  { intros (t' & Ht & Hin)%list_elem_of_fmap. destruct (E5 t' Hin) as [E _]. by rewrite <-Ht, lookup_insert_eq in E. }
  split_and!; [rewrite E1; reflexivity|done|done|by constructor| |].
  - intros t' [->|Ht']%elem_of_cons.
    + split; [done|]. rewrite E6 by done. apply lookup_insert_eq.
    + destruct (E5 t' Ht') as [F1 F2]. split; [|done]. rewrite lookup_insert_ne in F1; [done|].
      intros Heq. apply Hfresh. rewrite Heq. by apply (list_elem_of_fmap_2 t_ID).
  - intros id Hid. rewrite E6 by set_solver. apply lookup_insert_ne. set_solver.
Qed.

Definition plan_created (plan : UpgradePlan) (d d' : DB) : Prop :=
  agent_upgrade_plans (upgrades d) !! p_ID plan = None ∧
  (plan_active (p_Status plan) = true → other_active (p_ID plan) (upgrades d) = false) ∧
  insert_all (p_ID plan) (p_Targets plan)
    (d <| upgrades := (upgrades d) <| agent_upgrade_plans ::= <[p_ID plan := plan_row plan]> |> |>) d'.

Lemma insert_plan_inv plan d d' ok :
  insert_plan plan d = Some (d', ok) →
  if ok then agent_upgrade_plans (upgrades d) !! p_ID plan = None ∧
    (plan_active (p_Status plan) = true → other_active (p_ID plan) (upgrades d) = false) ∧
    d' = d <| upgrades := (upgrades d) <| agent_upgrade_plans ::= <[p_ID plan := plan_row plan]> |> |>
  else d' = d.
Proof.
  unfold insert_plan. generalize (plan_checks (plan_row plan)). intros [|]; cbn [negb orb]; [|done].
  case_bool_decide as Hn; [done|]. rewrite <-eq_None_not_Some in Hn.
  destruct (plan_active (p_Status plan) && other_active (p_ID plan) (upgrades d)) eqn:Ea; [by intros [= <- <-]|].
  destruct (_ || _); intros [= <- <-]. split_and!; [done| |done]. intros Hact. by rewrite Hact in Ea.
Qed.

Section create_plan.
Context {C : Type} `{!Has DB C}.

Lemma wp_insert_all planID context ts (c : C) d Q :
  (∀ context d', Q (Err (EStorage context)) (c, d')) → (∀ d', insert_all planID ts d d' → Q (Ok tt) (c, d')) →
  wp (for_each ts (λ target, exec context (insert_target planID target))) (c, d) Q.
Proof.
  intros He. revert d. induction ts as [|t ts IH]; intros d Hok; simpl.
  { apply wp_ret. by apply Hok. }
  apply wp_bind, wp_exec; [done|]. intros d1 Hd1. split; [|done]. apply IH. intros d' Hd'. apply Hok. simpl. eauto.
Qed.

Definition CreatePlan_post (plan : UpgradePlan) (d : DB) (r : Result UpgradePlan) (d' : DB) : Prop :=
  match r with
  | Ok _ => plan_created plan d d'
  | Err ErrActivePlanExists => d' = d
  | Err _ => d' = d ∨ plan_created plan d d'
  end.

Lemma CreatePlan_spec plan : db_spec (C := C) (CreatePlan plan) (CreatePlan_post plan).
Proof.
  intros c. unfold CreatePlan. apply wp_bind.
  eapply wp_mono; [apply (db_spec_transaction "" _ (λ d r d', match r with
    | Ok _ => plan_created plan d d' | Err ErrActivePlanExists => d' = d | Err _ => d' = d ∨ plan_created plan d d' end));
    [by left|]|].
  - intros c'. tx_step. tx_step; [by tx_step; left| |by tx_step; left].
    apply insert_plan_inv in Hstmt. destruct a.
    + destruct Hstmt as (Hn & Ha & ->). cbn [negb]. tx_step. apply wp_insert_all.
      { intros context d'. tx_step. left. reflexivity. }
      intros d' Hd'. assert (plan_created plan (part c') d') as Hcr by (split_and!; auto).
      tx_step; tx_step; [left; reflexivity|exact Hcr|right; exact Hcr].
    + subst d'. cbn [negb]. repeat tx_step. reflexivity.
  - intros [u|e] c' [Hc HQ]; [|by split]. simpl in HQ.
    apply wp_planByQuery; [by split; [|right]..|]. intros saved Hsel. by split.
Qed.

(** Reads of the repository. *)
Lemma wp_ActivePlan (c : C) Q :
  (∀ context, Q (Err (EStorage context)) c) →
  (select_active (part c) = None → Q (Ok None) c) →
  (∀ plan, select_active (part c) = Some plan → Q (Ok (Some (read_plan (part c) plan))) c) →
  wp ActivePlan c Q.
Proof.
  intros He Hn Hok. unfold ActivePlan. apply wp_bind, wp_catch. unfold planByQuery.
  apply wp_bind, wp_pool_query; [by apply wp_throw|].
  destruct (select_active (part c)) as [plan|] eqn:E.
  - apply wp_bind, wp_pool_query; [by apply wp_throw|]. apply wp_bind, wp_pool_query; [by apply wp_throw|].
    apply wp_ret, wp_ret. by apply Hok.
  - apply wp_throw, wp_ret. by apply Hn.
Qed.

Lemma wp_Servers ids (c : C) Q :
  (∀ e, Q (Err e) c) →
  (∀ infos, Forall2 (λ id info, ∃ row, servers (part c) !! id = Some row ∧ info = server_info id row) ids infos →
     Q (Ok infos) c) →
  wp (Servers ids) c Q.
Proof.
  revert Q. induction ids as [|id ids IH]; intros Q He Hok; simpl.
  { apply wp_ret, Hok. constructor. }
  apply wp_bind, wp_pool_query; [done|]. destruct (servers (part c) !! id) as [row|] eqn:E; simpl; [|by apply wp_throw].
  apply wp_bind, IH; [done|]. intros infos Hf. apply wp_ret, Hok. constructor; eauto.
Qed.

End create_plan.
