(* ===== verification/UpgradeService.v ===== *)
(** * UpgradeService

    [internal/agentupgrade/service.go]: creating, pausing, resuming, cancelling and
    retrying upgrade plans, against the interface [UpgradeRepository].

    The main theorem is about the plan [createPlan] hands to the repository: the first
    server alone is batch 1, the others follow in batches of at most the requested
    size, every server occurs once, and every target moves its server to a strictly
    newer version the release has an artifact for. *)

From S2P Require Import Prelude GoStd Model World Schema Session AgentVersion UpgradeStore.

Definition selfUpgradeCapability : string := "self_upgrade_v1".

(** [slices.Contains] *)
Definition contains (l : list string) (x : string) : bool := bool_decide (x ∈ l).

Definition applyPlanDefaults (input : CreatePlanInput) : CreatePlanInput :=
  let input := if cp_BatchSize input =? 0 then input <| cp_BatchSize := 1 |> else input in
  let input := if cp_DrainTimeoutSeconds input =? 0 then input <| cp_DrainTimeoutSeconds := 3600 |> else input in
  let input := if cp_ReconnectTimeoutSeconds input =? 0 then input <| cp_ReconnectTimeoutSeconds := 120 |> else input in
  if cp_VerificationSeconds input =? 0 then input <| cp_VerificationSeconds := 30 |> else input.

(** The loop over the server ids: [seen] is the set of those before. *)
Fixpoint ids_valid (seen : gset string) (ids : list string) : bool :=
  match ids with
  | [] => true
  | id :: rest =>
    if bool_decide (TrimSpace id = "") || bool_decide (id ∈ seen) then false else ids_valid ({[id]} ∪ seen) rest
  end.

Definition validatePlanInput (input : CreatePlanInput) : bool :=
  negb (bool_decide (TrimSpace (cp_TargetReleaseID input) = "") || bool_decide (TrimSpace (cp_CreatedBy input) = "") ||
    bool_decide (cp_ServerIDs input = []) || (cp_BatchSize input <? 1) || (100 <? cp_BatchSize input) ||
    (cp_DrainTimeoutSeconds input <? 60) || (86400 <? cp_DrainTimeoutSeconds input) ||
    (cp_ReconnectTimeoutSeconds input <? 30) || (3600 <? cp_ReconnectTimeoutSeconds input) ||
    (cp_VerificationSeconds input <? 10) || (600 <? cp_VerificationSeconds input)) &&
  ids_valid ∅ (cp_ServerIDs input).

Definition hasArtifact (release : ReleaseInfo) (osName arch : string) : bool :=
  existsb (λ a, bool_decide (af_OS a = osName) && bool_decide (af_Arch a = arch)) (ri_Artifacts release).

Definition terminalTargetStatus (status : TargetStatus) : bool :=
  match status with
  | TargetSucceeded | TargetRolledBack | TargetManualIntervention | TargetCancelled => true
  | _ => false
  end.

Definition release_usable (release : ReleaseInfo) : bool :=
  bool_decide (ri_Status release = "available") && contains (ri_Capabilities release) selfUpgradeCapability.

Definition server_reachable (enabled : bool) (status : string) : bool :=
  enabled && (bool_decide (status = "online") || bool_decide (status = "draining")).

(** The checks on one server in the loop of [createPlan]. *)
Definition check_server (release : ReleaseInfo) (rollbackSource : option Target) (server : ServerInfo) : Result unit :=
  if negb (server_reachable (sf_Enabled server) (sf_Status server)) then Err ErrServerIneligible
  else if negb (contains (sf_Capabilities server) selfUpgradeCapability) then Err ErrUpgradeUnsupported
  else
    let versions : Result unit :=
      match rollbackSource with
      | Some source =>
        if negb (bool_decide (sf_ID server = t_ServerID source)) ||
           negb (bool_decide (sf_AgentVersion server = t_TargetVersion source))
        then Err ErrRollbackSourceChanged
        else if bool_decide (sf_AgentVersion server = ri_Version release) then Err ErrNoUpgradeNeeded
        else Ok tt
      | None =>
        match compareStableVersions (sf_AgentVersion server) (ri_Version release) with
        | None => Err ErrVersionNotComparable
        | Some comparison =>
          if comparison =? 0 then Err ErrNoUpgradeNeeded
          else if 0 <? comparison then Err ErrDowngradeNotAllowed
          else Ok tt
        end
      end in
    match versions with
    | Err e => Err e
    | Ok _ => if negb (hasArtifact release (sf_AgentOS server) (sf_AgentArch server)) then Err ErrArtifactUnavailable else Ok tt
    end.

Definition batch_number (batchSize index : Z) : Z :=
  if 0 <? index then 2 + (index - 1) / batchSize else 1.

Section service.
Context {C : Type} `{!UpgradeRepository C}.

(** The loop of [createPlan] over the servers. *)
Fixpoint plan_targets_for (planID : string) (release : ReleaseInfo) (rollbackSource : option Target) (batchSize : Z)
  (now : Time) (index : Z) (servers : list ServerInfo) : Prog C (list Target) :=
  match servers with
  | [] => ret []
  | server :: rest =>
    match check_server release rollbackSource server with
    | Err e => throw e
    | Ok _ =>
      let! commandID := new_uuid in
      let! targetID := new_uuid in
      let target := mkTarget targetID planID (sf_ID server) "" (batch_number batchSize index) (sf_AgentVersion server)
        (ri_Version release) (sf_Draining server) TargetWaiting 0 commandID commandID "" "" None now None in
      let! targets := plan_targets_for planID release rollbackSource batchSize now (index + 1) rest in
      ret (target :: targets)
    end
  end.

Definition createPlan (input : CreatePlanInput) (rollbackSource : option Target) : Prog C UpgradePlan :=
  let input := applyPlanDefaults input in
  if negb (validatePlanInput input) then throw ErrInvalidPlan
  else if match rollbackSource with
          | Some source => negb (bool_decide (t_Status source = TargetSucceeded)) ||
                           negb (bool_decide (cp_ServerIDs input = [t_ServerID source]))
          | None => false
          end then throw ErrInvalidTransition
  else
    let! active := repo_ActivePlan in
    match active with
    | Some _ => throw ErrActivePlanExists
    | None =>
      let! release := repo_Release (cp_TargetReleaseID input) in
      if negb (release_usable release) then throw ErrUpgradeUnsupported
      else if match rollbackSource with
              | Some source => negb (bool_decide (ri_Version release = t_SourceVersion source))
              | None => false
              end then throw ErrInvalidTransition
      else
        let! servers := repo_Servers (cp_ServerIDs input) in
        if negb (bool_decide (length servers = length (cp_ServerIDs input))) then throw ErrServerIneligible
        else
          let! now := clock_now in
          let! planID := new_uuid in
          let! targets := plan_targets_for planID release rollbackSource (cp_BatchSize input) now 0 servers in
          repo_CreatePlan (mkUpgradePlan planID (ri_ID release) (ri_Version release) PlanRunning 1 (cp_BatchSize input)
            (cp_DrainTimeoutSeconds input) (cp_ReconnectTimeoutSeconds input) (cp_VerificationSeconds input) 1 0 false
            (cp_CreatedBy input) "" now (Some now) None targets [])
    end.

Definition Service_CreatePlan (input : CreatePlanInput) : Prog C UpgradePlan := createPlan input None.

Definition Pause (id reason : string) : Prog C UpgradePlan :=
  let! plan := repo_Plan id in
  if bool_decide (p_Status plan = PlanPaused) then ret plan
  else if negb (bool_decide (p_Status plan = PlanPending)) && negb (bool_decide (p_Status plan = PlanRunning))
  then throw ErrInvalidTransition
  else repo_SavePlan (plan <| p_Status := PlanPaused |> <| p_PauseReason := TrimSpace reason |>).

Definition not_started (s : TargetStatus) : bool :=
  match s with TargetWaiting | TargetDraining => true | _ => false end.

(** The checks of [Resume] on one target that has not been installed. *)
Definition check_resume (release : ReleaseInfo) (servers : list ServerInfo) (target : Target) : Result unit :=
  if negb (not_started (t_Status target)) then Ok tt
  else
    (* the map built from the list: the last entry of an id wins *)
    match List.find (λ s, bool_decide (sf_ID s = t_ServerID target)) (reverse servers) with
    | None => Err ErrServerIneligible
    | Some server =>
      if negb (server_reachable (sf_Enabled server) (sf_Status server)) then Err ErrServerIneligible
      else if negb (contains (sf_Capabilities server) selfUpgradeCapability) then Err ErrUpgradeUnsupported
      else if negb (bool_decide (sf_AgentVersion server = t_SourceVersion target)) then Err ErrUpgradeSourceChanged
      else if negb (hasArtifact release (sf_AgentOS server) (sf_AgentArch server)) then Err ErrArtifactUnavailable
      else Ok tt
    end.

Fixpoint check_all (check : Target → Result unit) (targets : list Target) : Result unit :=
  match targets with
  | [] => Ok tt
  | t :: rest => match check t with Err e => Err e | Ok _ => check_all check rest end
  end.

Definition Resume (id : string) : Prog C UpgradePlan :=
  let! plan := repo_Plan id in
  if bool_decide (p_Status plan = PlanRunning) || bool_decide (p_Status plan = PlanPending) then ret plan
  else if negb (bool_decide (p_Status plan = PlanPaused)) then throw ErrInvalidTransition
  else if p_CancelRequested plan then throw ErrInvalidTransition
  else
    let! release := repo_Release (p_TargetReleaseID plan) in
    if negb (release_usable release) then throw ErrUpgradeUnsupported
    else
      let! servers := repo_Servers (t_ServerID <$> List.filter (λ t, not_started (t_Status t)) (p_Targets plan)) in
      match check_all (check_resume release servers) (p_Targets plan) with
      | Err e => throw e
      | Ok _ => repo_SavePlan (plan <| p_Status := PlanRunning |> <| p_PauseReason := "" |>)
      end.

Definition cancel_target (now : Time) (t : Target) : Target :=
  if bool_decide (t_Status t = TargetWaiting)
  then t <| t_Status := TargetCancelled |> <| t_UpdatedAt := now |> <| t_FinishedAt := Some now |>
  else t.

Definition Cancel (id : string) : Prog C UpgradePlan :=
  let! plan := repo_Plan id in
  if bool_decide (p_Status plan = PlanCancelled) || p_CancelRequested plan then ret plan
  else if negb (plan_active (p_Status plan)) then throw ErrInvalidTransition
  else
    let! now := clock_now in
    let started := existsb (λ t, negb (bool_decide (t_Status t = TargetWaiting)) &&
                                 negb (terminalTargetStatus (t_Status t))) (p_Targets plan) in
    let plan := plan <| p_Targets ::= fmap (cancel_target now) |> <| p_CancelRequested := true |> in
    repo_SavePlan
      (if started then plan <| p_Status := PlanPaused |> <| p_PauseReason := "计划已取消，正在完成已开始节点" |>
       else plan <| p_Status := PlanCancelled |> <| p_FinishedAt := Some now |>).

Definition in_progress (s : TargetStatus) : bool :=
  match s with
  | TargetDraining | TargetDownloading | TargetVerifying | TargetInstalling | TargetReconnecting
  | TargetHealthChecking => true
  | _ => false
  end.

(** [target.Attempts++] and the other assignments of [RetryTarget]. *)
Definition retried_target (commandID : string) (now : Time) (t : Target) : Target :=
  t <| t_Status := TargetDraining |> <| t_CommandID := commandID |> <| t_InstallCommandID := commandID |>
    <| t_Attempts := t_Attempts t + 1 |> <| t_ErrorCode := "" |> <| t_ErrorMessage := "" |>
    <| t_FinishedAt := None |> <| t_UpdatedAt := now |>.

Definition find_target (targets : list Target) (targetID : string) : option (nat * Target) :=
  list_find (λ t, t_ID t = targetID) targets.

Definition RetryTarget (planID targetID : string) : Prog C UpgradePlan :=
  let! plan := repo_Plan planID in
  if p_CancelRequested plan then throw ErrInvalidTransition
  else
    match find_target (p_Targets plan) targetID with
    | None => throw ErrTargetNotFound
    | Some (index, target) =>
      if in_progress (t_Status target) then ret plan
      else if negb (bool_decide (t_Status target = TargetRolledBack)) &&
              negb (bool_decide (t_Status target = TargetManualIntervention)) then throw ErrInvalidTransition
      else
        let! servers := repo_Servers [t_ServerID target] in
        match servers with
        | [server] =>
          if negb (bool_decide (sf_ID server = t_ServerID target)) then throw ErrServerIneligible
          else if negb (bool_decide (sf_AgentVersion server = t_SourceVersion target)) then throw ErrUpgradeSourceChanged
          else
            let! commandID := new_uuid in
            let! now := clock_now in
            repo_SavePlan (plan <| p_Targets ::= <[index := retried_target commandID now target]> |>
                                <| p_Status := PlanRunning |> <| p_PauseReason := "" |>)
        | _ => throw ErrServerIneligible
        end
    end.

Definition CreateRollbackPlan (planID targetID actorID : string) : Prog C UpgradePlan :=
  let! original := repo_Plan planID in
  match find_target (p_Targets original) targetID with
  | None => throw ErrTargetNotFound
  | Some (_, source) =>
    if bool_decide (t_Status source = TargetRollingBack) || bool_decide (t_Status source = TargetRolledBack)
    then ret original
    else if negb (bool_decide (t_Status source = TargetSucceeded)) then throw ErrInvalidTransition
    else
      let! release := repo_ReleaseByVersion (t_SourceVersion source) in
      let! active := repo_ActivePlan in
      match active with
      | Some _ => throw ErrActivePlanExists
      | None =>
        if bool_decide (p_Status original = PlanSucceeded) || bool_decide (p_Status original = PlanCancelled)
        then createPlan (mkCreatePlanInput (ri_ID release) [t_ServerID source] 1 (p_DrainTimeoutSeconds original)
               (p_ReconnectTimeoutSeconds original) (p_VerificationSeconds original) actorID) (Some source)
        else throw ErrInvalidTransition
      end
  end.

End service.

(** ** The created plan *)

Definition at_most {A} (n : Z) (l : list A) : Prop := Z.of_nat (length l) ≤ n.

(** The batches of [n] targets: numbers only, by position. *)
Lemma batch_count size n b :
  1 ≤ size →
  at_most (if b =? 1 then 1 else size) (filter (λ i : nat, batch_number size (Z.of_nat i) = b) (seq 0 n)).
Proof.
  intros Hs. set (k := Z.to_nat ((b - 2) * size + 1)).
  assert (filter (λ i : nat, batch_number size (Z.of_nat i) = b) (seq 0 n) ⊆+
          (if b =? 1 then [0%nat] else seq k (Z.to_nat size))) as Hsub.
  { apply NoDup_submseteq; [apply NoDup_filter, NoDup_seq|]. intros i [Hi _]%list_elem_of_filter.
    unfold batch_number in Hi. destruct (Z.ltb_spec 0 (Z.of_nat i)) as [Hpos|Hneg].
    - pose proof (Z.div_mod (Z.of_nat i - 1) size ltac:(lia)). pose proof (Z.mod_pos_bound (Z.of_nat i - 1) size ltac:(lia)).
      pose proof (Z.div_pos (Z.of_nat i - 1) size ltac:(lia) ltac:(lia)).
      assert ((b =? 1) = false) as -> by lia. apply elem_of_seq.
      assert (b - 2 = (Z.of_nat i - 1) / size) as Hb by lia. unfold k. rewrite Hb. nia.
    - assert (i = 0%nat) as -> by lia. subst b. apply list_elem_of_here. }
  apply submseteq_length in Hsub. unfold at_most. destruct (b =? 1); [simpl in Hsub; lia|].
  rewrite length_seq in Hsub. lia.
Qed.

(** Batches are filled in order: a target of a later batch has one before it. *)
Lemma batch_previous size i :
  1 ≤ size → 1 < batch_number size (Z.of_nat i) →
  ∃ j, (j < i)%nat ∧ batch_number size (Z.of_nat j) = batch_number size (Z.of_nat i) - 1.
Proof.
  intros Hs Hb. unfold batch_number in *. destruct (Z.ltb_spec 0 (Z.of_nat i)) as [Hpos|?]; [|lia].
  pose proof (Z.div_pos (Z.of_nat i - 1) size ltac:(lia) ltac:(lia)) as Hq.
  destruct (decide ((Z.of_nat i - 1) / size = 0)) as [H0|H0].
  - exists 0%nat. simpl. lia.
  - pose proof (Z.div_mod (Z.of_nat i - 1) size ltac:(lia)) as Hdm.
    pose proof (Z.mod_pos_bound (Z.of_nat i - 1) size ltac:(lia)).
    assert (size ≤ Z.of_nat i - 1) as Hge by nia.
    exists (Z.to_nat (Z.of_nat i - size)). split; [lia|].
    rewrite (proj2 (Z.ltb_lt 0 _)) by lia.
    replace (Z.of_nat (Z.to_nat (Z.of_nat i - size)) - 1) with (Z.of_nat i - 1 + (-1) * size) by lia.
    rewrite Z.div_add by lia. lia.
Qed.

(** What the loop makes of a server. *)
Definition target_planned (planID : string) (release : ReleaseInfo) (source : option Target) (server : ServerInfo)
  (t : Target) : Prop :=
  check_server release source server = Ok tt ∧ t_PlanID t = planID ∧ t_ServerID t = sf_ID server ∧
  t_SourceVersion t = sf_AgentVersion server ∧ t_TargetVersion t = ri_Version release ∧
  t_SourceDraining t = sf_Draining server ∧ t_Status t = TargetWaiting ∧ t_InstallCommandID t = t_CommandID t.

Lemma wp_plan_targets {C} `{!UpgradeRepository C} planID release source size now index servers (c : C)
    (Q : Result (list Target) → C → Prop) :
  (∀ e, Q (Err e) c) →
  (∀ targets, Forall2 (target_planned planID release source) servers targets →
     t_BatchNumber <$> targets = (λ i, batch_number size (index + Z.of_nat i)) <$> seq 0 (length servers) →
     Q (Ok targets) c) →
  wp (plan_targets_for planID release source size now index servers) c Q.
Proof.
  revert index Q. induction servers as [|server rest IH]; intros index Q He Hok; simpl.
  { apply wp_ret. apply Hok; [constructor|done]. }
  destruct (check_server release source server) as [[]|e] eqn:Ec; [|by apply wp_throw].
  apply wp_bind, wp_new_uuid; [done|]. intros commandID. apply wp_bind, wp_new_uuid; [done|]. intros targetID.
  apply wp_bind, IH; [done|]. intros targets Hf Hb. apply wp_ret, Hok.
  - constructor; [by repeat split|done].
  - rewrite fmap_cons, Hb. simpl. f_equal; [by rewrite Z.add_0_r|].
    rewrite <-fmap_S_seq, <-list_fmap_compose. apply list_fmap_ext. intros i x _. simpl. f_equal. lia.
Qed.

(** A plan as [createPlan] makes it from a validated request, on the tables [d]. *)
Record planned (input : CreatePlanInput) (source : option Target) (d : DB) (plan : UpgradePlan) : Prop := {
  planned_running : p_Status plan = PlanRunning ∧ p_CurrentBatch plan = 1 ∧ p_CancelRequested plan = false;
  planned_servers : t_ServerID <$> p_Targets plan = cp_ServerIDs input;
  planned_once : NoDup (cp_ServerIDs input);
  planned_targets : ∀ t, t ∈ p_Targets plan → ∃ row, servers d !! t_ServerID t = Some row ∧
    server_reachable (se_enabled row) (se_status row) = true ∧
    contains (se_agent_capabilities row) selfUpgradeCapability = true ∧
    t_Status t = TargetWaiting ∧ t_SourceVersion t = se_agent_version row ∧ t_TargetVersion t = p_TargetVersion plan ∧
    (source = None → compareStableVersions (t_SourceVersion t) (t_TargetVersion t) = Some (-1)) ∧
    (∀ s, source = Some s → t_ServerID t = t_ServerID s ∧ t_SourceVersion t = t_TargetVersion s ∧
       t_TargetVersion t = t_SourceVersion s ∧ t_SourceVersion t ≠ t_TargetVersion t);
  planned_canary : (t_BatchNumber <$> head (p_Targets plan)) = Some 1;
  planned_batches : ∀ b, at_most (if b =? 1 then 1 else p_BatchSize plan) (filter (λ t, t_BatchNumber t = b) (p_Targets plan));
  planned_contiguous : ∀ t, t ∈ p_Targets plan → 1 < t_BatchNumber t →
    ∃ t', t' ∈ p_Targets plan ∧ t_BatchNumber t' = t_BatchNumber t - 1
}.

Lemma ids_valid_spec seen ids : ids_valid seen ids = true → NoDup ids ∧ ∀ id, id ∈ ids → id ∉ seen.
Proof.
  revert seen. induction ids as [|id ids IH]; intros seen; simpl.
  { intros _. split; [constructor|]. by intros id ?%elem_of_nil. }
  destruct (_ || _) eqn:E; [done|]. apply orb_false_iff in E as [_ E%bool_decide_eq_false].
  intros [Hnd Hin]%IH. split; [constructor; [|done]|].
  - intros Hid. apply (Hin id Hid). set_solver.
  - intros x [->|Hx]%elem_of_cons; [done|]. specialize (Hin x Hx). set_solver.
Qed.

Lemma validatePlanInput_facts input :
  validatePlanInput input = true → 1 ≤ cp_BatchSize input ∧ cp_ServerIDs input ≠ [] ∧ NoDup (cp_ServerIDs input).
Proof.
  unfold validatePlanInput. rewrite andb_true_iff, negb_true_iff, !orb_false_iff, !Z.ltb_ge.
  intros [H Hids%ids_valid_spec]. split_and!; [lia| |apply Hids].
  destruct_and! H. by eapply bool_decide_eq_false.
Qed.

Lemma compare_parts_values a b : compare_parts a b = -1 ∨ compare_parts a b = 0 ∨ compare_parts a b = 1.
Proof.
  revert b. induction a as [|x a IH]; intros [|y b]; simpl; auto.
  unfold strings_Compare. repeat case_match; auto.
Qed.

(** An accepted server is reachable, capable, and moves in the allowed direction. *)
Lemma check_server_facts release source server :
  check_server release source server = Ok tt →
  server_reachable (sf_Enabled server) (sf_Status server) = true ∧
  contains (sf_Capabilities server) selfUpgradeCapability = true ∧
  (source = None → compareStableVersions (sf_AgentVersion server) (ri_Version release) = Some (-1)) ∧
  (∀ s, source = Some s → sf_ID server = t_ServerID s ∧ sf_AgentVersion server = t_TargetVersion s ∧
     sf_AgentVersion server ≠ ri_Version release).
Proof.
  unfold check_server. destruct (server_reachable _ _); [|done]. destruct (contains _ _); [|done]. cbv zeta.
  destruct source as [s|]; cbn [negb].
  - destruct (_ || _) eqn:E; [done|]. apply orb_false_iff in E as [E1 E2].
    apply negb_false_iff, bool_decide_eq_true in E1, E2. case_bool_decide; [done|]. intros _.
    split_and!; [done..|]. by intros s' [= <-].
  - unfold compareStableVersions.
    destruct (stableVersionParts (sf_AgentVersion server)) as [a|]; [|done].
    destruct (stableVersionParts (ri_Version release)) as [b|]; [|done].
    by destruct (compare_parts_values a b) as [->|[->| ->]].
Qed.

Lemma planned_ids d planID release source ids infos targets :
  Forall2 (λ id info, ∃ row, servers d !! id = Some row ∧ info = server_info id row) ids infos →
  Forall2 (target_planned planID release source) infos targets → t_ServerID <$> targets = ids.
Proof.
  intros Hs. revert targets. induction Hs as [|id info ids infos (row & _ & ->) _ IH]; intros targets Ht.
  - by apply Forall2_nil_inv_l in Ht as ->.
  - apply Forall2_cons_inv_l in Ht as (t & rest & Hp & Ht & ->). simpl. f_equal; [apply Hp|by apply IH].
Qed.

Lemma planned_intro input source d release now planID targets infos :
  validatePlanInput input = true →
  (∀ s, source = Some s → ri_Version release = t_SourceVersion s) →
  Forall2 (λ id info, ∃ row, servers d !! id = Some row ∧ info = server_info id row) (cp_ServerIDs input) infos →
  Forall2 (target_planned planID release source) infos targets →
  t_BatchNumber <$> targets = (λ i, batch_number (cp_BatchSize input) (0 + Z.of_nat i)) <$> seq 0 (length infos) →
  planned input source d (mkUpgradePlan planID (ri_ID release) (ri_Version release) PlanRunning 1 (cp_BatchSize input)
    (cp_DrainTimeoutSeconds input) (cp_ReconnectTimeoutSeconds input) (cp_VerificationSeconds input) 1 0 false
    (cp_CreatedBy input) "" now (Some now) None targets []).
Proof.
  intros Hv Hsrc Hs Ht Hb. destruct (validatePlanInput_facts _ Hv) as (Hsize & Hne & Hnd).
  assert (∀ t, t ∈ targets → ∃ k, t_BatchNumber t = batch_number (cp_BatchSize input) (Z.of_nat k) ∧ (k < length infos)%nat) as Hpos.
  { intros t Hin. apply list_elem_of_lookup in Hin as [k Hk]. exists k.
    pose proof (f_equal (.!! k) Hb) as E. simpl in E. rewrite list_lookup_fmap, Hk in E. simpl in E.
    symmetry in E. apply list_lookup_fmap_Some in E as (j & -> & Hj). apply lookup_seq in Hj as [-> ?]. by rewrite Z.add_0_l. }
  split; simpl.
  - done.
  - by eapply planned_ids.
  - done.
  - intros t Hin. apply list_elem_of_lookup in Hin as [k Hk].
    destruct (Forall2_lookup_r _ _ _ _ _ Ht Hk) as (info & Hinfo & Hc & _ & E1 & E2 & E3 & _ & E4 & _).
    destruct (Forall2_lookup_r _ _ _ _ _ Hs Hinfo) as (id & Hid & row & Hrow & ->).
    destruct (check_server_facts _ _ _ Hc) as (F1 & F2 & F3 & F4). simpl in *.
    exists row. rewrite E1, E2, E3. split_and!; try done. intros s Es. destruct (F4 s Es) as (G1 & G2 & G3).
    rewrite (Hsrc s Es) in *. done.
  - destruct targets as [|t targets]; [|].
    + apply Forall2_nil_inv_r in Ht as ->. by apply Forall2_nil_inv_r in Hs.
    + apply Forall2_cons_inv_r in Ht as (info & infos' & _ & _ & ->). simpl in *. injection Hb as Hb _. by rewrite Hb.
  - intros b. pose proof (batch_count (cp_BatchSize input) (length infos) b Hsize) as H. unfold at_most in *.
    rewrite <-(length_filter_fmap (λ i, batch_number (cp_BatchSize input) (Z.of_nat i)) (λ x, x = b)) in H.
    change (λ i, batch_number (cp_BatchSize input) (Z.of_nat i)) with
      (λ i : nat, batch_number (cp_BatchSize input) (0 + Z.of_nat i)) in H.
    rewrite <-Hb, (length_filter_fmap t_BatchNumber (λ x, x = b)) in H. exact H.
  - intros t Hin Hgt. destruct (Hpos t Hin) as (k & Hk & Hlt). rewrite Hk in *.
    destruct (batch_previous _ _ Hsize Hgt) as (j & Hj & Ej).
    destruct (lookup_lt_is_Some_2 targets j) as [t' Ht'].
    { rewrite <-(Forall2_length _ _ _ Ht). lia. }
    exists t'. split; [by eapply list_elem_of_lookup_2|].
    pose proof (f_equal (.!! j) Hb) as E. simpl in E. rewrite !list_lookup_fmap, Ht', lookup_seq_lt in E by lia.
    simpl in E. injection E as E. rewrite E, Z.add_0_l. done.
Qed.

Section create.
Context {C : Type} `{!Has DB C} (publicBaseURL : string).

#[local] Instance repository : UpgradeRepository C := PostgresRepository publicBaseURL.

Lemma wp_releaseBy predicate (c : C) Q :
  (∀ e, Q (Err e) c) →
  (∀ id row artifacts, List.find predicate (map_to_list (agent_releases (upgrades (part c)))) = Some (id, row) →
     Q (Ok (mkReleaseInfo id (re_version row) (re_status row) (re_capabilities row) artifacts)) c) →
  wp (releaseBy publicBaseURL predicate) c Q.
Proof.
  intros He Hok. unfold releaseBy. apply wp_bind, wp_pool_query; [done|].
  destruct (List.find _ _) as [[id row]|] eqn:E; [|by apply wp_throw].
  apply wp_bind, wp_pool_query; [done|]. apply wp_ret. by apply Hok.
Qed.

(** An upgrade plan is created whole or not at all.  A created plan runs from
    batch 1, has each requested server exactly once, the first server alone in batch 1
    and the others in consecutive batches of at most the requested size; every server is
    enabled, connected and capable; a normal plan moves every server to a strictly newer
    version, and a rollback plan only undoes the given upgrade.  It is refused while
    another plan is active. *)
Theorem createPlan_correct input source :
  db_spec (C := C) (createPlan input source) (λ d r d',
    (d' = d ∧ is_ok r = false) ∨
    ∃ plan, plan_created plan d d' ∧ planned (applyPlanDefaults input) source d plan ∧
      p_TargetReleaseID plan = cp_TargetReleaseID input ∧ select_active d = None).
Proof.
  intros c. set (Q := λ (r : Result UpgradePlan) (c' : C), c' = set_part (part c') c ∧ _).
  assert (∀ e, Q (Err e) c) as He by (intros e; split; [by rewrite set_part_same|left; done]).
  unfold createPlan. cbv zeta. destruct (validatePlanInput _) eqn:Hv; cbn [negb]; [|by apply wp_throw].
  destruct (match source with Some _ => _ | None => _ end) eqn:Hs1; [by apply wp_throw|clear Hs1].
  apply wp_bind, wp_ActivePlan; [done| |intros; by apply wp_throw]. intros Hactive.
  apply wp_bind, wp_releaseBy; [done|]. intros rid row artifacts Hfind.
  apply find_some in Hfind as [_ Hid%bool_decide_eq_true]. simpl in Hid.
  set (release := mkReleaseInfo _ _ _ _ _) in *. destruct (negb (release_usable release)); [by apply wp_throw|].
  destruct (match source with Some _ => _ | None => _ end) eqn:Hs2; [by apply wp_throw|].
  apply wp_bind, wp_Servers; [done|]. intros infos Hinfos. destruct (negb _); [by apply wp_throw|].
  apply wp_bind, wp_clock_now. intros now. apply wp_bind, wp_new_uuid; [done|]. intros planID.
  apply wp_bind, wp_plan_targets; [done|]. intros targets Ht Hb.
  set (plan := mkUpgradePlan _ _ _ _ _ _ _ _ _ _ _ _ _ _ _ _ _ _ _).
  assert (planned (applyPlanDefaults input) source (part c) plan) as Hp.
  { apply (planned_intro _ source (part c) release now planID targets infos); try done.
    intros s ->. by apply negb_false_iff, bool_decide_eq_true in Hs2. }
  assert (p_TargetReleaseID plan = cp_TargetReleaseID input) as Hrel.
  { simpl. rewrite Hid. unfold applyPlanDefaults. by repeat case_match. }
  eapply wp_mono; [apply CreatePlan_spec|]. intros r c' [Hc' Hpost]. split; [exact Hc'|].
  destruct r as [saved|e]; simpl in Hpost; [right; by exists plan|].
  assert (part c' = part c ∨ plan_created plan (part c) (part c')) as [->|Hcr] by (destruct e; auto).
  - by left.
  - right. by exists plan.
Qed.

End create.
