(* ===== verification/UpgradeCoordinator.v ===== *)
(** * UpgradeCoordinator

    [internal/agentupgrade/coordinator.go]: the state machine that drives a plan.
    [Scan] visits the targets of the current batch in order, threading the plan it
    mutates, the commands to send and the flags of the loop; [ApplyUpgradeEvent] and
    [ObserveHeartbeat] react to the agents.

    The theorems hold for every implementation of the repository and of the sender:
    whatever they return, a target only moves along [target_step], targets outside the
    current batch are left alone by [Scan], and the batch advances only after every
    target of it has succeeded. *)

From S2P Require Import Prelude GoStd GoFloat Model World Schema Session RunEvents AgentVersion UpgradeStore UpgradeService.

(** [now.Sub(t)] saturates at the bounds of [time.Duration]. *)
Definition time_sub (a b : Time) : Duration := Z.max int64_min (Z.min int64_max (a - b)).

(** [time.Duration(n) * time.Second] *)
Definition in_seconds (n : Z) : Duration := wrap64 (n * second).

Definition source_changed_text : string := "服务器当前版本已偏离该升级计划的原始版本，不能继续执行".

Record sentCommand : Type := mkSentCommand { cmd_serverID : string; cmd_command : UpgradeCommand }.

Definition installCommand (plan : UpgradePlan) (target : Target) (a : ArtifactInfo) : UpgradeCommand :=
  mkUpgradeCommand "" (t_CommandID target) (p_ID plan) (t_ID target) UpgradeInstall (t_SourceVersion target)
    (t_TargetVersion target) "" (af_DownloadURL a) (af_FileName a) (af_ByteSize a) (af_SHA256 a)
    (in_seconds (p_ReconnectTimeoutSeconds plan)).

Definition rollbackCommand (plan : UpgradePlan) (target : Target) : UpgradeCommand :=
  mkUpgradeCommand "" (t_CommandID target) (p_ID plan) (t_ID target) UpgradeRollback (t_TargetVersion target)
    (t_SourceVersion target) (t_InstallCommandID target) "" "" 0 "" (in_seconds (p_ReconnectTimeoutSeconds plan)).

Definition matchingArtifact (items : list ArtifactInfo) (osName arch : string) : option ArtifactInfo :=
  List.find (λ item, (bool_decide (osName = "") || bool_decide (af_OS item = osName)) &&
                     (bool_decide (arch = "") || bool_decide (af_Arch item = arch))) items.

Definition targetStatusForStage (stage : string) : option TargetStatus :=
  if bool_decide (stage = StageAccepted) then Some TargetDownloading
  else if bool_decide (stage = StageDownloading) then Some TargetDownloading
  else if bool_decide (stage = StageVerifying) then Some TargetVerifying
  else if bool_decide (stage = StageInstalling) then Some TargetInstalling
  else if bool_decide (stage = StageReconnecting) then Some TargetReconnecting
  else if bool_decide (stage = StageSucceeded) then Some TargetReconnecting
  else if bool_decide (stage = StageRollingBack) then Some TargetRollingBack
  else if bool_decide (stage = StageRolledBack) then Some TargetRolledBack
  else None.

(** The map [rank] of [forwardTransition]. *)
Definition rank (s : TargetStatus) : option Z :=
  match s with
  | TargetWaiting => Some 0 | TargetDraining => Some 1 | TargetDownloading => Some 2 | TargetVerifying => Some 3
  | TargetInstalling => Some 4 | TargetReconnecting => Some 5 | TargetHealthChecking => Some 6
  | TargetSucceeded => Some 7 | _ => None
  end.

Definition forwardTransition (current next : TargetStatus) : bool :=
  if bool_decide (current = next) then true
  else if bool_decide (current = TargetRollingBack) && bool_decide (next = TargetRolledBack) then true
  else match rank current, rank next with
       | Some currentRank, Some nextRank => currentRank <? nextRank
       | _, _ => false
       end.

Definition in_batch (batch : Z) (t : Target) : bool := t_BatchNumber t =? batch.

(** The loop of [batchSucceeded]: found one, and all found succeeded. *)
Definition batchSucceeded (plan : UpgradePlan) (batch : Z) : bool :=
  existsb (in_batch batch) (p_Targets plan) &&
  forallb (λ t, negb (in_batch batch t) || bool_decide (t_Status t = TargetSucceeded)) (p_Targets plan).

Definition hasBatch (plan : UpgradePlan) (batch : Z) : bool := existsb (in_batch batch) (p_Targets plan).

Definition allTargetsTerminal (plan : UpgradePlan) : bool :=
  forallb (λ t, terminalTargetStatus (t_Status t)) (p_Targets plan).

Definition runtimeAvailable (runtime : ServerRuntime) (targetVersion : string) (now : Time) : bool :=
  sr_Enabled runtime && (bool_decide (sr_Status runtime = "online") || bool_decide (sr_Status runtime = "draining")) &&
  bool_decide (sr_AgentVersion runtime = targetVersion) && sr_HasSnapshot runtime &&
  match sr_LastSeenAt runtime with Some seen => time_sub now seen <=? 15 * second | None => false end.

Definition withoutBatchCommands (commands : list sentCommand) (plan : UpgradePlan) (batch : Z) : list sentCommand :=
  List.filter (λ c, negb (existsb (λ t, in_batch batch t && bool_decide (uc_TargetID (cmd_command c) = t_ID t))
                            (p_Targets plan))) commands.

Definition markSourceVersionChanged (plan : UpgradePlan) (index : nat) (target : Target) (now : Time) : UpgradePlan :=
  plan <| p_Status := PlanPaused |> <| p_PauseReason := source_changed_text |>
       <| p_Targets ::= <[index := target <| t_Status := TargetManualIntervention |>
            <| t_ErrorCode := "source_version_changed" |> <| t_ErrorMessage := source_changed_text |>
            <| t_UpdatedAt := now |> <| t_FinishedAt := Some now |>]> |>.

(** A target [rollbackBatch] leaves as it is, and one whose server still runs the old
    version. *)
Definition rollback_skips (batch : Z) (t : Target) : bool :=
  negb (in_batch batch t) ||
  match t_Status t with
  | TargetCancelled | TargetRollingBack | TargetRolledBack | TargetManualIntervention => true
  | _ => false
  end.

Definition apply_failed (errorCode : string) : bool :=
  bool_decide (errorCode = "apply_start_failed") || bool_decide (errorCode = "apply_rolled_back") ||
  bool_decide (errorCode = "stage_failed").

Definition uninstalled (failedTargetID errorCode : string) (t : Target) : bool :=
  not_started (t_Status t) ||
  (bool_decide (t_ID t = failedTargetID) &&
   (match t_Status t with TargetDownloading | TargetVerifying => true | _ => false end || apply_failed errorCode)).

Definition rolled_back (now : Time) (t : Target) : Target :=
  t <| t_Status := TargetRolledBack |> <| t_UpdatedAt := now |> <| t_FinishedAt := Some now |>.

Definition rolling_back (commandID : string) (now : Time) (t : Target) : Target :=
  t <| t_Status := TargetRollingBack |> <| t_CommandID := commandID |> <| t_UpdatedAt := now |> <| t_FinishedAt := None |>.

Section coordinator.
Context {C : Type} `{!UpgradeRepository C, !UpgradeSender C}.

(** The loop of [rollbackBatch]: the new targets and the commands. *)
Fixpoint rollback_targets (plan : UpgradePlan) (batch : Z) (failedTargetID errorCode : string) (now : Time)
  (targets : list Target) : Prog C (list Target * list sentCommand) :=
  match targets with
  | [] => ret ([], [])
  | t :: rest =>
    if rollback_skips batch t then
      let! r := rollback_targets plan batch failedTargetID errorCode now rest in
      ret (t :: r.1, r.2)
    else if uninstalled failedTargetID errorCode t then
      let! r := rollback_targets plan batch failedTargetID errorCode now rest in
      ret (rolled_back now t :: r.1, r.2)
    else
      let! commandID := new_uuid in
      let t' := rolling_back commandID now t in
      let! r := rollback_targets plan batch failedTargetID errorCode now rest in
      ret (t' :: r.1, mkSentCommand (t_ServerID t') (rollbackCommand plan t') :: r.2)
  end.

Definition rollbackBatch (plan : UpgradePlan) (batch : Z) (failedTargetID errorCode : string) (now : Time) :
  Prog C (UpgradePlan * list sentCommand) :=
  let plan := plan <| p_Status := PlanPaused |> <| p_PauseReason := "当前批次升级失败，正在回滚" |> in
  let! r := rollback_targets plan batch failedTargetID errorCode now (p_Targets plan) in
  ret (plan <| p_Targets := r.1 |>, r.2).

(** ** Scan *)

(** The variables the loop of [Scan] mutates. *)
Record scanning : Type := mkScanning {
  sg_plan : UpgradePlan; sg_changed : bool; sg_commands : list sentCommand; sg_mayStartTarget : bool
}.

#[export] Instance eta_scanning : Eta scanning := λ s,
  mkScanning (sg_plan s) (sg_changed s) (sg_commands s) (sg_mayStartTarget s).

Definition put (index : nat) (t : Target) (s : scanning) : scanning :=
  s <| sg_plan ::= λ p, p <| p_Targets ::= <[index := t]> |> |> <| sg_changed := true |>.

Definition send (t : Target) (command : UpgradeCommand) (s : scanning) : scanning :=
  s <| sg_commands ::= λ l, l ++ [mkSentCommand (t_ServerID t) command] |>.

Definition pause (reason : string) (s : scanning) : scanning :=
  s <| sg_plan ::= λ p, p <| p_Status := PlanPaused |> <| p_PauseReason := reason |> |> <| sg_changed := true |>.

(** [withoutBatchCommands], [rollbackBatch], [changed = true]. *)
Definition fail_batch (target : Target) (errorCode : string) (now : Time) (s : scanning) : Prog C scanning :=
  let kept := withoutBatchCommands (sg_commands s) (sg_plan s) (t_BatchNumber target) in
  let! r := rollbackBatch (sg_plan s) (t_BatchNumber target) (t_ID target) errorCode now in
  ret (s <| sg_plan := r.1 |> <| sg_commands := kept ++ r.2 |> <| sg_changed := true |>).

Definition source_moved (index : nat) (target : Target) (now : Time) (s : scanning) : scanning :=
  s <| sg_plan := markSourceVersionChanged (sg_plan s) index target now |> <| sg_changed := true |>
    <| sg_mayStartTarget := false |>.

(** [case TargetDraining] *)
Definition scan_draining (now : Time) (index : nat) (target : Target) (s : scanning) : Prog C scanning :=
  let plan := sg_plan s in
  if negb (sg_mayStartTarget s) && negb (p_CancelRequested plan) then ret s
  else if match t_StartedAt target with
          | Some started => in_seconds (p_DrainTimeoutSeconds plan) <? time_sub now started
          | None => false
          end then ret (pause "服务器排空超时" s)
  else
    repo_SetServerDraining (t_ServerID target) true ;;!
    let! runtime := repo_ServerRuntime (t_ServerID target) in
    if negb (server_reachable (sr_Enabled runtime) (sr_Status runtime)) || (0 <? sr_RunningTasks runtime) then ret s
    else if negb (bool_decide (sr_AgentVersion runtime = t_SourceVersion target)) then ret (source_moved index target now s)
    else
      let! release := repo_Release (p_TargetReleaseID plan) in
      match matchingArtifact (ri_Artifacts release) (sr_AgentOS runtime) (sr_AgentArch runtime) with
      | None => throw ErrArtifactUnavailable
      | Some artifact =>
        let target' := target <| t_Status := TargetDownloading |> <| t_Attempts := t_Attempts target + 1 |>
                              <| t_UpdatedAt := now |> in
        ret (put index target' (send target' (installCommand plan target' artifact) s))
      end.

(** [case TargetDownloading, TargetVerifying, TargetInstalling] *)
Definition scan_installing (now : Time) (index : nat) (target : Target) (s : scanning) : Prog C scanning :=
  let plan := sg_plan s in
  let! runtime := repo_ServerRuntime (t_ServerID target) in
  if negb (bool_decide (sr_AgentVersion runtime = t_SourceVersion target)) &&
     negb (bool_decide (sr_AgentVersion runtime = t_TargetVersion target)) then ret (source_moved index target now s)
  else
    let! release := repo_Release (p_TargetReleaseID plan) in
    match matchingArtifact (ri_Artifacts release) (sr_AgentOS runtime) (sr_AgentArch runtime) with
    | None => throw ErrArtifactUnavailable
    | Some artifact => ret (send target (installCommand plan target artifact) s)
    end.

(** [case TargetHealthChecking] *)
Definition scan_checking (now : Time) (index : nat) (target : Target) (s : scanning) : Prog C scanning :=
  let plan := sg_plan s in
  let! runtime := repo_ServerRuntime (t_ServerID target) in
  if negb (runtimeAvailable runtime (t_TargetVersion target) now) then fail_batch target "health_check_failed" now s
  else if in_seconds (p_VerificationSeconds plan) <=? time_sub now (t_UpdatedAt target) then
    if negb match sr_LastSeenAt runtime with Some seen => t_UpdatedAt target <? seen | None => false end
    then fail_batch target "health_check_failed" now s
    else
      (if negb (t_SourceDraining target) then repo_SetServerDraining (t_ServerID target) false else ret tt) ;;!
      ret (put index (target <| t_Status := TargetSucceeded |> <| t_UpdatedAt := now |> <| t_FinishedAt := Some now |>) s)
  else ret s.

Definition manual_after_rollback (now : Time) (t : Target) : Target :=
  t <| t_Status := TargetManualIntervention |> <| t_ErrorCode := "rollback_timeout" |>
    <| t_ErrorMessage := "代理回滚后未在时限内重连" |> <| t_UpdatedAt := now |> <| t_FinishedAt := Some now |>.

(** One iteration of the loop. *)
Definition visit (now : Time) (index : nat) (s : scanning) : Prog C scanning :=
  match p_Targets (sg_plan s) !! index with
  | None => ret s
  | Some target =>
    if negb (in_batch (p_CurrentBatch (sg_plan s)) target) then ret s
    else
      match t_Status target with
      | TargetWaiting =>
        if negb (sg_mayStartTarget s) then ret s
        else ret (put index (target <| t_Status := TargetDraining |> <| t_StartedAt := Some now |> <| t_UpdatedAt := now |>) s)
      | TargetDraining => scan_draining now index target s
      | TargetDownloading | TargetVerifying | TargetInstalling => scan_installing now index target s
      | TargetReconnecting =>
        if in_seconds (p_ReconnectTimeoutSeconds (sg_plan s)) <=? time_sub now (t_UpdatedAt target)
        then fail_batch target "reconnect_timeout" now s
        else ret s
      | TargetHealthChecking => scan_checking now index target s
      | TargetRollingBack =>
        if in_seconds (p_ReconnectTimeoutSeconds (sg_plan s)) <=? time_sub now (t_UpdatedAt target)
        then ret (pause "代理回滚超时，需要人工处理" (put index (manual_after_rollback now target) s))
        else ret (send target (rollbackCommand (sg_plan s) target) s)
      | _ => ret s
      end
  end.

Fixpoint scan_targets (now : Time) (indices : list nat) (s : scanning) : Prog C scanning :=
  match indices with
  | [] => ret s
  | index :: rest => let! s' := visit now index s in scan_targets now rest s'
  end.

(** After the loop: finish a cancelled plan, advance the batch or finish the plan. *)
Definition conclude (now : Time) (s : scanning) : scanning :=
  let plan := sg_plan s in
  if p_CancelRequested plan && allTargetsTerminal plan then
    s <| sg_plan := plan <| p_Status := PlanCancelled |> <| p_FinishedAt := Some now |> |> <| sg_changed := true |>
  else if sg_mayStartTarget s && batchSucceeded plan (p_CurrentBatch plan) then
    if hasBatch plan (p_CurrentBatch plan + 1) then
      s <| sg_plan := plan <| p_CurrentBatch := p_CurrentBatch plan + 1 |> |> <| sg_changed := true |>
    else s <| sg_plan := plan <| p_Status := PlanSucceeded |> <| p_FinishedAt := Some now |> |> <| sg_changed := true |>
  else s.

Definition may_start (plan : UpgradePlan) : bool :=
  (bool_decide (p_Status plan = PlanRunning) || bool_decide (p_Status plan = PlanPending)) && negb (p_CancelRequested plan).

(** The loop of [Scan] and its conclusion. *)
Definition scan_plan (now : Time) (plan : UpgradePlan) : Prog C scanning :=
  let! s := scan_targets now (seq 0 (length (p_Targets plan))) (mkScanning plan false [] (may_start plan)) in
  ret (conclude now s).

Definition send_all (commands : list sentCommand) : Prog C unit :=
  for_each commands (λ c, SendUpgradeCommand (cmd_serverID c) (cmd_command c)).

Definition Scan : Prog C unit :=
  let! active := repo_ActivePlan in
  match active with
  | None => ret tt
  | Some plan =>
    if negb (plan_active (p_Status plan)) then ret tt
    else
      let! now := clock_now in
      let! s := scan_plan now plan in
      (if sg_changed s then repo_SavePlan (sg_plan s) ;;! ret tt else ret tt) ;;!
      send_all (sg_commands s)
  end.

(** ** Events of the agents *)

(** The target of the active plan that the message is about, with its index. *)
Definition matchTarget (serverID targetID commandID : string) : Prog C (option (UpgradePlan * nat * Target)) :=
  let! active := catch repo_ActivePlan in
  match active with
  | Ok (Some plan) =>
    ret ((λ p, (plan, p.1, p.2)) <$> list_find (λ t, t_ID t = targetID ∧ t_ServerID t = serverID ∧ t_CommandID t = commandID)
                                      (p_Targets plan))
  | _ => ret None
  end.

(** [SavePlan] with [tolerateConcurrentUpdate], then the continuation. *)
Definition save_then (plan : UpgradePlan) (k : Prog C unit) : Prog C unit :=
  let! saved := catch (repo_SavePlan plan) in
  match saved with
  | Ok _ => k
  | Err ErrInvalidTransition => ret tt
  | Err e => throw e
  end.

Definition rollback_failed (event : UpgradeEvent) (now : Time) (t : Target) : Target :=
  t <| t_Status := TargetManualIntervention |> <| t_ErrorCode := ue_ErrorCode event |>
    <| t_ErrorMessage := ue_Message event |> <| t_UpdatedAt := now |>.

Definition stage_reached (event : UpgradeEvent) (status : TargetStatus) (now : Time) (t : Target) : Target :=
  let t := t <| t_Status := status |> <| t_UpdatedAt := now |> in
  let t := if bool_decide (status = TargetRolledBack) then t <| t_FinishedAt := Some now |> else t in
  t <| t_ErrorCode := ue_ErrorCode event |> <| t_ErrorMessage := ue_Message event |>.

(** What [ApplyUpgradeEvent] does about an event for [target]. *)
Definition apply_event (serverID : string) (event : UpgradeEvent) (plan : UpgradePlan) (index : nat) (target : Target)
  (now : Time) : Prog C unit :=
  let occurredAt := if is_zero_time (ue_OccurredAt event) then now else ue_OccurredAt event in
  let persistEvent : Prog C unit :=
    let! id := new_uuid in
    repo_AppendEvent (mkPlanEvent id (p_ID plan) (t_ID target) serverID (ue_CommandID event) (ue_Stage event)
      (ue_ErrorCode event) (ue_Message event) occurredAt) in
  if bool_decide (ue_Stage event = StageFailed) then
    if bool_decide (ue_ErrorCode event = "rollback_failed") || bool_decide (t_Status target = TargetRollingBack) then
      catch (repo_SetServerDraining serverID true) ;;!
      save_then (plan <| p_Targets ::= <[index := rollback_failed event now target]> |> <| p_Status := PlanPaused |>
                      <| p_PauseReason := "代理回滚失败，需要人工处理" |>) persistEvent
    else
      let! r := rollbackBatch plan (t_BatchNumber target) (t_ID target) (ue_ErrorCode event) now in
      save_then r.1 (persistEvent ;;! send_all r.2)
  else if bool_decide (t_Status target = TargetRollingBack) &&
          (bool_decide (ue_Stage event = StageReconnecting) || bool_decide (ue_Stage event = StageSucceeded))
  then persistEvent
  else
    match targetStatusForStage (ue_Stage event) with
    | None => throw ErrInvalidTransition
    | Some status =>
      if bool_decide (t_Status target = status) then persistEvent
      else if negb (forwardTransition (t_Status target) status) then ret tt
      else save_then (plan <| p_Targets ::= <[index := stage_reached event status now target]> |>) persistEvent
    end.

Definition ApplyUpgradeEvent (serverID : string) (event : UpgradeEvent) : Prog C unit :=
  let! found := matchTarget serverID (ue_TargetID event) (ue_CommandID event) in
  match found with
  | None => ret tt
  | Some (plan, index, target) =>
    let! now := clock_now in
    apply_event serverID event plan index target now
  end.

Definition ObserveHeartbeat (heartbeat : Heartbeat) : Prog C unit :=
  match hb_Upgrade heartbeat with
  | None => ret tt
  | Some upgrade =>
    let! found := matchTarget (hb_ServerID heartbeat) (us_TargetID upgrade) (us_CommandID upgrade) in
    match found with
    | None => ret tt
    | Some (plan, index, target) =>
      let! now := clock_now in
      if bool_decide (t_Status target = TargetRollingBack) then
        if negb (bool_decide (hb_AgentVersion heartbeat = t_SourceVersion target)) then ret tt
        else repo_SavePlan (plan <| p_Targets ::= <[index := rolled_back now target]> |>) ;;! ret tt
      else if negb (bool_decide (t_Status target = TargetReconnecting)) then ret tt
      else if negb (bool_decide (hb_AgentVersion heartbeat = t_TargetVersion target)) then
        let! commandID := new_uuid in
        let target' := target <| t_Status := TargetRollingBack |> <| t_CommandID := commandID |> <| t_UpdatedAt := now |> in
        let plan' := plan <| p_Targets ::= <[index := target']> |> <| p_Status := PlanPaused |>
                          <| p_PauseReason := "代理重连版本不一致，正在回滚" |> in
        repo_SavePlan plan' ;;!
        SendUpgradeCommand (t_ServerID target) (rollbackCommand plan' target')
      else
        repo_SavePlan (plan <| p_Targets ::= <[index := target <| t_Status := TargetHealthChecking |>
                                                              <| t_UpdatedAt := now |>]> |>) ;;! ret tt
    end
  end.

End coordinator.

(** ** The moves of a scan *)

Definition installing (s : TargetStatus) : bool :=
  match s with TargetDownloading | TargetVerifying | TargetInstalling => true | _ => false end.

Definition under_way (s : TargetStatus) : bool :=
  match s with TargetReconnecting | TargetHealthChecking | TargetSucceeded => true | _ => installing s end.

(** What one scan may do to the status of a target of the current batch; [may] is
    whether the plan may start targets. *)
Inductive scan_move (may : bool) : TargetStatus → TargetStatus → Prop :=
| move_start : may = true → scan_move may TargetWaiting TargetDraining
| move_install : scan_move may TargetDraining TargetDownloading
| move_source_changed s :
    s = TargetDraining ∨ installing s = true → scan_move may s TargetManualIntervention
| move_verified : scan_move may TargetHealthChecking TargetSucceeded
| move_not_installed s : not_started s = true → scan_move may s TargetRolledBack
| move_roll_back s : under_way s = true → scan_move may s TargetRollingBack
| move_rollback_timeout : scan_move may TargetRollingBack TargetManualIntervention.

(** The fields of a target and of a plan that no scan changes. *)
Definition same_target (t t' : Target) : Prop :=
  t_ID t' = t_ID t ∧ t_PlanID t' = t_PlanID t ∧ t_ServerID t' = t_ServerID t ∧ t_BatchNumber t' = t_BatchNumber t ∧
  t_SourceVersion t' = t_SourceVersion t ∧ t_TargetVersion t' = t_TargetVersion t ∧
  t_SourceDraining t' = t_SourceDraining t ∧ t_InstallCommandID t' = t_InstallCommandID t.

Definition same_plan (p p' : UpgradePlan) : Prop :=
  p_ID p' = p_ID p ∧ p_TargetReleaseID p' = p_TargetReleaseID p ∧ p_CurrentBatch p' = p_CurrentBatch p ∧
  p_Revision p' = p_Revision p ∧ p_CancelRequested p' = p_CancelRequested p ∧
  p_ReconnectTimeoutSeconds p' = p_ReconnectTimeoutSeconds p ∧ p_DrainTimeoutSeconds p' = p_DrainTimeoutSeconds p ∧
  p_VerificationSeconds p' = p_VerificationSeconds p.

Definition target_scanned (batch : Z) (may : bool) (t t' : Target) : Prop :=
  same_target t t' ∧ (t_BatchNumber t ≠ batch → t' = t) ∧ rtc (scan_move may) (t_Status t) (t_Status t').

(** An install command for a target of the plan that is being installed. *)
Definition install_for (plan : UpgradePlan) (t : Target) (c : sentCommand) : Prop :=
  in_batch (p_CurrentBatch plan) t = true ∧ installing (t_Status t) = true ∧
  cmd_serverID c = t_ServerID t ∧ uc_TargetID (cmd_command c) = t_ID t ∧ uc_PlanID (cmd_command c) = p_ID plan ∧
  uc_SourceVersion (cmd_command c) = t_SourceVersion t ∧ uc_TargetVersion (cmd_command c) = t_TargetVersion t.

(** The invariant of the loop, with the targets before [i] visited. *)
Record scan_inv (plan : UpgradePlan) (i : nat) (s : scanning) : Prop := {
  si_plan : same_plan plan (sg_plan s);
  si_targets : Forall2 (target_scanned (p_CurrentBatch plan) (may_start plan)) (p_Targets plan) (p_Targets (sg_plan s));
  si_may : sg_mayStartTarget s = true → may_start plan = true;
  si_status : p_Status (sg_plan s) = p_Status plan ∨ p_Status (sg_plan s) = PlanPaused;
  si_installs : ∀ c, c ∈ sg_commands s → uc_Action (cmd_command c) = UpgradeInstall →
    ∃ j t, (j < i)%nat ∧ p_Targets (sg_plan s) !! j = Some t ∧ install_for (sg_plan s) t c
}.

Lemma same_target_refl t : same_target t t.
Proof. by repeat split. Qed.

Lemma target_scanned_step batch may t t1 t2 :
  target_scanned batch may t t1 → same_target t1 t2 → t_BatchNumber t1 = batch →
  t_Status t1 = t_Status t2 ∨ scan_move may (t_Status t1) (t_Status t2) → target_scanned batch may t t2.
Proof.
  intros (Hs & Hb & Hr) Hs' Hb1 Hm. split_and!.
  - unfold same_target in *. naive_solver congruence.
  - intros Hne. destruct Hs as (_ & _ & _ & E & _). congruence.
  - destruct Hm as [<-|Hm]; [done|]. by eapply rtc_r.
Qed.

Lemma Forall2_insert_right {A B} (P : A → B → Prop) l k i x y :
  Forall2 P l k → l !! i = Some x → P x y → Forall2 P l (<[i := y]> k).
Proof. intros H Hx Hy. rewrite <-(list_insert_id l i x Hx). by apply Forall2_insert. Qed.

Section scan_proofs.
Context {C : Type} `{!UpgradeRepository C, !UpgradeSender C}.
Implicit Types (plan : UpgradePlan) (s : scanning) (t : Target).

Lemma scan_inv_target plan i s j t :
  scan_inv plan i s → p_Targets (sg_plan s) !! j = Some t →
  ∃ t0, p_Targets plan !! j = Some t0 ∧ target_scanned (p_CurrentBatch plan) (may_start plan) t0 t.
Proof. intros H Ht. destruct (Forall2_lookup_r _ _ _ _ _ (si_targets _ _ _ H) Ht) as (t0 & ? & ?). eauto. Qed.

(** Visiting a target does nothing, changes the target itself, or rolls the batch back. *)
Lemma scan_inv_skip plan i s : scan_inv plan i s → scan_inv plan (S i) s.
Proof.
  intros H. split; [apply H..|]. intros c Hc Ha. destruct (si_installs _ _ _ H c Hc Ha) as (j & t & ? & ?).
  exists j, t. auto.
Qed.

Lemma install_for_mono plan plan' t c : same_plan plan plan' → install_for plan t c → install_for plan' t c.
Proof. unfold install_for. intros (-> & _ & -> & _). done. Qed.

Lemma scan_inv_put plan i s t t' :
  scan_inv plan i s → p_Targets (sg_plan s) !! i = Some t → in_batch (p_CurrentBatch (sg_plan s)) t = true →
  same_target t t' → scan_move (may_start plan) (t_Status t) (t_Status t') → scan_inv plan (S i) (put i t' s).
Proof.
  intros H Ht Hb Hs Hm. destruct (scan_inv_target _ _ _ _ _ H Ht) as (t0 & Ht0 & Hsc).
  assert (t_BatchNumber t = p_CurrentBatch plan) as Hb'.
  { unfold in_batch in Hb. apply Z.eqb_eq in Hb. by rewrite Hb, (proj1 (proj2 (proj2 (si_plan _ _ _ H)))). }
  split; simpl; [apply H| |apply H|apply H|].
  - eapply Forall2_insert_right; [apply H|done|]. eapply target_scanned_step; eauto.
  - intros c Hc Ha. destruct (si_installs _ _ _ H c Hc Ha) as (j & t1 & Hj & Ht1 & Hi).
    exists j, t1. split_and!; [lia| |done]. by rewrite list_lookup_insert_ne by lia.
Qed.

Lemma scan_inv_send plan i s t c :
  scan_inv plan (S i) s → p_Targets (sg_plan s) !! i = Some t →
  (uc_Action (cmd_command c) = UpgradeInstall → install_for (sg_plan s) t c) →
  scan_inv plan (S i) (s <| sg_commands ::= λ l, l ++ [c] |>).
Proof.
  intros H Ht Hc. split; simpl; [apply H..|]. intros c' [Hc'| ->%list_elem_of_singleton]%elem_of_app Ha.
  - by apply (si_installs _ _ _ H).
  - exists i, t. auto.
Qed.

Lemma scan_inv_flags plan i s (f : UpgradePlan → UpgradePlan) may :
  (∀ p, same_plan p (f p) ∧ p_Targets (f p) = p_Targets p ∧ (p_Status (f p) = p_Status p ∨ p_Status (f p) = PlanPaused)) →
  (may = true → sg_mayStartTarget s = true) →
  scan_inv plan i s → scan_inv plan i (s <| sg_plan ::= f |> <| sg_changed := true |> <| sg_mayStartTarget := may |>).
Proof.
  intros Hf Hmay H. destruct (Hf (sg_plan s)) as (Hp & Ht & Hst). split; simpl.
  - destruct (si_plan _ _ _ H) as (? & ? & ? & ? & ? & ? & ? & ?), Hp as (? & ? & ? & ? & ? & ? & ? & ?). split_and!; congruence.
  - rewrite Ht. apply H.
  - intros E. by apply H, Hmay.
  - destruct Hst as [->| ->]; [apply H|by right].
  - intros c Hc Ha. destruct (si_installs _ _ _ H c Hc Ha) as (j & t & ? & ? & ?). exists j, t. rewrite Ht.
    split_and!; [done|done|by eapply install_for_mono].
Qed.

(** What [rollbackBatch] does to a target; the last part for a failure in which the
    failed target was installed. *)
Definition rolled (batch : Z) (installed : bool) (t t' : Target) : Prop :=
  same_target t t' ∧ (t_BatchNumber t ≠ batch → t' = t) ∧
  (t_BatchNumber t = batch → t' = t ∨ (not_started (t_Status t) = true ∧ t_Status t' = TargetRolledBack) ∨
   (under_way (t_Status t) = true ∧
    (t_Status t' = TargetRollingBack ∨ (t_Status t' = TargetRolledBack ∧ installed = false)))).

Definition installed_failure (failedID errorCode : string) (targets : list Target) : bool :=
  forallb (λ t, negb (bool_decide (t_ID t = failedID)) || negb (installing (t_Status t))) targets &&
  negb (apply_failed errorCode).

Lemma rolled_one batch failedID errorCode commandID now t targets :
  t ∈ targets → rollback_skips batch t = false →
  rolled batch (installed_failure failedID errorCode targets) t
    (if uninstalled failedID errorCode t then rolled_back now t else rolling_back commandID now t).
Proof.
  intros Hin [Hb Hskip]%orb_false_iff. apply negb_false_iff, Z.eqb_eq in Hb.
  split; [by destruct (uninstalled _ _ _); repeat split|]. split; [done|]. intros _. right.
  destruct (uninstalled failedID errorCode t) eqn:Hun; simpl.
  2:{ right. split; [|by left]. unfold uninstalled in Hun. by destruct (t_Status t). }
  unfold uninstalled in Hun. destruct (not_started (t_Status t)) eqn:Hn; [by left|]. simpl in Hun. right.
  split; [by destruct (t_Status t)|]. right. split; [done|].
  apply andb_true_iff in Hun as [Hid Hun]. unfold installed_failure. apply andb_false_iff.
  destruct (apply_failed errorCode); [by right|]. left. rewrite orb_false_r in Hun.
  apply not_true_iff_false. rewrite forallb_forall. intros Hall.
  specialize (Hall t (proj1 (list_elem_of_In _ _) Hin)). rewrite Hid in Hall. by destruct (t_Status t).
Qed.

Lemma wp_rollback_targets plan batch failedID errorCode now all targets (c : C)
    (Q : Result (list Target * list sentCommand) → C → Prop) :
  targets ⊆ all → (∀ e, Q (Err e) c) →
  (∀ targets' commands, Forall2 (rolled batch (installed_failure failedID errorCode all)) targets targets' →
     Forall (λ c, uc_Action (cmd_command c) = UpgradeRollback) commands → Q (Ok (targets', commands)) c) →
  wp (rollback_targets plan batch failedID errorCode now targets) c Q.
Proof.
  revert Q. induction targets as [|t rest IH]; intros Q Hsub He Hok; simpl.
  { apply wp_ret, Hok; constructor. }
  assert (t ∈ all) as Ht by (apply Hsub, list_elem_of_here).
  assert (rest ⊆ all) as Hrest by (intros x Hx; apply Hsub; by apply list_elem_of_further).
  destruct (rollback_skips batch t) eqn:Hskip.
  { apply wp_bind, IH; [done|done|]. intros l cs Hl Hcs. apply wp_ret. apply Hok; [|done].
    constructor; [|done]. split; [apply same_target_refl|]. split; [done|by left]. }
  pose proof (λ commandID, rolled_one batch failedID errorCode commandID now t all Ht Hskip) as H0.
  destruct (uninstalled failedID errorCode t) eqn:Hun.
  - apply wp_bind, IH; [done|done|]. intros l cs Hl Hcs. apply wp_ret. apply Hok; [constructor; [exact (H0 "")|done]|done].
  - apply wp_bind, wp_new_uuid; [done|]. intros commandID. apply wp_bind, IH; [done|done|]. intros l cs Hl Hcs.
    apply wp_ret. apply Hok; [constructor; [apply H0|done]|by constructor].
Qed.

(** A failure of an installed target rolls its batch back. *)
Lemma wp_fail_batch plan i s t errorCode now (c : C) (Q : Result scanning → C → Prop) :
  scan_inv plan i s → p_Targets (sg_plan s) !! i = Some t → in_batch (p_CurrentBatch (sg_plan s)) t = true →
  installed_failure (t_ID t) errorCode (p_Targets (sg_plan s)) = true →
  (∀ e, Q (Err e) c) → (∀ s', scan_inv plan (S i) s' → Q (Ok s') c) → wp (fail_batch t errorCode now s) c Q.
Proof.
  intros H Ht Hb Hf He Hok. unfold fail_batch, rollbackBatch. cbv zeta. do 2 apply wp_bind.
  eapply wp_rollback_targets; [done|done|]. simpl. rewrite Hf. intros targets' commands Hr Hc.
  apply wp_ret, wp_ret, Hok. clear Hok He.
  apply Z.eqb_eq in Hb. assert (p_CurrentBatch (sg_plan s) = p_CurrentBatch plan) as Hcur by apply (si_plan _ _ _ H).
  split; simpl.
  - apply (si_plan _ _ _ H).
  - eapply Forall2_trans; [|apply H|exact Hr]. simpl. clear -Hb Hcur.
    intros t0 t1 t2 Hsc (Hs & Hne & Heq). destruct (decide (t_BatchNumber t1 = t_BatchNumber t)) as [E|E].
    + destruct (Heq E) as [->|Hst]; [done|]. eapply target_scanned_step; [done|done|congruence|]. right.
      destruct Hst as [[Hn ->]|[Hu [->|[_ ?]]]]; [by apply move_not_installed|by apply move_roll_back|done].
    + by rewrite (Hne E).
  - apply (si_may _ _ _ H).
  - by right.
  - intros cmd [Hin|Hin]%elem_of_app Ha.
    + apply list_elem_of_In, filter_In in Hin as [Hin Hkeep]. apply list_elem_of_In in Hin.
      destruct (si_installs _ _ _ H cmd Hin Ha) as (j & t1 & _ & Ht1 & Hbatch & _ & _ & Hid & _).
      apply negb_true_iff, not_true_iff_false in Hkeep. destruct Hkeep. apply existsb_exists. exists t1.
      split; [apply list_elem_of_In; by eapply list_elem_of_lookup_2|].
      rewrite andb_true_iff, bool_decide_eq_true. split; [|done]. by rewrite Hb.
    + rewrite Forall_forall in Hc. specialize (Hc _ Hin). congruence.
Qed.

(** Whatever a call to the repository returns. *)
Lemma wp_bind_any {A B} (m : Prog C A) (k : A → Prog C B) c Q :
  (∀ e c', Q (Err e) c') → (∀ a c', wp (k a) c' Q) → wp (bind m k) c Q.
Proof. intros He Hk. apply wp_bind. intros o. destruct (m (c, o)) as [[c' o'] [a|e]]; auto. Qed.

Definition result_inv (plan : UpgradePlan) (i : nat) (r : Result scanning) (c : C) : Prop :=
  ∀ s, r = Ok s → scan_inv plan i s.

Lemma result_err plan i e c : result_inv plan i (Err e) c.
Proof. done. Qed.

Lemma wp_result_ret plan i s c : scan_inv plan i s → wp (ret s) c (result_inv plan i).
Proof. intros H. apply wp_ret. by intros s' [= <-]. Qed.

Lemma scan_inv_ids plan i s : scan_inv plan i s → t_ID <$> p_Targets (sg_plan s) = t_ID <$> p_Targets plan.
Proof.
  intros H. destruct H as [_ Ht _ _ _]. induction Ht as [|t t' l l' [Hs _] _ IH]; [done|]. simpl. f_equal; [|done].
  apply Hs.
Qed.

Lemma installed_failure_intro plan i s t errorCode :
  NoDup (t_ID <$> p_Targets plan) → scan_inv plan i s → p_Targets (sg_plan s) !! i = Some t →
  installing (t_Status t) = false → apply_failed errorCode = false →
  installed_failure (t_ID t) errorCode (p_Targets (sg_plan s)) = true.
Proof.
  intros Hnd H Ht Hi Ha. unfold installed_failure. rewrite Ha, andb_true_r. apply forallb_forall. intros t' Hin.
  case_bool_decide as Hid; [|done]. simpl. apply list_elem_of_In, list_elem_of_lookup in Hin as [j Hj].
  rewrite <-(scan_inv_ids _ _ _ H) in Hnd.
  assert (i = j) as <-.
  { eapply NoDup_lookup; [exact Hnd|rewrite list_lookup_fmap, Ht; reflexivity|].
    rewrite list_lookup_fmap, Hj. simpl. by rewrite Hid. }
  assert (t' = t) as -> by congruence. by rewrite Hi.
Qed.

Lemma scan_inv_source_moved plan i s t now :
  scan_inv plan i s → p_Targets (sg_plan s) !! i = Some t → in_batch (p_CurrentBatch (sg_plan s)) t = true →
  t_Status t = TargetDraining ∨ installing (t_Status t) = true →
  scan_inv plan (S i) (source_moved i t now s).
Proof.
  intros H Ht Hb Hs.
  set (t' := t <| t_Status := TargetManualIntervention |> <| t_ErrorCode := "source_version_changed" |>
    <| t_ErrorMessage := source_changed_text |> <| t_UpdatedAt := now |> <| t_FinishedAt := Some now |>).
  pose proof (scan_inv_flags plan (S i) (put i t' s)
    (λ p, p <| p_Status := PlanPaused |> <| p_PauseReason := source_changed_text |>) false) as Hf.
  apply Hf; [intros p; by repeat split; try right|done|].
  eapply scan_inv_put; [done|done|done|by repeat split|]. by apply move_source_changed.
Qed.

Lemma scan_inv_pause plan i s reason : scan_inv plan i s → scan_inv plan i (pause reason s).
Proof.
  intros H. pose proof (scan_inv_flags plan i s (λ p, p <| p_Status := PlanPaused |> <| p_PauseReason := reason |>)
    (sg_mayStartTarget s)) as Hf. apply Hf; [|done|done]. intros p. by repeat split; try right.
Qed.

Lemma wp_scan_draining plan now i s t c :
  scan_inv plan i s → p_Targets (sg_plan s) !! i = Some t → in_batch (p_CurrentBatch (sg_plan s)) t = true →
  t_Status t = TargetDraining → wp (scan_draining now i t s) c (result_inv plan (S i)).
Proof.
  intros H Ht Hb Hs. pose proof (scan_inv_skip _ _ _ H) as Hskip. unfold scan_draining. cbv zeta.
  destruct (_ && _); [by apply wp_result_ret|]. destruct (match t_StartedAt t with Some _ => _ | None => _ end).
  { by apply wp_result_ret, scan_inv_pause. }
  apply wp_bind_any; [by intros|]. intros _ c1. apply wp_bind_any; [by intros|]. intros runtime c2.
  destruct (_ || _); [by apply wp_result_ret|]. destruct (negb _).
  { apply wp_result_ret. apply scan_inv_source_moved; auto. }
  apply wp_bind_any; [by intros|]. intros release c3. destruct (matchingArtifact _ _ _) as [a|]; [|by apply wp_throw].
  apply wp_result_ret. set (t' := t <| t_Status := TargetDownloading |> <| t_Attempts := _ |> <| t_UpdatedAt := now |>).
  assert (scan_inv plan (S i) (put i t' s)) as Hput.
  { eapply scan_inv_put; [done|done|done|by repeat split|]. rewrite Hs. apply move_install. }
  pose proof (scan_inv_send plan i (put i t' s) t' (mkSentCommand (t_ServerID t') (installCommand (sg_plan s) t' a)) Hput) as Hsend.
  apply Hsend.
  - simpl. apply list_lookup_insert_eq. by eapply lookup_lt_Some.
  - intros _. by repeat split.
Qed.

Lemma wp_scan_installing plan now i s t c :
  scan_inv plan i s → p_Targets (sg_plan s) !! i = Some t → in_batch (p_CurrentBatch (sg_plan s)) t = true →
  installing (t_Status t) = true → wp (scan_installing now i t s) c (result_inv plan (S i)).
Proof.
  intros H Ht Hb Hs. unfold scan_installing. cbv zeta. apply wp_bind_any; [by intros|]. intros runtime c1.
  destruct (_ && _). { apply wp_result_ret. apply scan_inv_source_moved; auto. }
  apply wp_bind_any; [by intros|]. intros release c2. destruct (matchingArtifact _ _ _) as [a|]; [|by apply wp_throw].
  apply wp_result_ret. apply (scan_inv_send plan i s t); [by apply scan_inv_skip|done|]. intros _. by repeat split.
Qed.

Lemma wp_scan_checking plan now i s t c :
  NoDup (t_ID <$> p_Targets plan) →
  scan_inv plan i s → p_Targets (sg_plan s) !! i = Some t → in_batch (p_CurrentBatch (sg_plan s)) t = true →
  t_Status t = TargetHealthChecking → wp (scan_checking now i t s) c (result_inv plan (S i)).
Proof.
  intros Hnd H Ht Hb Hs. unfold scan_checking. cbv zeta. apply wp_bind_any; [by intros|]. intros runtime c1.
  assert (∀ c', wp (fail_batch t "health_check_failed" now s) c' (result_inv plan (S i))) as Hfail.
  { intros c'. eapply wp_fail_batch; [done|done|done| |done|].
    - eapply installed_failure_intro; [done|done|done|by rewrite Hs|done].
    - by intros s' Hs' ? [= <-]. }
  destruct (negb _); [done|]. destruct (_ <=? _); [|by apply wp_result_ret, scan_inv_skip]. destruct (negb _); [done|].
  apply wp_bind_any; [by intros|]. intros _ c2. apply wp_result_ret.
  eapply scan_inv_put; [done|done|done|by repeat split|]. rewrite Hs. apply move_verified.
Qed.

Lemma wp_visit plan now i s c :
  NoDup (t_ID <$> p_Targets plan) → scan_inv plan i s → wp (visit now i s) c (result_inv plan (S i)).
Proof.
  intros Hnd H. pose proof (scan_inv_skip _ _ _ H) as Hskip. unfold visit.
  destruct (p_Targets (sg_plan s) !! i) as [t|] eqn:Ht; [|by apply wp_result_ret].
  destruct (in_batch _ t) eqn:Hb; cbn [negb]; [|by apply wp_result_ret].
  destruct (t_Status t) eqn:Hs; try (by apply wp_result_ret).
  - destruct (sg_mayStartTarget s) eqn:Hmay; cbn [negb]; [|by apply wp_result_ret]. apply wp_result_ret.
    eapply scan_inv_put; [done|done|done|by repeat split|]. rewrite Hs. apply move_start. by apply (si_may _ _ _ H).
  - by apply wp_scan_draining.
  - apply wp_scan_installing; by rewrite ?Hs.
  - apply wp_scan_installing; by rewrite ?Hs.
  - apply wp_scan_installing; by rewrite ?Hs.
  - destruct (_ <=? _); [|by apply wp_result_ret]. eapply wp_fail_batch; [exact H|exact Ht|exact Hb| |done|].
    + eapply installed_failure_intro; [exact Hnd|exact H|exact Ht|by rewrite Hs|done].
    + by intros s' Hs' ? [= <-].
  - by apply wp_scan_checking.
  - destruct (_ <=? _); apply wp_result_ret.
    + apply scan_inv_pause. eapply scan_inv_put; [done|done|done|by repeat split|]. rewrite Hs. apply move_rollback_timeout.
    + apply (scan_inv_send plan i s t); [done|done|]. done.
Qed.

Lemma wp_scan_targets plan now n i s c :
  NoDup (t_ID <$> p_Targets plan) → scan_inv plan i s →
  wp (scan_targets now (seq i n) s) c (result_inv plan (i + n)).
Proof.
  intros Hnd. revert i s c. induction n as [|n IH]; intros i s c H; simpl.
  { rewrite Nat.add_0_r. by apply wp_result_ret. }
  apply wp_bind. eapply wp_mono; [by apply wp_visit|]. intros [s'|e] c' Hr; [|done].
  rewrite Nat.add_succ_r. apply (IH (S i)). by apply Hr.
Qed.

Lemma scan_inv_start plan : scan_inv plan 0 (mkScanning plan false [] (may_start plan)).
Proof.
  split; simpl; [by repeat split| |done|by left|by intros c ?%elem_of_nil].
  apply Forall_Forall2_diag, Forall_forall. intros t _. split; [apply same_target_refl|]. by split.
Qed.

Lemma scan_moves_succeeded may a : rtc (scan_move may) a TargetSucceeded → a = TargetSucceeded ∨ a = TargetHealthChecking.
Proof.
  assert (∀ z, rtc (scan_move may) a z → z = TargetSucceeded → a = TargetSucceeded ∨ a = TargetHealthChecking) as Hgen;
    [|by intros H; apply (Hgen _ H)].
  intros z H. induction H as [a|a b z Hm _ IH]; [by left|].
  intros Hz. right. destruct (IH Hz) as [->| ->]; inversion Hm; done.
Qed.

(** Every target of the batch has succeeded. *)
Definition batch_done (batch : Z) (targets : list Target) : Prop :=
  ∀ t, t ∈ targets → t_BatchNumber t = batch → t_Status t = TargetSucceeded.

Lemma batchSucceeded_done plan batch : batchSucceeded plan batch = true → batch_done batch (p_Targets plan).
Proof.
  unfold batchSucceeded. intros [_ H]%andb_true_iff t Hin Hb. rewrite forallb_forall in H.
  specialize (H t (proj1 (list_elem_of_In _ _) Hin)). unfold in_batch in H.
  rewrite (proj2 (Z.eqb_eq _ _) Hb) in H. by apply bool_decide_eq_true in H.
Qed.

(** The result of a scan of [plan]. *)
Record scanned (plan : UpgradePlan) (s : scanning) : Prop := {
  (* targets outside the current batch are untouched, the others move along [scan_move] *)
  sd_targets : Forall2 (target_scanned (p_CurrentBatch plan) (may_start plan)) (p_Targets plan) (p_Targets (sg_plan s));
  (* success is reached only from the health check *)
  sd_success : ∀ j t t', p_Targets plan !! j = Some t → p_Targets (sg_plan s) !! j = Some t' →
    t_Status t' = TargetSucceeded → t_Status t = TargetSucceeded ∨ t_Status t = TargetHealthChecking;
  (* the next batch starts only when this one is done *)
  sd_batch : p_CurrentBatch (sg_plan s) = p_CurrentBatch plan ∨
    (p_CurrentBatch (sg_plan s) = p_CurrentBatch plan + 1 ∧ may_start plan = true ∧
     batch_done (p_CurrentBatch plan) (p_Targets (sg_plan s)));
  (* and the plan succeeds only after its last batch *)
  sd_finished : p_Status (sg_plan s) = PlanSucceeded → p_Status plan = PlanSucceeded ∨
    (may_start plan = true ∧ batch_done (p_CurrentBatch plan) (p_Targets (sg_plan s)) ∧
     hasBatch (sg_plan s) (p_CurrentBatch plan + 1) = false);
  (* only targets being installed in this batch are told to install *)
  sd_installs : ∀ c, c ∈ sg_commands s → uc_Action (cmd_command c) = UpgradeInstall →
    ∃ t, t ∈ p_Targets (sg_plan s) ∧ t_BatchNumber t = p_CurrentBatch plan ∧ installing (t_Status t) = true ∧
      cmd_serverID c = t_ServerID t ∧ uc_TargetID (cmd_command c) = t_ID t ∧
      uc_SourceVersion (cmd_command c) = t_SourceVersion t ∧ uc_TargetVersion (cmd_command c) = t_TargetVersion t;
  (* identity and optimistic revision are those of the plan that was read *)
  sd_identity : p_ID (sg_plan s) = p_ID plan ∧ p_Revision (sg_plan s) = p_Revision plan
}.

Lemma scanned_conclude plan i s now : scan_inv plan i s → scanned plan (conclude now s).
Proof.
  intros H. destruct (si_plan _ _ _ H) as (Hid & _ & Hcur & Hrev & _).
  assert (p_Targets (sg_plan (conclude now s)) = p_Targets (sg_plan s)) as Ht by (unfold conclude; by repeat case_match).
  assert (sg_commands (conclude now s) = sg_commands s) as Hcmd by (unfold conclude; by repeat case_match).
  split; rewrite ?Ht, ?Hcmd.
  - apply H.
  - intros j t t' Hj Hj' Hs. destruct (Forall2_lookup_lr _ _ _ _ _ _ (si_targets _ _ _ H) Hj Hj') as (_ & _ & Hr).
    rewrite Hs in Hr. by eapply scan_moves_succeeded.
  - unfold conclude. destruct (_ && _); [by left|]. destruct (_ && _) eqn:E; [|by left].
    apply andb_true_iff in E as [Hm Hd]. destruct (hasBatch _ _); [|by left]. right. simpl.
    rewrite Hcur in *. split_and!; [done|by apply (si_may _ _ _ H)|by apply batchSucceeded_done].
  - unfold conclude. destruct (_ && _); [done|]. destruct (_ && _) eqn:E.
    + apply andb_true_iff in E as [Hm Hd]. destruct (hasBatch _ _) eqn:Eb; simpl.
      * intros Hs. left. destruct (si_status _ _ _ H) as [E'|E']; congruence.
      * intros _. right. rewrite Hcur in *. split_and!; [by apply (si_may _ _ _ H)|by apply batchSucceeded_done|done].
    + intros Hs. left. destruct (si_status _ _ _ H) as [E'|E']; congruence.
  - intros c Hc Ha. destruct (si_installs _ _ _ H c Hc Ha) as (j & t & _ & Hj & Hb & Hi & ? & ? & _ & ? & ?).
    exists t. apply Z.eqb_eq in Hb. split_and!; try done; [by eapply list_elem_of_lookup_2|congruence].
  - unfold conclude. by repeat case_match.
Qed.

(** C38: A scan keeps an upgrade staged: whatever the repository answers, it leaves the
    targets outside the current batch alone, moves the others only along the allowed
    steps (a target succeeds only out of its health check), starts the next batch and
    finishes the plan only when every target of the current batch has succeeded and the
    plan may start targets, and tells only targets under installation to install, from
    their recorded source to their recorded target version. *)
Theorem Scan_staged now plan c :
  NoDup (t_ID <$> p_Targets plan) →
  wp (scan_plan now plan) c (λ r _, ∀ s, r = Ok s → scanned plan s).
Proof.
  intros Hnd. unfold scan_plan. apply wp_bind.
  eapply wp_mono; [apply wp_scan_targets; [done|apply scan_inv_start]|].
  intros [s|e] c' Hr; [|done]. apply wp_ret. intros s' [= <-]. eapply scanned_conclude. by apply Hr.
Qed.
End scan_proofs.

(** ** What the agents can do

    The messages of an agent reach the plan through the PostgreSQL repository; the
    sender only has to leave the database alone. *)

Class UpgradeSenderLaw (C : Type) `{!Has DB C, !UpgradeSender C} : Prop := {
  upgrade_send_frame : ∀ serverID command (c : C),
    wp (SendUpgradeCommand serverID command) c (λ _ c', part (X := DB) c' = part c)
}.

Lemma plan_targets_row d planID t :
  t ∈ plan_targets d planID →
  ∃ r name, agent_upgrade_targets (upgrades d) !! t_ID t = Some r ∧ ut_plan_id r = planID ∧ t = target_of (t_ID t) r name.
Proof.
  unfold plan_targets. rewrite list_elem_of_omap. intros ([id r] & Hin & Hs). simpl in Hs.
  apply elem_of_stable_sort, list_elem_of_filter in Hin as [Hp Hin]. apply elem_of_map_to_list in Hin. simpl in *.
  destruct (servers d !! ut_server_id r) as [sv|]; simplify_eq/=. eauto.
Qed.

Lemma plan_targets_nodup d planID : NoDup (t_ID <$> plan_targets d planID).
Proof.
  unfold plan_targets. set (l := stable_sort target_order _).
  assert (NoDup l.*1) as Hnd.
  { apply NoDup_fmap_fst.
    - intros id r1 r2. unfold l. rewrite !elem_of_stable_sort, !list_elem_of_filter, !elem_of_map_to_list. naive_solver.
    - unfold l. rewrite stable_sort_perm. apply NoDup_filter, NoDup_map_to_list. }
  clearbody l. induction l as [|[id r] l IH]; [constructor|]. simpl in Hnd. apply NoDup_cons in Hnd as [Hnew Hnd].
  simpl. destruct (servers d !! ut_server_id r); simpl; [|by apply IH]. constructor; [|by apply IH].
  intros (t & Ht & ([id' r'] & Hin & Hs)%list_elem_of_omap)%list_elem_of_fmap. simpl in *.
  destruct (servers d !! ut_server_id r'); simplify_eq/=. apply Hnew. exact (list_elem_of_fmap_2 fst _ _ Hin).
Qed.

(** The rows of the targets after a step: unchanged, or saved from a target that [R]
    relates to the stored one. *)
Definition rows_moved (R : Target → Target → Prop) (d d' : DB) : Prop :=
  ∀ id row', agent_upgrade_targets (upgrades d') !! id = Some row' →
    ∃ row, agent_upgrade_targets (upgrades d) !! id = Some row ∧
      (row' = row ∨ ∃ name t', R (target_of id row name) t' ∧ row' = saved_target t' row).

Lemma rows_moved_refl R d : rows_moved R d d.
Proof. intros id row H. eauto. Qed.

(** The targets of a plan as they were read from the tables. *)
Definition read_from (d : DB) (targets : list Target) : Prop :=
  NoDup (t_ID <$> targets) ∧
  ∀ t, t ∈ targets → ∃ r name, agent_upgrade_targets (upgrades d) !! t_ID t = Some r ∧ t = target_of (t_ID t) r name.

Lemma read_from_plan d planID : read_from d (plan_targets d planID).
Proof. split; [apply plan_targets_nodup|]. intros t (r & name & ? & _ & ?)%plan_targets_row. eauto. Qed.

Lemma insert_new_event_targets e d d' :
  insert_new_event e d = Some d' → agent_upgrade_targets (upgrades d') = agent_upgrade_targets (upgrades d).
Proof. unfold insert_new_event. repeat case_match; by intros [= <-]. Qed.

(** What an event of the agent may do to the status of a target: advance it through
    the installation up to the reconnection, or lead it towards a rollback or a manual
    intervention. *)
Definition agent_move (s s' : TargetStatus) : Prop :=
  s' = s ∨ (installing s' = true ∨ s' = TargetReconnecting) ∧ (∃ a b, rank s = Some a ∧ rank s' = Some b ∧ a < b) ∨
  s' = TargetRollingBack ∨ s' = TargetRolledBack ∨ s' = TargetManualIntervention.

(** What a heartbeat may do: confirm the version its server should run. *)
Definition heartbeat_move (hb : Heartbeat) (t t' : Target) : Prop :=
  t_Status t' = t_Status t ∨
  t_ServerID t = hb_ServerID hb ∧
  (t_Status t = TargetReconnecting ∧ hb_AgentVersion hb = t_TargetVersion t ∧ t_Status t' = TargetHealthChecking ∨
   t_Status t = TargetReconnecting ∧ hb_AgentVersion hb ≠ t_TargetVersion t ∧ t_Status t' = TargetRollingBack ∨
   t_Status t = TargetRollingBack ∧ hb_AgentVersion hb = t_SourceVersion t ∧ t_Status t' = TargetRolledBack).

Lemma targetStatusForStage_move s status stage :
  targetStatusForStage stage = Some status → forwardTransition s status = true → agent_move s status.
Proof.
  intros Hst Hf. unfold forwardTransition in Hf. case_bool_decide as E; [by left|].
  destruct (_ && _) eqn:E2.
  { apply andb_true_iff in E2 as [_ E2%bool_decide_eq_true]. right. right. auto. }
  destruct (rank s) as [a|] eqn:Ha; [|done]. destruct (rank status) as [b|] eqn:Hb; [|done]. apply Z.ltb_lt in Hf.
  right. left. split; [|by eauto]. unfold targetStatusForStage in Hst.
  repeat (case_bool_decide; [simplify_eq; simpl in *; auto; done|]). done.
Qed.

Section agents.
Context {C : Type} `{!Has DB C, !UpgradeSender C, !UpgradeSenderLaw C} (publicBaseURL : string).

#[local] Instance agents_repository : UpgradeRepository C := PostgresRepository publicBaseURL.

Definition moved (R : Target → Target → Prop) (d : DB) {A} (_ : Result A) (c' : C) : Prop := rows_moved R d (part c').

Lemma wp_save_moved R (plan plan' : UpgradePlan) (c : C) :
  read_from (part c) (p_Targets plan) →
  Forall2 (λ t t', t_ID t' = t_ID t ∧ R t t') (p_Targets plan) (p_Targets plan') →
  wp (SavePlan plan') c (moved R (part c)).
Proof.
  intros [Hnd Hread] Hf. eapply wp_mono; [apply SavePlan_spec|]. intros r c' [_ H]. unfold moved.
  assert (part c' = part c ∨ plan_saved plan' (part c) (part c')) as [->|(row & _ & _ & _ & _ & Hall)].
  { destruct r as [saved|e]; simpl in H; [naive_solver|]. destruct e; naive_solver. }
  { apply rows_moved_refl. }
  assert (t_ID <$> p_Targets plan' = t_ID <$> p_Targets plan) as Hids.
  { clear -Hf. induction Hf as [|t t' l l' [E _] _ IH]; [done|]. rewrite !fmap_cons, E. by f_equal. }
  intros id row' Hrow'. destruct (save_all_tables _ _ _ _ Hall) as (_ & _ & _ & Hother & _).
  destruct (decide (id ∈ t_ID <$> p_Targets plan')) as [Hin|Hout].
  2:{ rewrite (Hother _ Hout) in Hrow'. eauto. }
  apply list_elem_of_fmap in Hin as (t' & -> & Ht').
  destruct (save_all_targets _ _ _ _ ltac:(by rewrite Hids) Hall t' Ht') as (r0 & Hr0 & Hsaved).
  rewrite Hrow' in Hsaved. injection Hsaved as ->. exists r0.
  assert (agent_upgrade_targets (upgrades (part c)) !! t_ID t' = Some r0) as Hstored.
  { apply plan_target_Some in Hr0 as [Hr0 _]. exact Hr0. }
  split; [exact Hstored|]. right. apply list_elem_of_lookup in Ht' as [j Hj].
  destruct (Forall2_lookup_r _ _ _ _ _ Hf Hj) as (t & Ht & E & HR).
  apply list_elem_of_lookup_2 in Ht. apply Hread in Ht as (r1 & name & Hr1 & Et).
  rewrite E in *. assert (r1 = r0) as -> by congruence. exists name, t'. split; [by rewrite <-Et|done].
Qed.

(** Actions that leave the stored targets alone. *)
Definition keeps_targets {A} (m : Prog C A) : Prop :=
  ∀ c, wp m c (λ _ c', agent_upgrade_targets (upgrades (part c')) = agent_upgrade_targets (upgrades (part c))).

Lemma keeps_targets_bind {A B} (m : Prog C A) (k : A → Prog C B) :
  keeps_targets m → (∀ a, keeps_targets (k a)) → keeps_targets (bind m k).
Proof.
  intros Hm Hk c. apply wp_bind. eapply wp_mono; [apply Hm|]. intros [a|e] c' H; [|done].
  eapply wp_mono; [apply Hk|]. intros r c2 ->. done.
Qed.

Lemma keeps_targets_append e : keeps_targets (AppendEvent e).
Proof.
  intros c. unfold AppendEvent. apply wp_pool; [done|]. intros d a H. rewrite part_set.
  destruct (insert_new_event e (part c)) as [d'|] eqn:E; simplify_eq. split; by eapply insert_new_event_targets.
Qed.

Lemma keeps_targets_uuid : keeps_targets new_uuid.
Proof. intros c. by apply wp_new_uuid. Qed.

Lemma keeps_targets_drain id b : keeps_targets (catch (SetServerDraining id b)).
Proof.
  intros c. apply wp_catch. unfold SetServerDraining. apply wp_bind, wp_pool; [done|].
  intros d a H. simplify_eq. split; [|by rewrite part_set]. destruct (negb _); [apply wp_throw|apply wp_ret]; by rewrite part_set.
Qed.

Lemma keeps_targets_send l : keeps_targets (send_all l).
Proof.
  induction l as [|x l IH]; [by intros c; apply wp_ret|]. apply keeps_targets_bind; [|done].
  intros c. eapply wp_mono; [apply upgrade_send_frame|]. intros r c' E. simpl in E. by rewrite E.
Qed.

Lemma moved_then {A} R d (m : Prog C A) c :
  keeps_targets m → rows_moved R d (part c) → wp m c (moved R d).
Proof.
  intros Hm H. eapply wp_mono; [apply Hm|]. intros r c' E id row'. rewrite E. apply H.
Qed.

Lemma wp_save_then R (plan plan' : UpgradePlan) k d (c : C) :
  agent_upgrade_targets (upgrades (part c)) = agent_upgrade_targets (upgrades d) →
  read_from d (p_Targets plan) →
  Forall2 (λ t t', t_ID t' = t_ID t ∧ R t t') (p_Targets plan) (p_Targets plan') →
  keeps_targets k → wp (save_then plan' k) c (moved R d).
Proof.
  intros Hd Hr Hf Hk. unfold save_then. apply wp_bind, wp_catch.
  eapply wp_mono; [apply (wp_save_moved R plan plan' c); [|done]|].
  { destruct Hr as [? Hr]. split; [done|]. intros t Ht. rewrite Hd. by apply Hr. }
  intros r c' H. assert (rows_moved R d (part c')) as H' by (intros id row'; rewrite <-Hd; apply H).
  destruct r as [saved|e]; [by apply moved_then|]. destruct e; first [by apply wp_throw|by apply wp_ret].
Qed.

Lemma Forall2_update (R : Target → Target → Prop) targets index t t' :
  targets !! index = Some t → t_ID t' = t_ID t → R t t' → (∀ x, R x x) →
  Forall2 (λ x y, t_ID y = t_ID x ∧ R x y) targets (<[index := t']> targets).
Proof.
  intros Ht Hid HR Hrefl. eapply Forall2_insert_right; [|exact Ht|done].
  apply Forall_Forall2_diag, Forall_forall. auto.
Qed.

Lemma wp_matchTarget serverID targetID commandID (c : C) Q :
  Q (Ok None) c →
  (∀ plan index target, read_from (part c) (p_Targets plan) → p_Targets plan !! index = Some target →
     t_ServerID target = serverID → Q (Ok (Some (plan, index, target))) c) →
  wp (matchTarget serverID targetID commandID) c Q.
Proof.
  intros Hn Hok. unfold matchTarget. apply wp_bind, wp_catch, wp_ActivePlan; [intros; by apply wp_ret|intros; by apply wp_ret|].
  intros plan Hsel. apply wp_ret. destruct (list_find _ _) as [[index target]|] eqn:E; [|done].
  apply list_find_Some in E as (E & (_ & Hs & _) & _). apply Hok; [apply read_from_plan|done|done].
Qed.

Lemma agent_move_refl s : agent_move s s.
Proof. by left. Qed.

Lemma rolled_agent_move batch installed t t' :
  rolled batch installed t t' → t_ID t' = t_ID t ∧ agent_move (t_Status t) (t_Status t').
Proof.
  intros (Hs & Hne & Heq). split; [apply Hs|]. unfold agent_move.
  destruct (decide (t_BatchNumber t = batch)) as [E|E]; [|rewrite (Hne E); auto].
  destruct (Heq E) as [->|[[_ ->]|[_ [->|[-> _]]]]]; auto 6.
Qed.

Lemma wp_apply_event serverID event plan index target now (c : C) :
  read_from (part c) (p_Targets plan) → p_Targets plan !! index = Some target →
  wp (apply_event serverID event plan index target now) c
    (moved (λ t t', agent_move (t_Status t) (t_Status t')) (part c)).
Proof.
  intros Hr Ht. pose proof (λ t, agent_move_refl (t_Status t)) as Hrefl. unfold apply_event. cbv zeta.
  set (persistEvent := let! id := new_uuid in _).
  assert (keeps_targets persistEvent) as Hp.
  { apply keeps_targets_bind; [apply keeps_targets_uuid|]. intros id. apply keeps_targets_append. }
  clearbody persistEvent. case_bool_decide.
  - destruct (_ || _).
    + apply wp_bind. eapply wp_mono; [apply keeps_targets_drain|]. intros [r|e] c1 Hc1; [|].
      2:{ intros id row'. rewrite Hc1. intros Hrow. exists row'. auto. }
      eapply wp_save_then; [done|done| |done]. apply (Forall2_update _ _ _ target); [done|done|right; right; auto|done].
    + unfold rollbackBatch. cbv zeta. do 2 apply wp_bind. eapply wp_rollback_targets; [done|intros; apply rows_moved_refl|].
      intros targets' commands Hf _. apply wp_ret. eapply wp_save_then; [done|exact Hr| |].
      * eapply Forall2_impl; [exact Hf|]. intros t t'. apply rolled_agent_move.
      * apply keeps_targets_bind; [done|]. intros _. apply keeps_targets_send.
  - destruct (_ && _); [by apply moved_then; [|apply rows_moved_refl]|].
    destruct (targetStatusForStage (ue_Stage event)) as [status|] eqn:Est; [|apply wp_throw, rows_moved_refl].
    case_bool_decide; [by apply moved_then; [|apply rows_moved_refl]|].
    destruct (forwardTransition (t_Status target) status) eqn:Ef; cbn [negb]; [|apply wp_ret, rows_moved_refl].
    eapply wp_save_then; [done|done| |done]. apply (Forall2_update _ _ _ target); [done| | |done].
    + unfold stage_reached. by case_bool_decide.
    + replace (t_Status (stage_reached event status now target)) with status
        by (unfold stage_reached; by case_bool_decide).
      by eapply targetStatusForStage_move.
Qed.

Lemma wp_ApplyUpgradeEvent serverID event (c : C) :
  wp (ApplyUpgradeEvent serverID event) c (moved (λ t t', agent_move (t_Status t) (t_Status t')) (part c)).
Proof.
  unfold ApplyUpgradeEvent. apply wp_bind, wp_matchTarget; [apply wp_ret, rows_moved_refl|].
  intros plan index target Hr Ht _. apply wp_bind, wp_clock_now. intros now. by apply wp_apply_event.
Qed.

Lemma wp_ObserveHeartbeat hb (c : C) : wp (ObserveHeartbeat hb) c (moved (heartbeat_move hb) (part c)).
Proof.
  assert (∀ t, heartbeat_move hb t t) as Hrefl by by left.
  unfold ObserveHeartbeat. destruct (hb_Upgrade hb) as [upgrade|]; [|apply wp_ret, rows_moved_refl].
  apply wp_bind, wp_matchTarget; [apply wp_ret, rows_moved_refl|]. intros plan index target Hr Ht Hs.
  apply wp_bind, wp_clock_now. intros now.
  assert (∀ plan' t' k, p_Targets plan' = <[index := t']> (p_Targets plan) → t_ID t' = t_ID target →
    heartbeat_move hb target t' → keeps_targets k →
    wp (repo_SavePlan plan' ;;! k) c (moved (A := unit) (heartbeat_move hb) (part c))) as Hsave.
  { intros plan' t' k Ep Hid Hm Hk. apply wp_bind. eapply wp_mono.
    - apply (wp_save_moved (heartbeat_move hb) plan plan' c Hr). rewrite Ep. by eapply Forall2_update.
    - intros [saved|e] c' H; [|done]. by apply moved_then. }
  assert (keeps_targets (ret tt)) as Hret by (intros c'; by apply wp_ret).
  case_bool_decide as Hroll.
  { case_bool_decide as Hv; cbn [negb]; [|apply wp_ret, rows_moved_refl].
    eapply Hsave; [reflexivity|done| |done]. right. auto 7. }
  case_bool_decide as Hrec; cbn [negb]; [|apply wp_ret, rows_moved_refl].
  case_bool_decide as Hv; cbn [negb].
  - eapply Hsave; [reflexivity|done| |done]. right. auto 7.
  - apply wp_bind, wp_new_uuid; [apply rows_moved_refl|]. intros commandID.
    eapply Hsave; [reflexivity|done|right; simpl; auto 7|].
    intros c'. eapply wp_mono; [apply upgrade_send_frame|]. intros r c2 E. simpl in E. by rewrite E.
Qed.

(** An agent cannot finish an upgrade by itself.  Its events only advance a target
    through the installation stages or lead it to a rollback or a manual intervention;
    a target enters the health check only by a heartbeat of its own server that reports
    the target version while the target is reconnecting; and no message of an agent makes
    a target succeed. *)
Theorem agents_cannot_finish serverID event hb (c : C) :
  wp (ApplyUpgradeEvent serverID event) c (λ _ c',
    ∀ id row', agent_upgrade_targets (upgrades (part c')) !! id = Some row' →
      ∃ row, agent_upgrade_targets (upgrades (part c)) !! id = Some row ∧ agent_move (ut_status row) (ut_status row')) ∧
  wp (ObserveHeartbeat hb) c (λ _ c',
    ∀ id row', agent_upgrade_targets (upgrades (part c')) !! id = Some row' →
      ∃ row, agent_upgrade_targets (upgrades (part c)) !! id = Some row ∧
        (ut_status row' = TargetSucceeded → ut_status row = TargetSucceeded) ∧
        (ut_status row' = TargetHealthChecking → ut_status row = TargetHealthChecking ∨
           ut_status row = TargetReconnecting ∧ ut_server_id row = hb_ServerID hb ∧
           hb_AgentVersion hb = ut_target_version row)).
Proof.
  split.
  - eapply wp_mono; [apply wp_ApplyUpgradeEvent|]. intros r c' H id row' Hrow'.
    destruct (H id row' Hrow') as (row & Hrow & [->|(name & t' & Hm & ->)]); exists row; (split; [done|]).
    + apply agent_move_refl.
    + exact Hm.
  - eapply wp_mono; [apply wp_ObserveHeartbeat|]. intros r c' H id row' Hrow'.
    destruct (H id row' Hrow') as (row & Hrow & [->|(name & t' & Hm & ->)]); exists row; (split; [done|]); [auto|].
    unfold heartbeat_move in Hm. simpl in *. naive_solver congruence.
Qed.
End agents.

(** ** Two consequences of the code as it is *)

(** [RetryTarget] keeps [StartedAt]: a target that is retried later than the drain
    timeout after its first start is paused by the next scan as timed out, without any
    attempt to drain its server. *)
Lemma retried_target_times_out {C} `{!UpgradeRepository C} now commandID retried_at index t started s :
  t_StartedAt t = Some started →
  in_seconds (p_DrainTimeoutSeconds (sg_plan s)) < time_sub now started →
  sg_mayStartTarget s = true →
  scan_draining (C := C) now index (retried_target commandID retried_at t) s = ret (pause "服务器排空超时" s).
Proof.
  intros Hs Hlt Hm. unfold scan_draining. rewrite Hm. cbn [negb andb].
  change (t_StartedAt (retried_target commandID retried_at t)) with (t_StartedAt t). rewrite Hs.
  by rewrite (proj2 (Z.ltb_lt _ _) Hlt).
Qed.

(** An agent that reports the stage [succeeded] leaves an event with the key the
    coordinator's own status event needs: the target can then never be saved as
    succeeded. *)
Lemma reported_success_blocks plan t d d' r :
  plan_target (p_ID plan) (t_ID t) d = Some r → ut_status r = TargetHealthChecking →
  p_Targets plan = [t] → t_Status t = TargetSucceeded →
  event_recorded (t_ID t, t_CommandID t, StageSucceeded) d = true → ¬ plan_saved plan d d'.
Proof.
  intros Hr Hs Ht Hst Hrec. eapply recorded_event_blocks; [done|done| |].
  - by rewrite Hs, Hst.
  - by rewrite Hst.
Qed.

(** ** Witnesses *)

Definition example_target : Target :=
  mkTarget "tgt-1" "plan-1" "srv-1" "one" 1 "1.0.0" "1.1.0" false TargetHealthChecking 1 "cmd-1" "cmd-1" "" "" (Some 0) 0 None.

Definition example_plan : UpgradePlan :=
  mkUpgradePlan "plan-1" "rel-1" "1.1.0" PlanRunning 1 1 3600 120 30 1 4 false "user-1" "" 0 (Some 0) None [example_target] [].

Lemma Scan_staged_witness :
  wp (C := DB) (scan_plan (UpgradeRepository0 := PostgresRepository "http://host") 31 example_plan) example_db
    (λ r _, ∀ s, r = Ok s → scanned example_plan s).
Proof.
  exact (Scan_staged (C := DB) (UpgradeRepository0 := PostgresRepository "http://host") 31 example_plan example_db
    ltac:(vm_compute; apply NoDup_singleton)).
Defined.

Definition installing_row : TargetRow :=
  mkTargetRow "plan-1" "srv-1" 1 "1.0.0" "1.1.0" false TargetInstalling 1 "cmd-1" "cmd-1" "" "" (Some 0) 0 None.

Definition upgrade_db : DB :=
  example_db <| upgrades := mkUpgradeTables
    {["rel-1" := mkReleaseRow "1.1.0" "available" [selfUpgradeCapability] [mkArtifactRow "linux" "amd64" "agent.tgz" 10 "sum"]]}
    {["plan-1" := mkPlanRow "rel-1" PlanRunning 1 1 3600 120 30 1 4 false "user-1" "" 0 (Some 0) None]}
    {["tgt-1" := installing_row]} [] |>.

(** The agent reports its success: through a connection that accepts every command, the
    target only gets to reconnecting. *)
Lemma agents_cannot_finish_witness :
  ∃ (sender : UpgradeSender DB) (law : UpgradeSenderLaw DB),
    let event := mkUpgradeEvent "cmd-1" "tgt-1" StageSucceeded 5 "" "" in
    let apply := ApplyUpgradeEvent (UpgradeRepository0 := PostgresRepository "http://host") "srv-1" event in
    wp (C := DB) apply upgrade_db (λ _ d',
      ∀ id row', agent_upgrade_targets (upgrades d') !! id = Some row' →
        ∃ row, agent_upgrade_targets (upgrades upgrade_db) !! id = Some row ∧ agent_move (ut_status row) (ut_status row')) ∧
    (ut_status <$> agent_upgrade_targets (upgrades (apply (upgrade_db, calm ["ev-1"; "ev-2"] 7)).1.1) !! "tgt-1")
      = Some TargetReconnecting.
Proof.
  pose (sender := {| SendUpgradeCommand := λ _ _, ret tt |} : UpgradeSender DB).
  assert (UpgradeSenderLaw DB) as law by (split; intros; by apply wp_ret).
  exists sender, law. split.
  - exact (proj1 (agents_cannot_finish (C := DB) "http://host" "srv-1" (mkUpgradeEvent "cmd-1" "tgt-1" StageSucceeded 5 "" "")
      (mkHeartbeat "srv-1" 0 0 0 0 0 0 0 0 0 0 0 [] "1.1.0" "" "" [] None) upgrade_db)).
  - vm_compute. reflexivity.
Defined.

(** The whole course of such an upgrade: the agent reports success, its heartbeat
    confirms the version, and every later scan of the healthy target fails to save. *)
Definition healthy_at (seen : Time) (d : DB) : DB :=
  d <| servers ::= alter (λ s, s <| se_agent_version := "1.1.0" |> <| se_last_seen_at := Some seen |>) "srv-1" |>
    <| server_snapshots := [mkServerSnapshotRow "snap-1" "srv-1" 1000 0 10 10 10 10 0 seen (float_of_int 0)] |>.

Example reported_success_stuck :
  let repository := PostgresRepository (C := DB) "http://host" in
  let sender := {| SendUpgradeCommand := λ _ _, ret tt |} : UpgradeSender DB in
  let event := mkUpgradeEvent "cmd-1" "tgt-1" StageSucceeded 5 "" "" in
  let beat := mkHeartbeat "srv-1" 1 0 0 0 0 0 0 0 0 0 0 [] "1.1.0" "" "" []
    (Some (mkUpgradeRuntimeState "cmd-1" "tgt-1" "1.1.0" "1.0.0" StageReconnecting 0 "" "")) in
  let d1 := (ApplyUpgradeEvent "srv-1" event (upgrade_db, calm ["ev-1"; "ev-2"] 7)).1.1 in
  let d2 := (ObserveHeartbeat beat (d1, calm ["ev-3"] 8)).1.1 in
  let later := 40 * second in
  let r := Scan (healthy_at later d2, calm ["ev-4"; "ev-5"] later) in
  (ut_status <$> agent_upgrade_targets (upgrades d2) !! "tgt-1") = Some TargetHealthChecking ∧
  r.2 = Err (EStorage "") ∧
  (ut_status <$> agent_upgrade_targets (upgrades r.1.1) !! "tgt-1") = Some TargetHealthChecking.
Proof. vm_compute. split_and!; reflexivity. Qed.
