(* ===== verification/GoPath.v ===== *)
(** * GoPath

    The parts of Go's [path] and [unicode/utf8] packages the dispatcher and the
    artifact policy use: [path.Clean], [path.Join], [path.IsAbs], [path.Match] and the
    decoding of UTF-8. *)

From S2P Require Import Prelude GoStd Model.

Definition slash : ascii := "/"%char.
Definition backslash_char : ascii := Stdlib.Strings.Ascii.ascii_of_nat 92.

(** ** unicode/utf8 *)

Definition RuneError : Z := 65533.

Definition cont (b : Z) : bool := (128 <=? b) && (b <=? 191).

(** [utf8.DecodeRuneInString]: the rune and its width, [RuneError] and 1 for an invalid
    encoding; [None] for the empty string. *)
Definition DecodeRune (s : string) : option (Z * nat) :=
  match chars s with
  | [] => None
  | c0 :: rest =>
    let b0 := byte_of c0 in
    let bytes := byte_of <$> rest in
    Some (
      if b0 <? 128 then (b0, 1%nat)
      else
        match bytes with
        | b1 :: tail =>
          if (194 <=? b0) && (b0 <=? 223) && cont b1 then (Z.land b0 31 * 64 + Z.land b1 63, 2%nat)
          else
            match tail with
            | b2 :: tail =>
              if (224 <=? b0) && (b0 <=? 239) && cont b1 && cont b2 &&
                 (negb (b0 =? 224) || (160 <=? b1)) && (negb (b0 =? 237) || (b1 <=? 159))
              then (Z.land b0 15 * 4096 + Z.land b1 63 * 64 + Z.land b2 63, 3%nat)
              else
                match tail with
                | b3 :: _ =>
                  if (240 <=? b0) && (b0 <=? 244) && cont b1 && cont b2 && cont b3 &&
                     (negb (b0 =? 240) || (144 <=? b1)) && (negb (b0 =? 244) || (b1 <=? 143))
                  then (Z.land b0 7 * 262144 + Z.land b1 63 * 4096 + Z.land b2 63 * 64 + Z.land b3 63, 4%nat)
                  else (RuneError, 1%nat)
                | [] => (RuneError, 1%nat)
                end
            | [] => (RuneError, 1%nat)
            end
        | [] => (RuneError, 1%nat)
        end)
  end.

Fixpoint drop_bytes (n : nat) (s : string) : string :=
  match n, s with
  | S n, String _ rest => drop_bytes n rest
  | _, _ => s
  end.

(** [[]rune(s)]: the runes of a string; a rune has at least one byte. *)
Fixpoint runes_from (fuel : nat) (s : string) : list Z :=
  match fuel with
  | O => []
  | S fuel => match DecodeRune s with Some (r, n) => r :: runes_from fuel (drop_bytes n s) | None => [] end
  end.
Definition runes (s : string) : list Z := runes_from (String.length s) s.

(** [utf8.AppendRune], the bytes of a valid rune. *)
Definition byte_char (z : Z) : ascii := Stdlib.Strings.Ascii.ascii_of_N (Z.to_N z).
Definition encode_rune (r : Z) : string :=
  if r <? 128 then String (byte_char r) ""
  else if r <? 2048 then String (byte_char (192 + r / 64)) (String (byte_char (128 + r mod 64)) "")
  else if r <? 65536 then
    String (byte_char (224 + r / 4096)) (String (byte_char (128 + r / 64 mod 64)) (String (byte_char (128 + r mod 64)) ""))
  else
    String (byte_char (240 + r / 262144)) (String (byte_char (128 + r / 4096 mod 64))
      (String (byte_char (128 + r / 64 mod 64)) (String (byte_char (128 + r mod 64)) ""))).

Definition string_of_runes (l : list Z) : string := foldr (λ r s, encode_rune r +:+ s) "" l.

(** [%x] and [hex.EncodeToString] on bytes. *)
Definition hex_char (v : Z) : ascii := if v <? 10 then byte_char (48 + v) else byte_char (87 + v).
Fixpoint format_hex (bytes : list Z) : string :=
  match bytes with
  | [] => ""
  | b :: rest => String (hex_char (Z.shiftr b 4)) (String (hex_char (Z.land b 15)) (format_hex rest))
  end.

(** [utf8.ValidString]: no byte decodes as an error of width 1. *)
Fixpoint valid_from (fuel : nat) (s : string) : bool :=
  match fuel with
  | O => true
  | S fuel =>
    match DecodeRune s with
    | None => true
    | Some (r, n) => negb ((r =? RuneError) && (n =? 1)%nat) && valid_from fuel (drop_bytes n s)
    end
  end.
Definition ValidString (s : string) : bool := valid_from (String.length s) s.

(** ** path *)

Definition IsAbs (p : string) : bool := HasPrefix p "/".

(** The elements of a cleaned path, last first: [.] and empty elements are dropped, and
    [..] removes the element before it, if there is one to remove. *)
Fixpoint clean_elements (rooted : bool) (done_ : list string) (elements : list string) : list string :=
  match elements with
  | [] => done_
  | e :: rest =>
    if bool_decide (e = "") || bool_decide (e = ".") then clean_elements rooted done_ rest
    else if bool_decide (e = "..") then
      match done_ with
      | top :: below =>
        if bool_decide (top = "..") then clean_elements rooted (e :: done_) rest else clean_elements rooted below rest
      | [] => if rooted then clean_elements rooted [] rest else clean_elements rooted [e] rest
      end
    else clean_elements rooted (e :: done_) rest
  end.

Definition join_elements (l : list string) : string := String.concat "/" l.

Definition Clean (p : string) : string :=
  if bool_decide (p = "") then "."
  else
    let rooted := IsAbs p in
    let out := join_elements (reverse (clean_elements rooted [] (split_on slash p))) in
    if rooted then String slash out else if bool_decide (out = "") then "." else out.

(** [path.Join]: leading empty elements are dropped, the rest is joined and cleaned. *)
Fixpoint drop_empty (l : list string) : list string :=
  match l with
  | e :: rest => if bool_decide (e = "") then drop_empty rest else l
  | [] => []
  end.

Definition Join (elements : list string) : string :=
  match drop_empty elements with
  | [] => ""
  | l => Clean (join_elements l)
  end.

(** ** path.Match

    [MatchResult] is the pair of the result and the error. *)
Inductive MatchResult : Type := Matched (b : bool) | BadPattern.

(** [scanChunk]: the text up to the next star outside a class. *)
Fixpoint chunk_end (inrange : bool) (p : list ascii) : list ascii * list ascii :=
  match p with
  | [] => ([], [])
  | c :: rest =>
    if bool_decide (c = backslash_char) then
      match rest with
      | d :: rest' => let '(a, b) := chunk_end inrange rest' in (c :: d :: a, b)
      | [] => ([c], [])
      end
    else if bool_decide (c = "*"%char) && negb inrange then ([], p)
    else
      let '(a, b) := chunk_end (if bool_decide (c = "["%char) then true else if bool_decide (c = "]"%char) then false else inrange) rest in
      (c :: a, b)
  end.

Fixpoint skip_stars (p : list ascii) : bool * list ascii :=
  match p with
  | c :: rest => if bool_decide (c = "*"%char) then (true, (skip_stars rest).2) else (false, p)
  | [] => (false, p)
  end.

Definition scanChunk (pattern : list ascii) : bool * list ascii * list ascii :=
  let '(star, p) := skip_stars pattern in
  let '(chunk, rest) := chunk_end false p in (star, chunk, rest).

Definition str (l : list ascii) : string := Stdlib.Strings.String.string_of_list_ascii l.

(** [getEsc]: a possibly escaped rune of a class; the class must go on after it. *)
Definition getEsc (chunk : list ascii) : option (Z * list ascii) :=
  let body := match chunk with
              | c :: rest => if bool_decide (c = backslash_char) then Some rest else Some chunk
              | [] => None
              end in
  match chunk with
  | [] => None
  | c :: _ =>
    if bool_decide (c = "-"%char) || bool_decide (c = "]"%char) then None
    else
      match body with
      | Some rest =>
        match DecodeRune (str rest) with
        | None => None
        | Some (r, n) =>
          let tail := drop n rest in
          if ((r =? RuneError) && (n =? 1)%nat) || bool_decide (tail = []) then None else Some (r, tail)
        end
      | None => None
      end
  end.

(** The ranges of a class: whether the rune is in one, and the text after the class. *)
Fixpoint class_ranges (fuel : nat) (r : Z) (nrange : nat) (found : bool) (chunk : list ascii) :
  option (bool * list ascii) :=
  match fuel with
  | O => None
  | S fuel =>
    match chunk with
    | c :: rest =>
      if bool_decide (c = "]"%char) && bool_decide (0 < nrange)%nat then Some (found, rest)
      else
        match getEsc chunk with
        | None => None
        | Some (lo, chunk1) =>
          match chunk1 with
          | d :: rest1 =>
            if bool_decide (d = "-"%char) then
              match getEsc rest1 with
              | None => None
              | Some (hi, chunk2) => class_ranges fuel r (S nrange) (found || ((lo <=? r) && (r <=? hi))) chunk2
              end
            else class_ranges fuel r (S nrange) (found || (lo =? r)) chunk1
          | [] => None
          end
        end
    | [] => None
    end
  end.

(** [matchChunk]: [None] is a bad pattern, [Some None] no match, [Some (Some rest)] a
    match with what is left of the name.  [failed] is the flag of the loop. *)
Fixpoint matchChunk_from (fuel : nat) (failed : bool) (chunk s : list ascii) : option (option (list ascii)) :=
  match fuel with
  | O => None
  | S fuel =>
    match chunk with
    | [] => Some (if failed then None else Some s)
    | c :: rest =>
      let failed := failed || bool_decide (s = []) in
      let literal (c : ascii) (rest : list ascii) :=
        if failed then matchChunk_from fuel true rest s
        else match s with
             | a :: s' => matchChunk_from fuel (negb (bool_decide (c = a))) rest s'
             | [] => matchChunk_from fuel true rest s
             end in
      if bool_decide (c = "["%char) then
        let '(r, s') := if failed then (0, s)
                        else match DecodeRune (str s) with Some (r, n) => (r, drop n s) | None => (0, s) end in
        let '(negated, body) := match rest with
                                | d :: rest' => if bool_decide (d = "^"%char) then (true, rest') else (false, rest)
                                | [] => (false, rest)
                                end in
        match class_ranges (S (length body)) r 0 false body with
        | None => None
        | Some (found, after) => matchChunk_from fuel (failed || bool_decide (found = negated)) after s'
        end
      else if bool_decide (c = "?"%char) then
        if failed then matchChunk_from fuel true rest s
        else
          match s with
          | a :: _ =>
            let n := match DecodeRune (str s) with Some (_, n) => n | None => 1%nat end in
            matchChunk_from fuel (bool_decide (a = slash)) rest (drop n s)
          | [] => matchChunk_from fuel true rest s
          end
      else if bool_decide (c = backslash_char) then
        match rest with
        | d :: rest' => literal d rest'
        | [] => None
        end
      else literal c rest
    end
  end.
Definition matchChunk (chunk s : list ascii) : option (option (list ascii)) :=
  matchChunk_from (S (length chunk)) false chunk s.

(** The rest of the pattern is checked for its syntax. *)
Fixpoint check_rest (fuel : nat) (pattern : list ascii) : MatchResult :=
  match fuel with
  | O => Matched false
  | S fuel =>
    match pattern with
    | [] => Matched false
    | _ =>
      let '(_, chunk, rest) := scanChunk pattern in
      match matchChunk chunk [] with None => BadPattern | Some _ => check_rest fuel rest end
    end
  end.

(** After a star: the first position, one byte further each time and never past a
    slash, where the chunk matches (up to the end if it is the last chunk). *)
Fixpoint star_search (last : bool) (chunk name : list ascii) : option (option (list ascii)) :=
  match name with
  | [] => Some None
  | c :: rest =>
    if bool_decide (c = slash) then Some None
    else
      match matchChunk chunk rest with
      | None => None
      | Some (Some t) => if last && negb (bool_decide (t = [])) then star_search last chunk rest else Some (Some t)
      | Some None => star_search last chunk rest
      end
  end.

Fixpoint match_from (fuel : nat) (pattern name : list ascii) : MatchResult :=
  match fuel with
  | O => Matched false
  | S fuel =>
    match pattern with
    | [] => Matched (bool_decide (name = []))
    | _ =>
      let '(star, chunk, rest) := scanChunk pattern in
      if star && bool_decide (chunk = []) then Matched (negb (existsb (λ c, bool_decide (c = slash)) name))
      else
        let last := bool_decide (rest = []) in
        let search :=
          if star then
            match star_search last chunk name with
            | None => BadPattern
            | Some (Some t) => match_from fuel rest t
            | Some None => check_rest (S (length rest)) rest
            end
          else check_rest (S (length rest)) rest in
        match matchChunk chunk name with
        | None => BadPattern
        | Some (Some t) => if bool_decide (t = []) || negb last then match_from fuel rest t else search
        | Some None => search
        end
    end
  end.

(** [path.Match]; every round consumes at least one byte of the pattern. *)
Definition Match (pattern name : string) : MatchResult :=
  match_from (S (String.length pattern)) (chars pattern) (chars name).

Example match_csv : Match "report-*.csv" "report-2024.csv" = Matched true.
Proof. reflexivity. Qed.
Example match_class : Match "[a-c]?.txt" "b1.txt" = Matched true.
Proof. reflexivity. Qed.
Example match_slash : Match "*" "a/b" = Matched false.
Proof. reflexivity. Qed.
Example match_bad : Match "a[" "x" = BadPattern.
Proof. reflexivity. Qed.
Example clean_example : Clean "a//b/./c/../d" = "a/b/d" ∧ Clean "/../x" = "/x" ∧ Clean "../a/.." = "..".
Proof. by vm_compute. Qed.

(** ** Paths and their elements *)

Definition no_slash (s : string) : Prop := contains_byte slash s = false.

(** An element that cleaning keeps and that does not leave the directory. *)
Definition plain (e : string) : Prop := e ≠ "" ∧ e ≠ "." ∧ e ≠ ".." ∧ no_slash e.

Lemma join_cons e l : l ≠ [] → join_elements (e :: l) = e +:+ String slash (join_elements l).
Proof. by destruct l. Qed.

Lemma append_assoc (a b c : string) : (a +:+ b) +:+ c = a +:+ (b +:+ c).
Proof. induction a as [|x a IH]; [done|]. change (String x ((a +:+ b) +:+ c) = String x (a +:+ (b +:+ c))). by rewrite IH. Qed.

Lemma split_on_element e s : no_slash e → split_on slash (e +:+ String slash s) = e :: split_on slash s.
Proof.
  unfold no_slash. induction e as [|c e IH]; [done|]. intros [Hc%bool_decide_eq_false He]%orb_false_iff.
  change (split_on slash (String c (e +:+ String slash s)) = String c e :: split_on slash s).
  cbn [split_on]. rewrite bool_decide_eq_false_2 by done. by rewrite IH.
Qed.

Lemma split_on_whole e : no_slash e → split_on slash e = [e].
Proof.
  unfold no_slash. induction e as [|c e IH]; [done|]. intros [Hc%bool_decide_eq_false He]%orb_false_iff.
  cbn [split_on]. rewrite bool_decide_eq_false_2 by done. by rewrite IH.
Qed.

Lemma split_join l : l ≠ [] → Forall no_slash l → split_on slash (join_elements l) = l.
Proof.
  induction l as [|e l IH]; [done|]. intros _ [He Hl]%Forall_cons. destruct (decide (l = [])) as [->|Hne].
  - by apply split_on_whole.
  - rewrite join_cons by done. by rewrite split_on_element, IH.
Qed.

Lemma split_no_slash s : Forall no_slash (split_on slash s) ∧ split_on slash s ≠ [].
Proof.
  induction s as [|c s [IH Hne]]; [split; [by repeat constructor|done]|]. cbn [split_on].
  case_bool_decide as Hc; [split; [constructor; [done|exact IH]|done]|].
  destruct (split_on slash s) as [|x l]; [done|]. apply Forall_cons in IH as [Hx Hl]. split; [|done].
  constructor; [|done]. unfold no_slash in *. cbn [contains_byte]. rewrite bool_decide_eq_false_2 by done. done.
Qed.

(** Plain elements survive cleaning as they are. *)
Lemma clean_elements_plain rooted acc l : Forall plain l → clean_elements rooted acc l = reverse l ++ acc.
Proof.
  revert acc. induction l as [|e l IH]; intros acc; [done|]. intros [(H1 & H2 & H3 & _) Hl]%Forall_cons.
  cbn [clean_elements]. rewrite !bool_decide_eq_false_2 by done. cbn [orb]. rewrite IH by done.
  rewrite reverse_cons, <-app_assoc. done.
Qed.

(** A cleaned relative path is a number of [..] followed by plain elements. *)
Lemma clean_elements_shape rooted acc l :
  Forall no_slash l →
  (∃ ps dots, acc = ps ++ dots ∧ Forall plain ps ∧ Forall (eq "..") dots) →
  ∃ ps dots, clean_elements rooted acc l = ps ++ dots ∧ Forall plain ps ∧ Forall (eq "..") dots.
Proof.
  revert acc. induction l as [|e l IH]; intros acc; [done|]. intros [He Hl]%Forall_cons Hacc. cbn [clean_elements].
  destruct (bool_decide (e = "") || bool_decide (e = ".")) eqn:E1; [by apply IH|].
  apply orb_false_iff in E1 as [E1%bool_decide_eq_false E2%bool_decide_eq_false].
  destruct Hacc as (ps & dots & -> & Hp & Hd). case_bool_decide as E3.
  - subst e. destruct ps as [|p ps]; simpl.
    + destruct dots as [|d dots].
      * destruct rooted; apply IH; try done; [by exists [], []|]. exists [], [".."]. by repeat constructor.
      * apply Forall_cons in Hd as [<- Hd]. rewrite bool_decide_eq_true_2 by done. apply IH; [done|].
        exists [], (".." :: ".." :: dots). split_and!; [done|constructor|by repeat constructor].
    + apply Forall_cons in Hp as [(_ & _ & Hne & _) Hp]. rewrite bool_decide_eq_false_2 by done. apply IH; [done|].
      by exists ps, dots.
  - apply IH; [done|]. exists (e :: ps), dots. split_and!; [done|constructor; [|done]|done]. by split_and!.
Qed.

(** A clean relative path that does not begin with [..] consists of plain elements. *)
Lemma clean_relative p :
  p ≠ "" → Clean p = p → IsAbs p = false → p ≠ "." → p ≠ ".." → HasPrefix p "../" = false →
  ∃ es, p = join_elements es ∧ es ≠ [] ∧ Forall plain es.
Proof.
  intros Hne Hc Ha H1 H2 H3. unfold Clean in Hc. rewrite bool_decide_eq_false_2, Ha in Hc by done. cbv zeta in Hc.
  destruct (clean_elements_shape false [] (split_on slash p)) as (ps & dots & E & Hp & Hd).
  { apply split_no_slash. }
  { by exists [], []. }
  rewrite E in Hc. case_bool_decide as Hout; [congruence|]. rewrite reverse_app in Hc.
  assert (dots = []) as ->.
  { destruct (reverse dots) as [|d ds] eqn:Er.
    - by apply (f_equal reverse) in Er; rewrite reverse_involutive in Er.
    - apply (Forall_reverse (eq "..")) in Hd. rewrite Er in Hd. apply Forall_cons in Hd as [<- _].
      destruct (ds ++ reverse ps) as [|x xs] eqn:Ex; simpl in Hc; rewrite Ex in Hc.
      + exfalso. apply H2. by rewrite <-Hc.
      + exfalso. rewrite <-Hc in H3.
        change (HasPrefix (String "." (String "." (String slash (join_elements (x :: xs))))) "../" = false) in H3.
        by destruct (join_elements (x :: xs)). }
  exists (reverse ps). simpl in Hc. split_and!; [done| |by apply Forall_reverse].
  intros Hn. rewrite Hn in Hc. by rewrite <-Hc in Hne.
Qed.

(** Joining a rooted base of plain elements with plain elements is concatenation. *)
Lemma Clean_rooted l : l ≠ [] → Forall plain l → Clean (String slash (join_elements l)) = String slash (join_elements l).
Proof.
  intros Hne Hl. unfold Clean. rewrite bool_decide_eq_false_2 by done.
  assert (IsAbs (String slash (join_elements l)) = true) as -> by (unfold IsAbs; by destruct (join_elements l)).
  cbv zeta. f_equal. f_equal.
  change (split_on slash (String slash (join_elements l))) with ("" :: split_on slash (join_elements l)).
  rewrite split_join; [|done|by eapply Forall_impl; [exact Hl|intros e (_ & _ & _ & ?)]].
  cbn [clean_elements]. rewrite bool_decide_eq_true_2 by done. cbn [orb].
  rewrite clean_elements_plain by done. by rewrite app_nil_r, reverse_involutive.
Qed.

Lemma join_app a b : a ≠ [] → b ≠ [] → join_elements (a ++ b) = join_elements a +:+ String slash (join_elements b).
Proof.
  intros Ha Hb. induction a as [|e a IH]; [done|]. destruct (decide (a = [])) as [->|Hne]; [by apply join_cons|].
  change ((e :: a) ++ b) with (e :: (a ++ b)). rewrite !join_cons by (done || by destruct a). rewrite IH by done.
  by rewrite append_assoc.
Qed.

Lemma Join_rooted base l :
  base ≠ [] → l ≠ [] → Forall plain base → Forall plain l →
  Join (String slash (join_elements base) :: l) = String slash (join_elements base +:+ String slash (join_elements l)).
Proof.
  intros Hb Hl Pb Pl. unfold Join. cbn [drop_empty]. rewrite bool_decide_eq_false_2 by done.
  rewrite join_cons by done.
  change (String slash (join_elements base) +:+ String slash (join_elements l)) with
    (String slash (join_elements base +:+ String slash (join_elements l))).
  rewrite <-join_app by done. apply Clean_rooted; [by destruct base|by apply Forall_app].
Qed.
