(* ===== verification/GoCrypto.v ===== *)
(** * GoCrypto

    [encoding/base64] without padding, [crypto/rand], the text of a UUID, and
    [golang.org/x/crypto/argon2] as an interface. *)

From S2P Require Import Prelude GoStd GoPath Model World.

(** ** Bytes and strings *)

Definition text_of (bytes : list Z) : string := foldr (λ b s, String (byte_char b) s) "" bytes.
Definition bytes_of (text : string) : list Z := byte_of <$> chars text.

Lemma byte_of_char b : 0 ≤ b < 256 → byte_of (byte_char b) = b.
Proof. intros Hb. unfold byte_of, byte_char. rewrite Stdlib.Strings.Ascii.N_ascii_embedding by lia. lia. Qed.

Lemma byte_of_range a : 0 ≤ byte_of a < 256.
Proof. unfold byte_of. pose proof (Stdlib.Strings.Ascii.N_ascii_bounded a). lia. Qed.

Lemma byte_char_of a : byte_char (byte_of a) = a.
Proof. unfold byte_of, byte_char. rewrite N2Z.id. apply Stdlib.Strings.Ascii.ascii_N_embedding. Qed.

Lemma text_of_bytes text : text_of (bytes_of text) = text.
Proof. induction text as [|a text IH]; [done|]. change (String (byte_char (byte_of a)) (text_of (bytes_of text)) = String a text). by rewrite byte_char_of, IH. Qed.

Lemma bytes_of_text bytes : Forall (λ b, 0 ≤ b < 256) bytes → bytes_of (text_of bytes) = bytes.
Proof.
  induction 1 as [|b bytes Hb _ IH]; [done|]. change (byte_of (byte_char b) :: bytes_of (text_of bytes) = b :: bytes).
  by rewrite byte_of_char, IH.
Qed.

Lemma bytes_of_range text : Forall (λ b, 0 ≤ b < 256) (bytes_of text).
Proof. apply Forall_fmap, Forall_forall. intros a _. apply byte_of_range. Qed.

Lemma length_bytes_of text : length (bytes_of text) = String.length text.
Proof. unfold bytes_of. rewrite length_fmap. by induction text; simpl; congruence. Qed.

(** ** base64: six bits per character

    [url] chooses between [RawURLEncoding] and [RawStdEncoding]. *)

Definition base64_char (url : bool) (v : Z) : ascii :=
  if v <? 26 then byte_char (65 + v)
  else if v <? 52 then byte_char (97 + (v - 26))
  else if v <? 62 then byte_char (48 + (v - 52))
  else if v =? 62 then (if url then "-"%char else "+"%char) else (if url then "_"%char else "/"%char).

Definition base64_value (url : bool) (c : ascii) : option Z :=
  let x := byte_of c in
  if (65 <=? x) && (x <=? 90) then Some (x - 65)
  else if (97 <=? x) && (x <=? 122) then Some (x - 97 + 26)
  else if (48 <=? x) && (x <=? 57) then Some (x - 48 + 52)
  else if bool_decide (c = if url then "-"%char else "+"%char) then Some 62
  else if bool_decide (c = if url then "_"%char else "/"%char) then Some 63
  else None.

Fixpoint base64_encode (url : bool) (bytes : list Z) : string :=
  match bytes with
  | a :: b :: c :: rest =>
    String (base64_char url (a / 4)) (String (base64_char url (a mod 4 * 16 + b / 16))
      (String (base64_char url (b mod 16 * 4 + c / 64)) (String (base64_char url (c mod 64)) (base64_encode url rest))))
  | [a; b] =>
    String (base64_char url (a / 4)) (String (base64_char url (a mod 4 * 16 + b / 16)) (String (base64_char url (b mod 16 * 4)) ""))
  | [a] => String (base64_char url (a / 4)) (String (base64_char url (a mod 4 * 16)) "")
  | [] => ""
  end.

(** The decoder skips line ends. *)
Definition line_end (c : ascii) : bool := (byte_of c =? 13) || (byte_of c =? 10).

Fixpoint decode_values (values : list Z) : option (list Z) :=
  match values with
  | [] => Some []
  | [_] => None
  | [a; b] => Some [a * 4 + b / 16]
  | [a; b; c] => Some [a * 4 + b / 16; b mod 16 * 16 + c / 4]
  | a :: b :: c :: d :: rest =>
    bytes ← decode_values rest; Some (a * 4 + b / 16 :: b mod 16 * 16 + c / 4 :: c mod 4 * 64 + d :: bytes)
  end.

Definition base64_decode (url : bool) (s : string) : option (list Z) :=
  values ← mapM (base64_value url) (List.filter (λ c, negb (line_end c)) (chars s)); decode_values values.

Lemma base64_value_char url v : 0 ≤ v < 64 → base64_value url (base64_char url v) = Some v ∧ line_end (base64_char url v) = false ∧
  base64_char url v ≠ "$"%char.
Proof.
  intros Hv. rewrite <-(Z2Nat.id v) by lia. assert (Z.to_nat v < 64)%nat as Hn by lia. revert Hn. generalize (Z.to_nat v).
  intros n Hn. destruct url; do 64 (destruct n as [|n]; [by vm_compute|]); lia.
Qed.

#[local] Ltac Zify.zify_post_hook ::= Z.to_euclidean_division_equations.

(** The six-bit values of an encoding. *)
Fixpoint sextets (bytes : list Z) : list Z :=
  match bytes with
  | a :: b :: c :: rest => a / 4 :: a mod 4 * 16 + b / 16 :: b mod 16 * 4 + c / 64 :: c mod 64 :: sextets rest
  | [a; b] => [a / 4; a mod 4 * 16 + b / 16; b mod 16 * 4]
  | [a] => [a / 4; a mod 4 * 16]
  | [] => []
  end.

(** Induction three bytes at a time. *)
Lemma bytes_ind (P : list Z → Prop) :
  P [] → (∀ a, P [a]) → (∀ a b, P [a; b]) → (∀ a b c rest, P rest → P (a :: b :: c :: rest)) → ∀ bytes, P bytes.
Proof.
  intros H0 H1 H2 H3. fix IH 1. intros [|a [|b [|c rest]]]; [done|done|done|]. apply H3, IH.
Qed.

Lemma base64_encode_sextets url bytes : chars (base64_encode url bytes) = base64_char url <$> sextets bytes.
Proof. induction bytes as [|a|a b|a b c rest IH] using bytes_ind; csimpl; [done..|]. by rewrite IH. Qed.

Lemma sextets_range bytes : Forall (λ b, 0 ≤ b < 256) bytes → Forall (λ v, 0 ≤ v < 64) (sextets bytes).
Proof.
  induction bytes as [|a|a b|a b c rest IH] using bytes_ind; cbn [sextets]; rewrite ?Forall_cons; intros H.
  - constructor.
  - split_and!; [lia..|constructor].
  - split_and!; [lia..|constructor].
  - assert (Forall (λ v, 0 ≤ v < 64) (sextets rest)) by tauto. split_and!; [lia..|done].
Qed.

Lemma decode_sextets bytes : Forall (λ b, 0 ≤ b < 256) bytes → decode_values (sextets bytes) = Some bytes.
Proof.
  induction bytes as [|a|a b|a b c rest IH] using bytes_ind; rewrite ?Forall_cons; intros H; cbn [sextets decode_values]; [done| | |].
  - do 2 f_equal. lia.
  - do 2 f_equal; [lia|]. f_equal. lia.
  - rewrite IH by tauto. cbn [mbind option_bind]. f_equal. f_equal; [lia|]. f_equal; [lia|]. f_equal. lia.
Qed.

Lemma base64_roundtrip url bytes : Forall (λ b, 0 ≤ b < 256) bytes → base64_decode url (base64_encode url bytes) = Some bytes.
Proof.
  intros H. unfold base64_decode. rewrite base64_encode_sextets. pose proof (sextets_range _ H) as Hr.
  assert (List.filter (λ c, negb (line_end c)) (base64_char url <$> sextets bytes) = base64_char url <$> sextets bytes) as ->.
  { induction Hr as [|v l Hv _ IH]; [done|]. destruct (base64_value_char url v Hv) as (_ & E & _). csimpl. by rewrite E, IH. }
  assert (mapM (base64_value url) (base64_char url <$> sextets bytes) = Some (sextets bytes)) as ->.
  { apply mapM_Some, Forall2_fmap_l, Forall_Forall2_diag. eapply Forall_impl; [exact Hr|]. intros v Hv. by apply base64_value_char. }
  simpl. by apply decode_sextets.
Qed.

Lemma base64_no_dollar url bytes : Forall (λ b, 0 ≤ b < 256) bytes → contains_byte "$" (base64_encode url bytes) = false.
Proof.
  intros H%sextets_range. assert (∀ s, Forall (λ c, c ≠ "$"%char) (chars s) → contains_byte "$" s = false) as Hc.
  { intros s. induction s as [|a s IH]; simpl; [done|]. rewrite Forall_cons. intros [Ha Hs]. by rewrite bool_decide_false, IH. }
  apply Hc. rewrite base64_encode_sextets, Forall_fmap. eapply Forall_impl; [exact H|]. intros v Hv. by apply base64_value_char.
Qed.

(** ** UUIDs *)

(** [value[6] = (value[6] & 0x0f) | 0x40] and [value[8] = (value[8] & 0x3f) | 0x80]. *)
Definition uuid_text (value : list Z) : string :=
  let value := alter (λ b, Z.lor (Z.land b 0x3f) 0x80) 8%nat (alter (λ b, Z.lor (Z.land b 0x0f) 0x40) 6%nat value) in
  format_hex (take 4 value) +:+ "-" +:+ format_hex (take 2 (drop 4 value)) +:+ "-" +:+ format_hex (take 2 (drop 6 value)) +:+
  "-" +:+ format_hex (take 2 (drop 8 value)) +:+ "-" +:+ format_hex (take 6 (drop 10 value)).

(** [rand.Read]: the next bytes of the random source. *)
Definition rand_read {C} (count : nat) : Prog C (list Z) :=
  let! value := new_uuid in ret (take count (bytes_of value ++ replicate count 0)).

(** [argon2.IDKey(password, salt, time, memory, threads, keyLen)] has [keyLen] bytes. *)
Class Argon2 : Type := {
  IDKey : string → list Z → Z → Z → Z → Z → list Z;
  IDKey_bytes : ∀ password salt time memory threads keyLen, 0 ≤ keyLen →
    Z.of_nat (length (IDKey password salt time memory threads keyLen)) = keyLen ∧
    Forall (λ b, 0 ≤ b < 256) (IDKey password salt time memory threads keyLen)
}.
