(* ===== verification/Passwords.v ===== *)
(** * Passwords

    [internal/auth/password.go]: password hashes in the encoded form of argon2id. *)

From S2P Require Import Prelude GoStd GoPath GoCrypto Model World.

Definition argonMemory : Z := 65536.
Definition argonIterations : Z := 3.
Definition argonParallelism : Z := 2.
Definition argonSaltLength : nat := 16.
Definition argonKeyLength : Z := 32.

(** ** Scanning: [fmt.Sscanf] with the format [m=%d,t=%d,p=%d] *)

(** The spaces before a number; a line end among them is an error. *)
Definition skip_space (s : string) : option string :=
  let rest := trim_left s in
  let skipped := take (String.length s - String.length rest) (chars s) in
  if existsb (λ c, byte_of c =? 10) skipped then None else Some rest.

Fixpoint scan_digits (s : string) (acc : Z) : Z * string :=
  match s with
  | EmptyString => (acc, s)
  | String c r =>
    let x := byte_of c in
    if (48 <=? x) && (x <=? 57) then scan_digits r (acc * 10 + (x - 48)) else (acc, s)
  end.

(** [%d] into an unsigned integer of [bits] bits: at least one digit, in range. *)
Definition scan_uint (bits : Z) (s : string) : option (Z * string) :=
  s ← skip_space s;
  let '(value, rest) := scan_digits s 0 in
  if (String.length rest =? String.length s)%nat || (2 ^ bits <=? value) then None else Some (value, rest).

Definition scan_literal (literal s : string) : option string :=
  if HasPrefix s literal then Some (String.substring (String.length literal) (String.length s) s) else None.

Definition scan_parameters (s : string) : option (Z * Z * Z) :=
  s ← scan_literal "m=" s; '(memory, s) ← scan_uint 32 s;
  s ← scan_literal ",t=" s; '(iterations, s) ← scan_uint 32 s;
  s ← scan_literal ",p=" s; '(parallelism, _) ← scan_uint 8 s;
  Some (memory, iterations, parallelism).

(** ** Hashing and verifying *)

Section passwords.
Context `{argon : !Argon2}.

(** The formatted hash. *)
Definition encoded_hash (salt hash : list Z) : string :=
  "$argon2id$v=19$m=" +:+ format_int argonMemory +:+ ",t=" +:+ format_int argonIterations +:+ ",p=" +:+
  format_int argonParallelism +:+ "$" +:+ base64_encode false salt +:+ "$" +:+ base64_encode false hash.

Definition hash_with (salt : list Z) (password : string) : string :=
  encoded_hash salt (IDKey password salt argonIterations argonMemory argonParallelism argonKeyLength).

Definition HashPassword {C} (password : string) : Prog C string :=
  let! salt := rand_read argonSaltLength in ret (hash_with salt password).

Definition VerifyPassword (encodedHash password : string) : Result bool :=
  match split_on "$" encodedHash with
  | [_; name; version; parameters; salt; expected] =>
    if negb (bool_decide (name = "argon2id")) || negb (bool_decide (version = "v=19")) then Err ErrInvalidPasswordHash
    else
      match scan_parameters parameters with
      | None => Err ErrInvalidPasswordHash
      | Some (memory, iterations, parallelism) =>
        if (memory =? 0) || (iterations =? 0) || (parallelism =? 0) then Err ErrInvalidPasswordHash
        else
          match base64_decode false salt with
          | Some ((_ :: _) as salt) =>
            match base64_decode false expected with
            | Some ((_ :: _) as expected) =>
              let actual := IDKey password salt iterations memory parallelism (Z.of_nat (length expected)) in
              Ok (bool_decide (expected = actual))
            | _ => Err ErrInvalidPasswordHash
            end
          | _ => Err ErrInvalidPasswordHash
          end
      end
  | _ => Err ErrInvalidPasswordHash
  end.

Lemma split_on_part sep (e s : string) : contains_byte sep e = false → split_on sep (e +:+ String sep s) = e :: split_on sep s.
Proof.
  induction e as [|c e IH]; intros He.
  - change (split_on sep (String sep s) = "" :: split_on sep s). cbn [split_on]. by rewrite bool_decide_true.
  - cbn [contains_byte] in He. apply orb_false_iff in He as [Hc He].
    change (split_on sep (String c (e +:+ String sep s)) = String c e :: split_on sep s). cbn [split_on]. by rewrite Hc, IH.
Qed.

Lemma split_on_last sep (e : string) : contains_byte sep e = false → split_on sep e = [e].
Proof.
  induction e as [|c e IH]; intros He; [done|]. cbn [contains_byte] in He. apply orb_false_iff in He as [Hc He].
  cbn [split_on]. by rewrite Hc, IH.
Qed.

Lemma scan_own_parameters :
  scan_parameters ("m=" +:+ format_int argonMemory +:+ ",t=" +:+ format_int argonIterations +:+ ",p=" +:+ format_int argonParallelism) =
  Some (argonMemory, argonIterations, argonParallelism).
Proof. by vm_compute. Qed.

(** A hash verifies a password exactly when it derives the same key. *)
Lemma VerifyPassword_hash salt password other :
  Forall (λ b, 0 ≤ b < 256) salt → salt ≠ [] →
  VerifyPassword (hash_with salt password) other =
  Ok (bool_decide (IDKey password salt argonIterations argonMemory argonParallelism argonKeyLength =
                   IDKey other salt argonIterations argonMemory argonParallelism argonKeyLength)).
Proof.
  intros Hs Hne. unfold hash_with. destruct (IDKey_bytes password salt argonIterations argonMemory argonParallelism argonKeyLength) as [Hl Hb]; [done|].
  set (hash := IDKey password _ _ _ _ _) in *.
  assert (split_on "$" (encoded_hash salt hash) =
    [""; "argon2id"; "v=19"; "m=" +:+ format_int argonMemory +:+ ",t=" +:+ format_int argonIterations +:+ ",p=" +:+ format_int argonParallelism;
     base64_encode false salt; base64_encode false hash]) as Hsplit.
  { change (encoded_hash salt hash) with ("" +:+ String "$" ("argon2id" +:+ String "$" ("v=19" +:+ String "$" ("m=65536,t=3,p=2" +:+
      String "$" (base64_encode false salt +:+ String "$" (base64_encode false hash)))))).
    do 4 (rewrite split_on_part; [|done]). rewrite split_on_part by by apply base64_no_dollar.
    by rewrite split_on_last by by apply base64_no_dollar. }
  unfold VerifyPassword. rewrite Hsplit, scan_own_parameters, !base64_roundtrip by done. rewrite !bool_decide_true by done.
  destruct salt as [|b salt]; [done|]. cbn -[IDKey].
  destruct hash as [|h hash'] eqn:Eh; [simpl in Hl; by vm_compute in Hl|]. by rewrite Hl.
Qed.

End passwords.
