(* ===== verification/Redaction.v ===== *)
(** * Redaction

    [internal/secret/redactor.go]: the secrets of a run are masked in its logs, in plain
    and in their base64 and URL encodings. *)

From S2P Require Import Prelude GoStd GoPath GoCrypto.

(** ** Standard library *)

(** [bytes.ReplaceAll] with a non-empty [old]: from left to right, without overlaps;
    [skip] bytes belong to the occurrence just replaced. *)
Fixpoint replace_from (skip : nat) (old new s : string) : string :=
  match s with
  | EmptyString => EmptyString
  | String c rest =>
    match skip with
    | S k => replace_from k old new rest
    | O => if HasPrefix s old then new +:+ replace_from (String.length old - 1) old new rest else String c (replace_from 0 old new rest)
    end
  end.

Definition ReplaceAll (s old new : string) : string := replace_from 0 old new s.

(** The padding of [StdEncoding] and [URLEncoding]. *)
Definition base64_padded (url : bool) (bytes : list Z) : string :=
  base64_encode url bytes +:+
  match (Z.of_nat (length bytes) mod 3) with 1 => "==" | 2 => "=" | _ => "" end.

(** [url.QueryEscape] and [url.PathEscape] *)
Definition unreserved (c : ascii) : bool :=
  let x := byte_of c in
  ((48 <=? x) && (x <=? 57)) || ((65 <=? x) && (x <=? 90)) || ((97 <=? x) && (x <=? 122)) || bool_decide (c ∈ chars "-_.~").

Definition upper_hex (v : Z) : ascii := if v <? 10 then byte_char (48 + v) else byte_char (65 + (v - 10)).

Definition percent (c : ascii) (rest : string) : string :=
  String "%" (String (upper_hex (byte_of c / 16)) (String (upper_hex (byte_of c mod 16)) rest)).

Fixpoint QueryEscape (s : string) : string :=
  match s with
  | EmptyString => EmptyString
  | String c rest =>
    if unreserved c then String c (QueryEscape rest)
    else if bool_decide (c = " "%char) then String "+" (QueryEscape rest)
    else percent c (QueryEscape rest)
  end.

Fixpoint PathEscape (s : string) : string :=
  match s with
  | EmptyString => EmptyString
  | String c rest =>
    if unreserved c || bool_decide (c ∈ chars "$&+:=@") then String c (PathEscape rest) else percent c (PathEscape rest)
  end.

(** The iteration over a Go map, in any order. *)
Class StringRange : Type := {
  range_strings : gset string → list string;
  range_strings_perm : ∀ s, range_strings s ≡ₚ elements s
}.

(** ** The redactor *)

Definition mask : string := "******".

Definition variants_of (value : string) : list string :=
  if bool_decide (value = "") then []
  else
    let bytes := bytes_of value in
    [value; base64_padded false bytes; base64_encode false bytes; base64_padded true bytes; base64_encode true bytes;
     QueryEscape value; PathEscape value].

Definition mask_variant (result variant : string) : string :=
  let result := ReplaceAll result variant mask in
  let lowerEncoded := ToLower variant in
  if contains_byte "%" variant && negb (bool_decide (lowerEncoded = variant)) then ReplaceAll result lowerEncoded mask else result.

Definition all_variants (values : list string) : gset string := list_to_set (concat (variants_of <$> values)).

Definition Mask `{!StringRange} (text : string) (values : list string) : string :=
  let ordered := filter (λ v, v ≠ "" ∧ v ≠ mask) (range_strings (all_variants values)) in
  fold_left mask_variant (stable_sort (λ a b, len b <? len a) ordered) text.

(** ** Occurrences *)

Definition occurs (w s : string) : Prop := ∃ before after, s = before +:+ w +:+ after.

Definition starless (s : string) : Prop := contains_byte "*" s = false.

Lemma string_app_cons c (s t : string) : String c s +:+ t = String c (s +:+ t).
Proof. done. Qed.

Lemma append_empty (s : string) : "" +:+ s = s.
Proof. done. Qed.

Lemma occurs_cons w c s : occurs w s → occurs w (String c s).
Proof. intros (a & b & ->). by exists (String c a), b. Qed.

Lemma occurs_inv w c s : occurs w (String c s) → (∃ after, String c s = w +:+ after) ∨ occurs w s.
Proof.
  intros ([|x a] & b & E); [left; by exists b|right]. rewrite string_app_cons in E. injection E as -> ->. by exists a, b.
Qed.

Lemma HasPrefix_spec s p : HasPrefix s p = true ↔ ∃ after, s = p +:+ after.
Proof.
  revert s. induction p as [|x p IH]; intros s; [split; [by exists s|by destruct s]|]. destruct s as [|c s]; simpl.
  - split; [done|]. by intros (b & [=]).
  - rewrite andb_true_iff, bool_decide_eq_true, IH. split.
    + intros [-> (b & ->)]. by exists b.
    + intros (b & E). rewrite string_app_cons in E. injection E as -> ->. split; [done|by exists b].
Qed.

(** A word without stars that starts a masked text starts the text. *)
Lemma prefix_replaced old w s after :
  starless w → w ≠ "" → replace_from 0 old mask s = w +:+ after → ∃ b, s = w +:+ b.
Proof.
  revert w after. induction s as [|c s IH]; intros w after Hw Hne E; cbn [replace_from] in E.
  - destruct w; [done|discriminate].
  - destruct w as [|x w]; [done|]. unfold starless in Hw. cbn [contains_byte] in Hw. apply orb_false_iff in Hw as [Hx Hw].
    destruct (HasPrefix (String c s) old) eqn:Ep.
    + unfold mask in E. rewrite !string_app_cons in E. injection E as E _. subst x. by apply bool_decide_eq_false in Hx.
    + rewrite string_app_cons in E. injection E as -> E. destruct w as [|y w]; [by exists s|].
      destruct (IH (String y w) after) as (b & ->); [done|done|done|]. by exists b.
Qed.

Lemma occurs_mask w s : starless w → w ≠ "" → occurs w (mask +:+ s) → occurs w s.
Proof.
  intros Hw Hne. destruct w as [|x w]; [done|]. assert (x ≠ "*"%char) as Hx.
  { unfold starless in Hw. cbn [contains_byte] in Hw. apply orb_false_iff in Hw as [Hx _]. by apply bool_decide_eq_false in Hx. }
  unfold mask. do 6 (rewrite string_app_cons; intros [(b & [= E _])|H]%occurs_inv; [by destruct Hx|]; revert H). by rewrite append_empty.
Qed.

(** Masking makes no new occurrences. *)
Lemma occurs_replaced k old w s : starless w → w ≠ "" → occurs w (replace_from k old mask s) → occurs w s.
Proof.
  intros Hw Hne. revert k. induction s as [|c s IH]; intros k H; [by destruct k|]. destruct k as [|k]; cbn [replace_from] in H.
  - destruct (HasPrefix (String c s) old) eqn:Ep.
    + apply occurs_cons, (IH (String.length old - 1)%nat). by apply occurs_mask.
    + apply occurs_inv in H as [(after & E)|H]; [|by apply occurs_cons, (IH 0%nat)].
      destruct (prefix_replaced old w (String c s) after) as (b & ->); [done|done| |by exists "", b]. cbn [replace_from]. by rewrite Ep.
  - by apply occurs_cons, (IH k).
Qed.

(** What was masked is gone. *)
Lemma replaced_gone k old s : starless old → old ≠ "" → ¬ occurs old (replace_from k old mask s).
Proof.
  intros Hw Hne. revert k. induction s as [|c s IH]; intros k H.
  - assert (occurs old "") as (a & b & E) by by destruct k. destruct a; [|discriminate]. by destruct old.
  - destruct k as [|k]; cbn [replace_from] in H; [|by apply (IH k)]. destruct (HasPrefix (String c s) old) eqn:Ep.
    + apply (IH (String.length old - 1)%nat). by apply occurs_mask.
    + apply occurs_inv in H as [(after & E)|H]; [|by apply (IH 0%nat)].
      destruct (prefix_replaced old old (String c s) after) as (b & E'); [done|done|cbn [replace_from]; by rewrite Ep|].
      apply not_true_iff_false in Ep. apply Ep, HasPrefix_spec. by exists b.
Qed.

(** Masking a text in which [old] does not occur changes nothing. *)
Lemma replace_absent old s : ¬ occurs old s → replace_from 0 old mask s = s.
Proof.
  induction s as [|c s IH]; intros H; [done|]. cbn [replace_from]. destruct (HasPrefix (String c s) old) eqn:Ep.
  - destruct H. apply HasPrefix_spec in Ep as (b & E). by exists "", b.
  - f_equal. apply IH. intros Ho. by apply H, occurs_cons.
Qed.

(** ** The variants *)

Lemma starless_chars s : starless s ↔ Forall (λ c, c ≠ "*"%char) (chars s).
Proof.
  unfold starless. induction s as [|c s IH]; simpl; [done|]. rewrite Forall_cons, orb_false_iff, bool_decide_eq_false, IH. done.
Qed.

Lemma starless_cons c s : bool_decide (c = "*"%char) = false → starless s → starless (String c s).
Proof. unfold starless. cbn [contains_byte]. by intros -> ->. Qed.

Lemma chars_app (s t : string) : chars (s +:+ t) = chars s ++ chars t.
Proof. induction s as [|c s IH]; [done|]. rewrite string_app_cons. simpl. by rewrite IH. Qed.

Lemma base64_starless url bytes : Forall (λ b, 0 ≤ b < 256) bytes → starless (base64_encode url bytes).
Proof.
  intros H%sextets_range. apply starless_chars. rewrite base64_encode_sextets, Forall_fmap. eapply Forall_impl; [exact H|]. intros v Hv E.
  pose proof (proj1 (base64_value_char url v Hv)) as Hval. simpl in *. rewrite E in Hval. by destruct url.
Qed.

Lemma padded_starless url bytes : Forall (λ b, 0 ≤ b < 256) bytes → starless (base64_padded url bytes).
Proof.
  intros H. apply starless_chars. unfold base64_padded. rewrite chars_app, Forall_app. split; [by apply starless_chars, base64_starless|].
  apply starless_chars. destruct (_ mod 3) as [|[|[]|]|]; done.
Qed.

Lemma upper_hex_starless v : 0 ≤ v < 16 → upper_hex v ≠ "*"%char.
Proof.
  intros Hv. rewrite <-(Z2Nat.id v) by lia. assert (Z.to_nat v < 16)%nat as Hn by lia. revert Hn. generalize (Z.to_nat v).
  intros n Hn. do 16 (destruct n as [|n]; [by vm_compute|]); lia.
Qed.

Lemma percent_starless c s : starless s → starless (percent c s).
Proof.
  rewrite !starless_chars. intros H. unfold percent. simpl. pose proof (byte_of_range c).
  assert (0 ≤ byte_of c / 16 < 16) by (split; [apply Z.div_pos; lia|apply Z.div_lt_upper_bound; lia]).
  pose proof (Z.mod_pos_bound (byte_of c) 16 ltac:(lia)).
  repeat (apply Forall_cons; split); [done|by apply upper_hex_starless..|done].
Qed.

Lemma QueryEscape_starless s : starless s → starless (QueryEscape s).
Proof.
  induction s as [|c s IH]; [done|]. unfold starless at 1. cbn [contains_byte QueryEscape]. intros [Hc Hs]%orb_false_iff. specialize (IH Hs).
  destruct (unreserved c); [by apply starless_cons|]. destruct (bool_decide (c = " "%char)); [by apply starless_cons|by apply percent_starless].
Qed.

Lemma PathEscape_starless s : starless s → starless (PathEscape s).
Proof.
  induction s as [|c s IH]; [done|]. unfold starless at 1. cbn [contains_byte PathEscape]. intros [Hc Hs]%orb_false_iff. specialize (IH Hs).
  destruct (_ || _); [by apply starless_cons|]. by apply percent_starless.
Qed.

Lemma variants_starless value w : starless value → w ∈ variants_of value → starless w ∧ w ≠ "".
Proof.
  unfold variants_of. case_bool_decide as Hv; [by rewrite elem_of_nil|]. intros Hs Hw. pose proof (bytes_of_range value) as Hr.
  assert (∃ b l, bytes_of value = b :: l) as (b & l & Eb) by (destruct value as [|c s]; [done|by do 2 eexists]).
  assert (∀ url, base64_encode url (bytes_of value) ≠ "") as Hne by (intros url; rewrite Eb; by destruct l as [|? [|??]]).
  assert (∀ url, base64_padded url (bytes_of value) ≠ "") as Hpe.
  { intros url. unfold base64_padded. specialize (Hne url). by destruct (base64_encode url (bytes_of value)). }
  repeat (apply elem_of_cons in Hw as [->|Hw]; [|]); [done| | | | | | |by apply elem_of_nil in Hw].
  1-4: split; [by first [apply padded_starless|apply base64_starless]|done].
  - split; [by apply QueryEscape_starless|]. destruct value as [|c s]; [done|]. cbn [QueryEscape]. by destruct (unreserved c), (bool_decide (c = " "%char)).
  - split; [by apply PathEscape_starless|]. destruct value as [|c s]; [done|]. cbn [PathEscape]. by destruct (_ || _).
Qed.

Lemma ToLower_starless s : starless s → starless (ToLower s).
Proof.
  rewrite !starless_chars. induction s as [|c s IH]; [done|]. cbn [ToLower chars]. simpl. rewrite !Forall_cons. intros [Hc Hs]. split; [|by apply IH].
  intros E. apply Hc. revert E. unfold lower_byte. case_match; [|done]. destruct c as [[] [] [] [] [] [] [] []]; by vm_compute.
Qed.

(** ** The folding *)

Lemma mask_variant_keeps w r v : starless w → w ≠ "" → ¬ occurs w r → ¬ occurs w (mask_variant r v).
Proof.
  intros Hw Hne Hr H. apply Hr. unfold mask_variant in H. destruct (_ && _); [apply occurs_replaced in H; [|done..]|]; by apply occurs_replaced in H.
Qed.

Lemma mask_all_keeps w l r : starless w → w ≠ "" → ¬ occurs w r → ¬ occurs w (fold_left mask_variant l r).
Proof. intros Hw Hne. revert r. induction l as [|v l IH]; intros r Hr; [done|]. simpl. by apply IH, mask_variant_keeps. Qed.

(** Whatever a masked text is made of, the masked variants are gone. *)
Lemma mask_all_gone w l r : w ∈ l → starless w → w ≠ "" →
  ¬ occurs w (fold_left mask_variant l r) ∧ (contains_byte "%" w = true → ¬ occurs (ToLower w) (fold_left mask_variant l r)).
Proof.
  intros Hin Hw Hne. revert r. induction Hin as [w l|w v l _ IH]; intros r; simpl; [|by apply IH].
  assert (ToLower w ≠ "") as Hln by by destruct w. pose proof (ToLower_starless w Hw) as Hlw.
  assert (¬ occurs w (mask_variant r w) ∧ (contains_byte "%" w = true → ¬ occurs (ToLower w) (mask_variant r w))) as [H1 H2].
  { pose proof (replaced_gone 0 w r Hw Hne) as Hg. unfold mask_variant, ReplaceAll. destruct (contains_byte "%" w); simpl.
    - case_bool_decide as E; simpl; [by rewrite E|]. split; [|intros _; by apply replaced_gone]. intros H. by apply occurs_replaced in H.
    - by split. }
  split; [by apply mask_all_keeps|]. intros Hp. apply mask_all_keeps; auto.
Qed.

Lemma mask_all_absent l r : (∀ v, v ∈ l → ¬ occurs v r ∧ ¬ occurs (ToLower v) r) → fold_left mask_variant l r = r.
Proof.
  induction l as [|v l IH]; intros H; [done|]. simpl. destruct (H v) as [H1 H2]; [left|].
  assert (mask_variant r v = r) as ->; [|apply IH; intros w Hw; apply H; by right].
  unfold mask_variant, ReplaceAll. rewrite (replace_absent v r H1). destruct (_ && _); [by apply replace_absent|done].
Qed.

Section claims.
Context `{!StringRange}.

Lemma elem_of_ordered values w :
  w ∈ stable_sort (λ a b, len b <? len a) (filter (λ v, v ≠ "" ∧ v ≠ mask) (range_strings (all_variants values))) ↔
  (w ≠ "" ∧ w ≠ mask) ∧ ∃ v, v ∈ values ∧ w ∈ variants_of v.
Proof.
  rewrite elem_of_stable_sort, list_elem_of_filter, range_strings_perm, elem_of_elements. unfold all_variants.
  rewrite elem_of_list_to_set, list_elem_of_In, in_concat. setoid_rewrite <-list_elem_of_In. setoid_rewrite list_elem_of_fmap. naive_solver.
Qed.

Lemma Mask_nothing text : Mask text [] = text.
Proof. apply mask_all_absent. intros w (_ & v & Hv & _)%elem_of_ordered. by apply elem_of_nil in Hv. Qed.

Lemma Mask_gone text values v w :
  (∀ v, v ∈ values → starless v) → v ∈ values → w ∈ variants_of v →
  ¬ occurs w (Mask text values) ∧ (contains_byte "%" w = true → ¬ occurs (ToLower w) (Mask text values)).
Proof.
  intros Hs Hv Hw. destruct (variants_starless v w (Hs v Hv) Hw) as [Hst Hne]. apply mask_all_gone; [|done|done].
  apply elem_of_ordered. split; [|by exists v]. split; [done|]. by intros ->.
Qed.

Lemma Mask_absent text values :
  (∀ v w, v ∈ values → w ∈ variants_of v → ¬ occurs w text ∧ ¬ occurs (ToLower w) text) → Mask text values = text.
Proof. intros Ha. apply mask_all_absent. intros w (_ & v & Hv & Hw)%elem_of_ordered. by eapply Ha. Qed.

(** After masking, the text contains none of the secrets, neither in plain nor in one
    of the base64 and URL encodings, the URL encodings also with lower-case digits,
    provided no secret contains an asterisk; and a text with no such occurrence is not
    changed. *)
Theorem masked_clean text values :
  (∀ v, v ∈ values → starless v) →
  (∀ v w, v ∈ values → w ∈ variants_of v →
     ¬ occurs w (Mask text values) ∧ (contains_byte "%" w = true → ¬ occurs (ToLower w) (Mask text values))) ∧
  ((∀ v w, v ∈ values → w ∈ variants_of v → ¬ occurs w text ∧ ¬ occurs (ToLower w) text) → Mask text values = text).
Proof. intros Hs. split; [intros v w; by apply Mask_gone|apply Mask_absent]. Qed.

End claims.

(** ** Examples *)

#[local] Instance in_order : StringRange := {| range_strings := elements; range_strings_perm _ := reflexivity _ |}.

Definition logged : string := "key=p/w d; Authorization: cC93IGQ=; q=p%2fw+d".

Lemma masked_clean_witness :
  Mask logged ["p/w d"] = "key=******; Authorization: ******; q=******" ∧ ¬ occurs "p/w d" (Mask logged ["p/w d"]).
Proof.
  split; [vm_compute; reflexivity|]. refine (proj1 (proj1 (masked_clean logged ["p/w d"] _) "p/w d" "p/w d" _ _)).
  - intros v Hv. apply list_elem_of_singleton in Hv as ->. reflexivity.
  - apply list_elem_of_singleton. reflexivity.
  - vm_compute. left.
Defined.
