(* ===== verification/Secrets.v ===== *)
(** * Secrets

    [internal/secret]: envelope encryption of the secrets (service.go), their table
    (postgres.go), the master key in a file (key_provider.go) and the values a run may
    read (run_values.go).

    AES-GCM is the interface [AEAD]; the file of the master key is a parameter of the
    provider.  The context's creator is an argument. *)

From S2P Require Import Prelude GoStd GoPath GoCrypto Model World Schema Session Reconcile.

(** ** Data *)

Definition ScopeUser : string := "user".
Definition ScopeSystem : string := "system".

Record Metadata : Type := mkMetadata {
  md_ID : string; md_Name : string; md_Scope : string; md_CreatedBy : string; md_CreatedAt : Time; md_UpdatedAt : Time
}.

Record StoredSecret : Type := mkStoredSecret {
  ss_Metadata : Metadata; ss_Ciphertext : list Z; ss_CiphertextNonce : list Z; ss_EncryptedDataKey : list Z; ss_DataKeyNonce : list Z;
  ss_KeyVersion : Z
}.

Record MasterKey : Type := mkMasterKey { mk_Version : Z; mk_Material : list Z }.

(** The table [secrets] by identifier. *)
Record SecretTables : Type := mkSecretTables { secret_rows : gmap string StoredSecret }.

(** [cipher.NewGCM(aes)]: what was sealed opens with the same key, nonce and data. *)
Class AEAD : Type := {
  gcm_seal : list Z → list Z → list Z → list Z → list Z;
  gcm_open : list Z → list Z → list Z → list Z → option (list Z);
  gcm_roundtrip : ∀ key nonce plaintext aad, gcm_open key nonce (gcm_seal key nonce plaintext aad) aad = Some plaintext
}.

Definition gcm_nonce_size : nat := 12.

(** [aes.NewCipher] accepts these keys. *)
Definition aes_key (key : list Z) : bool := bool_decide (length key ∈ [16; 24; 32]%nat).

(** ** key_provider.go *)

(** [base64.StdEncoding.DecodeString] *)
Definition base64_decode_padded (url : bool) (s : string) : option (list Z) :=
  let cs := List.filter (λ c, negb (line_end c)) (chars s) in
  let body := match rev cs with
              | "="%char :: "="%char :: front => rev front
              | "="%char :: front => rev front
              | _ => cs
              end in
  if (length cs mod 4 =? 0)%nat then values ← mapM (base64_value url) body; decode_values values else None.

Definition key_material (body : string) : option (list Z) :=
  let material := TrimSpace body in
  if len material =? 32 then Some (bytes_of material)
  else
    match (match base64_decode_padded false material with Some decoded => Some decoded | None => base64_decode false material end) with
    | Some decoded => if Z.of_nat (length decoded) =? 32 then Some decoded else None
    | None => None
    end.

Record FileKeyProvider : Type := mkFileKeyProvider { fk_path : string; fk_version : Z }.

Definition NewFileKeyProvider (path : string) (version : Z) : FileKeyProvider := mkFileKeyProvider (TrimSpace path) version.

Section service.
Context {C : Type} `{!Has DB C, !Has SecretTables C, aead : !AEAD}.

(** The files of the host. *)
Context (read_file : string → option string) (keys : FileKeyProvider).

Definition ByVersion (version : Z) : Prog C MasterKey :=
  if bool_decide (fk_path keys = "") || (version <=? 0) || negb (version =? fk_version keys) then throw ErrKeyUnavailable
  else
    let! body := catch (observe "读取主密钥" (λ _, read_file (fk_path keys))) in
    match body with
    | Ok (Some body) =>
      match key_material body with
      | Some material => ret (mkMasterKey version material)
      | None => throw ErrKeyUnavailable
      end
    | _ => throw ErrKeyUnavailable
    end.

Definition Current : Prog C MasterKey := ByVersion (fk_version keys).

(** ** service.go *)

Definition validMasterKey (key : MasterKey) : bool := (0 <? mk_Version key) && (Z.of_nat (length (mk_Material key)) =? 32).

Definition associatedData (id name : string) (version : Z) : list Z :=
  bytes_of "yunling-secret" ++ [0] ++ bytes_of id ++ [0] ++ bytes_of name ++ [0] ++ bytes_of (format_int version).

Definition seal (key plaintext aad : list Z) : Prog C (list Z * list Z) :=
  if negb (aes_key key) then throw (EOther "crypto/aes: invalid key size")
  else let! nonce := rand_read gcm_nonce_size in ret (gcm_seal key nonce plaintext aad, nonce).

Definition open_sealed (key nonce ciphertext aad : list Z) : option (list Z) :=
  if aes_key key && (length nonce =? gcm_nonce_size)%nat then gcm_open key nonce ciphertext aad else None.

(** ** postgres.go *)

Definition insert_secret (value : StoredSecret) (c : C) : option (C * Metadata) :=
  let d := part (X := DB) c in
  let rows := secret_rows (part (X := SecretTables) c) in
  let m := ss_Metadata value in
  if bool_decide (is_Some (rows !! md_ID m)) || existsb (λ p, bool_decide (md_Name (ss_Metadata p.2) = md_Name m)) (map_to_list rows) ||
     negb ((0 <? ss_KeyVersion value) && (ss_KeyVersion value <? 2 ^ 31)) ||
     negb (bool_decide (md_CreatedBy m = "" ∨ md_CreatedBy m ∈ users d))
  then None
  else Some (set_part (mkSecretTables (<[md_ID m := value]> rows)) c, m).

Definition Secrets_Create (value : StoredSecret) : Prog C Metadata := remote "保存敏感参数" (insert_secret value).

Definition Secrets_Load (ids : list string) : Prog C (list StoredSecret) :=
  match ids with
  | [] => ret []
  | _ => pool_query "读取敏感参数密文" (λ t, (filter (λ p, p.1 ∈ ids) (map_to_list (secret_rows t))).*2)
  end.

Definition Secrets_List : Prog C (list Metadata) :=
  pool_query "读取敏感参数列表" (λ t,
    stable_sort (λ a b, (md_CreatedAt b <? md_CreatedAt a) || ((md_CreatedAt a =? md_CreatedAt b) && string_lt (md_ID b) (md_ID a)))
      (filter (λ m, md_Scope m = ScopeUser) (ss_Metadata <$> (map_to_list (secret_rows t)).*2))).

Definition create_secret (creator name : string) (plaintext : list Z) (scope : string) : Prog C Metadata :=
  let name := TrimSpace name in
  if bool_decide (name = "") || (Z.of_nat (length plaintext) =? 0) || negb (bool_decide (scope ∈ [ScopeUser; ScopeSystem])) then throw ErrInvalidSecret
  else
    let! master := catch Current in
    match master with
    | Err _ => throw ErrKeyUnavailable
    | Ok master =>
      if negb (validMasterKey master) then throw ErrKeyUnavailable
      else
        let! id := new_uuid in
        let! now := clock_now in
        let metadata := mkMetadata id name scope creator now now in
        let aad := associatedData id name (mk_Version master) in
        let! dataKey := rand_read 32 in
        let! sealed := seal dataKey plaintext aad in
        let! wrapped := seal (mk_Material master) dataKey aad in
        Secrets_Create (mkStoredSecret metadata sealed.1 sealed.2 wrapped.1 wrapped.2 (mk_Version master))
    end.

Definition Secret_Create (creator name : string) (plaintext : list Z) : Prog C Metadata := create_secret creator name plaintext ScopeUser.
Definition CreateSystem (creator name : string) (plaintext : list Z) : Prog C Metadata := create_secret creator name plaintext ScopeSystem.

(** The references in the order of their first occurrence; an empty one is refused. *)
Fixpoint unique_refs (seen : gset string) (refs : list string) : option (list string) :=
  match refs with
  | [] => Some []
  | id :: rest =>
    if bool_decide (TrimSpace id = "") then None
    else if bool_decide (id ∈ seen) then unique_refs seen rest
    else ids ← unique_refs ({[id]} ∪ seen) rest; Some (id :: ids)
  end.

Fixpoint decrypt_all (stored : list StoredSecret) (result : gmap string (list Z)) : Prog C (gmap string (list Z)) :=
  match stored with
  | [] => ret result
  | item :: rest =>
    let! master := catch (ByVersion (ss_KeyVersion item)) in
    match master with
    | Err _ => throw ErrKeyUnavailable
    | Ok master =>
      if negb (validMasterKey master) || negb (mk_Version master =? ss_KeyVersion item) then throw ErrKeyUnavailable
      else
        let aad := associatedData (md_ID (ss_Metadata item)) (md_Name (ss_Metadata item)) (ss_KeyVersion item) in
        match open_sealed (mk_Material master) (ss_DataKeyNonce item) (ss_EncryptedDataKey item) aad with
        | None => throw ErrKeyUnavailable
        | Some dataKey =>
          if negb (Z.of_nat (length dataKey) =? 32) then throw ErrKeyUnavailable
          else
            match open_sealed dataKey (ss_CiphertextNonce item) (ss_Ciphertext item) aad with
            | None => throw (EOther "解密敏感参数")
            | Some plaintext => decrypt_all rest (<[md_ID (ss_Metadata item) := plaintext]> result)
            end
        end
    end
  end.

Definition Secret_Resolve (refs : list string) : Prog C (gmap string (list Z)) :=
  match unique_refs ∅ refs with
  | None => throw ErrInvalidSecret
  | Some unique =>
    let! stored := Secrets_Load unique in
    if negb (length stored =? length unique)%nat then throw ErrSecretNotFound else decrypt_all stored ∅
  end.

Definition ResolveForRun (refs : list string) : Prog C (gmap string string) :=
  let! values := Secret_Resolve refs in ret (text_of <$> values).

(** ** run_values.go *)

Definition bindings_for (runID executionToken : string) (d : DB) : option (gmap string string) :=
  match task_runs d !! runID with
  | Some row => if bool_decide (tr_execution_token row = Some executionToken) then secret_refs_of runID d else None
  | None => None
  end.

(** The identifiers in the order of the names, each once. *)
Fixpoint dedup_ids (seen : gset string) (ids : list string) : list string :=
  match ids with
  | [] => []
  | id :: rest => if bool_decide (id ∈ seen) then dedup_ids seen rest else id :: dedup_ids ({[id]} ∪ seen) rest
  end.

Definition bound_ids (bindings : gmap string string) : list string :=
  dedup_ids ∅ (omap (λ name, bindings !! name) (stable_sort string_lt (map_to_list bindings).*1)).

Definition ValuesForRun (runID executionToken : string) : Prog C (list string) :=
  if bool_decide (runID = "") || bool_decide (executionToken = "") then throw ErrRunAccessDenied
  else
    let! bindings := pool_query "" (bindings_for runID executionToken) in
    match bindings with
    | None => throw ErrRunAccessDenied
    | Some bindings =>
      let ids := bound_ids bindings in
      let! resolved := ResolveForRun ids in
      match mapM (λ id, resolved !! id) ids with
      | Some values => ret values
      | None => throw ErrSecretNotFound
      end
    end.

End service.

(** ** What is stored can be read back *)

Definition secrets_ok (t : SecretTables) : Prop := ∀ id row, secret_rows t !! id = Some row → md_ID (ss_Metadata row) = id.

Definition secrets_kept (t t' : SecretTables) : Prop := secrets_ok t → secrets_ok t' ∧ secret_rows t ⊆ secret_rows t'.

#[export] Instance secrets_kept_preorder : PreOrder secrets_kept.
Proof. split; [done|]. intros a b c H1 H2 Ha. destruct (H1 Ha) as [Hb S1]. destruct (H2 Hb). split; [done|by etrans]. Qed.

Section reading.
Context {C : Type} `{!Has DB C, !Has SecretTables C, aead : !AEAD}.
Context (read_file : string → option string) (keys : FileKeyProvider).

(** The master key of the file, if it is there. *)
Definition master_material (version : Z) : option (list Z) :=
  if bool_decide (fk_path keys = "") || (version <=? 0) || negb (version =? fk_version keys) then None
  else body ← read_file (fk_path keys); key_material body.

Lemma key_material_length body material : key_material body = Some material → length material = 32%nat.
Proof.
  unfold key_material. destruct (len _ =? 32) eqn:E.
  - intros [= <-]. rewrite length_bytes_of. unfold len in E. lia.
  - destruct (match base64_decode_padded _ _ with Some _ => _ | None => _ end) as [decoded|]; [|done].
    destruct (Z.of_nat (length decoded) =? 32) eqn:El; [|done]. intros [= <-]. lia.
Qed.

Lemma wp_ByVersion version (c : C) (Q : Result MasterKey → C → Prop) :
  (∀ e, Q (Err e) c) → (∀ material, master_material version = Some material → Q (Ok (mkMasterKey version material)) c) →
  wp (ByVersion read_file keys version) c Q.
Proof.
  intros He HQ. unfold ByVersion, master_material in *. destruct (_ || _); [by apply wp_throw|]. apply wp_bind, wp_catch, wp_observe; [by apply wp_throw|].
  destruct (read_file _) as [body|]; [|by apply wp_throw]. simpl in HQ. destruct (key_material body) as [m|]; [|by apply wp_throw]. by apply wp_ret, HQ.
Qed.

(** The plaintext of a row. *)
Definition opened (item : StoredSecret) : option (list Z) :=
  let aad := associatedData (md_ID (ss_Metadata item)) (md_Name (ss_Metadata item)) (ss_KeyVersion item) in
  material ← master_material (ss_KeyVersion item);
  dataKey ← open_sealed material (ss_DataKeyNonce item) (ss_EncryptedDataKey item) aad;
  if Z.of_nat (length dataKey) =? 32 then open_sealed dataKey (ss_CiphertextNonce item) (ss_Ciphertext item) aad else None.

Abbreviation item_id item := (md_ID (ss_Metadata item)).

Lemma validMasterKey_material version material : master_material version = Some material → validMasterKey (mkMasterKey version material) = true.
Proof.
  unfold master_material. destruct (_ || _) eqn:E; [done|]. intros (body & _ & Hm%key_material_length)%bind_Some.
  unfold validMasterKey. simpl. rewrite Hm. apply orb_false_iff in E as [E _]. apply orb_false_iff in E as [_ E]. apply andb_true_iff. split; [lia|done].
Qed.

Lemma wp_decrypt_all stored result (c : C) :
  NoDup ((λ item, item_id item) <$> stored) →
  wp (decrypt_all read_file keys stored result) c (λ r c', c' = c ∧ ∀ values, r = Ok values →
    (∀ item, item ∈ stored → ∃ p, opened item = Some p ∧ values !! item_id item = Some p) ∧
    (∀ id, id ∉ ((λ item, item_id item) <$> stored) → values !! id = result !! id)).
Proof.
  revert result. induction stored as [|item rest IH]; intros result Hnd; simpl.
  - apply wp_ret. split; [done|]. intros values [= <-]. split; [|done]. intros item Hin. by apply elem_of_nil in Hin.
  - apply NoDup_cons in Hnd as [Hni Hnd]. apply wp_bind, wp_catch, wp_ByVersion; [intros e; by apply wp_throw|]. intros material Hm.
    rewrite (validMasterKey_material _ _ Hm). simpl. rewrite Z.eqb_refl. simpl.
    destruct (open_sealed material _ _ _) as [dataKey|] eqn:Ek; [|by apply wp_throw].
    destruct (Z.of_nat (length dataKey) =? 32) eqn:El; simpl; [|by apply wp_throw].
    destruct (open_sealed dataKey _ _ _) as [p|] eqn:Ep; [|by apply wp_throw].
    assert (opened item = Some p) as Ho by (unfold opened; rewrite Hm; simpl; rewrite Ek; simpl; by rewrite El).
    eapply wp_mono; [by apply IH|]. intros r c' [-> H]. split; [done|]. intros values Hr. destruct (H values Hr) as [H1 H2]. split.
    + intros item' [->|Hin]%elem_of_cons; [|by apply H1]. exists p. split; [done|]. rewrite H2 by done. apply lookup_insert_eq.
    + intros id [Hne Hni']%not_elem_of_cons. rewrite H2 by done. by apply lookup_insert_ne.
Qed.

Lemma loaded_ids (t : SecretTables) (ids : list string) :
  secrets_ok t → (λ item, item_id item) <$> (filter (λ p, p.1 ∈ ids) (map_to_list (secret_rows t))).*2 = (filter (λ p, p.1 ∈ ids) (map_to_list (secret_rows t))).*1.
Proof.
  intros Hok. rewrite <-list_fmap_compose. apply list_fmap_ext. intros i [id row] Hi. simpl. apply list_elem_of_lookup_2, list_elem_of_filter in Hi as [_ Hi].
  apply elem_of_map_to_list in Hi. by apply Hok.
Qed.

Lemma loaded_nodup (t : SecretTables) (ids : list string) : NoDup (filter (λ p, p.1 ∈ ids) (map_to_list (secret_rows t))).*1.
Proof. eapply sublist_NoDup; [apply (NoDup_fst_map_to_list (secret_rows t))|]. apply fmap_sublist, sublist_filter. Qed.

Lemma unique_refs_elem seen refs ids : unique_refs seen refs = Some ids → ∀ id, id ∈ refs → id ∉ seen → id ∈ ids.
Proof.
  revert seen ids. induction refs as [|r refs IH]; intros seen ids; simpl; [intros _ id Hin; by apply elem_of_nil in Hin|].
  case_bool_decide; [done|]. case_bool_decide as Hs.
  - intros H' id [->|Hin]%elem_of_cons Hni; [done|by eapply IH].
  - intros (rest & Hr & [= <-])%bind_Some id Hin Hni. destruct (decide (id = r)) as [->|Hne]; [left|]. right.
    apply elem_of_cons in Hin as [?|Hin]; [done|]. eapply IH; [exact Hr|done|]. set_solver.
Qed.

(** Resolving gives, for each reference, the plaintext of its row. *)
Lemma Secret_Resolve_spec refs (c : C) :
  secrets_ok (part c) →
  wp (Secret_Resolve read_file keys refs) c (λ r c', c' = c ∧ ∀ values, r = Ok values →
    (∀ id row, id ∈ refs → secret_rows (part c) !! id = Some row → ∃ p, opened row = Some p ∧ values !! id = Some p) ∧
    (∀ id p, values !! id = Some p → ∃ row, secret_rows (part c) !! id = Some row ∧ opened row = Some p)).
Proof.
  intros Hok. unfold Secret_Resolve. destruct (unique_refs ∅ refs) as [unique|] eqn:Eu; [|by apply wp_throw].
  assert (∀ (k : list StoredSecret → Prog C (gmap string (list Z))) (Q : Result (gmap string (list Z)) → C → Prop), (∀ e, Q (Err e) c) →
    (∀ stored, stored = (filter (λ p, p.1 ∈ unique) (map_to_list (secret_rows (part c)))).*2 → wp (k stored) c Q) →
    wp (bind (Secrets_Load unique) k) c Q) as Hload.
  { intros k Q He Hk. apply wp_bind. unfold Secrets_Load. destruct unique as [|u us]; [|apply wp_pool_query; [apply He|by apply Hk]].
    apply wp_ret, Hk. clear Hk. induction (map_to_list _) as [|p l IH]; [done|]. rewrite filter_cons_False; [exact IH|]. apply not_elem_of_nil. }
  apply Hload; [done|]. intros stored Hst. destruct (_ =? _)%nat; simpl; [|by apply wp_throw].
  eapply wp_mono; [apply wp_decrypt_all; rewrite Hst, loaded_ids by done; apply loaded_nodup|]. intros r c' [-> H]. split; [done|].
  intros values Hr. destruct (H values Hr) as [H1 H2].
  assert (∀ id row, id ∈ unique → secret_rows (part c) !! id = Some row → row ∈ stored) as Hin.
  { intros id row Hu Hrow. rewrite Hst. apply list_elem_of_fmap. exists (id, row). split; [done|]. apply list_elem_of_filter.
    split; [done|by apply elem_of_map_to_list]. }
  split.
  - intros id row Hid Hrow. destruct (H1 row) as (p & Hp & Hv); [eapply Hin; [|exact Hrow]; eapply unique_refs_elem; [exact Eu|done|set_solver]|].
    exists p. by rewrite <-(Hok _ _ Hrow).
  - intros id p Hp. destruct (decide (id ∈ ((λ item, item_id item) <$> stored))) as [Hi|Hni]; [|by rewrite H2 in Hp].
    apply list_elem_of_fmap in Hi as (row & -> & Hi). destruct (H1 row Hi) as (p' & Hp' & Hv). rewrite Hp in Hv. injection Hv as <-.
    exists row. split; [|done]. rewrite Hst in Hi. apply list_elem_of_fmap in Hi as ([i row'] & -> & [_ Hi%elem_of_map_to_list]%list_elem_of_filter).
    simpl. by rewrite (Hok _ _ Hi).
Qed.

(** Only faults keep readable secrets from being resolved. *)
Lemma under_ByVersion W version material (c : C) Q :
  master_material version = Some material → (∀ e, faulty W → Q (Err e) c) → Q (Ok (mkMasterKey version material)) c →
  under W (ByVersion read_file keys version) c Q.
Proof.
  intros Hm He HQ. unfold ByVersion, master_material in *. destruct (_ || _); [discriminate Hm|]. apply under_bind, under_catch, under_observe.
  - intros Hf. by apply under_throw, He.
  - destruct (read_file _) as [body|]; [|discriminate Hm]. simpl in Hm. rewrite Hm. by apply under_ret.
Qed.

Lemma under_decrypt_all W stored result (c : C) Q :
  (∀ item, item ∈ stored → is_Some (opened item)) → (∀ e, faulty W → Q (Err e) c) → (∀ values, dom values = list_to_set ((λ item, item_id item) <$> stored) ∪ dom result → Q (Ok values) c) →
  under W (decrypt_all read_file keys stored result) c Q.
Proof.
  intros Ho He. revert result. induction stored as [|item rest IH]; intros result HQ; simpl; [apply under_ret, HQ; set_solver|].
  destruct (Ho item ltac:(left)) as [p Hp]. unfold opened in Hp. apply bind_Some in Hp as (material & Hm & Hp). apply bind_Some in Hp as (dataKey & Hk & Hp).
  apply under_bind, under_catch. eapply under_ByVersion; [exact Hm|intros e Hf; by apply under_throw, He|].
  rewrite (validMasterKey_material _ _ Hm). simpl. rewrite Z.eqb_refl, Hk. simpl. destruct (_ =? 32); [|discriminate Hp]. simpl. rewrite Hp.
  apply IH; [intros x Hx; apply Ho; by right|]. intros values Hv. apply HQ. rewrite Hv, dom_insert_L. simpl. set_solver.
Qed.

Lemma loaded_perm (t : SecretTables) ids : NoDup ids → (∀ id, id ∈ ids → is_Some (secret_rows t !! id)) → (filter (λ p, p.1 ∈ ids) (map_to_list (secret_rows t))).*1 ≡ₚ ids.
Proof.
  intros Hnd Hids. apply NoDup_Permutation; [apply loaded_nodup|done|]. intros id. rewrite list_elem_of_fmap. split.
  - intros ([id' row] & -> & [H _]%list_elem_of_filter). done.
  - intros Hid. destruct (Hids id Hid) as [row Hrow]. exists (id, row). split; [done|]. apply list_elem_of_filter. split; [done|by apply elem_of_map_to_list].
Qed.

Lemma forward_decrypt_all stored result : forward (C := C) (decrypt_all read_file keys stored result).
Proof. revert result. induction stored as [|item rest IH]; intros result; simpl; unfold ByVersion; repeat first [apply IH|forward_tx]. Qed.

Lemma forward_Resolve refs : forward (C := C) (Secret_Resolve read_file keys refs).
Proof. unfold Secret_Resolve, Secrets_Load. repeat first [apply forward_decrypt_all|forward_tx]. Qed.

Lemma unique_refs_inv seen refs ids :
  unique_refs seen refs = Some ids → NoDup ids ∧ (∀ id, id ∈ ids → id ∈ refs ∧ id ∉ seen) ∧ (∀ id, id ∈ refs → TrimSpace id ≠ "").
Proof.
  revert seen ids. induction refs as [|r refs IH]; intros seen ids; simpl.
  - intros [= <-]. split_and!; [apply NoDup_nil_2|set_solver..].
  - case_bool_decide as Hb; [done|]. case_bool_decide as Hs.
    + intros (H1 & H2 & H3)%IH. split_and!; [done| |]; intros id Hid; [split; [right|]; by apply H2|]. apply elem_of_cons in Hid as [->|Hid]; auto.
    + intros (rest & (H1 & H2 & H3)%IH & [= <-])%bind_Some. split_and!.
      * apply NoDup_cons. split; [|done]. intros Hr. apply H2 in Hr. set_solver.
      * intros id [->|Hid]%elem_of_cons; [split; [left|done]|]. apply H2 in Hid. set_solver.
      * intros id [->|Hid]%elem_of_cons; auto.
Qed.

(** All the references are resolved, or none. *)
Lemma Secret_Resolve_dom refs (c : C) :
  secrets_ok (part c) →
  wp (Secret_Resolve read_file keys refs) c (λ r c', ∀ values, r = Ok values →
    dom values = list_to_set refs ∧ ∀ id, id ∈ refs → TrimSpace id ≠ "" ∧ is_Some (secret_rows (part c) !! id)).
Proof.
  intros Hok. unfold Secret_Resolve. destruct (unique_refs ∅ refs) as [unique|] eqn:Eu; [|by apply wp_throw].
  pose proof (unique_refs_inv _ _ _ Eu) as (Hnd & Hin & Hb). apply wp_bind. set (loaded := filter (λ p, p.1 ∈ unique) (map_to_list (secret_rows (part c)))).
  assert (wp (Secrets_Load unique) c (λ r c', c' = c ∧ ∀ stored, r = Ok stored → stored = loaded.*2)) as Hload.
  { unfold Secrets_Load. destruct unique as [|u us]; [apply wp_ret|by apply wp_pool_query; [|split; [done|intros ? [= <-]]]]. split; [done|]. intros ? [= <-].
    unfold loaded. induction (map_to_list _) as [|p l IH]; [done|]. rewrite filter_cons_False; [exact IH|]. apply not_elem_of_nil. }
  eapply wp_mono; [exact Hload|]. intros [stored|e] c1 [-> Hst]; [|done]. specialize (Hst stored eq_refl) as ->.
  destruct (_ =? _)%nat eqn:El; simpl; [apply Nat.eqb_eq in El|by apply wp_throw].
  assert (loaded.*1 ≡ₚ unique) as Hperm.
  { apply submseteq_length_Permutation; [|rewrite <-El, !length_fmap; done]. apply NoDup_submseteq; [apply loaded_nodup|].
    intros id ([id' row] & -> & [H _]%list_elem_of_filter)%list_elem_of_fmap. done. }
  assert ((λ item, item_id item) <$> loaded.*2 = loaded.*1) as Hids by by apply loaded_ids.
  eapply wp_mono; [apply wp_decrypt_all; rewrite Hids; apply loaded_nodup|]. intros r c' [-> H] values Hr. destruct (H values Hr) as [H1 H2].
  rewrite Hids in H2.
  assert (∀ id, id ∈ refs ↔ id ∈ loaded.*1) as Hrefs.
  { intros id. rewrite Hperm. split; [intros Hid; eapply unique_refs_elem; [exact Eu|done|set_solver]|intros Hid; by apply Hin]. }
  split.
  - apply set_eq. intros id. rewrite elem_of_dom, elem_of_list_to_set, Hrefs. split; [intros [p Hp]|].
    + destruct (decide (id ∈ loaded.*1)) as [|Hn]; [done|]. rewrite H2 in Hp by done. by rewrite lookup_empty in Hp.
    + intros ([id' row] & -> & Hl)%list_elem_of_fmap. destruct (H1 row) as (p & _ & Hv); [apply list_elem_of_fmap; by exists (id', row)|].
      apply list_elem_of_filter in Hl as [_ Hl%elem_of_map_to_list]. simpl. exists p. by rewrite <-(Hok _ _ Hl).
  - intros id Hid. split; [by apply Hb|]. apply Hrefs, list_elem_of_fmap in Hid as ([id' row] & -> & [_ Hl%elem_of_map_to_list]%list_elem_of_filter). by exists row.
Qed.

(** Two secrets that can be read are resolved, unless a request fails. *)
Lemma Secret_Resolve_two W id1 id2 row1 row2 p1 p2 (c : C) :
  secrets_ok (part c) → id1 ≠ id2 → TrimSpace id1 ≠ "" → TrimSpace id2 ≠ "" →
  secret_rows (part c) !! id1 = Some row1 → opened row1 = Some p1 → secret_rows (part c) !! id2 = Some row2 → opened row2 = Some p2 →
  under W (Secret_Resolve read_file keys [id1; id2]) c (λ r c', c' = c ∧
    match r with Ok values => size values = 2%nat ∧ values !! id1 = Some p1 ∧ values !! id2 = Some p2 | Err _ => faulty W end).
Proof.
  intros Hok Hne Hb1 Hb2 H1 O1 H2 O2.
  assert (under W (Secret_Resolve read_file keys [id1; id2]) c (λ r _, match r with Ok values => size values = 2%nat | Err _ => faulty W end)) as Herr.
  { unfold Secret_Resolve. simpl. rewrite !bool_decide_false by set_solver. simpl. set (ids := [id1; id2]).
    apply under_bind, under_pool_query; [done|].
    assert (NoDup ids) as Hnd by (apply NoDup_cons; split; [set_solver|apply NoDup_singleton]).
    assert ((filter (λ p, p.1 ∈ ids) (map_to_list (secret_rows (part c)))).*1 ≡ₚ ids) as Hp.
    { apply loaded_perm; [done|]. intros id [->| ->%list_elem_of_singleton]%elem_of_cons; eauto. }
    assert (length (filter (λ p, p.1 ∈ ids) (map_to_list (secret_rows (part c)))).*2 = 2%nat) as ->.
    { apply Permutation_length in Hp. rewrite length_fmap. rewrite length_fmap in Hp. exact Hp. }
    simpl. apply under_decrypt_all; [|done|].
    2: { intros values Hv. rewrite loaded_ids in Hv by done. rewrite <-size_dom, Hv, dom_empty_L, right_id_L by apply _.
         rewrite size_list_to_set by apply loaded_nodup. apply Permutation_length in Hp. exact Hp. }
    intros item ([id row] & -> & [Hid Hin%elem_of_map_to_list]%list_elem_of_filter)%list_elem_of_fmap.
    simpl in *. apply elem_of_cons in Hid as [->| ->%list_elem_of_singleton]; simplify_eq; eauto. }
  eapply under_mono; [apply under_conj; [exact Herr|apply under_wp; [apply forward_Resolve|by apply Secret_Resolve_spec]]|].
  intros r c' [He [-> Hv]]. split; [done|]. destruct r as [values|e]; [|done].
  destruct (Hv values eq_refl) as [V1 V2]. destruct (V1 id1 row1) as (q1 & Q1 & L1); [left|done|]. destruct (V1 id2 row2) as (q2 & Q2 & L2); [right; left|done|].
  by simplify_eq.
Qed.

End reading.

(** ** The values of a run *)

Section values.
Context {C : Type} `{!Has DB C, !Has SecretTables C, aead : !AEAD}.
Context (read_file : string → option string) (keys : FileKeyProvider).

(** The plaintexts the run's bindings refer to, for the holder of its execution token. *)
Definition run_secrets (runID executionToken : string) (c : C) : option (list string) :=
  bindings ← bindings_for runID executionToken (part c);
  mapM (λ id, row ← secret_rows (part c) !! id; text_of <$> opened read_file keys row) (bound_ids bindings).

Lemma ValuesForRun_spec runID executionToken (c : C) :
  secrets_ok (part c) →
  wp (ValuesForRun read_file keys runID executionToken) c (λ r c', c' = c ∧ ∀ values, r = Ok values → run_secrets runID executionToken c = Some values).
Proof.
  intros Hok. unfold ValuesForRun, run_secrets. destruct (_ || _); [by apply wp_throw|]. apply wp_bind, wp_pool_query; [done|].
  destruct (bindings_for _ _ _) as [bindings|]; [|by apply wp_throw]. cbn [mbind option_bind]. unfold ResolveForRun.
  apply wp_bind, wp_bind. eapply wp_mono; [by apply Secret_Resolve_spec|]. intros [values|e] c' [-> H]; [|done]. apply wp_ret.
  destruct (mapM _ (bound_ids bindings)) as [result|] eqn:Em; [|by apply wp_throw]. apply wp_ret. split; [done|]. intros vs [= <-].
  apply mapM_Some in Em. apply mapM_Some. eapply Forall2_impl; [exact Em|]. intros id v Hv. simpl in Hv. rewrite lookup_fmap in Hv.
  apply fmap_Some in Hv as (p & Hp & ->). destruct (H values eq_refl) as [_ H2]. destruct (H2 id p Hp) as (row & Hrow & Ho).
  rewrite Hrow. simpl. by rewrite Ho.
Qed.

End values.

Section roundtrip.
Context {C : Type} `{!Has DB C, !Has SecretTables C, aead : !AEAD}.
Context (read_file : string → option string) (keys : FileKeyProvider).

Lemma insert_secret_kept value c c' m :
  insert_secret value c = Some (c', m) → m = ss_Metadata value ∧ secrets_kept (part c) (part c') ∧ secret_rows (part c') !! md_ID m = Some value.
Proof.
  unfold insert_secret. destruct (_ || _) eqn:E; [done|]. intros [= <- <-]. rewrite part_set. simpl.
  repeat (apply orb_false_iff in E as [E _]). apply bool_decide_eq_false, eq_None_not_Some in E. split; [done|]. split; [|apply lookup_insert_eq].
  intros Hok. split; [|by apply insert_subseteq]. intros id row. simpl. intros [[<- <-]|[_ H]]%lookup_insert_Some; [done|by apply Hok].
Qed.

(** A new secret opens to what was given. *)
Lemma create_secret_spec creator name plaintext scope (c : C) :
  wp (create_secret read_file keys creator name plaintext scope) c (λ r c',
    secrets_kept (part c) (part c') ∧
    ∀ m, r = Ok m → ∃ row, secret_rows (part c') !! md_ID m = Some row ∧ opened read_file keys row = Some plaintext).
Proof.
  unfold create_secret. cbv zeta. destruct (_ || _); [by apply wp_throw|]. apply wp_bind, wp_catch, wp_ByVersion; [intros; by apply wp_throw|].
  intros material Hm. rewrite (validMasterKey_material _ _ _ _ Hm). cbn [negb mk_Version mk_Material].
  apply wp_bind, wp_new_uuid; [done|]. intros id. apply wp_bind, wp_clock_now. intros now.
  unfold rand_read. apply wp_bind, wp_bind, wp_new_uuid; [done|]. intros seed. apply wp_ret. set (dataKey := take 32 _).
  assert (length dataKey = 32%nat) as Hlen. { unfold dataKey. rewrite length_take, length_app, length_replicate. lia. }
  clearbody dataKey. assert (aes_key dataKey = true) as Hk1 by (unfold aes_key; rewrite Hlen; done).
  assert (aes_key material = true) as Hk2.
  { unfold master_material in Hm. destruct (_ || _); [done|]. apply bind_Some in Hm as (body & _ & Hm%key_material_length). unfold aes_key. by rewrite Hm. }
  unfold seal. rewrite Hk1, Hk2. cbn [negb]. unfold rand_read.
  apply wp_bind, wp_bind, wp_bind, wp_new_uuid; [done|]. intros nonce1. apply wp_ret, wp_ret.
  apply wp_bind, wp_bind, wp_bind, wp_new_uuid; [done|]. intros nonce2. apply wp_ret, wp_ret. cbn [fst snd].
  assert (∀ seed, length (take gcm_nonce_size (bytes_of seed ++ replicate gcm_nonce_size 0)) = gcm_nonce_size) as Hn.
  { intros s. rewrite length_take, length_app, length_replicate. unfold gcm_nonce_size. lia. }
  apply wp_remote; [done|]. intros c' m H. apply insert_secret_kept in H as (-> & Hkept & Hrow). split; [|done].
  split; [done|]. intros m [= <-]. eexists. split; [exact Hrow|]. unfold opened. cbn [ss_KeyVersion ss_Metadata md_ID md_Name ss_DataKeyNonce ss_EncryptedDataKey ss_CiphertextNonce ss_Ciphertext].
  rewrite Hm. cbn [mbind option_bind]. unfold open_sealed. rewrite Hk2, !Hn, Nat.eqb_refl. cbn [andb]. rewrite gcm_roundtrip. cbn [mbind option_bind].
  rewrite Hlen. change (Z.of_nat 32 =? 32) with true. cbv iota. rewrite Hk1. cbn [andb]. apply gcm_roundtrip.
Qed.

(** Secrets created one after the other. *)
Definition create_all (secrets : list (string * string * list Z)) : Prog C unit :=
  for_each secrets (λ '(creator, name, plaintext), ignore (Secret_Create read_file keys creator name plaintext)).

Lemma create_all_kept secrets (c : C) : wp (create_all secrets) c (λ r c', r = Ok tt ∧ secrets_kept (part c) (part c')).
Proof.
  unfold create_all. apply wp_for_each with (I := λ _ c', secrets_kept (part c) (part c')); [done| |done].
  intros [[creator name] plaintext] rest c1 H1 _. apply wp_ignore. eapply wp_mono; [apply create_secret_spec|]. intros r c2 [H2 _]. by etrans.
Qed.

Lemma ByVersion_calm version material (c : C) ids t :
  master_material read_file keys version = Some material →
  ByVersion read_file keys version (c, calm ids t) = ((c, calm ids t), Ok (mkMasterKey version material)).
Proof.
  unfold master_material, ByVersion. destruct (_ || _); [done|]. intros (body & Hb & Hm)%bind_Some. unfold bind, catch, calm. rewrite observe_calm, Hb.
  by rewrite Hm.
Qed.

Lemma load_one (t : SecretTables) id row :
  secret_rows t !! id = Some row → (filter (λ p, p.1 ∈ [id]) (map_to_list (secret_rows t))).*2 = [row].
Proof.
  intros Hrow. pose proof (loaded_nodup t [id]) as Hnd. set (l := filter _ _) in *.
  assert (∀ p, p ∈ l → p = (id, row)) as Hall.
  { intros [i r] [Hi%list_elem_of_singleton Hin%elem_of_map_to_list]%list_elem_of_filter. simpl in *. subst. by simplify_eq. }
  assert ((id, row) ∈ l) as Hin.
  { apply list_elem_of_filter. split; [by apply list_elem_of_singleton|by apply elem_of_map_to_list]. }
  destruct l as [|x [|y l']]; [by apply elem_of_nil in Hin|by rewrite (Hall x) by (left)|].
  rewrite (Hall x), (Hall y) in Hnd by set_solver. simpl in Hnd. apply NoDup_cons in Hnd as [Hnd _]. by destruct Hnd; left.
Qed.

Lemma Secret_Resolve_calm id row p ids t (c : C) :
  secrets_ok (part c) → secret_rows (part c) !! id = Some row → opened read_file keys row = Some p → TrimSpace id ≠ "" →
  (Secret_Resolve read_file keys [id] (c, calm ids t)).2 = Ok {[id := p]}.
Proof.
  intros Hok Hrow Ho Hid. unfold Secret_Resolve. cbn [unique_refs]. rewrite bool_decide_false by done. rewrite bool_decide_false by set_solver.
  cbn [mbind option_bind]. unfold Secrets_Load, pool_query, bind. cbv beta iota. unfold calm. rewrite observe_calm, (load_one _ _ _ Hrow). cbn [length Nat.eqb negb decrypt_all].
  unfold opened in Ho. apply bind_Some in Ho as (material & Hm & Ho). apply bind_Some in Ho as (dataKey & Hk & Ho).
  unfold bind, catch. pose proof (ByVersion_calm (ss_KeyVersion row) material c ids t Hm) as Hby. unfold calm in Hby. rewrite Hby. cbv beta iota.
  rewrite (validMasterKey_material _ _ _ _ Hm). cbn [negb orb mk_Version mk_Material]. rewrite Z.eqb_refl, Hk. cbn [negb].
  destruct (_ =? 32); [|done]. cbn [negb]. rewrite Ho. cbn. by rewrite (Hok _ _ Hrow).
Qed.

(** C30: A secret that was stored is read back as it was given, now and after any number
    of further secrets, unless the database or the key file fails; and it is read back
    when nothing fails. *)
Theorem secret_roundtrip creator name plaintext scope others (c : C) :
  secrets_ok (part c) →
  wp (create_secret read_file keys creator name plaintext scope) c (λ r c', ∀ m, r = Ok m →
    wp (create_all others ;;! Secret_Resolve read_file keys [md_ID m]) c' (λ r' _, ∀ values, r' = Ok values → values !! md_ID m = Some plaintext) ∧
    (TrimSpace (md_ID m) ≠ "" → ∀ ids t, (Secret_Resolve read_file keys [md_ID m] (c', calm ids t)).2 = Ok {[md_ID m := plaintext]})).
Proof.
  intros Hok. eapply wp_mono; [apply create_secret_spec|]. intros r c' [Hkept H] m ->. destruct (H m eq_refl) as (row & Hrow & Ho).
  destruct (Hkept Hok) as [Hok' _]. split; [|intros Hid ids t; by eapply Secret_Resolve_calm].
  apply wp_bind. eapply wp_mono; [apply create_all_kept|]. intros r2 c2 [-> Hk2]. destruct (Hk2 Hok') as [Hok2 Hsub].
  eapply wp_mono; [by apply Secret_Resolve_spec|]. intros r' c3 [_ Hv] values Hr.
  destruct (proj1 (Hv values Hr) (md_ID m) row) as (p & Hp & ->); [left|by eapply lookup_weaken|]. by rewrite Ho in Hp.
Qed.

End roundtrip.

(** ** Examples *)

(** A cipher that hides nothing, and a state of the two kinds of tables. *)
#[local] Instance plain_aead : AEAD := {| gcm_seal _ _ plaintext _ := plaintext; gcm_open _ _ ciphertext _ := Some ciphertext; gcm_roundtrip _ _ _ _ := eq_refl |}.

Record Vault : Type := mkVault { va_db : DB; va_secrets : SecretTables }.

#[export] Instance vault_db : Has DB Vault.
Proof. refine {| part := va_db; set_part d v := mkVault d (va_secrets v) |}; [done|by intros []|done]. Defined.

#[export] Instance vault_secrets : Has SecretTables Vault.
Proof. refine {| part := va_secrets; set_part s v := mkVault (va_db v) s |}; [done|by intros []|done]. Defined.

Definition key_file (path : string) : option string :=
  if bool_decide (path = "/run/secrets/key") then Some "MDEyMzQ1Njc4OWFiY2RlZjAxMjM0NTY3ODlhYmNkZWY=" else None.
Definition vault_keys : FileKeyProvider := NewFileKeyProvider " /run/secrets/key" 2.
Definition empty_vault : Vault := mkVault empty_tables (mkSecretTables ∅).
Definition vault_seeds : list string := ["secret-1"; "data key"; "nonce"; "wrap nonce"].

Lemma secret_roundtrip_witness :
  let '((c', _), r) := create_secret key_file vault_keys "" "db password" (bytes_of "hunter2") ScopeUser (empty_vault, calm vault_seeds 5) in
  is_ok r = true ∧
  (ResolveForRun key_file vault_keys ["secret-1"] (c', calm [] 9)).2 = Ok {["secret-1" := "hunter2"]} ∧
  wp (Secret_Resolve key_file vault_keys ["secret-1"]) c' (λ r' _, ∀ values, r' = Ok values → values !! "secret-1" = Some (bytes_of "hunter2")).
Proof.
  assert (secrets_ok (part empty_vault)) as Hok by (intros id row H; discriminate H).
  pose proof (secret_roundtrip key_file vault_keys "" "db password" (bytes_of "hunter2") ScopeUser [] empty_vault Hok (calm vault_seeds 5)) as H.
  destruct (create_secret _ _ _ _ _ _ _) as [[c' o'] r] eqn:E.
  assert (r = Ok (mkMetadata "secret-1" "db password" "user" "" 5 5)) as Hr by (apply (f_equal snd) in E; cbn [snd] in E; rewrite <-E; vm_compute; reflexivity).
  split; [rewrite Hr; reflexivity|]. destruct (H _ Hr) as [H1 _]. split.
  - apply (f_equal (λ x, x.1.1)) in E. cbn [fst] in E. rewrite <-E. vm_compute. reflexivity.
  - intros o. exact (H1 o).
Defined.
