(* ===== verification/Logs.v ===== *)
(** * Logs

    [internal/logstream/service.go]: the chunks of output the agents send are masked,
    checked for their sequence and stored.

    A column of type [text] holds valid UTF-8 without the character NUL: PostgreSQL
    rejects any other parameter.  The mutex of the service serialises [Accept], as the
    model does. *)

From S2P Require Import Prelude GoStd GoPath GoCrypto Model World Schema Session RunEvents Reconcile Redaction Secrets.

Definition DefaultChunkSize : Z := 65536.
Definition StreamStdout : string := "stdout".
Definition StreamStderr : string := "stderr".
Definition StreamSystem : string := "system".

Record LogChunk : Type := mkLogChunk {
  lg_ArchiveCursor : Z; lg_RunID : string; lg_ExecutionToken : string; lg_Sequence : Z; lg_Stream : string; lg_Content : string;
  lg_CreatedAt : Time
}.

#[export] Instance eta_LogChunk : Eta LogChunk := λ l,
  mkLogChunk (lg_ArchiveCursor l) (lg_RunID l) (lg_ExecutionToken l) (lg_Sequence l) (lg_Stream l) (lg_Content l) (lg_CreatedAt l).

Definition validStream (stream : string) : bool := bool_decide (stream ∈ [StreamStdout; StreamStderr; StreamSystem]).

Definition validChunk (chunk : LogChunk) : bool :=
  negb (bool_decide (TrimSpace (lg_RunID chunk) = "") || bool_decide (TrimSpace (lg_ExecutionToken chunk) = "") || (lg_Sequence chunk =? 0)) &&
  validStream (lg_Stream chunk) && (len (lg_Content chunk) <=? DefaultChunkSize).

Definition nul : ascii := byte_char 0.
Definition pg_text (s : string) : bool := ValidString s && negb (contains_byte nul s).

(** The rows of a stream, and one of them. *)
Definition of_stream (runID token stream : string) (l : LogRow) : Prop :=
  lc_task_run_id l = runID ∧ lc_execution_token l = token ∧ lc_stream l = stream.

#[export] Instance of_stream_dec runID token stream l : Decision (of_stream runID token stream l).
Proof. unfold of_stream. apply _. Defined.

Definition stream_rows (runID token stream : string) (d : DB) : list LogRow := filter (of_stream runID token stream) (log_chunks d).

Definition max_sequence (rows : list LogRow) : Z := foldr Z.max 0 (lc_sequence <$> rows).

Definition find_chunk (chunk : LogChunk) (d : DB) : option LogChunk :=
  match filter (λ l, lc_sequence l = lg_Sequence chunk) (stream_rows (lg_RunID chunk) (lg_ExecutionToken chunk) (lg_Stream chunk) d) with
  | [] => None
  | l :: _ => Some (mkLogChunk 0 (lc_task_run_id l) (lc_execution_token l) (lc_sequence l) (lc_stream l) (lc_content l) (lc_created_at l))
  end.

Definition chunk_row (chunk : LogChunk) (cursor : Z) (received : Time) : LogRow :=
  mkLogRow (lg_RunID chunk) (lg_ExecutionToken chunk) (lg_Stream chunk) (lg_Sequence chunk) (lg_Content chunk) (len (lg_Content chunk))
    (lg_CreatedAt chunk) cursor received.

(** [INSERT INTO log_chunks ... SELECT ... FROM task_runs WHERE id=$1 AND execution_token=$2]:
    the number of rows, or a violated type or constraint. *)
Definition insert_chunk (chunk : LogChunk) (received : Time) (d : DB) : option (DB * bool) :=
  if negb (pg_text (lg_RunID chunk) && pg_text (lg_Content chunk)) then None
  else
    match task_runs d !! lg_RunID chunk with
    | Some row =>
      if negb (bool_decide (tr_execution_token row = Some (lg_ExecutionToken chunk))) then Some (d, false)
      else if negb (validStream (lg_Stream chunk)) || (lg_Sequence chunk <? 0) || (2 ^ 63 <=? lg_Sequence chunk) ||
              (2 ^ 31 <=? len (lg_Content chunk)) || bool_decide (is_Some (find_chunk chunk d)) then None
      else Some (d <| logs ::= λ l, l <| log_rows := log_rows l ++ [chunk_row chunk (log_cursor l + 1) received] |>
                                       <| log_cursor := log_cursor l + 1 |> |>, true)
    | None => Some (d, false)
    end.

Section service.
Context {C : Type} `{!Has DB C, range : !StringRange}.

(** [WithRedaction]: the source of the values to mask, when configured. *)
Context (redaction : option (string → string → Prog C (list string))).

Definition NextSequence (runID token stream : string) : Prog C Z :=
  pool_query "读取下一个日志序号" (λ d, max_sequence (stream_rows runID token stream d) + 1).

Definition Find (chunk : LogChunk) : Prog C (option LogChunk) := pool_query "读取日志块" (find_chunk chunk).

Definition Insert (chunk : LogChunk) : Prog C unit :=
  let! now := clock_now in
  let! inserted := pool "保存日志块" (insert_chunk chunk now) in
  if inserted then ret tt else throw (EOther "日志执行令牌与运行实例不匹配").

Definition stored_same (stored : Result (option LogChunk)) (chunk : LogChunk) : bool :=
  match stored with Ok (Some stored) => bool_decide (lg_Content stored = lg_Content chunk) | _ => false end.

(** From the sequence on, under the mutex. *)
Definition store_chunk (chunk : LogChunk) : Prog C Z :=
  let! next := NextSequence (lg_RunID chunk) (lg_ExecutionToken chunk) (lg_Stream chunk) in
  if next <? lg_Sequence chunk then throw ErrSequenceGap
  else if lg_Sequence chunk <? next then
    let! stored := Find chunk in
    if stored_same (Ok stored) chunk then ret next else throw ErrChunkConflict
  else
    let! inserted := catch (Insert chunk) in
    match inserted with
    | Ok _ => ret (next + 1)
    | Err e =>
      let! stored := catch (Find chunk) in
      if stored_same stored chunk then ret (next + 1) else throw e
    end.

Definition masked (chunk : LogChunk) : Prog C LogChunk :=
  match redaction with
  | None => ret chunk
  | Some values_for_run =>
    let! values := catch (values_for_run (lg_RunID chunk) (lg_ExecutionToken chunk)) in
    match values with
    | Ok values => ret (chunk <| lg_Content := Mask (lg_Content chunk) values |>)
    | Err _ => throw (EOther "读取任务敏感值用于日志脱敏")
    end
  end.

Definition Accept (chunk : LogChunk) : Prog C Z :=
  if negb (validChunk chunk) then throw ErrInvalidChunk
  else
    let! now := clock_now in
    let chunk := if is_zero_time (lg_CreatedAt chunk) then chunk <| lg_CreatedAt := now |> else chunk in
    let! chunk := masked chunk in
    store_chunk chunk.

End service.

(** ** The invariant of the streams *)

Record logs_ok (d : DB) : Prop := {
  lo_sequences : ∀ runID token stream, lc_sequence <$> stream_rows runID token stream d = seqZ 1 (Z.of_nat (length (stream_rows runID token stream d)));
  lo_rows : ∀ l, l ∈ log_chunks d → validStream (lc_stream l) = true ∧ pg_text (lc_content l) = true ∧
    lc_byte_size l = len (lc_content l) ∧ pg_text (lc_task_run_id l) = true;
  lo_cursors : StronglySorted Z.lt (lc_archive_cursor <$> log_chunks d) ∧ Forall (λ k, k ≤ log_cursor (logs d)) (lc_archive_cursor <$> log_chunks d)
}.

(** Rows are only added, at the end. *)
Definition logs_grow (d d' : DB) : Prop := ∃ l, d' = d <| logs := l |> ∧ log_chunks d `prefix_of` log_rows l ∧ run_log_archives l = run_log_archives (logs d).

#[export] Instance logs_grow_preorder : PreOrder logs_grow.
Proof.
  split; [intros d; exists (logs d); by destruct d|].
  intros d d' d'' (l & -> & H1 & A1) (l' & -> & H2 & A2). exists l'. split_and!; [done|by etrans|]. simpl in *. congruence.
Qed.

Definition log_step (d d' : DB) : Prop := logs_grow d d' ∧ (logs_ok d → logs_ok d').

#[export] Instance log_step_preorder : PreOrder log_step.
Proof. split; [done|]. intros a b c [H1 H2] [H3 H4]. split; [by etrans|auto]. Qed.

Lemma StronglySorted_snoc (l : list Z) x : StronglySorted Z.lt l → Forall (λ k, k < x) l → StronglySorted Z.lt (l ++ [x]).
Proof.
  induction 1 as [|y l Hl IH Hy]; intros Hx; simpl; [repeat constructor|]. apply Forall_cons in Hx as [Hyx Hx].
  constructor; [by apply IH|]. apply Forall_app. split; [done|by apply Forall_singleton].
Qed.

Lemma foldr_max_snoc l x : 0 ≤ x → foldr Z.max 0 (l ++ [x]) = Z.max (foldr Z.max 0 l) x.
Proof. intros Hx. induction l as [|y l IH]; simpl; [lia|]. rewrite IH. lia. Qed.

Lemma max_sequence_seqZ rows : lc_sequence <$> rows = seqZ 1 (Z.of_nat (length rows)) → max_sequence rows = Z.of_nat (length rows).
Proof.
  intros E. unfold max_sequence. rewrite E. generalize (length rows). intros n. induction n as [|n IH]; [done|].
  rewrite seqZ_S, foldr_max_snoc, IH by lia. lia.
Qed.

Lemma insert_chunk_inv chunk now d d' :
  insert_chunk chunk now d = Some (d', true) →
  (pg_text (lg_RunID chunk) = true ∧ pg_text (lg_Content chunk) = true) ∧ validStream (lg_Stream chunk) = true ∧ find_chunk chunk d = None ∧
  (∃ row, task_runs d !! lg_RunID chunk = Some row ∧ tr_execution_token row = Some (lg_ExecutionToken chunk)) ∧
  d' = d <| logs ::= λ l, l <| log_rows := log_rows l ++ [chunk_row chunk (log_cursor l + 1) now] |> <| log_cursor := log_cursor l + 1 |> |>.
Proof.
  unfold insert_chunk. destruct (pg_text (lg_RunID chunk)), (pg_text (lg_Content chunk)); [|done..]. simpl.
  destruct (task_runs d !! _) as [row|]; [|done].
  case_bool_decide as Ht; [|done]. simpl. destruct (_ || _) eqn:E; [done|]. intros [= <-].
  apply orb_false_iff in E as [E Ef%bool_decide_eq_false]. do 3 apply orb_false_iff in E as [E _]. apply negb_false_iff in E.
  split_and!; [done|done|done|by apply eq_None_not_Some|by exists row|done].
Qed.

Lemma stream_rows_app runID token stream d chunk cursor now l :
  log_rows l = log_chunks d ++ [chunk_row chunk cursor now] →
  stream_rows runID token stream (d <| logs := l |>) =
  stream_rows runID token stream d ++
  (if decide (lg_RunID chunk = runID ∧ lg_ExecutionToken chunk = token ∧ lg_Stream chunk = stream) then [chunk_row chunk cursor now] else []).
Proof.
  intros E. unfold stream_rows, log_chunks at 1. simpl. by rewrite E, filter_app.
Qed.

Lemma inserted_step chunk now d d' :
  insert_chunk chunk now d = Some (d', true) →
  lg_Sequence chunk = max_sequence (stream_rows (lg_RunID chunk) (lg_ExecutionToken chunk) (lg_Stream chunk) d) + 1 →
  log_step d d'.
Proof.
  intros ((Hid & Ht) & Hv & Hf & _ & ->)%insert_chunk_inv Hseq.
  set (l := (logs d) <| log_rows := log_rows (logs d) ++ [chunk_row chunk (log_cursor (logs d) + 1) now] |> <| log_cursor := log_cursor (logs d) + 1 |>).
  change (log_step d (d <| logs := l |>)). assert (log_rows l = log_chunks d ++ [chunk_row chunk (log_cursor (logs d) + 1) now]) as El by done.
  split; [exists l; split_and!; [done|rewrite El; by apply prefix_app_r|done]|]. intros [H1 H2 H3]. split.
  - intros runID token stream. rewrite (stream_rows_app _ _ _ _ _ _ _ _ El). case_decide as Hc; [|by rewrite app_nil_r].
    destruct Hc as (<- & <- & <-). rewrite fmap_app, H1, length_app, Nat.add_1_r, seqZ_S. simpl. do 2 f_equal.
    rewrite Hseq, max_sequence_seqZ by done. lia.
  - change (log_chunks (d <| logs := l |>)) with (log_rows l). rewrite El. intros r [Hr|Hr%list_elem_of_singleton]%elem_of_app; [by apply H2|].
    by subst r.
  - change (log_chunks (d <| logs := l |>)) with (log_rows l). rewrite El, fmap_app. destruct H3 as [Hs Hf3]. split.
    + apply StronglySorted_snoc; [done|]. eapply Forall_impl; [exact Hf3|]. intros k Hk. simpl in *. lia.
    + apply Forall_app. split; [|apply Forall_singleton; simpl; lia]. eapply Forall_impl; [exact Hf3|]. intros k Hk. simpl in *. lia.
Qed.

(** ** Accepting chunks *)

(** The stored chunk with the sequence and the content of [chunk]. *)
Definition stored_as (chunk : LogChunk) (d : DB) : Prop :=
  ∃ l, l ∈ log_chunks d ∧ of_stream (lg_RunID chunk) (lg_ExecutionToken chunk) (lg_Stream chunk) l ∧
    lc_sequence l = lg_Sequence chunk ∧ lc_content l = lg_Content chunk.

Lemma find_chunk_Some chunk d stored :
  find_chunk chunk d = Some stored → lg_Content stored = lg_Content chunk → stored_as chunk d.
Proof.
  unfold find_chunk. destruct (filter _ _) as [|l rest] eqn:E; [done|]. intros [= <-] Hc. simpl in Hc.
  assert (l ∈ filter (λ l, lc_sequence l = lg_Sequence chunk) (stream_rows (lg_RunID chunk) (lg_ExecutionToken chunk) (lg_Stream chunk) d)) as Hin
    by (rewrite E; left).
  apply list_elem_of_filter in Hin as [Hs [Ho Hin]%list_elem_of_filter]. by exists l.
Qed.

Lemma inserted_stored chunk now d d' : insert_chunk chunk now d = Some (d', true) → stored_as chunk d'.
Proof.
  intros (_ & _ & _ & _ & ->)%insert_chunk_inv. exists (chunk_row chunk (log_cursor (logs d) + 1) now). split; [|done].
  unfold log_chunks. simpl. apply elem_of_app. right. by apply list_elem_of_singleton.
Qed.

Section laws.
Context {C : Type} `{!Has DB C, range : !StringRange}.

Definition next_of (chunk : LogChunk) (d : DB) : Z :=
  max_sequence (stream_rows (lg_RunID chunk) (lg_ExecutionToken chunk) (lg_Stream chunk) d) + 1.

(** What storing a chunk may do: nothing, or the insertion of the next chunk. *)
Definition inserted (chunk : LogChunk) (d d' : DB) : Prop :=
  lg_Sequence chunk = next_of chunk d ∧ ∃ now, insert_chunk chunk now d = Some (d', true).

Lemma wp_Insert chunk (c : C) (Q : Result unit → C → Prop) :
  (∀ e, Q (Err e) c) → (∀ now d r, insert_chunk chunk now (part c) = Some (d, true) → Q r (set_part d c)) → wp (Insert chunk) c Q.
Proof.
  intros He HQ. apply wp_bind, wp_clock_now. intros now. apply wp_bind, wp_pool; [apply He|]. intros d [|] Hins; [split; [apply wp_ret|]; by eapply HQ|].
  assert (d = part c) as ->.
  { unfold insert_chunk in Hins. destruct (negb _); [done|]. destruct (task_runs _ !! _); [|by simplify_eq].
    destruct (negb _); [by simplify_eq|]. by destruct (_ || _). }
  rewrite set_part_same. split; [apply wp_throw|]; apply He.
Qed.

Lemma store_chunk_spec chunk :
  db_spec (C := C) (store_chunk chunk) (λ d r d',
    (d' = d ∨ inserted chunk d d') ∧
    (∀ n, r = Ok n → stored_as chunk d' ∧ lg_Sequence chunk < n ∧
       n = (if bool_decide (lg_Sequence chunk = next_of chunk d) then next_of chunk d + 1 else next_of chunk d))).
Proof.
  intros c. apply wp_bind, wp_pool_query; [split; [by rewrite set_part_same|]; split; [by left|done]|]. fold (next_of chunk (part c)).
  set (next := next_of chunk (part c)). assert (∀ e : Error, c = set_part (part c) c ∧ (part c = part c ∨ inserted chunk (part c) (part c)) ∧
    ∀ n, @Err Error Z e = Ok n → stored_as chunk (part c) ∧ lg_Sequence chunk < n ∧ n = (if bool_decide (lg_Sequence chunk = next) then next + 1 else next)) as Herr.
  { intros e. rewrite set_part_same. split_and!; [done|by left|done]. }
  destruct (next <? lg_Sequence chunk) eqn:E1; [apply wp_throw, Herr|]. destruct (lg_Sequence chunk <? next) eqn:E2.
  - apply wp_bind, wp_pool_query; [apply Herr|]. unfold stored_same. destruct (find_chunk chunk (part c)) as [stored|] eqn:Ef; [|apply wp_throw, Herr].
    destruct (bool_decide (lg_Content stored = _)) eqn:Hc; [apply bool_decide_eq_true in Hc|apply wp_throw, Herr]. apply wp_ret. rewrite set_part_same. split; [done|]. split; [by left|].
    intros n [= <-]. rewrite bool_decide_false by lia. split_and!; [by eapply find_chunk_Some|lia|done].
  - assert (lg_Sequence chunk = next) as Hseq by lia. rewrite (bool_decide_true (lg_Sequence chunk = next)) in * by done.
    assert (∀ (c' : C) e, (c' = c ∨ ∃ now d, insert_chunk chunk now (part c) = Some (d, true) ∧ c' = set_part d c) →
      wp (let! stored := catch (Find chunk) in if stored_same stored chunk then ret (next + 1) else throw e) c' (λ r c'',
        c'' = set_part (part c'') c ∧ (part c'' = part c ∨ inserted chunk (part c) (part c'')) ∧
        ∀ n, r = Ok n → stored_as chunk (part c'') ∧ lg_Sequence chunk < n ∧ n = next + 1)) as Hfind.
    { intros c' e Hc'. assert (c' = set_part (part c') c ∧ (part c' = part c ∨ inserted chunk (part c) (part c'))) as [Hs Hi].
      { destruct Hc' as [->|(now & d & Hins & ->)]; [rewrite set_part_same; split; [done|by left]|]. rewrite part_set.
        split; [done|]. right. split; [done|by exists now]. }
      apply wp_bind, wp_catch, wp_pool_query; simpl; [by apply wp_throw|]. unfold stored_same.
      destruct (find_chunk chunk (part c')) as [stored|] eqn:Ef; [|by apply wp_throw]. destruct (bool_decide (lg_Content stored = _)) eqn:Hc; [apply bool_decide_eq_true in Hc|by apply wp_throw].
      apply wp_ret. split_and!; [done|done|]. intros n [= <-]. split_and!; [by eapply find_chunk_Some|lia|done]. }
    apply wp_bind, wp_catch, wp_Insert; [intros e; apply Hfind; by left|]. intros now d [u|e] Hins; [|apply Hfind; right; by exists now, d].
    apply wp_ret. rewrite part_set. split; [done|]. split; [right; split; [done|by exists now]|]. intros n [= <-].
    split_and!; [by eapply inserted_stored|lia|done].
Qed.

(** *** The whole service *)

(** The source of the values changes nothing. *)
Definition reads_only (redaction : option (string → string → Prog C (list string))) : Prop :=
  ∀ values, redaction = Some values → ∀ runID token c, wp (values runID token) c (λ _ c', c' = c).

(** What is stored of a chunk: masked, with a time. *)
Definition stored_form (redaction : option (string → string → Prog C (list string))) (chunk stored : LogChunk) : Prop :=
  lg_RunID stored = lg_RunID chunk ∧ lg_ExecutionToken stored = lg_ExecutionToken chunk ∧ lg_Stream stored = lg_Stream chunk ∧
  lg_Sequence stored = lg_Sequence chunk ∧
  match redaction with None => lg_Content stored = lg_Content chunk | Some _ => ∃ values, lg_Content stored = Mask (lg_Content chunk) values end.

Lemma next_of_form redaction chunk stored d : stored_form redaction chunk stored → next_of stored d = next_of chunk d.
Proof. intros (E1 & E2 & E3 & _). unfold next_of. by rewrite E1, E2, E3. Qed.

(** [Accept] up to the point where the chunk is stored; [V] holds of the values masked. *)
Lemma wp_Accept_values redaction chunk (c : C) (V : list string → Prop) (Q : Result Z → C → Prop) :
  (∀ values, redaction = Some values →
     wp (values (lg_RunID chunk) (lg_ExecutionToken chunk)) c (λ r c', c' = c ∧ ∀ vs, r = Ok vs → V vs)) →
  (∀ e, Q (Err e) c) →
  (∀ stored, stored_form redaction chunk stored →
     (redaction = None ∨ ∃ vs, V vs ∧ lg_Content stored = Mask (lg_Content chunk) vs) → wp (store_chunk stored) c Q) →
  wp (Accept redaction chunk) c Q.
Proof.
  intros Hr He Hk. unfold Accept. destruct (negb _); [apply wp_throw, He|]. apply wp_bind, wp_clock_now. intros now.
  set (dated := if is_zero_time _ then _ else chunk). assert (lg_RunID dated = lg_RunID chunk ∧ lg_ExecutionToken dated = lg_ExecutionToken chunk ∧
    lg_Stream dated = lg_Stream chunk ∧ lg_Sequence dated = lg_Sequence chunk ∧ lg_Content dated = lg_Content chunk) as (E1 & E2 & E3 & E4 & E5)
    by (unfold dated; by destruct (is_zero_time _)).
  clearbody dated. apply wp_bind. unfold masked. destruct redaction as [values|].
  - apply wp_bind, wp_catch. rewrite E1, E2. eapply wp_mono; [by apply Hr|]. intros [vs|e] c' [-> HV]; [apply wp_ret|apply wp_throw, He].
    apply Hk; [split_and!; [done..|]|right]; simpl; exists vs; rewrite E5; auto.
  - apply wp_ret, Hk; [by split_and!|by left].
Qed.

Lemma wp_Accept redaction chunk (c : C) (Q : Result Z → C → Prop) :
  reads_only redaction → (∀ e, Q (Err e) c) →
  (∀ stored, stored_form redaction chunk stored → wp (store_chunk stored) c Q) →
  wp (Accept redaction chunk) c Q.
Proof.
  intros Hr He Hk. apply (wp_Accept_values _ _ _ (λ _, True)); [|done|auto]. intros values Hv.
  eapply wp_mono; [by apply Hr|]. intros r c' ->. done.
Qed.

Lemma moves_Accept redaction chunk (c : C) :
  reads_only redaction → wp (Accept redaction chunk) c (λ _ c', c' = set_part (part c') c ∧ log_step (part c) (part c')).
Proof.
  intros Hr. apply wp_Accept; [done|intros; by rewrite set_part_same|]. intros stored Hf.
  eapply wp_mono; [apply store_chunk_spec|]. intros r c' (Hc & [Hd|(Hs & now & Hins)] & _); (split; [exact Hc|]); [by rewrite Hd|by eapply inserted_step].
Qed.

(** Chunks accepted one after the other, whatever the answers. *)
Definition accept_all redaction (chunks : list LogChunk) : Prog C unit := for_each chunks (λ chunk, ignore (Accept redaction chunk)).

(** C28: Whatever chunks arrive, from whichever agents, in whatever order and however
    often, and whatever fails, the chunks of every stream of every execution are stored
    with the sequences 1, 2, 3, ... without a gap or a repetition, the cursors of the
    archive increase, and nothing stored is ever changed. *)
Theorem log_streams_contiguous redaction chunks (c : C) :
  reads_only redaction → logs_ok (part c) →
  wp (accept_all redaction chunks) c (λ r c', r = Ok tt ∧ logs_ok (part c') ∧ log_chunks (part c) `prefix_of` log_chunks (part c')).
Proof.
  intros Hr Hok. unfold accept_all. apply wp_for_each with (I := λ _ c', log_step (part c) (part c')); [done| |].
  - intros chunk rest c1 H1 _. apply wp_ignore. eapply wp_mono; [by apply moves_Accept|]. intros r c2 [_ H2]. by etrans.
  - intros c' [(l & Hl & Hp & _) Hok']. split_and!; [done|by apply Hok'|]. by rewrite Hl.
Qed.

(** An accepted chunk is stored, masked, under its sequence, and the answer is the
    next sequence of the stream; otherwise the logs are unchanged, unless the reply of
    the insertion was lost. *)
Theorem Accept_exact redaction chunk (c : C) :
  reads_only redaction → logs_ok (part c) →
  wp (Accept redaction chunk) c (λ r c',
    (∀ n, r = Ok n → n = next_of chunk (part c') ∧ lg_Sequence chunk < n ∧ ∃ stored, stored_form redaction chunk stored ∧ stored_as stored (part c')) ∧
    (part c' = part c ∨ lg_Sequence chunk = next_of chunk (part c) ∧ next_of chunk (part c') = next_of chunk (part c) + 1 ∧
       ∃ stored cursor now, stored_form redaction chunk stored ∧ log_chunks (part c') = log_chunks (part c) ++ [chunk_row stored cursor now])).
Proof.
  intros Hr Hok. apply wp_Accept; [done|intros e; split; [done|by left]|]. intros stored Hf.
  eapply wp_mono; [apply store_chunk_spec|]. intros r c' (Hc & Hstep & Hn). pose proof Hf as (F1 & F2 & F3 & F4 & _).
  assert (part c' = part c ∨ lg_Sequence chunk = next_of chunk (part c) ∧ next_of chunk (part c') = next_of chunk (part c) + 1 ∧
    ∃ stored cursor now, stored_form redaction chunk stored ∧ log_chunks (part c') = log_chunks (part c) ++ [chunk_row stored cursor now]) as Hs.
  { destruct Hstep as [?|(Hseq & now & Hins)]; [by left|right]. pose proof (inserted_step _ _ _ _ Hins Hseq) as [_ Hok'%(λ f, f Hok)].
    rewrite (next_of_form _ _ _ _ Hf), F4 in Hseq. split; [done|]. apply insert_chunk_inv in Hins as (_ & _ & _ & _ & Ed).
    assert (log_chunks (part c') = log_chunks (part c) ++ [chunk_row stored (log_cursor (logs (part c)) + 1) now]) as El by by rewrite Ed.
    split; [|by do 3 eexists]. unfold next_of. rewrite !max_sequence_seqZ by (by apply lo_sequences).
    assert (stream_rows (lg_RunID chunk) (lg_ExecutionToken chunk) (lg_Stream chunk) (part c') =
      stream_rows (lg_RunID chunk) (lg_ExecutionToken chunk) (lg_Stream chunk) (part c) ++ [chunk_row stored (log_cursor (logs (part c)) + 1) now]) as ->.
    { unfold stream_rows at 1. rewrite El, filter_app. f_equal. rewrite filter_cons_True; [done|]. by split_and!. }
    rewrite length_app. simpl. lia. }
  split; [|done]. intros n Hn'. destruct (Hn n Hn') as (H1 & H2 & H3). rewrite (next_of_form _ _ _ _ Hf), F4 in H3. rewrite F4 in H2.
  split_and!; [|done|by exists stored]. destruct Hs as [Hs|(Hq & -> & _)]; [|by rewrite bool_decide_true in H3]. rewrite Hs in H1 |- *.
  case_bool_decide as Hb; [|done]. destruct H1 as (l & Hl & Ho & Hsq & _). exfalso.
  assert (lc_sequence l ∈ lc_sequence <$> stream_rows (lg_RunID chunk) (lg_ExecutionToken chunk) (lg_Stream chunk) (part c)) as Hin.
  { apply list_elem_of_fmap. exists l. split; [done|]. apply list_elem_of_filter. rewrite <-F1, <-F2, <-F3. done. }
  rewrite lo_sequences in Hin by done. apply elem_of_seqZ in Hin. unfold next_of in Hb. rewrite max_sequence_seqZ in Hb by by apply lo_sequences. lia.
Qed.

(** Output with a NUL character is never accepted, in whatever state and whatever is
    accepted in between: PostgreSQL does not store it, the agent keeps the chunk at the
    head of its stream, and every attempt to deliver it ends the agent's connection. *)
Theorem nul_chunk_never_accepted redaction chunk others (c : C) :
  reads_only redaction →
  (∀ values, redaction = Some values → ∀ c, wp (values (lg_RunID chunk) (lg_ExecutionToken chunk)) c (λ r c', c' = c ∧ ∀ vs, r = Ok vs → vs = [])) →
  logs_ok (part c) → contains_byte nul (lg_Content chunk) = true →
  wp (accept_all redaction others ;;! Accept redaction chunk) c (λ r _, is_ok r = false).
Proof.
  intros Hr Hv Hok Hn. apply wp_bind. unfold accept_all. apply wp_for_each with (I := λ _ c', logs_ok (part c')); [done| |].
  - intros x rest c1 H1 _. apply wp_ignore. eapply wp_mono; [by apply moves_Accept|]. intros r c2 [_ [_ H2]]. by apply H2.
  - intros c' Hok'. apply (wp_Accept_values _ _ _ (λ vs, vs = [])); [intros values E; by apply Hv|done|]. intros stored Hf Hc.
    assert (lg_Content stored = lg_Content chunk) as Ec.
    { destruct Hf as (_ & _ & _ & _ & Hf). destruct Hc as [->|(vs & -> & Hc)]; [done|]. rewrite Hc. apply Mask_nothing. }
    eapply wp_mono; [apply store_chunk_spec|]. intros [n|e] c2 (_ & Hstep & Hstored); [|done]. destruct (Hstored n eq_refl) as ((l & Hl & _ & _ & El) & _).
    assert (logs_ok (part c2)) as Hok2.
    { destruct Hstep as [->|(Hseq & now & Hins)]; [done|]. by apply (inserted_step _ _ _ _ Hins Hseq). }
    destruct (lo_rows _ Hok2 _ Hl) as (_ & Ht & _). apply andb_true_iff in Ht as [_ Ht]. by rewrite El, Ec, Hn in Ht.
Qed.

(** A secret that is split over two chunks is stored as it is: each chunk is masked
    for itself. *)
Theorem split_secret_stored values secret chunk1 chunk2 (c : C) :
  (∀ runID token c, wp (values runID token) c (λ r c', c' = c ∧ ∀ vs, r = Ok vs → vs = [secret])) →
  starless secret → occurs secret (lg_Content chunk1 +:+ lg_Content chunk2) →
  (∀ w, w ∈ variants_of secret → ∀ chunk, chunk ∈ [chunk1; chunk2] → ¬ occurs w (lg_Content chunk) ∧ ¬ occurs (ToLower w) (lg_Content chunk)) →
  wp (Accept (Some values) chunk1 ;;! Accept (Some values) chunk2) c (λ r c', is_ok r = true →
    ∃ l1 l2, l1 ∈ log_chunks (part c') ∧ l2 ∈ log_chunks (part c') ∧
      lc_sequence l1 = lg_Sequence chunk1 ∧ lc_sequence l2 = lg_Sequence chunk2 ∧ occurs secret (lc_content l1 +:+ lc_content l2)).
Proof.
  intros Hv Hs Ho Hclean.
  assert (∀ chunk c, chunk ∈ [chunk1; chunk2] → wp (Accept (Some values) chunk) c (λ r c', log_chunks (part c) `prefix_of` log_chunks (part c') ∧
    (is_ok r = true → ∃ l, l ∈ log_chunks (part c') ∧ lc_sequence l = lg_Sequence chunk ∧ lc_content l = lg_Content chunk))) as Hone.
  { intros chunk c0 Hin. apply (wp_Accept_values _ _ _ (λ vs, vs = [secret])); [intros ? [= <-]; apply Hv|by split|].
    intros stored (_ & _ & _ & Hseq & _) [?|(vs & -> & Hc)]; [done|].
    assert (lg_Content stored = lg_Content chunk) as Ec.
    { rewrite Hc. apply Mask_absent. intros v w ->%list_elem_of_singleton Hw. by apply Hclean. }
    eapply wp_mono; [apply store_chunk_spec|]. intros r c' (_ & Hstep & Hstored). split.
    - destruct Hstep as [->|(_ & now & (_ & _ & _ & _ & ->)%insert_chunk_inv)]; [done|]. by apply prefix_app_r.
    - destruct r as [n|e]; [|done]. intros _. destruct (Hstored n eq_refl) as ((l & Hl & _ & Hsq & Hct) & _). exists l. by rewrite Hsq, Hct, Hseq, Ec. }
  apply wp_bind. eapply wp_mono; [apply Hone; left|]. intros [n|e] c1 [_ H1]; [|done]. destruct (H1 eq_refl) as (l1 & Hl1 & Hs1 & Hc1).
  eapply wp_mono; [apply Hone; right; left|]. intros r c2 [Hp H2] Hr. destruct (H2 Hr) as (l2 & Hl2 & Hs2 & Hc2). exists l1, l2.
  split_and!; [|done|done|done|by rewrite Hc1, Hc2]. destruct Hp as [rest ->]. apply elem_of_app. by left.
Qed.

End laws.

(** ** With the secrets of the platform *)

Section secrets.
Context {C : Type} `{!Has DB C, !Has SecretTables C, aead : !AEAD, range : !StringRange}.
Context (read_file : string → option string) (keys : FileKeyProvider).

(** C29: A chunk of output that is stored newly is the received chunk with the secrets
    bound to the run masked; when none of these secrets has an asterisk, the stored chunk
    contains none of them, neither plain nor in an encoding.  This is said chunk by chunk:
    a secret that is split over two chunks is not found ([split_secret_stored]). *)
Theorem logs_masked chunk (c : C) :
  secrets_ok (part c) →
  wp (Accept (Some (ValuesForRun read_file keys)) chunk) c (λ _ c', ∀ l, l ∈ log_chunks (part c') →
    l ∈ log_chunks (part c) ∨
    ∃ secrets, run_secrets read_file keys (lg_RunID chunk) (lg_ExecutionToken chunk) c = Some secrets ∧
      lc_content l = Mask (lg_Content chunk) secrets ∧
      (Forall starless secrets → ∀ v w, v ∈ secrets → w ∈ variants_of v → ¬ occurs w (lc_content l))).
Proof.
  intros Hok. apply (wp_Accept_values _ _ _ (λ vs, run_secrets read_file keys (lg_RunID chunk) (lg_ExecutionToken chunk) c = Some vs)).
  - intros values [= <-]. by apply ValuesForRun_spec.
  - by left.
  - intros stored _ [?|(vs & Hvs & Hc)]; [done|]. eapply wp_mono; [apply store_chunk_spec|].
    intros r c' (_ & [->|(_ & now & (_ & _ & _ & _ & ->)%insert_chunk_inv)] & _) l Hl; [by left|].
    unfold log_chunks in Hl. simpl in Hl. apply elem_of_app in Hl as [Hl|Hl%list_elem_of_singleton]; [by left|right].
    exists vs. split; [done|]. subst l. simpl. split; [done|]. intros Hst v w Hv Hw. rewrite Hc. rewrite Forall_forall in Hst.
    by eapply Mask_gone.
Qed.

End secrets.

(** ** Examples *)

#[local] Instance in_order : StringRange := {| range_strings := elements; range_strings_perm _ := reflexivity _ |}.

Definition out (sequence : Z) (content : string) : LogChunk := mkLogChunk 0 "run-1" "tok-1" sequence StreamStdout content 7.

Lemma example_logs_ok : logs_ok (part (C := DB) example_db).
Proof. split; [done|intros l Hl; by apply elem_of_nil in Hl|split; constructor]. Qed.

Lemma no_redaction_reads : reads_only (C := DB) None.
Proof. done. Qed.

(** Chunks out of order and delivered again. *)
Definition arrivals : list LogChunk := [out 2 "b"; out 1 "a"; out 1 "a"; out 2 "b"; out 1 "x"; out 3 "c"].

Abbreviation after_arrivals := (accept_all (C := DB) None arrivals (example_db, calm [] 9)).1.1.

Lemma log_streams_contiguous_witness :
  (lc_sequence <$> log_chunks after_arrivals) = [1; 2; 3] ∧ (lc_content <$> log_chunks after_arrivals) = ["a"; "b"; "c"] ∧ logs_ok after_arrivals.
Proof.
  split; [vm_compute; reflexivity|]. split; [vm_compute; reflexivity|].
  exact (proj1 (proj2 (wp_result _ _ _ (calm [] 9) (log_streams_contiguous None arrivals example_db no_redaction_reads example_logs_ok)))).
Defined.

Lemma Accept_exact_witness :
  (Accept (C := DB) None (out 1 "a") (example_db, calm [] 9)).2 = Ok 2 ∧
  next_of (out 1 "a") (Accept (C := DB) None (out 1 "a") (example_db, calm [] 9)).1.1 = 2.
Proof.
  assert ((Accept (C := DB) None (out 1 "a") (example_db, calm [] 9)).2 = Ok 2) as Hr by (vm_compute; reflexivity). split; [exact Hr|].
  destruct (wp_result _ _ _ (calm [] 9) (Accept_exact None (out 1 "a") example_db no_redaction_reads example_logs_ok)) as [H _].
  destruct (H _ Hr) as [H1 _]. symmetry. exact H1.
Defined.

Definition binary_output : string := String nul "ELF".

Lemma nul_chunk_never_accepted_witness :
  wp (accept_all (C := DB) None arrivals ;;! Accept None (out 4 binary_output)) example_db (λ r _, is_ok r = false).
Proof.
  apply (nul_chunk_never_accepted (C := DB) None (out 4 binary_output) arrivals example_db no_redaction_reads).
  - intros values H. discriminate H.
  - exact example_logs_ok.
  - vm_compute. reflexivity.
Defined.

Definition fixed_values (runID token : string) : Prog DB (list string) := ret ["hunter2"].

Lemma not_occurs w s : (w =? "")%string = false → replace_from 0 w mask s = s → starless w → ¬ occurs w s.
Proof. intros Hw E Hs Ho. rewrite <-E in Ho. apply replaced_gone in Ho; [done|done|]. by intros ->. Qed.

Lemma split_secret_stored_witness :
  let run := (Accept (Some fixed_values) (out 1 "password: hun") ;;! Accept (Some fixed_values) (out 2 "ter2")) (example_db, calm [] 9) in
  is_ok run.2 = true ∧ (lc_content <$> log_chunks run.1.1) = ["password: hun"; "ter2"] ∧
  ∃ l1 l2, l1 ∈ log_chunks run.1.1 ∧ l2 ∈ log_chunks run.1.1 ∧ occurs "hunter2" (lc_content l1 +:+ lc_content l2).
Proof.
  cbv zeta. split; [vm_compute; reflexivity|]. split; [vm_compute; reflexivity|].
  assert (wp (Accept (Some fixed_values) (out 1 "password: hun") ;;! Accept (Some fixed_values) (out 2 "ter2")) example_db (λ r c', is_ok r = true →
    ∃ l1 l2, l1 ∈ log_chunks (part c') ∧ l2 ∈ log_chunks (part c') ∧ lc_sequence l1 = 1 ∧ lc_sequence l2 = 2 ∧ occurs "hunter2" (lc_content l1 +:+ lc_content l2))) as H.
  { apply (split_secret_stored fixed_values "hunter2" (out 1 "password: hun") (out 2 "ter2") example_db).
    - intros runID token c. apply wp_ret. split; [reflexivity|]. intros vs E. injection E as <-. reflexivity.
    - reflexivity.
    - exists "password: ", "". reflexivity.
    - intros w Hw chunk Hc. assert (Forall (λ w, Forall (λ chunk, (w =? "")%string = false ∧ replace_from 0 w mask (lg_Content chunk) = lg_Content chunk ∧
        (ToLower w =? "")%string = false ∧ replace_from 0 (ToLower w) mask (lg_Content chunk) = lg_Content chunk ∧ starless w ∧ starless (ToLower w))
        [out 1 "password: hun"; out 2 "ter2"]) (variants_of "hunter2")) as Hall by (vm_compute; repeat constructor).
      rewrite Forall_forall in Hall. specialize (Hall w Hw). rewrite Forall_forall in Hall. destruct (Hall chunk Hc) as (A1 & A2 & A3 & A4 & A5 & A6).
      split; apply not_occurs; assumption. }
  destruct (wp_result _ _ _ (calm [] 9) H eq_refl) as (l1 & l2 & H1 & H2 & _ & _ & H5). exists l1, l2.
  split; [exact H1|]. split; [exact H2|exact H5].
Defined.

(** A run bound to a secret of the vault. *)
Definition bound_db : DB :=
  example_db <| task_definitions := {["def-1" := example_definition <| df_secret_bindings := {["PASSWORD" := "secret-1"]} |>]} |>.

Abbreviation sealed_vault := (create_secret (aead := plain_aead) key_file vault_keys "" "db password" (bytes_of "hunter2") ScopeUser
  (mkVault bound_db (mkSecretTables ∅), calm vault_seeds 5)).1.1.

Lemma sealed_vault_ok : secrets_ok (part sealed_vault).
Proof.
  apply (wp_result (create_secret (aead := plain_aead) key_file vault_keys "" "db password" (bytes_of "hunter2") ScopeUser)
    (mkVault bound_db (mkSecretTables ∅)) (λ _ c, secrets_ok (part c))).
  eapply wp_mono; [apply create_secret_spec|]. intros r c [H _]. apply H. intros id row Hrow. discriminate Hrow.
Qed.

Abbreviation masked_run := (Accept (Some (ValuesForRun (aead := plain_aead) key_file vault_keys)) (out 1 "login hunter2 aHVudGVyMg==") (sealed_vault, calm [] 9)).

Lemma logs_masked_witness :
  masked_run.2 = Ok 2 ∧ (lc_content <$> log_chunks (part masked_run.1.1)) = ["login ****** ******"] ∧
  ∀ l, l ∈ log_chunks (part masked_run.1.1) → ¬ occurs "hunter2" (lc_content l).
Proof.
  split; [vm_compute; reflexivity|]. split; [vm_compute; reflexivity|]. intros l Hl.
  destruct (wp_result _ _ _ (calm [] 9) (logs_masked (aead := plain_aead) key_file vault_keys (out 1 "login hunter2 aHVudGVyMg==") sealed_vault sealed_vault_ok) l Hl)
    as [H|(secrets & Hs & _ & H)].
  - exfalso. assert (log_chunks (part sealed_vault) = []) as E by (vm_compute; reflexivity). rewrite E in H. apply elem_of_nil in H. exact H.
  - assert (Some ["hunter2"] = Some secrets) as E by (rewrite <-Hs; vm_compute; reflexivity). injection E as <-. apply (H ltac:(repeat constructor) "hunter2").
    + left.
    + left.
Defined.
