(* ===== verification/Sha256.v ===== *)
(** * Sha256

    [crypto/sha256.Sum256] of the Go standard library: the padding, the message
    schedule and the compression function of FIPS 180-4 on bytes, with 32-bit words as
    [Z].  The packages store digests of credentials and compare digests of artifacts. *)

From S2P Require Import Prelude GoStd GoPath.

Definition w32 (x : Z) : Z := x mod 4294967296.
Definition rotr (n x : Z) : Z := Z.lor (Z.shiftr x n) (w32 (Z.shiftl x (32 - n))).

Definition small_sigma0 (x : Z) : Z := Z.lxor (Z.lxor (rotr 7 x) (rotr 18 x)) (Z.shiftr x 3).
Definition small_sigma1 (x : Z) : Z := Z.lxor (Z.lxor (rotr 17 x) (rotr 19 x)) (Z.shiftr x 10).
Definition big_sigma0 (x : Z) : Z := Z.lxor (Z.lxor (rotr 2 x) (rotr 13 x)) (rotr 22 x).
Definition big_sigma1 (x : Z) : Z := Z.lxor (Z.lxor (rotr 6 x) (rotr 11 x)) (rotr 25 x).
Definition ch (x y z : Z) : Z := Z.lxor (Z.land x y) (Z.land (Z.lxor x 4294967295) z).
Definition maj (x y z : Z) : Z := Z.lxor (Z.lxor (Z.land x y) (Z.land x z)) (Z.land y z).

(** ** The constants

    The first 32 bits of the fractional parts of the cube roots of the first 64 primes,
    and of the square roots of the first 8. *)

Definition is_prime (n : nat) : bool := forallb (λ d, negb (n mod d =? 0)%nat) (seq 2 (n - 2)).

(** The primes below 312 are the first 64. *)
Definition primes : list Z := Eval vm_compute in Z.of_nat <$> List.filter is_prime (seq 2 310).

(** The largest [x] below [2 ^ bits] that satisfies a downward closed test. *)
Fixpoint largest (bits : nat) (x : Z) (test : Z → bool) : Z :=
  match bits with
  | O => x
  | S bits => let y := x + 2 ^ Z.of_nat bits in largest bits (if test y then y else x) test
  end.

(** The integer part of [2 ^ 32] times the root of [p] of the given degree. *)
Definition scaled_root (degree p : Z) : Z := largest 40 0 (λ y, y ^ degree <=? p * 2 ^ (32 * degree)).

Definition round_constants : list Z := Eval vm_compute in (λ p, w32 (scaled_root 3 p)) <$> primes.

Definition initial_hash : list Z := Eval vm_compute in (λ p, w32 (scaled_root 2 p)) <$> take 8 primes.

Lemma constants_count : length primes = 64%nat ∧ length round_constants = 64%nat ∧ length initial_hash = 8%nat.
Proof. by vm_compute. Qed.

(** Big-endian words. *)
Fixpoint words (bytes : list Z) : list Z :=
  match bytes with
  | a :: b :: c :: d :: rest => (((a * 256 + b) * 256 + c) * 256 + d) :: words rest
  | _ => []
  end.

Definition word_bytes (w : Z) : list Z := [w / 16777216 mod 256; w / 65536 mod 256; w / 256 mod 256; w mod 256].

(** The schedule, latest word first. *)
Fixpoint extend (count : nat) (latest_first : list Z) : list Z :=
  match count with
  | O => latest_first
  | S count =>
    let at_ i := default 0 (latest_first !! i) in
    extend count (w32 (small_sigma1 (at_ 1%nat) + at_ 6%nat + small_sigma0 (at_ 14%nat) + at_ 15%nat) :: latest_first)
  end.

Definition schedule (block : list Z) : list Z := reverse (extend 48 (reverse (words block))).

Definition sha_round (state : list Z) (kw : Z * Z) : list Z :=
  match state with
  | [a; b; c; d; e; f; g; h] =>
    let t1 := h + big_sigma1 e + ch e f g + kw.1 + kw.2 in
    let t2 := big_sigma0 a + maj a b c in
    [w32 (t1 + t2); a; b; c; w32 (d + t1); e; f; g]
  | _ => state
  end.

Definition compress (hash block : list Z) : list Z :=
  zip_with (λ x y, w32 (x + y)) hash (foldl sha_round hash (zip round_constants (schedule block))).

(** The message, a one bit, zeros, and the length in bits in eight bytes. *)
Definition pad (bytes : list Z) : list Z :=
  let n := Z.of_nat (length bytes) in
  bytes ++ [128] ++ replicate (Z.to_nat ((55 - n) mod 64)) 0 ++
  (word_bytes (n * 8 / 4294967296) ++ word_bytes (n * 8)).

Fixpoint blocks (count : nat) (hash bytes : list Z) : list Z :=
  match count with
  | O => hash
  | S count => blocks count (compress hash (take 64 bytes)) (drop 64 bytes)
  end.

Definition sha256_bytes (bytes : list Z) : list Z :=
  let padded := pad bytes in
  mbind word_bytes (blocks (length padded / 64) initial_hash padded).

Definition Sum256 (value : string) : string :=
  foldr (λ b s, String (byte_char b) s) "" (sha256_bytes (byte_of <$> chars value)).

Lemma sha256_abc :
  blocks 1 initial_hash (pad (byte_of <$> chars "abc")) =
  [0xba7816bf; 0x8f01cfea; 0x414140de; 0x5dae2223; 0xb00361a3; 0x96177a9c; 0xb410ff61; 0xf20015ad].
Proof. by vm_compute. Qed.

Lemma sha256_two_blocks :
  sha256_bytes (byte_of <$> chars "abcdbcdecdefdefgefghfghighijhijkijkljklmklmnlmnomnopnopq") =
  mbind word_bytes [0x248d6a61; 0xd20638b8; 0xe5c02693; 0x0c3e6039; 0xa33ce459; 0x64ff2167; 0xf6ecedd4; 0x19db06c1].
Proof. by vm_compute. Qed.

(** ** Digests have 32 bytes *)

Lemma sha_round_length state kw : length state = 8%nat → length (sha_round state kw) = 8%nat.
Proof. intros H. do 9 (destruct state as [|? state]; [done|]). done. Qed.

Lemma compress_length hash block : length hash = 8%nat → length (compress hash block) = 8%nat.
Proof.
  intros H. unfold compress. rewrite length_zip_with.
  assert (∀ l st, length st = 8%nat → length (foldl sha_round st l) = 8%nat) as Hf.
  { intros l. induction l as [|kw l IH]; intros st Hst; [done|]. cbn [foldl]. by apply IH, sha_round_length. }
  rewrite Hf by done. lia.
Qed.

Lemma Sum256_length value : String.length (Sum256 value) = 32%nat.
Proof.
  assert (∀ n hash bytes, length hash = 8%nat → length (blocks n hash bytes) = 8%nat) as Hb.
  { intros n. induction n as [|n IH]; intros hash bytes H; [done|]. by apply IH, compress_length. }
  unfold Sum256. assert (length (sha256_bytes (byte_of <$> chars value)) = 32%nat) as Hl.
  { unfold sha256_bytes. specialize (Hb (length (pad (byte_of <$> chars value)) / 64)%nat initial_hash
      (pad (byte_of <$> chars value)) eq_refl). revert Hb. generalize (blocks (length (pad (byte_of <$> chars value)) / 64)
      initial_hash (pad (byte_of <$> chars value))). intros l Hl. do 9 (destruct l as [|? l]; [done|]). done. }
  rewrite <-Hl. generalize (sha256_bytes (byte_of <$> chars value)). intros l. induction l as [|b l IH]; [done|].
  simpl. by rewrite IH.
Qed.
