(* ===== verification/Accounts.v ===== *)
(** * Accounts

    [internal/auth]: members and their roles, sessions, password changes with their rate
    limits, the middleware that lets requests pass, and the bootstrap of the first
    administrator ([cmd/bootstrap]).

    [uuid.Parse] is the interface [UUIDs]; [net.ParseIP], which an address with a
    domain in brackets needs, is the parameter [ip_literal].  The writes to the audit log
    go to a table of their own. *)

From S2P Require Import Prelude GoStd GoPath GoCrypto Passwords Model World Schema Session SchedulerCore Sha256.

(** ** model.go *)

Definition MemberStatusActive : string := "active".
Definition MemberStatusDisabled : string := "disabled".
Definition MemberStatusRemoved : string := "removed".
Definition MemberStatusAll : string := "all".

Definition RoleAdmin : string := "admin".
Definition RoleOperator : string := "operator".
Definition RoleDeveloper : string := "developer".
Definition RoleViewer : string := "viewer".

Definition PermissionAdmin : string := "system.admin".
Definition PermissionExecute : string := "operations.execute".
Definition PermissionPublishScript : string := "scripts.publish".
Definition PermissionRead : string := "system.read".

Definition permissionsForRole (role : string) : option (list string) :=
  if bool_decide (role = RoleAdmin) then Some [PermissionAdmin; PermissionExecute; PermissionPublishScript; PermissionRead]
  else if bool_decide (role = RoleOperator) then Some [PermissionExecute; PermissionRead]
  else if bool_decide (role = RoleDeveloper) then Some [PermissionPublishScript; PermissionRead]
  else if bool_decide (role = RoleViewer) then Some [PermissionRead]
  else None.

Definition Allows (role permission : string) : bool :=
  if bool_decide (role = RoleAdmin)
  then bool_decide (permission ∈ [PermissionAdmin; PermissionExecute; PermissionPublishScript; PermissionRead])
  else if bool_decide (role = RoleOperator) then bool_decide (permission ∈ [PermissionExecute; PermissionRead])
  else if bool_decide (role = RoleDeveloper) then bool_decide (permission ∈ [PermissionPublishScript; PermissionRead])
  else if bool_decide (role = RoleViewer) then bool_decide (permission ∈ [PermissionRead])
  else false.

Record User : Type := mkUser {
  usr_ID : string; usr_Email : string; usr_DisplayName : string; usr_PasswordHash : string; usr_Enabled : bool;
  usr_MustChangePassword : bool; usr_Roles : list string; usr_CreatedAt : Time
}.

Record AuthSession : Type := mkAuthSession {
  as_ID : string; as_UserID : string; as_Token : string; as_Roles : list string; as_MustChangePassword : bool;
  as_ExpiresAt : Time; as_CreatedAt : Time
}.

Record StoredSession : Type := mkStoredSession {
  st_ID : string; st_UserID : string; st_TokenHash : string; st_ExpectedPasswordHash : string; st_ExpiresAt : Time; st_CreatedAt : Time
}.

Record Principal : Type := mkPrincipal {
  prn_UserID : string; prn_Email : string; prn_DisplayName : string; prn_Roles : list string; prn_MustChangePassword : bool
}.

Record Member : Type := mkMember {
  mb_ID : string; mb_Email : string; mb_DisplayName : string; mb_Enabled : bool; mb_Roles : list string;
  mb_MustChangePassword : bool; mb_RemovedAt : option Time; mb_CreatedAt : Time
}.

Record CreateMemberInput : Type := mkCreateMemberInput { cmi_Email : string; cmi_DisplayName : string; cmi_Roles : list string }.

Record CreateMemberRecord : Type := mkCreateMemberRecord {
  cm_Email : string; cm_DisplayName : string; cm_PasswordHash : string; cm_Roles : list string
}.

(** [lockedMember] *)
Record LockedMember : Type := mkLockedMember { lm_enabled : bool; lm_removed : bool; lm_adminRole : bool }.

(** [uuid.Parse(...).String()]: the text of a parsed UUID is canonical. *)
Class UUIDs : Type := {
  parse_uuid : string → option string;
  parse_canonical : ∀ value id, parse_uuid value = Some id → TrimSpace id = id ∧ parse_uuid id = Some id
}.

(** ** Validation *)

Fixpoint dedup_roles (seen : gset string) (roles : list string) : Result (list string) :=
  match roles with
  | [] => Ok []
  | role :: rest =>
    if negb (bool_decide (role ∈ [RoleAdmin; RoleOperator; RoleDeveloper; RoleViewer])) then Err ErrInvalidRoles
    else
      match dedup_roles ({[role]} ∪ seen) rest with
      | Ok normalized => Ok (if bool_decide (role ∈ seen) then normalized else role :: normalized)
      | Err e => Err e
      end
  end.

Definition normalizeRoles (roles : list string) : Result (list string) :=
  match roles with
  | [] => Err ErrInvalidRoles
  | _ => match dedup_roles ∅ roles with Ok normalized => Ok (stable_sort string_lt normalized) | Err e => Err e end
  end.

(** A dot-atom of RFC 5322 as [net/mail] reads it. *)
Definition atext (c : ascii) : bool :=
  let x := byte_of c in
  (33 <=? x) && negb (x =? 127) && negb (bool_decide (c ∈ chars "()<>[]:;@\,")) && negb (x =? 34).

Fixpoint double_dot (s : string) : bool :=
  match s with
  | String a ((String b _) as rest) => (bool_decide (a = "."%char) && bool_decide (b = "."%char)) || double_dot rest
  | _ => false
  end.

Definition dot_atom (s : string) : bool :=
  negb (bool_decide (s = "")) && ValidString s && forallb atext (chars s) && negb (HasPrefix s ".") &&
  negb (HasPrefix (String.rev s) ".") && negb (double_dot s).

Section validation.
Context (ip_literal : string → bool).

(** [mail.ParseAddress] gives back the whole text only for [local@domain]: quotes, display
    names, comments and spaces are not part of the address. *)
Definition validEmail (email : string) : bool :=
  match split_on "@" email with
  | [local; domain] =>
    dot_atom local &&
    (dot_atom domain ||
     match domain with
     | String "[" rest => HasPrefix (String.rev rest) "]" && ip_literal (String.substring 0 (String.length rest - 1) rest)
     | _ => false
     end)
  | _ => false
  end.

End validation.

Definition validMemberStatus (status : string) : bool :=
  bool_decide (status ∈ [MemberStatusActive; MemberStatusDisabled; MemberStatusRemoved; MemberStatusAll]).

Definition NormalizeUserID `{!UUIDs} (value : string) : Result string :=
  match parse_uuid (TrimSpace value) with Some id => Ok id | None => Err ErrInvalidMember end.

(** [validateMutation] and [normalizeMemberMutationIDs] *)
Definition normalizeMemberMutationIDs `{!UUIDs} (actorID targetID : string) : Result (string * string) :=
  match NormalizeUserID actorID with
  | Err e => Err e
  | Ok actorID =>
    match NormalizeUserID targetID with
    | Err e => Err e
    | Ok targetID => if bool_decide (actorID = targetID) then Err ErrCannotModifySelf else Ok (actorID, targetID)
    end
  end.

(** ** The statements *)

Definition tokenHash (token : string) : string := Sum256 token.

Definition roles_of (d : DB) (userID : string) : list string :=
  stable_sort string_lt (filter (λ p, p.1 = userID) (elements (user_roles (accounts d)))).*2.

(** [memberProjection] and [scanMember] *)
Definition scanMember (d : DB) (id : string) (row : UserRow) : Member :=
  mkMember id (ur_email row) (ur_display_name row) (ur_enabled row) (roles_of d id) (ur_must_change_password row) (ur_removed_at row)
    (ur_created_at row).

Definition is_admin (d : DB) (userID : string) : bool := bool_decide ((userID, RoleAdmin) ∈ user_roles (accounts d)).

Definition active_user (row : UserRow) : bool := ur_enabled row && bool_decide (ur_removed_at row = None).

(** The users that are enabled, not removed and administrators. *)
Definition active_admins (d : DB) : list (string * UserRow) :=
  filter (λ p, active_user p.2 = true ∧ is_admin d p.1 = true) (map_to_list (user_rows (accounts d))).

Definition update_user (id : string) (f : UserRow → UserRow) (d : DB) : DB := d <| accounts ::= λ a, a <| user_rows ::= alter f id |> |>.

Definition update_sessions (which : SessionRow → bool) (at_ : Time) (d : DB) : DB :=
  d <| accounts ::= λ a, a <| sessions ::= fmap (λ s,
    if which s && bool_decide (ses_revoked_at s = None) then s <| ses_revoked_at := Some at_ |> else s) |> |>.

Definition same_email (email : string) (row : UserRow) : bool := bool_decide (ToLower (ur_email row) = ToLower email).

Definition email_used (email : string) (d : DB) : bool :=
  existsb (λ p, same_email email p.2) (map_to_list (user_rows (accounts d))).

Definition insert_user (id : string) (row : UserRow) (d : DB) : option DB :=
  if bool_decide (is_Some (user_rows (accounts d) !! id)) then None
  else Some (d <| accounts ::= λ a, a <| user_rows ::= <[id := row]> |> |>).

Definition insert_session (id : string) (row : SessionRow) (d : DB) : option DB :=
  if bool_decide (is_Some (sessions (accounts d) !! id)) || negb (bool_decide (ses_user_id row ∈ users d)) ||
     existsb (λ p, bool_decide (ses_token_hash p.2 = ses_token_hash row)) (map_to_list (sessions (accounts d)))
  then None
  else Some (d <| accounts ::= λ a, a <| sessions ::= <[id := row]> |> |>).

Definition role_pairs (userID : string) (roles : list string) : gset (string * string) := list_to_set ((λ role, (userID, role)) <$> roles).

(** [DELETE FROM user_roles], then [INSERT ... SELECT id FROM roles WHERE name = ANY] *)
Definition replace_roles (targetID : string) (names : list string) (d : DB) : DB :=
  d <| accounts ::= λ a, a <| user_roles ::= λ pairs,
    filter (λ p, p.1 ≠ targetID) pairs ∪ role_pairs targetID (filter (λ role, role ∈ roles a) names) |> |>.

Section store.
Context {C : Type} `{!Has DB C, uuids : !UUIDs}.

(** ** team_postgres.go *)

Definition member_condition (status : string) (row : UserRow) : bool :=
  let removed := negb (bool_decide (ur_removed_at row = None)) in
  if bool_decide (status = MemberStatusActive) then negb removed && ur_enabled row
  else if bool_decide (status = MemberStatusDisabled) then negb removed && negb (ur_enabled row)
  else if bool_decide (status = MemberStatusRemoved) then removed
  else negb removed.

Definition ListMembers (status : string) : Prog C (list Member) :=
  if negb (validMemberStatus status) then throw ErrInvalidMember
  else
    pool_query "读取团队成员" (λ d, (λ p, scanMember d p.1 p.2) <$>
      stable_sort (λ a b, string_lt (ur_email a.2) (ur_email b.2) ||
        (bool_decide (ur_email a.2 = ur_email b.2) && string_lt a.1 b.1))
        (filter (λ p, member_condition status p.2 = true) (map_to_list (user_rows (accounts d))))).

Definition loadMember (targetID : string) : Tx C Member :=
  let! found := query "读取成员投影" (λ d, scanMember d targetID <$> user_rows (accounts d) !! targetID) in
  match found with Some member => ret member | None => throw ErrMemberNotFound end.

Definition lockMember (targetID : string) : Tx C LockedMember :=
  let! found := query "锁定成员" (λ d,
    (λ row, mkLockedMember (ur_enabled row) (negb (bool_decide (ur_removed_at row = None))) (is_admin d targetID)) <$>
    user_rows (accounts d) !! targetID) in
  match found with Some state => ret state | None => throw ErrMemberNotFound end.

Definition preserveLastAdmin : Tx C unit :=
  let! count := query "统计有效管理员" (λ d, Z.of_nat (length (active_admins d))) in
  if count <=? 1 then throw ErrLastAdmin else ret tt.

(** The advisory lock serialises the transactions that may remove an administrator. *)
Definition lockAdminMutation : Tx C unit := exec "锁定管理员变更" Some.

Definition insertMemberAudit : Tx C unit := exec "写入成员审计" Some.

Definition ensureRoles (names : list string) : Tx C unit :=
  for_each names (λ role,
    match permissionsForRole role with
    | None => throw ErrInvalidRoles
    | Some _ => exec "准备成员角色" (λ d, Some (d <| accounts ::= λ a, a <| roles ::= union {[role]} |> |>))
    end).

Definition replaceRoles (targetID : string) (names : list string) : Tx C unit :=
  exec "写入成员角色" (λ d, Some (replace_roles targetID names d)).

Definition revokeMemberSessions (targetID : string) : Tx C unit :=
  let! now := clock_now in
  exec "撤销成员会话" (λ d, Some (update_sessions (λ s, bool_decide (ses_user_id s = targetID)) now d)).

(** The audit record, the member as it is now, and the commit. *)
Definition finish_member (context targetID : string) : Tx C Member :=
  insertMemberAudit ;;!
  let! member := loadMember targetID in
  commit context ;;!
  ret member.

Definition CreateMember (actorID : string) (record : CreateMemberRecord) : Prog C Member :=
  match NormalizeUserID actorID with
  | Err e => throw e
  | Ok _ =>
    match normalizeRoles (cm_Roles record) with
    | Err e => throw e
    | Ok names =>
      transaction "开始创建成员事务" (
        ensureRoles names ;;!
        let! now := clock_now in
        let! targetID := new_uuid in
        let! inserted := stmt "创建成员" (λ d,
          if email_used (cm_Email record) d then Some (d, false)
          else (λ d', (d', true)) <$> insert_user targetID
                 (mkUserRow (cm_Email record) (cm_DisplayName record) (cm_PasswordHash record) true true None now now) d) in
        if negb inserted then throw ErrDuplicateEmail
        else
          replaceRoles targetID names ;;!
          finish_member "提交创建成员事务" targetID)
    end
  end.

Definition containsRole (names : list string) (wanted : string) : bool := bool_decide (wanted ∈ names).

Definition ReplaceMemberRoles (actorID targetID : string) (requested : list string) : Prog C Member :=
  match normalizeMemberMutationIDs actorID targetID with
  | Err e => throw e
  | Ok (_, targetID) =>
    match normalizeRoles requested with
    | Err e => throw e
    | Ok names =>
      transaction "开始替换成员角色事务" (
        lockAdminMutation ;;!
        let! state := lockMember targetID in
        if lm_removed state then throw ErrMemberStateConflict
        else
          (if lm_enabled state && lm_adminRole state && negb (containsRole names RoleAdmin) then preserveLastAdmin else ret tt) ;;!
          ensureRoles names ;;!
          replaceRoles targetID names ;;!
          finish_member "提交替换成员角色事务" targetID)
    end
  end.

Definition SetMemberEnabled (actorID targetID : string) (enabled : bool) : Prog C Member :=
  match normalizeMemberMutationIDs actorID targetID with
  | Err e => throw e
  | Ok (_, targetID) =>
    transaction "开始更新成员状态事务" (
      lockAdminMutation ;;!
      let! state := lockMember targetID in
      if lm_removed state || Bool.eqb (lm_enabled state) enabled then throw ErrMemberStateConflict
      else
        (if negb enabled && lm_adminRole state then preserveLastAdmin else ret tt) ;;!
        let! now := clock_now in
        exec "更新成员状态" (λ d, Some (update_user targetID (λ u, u <| ur_enabled := enabled |> <| ur_updated_at := now |>) d)) ;;!
        (if negb enabled then revokeMemberSessions targetID else ret tt) ;;!
        finish_member "提交更新成员状态事务" targetID)
  end.

Definition RemoveMember (actorID targetID : string) : Prog C Member :=
  match normalizeMemberMutationIDs actorID targetID with
  | Err e => throw e
  | Ok (_, targetID) =>
    transaction "开始移除成员事务" (
      lockAdminMutation ;;!
      let! state := lockMember targetID in
      if lm_removed state then throw ErrMemberStateConflict
      else
        (if lm_enabled state && lm_adminRole state then preserveLastAdmin else ret tt) ;;!
        let! now := clock_now in
        exec "移除成员" (λ d, Some (update_user targetID
          (λ u, u <| ur_enabled := false |> <| ur_removed_at := Some now |> <| ur_updated_at := now |>) d)) ;;!
        revokeMemberSessions targetID ;;!
        finish_member "提交移除成员事务" targetID)
  end.

Definition RestoreMember (actorID targetID : string) : Prog C Member :=
  match normalizeMemberMutationIDs actorID targetID with
  | Err e => throw e
  | Ok (_, targetID) =>
    transaction "开始恢复成员事务" (
      let! state := lockMember targetID in
      if negb (lm_removed state) then throw ErrMemberStateConflict
      else
        let! now := clock_now in
        exec "恢复成员" (λ d, Some (update_user targetID
          (λ u, u <| ur_enabled := false |> <| ur_removed_at := None |> <| ur_updated_at := now |>) d)) ;;!
        finish_member "提交恢复成员事务" targetID)
  end.

Definition ResetMemberPassword (actorID targetID passwordHash : string) : Prog C Member :=
  match normalizeMemberMutationIDs actorID targetID with
  | Err e => throw e
  | Ok (_, targetID) =>
    transaction "开始重置成员密码事务" (
      let! state := lockMember targetID in
      if lm_removed state then throw ErrMemberStateConflict
      else
        let! now := clock_now in
        exec "重置成员密码" (λ d, Some (update_user targetID
          (λ u, u <| ur_password_hash := passwordHash |> <| ur_must_change_password := true |> <| ur_updated_at := now |>) d)) ;;!
        revokeMemberSessions targetID ;;!
        finish_member "提交重置成员密码事务" targetID)
  end.

(** ** postgres.go *)

Definition find_user (email : string) (d : DB) : option (string * UserRow) :=
  head (filter (λ p, same_email email p.2 = true ∧ ur_removed_at p.2 = None) (map_to_list (user_rows (accounts d)))).

Definition FindByEmail (email : string) : Prog C User :=
  let! found := pool_query "读取用户" (λ d, (λ p, mkUser p.1 (ur_email p.2) (ur_display_name p.2) (ur_password_hash p.2) (ur_enabled p.2)
    (ur_must_change_password p.2) (roles_of d p.1) (ur_created_at p.2)) <$> find_user email d) in
  match found with Some user => ret user | None => throw ErrUserNotFound end.

Definition credentials_current (userID expectedHash : string) (d : DB) : bool :=
  match user_rows (accounts d) !! userID with
  | Some row => bool_decide (ur_password_hash row = expectedHash) && active_user row
  | None => false
  end.

(** [PostgresRepository.Create]: the login is confirmed again while the row is locked. *)
Definition Sessions_Create (session : StoredSession) : Prog C unit :=
  if bool_decide (st_ExpectedPasswordHash session = "") then throw ErrInvalidCredentials
  else
    transaction "开始创建会话事务" (
      let! current := query "重新确认登录凭据" (credentials_current (st_UserID session) (st_ExpectedPasswordHash session)) in
      if negb current then throw ErrInvalidCredentials
      else
        exec "写入服务端会话" (insert_session (st_ID session)
          (mkSessionRow (st_UserID session) (st_TokenHash session) (st_ExpiresAt session) None (st_CreatedAt session))) ;;!
        commit "提交创建会话事务").

Definition find_session (hash : string) (now : Time) (d : DB) : option (string * UserRow) :=
  s ← head (filter (λ s, ses_token_hash s = hash ∧ ses_revoked_at s = None ∧ now < ses_expires_at s) (map_to_list (sessions (accounts d))).*2);
  row ← user_rows (accounts d) !! ses_user_id s;
  if active_user row then Some (ses_user_id s, row) else None.

Definition FindPrincipal (hash : string) : Prog C Principal :=
  let! now := clock_now in
  let! found := pool_query "读取服务端会话" (λ d, (λ p, mkPrincipal p.1 (ur_email p.2) (ur_display_name p.2) (roles_of d p.1)
    (ur_must_change_password p.2)) <$> find_session hash now d) in
  match found with Some principal => ret principal | None => throw ErrSessionNotFound end.

Definition Sessions_Revoke (hash : string) : Prog C unit :=
  let! now := clock_now in
  pool "撤销服务端会话" (λ d, Some (update_sessions (λ s, bool_decide (ses_token_hash s = hash)) now d, tt)).

End store.

Section service.
Context {C : Type} `{!Has DB C, uuids : !UUIDs, argon : !Argon2} (ip_literal : string → bool).

(** ** session.go *)

Definition sessionTTL : Duration := 24 * hour.

Definition randomToken (length : nat) : Prog C string := let! value := rand_read length in ret (base64_encode true value).
Definition randomUUID : Prog C string := let! value := rand_read 16 in ret (uuid_text value).

Definition verified_user (user : Result User) (password : string) : option User :=
  match user with
  | Ok user =>
    if negb (usr_Enabled user) then None
    else match VerifyPassword (usr_PasswordHash user) password with Ok true => Some user | _ => None end
  | Err _ => None
  end.

(** What follows the lookup of the user: other requests may be served in between. *)
Definition open_session (user : User) : Prog C AuthSession :=
  let! token := randomToken 32 in
  let! id := randomUUID in
  let! now := clock_now in
  let stored := mkStoredSession id (usr_ID user) (tokenHash token) (usr_PasswordHash user) (now + sessionTTL) now in
  let! created := catch (Sessions_Create stored) in
  match created with
  | Ok _ => ret (mkAuthSession id (usr_ID user) token (usr_Roles user) (usr_MustChangePassword user) (st_ExpiresAt stored) now)
  | Err ErrInvalidCredentials => throw ErrInvalidCredentials
  | Err _ => throw (EStorage "保存会话")
  end.

Definition Login (email password : string) : Prog C AuthSession :=
  let! user := catch (FindByEmail (ToLower (TrimSpace email))) in
  match verified_user user password with
  | None => throw ErrInvalidCredentials
  | Some user => open_session user
  end.

Definition Service_Authenticate (token : string) : Prog C Principal :=
  if bool_decide (token = "") then throw ErrSessionNotFound
  else
    let! principal := catch (FindPrincipal (tokenHash token)) in
    match principal with Ok principal => ret principal | Err _ => throw ErrSessionNotFound end.

Definition Logout (token : string) : Prog C unit := if bool_decide (token = "") then ret tt else Sessions_Revoke (tokenHash token).

(** ** middleware.go *)

Inductive Gate : Type :=
| Unauthorized (message : string)
| Forbidden (code message : string)
| Passed (principal : Principal).

Definition Authenticate_gate (cookie : option string) (path : string) : Prog C Gate :=
  match cookie with
  | None => ret (Unauthorized "请先登录")
  | Some token =>
    let! principal := catch (Service_Authenticate token) in
    match principal with
    | Err _ => ret (Unauthorized "登录已失效，请重新登录")
    | Ok principal =>
      if prn_MustChangePassword principal && negb (bool_decide (path = "/api/auth/password"))
      then ret (Forbidden "password_change_required" "请先修改临时密码")
      else ret (Passed principal)
    end
  end.

Definition Require_gate (permission : string) (principal : option Principal) : Gate :=
  match principal with
  | None => Unauthorized "请先登录"
  | Some principal =>
    if existsb (λ role, Allows role permission) (prn_Roles principal) then Passed principal else Forbidden "" "没有执行此操作的权限"
  end.

(** A request through both. *)
Definition guarded (permission : string) (cookie : option string) (path : string) : Prog C Gate :=
  let! gate := Authenticate_gate cookie path in
  match gate with
  | Passed principal => ret (Require_gate permission (Some principal))
  | denied => ret denied
  end.

(** ** team.go *)

Definition Team_List (status : string) : Prog C (list Member) :=
  if negb (validMemberStatus status) then throw ErrInvalidMember else ListMembers status.

Definition Team_Create (actorID : string) (input : CreateMemberInput) : Prog C (Member * string) :=
  match NormalizeUserID actorID with
  | Err e => throw e
  | Ok actorID =>
    let email := ToLower (TrimSpace (cmi_Email input)) in
    let displayName := TrimSpace (cmi_DisplayName input) in
    if negb (validEmail ip_literal email) || bool_decide (displayName = "") then throw ErrInvalidMember
    else
      match normalizeRoles (cmi_Roles input) with
      | Err _ => throw ErrInvalidMember
      | Ok names =>
        let! temporaryPassword := randomToken 18 in
        let! passwordHash := HashPassword temporaryPassword in
        let! member := CreateMember actorID (mkCreateMemberRecord email displayName passwordHash names) in
        ret (member, temporaryPassword)
      end
  end.

Definition UpdateRoles (actorID userID : string) (names : list string) : Prog C Member :=
  match normalizeMemberMutationIDs actorID userID with
  | Err e => throw e
  | Ok (actorID, userID) =>
    match normalizeRoles names with Err e => throw e | Ok names => ReplaceMemberRoles actorID userID names end
  end.

Definition Team_SetEnabled (actorID userID : string) (enabled : bool) : Prog C Member :=
  match normalizeMemberMutationIDs actorID userID with
  | Err e => throw e
  | Ok (actorID, userID) => SetMemberEnabled actorID userID enabled
  end.

Definition Team_Remove (actorID userID : string) : Prog C Member :=
  match normalizeMemberMutationIDs actorID userID with
  | Err e => throw e
  | Ok (actorID, userID) => RemoveMember actorID userID
  end.

Definition Team_Restore (actorID userID : string) : Prog C Member :=
  match normalizeMemberMutationIDs actorID userID with
  | Err e => throw e
  | Ok (actorID, userID) => RestoreMember actorID userID
  end.

Definition Team_ResetPassword (actorID userID : string) : Prog C (Member * string) :=
  match normalizeMemberMutationIDs actorID userID with
  | Err e => throw e
  | Ok (actorID, userID) =>
    let! temporaryPassword := randomToken 18 in
    let! passwordHash := HashPassword temporaryPassword in
    let! member := ResetMemberPassword actorID userID passwordHash in
    ret (member, temporaryPassword)
  end.

(** ** password_change_postgres.go *)

Definition passwordAttemptLimit : Z := 5.

Record PasswordChangeCommit : Type := mkPasswordChangeCommit {
  pc_UserID : string; pc_ExpectedHash : string; pc_NewHash : string; pc_CurrentSessionHash : string; pc_ChangedAt : Time
}.

Definition PasswordHash (userID : string) : Prog C string :=
  if bool_decide (TrimSpace userID = "") then throw (EOther "改密仓储不可用")
  else
    let! found := pool_query "读取用户密码哈希" (λ d, ur_password_hash <$> user_rows (accounts d) !! userID) in
    match found with Some hash => ret hash | None => throw (EStorage "读取用户密码哈希") end.

(** The window of a subject: it starts again after fifteen minutes. *)
Definition counted_attempt (now : Time) (limit : option (Time * Z)) : Time * Z :=
  match limit with
  | Some (started, attempts) => if started <=? now - 15 * minute then (now, 1) else (started, attempts + 1)
  | None => (now, 1)
  end.

Definition count_attempt (scope subject : string) (now : Time) (d : DB) : DB * Z :=
  let key := (scope, Sum256 subject) in
  let counted := counted_attempt now (auth_rate_limits (accounts d) !! key) in
  (d <| accounts ::= λ a, a <| auth_rate_limits ::= <[key := counted]> |> |>, counted.2).

Definition RegisterAttempt (userID ipAddress : string) (now : Time) : Prog C bool :=
  if bool_decide (TrimSpace userID = "") || bool_decide (TrimSpace ipAddress = "") then throw (EOther "改密限速参数无效")
  else
    transaction "开始改密限速事务" (
      let! user_attempts := stmt "登记改密限速" (λ d, Some (count_attempt "password_user" userID now d)) in
      let! ip_attempts := stmt "登记改密限速" (λ d, Some (count_attempt "password_ip" ipAddress now d)) in
      commit "提交改密限速事务" ;;!
      ret ((user_attempts <=? passwordAttemptLimit) && (ip_attempts <=? passwordAttemptLimit))).

Definition CommitPasswordChange (change : PasswordChangeCommit) : Prog C unit :=
  if bool_decide (TrimSpace (pc_UserID change) = "") || bool_decide (pc_ExpectedHash change = "") || bool_decide (pc_NewHash change = "") ||
     negb (len (pc_CurrentSessionHash change) =? 32)
  then throw (EOther "改密提交参数无效")
  else
    transaction "开始改密事务" (
      let! storedHash := query "锁定改密用户" (λ d, ur_password_hash <$> user_rows (accounts d) !! pc_UserID change) in
      match storedHash with
      | None => throw ErrPasswordChanged
      | Some storedHash =>
        if negb (bool_decide (storedHash = pc_ExpectedHash change)) then throw ErrPasswordChanged
        else
          exec "更新用户密码" (λ d, Some (update_user (pc_UserID change) (λ u, u <| ur_password_hash := pc_NewHash change |>
            <| ur_must_change_password := false |> <| ur_updated_at := pc_ChangedAt change |>) d)) ;;!
          exec "撤销其他会话" (λ d, Some (update_sessions (λ s, bool_decide (ses_user_id s = pc_UserID change) &&
            negb (bool_decide (ses_token_hash s = pc_CurrentSessionHash change))) (pc_ChangedAt change) d)) ;;!
          exec "清理改密用户限速" (λ d, Some (d <| accounts ::= λ a,
            a <| auth_rate_limits ::= delete ("password_user", Sum256 (pc_UserID change)) |> |>)) ;;!
          exec "记录改密审计" Some ;;!
          commit "提交改密事务"
      end).

(** ** password_change.go *)

Definition Change (principal : Principal) (sessionToken currentPassword newPassword ipAddress : string) : Prog C unit :=
  let! now := clock_now in
  let! allowed := RegisterAttempt (prn_UserID principal) ipAddress now in
  if negb allowed then throw ErrPasswordRateLimited
  else
    let! passwordHash := PasswordHash (prn_UserID principal) in
    match VerifyPassword passwordHash currentPassword with
    | Ok true =>
      if (Z.of_nat (length (runes newPassword)) <? 12) || bool_decide (newPassword = currentPassword) then throw ErrPasswordRejected
      else
        let! newHash := HashPassword newPassword in
        CommitPasswordChange (mkPasswordChangeCommit (prn_UserID principal) passwordHash newHash (tokenHash sessionToken) now)
    | _ => throw ErrPasswordRejected
    end.

(** ** cmd/bootstrap *)

Record BootstrapConfig : Type := mkBootstrapConfig { bc_DatabaseURL : string; bc_Email : string; bc_DisplayName : string; bc_Password : string }.

Definition loadConfig (getenv : string → string) : Result BootstrapConfig :=
  let databaseURL := TrimSpace (getenv "YUNLING_DATABASE_URL") in
  let email := ToLower (TrimSpace (getenv "YUNLING_BOOTSTRAP_EMAIL")) in
  let displayName := TrimSpace (getenv "YUNLING_BOOTSTRAP_NAME") in
  let password := getenv "YUNLING_BOOTSTRAP_PASSWORD" in
  if bool_decide (databaseURL = "") then Err (EOther "未设置数据库地址 YUNLING_DATABASE_URL")
  else if bool_decide (email = "") || negb (contains_byte "@" email) then Err (EOther "初始化管理员邮箱无效")
  else if len password <? 12 then Err (EOther "初始化管理员密码至少需要 12 位")
  else Ok (mkBootstrapConfig databaseURL email (if bool_decide (displayName = "") then "系统管理员" else displayName) password).

Definition bootstrap_user (email displayName passwordHash : string) (now : Time) (fresh : string) (d : DB) : option (DB * string) :=
  match head (filter (λ p, same_email email p.2 = true) (map_to_list (user_rows (accounts d)))) with
  | Some (id, _) =>
    Some (update_user id (λ u, u <| ur_display_name := displayName |> <| ur_password_hash := passwordHash |> <| ur_enabled := true |>
                                 <| ur_updated_at := now |>) d, id)
  | None => (λ d', (d', fresh)) <$> insert_user fresh (mkUserRow email displayName passwordHash true false None now now) d
  end.

Definition bootstrap (configuration : BootstrapConfig) : Prog C unit :=
  let! passwordHash := HashPassword (bc_Password configuration) in
  transaction "开始初始化事务" (
    for_each [RoleAdmin; RoleOperator; RoleDeveloper; RoleViewer] (λ role,
      exec "初始化角色" (λ d, Some (d <| accounts ::= λ a, a <| roles ::= union {[role]} |> |>))) ;;!
    let! now := clock_now in
    let! fresh := new_uuid in
    let! userID := stmt "创建或更新管理员" (bootstrap_user (bc_Email configuration) (bc_DisplayName configuration) passwordHash now fresh) in
    exec "授予管理员角色" (λ d, Some (d <| accounts ::= λ a,
      a <| user_roles ::= union (role_pairs userID (filter (λ role, role ∈ roles a) [RoleAdmin])) |> |>)) ;;!
    commit "提交初始化事务").

End service.
