(* ===== verification/AccountLaws.v ===== *)
(** * AccountLaws

    The invariant of the accounts ([accounts_ok]), how they may change ([account_step]),
    and that every operation of [internal/auth] changes them only so. *)

From S2P Require Import Prelude GoStd GoPath GoCrypto Passwords Model World Schema Session SchedulerCore Sha256 Accounts.

(** ** The invariant *)

Definition live (s : SessionRow) : Prop := ses_revoked_at s = None.

Record accounts_ok (a : AccountTables) : Prop := {
  ao_emails : ∀ id id' u u', user_rows a !! id = Some u → user_rows a !! id' = Some u' →
    ToLower (ur_email u) = ToLower (ur_email u') → id = id';
  ao_roles : ∀ id role, (id, role) ∈ user_roles a → is_Some (user_rows a !! id) ∧ is_Some (permissionsForRole role);
  ao_tokens : ∀ i j s t, sessions a !! i = Some s → sessions a !! j = Some t → ses_token_hash s = ses_token_hash t → i = j;
  ao_live : ∀ i s, sessions a !! i = Some s → live s → ∃ u, user_rows a !! ses_user_id s = Some u ∧ active_user u = true
}.

(** Somebody can administer the platform. *)
Definition has_admin (a : AccountTables) : Prop :=
  ∃ id u, user_rows a !! id = Some u ∧ active_user u = true ∧ (id, RoleAdmin) ∈ user_roles a.

(** A session keeps its user and token, and stays revoked once it is. *)
Definition session_evolves (s s' : SessionRow) : Prop :=
  ses_user_id s' = ses_user_id s ∧ ses_token_hash s' = ses_token_hash s ∧ ses_expires_at s' = ses_expires_at s ∧
  (ses_revoked_at s = None ∨ ses_revoked_at s' = ses_revoked_at s).

Record accounts_evolve (a a' : AccountTables) : Prop := {
  ae_users : ∀ id u, user_rows a !! id = Some u → ∃ u', user_rows a' !! id = Some u' ∧ ur_email u' = ur_email u;
  ae_sessions : ∀ i s, sessions a !! i = Some s → ∃ s', sessions a' !! i = Some s' ∧ session_evolves s s'
}.

#[export] Instance session_evolves_preorder : PreOrder session_evolves.
Proof.
  split; [intros s; unfold session_evolves; auto|].
  intros s s' s'' (E1 & E2 & E3 & H1) (F1 & F2 & F3 & H2). split_and!; [congruence..|].
  destruct H1 as [H1|H1]; [by left|]. rewrite <-H1. by destruct H2; [left|right].
Qed.

#[export] Instance accounts_evolve_preorder : PreOrder accounts_evolve.
Proof.
  split.
  - intros a. split; eauto. intros i s H. by exists s.
  - intros a b c [H1 H2] [H3 H4]. split.
    + intros id u Hu. destruct (H1 _ _ Hu) as (u' & Hu' & E). destruct (H3 _ _ Hu') as (u'' & Hu'' & E'). exists u''. by rewrite E', E.
    + intros i s Hs. destruct (H2 _ _ Hs) as (s' & Hs' & E). destruct (H4 _ _ Hs') as (s'' & Hs'' & E'). exists s''. split; [done|]. by etrans.
Qed.

Record account_step (d d' : DB) : Prop := {
  as_ok : accounts_ok (accounts d) → accounts_ok (accounts d');
  as_admin : accounts_ok (accounts d) → has_admin (accounts d) → has_admin (accounts d');
  as_evolve : accounts_evolve (accounts d) (accounts d')
}.

#[export] Instance account_step_preorder : PreOrder account_step.
Proof.
  split; [done|]. intros a b c [H1 H2 H3] [H4 H5 H6]. split; [by auto|by auto|by etrans].
Qed.

(** ** The changes *)

Definition set_accounts (a : AccountTables) (d : DB) : DB := d <| accounts := a |>.

(** Revoking sessions. *)
Definition revoke_in (which : SessionRow → bool) (at_ : Time) (a : AccountTables) : AccountTables :=
  a <| sessions ::= fmap (λ s, if which s && bool_decide (ses_revoked_at s = None) then s <| ses_revoked_at := Some at_ |> else s) |>.

Lemma revoked_lookup which at_ a i s :
  sessions (revoke_in which at_ a) !! i = Some s →
  ∃ s0, sessions a !! i = Some s0 ∧ session_evolves s0 s ∧ (live s → live s0 ∧ s = s0 ∧ which s = false).
Proof.
  simpl. rewrite lookup_fmap, fmap_Some. intros (s0 & Hs & ->). exists s0. split; [done|].
  destruct (which s0) eqn:Ew; simpl.
  - case_bool_decide as Hl; simpl; split; [by split_and!; auto|done|done|]. intros Hl'. by destruct Hl.
  - split; [done|]. by intros Hl.
Qed.

Lemma revoke_ok which at_ a : accounts_ok a → accounts_ok (revoke_in which at_ a).
Proof.
  intros [H1 H2 H3 H4]. split; [done|done| |].
  - intros i j s t (s0 & Hs & (_ & E1 & _) & _)%revoked_lookup (t0 & Ht & (_ & E2 & _) & _)%revoked_lookup E. eapply H3; [done..|]. congruence.
  - intros i s (s0 & Hs & _ & Hl)%revoked_lookup Hlive. destruct (Hl Hlive) as (? & -> & _). by eapply H4.
Qed.

Lemma revoke_evolve which at_ a : accounts_evolve a (revoke_in which at_ a).
Proof.
  split; [intros id u Hu; by exists u|]. intros i s Hs. simpl. rewrite lookup_fmap, Hs. simpl. eexists. split; [done|].
  destruct (which s && _) eqn:E; [|done]. apply andb_true_iff in E as [_ E%bool_decide_eq_true]. by split_and!; auto.
Qed.

(** Changing a user; its sessions are all revoked or it stays active. *)
Definition alter_user (id : string) (f : UserRow → UserRow) (a : AccountTables) : AccountTables := a <| user_rows ::= alter f id |>.

Lemma alter_user_lookup id f a id' u' :
  user_rows (alter_user id f a) !! id' = Some u' →
  ∃ u, user_rows a !! id' = Some u ∧ (id' = id ∧ u' = f u ∨ id' ≠ id ∧ u' = u).
Proof.
  simpl. destruct (decide (id' = id)) as [->|Hne].
  - rewrite lookup_alter_eq, fmap_Some. intros (u & Hu & ->). exists u. auto.
  - rewrite lookup_alter_ne by done. intros Hu. exists u'. auto.
Qed.

Lemma alter_user_ok id f a :
  accounts_ok a → (∀ u, ur_email (f u) = ur_email u) →
  (∀ u, user_rows a !! id = Some u → active_user u = true → active_user (f u) = true ∨
        ∀ i s, sessions a !! i = Some s → ses_user_id s = id → ¬ live s) →
  accounts_ok (alter_user id f a).
Proof.
  intros [H1 H2 H3 H4] He Hact. split; [| |done|].
  - intros i j u v (u0 & Hu & Cu)%alter_user_lookup (v0 & Hv & Cv)%alter_user_lookup E. eapply H1; [exact Hu|exact Hv|].
    destruct Cu as [[_ ->]|[_ ->]], Cv as [[_ ->]|[_ ->]]; by rewrite ?He in E.
  - intros i role Hr. destruct (H2 _ _ Hr). split; [|done]. simpl. by rewrite lookup_alter_is_Some.
  - intros i s Hs Hl. destruct (H4 _ _ Hs Hl) as (u & Hu & Ha). simpl in *. destruct (decide (ses_user_id s = id)) as [E|Hne].
    + rewrite E in Hu |- *. rewrite lookup_alter_eq, Hu. exists (f u). split; [done|].
      destruct (Hact u Hu Ha) as [?|Hno]; [done|]. by destruct (Hno i s Hs E).
    + rewrite lookup_alter_ne by done. eauto.
Qed.

Lemma alter_user_evolve id f a : (∀ u, ur_email (f u) = ur_email u) → accounts_evolve a (alter_user id f a).
Proof.
  intros He. split; [|intros i s Hs; by exists s]. intros i u Hu. simpl. destruct (decide (i = id)) as [->|Hne].
  - rewrite lookup_alter_eq, Hu. eexists. split; [done|apply He].
  - rewrite lookup_alter_ne by done. eauto.
Qed.

Lemma alter_user_admin id f a :
  has_admin a → (∀ u, user_rows a !! id = Some u → active_user u = true → (id, RoleAdmin) ∈ user_roles a →
    active_user (f u) = true ∨ ∃ other v, other ≠ id ∧ user_rows a !! other = Some v ∧ active_user v = true ∧ (other, RoleAdmin) ∈ user_roles a) →
  has_admin (alter_user id f a).
Proof.
  intros (i & u & Hu & Ha & Hr) Hf. destruct (decide (i = id)) as [->|Hne].
  - destruct (Hf u Hu Ha Hr) as [Hfu|(j & v & Hj & Hv & Hav & Hrv)].
    + exists id, (f u). simpl. by rewrite lookup_alter_eq, Hu.
    + exists j, v. simpl. by rewrite lookup_alter_ne.
  - exists i, u. simpl. by rewrite lookup_alter_ne.
Qed.

(** Two administrators at least: one of them is another. *)
Lemma another_admin d id :
  1 < Z.of_nat (length (active_admins d)) →
  ∃ other v, other ≠ id ∧ user_rows (accounts d) !! other = Some v ∧ active_user v = true ∧ (other, RoleAdmin) ∈ user_roles (accounts d).
Proof.
  intros Hl. assert (NoDup (active_admins d).*1) as Hnd.
  { eapply sublist_NoDup; [apply (NoDup_fst_map_to_list (user_rows (accounts d)))|]. apply fmap_sublist, sublist_filter. }
  assert (∀ p, p ∈ active_admins d → user_rows (accounts d) !! p.1 = Some p.2 ∧ active_user p.2 = true ∧ (p.1, RoleAdmin) ∈ user_roles (accounts d)) as Hin.
  { intros [i u] ([Ha Hr] & Hp)%list_elem_of_filter. apply elem_of_map_to_list in Hp. simpl in *. by apply bool_decide_eq_true in Hr. }
  destruct (active_admins d) as [|p [|q l]]; simpl in Hl; [lia|lia|].
  destruct (decide (p.1 = id)) as [E|Hne].
  - exists q.1, q.2. split; [|apply Hin; set_solver]. intros E'. simpl in Hnd. apply NoDup_cons in Hnd as [Hnd _]. apply Hnd.
    rewrite E, <-E'. set_solver.
  - exists p.1, p.2. split; [done|]. apply Hin. set_solver.
Qed.

Lemma lockout_step d id f at_ :
  (∀ u, ur_email (f u) = ur_email u) →
  (∀ u, user_rows (accounts d) !! id = Some u → active_user u = true → is_admin d id = true →
     active_user (f u) = true ∨ 1 < Z.of_nat (length (active_admins d))) →
  account_step d (update_sessions (λ s, bool_decide (ses_user_id s = id)) at_ (update_user id f d)).
Proof.
  intros He Hadm. set (a := revoke_in (λ s, bool_decide (ses_user_id s = id)) at_ (accounts d)).
  change (accounts (update_sessions _ at_ (update_user id f d))) with (alter_user id f a) in *. split; simpl.
  - intros Hok. apply (alter_user_ok id f a); [by apply revoke_ok|done|]. intros u Hu Ha. right.
    intros i s (s0 & _ & _ & Hl)%revoked_lookup E Hlive. destruct (Hl Hlive) as (_ & _ & Hw). by apply bool_decide_eq_false in Hw.
  - intros Hok Hadmin. apply (alter_user_admin id f a); [exact Hadmin|]. intros u Hu Ha Hr.
    destruct (Hadm u Hu Ha) as [?|Hl]; [by apply bool_decide_eq_true|by left|right]. by apply another_admin.
  - etrans; [apply (revoke_evolve (λ s, bool_decide (ses_user_id s = id)) at_)|]. by apply (alter_user_evolve id f a).
Qed.

Lemma kept_user_step d id f :
  (∀ u, ur_email (f u) = ur_email u) → (∀ u, user_rows (accounts d) !! id = Some u → active_user u = true → active_user (f u) = true) →
  account_step d (update_user id f d).
Proof.
  intros He Hf. split; simpl.
  - intros Hok. apply (alter_user_ok id f); [done..|]. eauto.
  - intros Hok Hadmin. apply (alter_user_admin id f); [done|]. eauto.
  - by apply (alter_user_evolve id f).
Qed.

(** Roles that were prepared: nothing depends on the unused ones. *)
Definition roles_grown (d d' : DB) : Prop := ∃ r, roles (accounts d) ⊆ r ∧ d' = d <| accounts ::= λ a, a <| roles := r |> |>.

#[export] Instance roles_grown_preorder : PreOrder roles_grown.
Proof.
  split; [intros d; exists (roles (accounts d)); split; [done|]; by destruct d as [[]]|].
  intros d d' d'' (r & Hr & ->) (r' & Hr' & ->). exists r'. split; [by etrans|done].
Qed.

Lemma roles_grown_step d d' : roles_grown d d' → account_step d d'.
Proof. intros (r & Hr & ->). split; [by intros [? ? ? ?]; split|done|split; [intros id u Hu; by exists u|intros i s Hs; by exists s]]. Qed.

Lemma replaced_roles d id names i role :
  list_to_set names ⊆ roles (accounts d) →
  (i, role) ∈ user_roles (accounts (replace_roles id names d)) ↔ (i = id ∧ role ∈ names) ∨ (i ≠ id ∧ (i, role) ∈ user_roles (accounts d)).
Proof.
  intros Hsub. unfold replace_roles, role_pairs. simpl. rewrite elem_of_union, elem_of_filter, elem_of_list_to_set, list_elem_of_fmap.
  simpl. split.
  - intros [?|(r & [= -> ->] & [_ ?]%list_elem_of_filter)]; [by right|by left].
  - intros [[-> ?]|?]; [right|by left]. exists role. split; [done|]. apply list_elem_of_filter. set_solver.
Qed.

(** Replacing the roles of a user, when an administrator is left afterwards. *)
Lemma replaced_step d0 d id names :
  account_step d0 d → is_Some (user_rows (accounts d) !! id) → Forall (λ role, is_Some (permissionsForRole role)) names →
  list_to_set names ⊆ roles (accounts d) →
  (accounts_ok (accounts d0) → has_admin (accounts d0) → RoleAdmin ∈ names ∧ (∃ u, user_rows (accounts d) !! id = Some u ∧ active_user u = true) ∨
     ∃ other v, other ≠ id ∧ user_rows (accounts d) !! other = Some v ∧ active_user v = true ∧ (other, RoleAdmin) ∈ user_roles (accounts d)) →
  account_step d0 (replace_roles id names d).
Proof.
  intros [S1 S2 S3] Hid Hn Hsub Hadm. split.
  - intros Hok. destruct (S1 Hok) as [H1 H2 H3 H4]. split; [done| |done|done].
    intros i role [[-> Hin]|[_ Hin]]%replaced_roles; [|by apply H2|done]. split; [done|]. rewrite Forall_forall in Hn. by apply Hn.
  - intros Hok Ha. destruct (Hadm Hok Ha) as [(Hin & u & Hu & Hact)|(j & v & Hj & Hv & Hav & Hrv)].
    + exists id, u. split_and!; [done|done|]. apply replaced_roles; auto.
    + exists j, v. split_and!; [done|done|]. apply replaced_roles; auto.
  - etrans; [exact S3|]. split; [intros j u Hu; by exists u|intros i s Hs; by exists s].
Qed.

Lemma email_used_false email d id u : email_used email d = false → user_rows (accounts d) !! id = Some u → ToLower (ur_email u) ≠ ToLower email.
Proof.
  unfold email_used. intros H Hu E. apply not_true_iff_false in H. destruct H. apply existsb_exists. exists (id, u).
  split; [by apply list_elem_of_In, elem_of_map_to_list|]. by apply bool_decide_eq_true.
Qed.

Lemma inserted_user_step id row d d' :
  insert_user id row d = Some d' → email_used (ur_email row) d = false → active_user row = true → account_step d d' ∧ is_Some (user_rows (accounts d') !! id).
Proof.
  unfold insert_user. case_bool_decide as Hid; [done|]. intros [= <-] He Hact. apply eq_None_not_Some in Hid.
  split; [|simpl; by rewrite lookup_insert_eq]. split; simpl.
  - intros [H1 H2 H3 H4]. split; [| |done|]; simpl.
    + intros i j u v [[<- <-]|[? Hu]]%lookup_insert_Some [[<- <-]|[? Hv]]%lookup_insert_Some E; [done| | |by eauto].
      * by destruct (email_used_false _ _ _ _ He Hv).
      * by destruct (email_used_false _ _ _ _ He Hu).
    + intros i role Hr. destruct (H2 _ _ Hr). split; [|done]. rewrite lookup_insert_is_Some'. by right.
    + intros i s Hs Hl. destruct (H4 _ _ Hs Hl) as (u & Hu & Ha). exists u. rewrite lookup_insert_ne; [done|]. congruence.
  - intros Hok (i & u & Hu & Ha & Hr). exists i, u. simpl. rewrite lookup_insert_ne; [done|]. congruence.
  - split; [|intros i s Hs; by exists s]. intros i u Hu. exists u. simpl. rewrite lookup_insert_ne; [done|]. congruence.
Qed.

Lemma inserted_session_step id row d d' :
  insert_session id row d = Some d' → credentials_current (ses_user_id row) (default "" (ur_password_hash <$> user_rows (accounts d) !! ses_user_id row)) d = true →
  account_step d d'.
Proof.
  unfold insert_session. destruct (_ || _) eqn:E; [done|]. intros [= <-] Hc. repeat (apply orb_false_iff in E as [E ?]). tx_facts.
  apply eq_None_not_Some in E. assert (∀ i s, sessions (accounts d) !! i = Some s → ses_token_hash s ≠ ses_token_hash row) as Hfresh.
  { intros i s Hs Eq. apply not_true_iff_false in H. destruct H. apply existsb_exists. exists (i, s).
    split; [by apply list_elem_of_In, elem_of_map_to_list|]. by apply bool_decide_eq_true. }
  unfold credentials_current in Hc. destruct (user_rows (accounts d) !! ses_user_id row) as [u|] eqn:Eu; [|done].
  apply andb_true_iff in Hc as [_ Hact]. split; simpl.
  - intros [H1 H2 H3 H4]. split; [done|done| |]; simpl.
    + intros i j s t [[<- <-]|[? Hs]]%lookup_insert_Some [[<- <-]|[? Ht]]%lookup_insert_Some Eh; [done| | |by eauto].
      * by destruct (Hfresh _ _ Ht).
      * by destruct (Hfresh _ _ Hs).
    + intros i s [[<- <-]|[? Hs]]%lookup_insert_Some Hl; [by exists u|by eauto].
  - done.
  - split; [intros i v Hv; by exists v|]. intros i s Hs. exists s. simpl. rewrite lookup_insert_ne; [done|]. congruence.
Qed.

(** All the sessions of a user are revoked. *)
Definition signed_out (id : string) (d : DB) : Prop :=
  ∀ i s, sessions (accounts d) !! i = Some s → ses_user_id s = id → ses_revoked_at s ≠ None.

Lemma signed_out_after id f at_ d : signed_out id (update_sessions (λ s, bool_decide (ses_user_id s = id)) at_ (update_user id f d)).
Proof.
  intros i s Hs E Hl. destruct (revoked_lookup (λ s, bool_decide (ses_user_id s = id)) at_ (accounts d) i s Hs) as (s0 & _ & _ & H).
  destruct (H Hl) as (_ & _ & Hw). by apply bool_decide_eq_false in Hw.
Qed.

Lemma normalizeRoles_valid names normalized : normalizeRoles names = Ok normalized → Forall (λ role, is_Some (permissionsForRole role)) normalized.
Proof.
  unfold normalizeRoles. destruct names as [|n names]; [done|]. generalize (n :: names). clear n names. intros names.
  destruct (dedup_roles ∅ names) as [l|] eqn:E; [|done]. intros [= <-].
  assert (∀ seen l, dedup_roles seen names = Ok l → Forall (λ role, is_Some (permissionsForRole role)) l) as H.
  { clear. induction names as [|role rest IH]; intros seen l; simpl; [by intros [= <-]|].
    destruct (negb _) eqn:En; [done|]. apply negb_false_iff, bool_decide_eq_true in En.
    destruct (dedup_roles _ rest) as [k|] eqn:Ek; [|done]. intros [= <-]. specialize (IH _ _ Ek). case_bool_decide; [done|].
    constructor; [|done]. repeat (apply elem_of_cons in En as [->|En]; [by eexists|]). by apply elem_of_nil in En. }
  rewrite Forall_forall. intros role Hin. rewrite stable_sort_perm in Hin. specialize (H _ _ E). rewrite Forall_forall in H. by apply H.
Qed.

Section store.
Context {C : Type} `{!Has DB C, uuids : !UUIDs}.

Lemma wp_ensureRoles names (c : C) d (Q : Result unit → C * DB → Prop) :
  (∀ e d', Q (Err e) (c, d')) → (∀ d', roles_grown d d' → list_to_set names ⊆ roles (accounts d') → Q (Ok tt) (c, d')) →
  wp (ensureRoles names) (c, d) Q.
Proof.
  intros He. revert d. induction names as [|role names IH]; intros d HQ; simpl.
  - apply wp_ret, HQ; [done|set_solver].
  - apply wp_bind. destruct (permissionsForRole role); [|by apply wp_throw]. apply wp_exec; [by apply He|]. intros d' [= <-].
    split; [|by apply He]. apply IH. intros d' Hg Hsub. apply HQ.
    + etrans; [|exact Hg]. eexists. split; [|done]. set_solver.
    + destruct Hg as (r & Hr & ->). simpl in *. set_solver.
Qed.

Lemma wp_preserveLastAdmin (c : C) d (Q : Result unit → C * DB → Prop) :
  (∀ e, Q (Err e) (c, d)) → (1 < Z.of_nat (length (active_admins d)) → Q (Ok tt) (c, d)) → wp preserveLastAdmin (c, d) Q.
Proof.
  intros He HQ. apply wp_bind, wp_query; [apply He|]. destruct (_ <=? 1) eqn:E; [apply wp_throw, He|apply wp_ret, HQ; lia].
Qed.

Lemma wp_guard_admin {A} (needed : bool) (k : Tx C A) (c : C) d (Q : Result A → C * DB → Prop) :
  (∀ e, Q (Err e) (c, d)) → ((needed = true → 1 < Z.of_nat (length (active_admins d))) → wp k (c, d) Q) →
  wp ((if needed then preserveLastAdmin else ret tt) ;;! k) (c, d) Q.
Proof.
  intros He Hk. apply wp_bind. destruct needed; [|by apply wp_ret, Hk]. apply wp_preserveLastAdmin; [done|]. auto.
Qed.

(** A transaction on a member: locked, changed by [body], then finished. *)
Lemma wp_lockMember targetID (c : C) d (Q : Result LockedMember → C * DB → Prop) :
  (∀ e, Q (Err e) (c, d)) →
  (∀ row, user_rows (accounts d) !! targetID = Some row →
     Q (Ok (mkLockedMember (ur_enabled row) (negb (bool_decide (ur_removed_at row = None))) (is_admin d targetID))) (c, d)) →
  wp (lockMember targetID) (c, d) Q.
Proof.
  intros He HQ. apply wp_bind, wp_query; [apply He|]. destruct (user_rows (accounts d) !! targetID) as [row|] eqn:E; simpl.
  - apply wp_ret. by apply HQ.
  - apply wp_throw, He.
Qed.

Lemma wp_finish_member context targetID (c : C) d (Q : Result Member → C * DB → Prop) :
  (∀ e, Q (Err e) (c, d)) → (∀ e, Q (Err e) (set_part d c, d)) →
  (∀ row, user_rows (accounts d) !! targetID = Some row → Q (Ok (scanMember d targetID row)) (set_part d c, d)) →
  wp (finish_member context targetID) (c, d) Q.
Proof.
  intros He Hl HQ. unfold finish_member, insertMemberAudit. apply wp_bind, wp_exec; [apply He|]. intros d' [= <-]. split; [|apply He].
  apply wp_bind, wp_bind, wp_query; [apply He|]. destruct (user_rows (accounts d) !! targetID) as [row|] eqn:E; simpl; [|apply wp_throw, He].
  apply wp_ret, wp_bind, wp_commit; [apply He| |apply Hl]. apply wp_ret. by apply HQ.
Qed.

(** What an operation on a member leaves: the step and, of a success, [P]. *)
Definition member_post (P : DB → Prop) (d : DB) (r : Result Member) (d' : DB) : Prop :=
  account_step d d' ∧ (is_ok r = true → P d').

Lemma member_post_exit P d e : member_post P d (Err e) d.
Proof. by split. Qed.

Lemma wp_finished context targetID (c : C) d P :
  account_step (part c) d → P d → wp (finish_member context targetID) (c, d) (tx_post c (member_post P)).
Proof.
  intros Hs HP. apply wp_finish_member; intros.
  - apply tx_exit, member_post_exit.
  - apply tx_committed. by split.
  - apply tx_committed. by split.
Qed.

Ltac member_exit := first [apply tx_exit, member_post_exit|intros; apply tx_exit, member_post_exit].

Lemma active_locked row : active_user row = ur_enabled row && negb (negb (bool_decide (ur_removed_at row = None))).
Proof. unfold active_user. by rewrite negb_involutive. Qed.

Lemma SetMemberEnabled_spec actorID targetID enabled :
  db_spec (C := C) (SetMemberEnabled actorID targetID enabled)
    (member_post (λ d', ∀ actor target, normalizeMemberMutationIDs actorID targetID = Ok (actor, target) → enabled = false → signed_out target d')).
Proof.
  unfold SetMemberEnabled. destruct (normalizeMemberMutationIDs _ _) as [[actor target]|e]; [|apply db_spec_throw; intros; apply member_post_exit].
  apply db_spec_transaction; [intros; apply member_post_exit|]. intros c. unfold lockAdminMutation. do 2 tx_step; [member_exit| |member_exit].
  simplify_eq. apply wp_bind, wp_lockMember; [member_exit|]. intros row Hrow. cbn [lm_removed lm_enabled lm_adminRole].
  destruct (_ || _) eqn:Eg; [apply wp_throw; member_exit|]. apply orb_false_iff in Eg as [Hr He]. apply negb_false_iff, bool_decide_eq_true in Hr.
  apply eqb_false_iff in He.
  apply wp_guard_admin; [member_exit|]. intros Hadm. do 2 tx_step. do 2 tx_step; [member_exit| |member_exit]. simplify_eq.
  destruct enabled; simpl in *.
  - apply wp_bind, wp_ret, wp_finished; [|done]. apply kept_user_step; [done|]. intros u Hu [_ Hrem]%andb_true_iff. simplify_eq. done.
  - unfold revokeMemberSessions. do 4 tx_step; [member_exit| |member_exit]. simplify_eq. apply wp_finished.
    + apply lockout_step; [done|]. auto.
    + intros a t' [= <- <-] _. apply signed_out_after.
Qed.

Lemma RemoveMember_spec actorID targetID :
  db_spec (C := C) (RemoveMember actorID targetID)
    (member_post (λ d', ∀ actor target, normalizeMemberMutationIDs actorID targetID = Ok (actor, target) → signed_out target d')).
Proof.
  unfold RemoveMember. destruct (normalizeMemberMutationIDs _ _) as [[actor target]|e]; [|apply db_spec_throw; intros; apply member_post_exit].
  apply db_spec_transaction; [intros; apply member_post_exit|]. intros c. unfold lockAdminMutation. do 2 tx_step; [member_exit| |member_exit].
  simplify_eq. apply wp_bind, wp_lockMember; [member_exit|]. intros row Hrow. cbn [lm_removed lm_enabled lm_adminRole].
  destruct (negb _) eqn:Hr; [apply wp_throw; member_exit|]. apply wp_guard_admin; [member_exit|]. intros Hadm.
  do 2 tx_step. do 2 tx_step; [member_exit| |member_exit]. simplify_eq. unfold revokeMemberSessions. do 4 tx_step; [member_exit| |member_exit].
  simplify_eq. apply wp_finished.
  - apply lockout_step; [done|]. intros u Hu [Hen _]%andb_true_iff Ha. simplify_eq. right. apply Hadm. by rewrite Hen, Ha.
  - intros a t' [= <- <-]. apply signed_out_after.
Qed.

Lemma ResetMemberPassword_spec actorID targetID hash :
  db_spec (C := C) (ResetMemberPassword actorID targetID hash)
    (member_post (λ d', ∀ actor target, normalizeMemberMutationIDs actorID targetID = Ok (actor, target) → signed_out target d')).
Proof.
  unfold ResetMemberPassword. destruct (normalizeMemberMutationIDs _ _) as [[actor target]|e]; [|apply db_spec_throw; intros; apply member_post_exit].
  apply db_spec_transaction; [intros; apply member_post_exit|]. intros c. apply wp_bind, wp_lockMember; [member_exit|]. intros row Hrow.
  cbn [lm_removed]. destruct (negb _) eqn:Hr; [apply wp_throw; member_exit|].
  do 2 tx_step. do 2 tx_step; [member_exit| |member_exit]. simplify_eq. unfold revokeMemberSessions. do 4 tx_step; [member_exit| |member_exit].
  simplify_eq. apply wp_finished.
  - apply lockout_step; [done|]. intros u Hu Ha _. by left.
  - intros a t' [= <- <-]. apply signed_out_after.
Qed.

Lemma RestoreMember_spec actorID targetID : db_spec (C := C) (RestoreMember actorID targetID) (member_post (λ _, True)).
Proof.
  unfold RestoreMember. destruct (normalizeMemberMutationIDs _ _) as [[actor target]|e]; [|apply db_spec_throw; intros; apply member_post_exit].
  apply db_spec_transaction; [intros; apply member_post_exit|]. intros c. apply wp_bind, wp_lockMember; [member_exit|]. intros row Hrow.
  cbn [lm_removed]. destruct (negb _) eqn:Hr; [apply wp_throw; member_exit|]. apply negb_false_iff, negb_true_iff in Hr.
  do 2 tx_step. do 2 tx_step; [member_exit| |member_exit]. simplify_eq. apply wp_finished; [|done].
  apply kept_user_step; [done|]. intros u Hu [_ Ha]%andb_true_iff. rewrite Hrow in Hu. injection Hu as <-. by rewrite Ha in Hr.
Qed.

Lemma ReplaceMemberRoles_spec actorID targetID requested :
  db_spec (C := C) (ReplaceMemberRoles actorID targetID requested) (member_post (λ _, True)).
Proof.
  unfold ReplaceMemberRoles. destruct (normalizeMemberMutationIDs _ _) as [[actor target]|e]; [|apply db_spec_throw; intros; apply member_post_exit].
  destruct (normalizeRoles requested) as [names|e] eqn:En; [|apply db_spec_throw; intros; apply member_post_exit].
  apply db_spec_transaction; [intros; apply member_post_exit|]. intros c. unfold lockAdminMutation. do 2 tx_step; [member_exit| |member_exit].
  simplify_eq. apply wp_bind, wp_lockMember; [member_exit|]. intros row Hrow. cbn [lm_removed lm_enabled lm_adminRole].
  destruct (negb (bool_decide _)) eqn:Hr; [apply wp_throw; member_exit|]. apply wp_guard_admin; [member_exit|]. intros Hadm.
  apply wp_bind, wp_ensureRoles; [member_exit|]. intros d' Hg Hsub. pose proof (roles_grown_step _ _ Hg) as Hstep.
  destruct Hg as (r & Hr' & ->). unfold replaceRoles. do 2 tx_step; [member_exit| |member_exit]. simplify_eq. apply wp_finished; [|done].
  apply (replaced_step _ _ _ _ Hstep); [by exists row|by eapply normalizeRoles_valid|done|].
  intros _ (i & u & Hu & Ha & Hi). destruct (decide (i = target)) as [->|Hne]; [|right; by exists i, u]. simpl.
  assert (u = row) as -> by congruence. destruct (containsRole names RoleAdmin) eqn:Ec.
  - left. apply bool_decide_eq_true in Ec. split; [done|]. by exists row.
  - right. apply (another_admin (part c)), Hadm. apply andb_true_iff in Ha as [Hen _]. unfold is_admin. by rewrite Hen, bool_decide_true.
Qed.

Lemma CreateMember_spec actorID record : db_spec (C := C) (CreateMember actorID record) (member_post (λ _, True)).
Proof.
  unfold CreateMember. destruct (NormalizeUserID actorID) as [actor|e]; [|apply db_spec_throw; intros; apply member_post_exit].
  destruct (normalizeRoles _) as [names|e] eqn:En; [|apply db_spec_throw; intros; apply member_post_exit].
  apply db_spec_transaction; [intros; apply member_post_exit|]. intros c.
  apply wp_bind, wp_ensureRoles; [member_exit|]. intros d' Hg Hsub. pose proof (roles_grown_step _ _ Hg) as Hstep.
  do 4 tx_step; [member_exit|]. do 2 tx_step; [member_exit| |member_exit].
  destruct (email_used _ d') eqn:Eu; simplify_eq; [simpl; apply wp_throw; member_exit|].
  apply fmap_Some in Hstmt as (d1 & Hins & [= -> ->]). destruct (inserted_user_step _ _ _ _ Hins Eu eq_refl) as [Hstep' Hid].
  simpl. unfold replaceRoles. do 2 tx_step; [member_exit| |member_exit]. simplify_eq. apply wp_finished; [|done].
  eapply replaced_step; [etrans; [exact Hstep|exact Hstep']|done|by eapply normalizeRoles_valid| |].
  - unfold insert_user in Hins. destruct (bool_decide _); [done|]. by injection Hins as <-.
  - intros Hok Ha. destruct (as_admin _ _ Hstep Hok Ha) as (i & u & Hu & Hau & Hr). right.
    unfold insert_user in Hins. case_bool_decide as Hfresh; [done|]. injection Hins as <-. exists i, u. simpl.
    assert (i ≠ id) by (intros ->; destruct Hfresh; by exists u). by rewrite lookup_insert_ne.
Qed.

Lemma Sessions_Create_spec session :
  db_spec (C := C) (Sessions_Create session) (λ d r d',
    account_step d d' ∧
    (credentials_current (st_UserID session) (st_ExpectedPasswordHash session) d = false → d' = d ∧ is_ok r = false) ∧
    (is_ok r = true → insert_session (st_ID session)
       (mkSessionRow (st_UserID session) (st_TokenHash session) (st_ExpiresAt session) None (st_CreatedAt session)) d = Some d')).
Proof.
  unfold Sessions_Create. case_bool_decide as He; [by apply db_spec_throw|]. apply db_spec_transaction; [done|]. intros c. do 2 tx_step; [by tx_step|].
  destruct (credentials_current _ _ _) eqn:Ec; simpl; [|apply wp_throw; by tx_step]. do 2 tx_step; [by tx_step| |by tx_step].
  assert (account_step (part c) d') as Hstep.
  { eapply inserted_session_step; [exact Hstmt|]. simpl. unfold credentials_current in *.
    destruct (user_rows (accounts (part c)) !! _) as [u|]; [|done]. apply andb_true_iff in Ec as [_ Ec]. simpl. by rewrite bool_decide_true, Ec. }
  apply wp_commit; tx_step; [done|..]; (split_and!; [done|by rewrite Ec|]; done).
Qed.

Lemma insert_session_inv id row d d' :
  insert_session id row d = Some d' → d' = d <| accounts ::= λ a, a <| sessions ::= <[id := row]> |> |>.
Proof. unfold insert_session. destruct (_ || _); [done|]. by intros [= <-]. Qed.

Lemma moves_Revoke hash : moves account_step (Sessions_Revoke (C := C) hash).
Proof.
  unfold Sessions_Revoke. apply moves_bind; [apply _|apply moves_clock, _|]. intros now. apply moves_pool; [apply _|]. intros d d' a [= <- _]. split.
  - apply (revoke_ok (λ s, bool_decide (ses_token_hash s = hash)) now).
  - done.
  - apply (revoke_evolve (λ s, bool_decide (ses_token_hash s = hash)) now).
Qed.

Lemma moves_FindByEmail email : moves account_step (FindByEmail (C := C) email).
Proof. apply moves_bind; [apply _|apply moves_query, _|]. intros [user|]; [by apply db_spec_ret|by apply db_spec_throw]. Qed.

Lemma moves_FindPrincipal hash : moves account_step (FindPrincipal (C := C) hash).
Proof.
  apply moves_bind; [apply _|apply moves_clock, _|]. intros now. apply moves_bind; [apply _|apply moves_query, _|].
  intros [p|]; [by apply db_spec_ret|by apply db_spec_throw].
Qed.

End store.

Section service.
Context {C : Type} `{!Has DB C, uuids : !UUIDs, argon : !Argon2}.

Lemma wp_rand_read count (c : C) (Q : Result (list Z) → C → Prop) : (∀ r, Q r c) → wp (rand_read count) c Q.
Proof. intros HQ. apply wp_bind, wp_new_uuid; [done|]. intros id. by apply wp_ret. Qed.

Lemma moves_rand count : moves account_step (rand_read (C := C) count).
Proof. apply moves_same; [apply _|]. intros c. by apply wp_rand_read. Qed.

Lemma moves_randomToken count : moves account_step (randomToken (C := C) count).
Proof. apply moves_bind; [apply _|apply moves_rand|]. intros value. by apply db_spec_ret. Qed.

Lemma moves_HashPassword password : moves account_step (HashPassword (C := C) password).
Proof. apply moves_bind; [apply _|apply moves_rand|]. intros salt. by apply db_spec_ret. Qed.

Lemma moves_open_session user : moves account_step (open_session (C := C) user).
Proof.
  apply moves_bind; [apply _|apply moves_randomToken|]. intros token. apply moves_bind; [apply _| |].
  { apply moves_bind; [apply _|apply moves_rand|]. intros value. by apply db_spec_ret. }
  intros id. apply moves_bind; [apply _|apply moves_clock, _|]. intros now. apply moves_bind; [apply _| |].
  { apply moves_catch. eapply db_spec_mono; [apply Sessions_Create_spec|]. by intros d r d' (? & _). }
  intros [u|[]]; first [by apply db_spec_ret|by apply db_spec_throw].
Qed.

Lemma moves_Login email password : moves account_step (Login (C := C) email password).
Proof.
  apply moves_bind; [apply _|apply moves_catch, moves_FindByEmail|]. intros user.
  destruct (verified_user user password); [apply moves_open_session|by apply db_spec_throw].
Qed.

Lemma moves_Authenticate token : moves account_step (Service_Authenticate (C := C) token).
Proof.
  unfold Service_Authenticate. case_bool_decide; [by apply db_spec_throw|].
  apply moves_bind; [apply _|apply moves_catch, moves_FindPrincipal|]. intros [p|e]; [by apply db_spec_ret|by apply db_spec_throw].
Qed.

Lemma moves_Logout token : moves account_step (Logout (C := C) token).
Proof. unfold Logout. case_bool_decide; [by apply db_spec_ret|apply moves_Revoke]. Qed.

Lemma moves_guarded permission cookie path : moves account_step (guarded (C := C) permission cookie path).
Proof.
  apply moves_bind; [apply _| |intros []; by apply db_spec_ret]. unfold Authenticate_gate. destruct cookie as [token|]; [|by apply db_spec_ret].
  apply moves_bind; [apply _|apply moves_catch, moves_Authenticate|]. intros [p|e]; [destruct (_ && _)|]; by apply db_spec_ret.
Qed.

(** Rate limits are not part of what is kept. *)
Lemma limits_step d f : account_step d (d <| accounts ::= λ a, a <| auth_rate_limits ::= f |> |>).
Proof. split; [by intros [? ? ? ?]; split|done|split; [intros id u Hu; by exists u|intros i s Hs; by exists s]]. Qed.

Lemma moves_RegisterAttempt userID ipAddress now : moves account_step (RegisterAttempt (C := C) userID ipAddress now).
Proof.
  unfold RegisterAttempt. case_match; [by apply db_spec_throw|]. apply db_spec_transaction; [done|]. intros c.
  repeat tx_step; try done; simplify_eq; unfold count_attempt in *; simplify_eq; (etrans; [apply limits_step|apply limits_step]).
Qed.

(** The effect of a password change: the new hash, every other session of the user revoked. *)
Definition changed_user (change : PasswordChangeCommit) (u : UserRow) : UserRow :=
  u <| ur_password_hash := pc_NewHash change |> <| ur_must_change_password := false |> <| ur_updated_at := pc_ChangedAt change |>.

Definition other_session (change : PasswordChangeCommit) (s : SessionRow) : bool :=
  bool_decide (ses_user_id s = pc_UserID change) && negb (bool_decide (ses_token_hash s = pc_CurrentSessionHash change)).

Definition changed_accounts (change : PasswordChangeCommit) (a : AccountTables) : AccountTables :=
  revoke_in (other_session change) (pc_ChangedAt change) (alter_user (pc_UserID change) (changed_user change) a).

Definition password_changed (change : PasswordChangeCommit) (d d' : DB) : Prop :=
  (ur_password_hash <$> user_rows (accounts d) !! pc_UserID change) = Some (pc_ExpectedHash change) ∧
  accounts d' = (changed_accounts change (accounts d)) <| auth_rate_limits ::= delete ("password_user", Sum256 (pc_UserID change)) |>.

Lemma CommitPasswordChange_spec change :
  db_spec (C := C) (CommitPasswordChange change) (λ d r d',
    match r with
    | Ok _ => password_changed change d d'
    | Err e => d' = d ∨ (e = EStorage "提交改密事务" ∧ password_changed change d d')
    end).
Proof.
  unfold CommitPasswordChange. case_match; [apply db_spec_throw; by left|]. apply db_spec_transaction; [by left|]. intros c.
  do 2 tx_step; [tx_step; by left|]. destruct (ur_password_hash <$> _) as [stored|] eqn:Es; [|apply wp_throw; tx_step; by left].
  destruct (negb (bool_decide (stored = _))) eqn:En; [apply wp_throw; tx_step; by left|]. apply negb_false_iff, bool_decide_eq_true in En. subst stored.
  repeat tx_step; try (by left); simplify_eq; [by split|right; split; [done|by split]].
Qed.

Lemma password_changed_step change d d' : password_changed change d d' → account_step d d'.
Proof.
  intros [_ E]. set (b := changed_accounts change (accounts d)) in E.
  assert (account_step d (d <| accounts := b |>)) as H.
  { split; simpl.
    - intros Hok. apply revoke_ok, alter_user_ok; [done|done|]. intros u _ Ha. by left.
    - intros Hok Ha. apply (alter_user_admin (pc_UserID change)); [done|]. intros u _ Hact _. by left.
    - etrans; [by apply (alter_user_evolve (pc_UserID change) (changed_user change))|apply revoke_evolve]. }
  etrans; [exact H|]. destruct (limits_step (d <| accounts := b |>) (delete ("password_user", Sum256 (pc_UserID change)))) as [L1 L2 L3].
  split; rewrite E; [exact L1|exact L2|exact L3].
Qed.

Lemma moves_Change principal token current new ip : moves account_step (Change (C := C) principal token current new ip).
Proof.
  apply moves_bind; [apply _|apply moves_clock, _|]. intros now. apply moves_bind; [apply _|apply moves_RegisterAttempt|]. intros [|]; [|by apply db_spec_throw].
  simpl. apply moves_bind; [apply _| |].
  { unfold PasswordHash. case_bool_decide; [by apply db_spec_throw|]. apply moves_bind; [apply _|apply moves_query, _|].
    intros [h|]; [by apply db_spec_ret|by apply db_spec_throw]. }
  intros hash. destruct (VerifyPassword hash current) as [[|]|]; [|by apply db_spec_throw..].
  destruct (_ || _); [by apply db_spec_throw|]. apply moves_bind; [apply _|apply moves_HashPassword|]. intros newHash.
  eapply db_spec_mono; [apply CommitPasswordChange_spec|]. intros d [u|e] d' H; [by eapply password_changed_step|].
  destruct H as [->|[_ H]]; [done|by eapply password_changed_step].
Qed.

(** *** The bootstrap *)

Lemma email_unused email d :
  filter (λ p, same_email email p.2 = true) (map_to_list (user_rows (accounts d))) = [] → email_used email d = false.
Proof.
  intros E. unfold email_used. apply not_true_iff_false. intros (p & Hin & Hp)%existsb_exists. apply (filter_nil_not_elem_of _ _ p E Hp).
  by apply list_elem_of_In.
Qed.

Lemma bootstrap_user_spec email displayName hash now fresh d d' id :
  bootstrap_user email displayName hash now fresh d = Some (d', id) →
  account_step d d' ∧ roles (accounts d') = roles (accounts d) ∧
  ∃ u, user_rows (accounts d') !! id = Some u ∧ same_email email u = true ∧ ur_enabled u = true ∧ ur_password_hash u = hash ∧
    (∀ old, user_rows (accounts d) !! id = Some old → ur_removed_at u = ur_removed_at old) ∧
    (user_rows (accounts d) !! id = None → ur_removed_at u = None).
Proof.
  unfold bootstrap_user. destruct (head _) as [[i u]|] eqn:Eh.
  - intros [= <- <-]. apply head_Some_elem_of in Eh. apply list_elem_of_filter in Eh as [Hm Hi]. apply elem_of_map_to_list in Hi.
    split; [apply kept_user_step; [done|]; intros v _ [_ Hv]%andb_true_iff; exact Hv|]. split; [done|]. eexists. simpl.
    rewrite lookup_alter_eq, Hi. split; [done|]. split_and!; [done..| |].
    + intros old Ho. by simplify_eq.
    + done.
  - apply head_None in Eh. intros (d1 & Hins & [= -> ->])%fmap_Some.
    destruct (inserted_user_step _ _ _ _ Hins (email_unused _ _ Eh) eq_refl) as [Hs _]. unfold insert_user in Hins.
    case_bool_decide as Hf; [done|]. injection Hins as <-. split; [done|]. split; [done|]. eexists. simpl. rewrite lookup_insert_eq.
    split; [done|]. split_and!; [by apply bool_decide_eq_true|done|done| |done]. intros old Ho. by destruct Hf; exists old.
Qed.

Lemma granted_step d id u :
  user_rows (accounts d) !! id = Some u →
  account_step d (d <| accounts ::= λ a, a <| user_roles ::= union (role_pairs id (filter (λ role, role ∈ roles a) [RoleAdmin])) |> |>).
Proof.
  intros Hu. split; simpl.
  - intros [H1 H2 H3 H4]. split; [done| |done|done]. simpl. intros i role [Hin|Hin]%elem_of_union; [|by apply H2].
    unfold role_pairs in Hin. rewrite elem_of_list_to_set, list_elem_of_fmap in Hin.
    destruct Hin as (r & [= -> ->] & [_ ->%list_elem_of_singleton]%list_elem_of_filter). split; by eexists.
  - intros Hok (i & v & Hv & Ha & Hr). exists i, v. split_and!; [done..|]. simpl. set_solver.
  - split; [intros i v Hv; by exists v|intros i s Hs; by exists s].
Qed.

(** After a bootstrap the user is enabled and an administrator, and removed if it was. *)
Definition bootstrapped (configuration : BootstrapConfig) (d d' : DB) : Prop :=
  ∃ id u, user_rows (accounts d') !! id = Some u ∧ same_email (bc_Email configuration) u = true ∧ ur_enabled u = true ∧
    (id, RoleAdmin) ∈ user_roles (accounts d') ∧
    (∀ old, user_rows (accounts d) !! id = Some old → ur_removed_at u = ur_removed_at old) ∧
    (user_rows (accounts d) !! id = None → ur_removed_at u = None).

Lemma wp_prepare_roles names (c : C) d (Q : Result unit → C * DB → Prop) :
  (∀ e d', Q (Err e) (c, d')) → (∀ d', roles_grown d d' → list_to_set names ⊆ roles (accounts d') → Q (Ok tt) (c, d')) →
  wp (for_each names (λ role, exec "初始化角色" (λ d, Some (d <| accounts ::= λ a, a <| roles ::= union {[role]} |> |>)))) (c, d) Q.
Proof.
  intros He. revert d. induction names as [|role names IH]; intros d HQ; simpl.
  - apply wp_ret, HQ; [done|set_solver].
  - apply wp_bind, wp_exec; [by apply He|]. intros d' [= <-]. split; [|by apply He]. apply IH. intros d' Hg Hsub. apply HQ.
    + etrans; [|exact Hg]. eexists. split; [|done]. set_solver.
    + destruct Hg as (r & Hr & ->). simpl in *. set_solver.
Qed.

Lemma bootstrap_spec configuration :
  db_spec (C := C) (bootstrap configuration) (λ d r d', account_step d d' ∧ (is_ok r = true → bootstrapped configuration d d')).
Proof.
  intros c. unfold bootstrap, HashPassword. apply wp_bind, wp_bind, wp_rand_read.
  intros [salt|e]; [|by rewrite set_part_same]. apply wp_ret.
  apply (db_spec_transaction _ _ (λ d r d', account_step d d' ∧ (is_ok r = true → bootstrapped configuration d d'))); [done|]. clear c. intros c.
  apply wp_bind, wp_prepare_roles; [intros; by apply tx_exit|]. intros d1 Hg Hsub.
  do 4 tx_step; [by apply tx_exit|]. do 2 tx_step; [by apply tx_exit| |by apply tx_exit].
  destruct (bootstrap_user_spec _ _ _ _ _ _ _ _ Hstmt) as (Hs & Er & u & Hu & Hm & Hen & _ & Hold & Hnew).
  pose proof (roles_grown_step _ _ Hg) as Hs1. destruct Hg as (r & Hr & ->). simpl in Hold, Hnew.
  do 2 tx_step; [by apply tx_exit| |by apply tx_exit]. simplify_eq. pose proof (granted_step _ _ _ Hu) as Hs2.
  apply wp_commit; [by apply tx_exit| |]; apply tx_committed; (split; [etrans; [exact Hs1|]; etrans; [exact Hs|exact Hs2]|]); [|done].
  intros _. do 2 eexists. split; [exact Hu|]. split_and!; [done..| |done|done]. simpl. rewrite elem_of_union. left. unfold role_pairs.
  rewrite elem_of_list_to_set, list_elem_of_fmap. exists RoleAdmin. split; [done|]. apply list_elem_of_filter. rewrite Er. set_solver.
Qed.

(** *** The team *)

Lemma moves_member_post P (m : Prog C Member) : db_spec m (member_post P) → moves account_step m.
Proof. intros H. eapply db_spec_mono; [exact H|]. by intros d r d' [? _]. Qed.

Lemma moves_Team_List status : moves account_step (Team_List (C := C) status).
Proof. unfold Team_List, ListMembers. destruct (negb _); [by apply db_spec_throw|apply moves_query, _]. Qed.

Lemma moves_Team_Create ip_literal actorID input : moves account_step (Team_Create (C := C) ip_literal actorID input).
Proof.
  unfold Team_Create. destruct (NormalizeUserID _); [|by apply db_spec_throw]. destruct (_ || _); [by apply db_spec_throw|].
  destruct (normalizeRoles _); [|by apply db_spec_throw]. apply moves_bind; [apply _|apply moves_randomToken|]. intros token.
  apply moves_bind; [apply _|apply moves_HashPassword|]. intros hash.
  apply moves_bind; [apply _|eapply moves_member_post, CreateMember_spec|]. intros m. by apply db_spec_ret.
Qed.

Lemma moves_UpdateRoles actorID userID names : moves account_step (UpdateRoles (C := C) actorID userID names).
Proof.
  unfold UpdateRoles. destruct (normalizeMemberMutationIDs _ _) as [[]|]; [|by apply db_spec_throw].
  destruct (normalizeRoles _); [|by apply db_spec_throw]. eapply moves_member_post, ReplaceMemberRoles_spec.
Qed.

Lemma moves_Team_Restore actorID userID : moves account_step (Team_Restore (C := C) actorID userID).
Proof.
  unfold Team_Restore. destruct (normalizeMemberMutationIDs _ _) as [[]|]; [|by apply db_spec_throw].
  eapply moves_member_post, RestoreMember_spec.
Qed.

(** Normalised identifiers are left as they are. *)
Lemma NormalizeUserID_idem value id : NormalizeUserID value = Ok id → NormalizeUserID id = Ok id.
Proof.
  unfold NormalizeUserID. destruct (parse_uuid _) as [u|] eqn:E; [|done]. intros [= <-].
  destruct (parse_canonical _ _ E) as [-> ->]. done.
Qed.

Lemma normalizeMemberMutationIDs_idem a t a' t' :
  normalizeMemberMutationIDs a t = Ok (a', t') → normalizeMemberMutationIDs a' t' = Ok (a', t') ∧ NormalizeUserID t = Ok t'.
Proof.
  unfold normalizeMemberMutationIDs. destruct (NormalizeUserID a) as [x|] eqn:Ea; [|done]. destruct (NormalizeUserID t) as [y|] eqn:Et; [|done].
  case_bool_decide as Hne; [done|]. intros [= <- <-]. rewrite (NormalizeUserID_idem _ _ Ea), (NormalizeUserID_idem _ _ Et).
  by rewrite bool_decide_false.
Qed.

(** What locking a member out promises, whichever way it is done. *)
Definition locks_out {A} (userID : string) (d : DB) (r : Result A) (d' : DB) : Prop :=
  account_step d d' ∧ (is_ok r = true → ∃ id, NormalizeUserID userID = Ok id ∧ signed_out id d').

Lemma Team_SetEnabled_spec actorID userID enabled :
  db_spec (C := C) (Team_SetEnabled actorID userID enabled) (λ d r d', account_step d d' ∧ (enabled = false → locks_out userID d r d')).
Proof.
  unfold Team_SetEnabled. destruct (normalizeMemberMutationIDs _ _) as [[actor target]|] eqn:E; [|by apply db_spec_throw].
  destruct (normalizeMemberMutationIDs_idem _ _ _ _ E) as [E' Et]. eapply db_spec_mono; [apply SetMemberEnabled_spec|].
  intros d r d' [Hs Hok]. split; [done|]. intros He. split; [done|]. intros Hr. exists target. split; [done|]. by eapply Hok.
Qed.

Lemma Team_Remove_spec actorID userID : db_spec (C := C) (Team_Remove actorID userID) (locks_out userID).
Proof.
  unfold Team_Remove. destruct (normalizeMemberMutationIDs _ _) as [[actor target]|] eqn:E; [|by apply db_spec_throw].
  destruct (normalizeMemberMutationIDs_idem _ _ _ _ E) as [E' Et]. eapply db_spec_mono; [apply RemoveMember_spec|].
  intros d r d' [Hs Hok]. split; [done|]. intros Hr. exists target. split; [done|]. by eapply Hok.
Qed.

Lemma Team_ResetPassword_spec actorID userID : db_spec (C := C) (Team_ResetPassword actorID userID) (locks_out userID).
Proof.
  unfold Team_ResetPassword. destruct (normalizeMemberMutationIDs _ _) as [[actor target]|] eqn:E; [|by apply db_spec_throw].
  destruct (normalizeMemberMutationIDs_idem _ _ _ _ E) as [E' Et]. intros c. unfold randomToken, HashPassword.
  do 2 apply wp_bind. apply wp_rand_read. intros [token|e]; [|by rewrite set_part_same]. apply wp_ret. do 2 apply wp_bind. apply wp_rand_read.
  intros [salt|e]; [|by rewrite set_part_same]. apply wp_ret, wp_bind. eapply wp_mono; [apply ResetMemberPassword_spec|].
  intros [m|e] c' (Hc & Hs & Hok); simpl; [|by split]. apply wp_ret. split; [done|]. split; [done|]. intros _. exists target. split; [done|]. by eapply Hok.
Qed.

End service.
