(* ===== verification/AccountSafety.v ===== *)
(** * AccountSafety

    What [internal/auth] guarantees: an administrator is always left, a member who was
    locked out stays locked out, requests pass exactly with a live session and a permission,
    a password is changed only by who knows it, and guessing it is limited. *)

From S2P Require Import Prelude GoStd GoPath GoCrypto Passwords Model World Schema Session SchedulerCore Sha256 Accounts AccountLaws.

Lemma alter_found {A} (f : A → A) (k : string) (m : gmap string A) x : m !! k = Some x → alter f k m = <[k := f x]> m.
Proof.
  intros H. apply map_eq. intros i. destruct (decide (i = k)) as [->|Hne].
  - by rewrite lookup_alter_eq, lookup_insert_eq, H.
  - by rewrite lookup_alter_ne, lookup_insert_ne.
Qed.

(** ** Sequences of operations *)

(** [OpenSession] is the second half of a login whose first half found [user] earlier. *)
Inductive AccountOperation : Type :=
| AccountLogin (email password : string)
| OpenSession (user : User)
| AccountLogout (token : string)
| AccountRequest (permission : string) (cookie : option string) (path : string)
| AccountChange (principal : Principal) (token current new ip : string)
| AccountBootstrap (configuration : BootstrapConfig)
| MemberList (status : string)
| MemberCreate (actorID : string) (input : CreateMemberInput)
| MemberRoles (actorID userID : string) (names : list string)
| MemberEnabled (actorID userID : string) (enabled : bool)
| MemberRemove (actorID userID : string)
| MemberRestore (actorID userID : string)
| MemberReset (actorID userID : string).

Section safety.
Context {C : Type} `{!Has DB C, uuids : !UUIDs, argon : !Argon2} (ip_literal : string → bool).

Definition account_perform (op : AccountOperation) : Prog C unit :=
  match op with
  | AccountLogin email password => ignore (Login email password)
  | OpenSession user => ignore (open_session user)
  | AccountLogout token => ignore (Logout token)
  | AccountRequest permission cookie path => ignore (guarded permission cookie path)
  | AccountChange principal token current new ip => ignore (Change principal token current new ip)
  | AccountBootstrap configuration => ignore (bootstrap configuration)
  | MemberList status => ignore (Team_List status)
  | MemberCreate actorID input => ignore (Team_Create ip_literal actorID input)
  | MemberRoles actorID userID names => ignore (UpdateRoles actorID userID names)
  | MemberEnabled actorID userID enabled => ignore (Team_SetEnabled actorID userID enabled)
  | MemberRemove actorID userID => ignore (Team_Remove actorID userID)
  | MemberRestore actorID userID => ignore (Team_Restore actorID userID)
  | MemberReset actorID userID => ignore (Team_ResetPassword actorID userID)
  end.

Definition account_perform_all (ops : list AccountOperation) : Prog C unit := for_each ops account_perform.

Lemma moves_ignore {A} (m : Prog C A) : moves account_step m → db_spec (ignore m) (λ d r d', r = Ok tt ∧ account_step d d').
Proof. intros H c. apply wp_ignore. eapply wp_mono; [apply H|]. intros r c' [? ?]. by split_and!. Qed.

Lemma account_perform_spec op : db_spec (account_perform op) (λ d r d', r = Ok tt ∧ account_step d d').
Proof.
  destruct op; apply moves_ignore.
  - apply moves_Login.
  - apply moves_open_session.
  - apply moves_Logout.
  - apply moves_guarded.
  - apply moves_Change.
  - eapply db_spec_mono; [apply bootstrap_spec|]. by intros d r d' [? _].
  - apply moves_Team_List.
  - apply moves_Team_Create.
  - apply moves_UpdateRoles.
  - eapply db_spec_mono; [apply Team_SetEnabled_spec|]. by intros d r d' [? _].
  - eapply db_spec_mono; [apply Team_Remove_spec|]. by intros d r d' [? _].
  - apply moves_Team_Restore.
  - eapply db_spec_mono; [apply Team_ResetPassword_spec|]. by intros d r d' [? _].
Qed.

Lemma wp_account_all ops (c : C) (Q : Result unit → C → Prop) :
  (∀ c', c' = set_part (part c') c → account_step (part c) (part c') → Q (Ok tt) c') → wp (account_perform_all ops) c Q.
Proof.
  intros HQ. unfold account_perform_all. apply wp_for_each with (I := λ _ c', c' = set_part (part c') c ∧ account_step (part c) (part c')).
  - split; [by rewrite set_part_same|done].
  - intros op rest c1 [Hc1 Hs1] _. eapply wp_mono; [apply account_perform_spec|]. intros r c2 (Hc2 & -> & Hs2).
    split; [|by etrans]. rewrite Hc2, Hc1 at 1. by rewrite set_part_twice.
  - intros c' [? ?]. by apply HQ.
Qed.

(** C9: The accounts stay consistent whatever is asked in whatever order and whatever
    fails, logins that confirm a lookup made earlier included: addresses and session
    tokens are unique, every role held is known and belongs to a user, and every live
    session belongs to a user who is enabled and not removed.  Users are never lost, a
    session keeps its user and token and stays revoked once it is, and once the platform
    has an active administrator it always has one. *)
Theorem accounts_invariant ops (c : C) :
  accounts_ok (accounts (part c)) →
  wp (account_perform_all ops) c (λ r c',
    r = Ok tt ∧ accounts_ok (accounts (part c')) ∧ accounts_evolve (accounts (part c)) (accounts (part c')) ∧
    (has_admin (accounts (part c)) → has_admin (accounts (part c')))).
Proof. intros Hok. apply wp_account_all. intros c' _ [H1 H2 H3]. by auto. Qed.

(** ** Sessions *)

Lemma find_session_Some hash now d id u :
  find_session hash now d = Some (id, u) →
  ∃ i s, sessions (accounts d) !! i = Some s ∧ ses_token_hash s = hash ∧ ses_revoked_at s = None ∧ now < ses_expires_at s ∧
    ses_user_id s = id ∧ user_rows (accounts d) !! id = Some u ∧ active_user u = true.
Proof.
  unfold find_session. intros (s & Hs & H)%bind_Some. apply head_Some_elem_of, list_elem_of_filter in Hs as [(Hh & Hr & He) Hin].
  apply list_elem_of_fmap in Hin as ([i s'] & -> & Hi%elem_of_map_to_list). simpl in *.
  apply bind_Some in H as (u' & Hu & H). destruct (active_user u') eqn:Ea; [|done]. injection H as <- <-. by exists i, s'.
Qed.

Lemma FindPrincipal_post W hash (c : C) :
  under W (FindPrincipal hash) c (λ r c', c' = c ∧ ∀ p, r = Ok p → ∃ now u, clock_gives W now ∧
    find_session hash now (part c) = Some (prn_UserID p, u) ∧
    p = mkPrincipal (prn_UserID p) (ur_email u) (ur_display_name u) (roles_of (part c) (prn_UserID p)) (ur_must_change_password u)).
Proof.
  apply under_bind, under_clock_now. intros now Hnow. apply under_bind, under_pool_query; [done|].
  destruct (find_session hash now (part c)) as [[id u]|] eqn:E; simpl; [|by apply under_throw]. apply under_ret. split; [done|].
  intros p [= <-]. by exists now, u.
Qed.

Lemma Service_Authenticate_post W token (c : C) :
  under W (Service_Authenticate token) c (λ r c', c' = c ∧
    match r with
    | Ok p => token ≠ "" ∧ ∃ now u, clock_gives W now ∧ find_session (tokenHash token) now (part c) = Some (prn_UserID p, u) ∧
        p = mkPrincipal (prn_UserID p) (ur_email u) (ur_display_name u) (roles_of (part c) (prn_UserID p)) (ur_must_change_password u)
    | Err e => e = ErrSessionNotFound
    end).
Proof.
  unfold Service_Authenticate. case_bool_decide as Ht; [by apply under_throw|]. apply under_bind, under_catch.
  eapply under_mono; [apply FindPrincipal_post|]. intros [p|e] c' [-> H]; [apply under_ret|by apply under_throw]. split_and!; [done|done|]. by apply H.
Qed.

(** ** Locking a member out *)

Inductive Lockout : Type := Disable | Remove | ResetPassword.

Definition lock_out (how : Lockout) (actorID userID : string) : Prog C unit :=
  match how with
  | Disable => Team_SetEnabled actorID userID false ;;! ret tt
  | Remove => Team_Remove actorID userID ;;! ret tt
  | ResetPassword => Team_ResetPassword actorID userID ;;! ret tt
  end.

Lemma db_spec_then {A} (m : Prog C A) userID : db_spec m (locks_out userID) → db_spec (m ;;! ret tt) (locks_out userID).
Proof.
  intros H c. apply wp_bind. eapply wp_mono; [apply H|]. intros [a|e] c' (Hc & Hs & Hok); [apply wp_ret|]; by split_and!.
Qed.

Lemma lock_out_spec how actorID userID : db_spec (lock_out how actorID userID) (locks_out userID).
Proof.
  destruct how; apply db_spec_then; [|apply Team_Remove_spec|apply Team_ResetPassword_spec].
  eapply db_spec_mono; [apply Team_SetEnabled_spec|]. intros d r d' [_ H]. by apply H.
Qed.

Lemma revoked_session_refused token i s (c : C) :
  accounts_ok (accounts (part c)) → sessions (accounts (part c)) !! i = Some s → ses_token_hash s = tokenHash token → ses_revoked_at s ≠ None →
  wp (Service_Authenticate token) c (λ r _, r = Err ErrSessionNotFound).
Proof.
  intros Hok Hs Ht Hr. eapply wp_mono; [apply under_any, Service_Authenticate_post|]. intros [p|e] c' [_ H]; [|by rewrite H].
  destruct H as (_ & now & u & _ & (j & s' & Hj & Hh & Hl & _)%find_session_Some & _). destruct Hr.
  assert (i = j) as -> by (eapply (ao_tokens _ Hok); [exact Hs|exact Hj|congruence]). congruence.
Qed.

(** C10: Disabling or removing a member, or resetting the password, ends every session
    the member had: its token never authenticates again, whatever is done afterwards,
    restoring and enabling the member included. *)
Theorem member_locked_out how actorID userID (c : C) :
  accounts_ok (accounts (part c)) →
  wp (lock_out how actorID userID) c (λ r c', r = Ok tt →
    ∃ id, NormalizeUserID userID = Ok id ∧
    ∀ i s token ops, sessions (accounts (part c)) !! i = Some s → ses_user_id s = id → ses_token_hash s = tokenHash token →
      wp (account_perform_all ops ;;! Service_Authenticate token) c' (λ r' _, r' = Err ErrSessionNotFound)).
Proof.
  intros Hok. eapply wp_mono; [apply lock_out_spec|]. intros r c' (_ & [S1 S2 [_ S3]] & Hout) ->.
  destruct (Hout eq_refl) as (id & Hid & Hso). exists id. split; [done|]. intros i s token ops Hs Hu Ht.
  destruct (S3 _ _ Hs) as (s1 & Hs1 & (U1 & T1 & _)). assert (ses_revoked_at s1 ≠ None) as Hr1 by (eapply Hso; [exact Hs1|congruence]).
  apply wp_bind, wp_account_all. intros c2 _ [A1 _ [_ A3]]. destruct (A3 _ _ Hs1) as (s2 & Hs2 & (U2 & T2 & _ & R2)).
  eapply revoked_session_refused; [by auto|exact Hs2|congruence|]. destruct R2 as [R2| ->]; [by destruct Hr1|done].
Qed.

(** ** Logins *)

Lemma open_session_post user (c : C) :
  wp (open_session user) c (λ r c',
    match r with
    | Ok s => as_UserID s = usr_ID user ∧ credentials_current (usr_ID user) (usr_PasswordHash user) (part c) = true ∧
        as_ExpiresAt s = as_CreatedAt s + sessionTTL ∧
        c' = set_part ((part c) <| accounts ::= λ a, a <| sessions ::= <[as_ID s :=
               mkSessionRow (usr_ID user) (tokenHash (as_Token s)) (as_ExpiresAt s) None (as_CreatedAt s)]> |> |>) c
    | Err e => credentials_current (usr_ID user) (usr_PasswordHash user) (part c) = false → c' = c
    end).
Proof.
  unfold open_session, randomToken, randomUUID. do 2 apply wp_bind. apply wp_rand_read. intros [token|e]; [|done]. apply wp_ret.
  do 2 apply wp_bind. apply wp_rand_read. intros [id|e]; [|done]. apply wp_ret. apply wp_bind, wp_clock_now. intros now.
  apply wp_bind, wp_catch. eapply wp_mono; [apply Sessions_Create_spec|]. cbn [st_ID st_UserID st_TokenHash st_ExpectedPasswordHash st_ExpiresAt st_CreatedAt].
  intros r c' (Hc & _ & Hstale & Hins). destruct r as [u|e].
  - apply wp_ret. cbn [as_UserID as_ExpiresAt as_CreatedAt as_ID as_Token]. split; [done|]. specialize (Hins eq_refl).
    apply insert_session_inv in Hins. split_and!; [|done|].
    + destruct (credentials_current _ _ _); [done|]. by destruct (Hstale eq_refl).
    + by rewrite Hc, Hins.
  - assert (credentials_current (usr_ID user) (usr_PasswordHash user) (part c) = false → c' = c) as H.
    { intros Hf. destruct (Hstale Hf) as [Hd _]. by rewrite Hc, Hd, set_part_same. }
    destruct e; apply wp_throw; exact H.
Qed.

(** A login while [ops] are served between its lookup and its confirmation. *)
Definition Login_interleaved (ops : list AccountOperation) (email password : string) : Prog C AuthSession :=
  let! user := catch (FindByEmail (ToLower (TrimSpace email))) in
  match verified_user user password with
  | None => throw ErrInvalidCredentials
  | Some user => account_perform_all ops ;;! open_session user
  end.

Lemma Login_interleaved_nil email password st : Login_interleaved [] email password st = Login email password st.
Proof.
  unfold Login_interleaved, Login, bind. destruct (catch _ st) as [st' [user|e]]; [|done]. by destruct (verified_user user password).
Qed.

Lemma find_user_Some email d id u :
  find_user email d = Some (id, u) → user_rows (accounts d) !! id = Some u ∧ same_email email u = true ∧ ur_removed_at u = None.
Proof.
  unfold find_user. intros ([He Hr] & Hin)%head_Some_elem_of%list_elem_of_filter. by apply elem_of_map_to_list in Hin.
Qed.

Lemma FindByEmail_post email (c : C) :
  wp (FindByEmail email) c (λ r c', c' = c ∧ ∀ user, r = Ok user → ∃ u, user_rows (accounts (part c)) !! usr_ID user = Some u ∧
    same_email email u = true ∧ usr_PasswordHash user = ur_password_hash u ∧ usr_Enabled user = ur_enabled u ∧ ur_removed_at u = None).
Proof.
  apply wp_bind, wp_pool_query; [done|]. destruct (find_user email (part c)) as [[id u]|] eqn:E; simpl; [|by apply wp_throw].
  apply wp_ret. split; [done|]. intros user [= <-]. exists u. apply find_user_Some in E as (? & ? & ?). done.
Qed.

Lemma verified_user_Some user password u :
  verified_user user password = Some u → user = Ok u ∧ usr_Enabled u = true ∧ VerifyPassword (usr_PasswordHash u) password = Ok true.
Proof.
  unfold verified_user. destruct user as [v|]; [|done]. destruct (usr_Enabled v) eqn:Ee; [|done]. simpl.
  destruct (VerifyPassword _ _) as [[|]|] eqn:Ev; [|done..]. by intros [= <-].
Qed.

Lemma credentials_current_true id hash d :
  credentials_current id hash d = true → ∃ u, user_rows (accounts d) !! id = Some u ∧ ur_password_hash u = hash ∧ active_user u = true.
Proof.
  unfold credentials_current. destruct (user_rows (accounts d) !! id) as [u|]; [|done]. intros [H1%bool_decide_eq_true H2]%andb_true_iff. by exists u.
Qed.

(** C11: A login succeeds only with the password of the user of that address, and only
    if, after whatever was served between its lookup and its confirmation, the user is
    still enabled, not removed and has the same password; the session it opens is that
    user's and lasts a day. *)
Theorem login_in_flight ops email password (c : C) :
  wp (Login_interleaved ops email password) c (λ r c', ∀ s, r = Ok s →
    ∃ found now, user_rows (accounts (part c)) !! as_UserID s = Some found ∧ same_email (ToLower (TrimSpace email)) found = true ∧
      VerifyPassword (ur_password_hash found) password = Ok true ∧
      user_rows (accounts (part c')) !! as_UserID s = Some now ∧ active_user now = true ∧ ur_password_hash now = ur_password_hash found ∧
      sessions (accounts (part c')) !! as_ID s =
        Some (mkSessionRow (as_UserID s) (tokenHash (as_Token s)) (as_CreatedAt s + sessionTTL) None (as_CreatedAt s))).
Proof.
  apply wp_bind, wp_catch. eapply wp_mono; [apply FindByEmail_post|]. intros r c1 [-> Hfound].
  destruct (verified_user r password) as [user|] eqn:Ev; [|by apply wp_throw].
  destruct (verified_user_Some _ _ _ Ev) as (-> & _ & Hv). destruct (Hfound user eq_refl) as (u & Hu & He & Hh & _).
  apply wp_bind, wp_account_all. intros c2 _ _. eapply wp_mono; [apply open_session_post|].
  intros r c' H s ->. destruct H as (Hid & (now & Hn & Hnh & Ha)%credentials_current_true & Hx & ->). exists u, now.
  rewrite Hid, part_set, <-Hh, <-Hx. split_and!; [done..|]. simpl. by rewrite lookup_insert_eq.
Qed.

(** ** Requests *)

Lemma find_session_complete d i s u now :
  accounts_ok (accounts d) → sessions (accounts d) !! i = Some s → ses_revoked_at s = None → now < ses_expires_at s →
  user_rows (accounts d) !! ses_user_id s = Some u → find_session (ses_token_hash s) now d = Some (ses_user_id s, u).
Proof.
  intros Hok Hs Hr He Hu. unfold find_session. set (l := filter _ _).
  assert (s ∈ l) as Hin. { apply list_elem_of_filter. split; [done|]. apply list_elem_of_fmap. exists (i, s). by rewrite elem_of_map_to_list. }
  destruct l as [|t l'] eqn:El; [by apply not_elem_of_nil in Hin|]. assert (t ∈ l) as Ht by (rewrite El; left).
  apply list_elem_of_filter in Ht as [(Hh & _) Ht]. apply list_elem_of_fmap in Ht as ([j t'] & -> & Hj%elem_of_map_to_list). simpl in *.
  assert (j = i) as -> by (eapply (ao_tokens _ Hok); [exact Hj|exact Hs|done]). assert (t' = s) as -> by congruence. rewrite Hu. simpl.
  destruct (ao_live _ Hok _ _ Hs Hr) as (u' & Hu' & Ha). assert (u' = u) as -> by congruence. by rewrite Ha.
Qed.

(** The request that may pass. *)
Definition entitled (permission token path : string) (now : Time) (d : DB) (p : Principal) : Prop :=
  ∃ i s u, sessions (accounts d) !! i = Some s ∧ ses_token_hash s = tokenHash token ∧ ses_revoked_at s = None ∧ now < ses_expires_at s ∧
    user_rows (accounts d) !! ses_user_id s = Some u ∧ active_user u = true ∧
    p = mkPrincipal (ses_user_id s) (ur_email u) (ur_display_name u) (roles_of d (ses_user_id s)) (ur_must_change_password u) ∧
    (ur_must_change_password u = false ∨ path = "/api/auth/password") ∧
    ∃ role, (ses_user_id s, role) ∈ user_roles (accounts d) ∧ Allows role permission = true.

Lemma elem_of_roles_of d id role : role ∈ roles_of d id ↔ (id, role) ∈ user_roles (accounts d).
Proof.
  unfold roles_of. rewrite elem_of_stable_sort, list_elem_of_fmap. split.
  - intros ([i r] & -> & [E Hin]%list_elem_of_filter). simpl in *. subst. by apply elem_of_elements.
  - intros Hin. exists (id, role). split; [done|]. apply list_elem_of_filter. split; [done|]. by apply elem_of_elements.
Qed.

Lemma allowed_roles d id permission :
  existsb (λ role, Allows role permission) (roles_of d id) = true ↔ ∃ role, (id, role) ∈ user_roles (accounts d) ∧ Allows role permission = true.
Proof.
  rewrite existsb_exists. split; intros (role & Hin & Ha); exists role; (split; [|done]); [apply elem_of_roles_of|apply list_elem_of_In, elem_of_roles_of]; [by apply list_elem_of_In|done].
Qed.

Lemma guarded_post W permission cookie path (c : C) :
  under W (guarded permission cookie path) c (λ r c', c' = c ∧
    ∃ gate, r = Ok gate ∧ ∀ p, gate = Passed p →
      ∃ token now, clock_gives W now ∧ cookie = Some token ∧ entitled permission token path now (part c) p).
Proof.
  apply under_bind. unfold Authenticate_gate. destruct cookie as [token|]; [|by apply under_ret, under_ret; split; [|eexists]].
  apply under_bind, under_catch. eapply under_mono; [apply Service_Authenticate_post|].
  intros [p|e] c' [-> H]; [|by apply under_ret, under_ret; split; [|eexists]].
  destruct H as (Ht & now & u & Hnow & (i & s & Hs & Hh & Hr & He & Hid & Hu & Ha)%find_session_Some & Hp).
  destruct (_ && _) eqn:Em; apply under_ret, under_ret; (split; [done|]; eexists; split; [done|]); [done|].
  intros p' Hpass. unfold Require_gate in Hpass. destruct (existsb _ _) eqn:Ex; [|done]. injection Hpass as <-.
  exists token, now. split_and!; [done..|]. exists i, s, u. rewrite Hid. split_and!; [done..| |].
  - rewrite Hp in Em. simpl in Em. apply andb_false_iff in Em as [?|Em%negb_false_iff%bool_decide_eq_true]; [by left|by right].
  - rewrite Hp in Ex. by apply allowed_roles.
Qed.

Lemma guarded_calm permission token path now p ids (c : C) :
  accounts_ok (accounts (part c)) → token ≠ "" → entitled permission token path now (part c) p →
  guarded permission (Some token) path (c, calm ids now) = ((c, calm ids now), Ok (Passed p)).
Proof.
  intros Hok Ht (i & s & u & Hs & Hh & Hr & He & Hu & Ha & -> & Hm & Hroles%allowed_roles).
  pose proof (find_session_complete _ _ _ _ _ Hok Hs Hr He Hu) as Hf. rewrite Hh in Hf.
  unfold guarded, Authenticate_gate, Service_Authenticate. rewrite (bool_decide_false (token = "")) by done.
  unfold FindPrincipal, pool_query, bind, catch, calm. cbn [clock_now o_clock]. rewrite observe_calm, Hf. cbn -[Allows roles_of].
  assert (ur_must_change_password u && negb (bool_decide (path = "/api/auth/password")) = false) as ->.
  { destruct Hm as [->| ->]; [done|]. by rewrite bool_decide_true, andb_false_r. }
  cbn -[Allows roles_of]. by rewrite Hroles.
Qed.

(** C12: A request passes exactly when its cookie is the token of a session that is not
    revoked and not expired, of a user who is enabled and not removed, who holds at this
    moment a role with the permission, and who need not change the password first, the
    change itself excepted.  Whatever instants the clock may give and whatever fails, a
    request that passes was entitled at an instant the clock gave, a request changes
    nothing, and it is answered even when the database fails; without faults an entitled
    request passes, with its user and roles. *)
Theorem guarded_exact permission path (c : C) :
  accounts_ok (accounts (part c)) →
  (∀ W cookie, under W (guarded permission cookie path) c (λ r c', c' = c ∧
     ∃ gate, r = Ok gate ∧ ∀ p, gate = Passed p →
       ∃ token now, clock_gives W now ∧ cookie = Some token ∧ entitled permission token path now (part c) p)) ∧
  (∀ token now p ids, token ≠ "" → entitled permission token path now (part c) p →
     (guarded permission (Some token) path (c, calm ids now)).2 = Ok (Passed p)).
Proof.
  intros Hok. split; [intros; apply guarded_post|]. intros token now p ids Ht He. by rewrite (guarded_calm _ _ _ _ p).
Qed.

(** ** Passwords *)

Lemma wp_HashPassword password (c : C) (Q : Result string → C → Prop) :
  (∀ e, Q (Err e) c) → (∀ hash, VerifyPassword hash password = Ok true → Q (Ok hash) c) → wp (HashPassword password) c Q.
Proof.
  intros He HQ. unfold HashPassword, rand_read. apply wp_bind, wp_bind, wp_new_uuid; [apply He|]. intros id. apply wp_ret, wp_ret, HQ.
  rewrite VerifyPassword_hash; [by rewrite bool_decide_true| |].
  - apply Forall_take, Forall_app. split; [apply bytes_of_range|]. by apply Forall_replicate.
  - intros E. apply (f_equal length) in E. rewrite length_take, length_app, length_replicate in E. unfold argonSaltLength in E.
    change (length (@nil Z)) with 0%nat in E. lia.
Qed.

(** The counters after an attempt, and whether it may go on. *)
Definition attempted (userID ipAddress : string) (now : Time) (d : DB) : DB * bool :=
  let '(d1, user_attempts) := count_attempt "password_user" userID now d in
  let '(d2, ip_attempts) := count_attempt "password_ip" ipAddress now d1 in
  (d2, (user_attempts <=? passwordAttemptLimit) && (ip_attempts <=? passwordAttemptLimit)).

Lemma RegisterAttempt_spec userID ipAddress now :
  db_spec (C := C) (RegisterAttempt userID ipAddress now) (λ d r d',
    match r with
    | Ok allowed => (d', allowed) = attempted userID ipAddress now d
    | Err e => e ≠ ErrPasswordRejected ∧ (d' = d ∨ d' = (attempted userID ipAddress now d).1)
    end).
Proof.
  unfold RegisterAttempt. case_match; [apply db_spec_throw; by auto|]. apply db_spec_transaction; [by auto|]. intros c.
  repeat tx_step; simplify_eq; unfold attempted; repeat match goal with H : count_attempt _ _ _ _ = _ |- _ => rewrite H end; auto.
Qed.

Lemma attempted_frame userID ip now d :
  user_rows (accounts (attempted userID ip now d).1) = user_rows (accounts d) ∧ sessions (accounts (attempted userID ip now d).1) = sessions (accounts d).
Proof. done. Qed.

Lemma RegisterAttempt_frame userID ip now :
  db_spec (C := C) (RegisterAttempt userID ip now) (λ d r d',
    user_rows (accounts d') = user_rows (accounts d) ∧ sessions (accounts d') = sessions (accounts d)).
Proof.
  eapply db_spec_mono; [apply RegisterAttempt_spec|]. intros d [b|e] d' H.
  - apply (f_equal fst) in H. simpl in H. rewrite H. done.
  - by destruct H as [_ [-> | ->]].
Qed.

Lemma forward_RegisterAttempt userID ip now : forward (RegisterAttempt (C := C) userID ip now).
Proof. unfold RegisterAttempt. repeat forward_tx. Qed.

(** *** Guessing a password

    A guess is a request to change the password, with what it takes for the current one;
    it is wrong when the stored hash does not verify it. *)
Record Guess : Type := mkGuess { g_token : string; g_current : string; g_new : string; g_ip : string }.

Definition wrong (userID : string) (d : DB) (g : Guess) : Prop :=
  ∀ u, user_rows (accounts d) !! userID = Some u → VerifyPassword (ur_password_hash u) (g_current g) ≠ Ok true.

Fixpoint guesses (principal : Principal) (gs : list Guess) : Prog C (list (Result unit)) :=
  match gs with
  | [] => ret []
  | g :: rest =>
    let! r := catch (Change principal (g_token g) (g_current g) (g_new g) (g_ip g)) in
    let! others := guesses principal rest in
    ret (r :: others)
  end.

(** The guesses that were compared with the stored hash. *)
Definition rejected (r : Result unit) : bool := match r with Err ErrPasswordRejected => true | _ => false end.

Definition compared (outcomes : list (Result unit)) : Z := Z.of_nat (length (filter (λ r, rejected r = true) outcomes)).

Lemma compared_cons r outcomes : compared (r :: outcomes) = (if rejected r then 1 else 0) + compared outcomes.
Proof. unfold compared. destruct (rejected r) eqn:E; [rewrite filter_cons_True by done; simpl; lia|by rewrite filter_cons_False by (rewrite E; done)]. Qed.

Definition limit_of (userID : string) (d : DB) : option (Time * Z) := auth_rate_limits (accounts d) !! ("password_user", Sum256 userID).

Lemma attempted_limit userID ip now d : limit_of userID (attempted userID ip now d).1 = Some (counted_attempt now (limit_of userID d)).
Proof. unfold limit_of, attempted, count_attempt. simpl. rewrite lookup_insert_ne by (intros [=]). by rewrite lookup_insert_eq. Qed.

Lemma attempted_within userID ip now d : (attempted userID ip now d).2 = true → (counted_attempt now (limit_of userID d)).2 ≤ 5.
Proof. unfold limit_of, attempted, count_attempt, passwordAttemptLimit. simpl. intros [? _]%andb_true_iff. lia. Qed.

(** A wrong guess: it is compared only when it is counted and within the limit. *)
Lemma Change_wrong W principal g (c : C) : wrong (prn_UserID principal) (part c) g →
  under W (Change principal (g_token g) (g_current g) (g_new g) (g_ip g)) c (λ r c', ∃ now d allowed,
    clock_gives W now ∧ attempted (prn_UserID principal) (g_ip g) now (part c) = (d, allowed) ∧
    (part c' = part c ∨ part c' = d) ∧ (∃ e, r = Err e) ∧ (rejected r = true → part c' = d ∧ allowed = true)).
Proof.
  intros Hw. apply under_bind, under_clock_now. intros now Hnow. apply under_bind.
  eapply under_mono; [apply under_wp; [apply forward_RegisterAttempt|apply RegisterAttempt_spec]|].
  destruct (attempted (prn_UserID principal) (g_ip g) now (part c)) as [d allowed] eqn:E.
  intros [b|e] c1 [_ H]; [|destruct H as [He Hd]; exists now, d, allowed; split_and!; [done..|by eexists|by destruct e]].
  injection H as Hd ->.
  assert (∀ r, (∃ e, r = Err e) → (rejected r = true → allowed = true) → ∃ now d allowed, clock_gives W now ∧
    attempted (prn_UserID principal) (g_ip g) now (part c) = (d, allowed) ∧ (part c1 = part c ∨ part c1 = d) ∧ (∃ e, r = Err e) ∧
    (rejected r = true → part c1 = d ∧ allowed = true)) as Hend.
  { intros r He Hr. exists now, d, allowed. split_and!; [done..|by right|done|by auto]. }
  assert (wrong (prn_UserID principal) (part c1) g) as Hw1.
  { intros u Hu. apply Hw. rewrite <-Hu, Hd. apply (f_equal fst) in E. simpl in E. by rewrite <-E. }
  destruct allowed; simpl; [|by apply under_throw, Hend; [eexists|]].
  unfold PasswordHash. apply under_bind. case_bool_decide; [by apply under_throw, Hend; [eexists|]|].
  apply under_bind, under_pool_query; [by intros _; apply Hend; [eexists|]|].
  destruct (user_rows (accounts (part c1)) !! prn_UserID principal) as [u|] eqn:Eu; simpl; [apply under_ret|by apply under_throw, Hend; [eexists|]].
  specialize (Hw1 _ Eu). by destruct (VerifyPassword _ _) as [[|]|]; [|apply under_throw, Hend; [eexists|]..].
Qed.

(** The windows: [opened] of them began since [start], each fifteen minutes after the one
    before at the earliest, and [left_over] comparisons remain in the present one. *)
Definition spaced_out (start : Time) (opened : Z) (limit : option (Time * Z)) : Prop :=
  match limit with
  | None => opened = 0
  | Some (began, n) => 0 < n ∧ (opened = 0 ∨ start + (opened - 1) * (15 * minute) ≤ began)
  end.

Definition left_over (limit : option (Time * Z)) : Z := match limit with None => 0 | Some (_, n) => Z.max 0 (5 - n) end.

Lemma counted_spaced start k opened limit now :
  0 ≤ opened ≤ k → spaced_out start opened limit → start ≤ now < start + k * (15 * minute) →
  ∃ opened', 0 ≤ opened' ≤ k ∧ spaced_out start opened' (Some (counted_attempt now limit)) ∧
    let rest := 5 * (k - opened') + left_over (Some (counted_attempt now limit)) in
    rest ≤ 5 * (k - opened) + left_over limit ∧
    ((counted_attempt now limit).2 ≤ 5 → rest + 1 ≤ 5 * (k - opened) + left_over limit).
Proof.
  unfold spaced_out, counted_attempt, left_over, minute, second. intros Hk Hs Hnow. destruct limit as [[began n]|].
  - destruct Hs as [Hn Hs]. destruct (_ <=? _) eqn:E; [exists (opened + 1)|exists opened]; cbn [snd]; lia.
  - subst. exists 1. cbn [snd]. lia.
Qed.

(** C13: However a password is guessed, the comparisons with the stored hash are limited:
    of the wrong guesses made for a user within [k] times fifteen minutes, from whatever
    addresses, with whatever counter they begin and whatever fails, at most [5 k + 4] are
    compared; none of them succeeds, and none changes a user or a session.  (The window is
    a fixed one, so that nine comparisons fit into the fifteen minutes around its end; a
    successful change, which takes the current password, clears the counter.) *)
Theorem guess_budget W principal gs start k (c : C) :
  (∀ t, clock_gives W t → start ≤ t < start + k * (15 * minute)) →
  (∀ began n, limit_of (prn_UserID principal) (part c) = Some (began, n) → 0 < n) →
  Forall (wrong (prn_UserID principal) (part c)) gs → 0 ≤ k →
  under W (guesses principal gs) c (λ r c', ∃ outcomes, r = Ok outcomes ∧ compared outcomes ≤ 5 * k + 4 ∧
    Forall (λ r, ∃ e, r = Err e) outcomes ∧
    user_rows (accounts (part c')) = user_rows (accounts (part c)) ∧ sessions (accounts (part c')) = sessions (accounts (part c))).
Proof.
  intros Hclock Hlimit Hgs Hk.
  assert (∃ opened, 0 ≤ opened ≤ k ∧ spaced_out start opened (limit_of (prn_UserID principal) (part c)) ∧
    5 * (k - opened) + left_over (limit_of (prn_UserID principal) (part c)) ≤ 5 * k + 4) as (opened & Ho & Hs & Hb).
  { exists 0. split; [lia|]. destruct (limit_of _ _) as [[began n]|]; simpl; [|lia]. specialize (Hlimit _ _ eq_refl). lia. }
  revert Hb. generalize (5 * k + 4). clear Hlimit. revert c opened Ho Hs Hgs. induction gs as [|g gs IH]; intros c opened Ho Hs Hgs budget Hb; simpl.
  { apply under_ret. exists []. split_and!; [done| |done..]. unfold compared. destruct (limit_of _ _) as [[]|]; simpl in *; lia. }
  apply Forall_cons in Hgs as [Hg Hgs]. apply under_bind, under_catch. eapply under_mono; [by apply Change_wrong|].
  intros r c1 (now & d & allowed & Hnow & Ea & Hd & He & Hr). apply under_bind.
  assert (user_rows (accounts (part c1)) = user_rows (accounts (part c)) ∧ sessions (accounts (part c1)) = sessions (accounts (part c))) as [Eu Es].
  { apply (f_equal fst) in Ea. simpl in Ea. by destruct Hd as [-> | ->]; [|rewrite <-Ea]. }
  assert (∃ opened', 0 ≤ opened' ≤ k ∧ spaced_out start opened' (limit_of (prn_UserID principal) (part c1)) ∧
    5 * (k - opened') + left_over (limit_of (prn_UserID principal) (part c1)) ≤
      budget - (if rejected r then 1 else 0)) as (opened' & Ho' & Hs' & Hb').
  { destruct (counted_spaced _ _ _ _ _ Ho Hs (Hclock _ Hnow)) as (o' & H1 & H2 & H3 & H4). destruct (rejected r) eqn:Ed.
    - destruct (Hr eq_refl) as [-> ->]. pose proof (f_equal snd Ea) as Ha%attempted_within. exists o'.
      replace d with (attempted (prn_UserID principal) (g_ip g) now (part c)).1 by (by rewrite Ea). rewrite attempted_limit.
      split_and!; [lia..|done|]. specialize (H4 Ha). lia.
    - destruct Hd as [-> | ->]; [exists opened; split_and!; [lia..|done|lia]|]. exists o'.
      replace d with (attempted (prn_UserID principal) (g_ip g) now (part c)).1 by (by rewrite Ea). rewrite attempted_limit.
      split_and!; [lia..|done|lia]. }
  eapply under_mono; [apply (IH c1 opened' Ho' Hs'); [|exact Hb']|].
  { eapply Forall_impl; [exact Hgs|]. intros g' H u Hu. apply H. by rewrite <-Eu. }
  intros r2 c2 (outcomes & -> & Hout & Herr & Eu2 & Es2). apply under_ret. eexists. split; [done|].
  rewrite compared_cons, Eu2, Es2. split_and!; [lia|by constructor|done|done].
Qed.

(** A password is changed only by who knows the current one, to a different one of
    at least twelve characters; afterwards the new password verifies, no change is
    pending, every other session of the user is revoked and the current one and the
    sessions of others are kept.  When the change fails nothing of the accounts changed,
    unless the reply of the commit was lost. *)
Theorem password_change_correct principal token current new ip (c : C) :
  let uid := prn_UserID principal in
  wp (Change principal token current new ip) c (λ r c',
    let a := accounts (part c) in let a' := accounts (part c') in
    match r with
    | Ok _ =>
      (∃ u u', user_rows a !! uid = Some u ∧ VerifyPassword (ur_password_hash u) current = Ok true ∧
        12 ≤ Z.of_nat (length (runes new)) ∧ new ≠ current ∧
        user_rows a' = <[uid := u']> (user_rows a) ∧ VerifyPassword (ur_password_hash u') new = Ok true ∧ ur_must_change_password u' = false) ∧
      (∀ i s', sessions a' !! i = Some s' → ses_user_id s' = uid → live s' → ses_token_hash s' = tokenHash token) ∧
      (∀ i s, sessions a !! i = Some s → ses_user_id s ≠ uid ∨ ses_token_hash s = tokenHash token → sessions a' !! i = Some s)
    | Err e => e ≠ EStorage "提交改密事务" → user_rows a' = user_rows a ∧ sessions a' = sessions a
    end).
Proof.
  intros uid. apply wp_bind, wp_clock_now. intros now. apply wp_bind. eapply wp_mono; [apply RegisterAttempt_frame|].
  intros [allowed|e] c1 (Hc1 & Hu1 & Hs1); [|done]. destruct allowed; simpl; [|by apply wp_throw].
  unfold PasswordHash. apply wp_bind. case_bool_decide as Hid; [by apply wp_throw|]. apply wp_bind, wp_pool_query; [done|].
  destruct (user_rows (accounts (part c1)) !! uid) as [u|] eqn:Eu; simpl; fold uid; rewrite Eu; simpl; [apply wp_ret|by apply wp_throw].
  destruct (VerifyPassword (ur_password_hash u) current) as [[|]|] eqn:Ev; [|by apply wp_throw..].
  destruct (_ || _) eqn:Eg; [by apply wp_throw|]. apply orb_false_iff in Eg as [Hlen Hne]. apply bool_decide_eq_false in Hne.
  apply wp_bind, wp_HashPassword; [done|]. intros hash Hhash. eapply wp_mono; [apply CommitPasswordChange_spec|].
  intros [x|e] c' [_ H]; cbn [pc_UserID] in H.
  - destruct H as [_ E]. cbn zeta. rewrite E, <-Hu1, <-Hs1. split_and!.
    + exists u. eexists. split_and!; [done|done|lia|done|by apply (alter_found _ _ _ u)|done|done].
    + intros i s' (s0 & _ & _ & Hl)%revoked_lookup Hs' Hlive. destruct (Hl Hlive) as (_ & -> & Ho). unfold other_session in Ho. simpl in Ho.
      rewrite (bool_decide_true (ses_user_id s0 = uid)) in Ho by done. simpl in Ho. by apply negb_false_iff, bool_decide_eq_true in Ho.
    + intros i s Hs Hkeep. simpl. rewrite lookup_fmap, Hs. simpl. unfold other_session. simpl.
      destruct Hkeep as [Hk|Hk]; [rewrite (bool_decide_false (ses_user_id s = uid)) by done|rewrite (bool_decide_true (ses_token_hash s = _)) by done];
      by rewrite ?andb_false_r.
  - intros He. destruct H as [->|[-> _]]; [by rewrite Hu1, Hs1|done].
Qed.

(** ** The bootstrap *)

(** Bootstrapping with the address of a member who was removed reports success,
    enables the account and makes it an administrator, but leaves it removed: no login
    with that address succeeds afterwards, whatever the password. *)
Theorem bootstrap_removed_admin configuration password id u (c : C) :
  accounts_ok (accounts (part c)) → user_rows (accounts (part c)) !! id = Some u → ur_removed_at u ≠ None →
  ToLower (ur_email u) = ToLower (bc_Email configuration) →
  wp (bootstrap configuration) c (λ r c', r = Ok tt →
    (∃ u', user_rows (accounts (part c')) !! id = Some u' ∧ ur_enabled u' = true ∧ (id, RoleAdmin) ∈ user_roles (accounts (part c')) ∧
           ur_removed_at u' = ur_removed_at u) ∧
    ∀ email, ToLower (ToLower (TrimSpace email)) = ToLower (bc_Email configuration) →
      wp (Login email password) c' (λ r' _, r' = Err ErrInvalidCredentials)).
Proof.
  intros Hok Hu Hrem He. eapply wp_mono; [apply bootstrap_spec|]. intros r c' (_ & Hstep & Hb) ->.
  destruct (Hb eq_refl) as (id' & u' & Hu' & Hm & Hen & Hr & Hold & _). apply bool_decide_eq_true in Hm.
  destruct (ae_users _ _ (as_evolve _ _ Hstep) _ _ Hu) as (v & Hv & Ev). pose proof (as_ok _ _ Hstep Hok) as Hok'.
  assert (id' = id) as -> by (eapply (ao_emails _ Hok'); [exact Hu'|exact Hv|]; congruence).
  split; [exists u'; by rewrite (Hold u)|]. intros email Hemail. apply wp_bind, wp_catch. eapply wp_mono; [apply FindByEmail_post|].
  intros r c1 [_ Hfound]. destruct (verified_user r password) as [user|] eqn:Ever; [|by apply wp_throw].
  destruct (verified_user_Some _ _ _ Ever) as (-> & _). destruct (Hfound user eq_refl) as (w & Hw & Hwe%bool_decide_eq_true & _ & _ & Hwr).
  assert (usr_ID user = id) as E by (eapply (ao_emails _ Hok'); [exact Hw|exact Hu'|]; congruence). rewrite E in Hw.
  destruct Hrem. rewrite <-(Hold u Hu). congruence.
Qed.

End safety.

(** ** Examples *)

(** A stretching function and a parser of identifiers that are enough to run the code. *)
#[local] Instance plain_argon : Argon2.
Proof.
  refine {| IDKey password salt time memory threads keyLen := take (Z.to_nat keyLen) (bytes_of password ++ replicate (Z.to_nat keyLen) 0) |}.
  intros password salt _ _ _ keyLen Hk. split.
  - rewrite length_take, length_app, length_replicate. lia.
  - apply Forall_take, Forall_app. split; [apply bytes_of_range|]. by apply Forall_replicate.
Defined.

#[local] Instance plain_uuids : UUIDs.
Proof.
  refine {| parse_uuid value := if bool_decide (TrimSpace value = value) then Some value else None |}.
  intros value id. case_bool_decide as Hv; [|done]. intros [= <-]. by rewrite bool_decide_true.
Defined.

Definition no_literals (s : string) : bool := false.

Definition root_config : BootstrapConfig := mkBootstrapConfig "postgres://" "root@example.org" "Root" "correct horse".
Definition team_input : CreateMemberInput := mkCreateMemberInput "Ann@Example.org " "Ann" ["viewer"; "operator"; "viewer"].

(** The platform is set up, the administrator logs in and adds a member, whose temporary
    password is the encoded third seed. *)
Definition setup : list AccountOperation :=
  [AccountBootstrap root_config; AccountLogin "Root@example.org" "correct horse"; MemberCreate "root" team_input].

Definition setup_seeds : list string :=
  ["salt 0000000000"; "root"; "root token"; "root session"; "temporary"; "salt 1111111111"; "ann"].

Definition temporary : string := base64_encode true (take 18 (bytes_of "temporary" ++ replicate 18 0)).
Definition token_of (seed : string) : string := base64_encode true (take 32 (bytes_of seed ++ replicate 32 0)).

Abbreviation accounts_run ops d seeds t := (account_perform_all no_literals ops (d, calm seeds t)).

Lemma empty_accounts_ok : accounts_ok (accounts empty_tables).
Proof. split; simpl; intros; [by rewrite lookup_empty in *|set_solver|by rewrite lookup_empty in *..]. Qed.

Lemma accounts_after_ok ops seeds t : accounts_ok (accounts (accounts_run ops empty_tables seeds t).1.1).
Proof.
  apply (wp_result (account_perform_all no_literals ops) empty_tables (λ _ d, accounts_ok (accounts d))).
  apply wp_account_all. intros d _ [H _ _]. apply H, empty_accounts_ok.
Qed.

Lemma part_ok (d : DB) : accounts_ok (accounts d) → accounts_ok (accounts (part d)).
Proof. done. Qed.

Abbreviation ready := (accounts_run setup empty_tables setup_seeds 100).1.1.

(** The member tries to get rid of the only administrator in every way. *)
Definition coup : list AccountOperation :=
  [MemberRemove "ann" "root"; MemberEnabled "ann" "root" false; MemberRoles "ann" "root" ["viewer"]; MemberReset "ann" "root"].

Lemma accounts_invariant_witness :
  has_admin (accounts ready) ∧ accounts_ok (accounts (accounts_run coup ready ["temporary"; "salt"] 200).1.1) ∧
  has_admin (accounts (accounts_run coup ready ["temporary"; "salt"] 200).1.1).
Proof.
  assert (has_admin (accounts ready)) as Ha.
  { exists "root". eexists. split; [vm_compute; reflexivity|split; [reflexivity|]]. vm_compute. reflexivity. }
  pose proof (wp_result _ _ _ (calm ["temporary"; "salt"] 200) (accounts_invariant no_literals coup ready (accounts_after_ok _ _ _)))
    as (_ & Hok & _ & Hadm).
  split; [exact Ha|]. split; [exact Hok|exact (Hadm Ha)].
Defined.

(** The member is logged in. *)
Abbreviation joined := (accounts_run (setup ++ [AccountLogin "ann@example.org" temporary]) empty_tables
  (setup_seeds ++ ["ann token"; "ann session"]) 100).1.1.

Lemma joined_ok : accounts_ok (accounts (part joined)).
Proof. apply part_ok, accounts_after_ok. Qed.

Lemma member_locked_out_witness :
  is_ok (Service_Authenticate (token_of "ann token") (joined, calm [] 150)).2 = true ∧
  (lock_out Disable "root" "ann" (joined, calm [] 200)).2 = Ok tt ∧
  wp (account_perform_all no_literals [MemberEnabled "root" "ann" true] ;;! Service_Authenticate (token_of "ann token"))
    (lock_out Disable "root" "ann" (joined, calm [] 200)).1.1 (λ r' _, r' = Err ErrSessionNotFound).
Proof.
  split; [vm_compute; reflexivity|]. assert ((lock_out Disable "root" "ann" (joined, calm [] 200)).2 = Ok tt) as Hr by (vm_compute; reflexivity).
  split; [exact Hr|].
  destruct (wp_result _ _ _ (calm [] 200) (member_locked_out no_literals Disable "root" "ann" joined joined_ok) Hr) as (id & Hid & H).
  assert (Ok "ann" = Ok id) as E by (rewrite <-Hid; vm_compute; reflexivity). injection E as <-.
  refine (H (uuid_text (take 16 (bytes_of "ann session" ++ replicate 16 0))) _ (token_of "ann token") _ _ _ _); [vm_compute; reflexivity| |];
    vm_compute; reflexivity.
Defined.

(** The login of the member while the administrator resets the password. *)
Lemma login_in_flight_witness :
  (Login_interleaved no_literals [MemberReset "root" "ann"] "ann@example.org" temporary
     (joined, calm ["other"; "salt"; "late token"; "late session"] 300)).2 = Err ErrInvalidCredentials ∧
  ∃ s, (Login_interleaved no_literals [MemberRoles "root" "ann" ["admin"]] "ann@example.org" temporary
     (joined, calm ["late token"; "late session"] 300)).2 = Ok s ∧
  ∃ found, user_rows (accounts joined) !! as_UserID s = Some found ∧ VerifyPassword (ur_password_hash found) temporary = Ok true.
Proof.
  split; [vm_compute; reflexivity|]. eexists. split; [vm_compute; reflexivity|].
  edestruct (wp_result _ _ _ (calm ["late token"; "late session"] 300)
    (login_in_flight no_literals [MemberRoles "root" "ann" ["admin"]] "ann@example.org" temporary joined)) as (found & now & H1 & _ & H3 & _);
    [vm_compute; reflexivity|]. exists found. split; [exact H1|exact H3].
Defined.

Lemma guarded_exact_witness :
  (guarded PermissionAdmin (Some (token_of "root token")) "/api/team" (joined, calm [] 200)).2 =
    Ok (Passed (mkPrincipal "root" "root@example.org" "Root" ["admin"] false)) ∧
  (guarded PermissionRead (Some (token_of "ann token")) "/api/team" (joined, calm [] 200)).2 =
    Ok (Forbidden "password_change_required" "请先修改临时密码").
Proof.
  split; [|vm_compute; reflexivity]. apply (proj2 (guarded_exact PermissionAdmin "/api/team" joined joined_ok)).
  - vm_compute. discriminate.
  - exists (uuid_text (take 16 (bytes_of "root session" ++ replicate 16 0))). do 2 eexists.
    split; [vm_compute; reflexivity|]. split; [vm_compute; reflexivity|]. split; [reflexivity|]. split; [vm_compute; reflexivity|].
    split; [vm_compute; reflexivity|]. split; [reflexivity|]. split; [vm_compute; reflexivity|]. split; [left; reflexivity|].
    exists RoleAdmin. split; [vm_compute; reflexivity|reflexivity].
Defined.

Definition ann : Principal := mkPrincipal "ann" "ann@example.org" "Ann" ["operator"; "viewer"] true.

(** Eleven guesses: one when the window begins, four in its last minute and five as soon
    as it has ended, nine of them within one minute; the last is refused. *)
Definition guess (current : string) : Guess := mkGuess (token_of "ann token") current "a new passphrase" "10.0.0.1".
Definition around : Regime := mkRegime (λ t, 200 ≤ t < 200 + 2 * (15 * minute)) (λ _, True).
Definition around_clock : Oracle := mkOracle [] [] (200, replicate 4 (200 + 14 * minute) ++ replicate 7 (200 + 15 * minute)).

Lemma guess_budget_witness :
  compared (match (guesses ann (replicate 11 (guess "guess")) (joined, around_clock)).2 with Ok outcomes => outcomes | Err _ => [] end) = 10 ∧
  under around (guesses ann (replicate 11 (guess "guess"))) joined (λ r c', ∃ outcomes, r = Ok outcomes ∧ compared outcomes ≤ 5 * 2 + 4 ∧
    Forall (λ r, ∃ e, r = Err e) outcomes ∧ user_rows (accounts (part c')) = user_rows (accounts (part joined)) ∧
    sessions (accounts (part c')) = sessions (accounts (part joined))).
Proof.
  split; [vm_compute; reflexivity|]. apply (guess_budget around ann (replicate 11 (guess "guess")) 200 2 joined).
  - intros t Ht. exact Ht.
  - intros began n H. vm_compute in H. discriminate H.
  - apply Forall_replicate. intros u Hu. vm_compute in Hu. injection Hu as <-. vm_compute. discriminate.
  - lia.
Defined.

Lemma password_change_correct_witness :
  (Change ann (token_of "ann token") temporary "a new passphrase" "10.0.0.1" (joined, calm ["new salt"] 300)).2 = Ok tt ∧
  ∃ u u', user_rows (accounts joined) !! "ann" = Some u ∧ VerifyPassword (ur_password_hash u) temporary = Ok true ∧
    user_rows (accounts (Change ann (token_of "ann token") temporary "a new passphrase" "10.0.0.1" (joined, calm ["new salt"] 300)).1.1) =
      <["ann" := u']> (user_rows (accounts joined)) ∧
    VerifyPassword (ur_password_hash u') "a new passphrase" = Ok true.
Proof.
  assert ((Change ann (token_of "ann token") temporary "a new passphrase" "10.0.0.1" (joined, calm ["new salt"] 300)).2 = Ok tt) as Hr
    by (vm_compute; reflexivity).
  split; [exact Hr|].
  pose proof (wp_result _ _ _ (calm ["new salt"] 300)
    (password_change_correct ann (token_of "ann token") temporary "a new passphrase" "10.0.0.1" joined)) as H.
  cbv zeta in H. rewrite Hr in H. destruct H as [(u & u' & H1 & H2 & _ & _ & H5 & H6 & _) _].
  exists u, u'. split; [exact H1|]. split; [exact H2|]. split; [exact H5|exact H6].
Defined.

(** A second administrator is removed, and bootstrapped again. *)
Definition second_config : BootstrapConfig := mkBootstrapConfig "postgres://" "ann@example.org" "Ann" "another horse".
Abbreviation removed := (accounts_run (setup ++ [MemberRemove "root" "ann"]) empty_tables setup_seeds 100).1.1.

Lemma removed_ok : accounts_ok (accounts (part removed)).
Proof. apply part_ok, accounts_after_ok. Qed.

Lemma bootstrap_removed_admin_witness :
  (bootstrap second_config (removed, calm ["salt"; "unused"] 400)).2 = Ok tt ∧
  wp (Login "ann@example.org" "another horse") (bootstrap second_config (removed, calm ["salt"; "unused"] 400)).1.1
    (λ r' _, r' = Err ErrInvalidCredentials).
Proof.
  assert ((bootstrap second_config (removed, calm ["salt"; "unused"] 400)).2 = Ok tt) as Hr by (vm_compute; reflexivity).
  split; [exact Hr|].
  assert (∃ u, user_rows (accounts removed) !! "ann" = Some u ∧ ur_removed_at u = Some 100 ∧ ur_email u = "ann@example.org") as (u & Hu & Hrem & He)
    by (eexists; split; [vm_compute; reflexivity|split; reflexivity]).
  assert (ur_removed_at u ≠ None) as Hne by (rewrite Hrem; discriminate).
  assert (ToLower (ur_email u) = ToLower (bc_Email second_config)) as Hlow by (rewrite He; reflexivity).
  refine (proj2 (wp_result _ _ _ (calm ["salt"; "unused"] 400)
    (bootstrap_removed_admin second_config "another horse" "ann" u removed removed_ok Hu Hne Hlow) Hr) "ann@example.org" _).
  vm_compute. reflexivity.
Defined.
