(* ===== verification/ScriptSync.v ===== *)
(** * ScriptSync

    [internal/script/sync_service.go]: the distribution of published script versions to
    the servers, and what a server's reports make of a transfer. *)

From S2P Require Import Prelude GoStd Model World Schema Session SchedulerService TaskService.

(** ** agentprotocol/sync.go *)

Record SyncCommand : Type := mkSyncCommand { sm_ScriptID : string; sm_VersionID : string; sm_ArtifactURL : string; sm_SHA256 : string }.

Record SyncResult : Type := mkSyncResult {
  sr_ScriptID : string; sr_VersionID : string; sr_State : string; sr_SHA256 : string; sr_ErrorCode : string; sr_ErrorMessage : string
}.

(** model.go *)
Record SyncView : Type := mkSyncView {
  yv_ID : string * string; yv_ServerID : string; yv_ServerName : string; yv_ScriptID : string; yv_VersionID : string;
  yv_VersionNumber : Z; yv_State : string; yv_ArtifactSHA256 : string; yv_ErrorCode : string; yv_ErrorMessage : string;
  yv_Blocked : bool; yv_FailureCount : Z; yv_NextRetryAt : option Time; yv_RetryLimit : Z; yv_SyncedAt : option Time;
  yv_UpdatedAt : Time
}.

Definition SyncFailureLimit : Z := 3.

Definition validResultState (state : string) : bool :=
  bool_decide (state = SyncReady) || bool_decide (state = SyncFailed) || bool_decide (state = SyncDrifted).

(** ** The rows a distribution rule asks for *)

Definition accepts_scripts (s : ServerRow) : bool :=
  se_enabled s && (bool_decide (se_status s = StatusOnline) || bool_decide (se_status s = StatusDraining)).

Definition has_runtime (runtime : string) (s : ServerRow) : bool := bool_decide (runtime ∈ se_runtimes s).

(** The condition of [PrepareVersion]; an empty map of labels is read back as nil, which
    is encoded as [null], and no object contains it. *)
Definition distribution_where (rule : DistributionRule) (runtime : string) : option (ServerRow → bool) :=
  let mode := dn_Mode rule in
  if bool_decide (mode = DistributionAllCompatible) then Some (has_runtime runtime)
  else if bool_decide (mode = DistributionLabels)
  then Some (λ s, has_runtime runtime s && negb (bool_decide (dn_Labels rule = ∅)) && bool_decide (dn_Labels rule ⊆ se_labels s))
  else if bool_decide (mode = DistributionServerGroup)
  then Some (λ s, has_runtime runtime s && bool_decide (se_server_group_id s = dn_ServerGroupID rule))
  else None.

(** The condition of [prepareServer]. *)
Definition distributed_to (rule : DistributionRule) (runtime : string) (s : ServerRow) : bool :=
  let mode := dn_Mode rule in
  has_runtime runtime s &&
  (bool_decide (mode = DistributionAllCompatible) ||
   (bool_decide (mode = DistributionLabels) && bool_decide (dn_Labels rule ⊆ se_labels s)) ||
   (bool_decide (mode = DistributionServerGroup) && bool_decide (se_server_group_id s = dn_ServerGroupID rule))).

(** [INSERT ... ON CONFLICT DO NOTHING]; the number of rows inserted. *)
Definition insert_syncs (at_ : Time) (keys : list (string * string)) (d : DB) : DB * Z :=
  let fresh := filter (λ key, script_syncs d !! key = None) keys in
  (d <| script_syncs ::= λ m, foldr (λ key m, <[key := new_sync at_]> m) m fresh |>, Z.of_nat (length fresh)).

Definition version_runtime (script : ScriptRow) (version : VersionRow) : string :=
  if bool_decide (mf_Runtime (sv_manifest version) = "") then sc_runtime script else mf_Runtime (sv_manifest version).

(** [ORDER BY version.version DESC LIMIT 1] *)
Definition latest_version (scriptID : string) (d : DB) : option (string * VersionRow) :=
  head (stable_sort (λ a b, sv_version b.2 <? sv_version a.2)
    (filter (λ p, sv_script_id p.2 = scriptID) (map_to_list (script_versions d)))).

Definition server_wants (d : DB) (s : ServerRow) (p : string * ScriptRow) : option string :=
  match latest_version p.1 d with
  | Some (id, version) =>
    if distributed_to (mf_Distribution (sv_manifest version)) (version_runtime p.2 version) s then Some id else None
  | None => None
  end.

Definition wanted_by (serverID : string) (d : DB) : list (string * string) :=
  match servers d !! serverID with
  | Some s => if accepts_scripts s then (λ id, (serverID, id)) <$> omap (server_wants d s) (map_to_list (scripts d)) else []
  | None => []
  end.

(** ** Retries *)

(** The delay before the next attempt after the [failures]-th failure. *)
Definition retry_delay (failures : Z) : Duration := 30 * Z.shiftl 1 (failures - 1) * second.

Definition sync_timeout_message : string := "同步命令超过 2 分钟未收到结果，请检查代理连接或下载状态".

Definition transfer_lost (now : Time) (y : SyncRow) : bool :=
  bool_decide (sy_status y = SyncDownloading) && (sy_updated_at y <? now - 2 * minute).

Definition expired_transfer (now : Time) (y : SyncRow) : SyncRow :=
  y <| sy_status := SyncFailed |> <| sy_artifact_sha256 := None |> <| sy_synced_at := None |>
    <| sy_error_code := "sync_timeout" |> <| sy_error_message := sync_timeout_message |>
    <| sy_failure_count := Z.min (sy_failure_count y + 1) SyncFailureLimit |>
    <| sy_next_retry_at := if sy_failure_count y + 1 <? SyncFailureLimit
                           then Some (now + 30 * 2 ^ sy_failure_count y * second) else None |>
    <| sy_updated_at := now |>.

(** ** NextCommand: the choice *)

Definition sync_due (now : Time) (y : SyncRow) : bool :=
  bool_decide (sy_status y = SyncPending) || bool_decide (sy_status y = SyncDrifted) ||
  (bool_decide (sy_status y = SyncFailed) && (sy_failure_count y <? SyncFailureLimit) &&
   match sy_next_retry_at y with Some t => t <=? now | None => false end).

Definition issued (at_ : Time) (y : SyncRow) : SyncRow :=
  y <| sy_status := SyncDownloading |> <| sy_next_retry_at := None |> <| sy_updated_at := at_ |>.

Definition status_rank (status : string) : Z :=
  if bool_decide (status = SyncDrifted) then 0 else if bool_decide (status = SyncPending) then 1 else 2.

Definition sync_before (a b : SyncRow) : bool :=
  let ra := status_rank (sy_status a) in
  let rb := status_rank (sy_status b) in
  (ra <? rb) || ((ra =? rb) && ((sy_updated_at a <? sy_updated_at b) ||
    ((sy_updated_at a =? sy_updated_at b) && (sy_created_at a <? sy_created_at b)))).

(** The joins with the versions: the foreign key makes them total. *)
Definition next_sync (serverID : string) (now : Time) (d : DB) : option ((string * string) * VersionRow) :=
  let due := filter (λ p : (string * string) * SyncRow, p.1.1 = serverID ∧ sync_due now p.2 = true ∧
               is_Some (script_versions d !! p.1.2)) (map_to_list (script_syncs d)) in
  match head (stable_sort (λ a b, sync_before a.2 b.2) due) with
  | Some (key, _) => (λ version, (key, version)) <$> script_versions d !! key.2
  | None => None
  end.

(** ** RecordResult: the new row *)

Record SyncUpdate : Type := mkSyncUpdate {
  su_state : string; su_artifactSHA : string; su_errorCode : string; su_errorMessage : string; su_synced : bool;
  su_failureCount : Z; su_nextRetryAt : option Time
}.

Definition checksum_message : string := "服务器返回的脚本校验值与中央版本不一致".

(** Up to the check of the digest; [su_synced] says that [syncedAt] is set. *)
Definition checked_result (result : SyncResult) (expectedSHA : string) (y : SyncRow) : SyncUpdate :=
  let errorCode := TrimSpace (sr_ErrorCode result) in
  let errorMessage := TrimSpace (sr_ErrorMessage result) in
  if bool_decide (sr_State result = SyncReady)
  then if negb (EqualFold (sr_SHA256 result) expectedSHA)
       then mkSyncUpdate SyncFailed "" "checksum_mismatch" checksum_message false (sy_failure_count y) (sy_next_retry_at y)
       else mkSyncUpdate SyncReady (ToLower expectedSHA) errorCode errorMessage true 0 None
  else mkSyncUpdate (sr_State result) "" errorCode errorMessage false (sy_failure_count y) (sy_next_retry_at y).

Definition sync_row_of (u : SyncUpdate) (syncedAt updatedAt : Time) (y : SyncRow) : SyncRow :=
  y <| sy_status := su_state u |>
    <| sy_artifact_sha256 := if bool_decide (su_artifactSHA u = "") then None else Some (su_artifactSHA u) |>
    <| sy_error_code := su_errorCode u |> <| sy_error_message := su_errorMessage u |>
    <| sy_synced_at := if su_synced u then Some syncedAt else None |> <| sy_updated_at := updatedAt |>
    <| sy_failure_count := su_failureCount u |> <| sy_next_retry_at := su_nextRetryAt u |>.

#[export] Instance eta_SyncUpdate : Eta SyncUpdate := λ u,
  mkSyncUpdate (su_state u) (su_artifactSHA u) (su_errorCode u) (su_errorMessage u) (su_synced u) (su_failureCount u) (su_nextRetryAt u).

Definition retried_sync (now : Time) (y : SyncRow) : SyncRow :=
  y <| sy_status := SyncPending |> <| sy_error_code := "" |> <| sy_error_message := "" |> <| sy_synced_at := None |>
    <| sy_failure_count := 0 |> <| sy_next_retry_at := None |> <| sy_updated_at := now |>.

Definition sync_alert (serverID versionID state errorCode errorMessage : string) (failureCount : Z) : AlertEvent :=
  let code := if bool_decide (errorCode = "")
              then if bool_decide (state = SyncDrifted) then "script_drifted" else "script_sync_failed" else errorCode in
  let message := if bool_decide (errorMessage = "") then "执行服务器未能同步中央脚本版本" else errorMessage in
  let exhausted := bool_decide (state = SyncFailed) && (SyncFailureLimit <=? failureCount) in
  let title := if bool_decide (state = SyncDrifted) then "脚本版本漂移" else if exhausted then "脚本同步连续失败" else "脚本同步失败" in
  let message := if exhausted then message +:+ "；已达到自动重试上限，请排查后手动重试。该版本保持不可调度。" else message in
  mkAlertEvent "script_sync" (serverID +:+ "/" +:+ versionID) code "warning" title message.

Section service.
Context {C : Type} `{!Has DB C, alerts : !AlertSink C} (artifactBaseURL : string).

Definition PrepareVersion (versionID : string) : Prog C Z :=
  let! found := pool_query "读取待同步版本" (λ d,
    match script_versions d !! versionID with
    | Some version => (λ script, (script, version)) <$> scripts d !! sv_script_id version
    | None => None
    end) in
  match found with
  | None => throw ErrVersionNotFound
  | Some (script, version) =>
    let! now := clock_now in
    let rule := mf_Distribution (sv_manifest version) in
    if bool_decide (dn_Mode rule = DistributionOnDemand) then ret 0
    else
      match distribution_where rule (version_runtime script version) with
      | None => throw ErrInvalidDistribution
      | Some where_ =>
        pool "创建脚本同步记录" (λ d, Some (insert_syncs now
          ((λ p, (p.1, versionID)) <$> filter (λ p, accepts_scripts p.2 && where_ p.2 = true) (map_to_list (servers d))) d))
      end
  end.

Definition raiseSyncAlert (serverID versionID state errorCode errorMessage : string) (failureCount : Z) : Prog C unit :=
  match sink_Raise with
  | Some raise =>
    if bool_decide (state = SyncFailed) || bool_decide (state = SyncDrifted)
    then raise (sync_alert serverID versionID state errorCode errorMessage failureCount) else ret tt
  | None => ret tt
  end.

Definition prepareServer (serverID : string) : Prog C unit :=
  let! now := clock_now in
  pool "为上线服务器准备共享脚本" (λ d, Some ((insert_syncs now (wanted_by serverID d) d).1, tt)).

(** The rows in the order of [RETURNING]. *)
Definition expire_rows (serverID : string) (now : Time) (d : DB) : DB * list (string * Z * string) :=
  let lost (p : (string * string) * SyncRow) := bool_decide (p.1.1 = serverID) && transfer_lost now p.2 in
  (d <| script_syncs ::= map_imap (λ key y, Some (if lost (key, y) then expired_transfer now y else y)) |>,
   (λ p, (p.1.2, sy_failure_count (expired_transfer now p.2), sync_timeout_message)) <$>
     filter (λ p, lost p = true) (map_to_list (script_syncs d))).

Definition expireTransfers (serverID : string) : Prog C unit :=
  let! now := clock_now in
  let! expired := pool "记录脚本同步超时" (λ d, Some (expire_rows serverID now d)) in
  for_each expired (λ '(versionID, failures, message_),
    raiseSyncAlert serverID versionID SyncFailed "sync_timeout" message_ failures).

Definition command_of (syncID : string * string) (version : VersionRow) : SyncCommand :=
  mkSyncCommand (sv_script_id version) syncID.2 (artifactBaseURL +:+ "/api/agent/scripts/" +:+ syncID.2 +:+ "/artifact")
    (sv_artifact_sha256 version).

(** The transaction of [NextCommand]. *)
Definition claim_sync (serverID : string) : Prog C (option SyncCommand) :=
  transaction "" (
    let! now := clock_now in
    let! found := query "领取脚本同步任务" (next_sync serverID now) in
    match found with
    | None => ret None
    | Some (syncID, version) =>
      let! at_ := clock_now in
      exec "更新脚本同步状态" (λ d, Some (d <| script_syncs ::= alter (issued at_) syncID |>)) ;;!
      commit "" ;;!
      ret (Some (command_of syncID version))
    end).

Definition NextCommand (serverID : string) : Prog C (option SyncCommand) :=
  prepareServer serverID ;;!
  expireTransfers serverID ;;!
  claim_sync serverID.

(** The row and the version of a result. *)
Definition sync_of_result (serverID : string) (result : SyncResult) (d : DB) : option (SyncRow * VersionRow) :=
  match script_syncs d !! (serverID, sr_VersionID result), script_versions d !! sr_VersionID result with
  | Some y, Some version => if bool_decide (sv_script_id version = sr_ScriptID result) then Some (y, version) else None
  | _, _ => None
  end.

Definition RecordResult (serverID : string) (result : SyncResult) : Prog C unit :=
  if bool_decide (sr_ScriptID result = "") || bool_decide (sr_VersionID result = "") || negb (validResultState (sr_State result))
  then throw ErrInvalidSyncResult
  else
    let! raised := transaction "" (
      let! found := query "读取脚本同步记录" (sync_of_result serverID result) in
      match found with
      | None => throw ErrSyncNotFound
      | Some (y, version) =>
        let u := checked_result result (sv_artifact_sha256 version) y in
        let! syncedAt := (if su_synced u then clock_now else ret zero_time) in
        if bool_decide (su_state u = SyncDrifted) && bool_decide (sy_status y = SyncFailed)
        then commit "" ;;! ret None
        else
          let! u := (if bool_decide (su_state u = SyncFailed) && negb (bool_decide (sy_status y = SyncFailed))
                     then
                       let failureCount := su_failureCount u + 1 in
                       if failureCount <? SyncFailureLimit
                       then let! now := clock_now in
                            ret (u <| su_failureCount := failureCount |> <| su_nextRetryAt := Some (now + retry_delay failureCount) |>)
                       else ret (u <| su_failureCount := failureCount |> <| su_nextRetryAt := None |>)
                     else ret u) in
          let! updatedAt := clock_now in
          let! affected := stmt "记录脚本同步结果" (λ d,
            Some (d <| script_syncs ::= alter (sync_row_of u syncedAt updatedAt) (serverID, sr_VersionID result) |>,
                  bool_decide (is_Some (sync_of_result serverID result d)))) in
          if negb affected then throw ErrSyncNotFound
          else commit "" ;;! ret (Some u)
      end) in
    match raised with
    | None => ret tt
    | Some u => raiseSyncAlert serverID (sr_VersionID result) (su_state u) (su_errorCode u) (su_errorMessage u) (su_failureCount u)
    end.

(** The joins with the servers and the versions. *)
Definition sync_view (d : DB) (p : (string * string) * SyncRow) : option SyncView :=
  match servers d !! p.1.1, script_versions d !! p.1.2 with
  | Some s, Some v =>
    Some (mkSyncView p.1 p.1.1 (se_name s) (sv_script_id v) p.1.2 (sv_version v) (sy_status p.2) (sv_artifact_sha256 v)
      (sy_error_code p.2) (sy_error_message p.2) (negb (bool_decide (sy_status p.2 = SyncReady))) (sy_failure_count p.2)
      (sy_next_retry_at p.2) SyncFailureLimit (sy_synced_at p.2) (sy_updated_at p.2))
  | _, _ => None
  end.

Definition view_before (a b : SyncView) : bool :=
  (yv_VersionNumber b <? yv_VersionNumber a) ||
  ((yv_VersionNumber a =? yv_VersionNumber b) && string_lt (yv_ServerName a) (yv_ServerName b)).

Definition List_ (scriptID : string) : Prog C (list SyncView) :=
  pool_query "读取脚本同步状态" (λ d, stable_sort view_before
    (filter (λ view, yv_ScriptID view = scriptID) (omap (sync_view d) (map_to_list (script_syncs d))))).

Definition retry_target (scriptID : string) (syncID : string * string) (d : DB) : option VersionRow :=
  match script_syncs d !! syncID, script_versions d !! syncID.2 with
  | Some y, Some version =>
    if (bool_decide (sy_status y = SyncFailed) || bool_decide (sy_status y = SyncDrifted)) &&
       (bool_decide (scriptID = "") || bool_decide (sv_script_id version = scriptID))
    then Some version else None
  | _, _ => None
  end.

(** [insertAudit] writes to a table of its own. *)
Definition insertAudit : Tx C unit := exec "写入脚本审计记录" Some.

Definition RetryScript (scriptID : string) (syncID : string * string) : Prog C unit :=
  transaction "" (
    let! now := clock_now in
    let! target := stmt "重试脚本同步" (λ d,
      match retry_target scriptID syncID d with
      | Some version => Some (d <| script_syncs ::= alter (retried_sync now) syncID |>, Some version)
      | None => Some (d, None)
      end) in
    match target with
    | None => throw ErrSyncNotFound
    | Some _ => insertAudit ;;! commit ""
    end).

Definition Retry_ (syncID : string * string) : Prog C unit := RetryScript "" syncID.

End service.

(** ** The machine of a transfer

    The status and the number of consecutive failures. *)

Inductive transfer_step : string * Z → string * Z → Prop :=
| transfer_issued status n : status ∈ [SyncPending; SyncDrifted; SyncFailed] → n < SyncFailureLimit →
    transfer_step (status, n) (SyncDownloading, n)
| transfer_failed status n : status ≠ SyncFailed → n < SyncFailureLimit → transfer_step (status, n) (SyncFailed, n + 1)
| transfer_drifted status n : status ≠ SyncFailed → transfer_step (status, n) (SyncDrifted, n)
| transfer_ready status n : transfer_step (status, n) (SyncReady, 0)
| transfer_retried status n : status ∈ [SyncFailed; SyncDrifted] → transfer_step (status, n) (SyncPending, 0).

Definition transfer_of (y : SyncRow) : string * Z := (sy_status y, sy_failure_count y).

(** A row of a version with the digest [sha]. *)
Record sync_row_ok (sha : string) (y : SyncRow) : Prop := {
  so_status : sy_status y ∈ [SyncPending; SyncDownloading; SyncReady; SyncFailed; SyncDrifted];
  so_count : 0 ≤ sy_failure_count y ≤ SyncFailureLimit;
  so_failed : sy_status y = SyncFailed → 1 ≤ sy_failure_count y;
  so_budget : sy_status y ≠ SyncFailed → sy_failure_count y < SyncFailureLimit;
  so_retry : is_Some (sy_next_retry_at y) ↔ sy_status y = SyncFailed ∧ sy_failure_count y < SyncFailureLimit;
  so_digest : sy_artifact_sha256 y = if bool_decide (sy_status y = SyncReady) then Some (ToLower sha) else None;
  so_synced : is_Some (sy_synced_at y) ↔ sy_status y = SyncReady
}.

Record sync_ok (d : DB) : Prop := {
  yo_digests : ∀ id v, script_versions d !! id = Some v → sv_artifact_sha256 v ≠ "";
  yo_rows : ∀ key y, script_syncs d !! key = Some y →
    is_Some (servers d !! key.1) ∧ ∃ v, script_versions d !! key.2 = Some v ∧ sync_row_ok (sv_artifact_sha256 v) y
}.

(** A change of a row that the machine allows. *)
Definition row_moves (sha : string) (y y' : SyncRow) : Prop :=
  sync_row_ok sha y → sync_row_ok sha y' ∧ rtc transfer_step (transfer_of y) (transfer_of y').

Lemma row_moves_refl sha y : row_moves sha y y.
Proof. by intros H. Qed.
Lemma row_moves_trans sha y1 y2 y3 : row_moves sha y1 y2 → row_moves sha y2 y3 → row_moves sha y1 y3.
Proof. intros H1 H2 H. destruct (H1 H) as [Ha Sa]. destruct (H2 Ha) as [Hb Sb]. split; [done|by etrans]. Qed.

Lemma new_sync_ok sha at_ : sync_row_ok sha (new_sync at_).
Proof.
  unfold new_sync. split; cbn [sy_status sy_failure_count sy_next_retry_at sy_artifact_sha256 sy_synced_at].
  - set_solver.
  - unfold SyncFailureLimit. lia.
  - done.
  - unfold SyncFailureLimit. lia.
  - split; [by intros []|by intros []].
  - done.
  - split; [by intros []|done].
Qed.

Lemma sync_due_inv now y : sync_due now y = true →
  sy_status y ∈ [SyncPending; SyncDrifted; SyncFailed] ∧
  (sy_status y = SyncFailed → sy_failure_count y < SyncFailureLimit).
Proof.
  unfold sync_due. rewrite !orb_true_iff, !andb_true_iff, !bool_decide_eq_true, Z.ltb_lt. intros [[->| ->]|[[-> ?] _]];
    (split; [set_solver|done]).
Qed.

Lemma issued_moves sha at_ now y : sync_due now y = true → row_moves sha y (issued at_ y).
Proof.
  intros [Hs Hf]%sync_due_inv [H1 H2 H3 H4 H5 H6 H7].
  assert (sy_failure_count y < SyncFailureLimit) as Hlt by (destruct (decide (sy_status y = SyncFailed)); auto).
  assert (sy_status y ≠ SyncReady) as Hr by (intros E; rewrite E in Hs; set_solver).
  split.
  - split; simpl.
    + set_solver.
    + done.
    + done.
    + done.
    + split; [by intros []|by intros []].
    + simpl. rewrite H6. by rewrite bool_decide_eq_false_2.
    + simpl. rewrite H7. by split.
  - by apply rtc_once, transfer_issued.
Qed.

Lemma next_retry_iff n (t : Time) :
  is_Some (if n <? SyncFailureLimit then Some t else None) ↔ SyncFailed = SyncFailed ∧ n < SyncFailureLimit.
Proof. destruct (Z.ltb_spec n SyncFailureLimit); split; [done|by eexists|by intros []|intros [_ ?]; lia]. Qed.

Lemma expired_moves sha now y : transfer_lost now y = true → row_moves sha y (expired_transfer now y).
Proof.
  unfold transfer_lost. rewrite andb_true_iff, bool_decide_eq_true. intros [Hs _] [H1 H2 H3 H4 H5 H6 H7].
  assert (sy_failure_count y < SyncFailureLimit) as Hlt by (apply H4; rewrite Hs; done).
  assert (Z.min (sy_failure_count y + 1) SyncFailureLimit = sy_failure_count y + 1) as Hmin by lia.
  split.
  - split; simpl; rewrite ?Hmin.
    + set_solver.
    + lia.
    + lia.
    + done.
    + apply next_retry_iff.
    + done.
    + split; [by intros []|done].
  - unfold transfer_of. simpl. rewrite Hmin, Hs. by apply rtc_once, transfer_failed.
Qed.

Lemma retried_moves sha now y : sy_status y ∈ [SyncFailed; SyncDrifted] → row_moves sha y (retried_sync now y).
Proof.
  intros Hs [H1 H2 H3 H4 H5 H6 H7]. split.
  - split; simpl.
    + set_solver.
    + unfold SyncFailureLimit. lia.
    + done.
    + unfold SyncFailureLimit. lia.
    + split; [by intros []|by intros []].
    + rewrite H6. rewrite bool_decide_eq_false_2; [done|]. intros E. rewrite E in Hs. set_solver.
    + split; [by intros []|done].
  - by apply rtc_once, transfer_retried.
Qed.

(** The update [RecordResult] computes, once the failure was counted at [now]. *)
Definition counted_result (result : SyncResult) (sha : string) (y : SyncRow) (now : Time) : SyncUpdate :=
  let u := checked_result result sha y in
  if bool_decide (su_state u = SyncFailed) && negb (bool_decide (sy_status y = SyncFailed))
  then let n := su_failureCount u + 1 in
       u <| su_failureCount := n |> <| su_nextRetryAt := if n <? SyncFailureLimit then Some (now + retry_delay n) else None |>
  else u.

Lemma counted_state result sha y now : su_state (counted_result result sha y now) = su_state (checked_result result sha y).
Proof. unfold counted_result. cbv zeta. by destruct (_ && negb _). Qed.

(** Whether the result is ignored: a drift report on a failed transfer. *)
Definition result_ignored (result : SyncResult) (sha : string) (y : SyncRow) : bool :=
  bool_decide (su_state (checked_result result sha y) = SyncDrifted) && bool_decide (sy_status y = SyncFailed).

Lemma ToLower_nonempty s : s ≠ "" → ToLower s ≠ "".
Proof. by destruct s. Qed.

(** The three kinds of accepted results. *)
Lemma checked_result_cases result sha y :
  validResultState (sr_State result) = true →
  let u := checked_result result sha y in
  (su_state u = SyncReady ∧ su_artifactSHA u = ToLower sha ∧ su_synced u = true ∧ su_failureCount u = 0 ∧ su_nextRetryAt u = None ∧
   sr_State result = SyncReady ∧ EqualFold (sr_SHA256 result) sha = true) ∨
  ((su_state u = SyncFailed ∨ su_state u = SyncDrifted) ∧ su_artifactSHA u = "" ∧ su_synced u = false ∧
   su_failureCount u = sy_failure_count y ∧ su_nextRetryAt u = sy_next_retry_at y).
Proof.
  unfold validResultState, checked_result. rewrite !orb_true_iff, !bool_decide_eq_true. intros Hv. cbv zeta.
  case_bool_decide as Hr.
  - destruct (EqualFold _ _) eqn:E; [left|right]; simpl; auto 10.
  - right. simpl. destruct Hv as [[?|?]|?]; [done|auto 10|auto 10].
Qed.

Lemma result_moves result sha y now syncedAt updatedAt :
  validResultState (sr_State result) = true → sha ≠ "" → result_ignored result sha y = false →
  row_moves sha y (sync_row_of (counted_result result sha y now) syncedAt updatedAt y).
Proof.
  intros Hv Hsha Hi [H1 H2 H3 H4 H5 H6 H7]. unfold result_ignored in Hi. unfold counted_result.
  destruct (checked_result_cases result sha y Hv) as [(E1 & E2 & E3 & E4 & E5 & _)|([E1|E1] & E2 & E3 & E4 & E5)];
    revert Hi; generalize dependent (checked_result result sha y); intros u E1 E2 E3 E4 E5 Hi; cbv zeta; rewrite E1 in *.
  - rewrite bool_decide_eq_false_2 by done. simpl andb. cbv iota. split.
    + split; simpl; rewrite ?E1, ?E2, ?E3, ?E4, ?E5.
      * set_solver.
      * unfold SyncFailureLimit. lia.
      * done.
      * unfold SyncFailureLimit. lia.
      * split; [by intros []|by intros []].
      * rewrite (bool_decide_eq_false_2 (ToLower sha = "")) by (by apply ToLower_nonempty). done.
      * done.
    + unfold transfer_of. simpl. rewrite E1, E4. apply rtc_once, transfer_ready.
  - rewrite (bool_decide_eq_true_2 (SyncFailed = SyncFailed)) by done. destruct (decide (sy_status y = SyncFailed)) as [Hf|Hf];
      [rewrite (bool_decide_eq_true_2 (sy_status y = SyncFailed)) by done
      |rewrite (bool_decide_eq_false_2 (sy_status y = SyncFailed)) by done]; simpl andb; cbv iota.
    + split.
      * split; simpl; rewrite ?E1, ?E2, ?E3, ?E4, ?E5; [set_solver|done|auto|done| |done|split; [by intros []|done]].
        rewrite H5, Hf. done.
      * unfold transfer_of. simpl. rewrite E1, E4, Hf. done.
    + specialize (H4 Hf). split.
      * split; simpl; rewrite ?E1, ?E2, ?E3, ?E4; [set_solver|lia|lia|done|apply next_retry_iff|done|split; [by intros []|done]].
      * unfold transfer_of. simpl. rewrite E1, E4. by apply rtc_once, transfer_failed.
  - rewrite (bool_decide_eq_false_2 (SyncDrifted = SyncFailed)) by done. simpl andb. cbv iota.
    rewrite bool_decide_eq_true_2 in Hi by done. simpl in Hi. apply bool_decide_eq_false in Hi. split.
    + split; simpl; rewrite ?E1, ?E2, ?E3, ?E4, ?E5; [set_solver|done|done|auto| |done|split; [by intros []|done]].
      rewrite H5. naive_solver.
    + unfold transfer_of. simpl. rewrite E1, E4. by apply rtc_once, transfer_drifted.
Qed.

(** ** What the operations commit *)

Definition transfers_moved (d d' : DB) : Prop :=
  ∀ key y, script_syncs d !! key = Some y →
    ∃ y', script_syncs d' !! key = Some y' ∧ rtc transfer_step (transfer_of y) (transfer_of y').

Definition sync_sound (d d' : DB) : Prop := sync_ok d → sync_ok d' ∧ transfers_moved d d'.

#[export] Instance sync_sound_preorder : PreOrder sync_sound.
Proof.
  split.
  - intros d Hok. split; [done|]. intros key y Hy. exists y. done.
  - intros d1 d2 d3 H1 H2 Hok. destruct (H1 Hok) as [Hok2 M1]. destruct (H2 Hok2) as [Hok3 M2]. split; [done|].
    intros key y Hy. destruct (M1 key y Hy) as (y2 & Hy2 & S1). destruct (M2 key y2 Hy2) as (y3 & Hy3 & S2).
    exists y3. split; [done|by etrans].
Qed.

Definition sync_valid (d : DB) (key : string * string) : Prop :=
  is_Some (servers d !! key.1) ∧ is_Some (script_versions d !! key.2).

(** Rows move, and new ones are pending. *)
Lemma sync_sound_rows d m :
  (sync_ok d → ∀ key y v, script_syncs d !! key = Some y → script_versions d !! key.2 = Some v →
     ∃ y', m !! key = Some y' ∧ row_moves (sv_artifact_sha256 v) y y') →
  (∀ key y', m !! key = Some y' → script_syncs d !! key = None → sync_valid d key ∧ ∃ at_, y' = new_sync at_) →
  sync_sound d (d <| script_syncs := m |>).
Proof.
  intros Hold Hnew Hok. specialize (Hold Hok). destruct Hok as [H1 H2]. split.
  - split; [done|]. intros key y' Hy'. simpl in *. destruct (script_syncs d !! key) as [y|] eqn:Ey.
    + destruct (H2 key y Ey) as (Hs & v & Hv & Hr). split; [done|]. exists v. split; [done|].
      destruct (Hold key y v Ey Hv) as (y2 & Hy2 & Hm). simplify_eq. by apply Hm.
    + destruct (Hnew key y' Hy' Ey) as ([Hs [v Hv]] & at_ & ->). split; [done|]. exists v. split; [done|]. apply new_sync_ok.
  - intros key y Hy. destruct (H2 key y Hy) as (_ & v & Hv & Hr). destruct (Hold key y v Hy Hv) as (y' & Hy' & Hm).
    exists y'. split; [done|]. by apply Hm.
Qed.

Lemma sync_sound_alter key f d :
  (sync_ok d → ∀ y v, script_syncs d !! key = Some y → script_versions d !! key.2 = Some v → row_moves (sv_artifact_sha256 v) y (f y)) →
  sync_sound d (d <| script_syncs ::= alter f key |>).
Proof.
  intros Hf. apply (sync_sound_rows d (alter f key (script_syncs d))).
  - intros Hok k y v Hy Hv. destruct (decide (k = key)) as [->|Hne].
    + exists (f y). rewrite lookup_alter_eq, Hy. split; [done|by apply Hf].
    + exists y. rewrite lookup_alter_ne by done. split; [done|apply row_moves_refl].
  - intros k y' Hy' Hn. destruct (decide (k = key)) as [->|Hne]; [rewrite lookup_alter_eq in Hy'|rewrite lookup_alter_ne in Hy' by done];
      rewrite Hn in Hy'; done.
Qed.

Lemma sync_sound_imap f d :
  (∀ key y sha, row_moves sha y (f key y)) →
  sync_sound d (d <| script_syncs ::= map_imap (λ key y, Some (f key y)) |>).
Proof.
  intros Hf. apply (sync_sound_rows d (map_imap (λ key y, Some (f key y)) (script_syncs d))).
  - intros _ key y v Hy _. exists (f key y). rewrite map_lookup_imap, Hy. split; [done|apply Hf].
  - intros key y'. rewrite map_lookup_imap. intros Hy' Hn. by rewrite Hn in Hy'.
Qed.

Lemma foldr_insert_lookup {K A} `{Countable K} (keys : list K) (a : A) (m : gmap K A) k :
  foldr (λ key m, <[key := a]> m) m keys !! k = if bool_decide (k ∈ keys) then Some a else m !! k.
Proof.
  induction keys as [|key keys IH]; simpl; [done|]. destruct (decide (k = key)) as [->|Hne].
  - rewrite lookup_insert_eq, bool_decide_eq_true_2; [done|set_solver].
  - rewrite lookup_insert_ne, IH by done. by rewrite (bool_decide_ext (k ∈ key :: keys) (k ∈ keys)) by set_solver.
Qed.

Lemma insert_syncs_sound at_ keys d : Forall (sync_valid d) keys → sync_sound d (insert_syncs at_ keys d).1.
Proof.
  intros Hv. unfold insert_syncs. cbn [fst]. set (fresh := filter _ keys).
  apply (sync_sound_rows d (foldr (λ key m, <[key := new_sync at_]> m) (script_syncs d) fresh)).
  - intros _ key y v Hy _. exists y. rewrite foldr_insert_lookup, bool_decide_eq_false_2; [split; [done|apply row_moves_refl]|].
    intros [Hn _]%list_elem_of_filter. congruence.
  - intros key y'. rewrite foldr_insert_lookup. case_bool_decide as Hin; [|congruence]. intros [= <-] _.
    apply list_elem_of_filter in Hin as [_ Hin]. rewrite Forall_forall in Hv. eauto.
Qed.

Lemma latest_version_some scriptID d id v :
  latest_version scriptID d = Some (id, v) → script_versions d !! id = Some v ∧ sv_script_id v = scriptID.
Proof.
  intros Hh%head_Some_elem_of. apply elem_of_stable_sort, list_elem_of_filter in Hh as [Hs Hin%elem_of_map_to_list]. done.
Qed.

Lemma wanted_by_valid serverID d : Forall (sync_valid d) (wanted_by serverID d).
Proof.
  unfold wanted_by. destruct (servers d !! serverID) as [s|] eqn:Es; [|done]. destruct (accepts_scripts s); [|done].
  apply Forall_forall. intros key (id & -> & ([k script] & Hin & Hw)%list_elem_of_omap)%list_elem_of_fmap.
  unfold server_wants in Hw. destruct (latest_version _ _) as [[id' v]|] eqn:El; [|done]. apply latest_version_some in El as [Hv _].
  destruct (distributed_to _ _ _); [|done]. simplify_eq. split; simpl; eauto.
Qed.

Lemma sync_of_result_some serverID result d y v :
  sync_of_result serverID result d = Some (y, v) →
  script_syncs d !! (serverID, sr_VersionID result) = Some y ∧ script_versions d !! sr_VersionID result = Some v ∧
  sv_script_id v = sr_ScriptID result.
Proof.
  unfold sync_of_result. destruct (script_syncs d !! _); [|done]. destruct (script_versions d !! _); [|done].
  case_bool_decide; [|done]. by intros [= <- <-].
Qed.

Section laws.
Context {C : Type} `{!Has DB C, alerts : !AlertSink C, alert_law : !AlertLaw} (artifactBaseURL : string).

Lemma raise_alert_frame serverID versionID state code text failures (c : C) (Q : Result unit → C → Prop) :
  (∀ r, Q r c) → wp (raiseSyncAlert serverID versionID state code text failures) c Q.
Proof.
  intros HQ. unfold raiseSyncAlert. destruct sink_Raise as [raise|] eqn:E; [|by apply wp_ret].
  destruct (_ || _); [|by apply wp_ret]. eapply wp_mono; [by apply raise_frame|]. by intros r c' ->.
Qed.

(** What a result does to the row it is about. *)
Definition result_effect (serverID : string) (result : SyncResult) (d d' : DB) : Prop :=
  ∃ y v, sync_of_result serverID result d = Some (y, v) ∧ validResultState (sr_State result) = true ∧
    if result_ignored result (sv_artifact_sha256 v) y then d' = d
    else ∃ now syncedAt updatedAt, d' = d <| script_syncs ::= alter
           (sync_row_of (counted_result result (sv_artifact_sha256 v) y now) syncedAt updatedAt) (serverID, sr_VersionID result) |>.

Definition result_refused (serverID : string) (result : SyncResult) (d : DB) (r : Result unit) : Prop :=
  match r with
  | Err ErrInvalidSyncResult => sr_ScriptID result = "" ∨ sr_VersionID result = "" ∨ validResultState (sr_State result) = false
  | Err ErrSyncNotFound => sync_of_result serverID result d = None
  | Err (EStorage _) => True
  | _ => False
  end.

Lemma RecordResult_spec serverID result :
  db_spec (C := C) (RecordResult serverID result) (λ d r d',
    result_effect serverID result d d' ∨ (d' = d ∧ result_refused serverID result d r)).
Proof.
  unfold RecordResult. destruct (_ || _) eqn:Eg.
  { apply db_spec_throw. intros d. right. split; [done|]. simpl.
    rewrite !orb_true_iff, !bool_decide_eq_true, negb_true_iff in Eg. tauto. }
  apply orb_false_iff in Eg as [_ Hv%negb_false_iff].
  intros c. apply wp_bind.
  eapply wp_mono; [apply (db_spec_transaction "" _ (λ d (r : Result (option SyncUpdate)) d',
    match r with
    | Ok _ => result_effect serverID result d d'
    | Err e => result_effect serverID result d d' ∨ (d' = d ∧ result_refused serverID result d (Err e))
    end)); [by right|]|].
  - intros c0. tx_step. tx_step; [tx_step; by right|].
    destruct (sync_of_result serverID result (part c0)) as [[y v]|] eqn:Ey; [|tx_step; apply tx_exit; by right].
    tx_step. apply (wp_mono _ _ (λ r p, p = (c0, part c0) ∧ is_ok r = true)).
    { destruct (su_synced _); [apply wp_clock_now; done|by apply wp_ret]. }
    intros [syncedAt|e] p [-> Hr]; [clear Hr|done].
    destruct (_ && _) eqn:Ei.
    { assert (result_effect serverID result (part c0) (part c0)) as He.
      { exists y, v. split; [done|]. split; [done|]. unfold result_ignored. by rewrite Ei. }
      repeat tx_step; [by right|done|by left]. }
    tx_step. apply (wp_mono _ _ (λ r p, p = (c0, part c0) ∧ ∃ now, r = Ok (counted_result result (sv_artifact_sha256 v) y now))).
    { unfold counted_result. destruct (_ && negb _); [|apply wp_ret; by eauto using zero_time].
      cbv zeta. destruct (_ <? SyncFailureLimit); [|apply wp_ret; by eauto using zero_time].
      apply wp_bind, wp_clock_now. intros now. apply wp_ret. eauto. }
    intros r p [-> [now ->]]. tx_step. tx_step. tx_step. tx_step; [tx_step; by right| |tx_step; by right].
    injection Hstmt as <- <-. rewrite bool_decide_eq_true_2 by (rewrite Ey; eauto). simpl negb. cbv iota.
    assert (result_effect serverID result (part c0) ((part c0) <| script_syncs ::= alter
      (sync_row_of (counted_result result (sv_artifact_sha256 v) y now) syncedAt t) (serverID, sr_VersionID result) |>)) as He.
    { exists y, v. split; [done|]. split; [done|]. unfold result_ignored. rewrite Ei. eauto. }
    repeat tx_step; [by right|done|by left].
  - intros [[u|]|e] c' [Hc' Hr].
    + apply raise_alert_frame. auto.
    + apply wp_ret. auto.
    + auto.
Qed.

(** ** Every operation changes only the transfers, along the machine *)

Definition only_syncs (d d' : DB) : Prop := ∃ m, d' = d <| script_syncs := m |>.
Definition sync_change (d d' : DB) : Prop := sync_sound d d' ∧ only_syncs d d'.

#[local] Instance sync_change_preorder : PreOrder sync_change.
Proof.
  split.
  - intros d. split; [done|]. exists (script_syncs d). by destruct d.
  - intros d1 d2 d3 [S1 [m1 E1]] [S2 [m2 E2]]. split; [by etrans|]. exists m2. rewrite E2, E1. done.
Qed.

Lemma alert_moves serverID versionID state code text failures :
  moves sync_change (raiseSyncAlert (C := C) serverID versionID state code text failures).
Proof. apply moves_same; [apply _|]. intros c. by apply raise_alert_frame. Qed.

Lemma result_effect_change serverID result d d' : result_effect serverID result d d' → sync_change d d'.
Proof.
  intros (y & v & Hs & Hvalid & He). pose proof (sync_of_result_some _ _ _ _ _ Hs) as (Hy & Hv & _).
  destruct (result_ignored _ _ _) eqn:Ei; [by subst|]. destruct He as (now & syncedAt & updatedAt & ->).
  split; [|by eexists]. apply sync_sound_alter. intros Hok y' v' Hy' Hv'. simpl in Hv'. simplify_eq.
  apply result_moves; [done|by eapply yo_digests|done].
Qed.

Lemma RecordResult_change serverID result : moves sync_change (RecordResult (C := C) serverID result).
Proof.
  eapply db_spec_mono; [apply RecordResult_spec|]. intros d r d' [He|[-> _]]; [by eapply result_effect_change|done].
Qed.

Lemma PrepareVersion_change versionID : moves sync_change (PrepareVersion (C := C) versionID).
Proof.
  intros c. apply wp_bind, wp_pool_query; [by rewrite set_part_same|].
  destruct (script_versions (part c) !! versionID) as [v|] eqn:Ev; [|apply wp_throw; by rewrite set_part_same].
  destruct (scripts (part c) !! sv_script_id v) as [script|]; simpl; [|apply wp_throw; by rewrite set_part_same].
  apply wp_bind, wp_clock_now. intros now. case_bool_decide; [apply wp_ret; by rewrite set_part_same|].
  destruct (distribution_where _ _) as [where_|]; [|apply wp_throw; by rewrite set_part_same].
  apply wp_pool; [by rewrite set_part_same|]. intros d n Hd. rewrite !part_set.
  assert (sync_change (part c) d) as Hch; [|done].
  destruct (insert_syncs _ _ _) as [d1 n1] eqn:Ei. injection Hd as <- <-. apply (f_equal fst) in Ei. cbn [fst] in Ei. rewrite <-Ei.
  split; [|by eexists]. apply insert_syncs_sound, Forall_forall. intros key ([id s] & -> & [_ Hin%elem_of_map_to_list]%list_elem_of_filter)%list_elem_of_fmap.
  split; simpl; eauto.
Qed.

Lemma prepareServer_change serverID : moves sync_change (prepareServer (C := C) serverID).
Proof.
  apply moves_bind; [apply _|apply moves_clock, _|]. intros now. apply moves_pool; [apply _|]. intros d d' u [= <- _].
  split; [|by eexists]. apply insert_syncs_sound, wanted_by_valid.
Qed.

Lemma expireTransfers_change serverID : moves sync_change (expireTransfers (C := C) serverID).
Proof.
  apply moves_bind; [apply _|apply moves_clock, _|]. intros now. apply moves_bind; [apply _| |].
  - apply moves_pool; [apply _|]. intros d d' items [= <- _]. split; [|by eexists].
    apply (sync_sound_imap (λ key y, if bool_decide (key.1 = serverID) && transfer_lost now y then expired_transfer now y else y)).
    intros key y sha. destruct (_ && _) eqn:E; [|apply row_moves_refl]. apply andb_true_iff in E as [_ E]. by apply expired_moves.
  - intros items. apply moves_for_each; [apply _|]. intros [[versionID failures] text]. apply alert_moves.
Qed.

(** What a claim takes. *)
Definition claimed (serverID : string) (now : Time) (key : string * string) (y : SyncRow) (v : VersionRow) (d d' : DB) : Prop :=
  key.1 = serverID ∧ script_syncs d !! key = Some y ∧ sync_due now y = true ∧ script_versions d !! key.2 = Some v ∧
  (∀ key' y', script_syncs d !! key' = Some y' → key'.1 = serverID → sync_due now y' = true →
     is_Some (script_versions d !! key'.2) → sync_before y' y = false) ∧
  ∃ at_, d' = d <| script_syncs ::= alter (issued at_) key |>.

#[local] Instance sync_before_order : StrictWeak (λ a b : (string * string) * SyncRow, sync_before a.2 b.2).
Proof.
  split.
  - intros a. unfold sync_before. rewrite !Z.ltb_irrefl. rewrite !andb_false_r. done.
  - intros a b c. unfold sync_before. rewrite !orb_true_iff, !andb_true_iff, !orb_true_iff, !andb_true_iff, !Z.ltb_lt, !Z.eqb_eq. lia.
  - intros a b c. unfold sync_before. rewrite !orb_false_iff, !andb_false_iff, !orb_false_iff, !andb_false_iff, !Z.ltb_ge, !Z.eqb_neq. lia.
Qed.

Lemma next_sync_some serverID now d key v :
  next_sync serverID now d = Some (key, v) →
  ∃ y, key.1 = serverID ∧ script_syncs d !! key = Some y ∧ sync_due now y = true ∧ script_versions d !! key.2 = Some v ∧
    ∀ key' y', script_syncs d !! key' = Some y' → key'.1 = serverID → sync_due now y' = true →
      is_Some (script_versions d !! key'.2) → sync_before y' y = false.
Proof.
  unfold next_sync. set (due := filter _ _). intros H.
  destruct (stable_sort (λ a b : (string * string) * SyncRow, sync_before a.2 b.2) due) as [|[key0 y] rest] eqn:Es; [done|].
  apply stable_sort_head in Es as [Hin Hmin]; [|apply _]. simpl in H.
  apply list_elem_of_filter in Hin as [(H1 & H2 & H3) Hin%elem_of_map_to_list]. simpl in *.
  destruct (script_versions d !! key0.2) as [v0|] eqn:Ev; [|done]. simpl in H. simplify_eq.
  exists y. split_and!; try done. intros key' y' Hy' Hk' Hdue' Hv'. apply (Hmin (key', y')).
  apply list_elem_of_filter. split; [done|]. by apply elem_of_map_to_list.
Qed.

Lemma claim_sync_spec serverID :
  db_spec (C := C) (claim_sync artifactBaseURL serverID) (λ d r d',
    match r with
    | Ok (Some command) => ∃ now key y v, claimed serverID now key y v d d' ∧ command = command_of artifactBaseURL key v
    | Ok None => d' = d ∧ ∃ now, next_sync serverID now d = None
    | Err e => (∃ context, e = EStorage context) ∧ (d' = d ∨ ∃ now key y v, claimed serverID now key y v d d')
    end).
Proof.
  apply db_spec_transaction; [by eauto 10|]. intros c. tx_step. tx_step. tx_step. tx_step; [tx_step; by eauto 10|].
  destruct (next_sync serverID t (part c)) as [[key v]|] eqn:En; [|tx_step; apply tx_exit; eauto].
  destruct (next_sync_some _ _ _ _ _ En) as (y & H1 & H2 & H3 & H4 & H5).
  tx_step. tx_step. tx_step. tx_step; [tx_step; by eauto 10| |tx_step; by eauto 10]. injection Hstmt as <-.
  assert (claimed serverID t key y v (part c) ((part c) <| script_syncs ::= alter (issued t0) key |>)) as Hc.
  { split_and!; try done. by eexists. }
  repeat tx_step; [by eauto 10|by eauto 10|by eauto 10].
Qed.

Lemma claimed_change serverID now key y v d d' : claimed serverID now key y v d d' → sync_change d d'.
Proof.
  intros (_ & Hy & Hdue & Hv & _ & at_ & ->). split; [|by eexists]. apply sync_sound_alter.
  intros _ y' v' Hy' _. simplify_eq. by eapply issued_moves.
Qed.

Lemma claim_sync_change serverID : moves sync_change (claim_sync (C := C) artifactBaseURL serverID).
Proof.
  eapply db_spec_mono; [apply claim_sync_spec|]. intros d [[command|]|e] d' H.
  - destruct H as (? & ? & ? & ? & H & _). by eapply claimed_change.
  - by destruct H as [-> _].
  - destruct H as [_ [->|(? & ? & ? & ? & H)]]; [done|by eapply claimed_change].
Qed.

Lemma NextCommand_change serverID : moves sync_change (NextCommand (C := C) artifactBaseURL serverID).
Proof.
  apply moves_bind; [apply _|apply prepareServer_change|intros _].
  apply moves_bind; [apply _|apply expireTransfers_change|intros _]. apply claim_sync_change.
Qed.

Definition retried (scriptID : string) (syncID : string * string) (d d' : DB) : Prop :=
  is_Some (retry_target scriptID syncID d) ∧ ∃ now, d' = d <| script_syncs ::= alter (retried_sync now) syncID |>.

Lemma RetryScript_spec scriptID syncID :
  db_spec (C := C) (RetryScript scriptID syncID) (λ d r d',
    match r with
    | Ok _ => retried scriptID syncID d d'
    | Err ErrSyncNotFound => d' = d ∧ retry_target scriptID syncID d = None
    | Err (EStorage _) => d' = d ∨ retried scriptID syncID d d'
    | Err _ => False
    end).
Proof.
  apply db_spec_transaction; [by left|]. intros c. tx_step. tx_step. tx_step. tx_step; [tx_step; by left| |].
  - destruct (retry_target scriptID syncID (part c)) as [v|] eqn:Er; simplify_eq; [|tx_step; by apply tx_exit].
    assert (retried scriptID syncID (part c) ((part c) <| script_syncs ::= alter (retried_sync t) syncID |>)) as Hr
      by (split; [by rewrite Er|by eexists]).
    tx_step. unfold insertAudit. tx_step; [tx_step; by left| |tx_step; by left]. simplify_eq.
    repeat tx_step; [by left|done|by right].
  - tx_step. by left.
Qed.

Lemma retried_change scriptID syncID d d' : retried scriptID syncID d d' → sync_change d d'.
Proof.
  intros ([v Hr] & now & ->). split; [|by eexists]. apply sync_sound_alter. intros _ y v' Hy Hv. apply retried_moves.
  unfold retry_target in Hr. rewrite Hy, Hv in Hr. destruct (_ && _) eqn:E; [|done].
  rewrite !andb_true_iff, !orb_true_iff, !bool_decide_eq_true in E. destruct E as [[->| ->] _]; set_solver.
Qed.

Lemma RetryScript_change scriptID syncID : moves sync_change (RetryScript (C := C) scriptID syncID).
Proof.
  eapply db_spec_mono; [apply RetryScript_spec|]. intros d [u|[]] d' H; try done; [by eapply retried_change| |by destruct H as [-> _]].
  destruct H as [->|H]; [done|by eapply retried_change].
Qed.

(** ** Sequences of operations *)

Inductive SyncOperation : Type :=
| SyncPrepare (versionID : string)
| SyncNext (serverID : string)
| SyncReport (serverID : string) (result : SyncResult)
| SyncRetry (scriptID : string) (syncID : string * string).

Definition sync_perform (op : SyncOperation) : Prog C unit :=
  match op with
  | SyncPrepare versionID => catch (PrepareVersion versionID) ;;! ret tt
  | SyncNext serverID => catch (NextCommand artifactBaseURL serverID) ;;! ret tt
  | SyncReport serverID result => catch (RecordResult serverID result) ;;! ret tt
  | SyncRetry scriptID syncID => catch (RetryScript scriptID syncID) ;;! ret tt
  end.

Lemma moves_ignored {A} (m : Prog C A) : moves sync_change m → moves sync_change (catch m ;;! ret tt).
Proof.
  intros Hm c. apply wp_bind, wp_catch. eapply wp_mono; [apply Hm|]. intros r c' Hc'. by apply wp_ret.
Qed.

Lemma sync_perform_change op : moves sync_change (sync_perform op).
Proof.
  destruct op; apply moves_ignored;
    [apply PrepareVersion_change|apply NextCommand_change|apply RecordResult_change|apply RetryScript_change].
Qed.

(** ** Properties *)

Lemma wp_sync_all ops (c : C) (I : C → Prop) (Q : Result unit → C → Prop) :
  I c → (∀ op c1, op ∈ ops → I c1 → wp (sync_perform op) c1 (λ _ c2, I c2)) → (∀ c', I c' → Q (Ok tt) c') →
  wp (for_each ops sync_perform) c Q.
Proof.
  intros Hc Hop HQ. apply wp_for_each with (I := λ _, I); [done| |done]. intros op rest c1 Hc1 Hin.
  assert (∀ c0, wp (sync_perform op) c0 (λ r _, r = Ok tt)) as Hret.
  { intros c0. destruct op; apply wp_bind, wp_catch; (eapply wp_mono; [apply wp_any|]); intros; by apply wp_ret. }
  eapply wp_mono; [apply wp_conj; [apply Hret|by apply Hop]|]. by intros r c2 [-> ?].
Qed.

(** C6: The transfers implement their machine.  Whatever the operators, the servers and
    the reports do, in whatever order and whatever fails: every row only moves along
    [transfer_step]; a digest is recorded exactly for the ready rows and is the published
    one; failures never exceed the limit, and a retry is planned exactly for the failed
    rows below it; nothing but the transfers changes. *)
Theorem transfers_follow_machine ops (c : C) :
  sync_ok (part c) →
  wp (for_each ops sync_perform) c (λ r c',
    r = Ok tt ∧ sync_ok (part c') ∧ transfers_moved (part c) (part c') ∧ only_syncs (part c) (part c')).
Proof.
  intros Hok. apply wp_sync_all with (I := λ c', sync_change (part c) (part c')).
  - reflexivity.
  - intros op c1 _ H1. eapply wp_mono; [apply sync_perform_change|]. intros r c2 [_ H2]. by etrans.
  - intros c' [Hs Ho]. destruct (Hs Hok). done.
Qed.

(** What a report does, exactly: a valid report of a known transfer replaces its row
    as the code computes it, or is ignored when it reports a drift of a failed transfer;
    anything else is refused and leaves the tables as they were. *)
Theorem RecordResult_exact serverID result :
  db_spec (C := C) (RecordResult serverID result) (λ d r d',
    result_effect serverID result d d' ∨ (d' = d ∧ result_refused serverID result d r)).
Proof. apply RecordResult_spec. Qed.

(** A server counts as holding a version after its report exactly when it reported it
    ready with the published digest, up to letter case (the platform publishes digests in
    lower case). *)
Theorem ready_iff_digest serverID result (c : C) v :
  sync_ok (part c) → script_versions (part c) !! sr_VersionID result = Some v →
  ToLower (sv_artifact_sha256 v) = sv_artifact_sha256 v →
  wp (RecordResult serverID result) c (λ r c', r = Ok tt →
    (script_matches (part c') serverID (sr_VersionID result) ↔
     sr_State result = SyncReady ∧ EqualFold (sr_SHA256 result) (sv_artifact_sha256 v) = true)).
Proof.
  intros Hok Hv Hlow. eapply wp_mono; [apply RecordResult_spec|]. intros r c' [_ H] ->.
  destruct H as [He|[_ Hr]]; [|done]. pose proof (result_effect_change _ _ _ _ He) as [Hs _]. destruct (Hs Hok) as [Hok' _].
  destruct He as (y & v' & Hsync & Hvalid & He). pose proof (sync_of_result_some _ _ _ _ _ Hsync) as (Hy & Hv' & _). simplify_eq.
  pose proof (checked_result_cases result (sv_artifact_sha256 v) y Hvalid) as Hcases. cbv zeta in Hcases.
  assert (script_matches (part c') serverID (sr_VersionID result) ↔
    ∃ y', script_syncs (part c') !! (serverID, sr_VersionID result) = Some y' ∧ sy_status y' = SyncReady) as ->.
  { split; [intros (y' & ? & ? & _ & ? & _); eauto|]. intros (y' & Hy' & Hst).
    destruct (yo_rows _ Hok' _ _ Hy') as (_ & v2 & Hv2 & Hrow). exists y', v2. simpl in Hv2. split_and!; try done.
    rewrite (so_digest _ _ Hrow), bool_decide_eq_true_2 by done. destruct (result_ignored _ _ _); [congruence|].
    destruct He as (? & ? & ? & Hd). rewrite Hd in Hv2. simpl in Hv2. congruence. }
  destruct (result_ignored _ _ _) eqn:Ei.
  - unfold result_ignored in Ei. rewrite andb_true_iff, !bool_decide_eq_true in Ei. destruct Ei as [Ed Ef]. rewrite He.
    destruct Hcases as [(E1 & _)|Hc]; [by rewrite E1 in Ed|]. split; [intros (y' & Hy' & Hst); simplify_eq; by rewrite Ef in Hst|].
    intros [Hr Heq]. unfold checked_result in Ed. rewrite bool_decide_eq_true_2, Heq in Ed by done. done.
  - destruct He as (now & syncedAt & updatedAt & ->). simpl. rewrite lookup_alter_eq, Hy. simpl.
    split.
    + intros (y' & [= <-] & Hst). simpl in Hst. rewrite counted_state in Hst.
      destruct Hcases as [(_ & _ & _ & _ & _ & ? & ?)|([E|E] & _)]; [done|by rewrite E in Hst..].
    + intros [Hr Heq]. eexists. split; [done|]. simpl. rewrite counted_state. unfold checked_result.
      by rewrite bool_decide_eq_true_2, Heq by done.
Qed.

Lemma NextCommand_claimed serverID (c : C) :
  wp (NextCommand artifactBaseURL serverID) c (λ r c', ∀ command, r = Ok (Some command) →
    ∃ d now y v, claimed serverID now (serverID, sm_VersionID command) y v d (part c') ∧
      command = command_of artifactBaseURL (serverID, sm_VersionID command) v).
Proof.
  apply wp_bind. eapply wp_mono; [apply wp_any|]. intros [u1|e] c1 _; [|done].
  apply wp_bind. eapply wp_mono; [apply wp_any|]. intros [u2|e] c2 _; [|done].
  eapply wp_mono; [apply claim_sync_spec|]. intros r c' [_ H] command ->.
  destruct H as (now & [key1 key2] & y & v & Hc & ->). exists (part c2), now, y, v. simpl.
  pose proof Hc as (Hk & _). simpl in Hk. by subst key1.
Qed.

Lemma claimed_downloading serverID now key y v d d' :
  claimed serverID now key y v d d' → (sy_status <$> script_syncs d' !! key) = Some SyncDownloading.
Proof. intros (_ & Hy & _ & _ & _ & at_ & ->). simpl. by rewrite lookup_alter_eq, Hy. Qed.

Lemma NextCommand_command serverID (c : C) :
  wp (NextCommand artifactBaseURL serverID) c (λ r c', ∀ command, r = Ok (Some command) →
    (sy_status <$> script_syncs (part c') !! (serverID, sm_VersionID command)) = Some SyncDownloading).
Proof.
  eapply wp_mono; [apply NextCommand_claimed|]. intros r c' H command Hr.
  destruct (H command Hr) as (? & ? & ? & ? & Hc & _). by eapply claimed_downloading.
Qed.

(** A claimed transfer: the command names the version, its script and its published
    digest, and the row is marked as downloading; it was the most urgent due row of the
    server (drifted before pending before failed, then the oldest). *)
Theorem NextCommand_issues serverID (c : C) :
  wp (NextCommand artifactBaseURL serverID) c (λ r c', ∀ command, r = Ok (Some command) →
    ∃ d now y v, claimed serverID now (serverID, sm_VersionID command) y v d (part c') ∧
      command = command_of artifactBaseURL (serverID, sm_VersionID command) v ∧
      (sy_status <$> script_syncs (part c') !! (serverID, sm_VersionID command)) = Some SyncDownloading).
Proof.
  eapply wp_mono; [apply NextCommand_claimed|]. intros r c' H command Hr.
  destruct (H command Hr) as (d & now & y & v & Hc & Hcmd). exists d, now, y, v. split_and!; [done|done|by eapply claimed_downloading].
Qed.

(** ** The retry budget *)

Definition exhausted (key : string * string) (d : DB) : Prop :=
  ∃ y, script_syncs d !! key = Some y ∧ sy_status y = SyncFailed ∧ sy_failure_count y = SyncFailureLimit.

(** The operations that open a new budget for a transfer. *)
Definition restarts (key : string * string) (op : SyncOperation) : bool :=
  match op with
  | SyncRetry _ syncID => bool_decide (syncID = key)
  | SyncReport serverID result => bool_decide ((serverID, sr_VersionID result) = key) && bool_decide (sr_State result = SyncReady)
  | _ => false
  end.

Definition stays_exhausted (key : string * string) (d d' : DB) : Prop := exhausted key d → exhausted key d'.

#[local] Instance stays_exhausted_preorder key : PreOrder (stays_exhausted key).
Proof. split; [intros d H; exact H|]. intros d1 d2 d3 H1 H2 H. exact (H2 (H1 H)). Qed.

Lemma insert_stays key at_ keys d : stays_exhausted key d (insert_syncs at_ keys d).1.
Proof.
  intros (y & Hy & Hs & Hn). exists y. split_and!; [|done..]. simpl. rewrite foldr_insert_lookup, bool_decide_eq_false_2; [done|].
  intros [Hnone _]%list_elem_of_filter. congruence.
Qed.

Lemma alter_stays key key' f d :
  (∀ y, script_syncs d !! key = Some y → key' = key → sy_status y = SyncFailed → sy_failure_count y = SyncFailureLimit →
     sy_status (f y) = SyncFailed ∧ sy_failure_count (f y) = SyncFailureLimit) →
  stays_exhausted key d (d <| script_syncs ::= alter f key' |>).
Proof.
  intros Hf (y & Hy & Hs & Hn). destruct (decide (key' = key)) as [->|Hne].
  - exists (f y). simpl. rewrite lookup_alter_eq, Hy. split; [done|by apply Hf].
  - exists y. simpl. by rewrite lookup_alter_ne by done.
Qed.

Lemma exhausted_not_due now y : sy_status y = SyncFailed → sy_failure_count y = SyncFailureLimit → sync_due now y = false.
Proof. intros Hs Hn. unfold sync_due. by rewrite Hs, Hn. Qed.

Lemma NextCommand_stays key serverID : moves (stays_exhausted key) (NextCommand (C := C) artifactBaseURL serverID).
Proof.
  apply moves_bind; [apply _| |intros _; apply moves_bind; [apply _| |intros _]].
  - apply moves_bind; [apply _|apply moves_clock, _|]. intros now. apply moves_pool; [apply _|]. intros d d' u [= <- _]. apply insert_stays.
  - apply moves_bind; [apply _|apply moves_clock, _|]. intros now. apply moves_bind; [apply _| |].
    + apply moves_pool; [apply _|]. intros d d' items [= <- _] (y & Hy & Hs & Hn). exists y. simpl. rewrite map_lookup_imap, Hy. simpl.
      unfold transfer_lost. rewrite (bool_decide_eq_false_2 (sy_status y = SyncDownloading)) by (by rewrite Hs).
      by rewrite andb_false_r.
    + intros items. apply moves_for_each; [apply _|]. intros [[versionID failures] text]. apply moves_same; [apply _|].
      intros c. by apply raise_alert_frame.
  - assert (∀ now k y v d d', claimed serverID now k y v d d' → stays_exhausted key d d') as Hc.
    { intros now k y v d d' (_ & Hy & Hdue & _ & _ & at_ & ->). apply alter_stays. intros y' Hy' -> Hs Hn.
      assert (y' = y) as -> by congruence. by rewrite (exhausted_not_due now y) in Hdue. }
    eapply db_spec_mono; [apply claim_sync_spec|]. intros d [[command|]|e] d' H.
    + destruct H as (? & ? & ? & ? & H & _). by eapply Hc.
    + by destruct H as [-> _].
    + destruct H as [_ [->|(? & ? & ? & ? & H)]]; [done|by eapply Hc].
Qed.

Lemma result_stays key serverID result d d' :
  restarts key (SyncReport serverID result) = false → result_effect serverID result d d' → stays_exhausted key d d'.
Proof.
  intros Hr (y & v & Hsync & Hvalid & He). destruct (result_ignored _ _ _) eqn:Ei; [by subst|].
  destruct He as (now & syncedAt & updatedAt & ->). apply alter_stays. intros y' Hy' <- Hs Hn.
  apply sync_of_result_some in Hsync as (Hy & _ & _). assert (y = y') as -> by congruence. simpl in Hr. rewrite bool_decide_eq_true_2 in Hr by done.
  simpl in Hr. apply bool_decide_eq_false in Hr. simpl. rewrite counted_state.
  unfold result_ignored in Ei. rewrite (bool_decide_eq_true_2 (sy_status y' = SyncFailed)), andb_true_r in Ei by done.
  apply bool_decide_eq_false in Ei.
  destruct (checked_result_cases result (sv_artifact_sha256 v) y' Hvalid) as [(_ & _ & _ & _ & _ & ? & _)|([E|E] & _ & _ & En & _)];
    [done| |done].
  split; [done|]. unfold counted_result. rewrite (bool_decide_eq_true_2 (sy_status y' = SyncFailed)), andb_false_r by done.
  cbv zeta. cbv iota. congruence.
Qed.

Lemma sync_perform_stays key op : restarts key op = false → moves (stays_exhausted key) (sync_perform op).
Proof.
  assert (∀ A (m : Prog C A), moves (stays_exhausted key) m → moves (stays_exhausted key) (catch m ;;! ret tt)) as Hcatch.
  { intros A m Hm c. apply wp_bind, wp_catch. eapply wp_mono; [apply Hm|]. intros r c' Hc'. by apply wp_ret. }
  intros Hop. destruct op as [versionID|serverID|serverID result|scriptID syncID]; apply Hcatch.
  - apply moves_bind; [apply _|apply moves_query, _|]. intros [[script v]|]; [|by apply db_spec_throw].
    apply moves_bind; [apply _|apply moves_clock, _|]. intros now. cbv zeta. destruct (bool_decide _); [by apply db_spec_ret|].
    destruct (distribution_where _ _); [|by apply db_spec_throw]. apply moves_pool; [apply _|]. intros d d' n Hd.
    destruct (insert_syncs _ _ _) as [d1 n1] eqn:Ei. injection Hd as <- <-. apply (f_equal fst) in Ei. cbn [fst] in Ei.
    rewrite <-Ei. apply insert_stays.
  - apply NextCommand_stays.
  - eapply db_spec_mono; [apply RecordResult_spec|]. intros d r d' [He|[-> _]]; [by eapply result_stays|done].
  - simpl in Hop. apply bool_decide_eq_false in Hop.
    assert (∀ d d', retried scriptID syncID d d' → stays_exhausted key d d') as Hr.
    { intros d d' (_ & now & ->). apply alter_stays. done. }
    eapply db_spec_mono; [apply RetryScript_spec|]. intros d [u|[]] d' H; try done; [by eapply Hr| |by destruct H as [-> _]].
    destruct H as [->|H]; [done|by eapply Hr].
Qed.

(** The retry budget.  Once a transfer has failed as often as the limit allows, it is
    never sent again and stays failed, whatever the other operations do, until an operator
    retries it or the server itself reports the version ready. *)
Theorem exhausted_not_sent ops serverID versionID (c : C) :
  exhausted (serverID, versionID) (part c) → Forall (λ op, restarts (serverID, versionID) op = false) ops →
  wp (for_each ops sync_perform ;;! NextCommand artifactBaseURL serverID) c (λ r c',
    exhausted (serverID, versionID) (part c') ∧ ∀ command, r = Ok (Some command) → sm_VersionID command ≠ versionID).
Proof.
  intros He Hops. apply wp_bind. apply wp_sync_all with (I := λ c', exhausted (serverID, versionID) (part c')); [done| |].
  - intros op c1 Hin H1. rewrite Forall_forall in Hops. eapply wp_mono; [apply sync_perform_stays, Hops, Hin|].
    intros r c2 [_ H2]. by apply H2.
  - intros c' He'. eapply wp_mono; [apply wp_conj; [apply (NextCommand_stays (serverID, versionID))|apply NextCommand_command]|].
    intros r c2 [[_ Hstay] Hcmd]. destruct (Hstay He') as (y & Hy & Hs & Hn). split; [by exists y|].
    intros command -> <-. specialize (Hcmd command eq_refl). rewrite Hy in Hcmd. simpl in Hcmd. rewrite Hs in Hcmd. done.
Qed.
End laws.

(** ** A transfer *)

Definition silent_alerts : AlertSink DB := {| sink_Raise := None |}.

Lemma silent_alerts_law : AlertLaw (alerts := silent_alerts).
Proof. by split. Qed.

Definition sync_db : DB := due_db
  <| script_versions := {["ver-1" := mkVersionRow "scr-1" 1 "uri" "abc123" "main.sh"
       (no_manifest <| mf_Distribution := mkDistributionRule DistributionAllCompatible "" ∅ |>) "" None 0]} |>
  <| servers := {["srv-1" := mkServerRow "node" StatusOnline true false ∅ ["bash"] [] 4 1 "1.0.0" "linux" "amd64" (Some 0) 1 "" "" ""]} |>.

Lemma sync_db_ok : sync_ok sync_db.
Proof.
  split; [|done]. intros id v. simpl. by intros [_ <-]%lookup_singleton_Some.
Qed.

Definition failed_report : SyncResult := mkSyncResult "scr-1" "ver-1" SyncFailed "" "disk_full" "no space".
Definition ready_report : SyncResult := mkSyncResult "scr-1" "ver-1" SyncReady "ABC123" "" "".

(** Three attempts that fail, each after the delay of the one before. *)
Definition failing_ops : list SyncOperation :=
  [SyncNext "srv-1"; SyncReport "srv-1" failed_report; SyncNext "srv-1"; SyncReport "srv-1" failed_report;
   SyncNext "srv-1"; SyncReport "srv-1" failed_report].

(** The clock readings of the operations. *)
Definition failing_clock : Time * list Time :=
  (0, [0; 0; 0; second; second] ++ replicate 4 (60 * second) ++ [61 * second; 61 * second] ++ replicate 40 (600 * second)).

Definition failing_run : (DB * Oracle) * Result unit :=
  for_each failing_ops (sync_perform (alerts := silent_alerts) "https://yunling") (sync_db, mkOracle [] [] failing_clock).

Lemma transfers_follow_machine_witness :
  sync_ok failing_run.1.1 ∧ only_syncs sync_db failing_run.1.1 ∧
  (transfer_of <$> script_syncs failing_run.1.1 !! ("srv-1", "ver-1")) = Some (SyncFailed, 3).
Proof.
  pose proof (transfers_follow_machine (alerts := silent_alerts) (alert_law := silent_alerts_law) "https://yunling" failing_ops
    sync_db sync_db_ok (mkOracle [] [] failing_clock)) as H.
  change (for_each _ _ _) with failing_run in H. destruct failing_run as [[d' o'] r] eqn:E. destruct H as (_ & Hok & _ & Ho).
  split; [exact Hok|split; [exact Ho|]]. apply (f_equal (λ x, x.1.1)) in E. cbn [fst] in E |- *. rewrite <-E. vm_compute. reflexivity.
Defined.

Definition issued_db : DB :=
  (NextCommand (alerts := silent_alerts) "https://yunling" "srv-1" (sync_db, calm [] 0)).1.1.

Lemma RecordResult_exact_witness :
  let '((d', _), r) := RecordResult (alerts := silent_alerts) "srv-1" failed_report (issued_db, calm [] 5) in
  r = Ok tt ∧ result_effect "srv-1" failed_report issued_db d' ∧
  (sy_next_retry_at <$> script_syncs d' !! ("srv-1", "ver-1")) = Some (Some (5 + 30 * second)).
Proof.
  pose proof (RecordResult_exact (C := DB) (alerts := silent_alerts) (alert_law := silent_alerts_law) "srv-1" failed_report
    issued_db (calm [] 5)) as H.
  destruct (RecordResult _ _ _) as [[d' o'] r] eqn:E. destruct H as [_ H].
  assert (r = Ok tt) as -> by (apply (f_equal snd) in E; cbn [snd] in E; rewrite <-E; vm_compute; reflexivity).
  destruct H as [H|[_ []]]. split_and!; [reflexivity|exact H|].
  apply (f_equal (λ x, x.1.1)) in E. cbn [fst] in E. rewrite <-E. vm_compute. reflexivity.
Defined.

Lemma issued_db_ok : sync_ok issued_db.
Proof.
  pose proof (NextCommand_change (C := DB) (alerts := silent_alerts) (alert_law := silent_alerts_law) "https://yunling" "srv-1"
    sync_db (calm [] 0)) as H. unfold issued_db. destruct (NextCommand _ _ _) as [[d' o'] r]. destruct H as [_ [Hs _]].
  exact (proj1 (Hs sync_db_ok)).
Qed.

Lemma ready_iff_digest_witness :
  let '((d', _), r) := RecordResult (alerts := silent_alerts) "srv-1" ready_report (issued_db, calm [] 5) in
  r = Ok tt ∧ script_matches d' "srv-1" "ver-1".
Proof.
  assert (∃ v, script_versions issued_db !! "ver-1" = Some v ∧ sv_artifact_sha256 v = "abc123") as (v & Hv & Hsha)
    by (eexists; split; [vm_compute; reflexivity|reflexivity]).
  assert (ToLower (sv_artifact_sha256 v) = sv_artifact_sha256 v) as Hlow by (rewrite Hsha; reflexivity).
  pose proof (ready_iff_digest (C := DB) (alerts := silent_alerts) (alert_law := silent_alerts_law) "srv-1" ready_report issued_db v
    issued_db_ok Hv Hlow (calm [] 5)) as H.
  destruct (RecordResult _ _ _) as [[d' o'] r] eqn:E.
  assert (r = Ok tt) as Hr by (apply (f_equal snd) in E; cbn [snd] in E; rewrite <-E; vm_compute; reflexivity).
  split; [exact Hr|]. apply (H Hr). split; [reflexivity|]. rewrite Hsha. vm_compute. reflexivity.
Defined.

Lemma NextCommand_issues_witness :
  let '((d', _), r) := NextCommand (alerts := silent_alerts) "https://yunling" "srv-1" (sync_db, calm [] 0) in
  r = Ok (Some (mkSyncCommand "scr-1" "ver-1" "https://yunling/api/agent/scripts/ver-1/artifact" "abc123")) ∧
  (sy_status <$> script_syncs d' !! ("srv-1", "ver-1")) = Some SyncDownloading.
Proof.
  pose proof (NextCommand_issues (C := DB) (alerts := silent_alerts) "https://yunling" "srv-1" sync_db (calm [] 0)) as H.
  destruct (NextCommand _ _ _) as [[d' o'] r] eqn:E.
  assert (r = Ok (Some (mkSyncCommand "scr-1" "ver-1" "https://yunling/api/agent/scripts/ver-1/artifact" "abc123"))) as Hr
    by (apply (f_equal snd) in E; cbn [snd] in E; rewrite <-E; vm_compute; reflexivity).
  split; [exact Hr|]. destruct (H _ Hr) as (? & ? & ? & ? & _ & _ & Hs). exact Hs.
Defined.

Lemma exhausted_not_sent_witness :
  let '((d', _), r) := (for_each [SyncNext "srv-1"; SyncReport "srv-1" failed_report] (sync_perform (alerts := silent_alerts) "https://yunling") ;;!
                        NextCommand (alerts := silent_alerts) "https://yunling" "srv-1") (failing_run.1.1, calm [] (9999 * second)) in
  r = Ok None ∧ exhausted ("srv-1", "ver-1") d'.
Proof.
  assert (exhausted ("srv-1", "ver-1") (part (X := DB) (failing_run.1.1 : DB))) as He
    by (eexists; split; [vm_compute; reflexivity|split; reflexivity]).
  assert (Forall (λ op, restarts ("srv-1", "ver-1") op = false) [SyncNext "srv-1"; SyncReport "srv-1" failed_report]) as Hops
    by (apply Forall_cons_2; [reflexivity|apply Forall_cons_2; [reflexivity|apply Forall_nil_2]]).
  pose proof (exhausted_not_sent (C := DB) (alerts := silent_alerts) (alert_law := silent_alerts_law) "https://yunling"
    [SyncNext "srv-1"; SyncReport "srv-1" failed_report] "srv-1" "ver-1" failing_run.1.1 He Hops
    (calm [] (9999 * second))) as H.
  destruct (bind _ _ _) as [[d' o'] r] eqn:E. destruct H as [Hex _]. split; [|exact Hex].
  apply (f_equal snd) in E. cbn [snd] in E. rewrite <-E. vm_compute. reflexivity.
Defined.
