(* ===== verification/Artifacts.v ===== *)
(** * Artifacts

    [internal/agentprotocol/artifact.go]: which files of a run an agent may collect,
    and what makes a policy valid. *)

From S2P Require Import Prelude GoStd Model GoPath.

Definition MaxArtifactFileBytes : Z := 104857600.
Definition MaxArtifactTotalBytes : Z := 524288000.

(** [strings.ContainsAny] for a set of bytes. *)
Definition contains_any (set : list ascii) (s : string) : bool := existsb (λ c, contains_byte c s) set.

Definition byte_nul : ascii := Stdlib.Strings.Ascii.ascii_of_nat 0.
Definition byte_cr : ascii := Stdlib.Strings.Ascii.ascii_of_nat 13.
Definition byte_lf : ascii := Stdlib.Strings.Ascii.ascii_of_nat 10.

(** The checks on one pattern. *)
Definition pattern_valid (pattern : string) : bool :=
  negb (bool_decide (pattern = "") || (128 <? len pattern) || negb (bool_decide (pattern = TrimSpace pattern)) ||
        contains_any [slash; backslash_char; byte_nul; byte_cr; byte_lf] pattern || HasPrefix pattern ".") &&
  match Match pattern "probe.csv" with BadPattern => false | Matched _ => true end.

Definition policy_Validate (p : option ArtifactPolicy) : bool :=
  match p with
  | None => true
  | Some p =>
    if bool_decide (AllowedGlobs p = []) || bool_decide (20 < length (AllowedGlobs p))%nat || (MaxFileBytes p <=? 0) ||
       (MaxArtifactFileBytes <? MaxFileBytes p) || (MaxTotalBytes p <? MaxFileBytes p) ||
       (MaxArtifactTotalBytes <? MaxTotalBytes p)
    then false
    else forallb pattern_valid (AllowedGlobs p)
  end.

(** [unicode.IsControl]: the category Cc. *)
Definition IsControl (r : Z) : bool := ((0 <=? r) && (r <=? 31)) || ((127 <=? r) && (r <=? 159)).

Definition reserved_names : list string := ["systemd-run-spec.json"; "systemd-exit-code"; "stdout.log"; "stderr.log"].

Definition policy_Allows (p : option ArtifactPolicy) (name : string) : bool :=
  match p with
  | None => false
  | Some p =>
    if bool_decide (name = "") || (255 <? len name) || negb (ValidString name) || bool_decide (name = ".") ||
       bool_decide (name = "..") || HasPrefix name "." || contains_any [slash; backslash_char] name ||
       existsb IsControl (runes name)
    then false
    else if bool_decide (name ∈ reserved_names) then false
    else existsb (λ pattern, match Match pattern name with Matched b => b | BadPattern => false end) (AllowedGlobs p)
  end.

(** A name a policy allows is a plain element: joined to the directory of the run it
    stays in it, and it is none of the agent's own files. *)
Lemma policy_Allows_plain p name :
  policy_Allows p name = true → plain name ∧ HasPrefix name "." = false ∧ name ∉ reserved_names.
Proof.
  unfold policy_Allows. destruct p as [p|]; [|done]. destruct (_ || _) eqn:E; [done|].
  rewrite !orb_false_iff, !bool_decide_eq_false in E. destruct_and! E.
  case_bool_decide as Hr; [done|]. intros _. split_and!; [|done|done].
  split_and!; try done. unfold no_slash, contains_any in *. simpl in *.
  match goal with H : (_ || (_ || _)) = false |- _ => by apply orb_false_iff in H as [H _] end.
Qed.

Lemma policy_Validate_bounds p :
  policy_Validate (Some p) = true →
  0 < MaxFileBytes p ≤ MaxArtifactFileBytes ∧ MaxFileBytes p ≤ MaxTotalBytes p ≤ MaxArtifactTotalBytes ∧
  (0 < length (AllowedGlobs p) ≤ 20)%nat.
Proof.
  unfold policy_Validate. destruct (_ || _) eqn:E; [done|]. intros _.
  rewrite !orb_false_iff, !Z.leb_gt, !Z.ltb_ge, !bool_decide_eq_false in E. destruct_and! E.
  split_and!; try lia. destruct (AllowedGlobs p); [done|simpl; lia].
Qed.
