(* ===== verification/Json.v ===== *)
(** * Json

    [json.Marshal] for the values the platform marshals into an assignment: maps with
    string keys, in the order of their keys, and strings with the escapes of
    [encoding/json] (HTML characters included, invalid UTF-8 replaced). *)

From S2P Require Import Prelude GoStd Model GoPath.

Definition hex_lower (n : Z) : ascii := byte_char (if n <? 10 then 48 + n else 87 + n).

(** [\u00xx] *)
Definition json_u (r : Z) : string :=
  String backslash_char (String "u" (String (hex_lower (r / 4096)) (String (hex_lower (r / 256 mod 16))
    (String (hex_lower (r / 16 mod 16)) (String (hex_lower (r mod 16)) ""))))).

Definition json_quote : ascii := Stdlib.Strings.Ascii.ascii_of_nat 34.
Definition json_escape (c : ascii) : string := String backslash_char (String c "").

(** One rune of a string. *)
Definition json_rune (r : Z) : string :=
  if r =? 34 then json_escape json_quote
  else if r =? 92 then json_escape backslash_char
  else if r =? 8 then json_escape "b"
  else if r =? 12 then json_escape "f"
  else if r =? 10 then json_escape "n"
  else if r =? 13 then json_escape "r"
  else if r =? 9 then json_escape "t"
  else if (r <? 32) || (r =? 60) || (r =? 62) || (r =? 38) || (r =? 8232) || (r =? 8233) then json_u r
  else encode_rune r.

(** The runes of a string; an invalid byte is written as [\ufffd]. *)
Fixpoint json_runes (fuel : nat) (s : string) : string :=
  match fuel with
  | O => ""
  | S fuel =>
    match DecodeRune s with
    | None => ""
    | Some (r, n) =>
      (if (r =? RuneError) && (n =? 1)%nat then json_u RuneError else json_rune r) +:+ json_runes fuel (drop_bytes n s)
    end
  end.

Definition json_string (s : string) : string :=
  String json_quote (json_runes (String.length s) s) +:+ String json_quote "".

Definition key_less (a b : string * string) : bool := string_lt a.1 b.1.

(** An object from the texts of its fields. *)
Definition json_object (fields : list (string * string)) : string :=
  String "{" (String.concat "," ((λ f, json_string f.1 +:+ String ":" f.2) <$> stable_sort key_less fields)) +:+ "}".

Definition json_float (f : FloatValue) : string := match f with FFinite repr => repr | _ => "" end.

Definition json_int (z : Z) : string := if z <? 0 then String "-" (format_nonneg (- z)) else format_nonneg z.

(** A value that marshals; a finite float carries the text [encoding/json] gives it. *)
Fixpoint json_value (v : Value) : string :=
  match v with
  | VNil => "null"
  | VBool b => if b then "true" else "false"
  | VString s => json_string s
  | VFloat64 f | VFloat32 f => json_float f
  | VInteger z => json_int z
  | VJSONNumber repr _ => if bool_decide (repr = "") then "0" else repr
  | VArray items => String "[" (String.concat "," (List.map json_value items)) +:+ "]"
  | VObject fields => json_object (List.map (λ f, (f.1, json_value f.2)) fields)
  end.

Definition json_params (m : gmap string Value) : string := json_object ((λ p, (p.1, json_value p.2)) <$> map_to_list m).
Definition json_strings (m : gmap string string) : string := json_object ((λ p, (p.1, json_string p.2)) <$> map_to_list m).

Example json_example :
  json_strings {["b" := "x"; "a" := "<1>"]} =
  String "{" (json_string "a" +:+ ":" +:+ json_string "<1>" +:+ "," +:+ json_string "b" +:+ ":" +:+ json_string "x" +:+ "}").
Proof. vm_compute. reflexivity. Qed.
