(* ===== verification/ObjectStore.v ===== *)
(** * ObjectStore

    [internal/artifact]: the immutable, content-addressed script archives in a MinIO
    bucket.  The bucket is a part of the state: an object has a body and the digest its
    uploader recorded in the metadata.  The client's calls are remote actions;
    [PutObject] carries the condition [If-None-Match: *], under which the service creates
    the object only when there is none. *)

From S2P Require Import Prelude GoStd GoPath Model World Schema Session Sha256 SchedulerService.

Record Object : Type := mkObject { ob_body : string; ob_sha256 : string }.

Abbreviation Bucket := (gmap string Object).

(** ** minio.go *)

Definition sha256HexLength : Z := 64.

Definition hex_digit (c : ascii) : bool :=
  let x := byte_of c in
  ((48 <=? x) && (x <=? 57)) || ((97 <=? x) && (x <=? 102)) || ((65 <=? x) && (x <=? 70)).

(** [hex.DecodeString] accepts pairs of hexadecimal digits. *)
Definition validSHA256 (value : string) : bool := (len value =? sha256HexLength) && forallb hex_digit (chars value).

Definition validObjectKey (key : string) : bool :=
  let cleaned := Clean key in
  negb (bool_decide (key = "")) && bool_decide (cleaned = key) && negb (bool_decide (cleaned = ".")) &&
  negb (HasPrefix cleaned "/") && negb (HasPrefix cleaned "../") && negb (contains_byte backslash_char cleaned).

(** The metadata has at most one entry for the digest. *)
Definition verifyObject (info : Object) (size : Z) (checksum : string) : bool :=
  (len (ob_body info) =? size) && EqualFold (ob_sha256 info) checksum.

Section store.
Context {C : Type} `{!Has Bucket C}.

Definition StatObject (context key : string) : Prog C (option Object) :=
  observe context (λ c, (part c : Bucket) !! key).

(** [true] when the object was created, [false] for [PreconditionFailed]. *)
Definition PutObject (key : string) (object : Object) : Prog C bool :=
  remote "上传脚本对象" (λ c,
    match (part c : Bucket) !! key with
    | Some _ => Some (c, false)
    | None => Some (set_part (<[key := object]> (part c : Bucket)) c, true)
    end).

Definition verified (info : Object) (size : Z) (checksum : string) : Prog C unit :=
  if verifyObject info size checksum then ret tt else throw ErrObjectConflict.

Definition Put (key body : string) (size : Z) (checksum : string) : Prog C unit :=
  if negb (validObjectKey key) || (size <? 0) || negb (validSHA256 checksum) then throw (EOther "脚本对象参数无效")
  else
    let! info := StatObject "检查脚本对象" key in
    match info with
    | Some object => verified object size checksum
    | None =>
      PutObject key (mkObject body checksum) ;;!
      let! info := StatObject "校验脚本对象" key in
      match info with
      | Some object => verified object size checksum
      | None => throw (EStorage "校验脚本对象")
      end
    end.

Definition Open (key : string) : Prog C string :=
  if negb (validObjectKey key) then throw (EOther "脚本对象键无效")
  else
    let! info := StatObject "检查脚本对象" key in
    match info with
    | None => throw ErrObjectMissing
    | Some _ =>
      let! object := observe "打开脚本对象" (λ c, (part c : Bucket) !! key) in
      match object with Some object => ret (ob_body object) | None => throw (EStorage "打开脚本对象") end
    end.

(** ** Objects are never changed *)

Lemma wp_Put key body size checksum (c : C) (Q : Result unit → C → Prop) :
  (∀ e, Q (Err e) c) →
  ((part c : Bucket) !! key = None → ∀ e, Q (Err e) (set_part (<[key := mkObject body checksum]> (part c : Bucket)) c)) →
  (∀ object c', verifyObject object size checksum = true → (part c' : Bucket) !! key = Some object → validObjectKey key = true →
     c' = c ∨ ((part c : Bucket) !! key = None ∧ object = mkObject body checksum ∧
               c' = set_part (<[key := object]> (part c : Bucket)) c) → Q (Ok tt) c') →
  wp (Put key body size checksum) c Q.
Proof.
  intros He Hn Hok. unfold Put. destruct (_ || _) eqn:Eg; [apply wp_throw, He|].
  assert (validObjectKey key = true) as Hkey.
  { apply orb_false_iff in Eg as [Eg _]. apply orb_false_iff in Eg as [Eg _]. by apply negb_false_iff in Eg. }
  apply wp_bind, wp_observe; [apply He|]. unfold verified.
  destruct ((part c : Bucket) !! key) as [object|] eqn:Eo.
  - destruct (verifyObject _ _ _) eqn:Ev; [apply wp_ret, (Hok object)|apply wp_throw, He]; auto.
  - apply wp_bind, wp_remote; [apply He|]. rewrite Eo. intros c' b [= <- <-]. split; [|by apply Hn].
    apply wp_bind, wp_observe; [by apply Hn|]. rewrite part_set, lookup_insert_eq.
    destruct (verifyObject _ _ _) eqn:Ev; [|apply wp_throw; by apply Hn]. apply wp_ret. eapply Hok; [exact Ev|..].
    + by rewrite part_set, lookup_insert_eq.
    + done.
    + right. done.
Qed.

End store.
