(* ===== verification/ScriptService.v ===== *)
(** * ScriptService

    [internal/script/service.go]: scripts, their drafts, the publication of versions as
    content-addressed archives, and the rollback to an earlier version.

    An archive is what [archive/tar] and [compress/gzip] write; a manifest in it is what
    [encoding/json] writes.  The code relies on reading back what was written, which
    [ArchiveFormat] and [ManifestJSON] state. *)

From S2P Require Import Prelude GoStd GoPath Model World Schema Session SchedulerService TaskService Sha256 ScriptSync Artifacts ObjectStore.

Definition MaxScriptBytes : Z := 1048576.

(** ** The inputs and the views *)

Record ScriptCreateInput : Type := mkScriptCreateInput {
  sci_Name : string; sci_Description : string; sci_Runtime : string; sci_Entrypoint : string; sci_Category : string;
  sci_Tags : list string; sci_Content : string; sci_AuthorID : string
}.

Record DraftInput : Type := mkDraftInput {
  din_Artifacts : option ArtifactPolicy; din_ScriptID : string; din_Content : string; din_Runtime : string;
  din_Entrypoint : string; din_Category : string; din_Tags : list string; din_Distribution : DistributionRule;
  din_ParameterDefinitions : list ParameterDefinition; din_Resources : Resources; din_AuthorID : string
}.

Record PublishInput : Type := mkPublishInput {
  pin_Artifacts : option ArtifactPolicy; pin_ScriptID : string; pin_Content : string; pin_Runtime : string;
  pin_Entrypoint : string; pin_Category : string; pin_Tags : list string; pin_ReleaseNotes : string;
  pin_Distribution : DistributionRule; pin_ParameterDefinitions : list ParameterDefinition; pin_Resources : Resources;
  pin_AuthorID : string
}.

Record RollbackInput : Type := mkRollbackInput {
  rin_ScriptID : string; rin_VersionID : string; rin_ReleaseNotes : string; rin_AuthorID : string
}.

Record Script : Type := mkScript {
  scv_ID : string; scv_Name : string; scv_Description : string; scv_Runtime : string; scv_Category : string;
  scv_Tags : list string; scv_CurrentVersionID : string; scv_CurrentVersion : Z; scv_DraftUpdatedAt : option Time;
  scv_CreatedAt : Time; scv_UpdatedAt : Time
}.

Record Version : Type := mkVersion {
  ver_ID : string; ver_ScriptID : string; ver_Number : Z; ver_ArtifactURI : string; ver_ArtifactSHA256 : string;
  ver_Entrypoint : string; ver_Manifest : Manifest; ver_ReleaseNotes : string; ver_CreatedBy : string; ver_CreatedAt : Time
}.

Record Draft : Type := mkDraft {
  dft_ScriptID : string; dft_BaseVersionID : string; dft_Content : string; dft_Manifest : Manifest; dft_UpdatedAt : Time
}.

Record Detail : Type := mkDetail { dt_Script : Script; dt_Draft : Draft; dt_Versions : list Version }.

(** ** Normalisation and validation *)

Definition normalizeRuntime (runtime : string) : string := ToLower (TrimSpace runtime).

Definition validRuntime (runtime : string) : bool := bool_decide (runtime ∈ ["bash"; "python3"; "node"; "powershell"]).

Definition defaultEntrypoint (runtime : string) : string :=
  if bool_decide (runtime = "python3") then "main.py"
  else if bool_decide (runtime = "node") then "main.js"
  else if bool_decide (runtime = "powershell") then "main.ps1"
  else "main.sh".

Definition validEntrypoint (entrypoint : string) : bool :=
  let cleaned := Clean entrypoint in
  negb (bool_decide (entrypoint = "")) && bool_decide (cleaned = entrypoint) && negb (bool_decide (cleaned = ".")) &&
  negb (bool_decide (cleaned = "..")) && negb (HasPrefix cleaned "/") && negb (HasPrefix cleaned "../") &&
  negb (contains_byte backslash_char cleaned).

Definition normalizeDistribution (rule : DistributionRule) : DistributionRule :=
  mkDistributionRule (dn_Mode rule) (TrimSpace (dn_ServerGroupID rule)) (dn_Labels rule).

Definition validateDistribution (rule : DistributionRule) : bool :=
  let mode := dn_Mode rule in
  if bool_decide (mode = DistributionAllCompatible) || bool_decide (mode = DistributionOnDemand) then true
  else if bool_decide (mode = DistributionServerGroup) then negb (bool_decide (dn_ServerGroupID rule = ""))
  else if bool_decide (mode = DistributionLabels)
  then negb (bool_decide (dn_Labels rule = ∅)) && forallb (λ key, negb (bool_decide (TrimSpace key = ""))) (map_to_list (dn_Labels rule)).*1
  else false.

(** The loop with its map of tags seen. *)
Fixpoint normalize_tags (seen : gset string) (tags : list string) : list string :=
  match tags with
  | [] => []
  | tag :: rest =>
    let tag := TrimSpace tag in
    if negb (bool_decide (tag = "")) && negb (bool_decide (tag ∈ seen)) then tag :: normalize_tags ({[tag]} ∪ seen) rest
    else normalize_tags seen rest
  end.

Definition normalizeTags (tags : list string) : list string := normalize_tags ∅ tags.

Fixpoint normalize_parameters (seen : gset string) (definitions : list ParameterDefinition) : Result (list ParameterDefinition) :=
  match definitions with
  | [] => Ok []
  | definition :: rest =>
    let name := TrimSpace (pd_Name definition) in
    if bool_decide (name = "") || bool_decide (name ∈ seen) || contains_any [byte_nul; byte_cr; byte_lf] name
    then Err ErrInvalidScriptParameters
    else if negb (bool_decide (pd_Type definition ∈ ["string"; "number"; "boolean"])) then Err ErrInvalidScriptParameters
    else
      match normalize_parameters ({[name]} ∪ seen) rest with
      | Ok parameters =>
        Ok (mkParameterDefinition name (pd_Type definition) (pd_Required definition) (TrimSpace (pd_Description definition)) :: parameters)
      | Err e => Err e
      end
  end.

Definition normalizeParameters (definitions : list ParameterDefinition) : Result (list ParameterDefinition) :=
  normalize_parameters ∅ definitions.

Definition uncategorized : string := "未分类".

Definition withResourceDefaults (m : Manifest) : Manifest :=
  m <| mf_Distribution := normalizeDistribution (mf_Distribution m) |>
    <| mf_Resources := let r := mf_Resources m in
         mkResources (if CPUMillicores r <=? 0 then 100 else CPUMillicores r)
           (if MemoryBytes r <=? 0 then 134217728 else MemoryBytes r) (if DiskBytes r <=? 0 then 134217728 else DiskBytes r) |>
    <| mf_Tags := normalizeTags (mf_Tags m) |>
    <| mf_Category := if bool_decide (TrimSpace (mf_Category m) = "") then uncategorized else mf_Category m |>.

(** ** Archives *)

Record ArchiveFile : Type := mkArchiveFile { fl_name : string; fl_mode : Z; fl_body : string }.

(** A manifest whose texts are UTF-8: [encoding/json] replaces the bytes of any other. *)
Definition manifest_text (m : Manifest) : bool :=
  forallb ValidString ([mf_Runtime m; mf_Entrypoint m; mf_Category m] ++ mf_Tags m ++
    [dn_Mode (mf_Distribution m); dn_ServerGroupID (mf_Distribution m)] ++
    (map_to_list (dn_Labels (mf_Distribution m))).*1 ++ (map_to_list (dn_Labels (mf_Distribution m))).*2 ++
    mbind (λ p, [pd_Name p; pd_Type p; pd_Description p]) (mf_ParameterDefinitions m) ++
    match mf_Artifacts m with Some policy => AllowedGlobs policy | None => [] end).

Definition zero_manifest : Manifest :=
  mkManifest None "" "" "" [] (mkDistributionRule "" "" ∅) [] (mkResources 0 0 0).

(** [json.Marshal] of a manifest and [json.Unmarshal] onto one. *)
Class ManifestJSON : Type := {
  marshal : Manifest → string;
  unmarshal : string → Manifest → option Manifest;
  unmarshal_marshal : ∀ m, manifest_text m = true → unmarshal (marshal m) zero_manifest = Some m
}.

(** [write_archive] fails on a header the format cannot represent.  [read_archive] gives
    the files before the end of the stream or an error in it, and whether the end was
    reached; [None] when there is no gzip header. *)
Class ArchiveFormat : Type := {
  write_archive : list ArchiveFile → option string;
  read_archive : string → option (list ArchiveFile * bool);
  read_written : ∀ files bytes, write_archive files = Some bytes → read_archive bytes = Some (files, true)
}.

Section archives.
Context `{json : !ManifestJSON, format : !ArchiveFormat}.

Definition manifest_name : string := "manifest.json".

Definition buildArchive (content : string) (m : Manifest) : Result string :=
  match write_archive [mkArchiveFile (mf_Entrypoint m) 488 content; mkArchiveFile manifest_name 416 (marshal m)] with
  | Some bytes => Ok bytes
  | None => Err (EOther "写入脚本包头")
  end.

(** The loop over the files: the switch takes the entrypoint first. *)
Fixpoint read_files (entrypoint : string) (files : list ArchiveFile) (content : string) (m : Manifest) : Result (string * Manifest) :=
  match files with
  | [] => Ok (content, m)
  | file :: rest =>
    if MaxScriptBytes <? len (fl_body file) then Err ErrScriptContentTooLarge
    else if bool_decide (fl_name file = entrypoint) then read_files entrypoint rest (fl_body file) m
    else if bool_decide (fl_name file = manifest_name)
    then match unmarshal (fl_body file) m with
         | Some m => read_files entrypoint rest content m
         | None => Err (EOther "解析脚本包清单")
         end
    else read_files entrypoint rest content m
  end.

Definition readArchive (bytes entrypoint : string) : Result (string * Manifest) :=
  match read_archive bytes with
  | None => Err (EOther "解压脚本包")
  | Some (files, ended) =>
    match read_files entrypoint files "" zero_manifest with
    | Err e => Err e
    | Ok (content, m) =>
      if negb ended then Err (EOther "读取脚本包")
      else if bool_decide (content = "") || negb (bool_decide (mf_Entrypoint m = entrypoint)) then Err (EOther "脚本包内容不完整")
      else Ok (content, m)
    end
  end.

End archives.

(** [hex.EncodeToString(digest[:])] *)
Definition digest_hex (bytes : string) : string := format_hex (byte_of <$> chars (Sum256 bytes)).

Definition object_key (scriptID digest : string) : string := "scripts/" +:+ scriptID +:+ "/" +:+ digest +:+ ".tar.gz".

(** [io.ReadAll(io.LimitReader(body, limit))] *)
Definition read_limited (limit : Z) (body : string) : string :=
  if len body <=? limit then body else String.substring 0 (Z.to_nat limit) body.

(** ** The statements *)

Definition known_author (d : DB) (author : option string) : bool :=
  match author with None => true | Some user => bool_decide (user ∈ users d) end.

Definition script_name_used (name : string) (d : DB) : bool :=
  existsb (λ p, bool_decide (sc_name p.2 = name)) (map_to_list (scripts d)).

Definition insert_script (id : string) (row : ScriptRow) (d : DB) : option DB :=
  if bool_decide (is_Some (scripts d !! id)) || script_name_used (sc_name row) d || negb (known_author d (sc_created_by row))
  then None
  else Some (d <| scripts ::= <[id := row]> |>).

Definition insert_draft (scriptID : string) (row : DraftRow) (d : DB) : option DB :=
  if bool_decide (is_Some (script_drafts d !! scriptID)) || negb (known_author d (sd_updated_by row)) then None
  else Some (d <| script_drafts ::= <[scriptID := row]> |>).

(** [INSERT ... ON CONFLICT (script_id) DO UPDATE]: an existing row keeps its creation
    time, and its base version when [base] is [None]. *)
Definition upsert_draft (scriptID : string) (base : option string) (content : string) (m : Manifest) (author : option string)
    (at_ : Time) (d : DB) : option (DB * DraftRow) :=
  if negb (known_author d author) then None
  else
    let row :=
      match script_drafts d !! scriptID with
      | Some old => mkDraftRow (match base with Some _ => base | None => sd_base_version_id old end) content m author (sd_created_at old) at_
      | None => mkDraftRow base content m author at_ at_
      end in
    Some (d <| script_drafts ::= <[scriptID := row]> |>, row).

Definition touch_script (scriptID runtime : string) (at_ : Time) (d : DB) : DB :=
  d <| scripts ::= alter (λ s, s <| sc_runtime := runtime |> <| sc_updated_at := at_ |>) scriptID |>.

(** [COALESCE(MAX(version), 0) + 1] *)
Definition next_version (scriptID : string) (d : DB) : Z :=
  foldr Z.max 0 (sv_version <$> (filter (λ p, sv_script_id p.2 = scriptID) (map_to_list (script_versions d))).*2) + 1.

(** The keys, the unique number, the type and the check of the digest. *)
Definition insert_version (id : string) (row : VersionRow) (d : DB) : option DB :=
  if bool_decide (is_Some (script_versions d !! id)) || negb (known_author d (sv_created_by row)) ||
     (2147483647 <? sv_version row) || negb (len (sv_artifact_sha256 row) =? 64) ||
     existsb (λ p, bool_decide (sv_script_id p.2 = sv_script_id row) && (sv_version p.2 =? sv_version row)) (map_to_list (script_versions d))
  then None
  else Some (d <| script_versions ::= <[id := row]> |>).

Definition version_of (id : string) (row : VersionRow) : Version :=
  mkVersion id (sv_script_id row) (sv_version row) (sv_artifact_uri row) (sv_artifact_sha256 row) (sv_entrypoint row)
    (sv_manifest row) (sv_release_notes row) (default "" (sv_created_by row)) (sv_created_at row).

Definition draft_of (scriptID : string) (row : DraftRow) : Draft :=
  mkDraft scriptID (default "" (sd_base_version_id row)) (sd_content row) (sd_manifest row) (sd_updated_at row).

(** [scriptSelect] and [scanScript] *)
Definition scanScript (d : DB) (id : string) (row : ScriptRow) : Script :=
  let draft := script_drafts d !! id in
  let latest := latest_version id d in
  mkScript id (sc_name row) (sc_description row) (sc_runtime row)
    (match draft with
     | Some r => if bool_decide (mf_Category (sd_manifest r) = "") then uncategorized else mf_Category (sd_manifest r)
     | None => uncategorized
     end)
    (match draft with Some r => mf_Tags (sd_manifest r) | None => [] end)
    (match latest with Some p => p.1 | None => "" end) (match latest with Some p => sv_version p.2 | None => 0 end)
    (sd_updated_at <$> draft) (sc_created_at row) (sc_updated_at row).

Section service.
Context {C : Type} `{!Has DB C, !Has Bucket C, json : !ManifestJSON, format : !ArchiveFormat} (is_han : Z → bool).

(** [unicode.Han] is [is_han]. *)
Definition containsHan (value : string) : bool := existsb is_han (runes value).

Definition Service_List : Prog C (list Script) :=
  pool_query "读取脚本列表" (λ d, (λ p, scanScript d p.1 p.2) <$>
    stable_sort (λ a b, (sc_updated_at b.2 <? sc_updated_at a.2) ||
      ((sc_updated_at a.2 =? sc_updated_at b.2) && string_lt (sc_name a.2) (sc_name b.2))) (map_to_list (scripts d))).

Definition versions_of (scriptID : string) (d : DB) : list Version :=
  (λ p, version_of p.1 p.2) <$> stable_sort (λ a b, sv_version b.2 <? sv_version a.2)
    (filter (λ p, sv_script_id p.2 = scriptID) (map_to_list (script_versions d))).

Definition ListVersions (scriptID : string) : Prog C (list Version) := pool_query "" (versions_of scriptID).

Definition Service_Get (id : string) : Prog C Detail :=
  let! item := pool_query "读取脚本" (λ d, scanScript d id <$> scripts d !! id) in
  match item with
  | None => throw ErrScriptNotFound
  | Some item =>
    let! draft := pool_query "读取脚本草稿" (λ d, draft_of id <$> script_drafts d !! id) in
    match draft with
    | None => throw ErrScriptNotFound
    | Some draft => let! versions := ListVersions id in ret (mkDetail item draft versions)
    end
  end.

Definition Service_Create (input : ScriptCreateInput) : Prog C Script :=
  let name := TrimSpace (sci_Name input) in
  let description := TrimSpace (sci_Description input) in
  let runtime := normalizeRuntime (sci_Runtime input) in
  let entrypoint := TrimSpace (sci_Entrypoint input) in
  let entrypoint := if bool_decide (entrypoint = "") then defaultEntrypoint runtime else entrypoint in
  if bool_decide (name = "") || negb (validRuntime runtime) || negb (validEntrypoint entrypoint) ||
     (MaxScriptBytes <? len (sci_Content input))
  then throw ErrInvalidScript
  else
    let m := withResourceDefaults (mkManifest None runtime entrypoint (TrimSpace (sci_Category input)) (normalizeTags (sci_Tags input))
               (mkDistributionRule DistributionOnDemand "" ∅) [] (mkResources 0 0 0)) in
    transaction "" (
      let author := nullableUUID (sci_AuthorID input) in
      let! now := clock_now in
      let! id := new_uuid in
      exec "创建脚本" (insert_script id (mkScriptRow name description runtime author now now)) ;;!
      let! at_ := clock_now in
      exec "创建脚本草稿" (insert_draft id (mkDraftRow None (sci_Content input) m author at_ at_)) ;;!
      insertAudit ;;!
      commit "" ;;!
      ret (mkScript id name description runtime "" [] "" 0 (Some at_) now now)).

(** The guard of the code: anything but a known script is an error. *)
Definition lock_script (scriptID : string) : Tx C unit :=
  let! known := query "" (λ d, bool_decide (is_Some (scripts d !! scriptID))) in
  if negb known then throw ErrScriptNotFound else ret tt.

Definition SaveDraft (input : DraftInput) : Prog C Draft :=
  if negb (policy_Validate (din_Artifacts input)) then throw ErrInvalidArtifacts
  else
    match normalizeParameters (din_ParameterDefinitions input) with
    | Err e => throw e
    | Ok parameters =>
      let m := withResourceDefaults (mkManifest (din_Artifacts input) (normalizeRuntime (din_Runtime input))
                 (TrimSpace (din_Entrypoint input)) (TrimSpace (din_Category input)) (normalizeTags (din_Tags input))
                 (normalizeDistribution (din_Distribution input)) parameters (din_Resources input)) in
      if bool_decide (TrimSpace (din_ScriptID input) = "") || (len (din_Content input) =? 0) ||
         (MaxScriptBytes <? len (din_Content input)) || negb (validRuntime (mf_Runtime m)) ||
         negb (validEntrypoint (mf_Entrypoint m)) || negb (validateDistribution (mf_Distribution m))
      then throw ErrInvalidDraft
      else
        transaction "" (
          lock_script (din_ScriptID input) ;;!
          let! now := clock_now in
          let! row := stmt "保存脚本草稿" (upsert_draft (din_ScriptID input) None (din_Content input) m (nullableUUID (din_AuthorID input)) now) in
          let! at_ := clock_now in
          exec "更新脚本运行环境" (λ d, Some (touch_script (din_ScriptID input) (mf_Runtime m) at_ d)) ;;!
          commit "" ;;!
          ret (draft_of (din_ScriptID input) row))
    end.

(** What [publish] accepts, and the manifest it makes of it. *)
Definition publish_manifest (input : PublishInput) (parameters : list ParameterDefinition) : Manifest :=
  withResourceDefaults (mkManifest (pin_Artifacts input) (normalizeRuntime (pin_Runtime input)) (TrimSpace (pin_Entrypoint input))
    (TrimSpace (pin_Category input)) (normalizeTags (pin_Tags input)) (normalizeDistribution (pin_Distribution input))
    parameters (pin_Resources input)).

Definition check_publish (input : PublishInput) : Result Manifest :=
  let scriptID := TrimSpace (pin_ScriptID input) in
  let runtime := normalizeRuntime (pin_Runtime input) in
  let entrypoint := TrimSpace (pin_Entrypoint input) in
  if negb (policy_Validate (pin_Artifacts input)) then Err ErrInvalidArtifacts
  else if bool_decide (scriptID = "") || (len (pin_Content input) =? 0) || bool_decide (entrypoint = "") ||
          negb (validRuntime runtime) || negb (validEntrypoint entrypoint)
  then Err ErrInvalidPublish
  else if MaxScriptBytes <? len (pin_Content input) then Err ErrScriptContentTooLarge
  else if negb (containsHan (TrimSpace (pin_ReleaseNotes input))) then Err ErrInvalidReleaseNotes
  else if negb (validateDistribution (normalizeDistribution (pin_Distribution input))) then Err ErrInvalidDistribution
  else
    match normalizeParameters (pin_ParameterDefinitions input) with
    | Err e => Err e
    | Ok parameters => Ok (publish_manifest input parameters)
    end.

(** The transaction, once the archive is stored. *)
Definition record_version (input : PublishInput) (m : Manifest) (digest : string) : Prog C Version :=
  let scriptID := TrimSpace (pin_ScriptID input) in
  let author := nullableUUID (pin_AuthorID input) in
  transaction "" (
    lock_script scriptID ;;!
    let! now := clock_now in
    let! id := new_uuid in
    let! row := stmt "创建脚本版本" (λ d,
      let row := mkVersionRow scriptID (next_version scriptID d) (object_key scriptID digest) digest (mf_Entrypoint m) m
                   (TrimSpace (pin_ReleaseNotes input)) author now in
      (λ d', (d', row)) <$> insert_version id row d) in
    let! draft_at := clock_now in
    stmt "更新发布后的草稿" (upsert_draft scriptID (Some id) (pin_Content input) m author draft_at) ;;!
    let! at_ := clock_now in
    exec "更新脚本" (λ d, Some (touch_script scriptID (mf_Runtime m) at_ d)) ;;!
    insertAudit ;;!
    commit "" ;;!
    ret (version_of id row)).

Definition publish (input : PublishInput) : Prog C Version :=
  match check_publish input with
  | Err e => throw e
  | Ok m =>
    match buildArchive (pin_Content input) m with
    | Err e => throw e
    | Ok archive =>
      let digest := digest_hex archive in
      Put (object_key (TrimSpace (pin_ScriptID input)) digest) archive (len archive) digest ;;!
      record_version input m digest
    end
  end.

Definition Service_Publish (input : PublishInput) : Prog C Version := publish input.

(** The archive of a version, checked against its digest; [mismatch] is the error. *)
Definition read_version (uri digest entrypoint mismatch : string) : Prog C (string * Manifest) :=
  let! body := Open uri in
  let archive := read_limited (MaxScriptBytes * 2 + 1) body in
  if negb (bool_decide (digest_hex archive = digest)) then throw (EOther mismatch)
  else match readArchive archive entrypoint with Ok result => ret result | Err e => throw e end.

Definition find_version (scriptID versionID : string) (d : DB) : option VersionRow :=
  match script_versions d !! versionID with
  | Some row => if bool_decide (sv_script_id row = scriptID) then Some row else None
  | None => None
  end.

Definition VersionContent (scriptID versionID : string) : Prog C string :=
  let! found := pool_query "读取脚本版本" (find_version scriptID versionID) in
  match found with
  | None => throw ErrVersionNotFound
  | Some row =>
    let! result := read_version (sv_artifact_uri row) (sv_artifact_sha256 row) (sv_entrypoint row) "脚本包校验失败" in
    ret result.1
  end.

Definition rollback_input (input : RollbackInput) (content : string) (m : Manifest) : PublishInput :=
  mkPublishInput (mf_Artifacts m) (rin_ScriptID input) content (mf_Runtime m) (mf_Entrypoint m) (mf_Category m) (mf_Tags m)
    (rin_ReleaseNotes input) (mf_Distribution m) (mf_ParameterDefinitions m) (mf_Resources m) (rin_AuthorID input).

Definition Rollback (input : RollbackInput) : Prog C Version :=
  let! found := pool_query "读取回滚版本" (find_version (rin_ScriptID input) (rin_VersionID input)) in
  match found with
  | None => throw ErrVersionNotFound
  | Some row =>
    let! result := read_version (sv_artifact_uri row) (sv_artifact_sha256 row) (sv_entrypoint row) "历史脚本包校验失败" in
    publish (rollback_input input result.1 result.2)
  end.

(** ** artifact_provider.go *)

Definition open_target (serverID versionID : string) (d : DB) : option (string * string) :=
  match script_versions d !! versionID, script_syncs d !! (serverID, versionID) with
  | Some version, Some sync =>
    if bool_decide (sy_status sync = SyncDownloading) then Some (sv_artifact_uri version, sv_artifact_sha256 version) else None
  | _, _ => None
  end.

(** The archive for an agent: only while it is downloading the version. *)
Definition OpenVersionArtifact (serverID versionID : string) : Prog C (string * string) :=
  let! target := pool_query "读取脚本包元数据" (open_target serverID versionID) in
  match target with
  | None => throw ErrVersionNotFound
  | Some (objectKey, checksum) => let! body := Open objectKey in ret (body, checksum)
  end.

End service.
