(* ===== verification/ScriptLibrary.v ===== *)
(** * ScriptLibrary

    What the script service guarantees: its tables and the bucket of archives together.

    - [library_ok] is the invariant of the library, kept by every operation.
    - [published] is the effect of a publication on the tables; [stored_version] says that
      a version can be read back, and is what a publication establishes unless two
      different archives have the same SHA-256 digest.
    - [Rollback] publishes the archive of the earlier version again. *)

From S2P Require Import Prelude GoStd GoPath Model World Schema Session SchedulerService TaskService Sha256 ScriptSync Artifacts ObjectStore ScriptService.

(** ** Digests in hexadecimal *)

Lemma fold_case_ascii a r : byte_of a < 128 → fold_case (String a r) = String (lower_byte a) (fold_case r).
Proof.
  intros Ha. assert ((byte_of a =? 197) = false ∧ (byte_of a =? 226) = false) as [E1 E2] by lia.
  destruct r as [|b [|c r]]; [done| |]; cbn -[byte_of lower_byte]; by rewrite E1, ?E2.
Qed.

Lemma hex_char_plain v : 0 ≤ v < 16 → byte_of (hex_char v) < 128 ∧ lower_byte (hex_char v) = hex_char v.
Proof.
  intros Hv. rewrite <-(Z2Nat.id v) by lia. assert (Z.to_nat v < 16)%nat as Hn by lia. revert Hn. generalize (Z.to_nat v).
  intros n Hn. do 16 (destruct n as [|n]; [by vm_compute|]). lia.
Qed.

Lemma byte_of_bounds a : 0 ≤ byte_of a < 256.
Proof. unfold byte_of. pose proof (Stdlib.Strings.Ascii.N_ascii_bounded a). lia. Qed.

Lemma fold_case_hex (bytes : list Z) : Forall (λ b, 0 ≤ b < 256) bytes → fold_case (format_hex bytes) = format_hex bytes.
Proof.
  induction 1 as [|b rest Hb _ IH]; [done|]. cbn [format_hex].
  assert (0 ≤ Z.shiftr b 4 < 16) as H1.
  { rewrite Z.shiftr_div_pow2 by lia. change (2 ^ 4) with 16. split; [apply Z.div_pos; lia|apply Z.div_lt_upper_bound; lia]. }
  assert (0 ≤ Z.land b 15 < 16) as H2.
  { change 15 with (Z.ones 4). rewrite Z.land_ones by lia. apply Z.mod_pos_bound. lia. }
  destruct (hex_char_plain _ H1) as [A1 B1], (hex_char_plain _ H2) as [A2 B2].
  by rewrite !fold_case_ascii, B1, B2, IH by done.
Qed.

Lemma fold_case_digest bytes : fold_case (digest_hex bytes) = digest_hex bytes.
Proof. apply fold_case_hex, Forall_fmap, Forall_forall. intros a _. apply byte_of_bounds. Qed.

Lemma digest_hex_length bytes : len (digest_hex bytes) = 64.
Proof.
  assert (∀ l, String.length (format_hex l) = 2 * length l)%nat as H.
  { intros l. induction l as [|b l IH]; [done|]. cbn [format_hex length String.length]. lia. }
  unfold len, digest_hex. rewrite H, length_fmap.
  assert (∀ s, length (chars s) = String.length s) as Hc by (intros s; induction s; simpl; congruence).
  by rewrite Hc, Sum256_length.
Qed.

(** ** Normal manifests *)

Lemma normalize_tags_idemp seen tags : normalize_tags seen (normalize_tags seen tags) = normalize_tags seen tags.
Proof.
  revert seen. induction tags as [|tag tags IH]; intros seen; [done|]. simpl. case_match eqn:E; [|by apply IH].
  simpl. rewrite TrimSpace_idemp, E. by f_equal.
Qed.

Lemma normalize_parameters_idemp seen definitions parameters :
  normalize_parameters seen definitions = Ok parameters → normalize_parameters seen parameters = Ok parameters.
Proof.
  revert seen parameters. induction definitions as [|p rest IH]; intros seen parameters; [by intros [= <-]|].
  cbn [normalize_parameters]. destruct (_ || _) eqn:E1; [done|]. destruct (negb _) eqn:E2; [done|].
  destruct (normalize_parameters _ rest) as [ps|] eqn:Er; [|done]. intros [= <-]. cbn [normalize_parameters pd_Name pd_Type pd_Required pd_Description].
  by rewrite !TrimSpace_idemp, E1, E2, (IH _ _ Er).
Qed.

Lemma normalizeDistribution_idemp rule : normalizeDistribution (normalizeDistribution rule) = normalizeDistribution rule.
Proof. unfold normalizeDistribution. simpl. by rewrite TrimSpace_idemp. Qed.

Lemma validRuntime_normal runtime : validRuntime runtime = true → normalizeRuntime runtime = runtime.
Proof.
  unfold validRuntime. rewrite bool_decide_eq_true. intros H. repeat (apply elem_of_cons in H as [->|H]; [by vm_compute|]).
  by apply elem_of_nil in H.
Qed.

Lemma withResourceDefaults_idemp m : withResourceDefaults (withResourceDefaults m) = withResourceDefaults m.
Proof.
  destruct m as [a rt e cat tags dist ps [cpu mem disk]]. unfold withResourceDefaults. simpl. f_equal.
  - destruct (bool_decide (TrimSpace cat = "")) eqn:E; [by vm_compute|]. by rewrite E.
  - apply normalize_tags_idemp.
  - apply normalizeDistribution_idemp.
  - by destruct (cpu <=? 0) eqn:E1, (mem <=? 0) eqn:E2, (disk <=? 0) eqn:E3; rewrite ?E1, ?E2, ?E3.
Qed.

Lemma category_normal category :
  let kept := if bool_decide (TrimSpace (TrimSpace category) = "") then uncategorized else TrimSpace category in TrimSpace kept = kept.
Proof. simpl. case_bool_decide; [by vm_compute|apply TrimSpace_idemp]. Qed.

Section archives.
Context `{json : !ManifestJSON, format : !ArchiveFormat} (is_han : Z → bool).

(** What [publish] accepts. *)
Record accepted (input : PublishInput) (m : Manifest) : Prop := {
  ac_artifacts : policy_Validate (pin_Artifacts input) = true;
  ac_script : TrimSpace (pin_ScriptID input) ≠ "";
  ac_content : 0 < len (pin_Content input) ≤ MaxScriptBytes;
  ac_runtime : validRuntime (normalizeRuntime (pin_Runtime input)) = true;
  ac_entrypoint : validEntrypoint (TrimSpace (pin_Entrypoint input)) = true;
  ac_notes : containsHan is_han (TrimSpace (pin_ReleaseNotes input)) = true;
  ac_distribution : validateDistribution (normalizeDistribution (pin_Distribution input)) = true;
  ac_manifest : ∃ parameters, normalizeParameters (pin_ParameterDefinitions input) = Ok parameters ∧ m = publish_manifest input parameters
}.

Lemma validEntrypoint_nonempty entrypoint : validEntrypoint entrypoint = true → entrypoint ≠ "".
Proof. unfold validEntrypoint. intros H ->. by vm_compute in H. Qed.

Lemma script_len_nonneg s : 0 ≤ len s.
Proof. unfold len. lia. Qed.

Lemma check_publish_iff input m : check_publish is_han input = Ok m ↔ accepted input m.
Proof.
  unfold check_publish. split.
  - destruct (negb (policy_Validate _)) eqn:E1; [done|].
    destruct (_ || _) eqn:E2; [done|]. destruct (MaxScriptBytes <? _) eqn:E3; [done|]. destruct (negb (containsHan _ _)) eqn:E4; [done|].
    destruct (negb (validateDistribution _)) eqn:E5; [done|]. destruct (normalizeParameters _) as [ps|] eqn:E6; [|done].
    intros [= <-]. repeat (apply orb_false_iff in E2 as [E2 ?]). pose proof (script_len_nonneg (pin_Content input)). tx_facts.
    split; try done; [lia|eauto].
  - intros [E1 E2 E3 E4 E5 E6 E7 (ps & E8 & ->)]. rewrite E1, E4, E5, E6, E7, E8. simpl.
    rewrite (bool_decide_false _ E2), (bool_decide_false _ (validEntrypoint_nonempty _ E5)). simpl.
    by replace (len (pin_Content input) =? 0) with false by lia; replace (MaxScriptBytes <? len (pin_Content input)) with false by lia.
Qed.

(** The manifest of a version, published again, is the same manifest. *)
Lemma check_publish_again input m again :
  accepted input m → TrimSpace (rin_ScriptID again) ≠ "" → containsHan is_han (TrimSpace (rin_ReleaseNotes again)) = true →
  check_publish is_han (rollback_input again (pin_Content input) m) = Ok m.
Proof.
  intros [E1 E2 E3 E4 E5 E6 E7 (ps & E8 & ->)] Hs Hn. apply check_publish_iff.
  assert (normalizeRuntime (normalizeRuntime (pin_Runtime input)) = normalizeRuntime (pin_Runtime input)) as Hrt by by apply validRuntime_normal.
  split; simpl; rewrite ?Hrt, ?TrimSpace_idemp, ?normalizeDistribution_idemp; try done.
  exists ps. split; [by eapply normalize_parameters_idemp|].
  transitivity (withResourceDefaults (publish_manifest input ps)); [symmetry; apply withResourceDefaults_idemp|].
  unfold publish_manifest at 2. f_equal. simpl. rewrite Hrt, TrimSpace_idemp, !normalizeDistribution_idemp, category_normal.
  unfold publish_manifest, withResourceDefaults, normalizeTags. simpl. by rewrite !normalize_tags_idemp, normalizeDistribution_idemp.
Qed.

(** A manifest that an archive carries to its readers: text, no larger than a script, and
    not under its own name. *)
Record portable (m : Manifest) : Prop := {
  po_text : manifest_text m = true;
  po_size : len (marshal m) ≤ MaxScriptBytes;
  po_name : mf_Entrypoint m ≠ manifest_name
}.

Lemma readArchive_build content m archive :
  portable m → 0 < len content ≤ MaxScriptBytes → buildArchive content m = Ok archive →
  readArchive archive (mf_Entrypoint m) = Ok (content, m).
Proof.
  intros [Ht Hs Hn] Hc. unfold buildArchive, readArchive. destruct (write_archive _) as [bytes|] eqn:Ew; [|done].
  intros [= <-]. rewrite (read_written _ _ Ew). cbn [read_files fl_body fl_name].
  replace (MaxScriptBytes <? len content) with false by lia. replace (MaxScriptBytes <? len (marshal m)) with false by lia.
  rewrite bool_decide_true by done. rewrite (bool_decide_false (manifest_name = _)) by done.
  rewrite bool_decide_true by done. rewrite (unmarshal_marshal m Ht). simpl.
  rewrite (bool_decide_false (content = "")) by (intros ->; unfold len in Hc; simpl in Hc; lia). by rewrite bool_decide_true.
Qed.

Lemma readArchive_shadowed content m archive :
  mf_Entrypoint m = manifest_name → buildArchive content m = Ok archive → ∃ e, readArchive archive manifest_name = Err e.
Proof.
  intros Hm. unfold buildArchive, readArchive. destruct (write_archive _) as [bytes|] eqn:Ew; [|done].
  intros [= <-]. rewrite (read_written _ _ Ew), Hm. cbn [read_files fl_body fl_name].
  rewrite !bool_decide_true by done. destruct (_ <? _); [by eauto|]. destruct (_ <? _); [by eauto|].
  simpl. rewrite orb_true_r. eauto.
Qed.

End archives.

(** ** The effect of a publication on the tables *)

Definition version_row (input : PublishInput) (m : Manifest) (digest : string) (number : Z) (at_ : Time) : VersionRow :=
  let scriptID := TrimSpace (pin_ScriptID input) in
  mkVersionRow scriptID number (object_key scriptID digest) digest (mf_Entrypoint m) m (TrimSpace (pin_ReleaseNotes input))
    (nullableUUID (pin_AuthorID input)) at_.

(** The tables after the publication of version [v]: a new row with the next number of its
    script, the draft based on it, the runtime of the script. *)
Definition published (input : PublishInput) (m : Manifest) (digest : string) (d : DB) (v : Version) (d' : DB) : Prop :=
  let scriptID := TrimSpace (pin_ScriptID input) in
  ∃ at_ draft_at updated_at created_at,
    let row := version_row input m digest (next_version scriptID d) at_ in
    v = version_of (ver_ID v) row ∧ is_Some (scripts d !! scriptID) ∧ script_versions d !! ver_ID v = None ∧
    ver_Number v ≤ 2147483647 ∧ known_author d (nullableUUID (pin_AuthorID input)) = true ∧
    d' = d <| script_versions ::= <[ver_ID v := row]> |>
           <| script_drafts ::= <[scriptID := mkDraftRow (Some (ver_ID v)) (pin_Content input) m (nullableUUID (pin_AuthorID input)) created_at draft_at]> |>
           <| scripts ::= alter (λ s, s <| sc_runtime := mf_Runtime m |> <| sc_updated_at := updated_at |>) scriptID |>.

Lemma insert_version_inv id row d d' :
  insert_version id row d = Some d' →
  script_versions d !! id = None ∧ known_author d (sv_created_by row) = true ∧ sv_version row ≤ 2147483647 ∧
  d' = d <| script_versions ::= <[id := row]> |>.
Proof.
  unfold insert_version. destruct (_ || _) eqn:E; [done|]. intros [= <-]. repeat (apply orb_false_iff in E as [E ?]). tx_facts.
  rewrite <-eq_None_not_Some in E. repeat split; auto; lia.
Qed.

Lemma next_version_fresh scriptID d id row :
  script_versions d !! id = Some row → sv_script_id row = scriptID → sv_version row < next_version scriptID d.
Proof.
  intros H Hs. unfold next_version. assert (row ∈ (filter (λ p, sv_script_id p.2 = scriptID) (map_to_list (script_versions d))).*2) as Hin.
  { apply list_elem_of_fmap. exists (id, row). split; [done|]. apply list_elem_of_filter. split; [done|]. by apply elem_of_map_to_list. }
  revert Hin. generalize ((filter (λ p, sv_script_id p.2 = scriptID) (map_to_list (script_versions d))).*2). intros l.
  intros Hin. induction Hin as [x l|x y l Hin IH]; csimpl; [lia|]. specialize (IH H Hs). lia.
Qed.

Lemma next_version_positive scriptID d : 1 ≤ next_version scriptID d.
Proof.
  unfold next_version. generalize (sv_version <$> (filter (λ p, sv_script_id p.2 = scriptID) (map_to_list (script_versions d))).*2).
  intros l. induction l; simpl; lia.
Qed.

(** ** The invariant *)

Definition honest (b : Bucket) : Prop := map_Forall (λ _ object, digest_hex (ob_body object) = ob_sha256 object) b.

Record library_ok (d : DB) (b : Bucket) : Prop := {
  lb_honest : honest b;
  lb_stored : ∀ id row, script_versions d !! id = Some row →
    ∃ object, b !! sv_artifact_uri row = Some object ∧ ob_sha256 object = sv_artifact_sha256 row;
  lb_numbers : ∀ id id' row row', script_versions d !! id = Some row → script_versions d !! id' = Some row' →
    sv_script_id row = sv_script_id row' → sv_version row = sv_version row' → id = id';
  lb_range : ∀ id row, script_versions d !! id = Some row → 1 ≤ sv_version row ≤ 2147483647 ∧ is_Some (scripts d !! sv_script_id row);
  lb_drafts : ∀ id, is_Some (scripts d !! id) ↔ is_Some (script_drafts d !! id);
  lb_bases : ∀ id draft base, script_drafts d !! id = Some draft → sd_base_version_id draft = Some base →
    ∃ row, script_versions d !! base = Some row ∧ sv_script_id row = id
}.

(** Published versions and stored objects never change. *)
Record library_evolves (d : DB) (b : Bucket) (d' : DB) (b' : Bucket) : Prop := {
  lv_versions : script_versions d ⊆ script_versions d';
  lv_objects : b ⊆ b';
  lv_scripts : dom (scripts d) ⊆ dom (scripts d')
}.

Lemma library_evolves_refl d b : library_evolves d b d b.
Proof. done. Qed.

Lemma library_evolves_trans d b d1 b1 d2 b2 : library_evolves d b d1 b1 → library_evolves d1 b1 d2 b2 → library_evolves d b d2 b2.
Proof. intros [? ? ?] [? ? ?]. split; by etrans. Qed.

Lemma library_objects d b b' : library_ok d b → honest b' → b ⊆ b' → library_ok d b' ∧ library_evolves d b d b'.
Proof.
  intros H Hh Hb. split; [|by split]. destruct H as [H1 H2 H3 H4 H5 H6]. split; try done. intros id row Hrow.
  destruct (H2 id row Hrow) as (object & Ho & Hs). exists object. split; [|done]. by eapply lookup_weaken.
Qed.

Lemma published_evolves input m digest d v d' b object :
  library_ok d b → published input m digest d v d' → b !! ver_ArtifactURI v = Some object → ob_sha256 object = digest →
  library_ok d' b ∧ library_evolves d b d' b.
Proof.
  intros [H1 H2 H3 H4 H5 H6] (at_ & draft_at & updated_at & created_at & Hv & Hs & Hid & Hmax & Ha & ->) Ho Hd.
  set (s := TrimSpace (pin_ScriptID input)) in *. set (row := version_row _ _ _ _ _) in *.
  assert (ver_ArtifactURI v = sv_artifact_uri row ∧ ver_Number v = sv_version row) as [Eu En] by (by rewrite Hv).
  assert (∀ id r, script_versions d !! id = Some r → sv_script_id r = s → sv_version r < sv_version row) as Hfresh.
  { intros id r Hr Hrs. by eapply next_version_fresh. }
  split; [split; simpl|split; simpl].
  - done.
  - intros id r [[<- <-]|[Hne Hr]]%lookup_insert_Some; [|eauto]. exists object. by rewrite <-Eu.
  - intros id id' r r' [[<- <-]|[Hne Hr]]%lookup_insert_Some [[<- <-]|[Hne' Hr']]%lookup_insert_Some Hrs Hrn; [done| | |by eauto].
    + specialize (Hfresh _ _ Hr' (eq_sym Hrs)). lia.
    + specialize (Hfresh _ _ Hr Hrs). lia.
  - intros id r [[<- <-]|[Hne Hr]]%lookup_insert_Some; rewrite lookup_alter_is_Some.
    + split; [|done]. pose proof (next_version_positive s d). rewrite <-En. split; [|done]. by rewrite En.
    + by apply (H4 id r).
  - intros id. rewrite lookup_alter_is_Some. destruct (decide (id = s)) as [->|Hne].
    + rewrite lookup_insert_eq. by split.
    + by rewrite lookup_insert_ne.
  - intros id draft base [[<- <-]|[Hne Hdr]]%lookup_insert_Some Hb.
    + simplify_eq/=. exists row. by rewrite lookup_insert_eq.
    + destruct (H6 _ _ _ Hdr Hb) as (r & Hr & Hrs). exists r. rewrite lookup_insert_ne; [done|]. congruence.
  - by apply insert_subseteq.
  - done.
  - by rewrite dom_alter.
Qed.

Section service.
Context {C : Type} `{!Has DB C, !Has Bucket C, !Apart DB Bucket C, !Apart Bucket DB C, json : !ManifestJSON, format : !ArchiveFormat} (is_han : Z → bool).

Lemma record_version_spec input m digest :
  db_spec (C := C) (record_version input m digest) (λ d r d',
    match r with Ok v => published input m digest d v d' | Err e => d' = d ∨ ∃ v, published input m digest d v d' end).
Proof.
  apply db_spec_transaction; [by left|]. intros c. unfold lock_script.
  unfold insertAudit. repeat tx_step; try by left.
  all: apply negb_false_iff, bool_decide_eq_true in Hcase; apply fmap_Some in Hstmt as (d1 & (Hid & Ha & Hn & ->)%insert_version_inv & [= -> ->]).
  all: unfold upsert_draft in Hstmt0; destruct (negb _); [done|]; injection Hstmt0 as <- _; simplify_eq.
  2: right; exists (version_of id (version_row input m digest (next_version (TrimSpace (pin_ScriptID input)) (part c)) t)).
  all: exists t, t0, t1.
  all: exists (match script_drafts (part c) !! TrimSpace (pin_ScriptID input) with Some old => sd_created_at old | None => t0 end).
  all: simpl; split_and!; try done.
  all: unfold touch_script; simpl; by destruct (script_drafts (part c) !! _).
Qed.

Definition is_published (input : PublishInput) (m : Manifest) (archive : string) (d : DB) (v : Version) (d' : DB) (b' : Bucket) : Prop :=
  accepted is_han input m ∧ buildArchive (pin_Content input) m = Ok archive ∧ published input m (digest_hex archive) d v d' ∧
  validObjectKey (ver_ArtifactURI v) = true ∧
  ∃ object, b' !! ver_ArtifactURI v = Some object ∧ verifyObject object (len archive) (digest_hex archive) = true.

Definition publish_post (input : PublishInput) (c : C) (r : Result Version) (c' : C) : Prop :=
  (part c : Bucket) ⊆ part c' ∧ (honest (part c) → honest (part c')) ∧
  match r with
  | Ok v => ∃ m archive, is_published input m archive (part c) v (part c') (part c')
  | Err _ => part (X := DB) c' = part c ∨ ∃ v m archive, is_published input m archive (part c) v (part c') (part c')
  end.

Lemma wp_publish input (c : C) : wp (publish is_han input) c (publish_post input c).
Proof.
  unfold publish. destruct (check_publish is_han input) as [m|e] eqn:Em; [|by apply wp_throw; split; [|split; [|left]]].
  apply check_publish_iff in Em. destruct (buildArchive _ _) as [archive|e] eqn:Ea; [|by apply wp_throw; split; [|split; [|left]]].
  set (key := object_key _ _).
  assert (∀ c', c' = c ∨ (part c : Bucket) !! key = None ∧ c' = set_part (<[key := mkObject archive (digest_hex archive)]> (part c : Bucket)) c →
    (part c : Bucket) ⊆ part c' ∧ (honest (part c) → honest (part c')) ∧ part (X := DB) c' = part c) as Hput.
  { intros c' [->|[Hk ->]]; [done|]. rewrite part_set, apart. split; [by apply insert_subseteq|]. split; [|done].
    intros Hh. by apply map_Forall_insert_2. }
  apply wp_bind, wp_Put.
  - intros e. split; [|split; [|left]]; done.
  - intros Hk e. destruct (Hput _ (or_intror (conj Hk eq_refl))) as (? & ? & ?). split; [|split; [|left]]; done.
  - intros object c1 Hv Ho Hkey Hc1.
    destruct (Hput c1) as (Hb & Hh & Hd); [by destruct Hc1 as [->|(? & -> & ->)]; auto|].
    eapply wp_mono; [apply record_version_spec|]. intros r c2 [Hc2 Hr].
    assert (part (X := Bucket) c2 = part c1) as Eb by (by rewrite Hc2, apart).
    split; [by rewrite Eb|]. split; [by rewrite Eb|]. rewrite Hd in Hr.
    assert (∀ v, published input m (digest_hex archive) (part c) v (part c2) →
      is_published input m archive (part c) v (part c2) (part c2)) as Hpub.
    { intros v Hp. assert (ver_ArtifactURI v = key) as Ek by (by destruct Hp as (? & ? & ? & ? & -> & _)).
      split_and!; [done..|by rewrite Ek|]. exists object. by rewrite Ek, Eb. }
    destruct r as [v|e]; [exists m, archive; by apply Hpub|]. destruct Hr as [->|[v Hp]]; [by left|]. right. exists v, m, archive. by apply Hpub.
Qed.

(** An object that passed the check has the digest it was checked against. *)
Lemma verified_digest (b : Bucket) key object size bytes :
  honest b → b !! key = Some object → verifyObject object size (digest_hex bytes) = true →
  ob_sha256 object = digest_hex bytes ∧ digest_hex (ob_body object) = digest_hex bytes ∧ len (ob_body object) = size.
Proof.
  intros Hh Ho (Hl & Hs%bool_decide_eq_true)%andb_true_iff. specialize (Hh _ _ Ho). simpl in Hh.
  rewrite <-Hh, !fold_case_digest in Hs. rewrite <-Hh. split_and!; [done|done|lia].
Qed.

(** Operations that keep the library. *)
Definition library_step (c c' : C) : Prop :=
  library_ok (part c) (part c) → library_ok (part c') (part c') ∧ library_evolves (part c) (part c) (part c') (part c').

Lemma publish_step input (c : C) : wp (publish is_han input) c (λ _ c', library_step c c').
Proof.
  eapply wp_mono; [apply wp_publish|]. intros r c' (Hb & Hh & Hr) Hok.
  destruct (library_objects _ _ _ Hok (Hh (lb_honest _ _ Hok)) Hb) as [Hok' Hev].
  assert (∀ v m archive, is_published input m archive (part c) v (part c') (part c') →
    library_ok (part c') (part c') ∧ library_evolves (part c) (part c) (part c') (part c')) as Hpub.
  { intros v m archive (_ & _ & Hp & _ & object & Ho & Hv).
    destruct (verified_digest _ _ _ _ _ (Hh (lb_honest _ _ Hok)) Ho Hv) as (Hs & _).
    destruct (published_evolves _ _ _ _ _ _ _ _ Hok' Hp Ho Hs) as [Hok2 Hev2]. split; [done|]. by eapply library_evolves_trans. }
  destruct r as [v|e]; [destruct Hr as (m & archive & Hr); by eapply Hpub|].
  destruct Hr as [->|(v & m & archive & Hr)]; [done|by eapply Hpub].
Qed.

(** ** Reading *)

(** [m] changes nothing, and returns [a] unless a request fails. *)
Definition reads {A} (m : Prog C A) (c : C) (a : A) : Prop :=
  succeeds m c a c ∧ wp m c (λ r c', c' = c ∧ (r = Ok a ∨ ∃ context, r = Err (EStorage context))).

Lemma reads_ret {A} (a : A) c : reads (ret a) c a.
Proof. split; [apply succeeds_ret|]. apply wp_ret. auto. Qed.

Lemma reads_observe {A} context (f : C → A) c : reads (observe context f) c (f c).
Proof. split; [intros ids clock; apply observe_calm|]. apply wp_observe; eauto. Qed.

Lemma wp_reads {A B} (m : Prog C A) (k : A → Prog C B) c a Q :
  reads m c a → (∀ context, Q (Err (EStorage context)) c) → wp (k a) c Q → wp (bind m k) c Q.
Proof.
  intros [_ Hm] He Hk. apply wp_bind. eapply wp_mono; [apply Hm|]. intros r c' [-> [->|[context ->]]]; auto.
Qed.

Lemma reads_bind {A B} (m : Prog C A) (k : A → Prog C B) c a b : reads m c a → reads (k a) c b → reads (bind m k) c b.
Proof.
  intros Hm [Hs Hw]. split; [by eapply succeeds_bind; [apply Hm|]|]. eapply wp_reads; [done| |done]. eauto.
Qed.

Lemma reads_Open key c object :
  validObjectKey key = true → (part c : Bucket) !! key = Some object → reads (Open key) c (ob_body object).
Proof.
  intros Hk Ho. unfold Open. rewrite Hk. eapply reads_bind; [apply reads_observe|]. rewrite Ho.
  eapply reads_bind; [apply reads_observe|]. rewrite Ho. apply reads_ret.
Qed.

Lemma reads_version uri digest entrypoint mismatch c object result :
  validObjectKey uri = true → (part c : Bucket) !! uri = Some object → len (ob_body object) ≤ MaxScriptBytes * 2 + 1 →
  digest_hex (ob_body object) = digest → readArchive (ob_body object) entrypoint = Ok result →
  reads (read_version uri digest entrypoint mismatch) c result.
Proof.
  intros Hk Ho Hl Hd Hr. eapply reads_bind; [by apply reads_Open|]. unfold read_limited.
  replace (len (ob_body object) <=? MaxScriptBytes * 2 + 1) with true by lia. rewrite bool_decide_true by done. simpl.
  rewrite Hr. apply reads_ret.
Qed.

(** A version whose archive is stored as it was built. *)
Definition stored_version (d : DB) (b : Bucket) (id : string) (row : VersionRow) (content : string) : Prop :=
  ∃ input archive object,
    script_versions d !! id = Some row ∧ sv_script_id row = TrimSpace (pin_ScriptID input) ∧
    sv_entrypoint row = mf_Entrypoint (sv_manifest row) ∧ accepted is_han input (sv_manifest row) ∧ pin_Content input = content ∧
    buildArchive content (sv_manifest row) = Ok archive ∧ len archive ≤ MaxScriptBytes * 2 + 1 ∧
    sv_artifact_sha256 row = digest_hex archive ∧ sv_artifact_uri row = object_key (sv_script_id row) (digest_hex archive) ∧
    validObjectKey (sv_artifact_uri row) = true ∧ b !! sv_artifact_uri row = Some object ∧ ob_body object = archive.

Lemma stored_version_evolves d b d' b' id row content :
  stored_version d b id row content → library_evolves d b d' b' → stored_version d' b' id row content.
Proof.
  intros (input & archive & object & H) [Hv Hb _]. exists input, archive, object. split_hyps.
  split_and!; try done; by eapply lookup_weaken.
Qed.

Lemma stored_version_reads (c : C) id row content mismatch :
  stored_version (part c) (part c) id row content → portable (sv_manifest row) →
  reads (read_version (sv_artifact_uri row) (sv_artifact_sha256 row) (sv_entrypoint row) mismatch) c (content, sv_manifest row).
Proof.
  intros (input & archive & object & Hrow & _ & He & Ha & <- & Hbuild & Hl & Hd & Hu & Hk & Ho & Hbody) Hp.
  eapply reads_version; rewrite ?Hbody; try done. rewrite He. eapply readArchive_build; [done| |done]. apply Ha.
Qed.

Lemma find_version_found d id row : script_versions d !! id = Some row → find_version (sv_script_id row) id d = Some row.
Proof. intros H. unfold find_version. by rewrite H, bool_decide_true. Qed.

(** What is stored is another text with the digest of the archive. *)
Definition collision (stored archive : string) : Prop := stored ≠ archive ∧ digest_hex stored = digest_hex archive.

Lemma is_published_stored input m archive d v d' b :
  is_published input m archive d v d' b → honest b → len archive ≤ MaxScriptBytes * 2 + 1 →
  (∃ row, v = version_of (ver_ID v) row ∧ sv_manifest row = m ∧ stored_version d' b (ver_ID v) row (pin_Content input)) ∨
  (∃ object, b !! ver_ArtifactURI v = Some object ∧ collision (ob_body object) archive).
Proof.
  intros (Ha & Hbuild & Hp & Hk & object & Ho & Hv) Hh Hl. destruct (verified_digest _ _ _ _ _ Hh Ho Hv) as (_ & Hd & _).
  destruct (decide (ob_body object = archive)) as [Hbody|Hne]; [left|by right; exists object].
  destruct Hp as (at_ & draft_at & updated_at & created_at & Ev & _ & _ & _ & _ & ->). eexists. split; [exact Ev|]. split; [done|].
  rewrite Ev in Ho, Hk. exists input, archive, object. simpl. rewrite lookup_insert_eq. split_and!; done.
Qed.

Lemma is_published_determined input m archive m' archive' d v d' b :
  is_published input m' archive' d v d' b → check_publish is_han input = Ok m → buildArchive (pin_Content input) m = Ok archive →
  m' = m ∧ archive' = archive.
Proof. intros (Hacc%check_publish_iff & Hb & _) Hm Ha. rewrite Hm in Hacc. injection Hacc as <-. rewrite Ha in Hb. by injection Hb as <-. Qed.

Lemma wp_VersionContent_unreadable (c : C) id row object :
  script_versions (part c) !! id = Some row → (part c : Bucket) !! sv_artifact_uri row = Some object →
  (∀ result, digest_hex (read_limited (MaxScriptBytes * 2 + 1) (ob_body object)) = sv_artifact_sha256 row →
     readArchive (read_limited (MaxScriptBytes * 2 + 1) (ob_body object)) (sv_entrypoint row) ≠ Ok result) →
  wp (VersionContent (sv_script_id row) id) c (λ r c', c' = c ∧ is_ok r = false).
Proof.
  intros Hrow Ho Hbad. eapply wp_reads; [apply reads_observe|done|]. rewrite (find_version_found _ _ _ Hrow).
  unfold read_version. apply wp_bind. destruct (validObjectKey (sv_artifact_uri row)) eqn:Hk;
    [|unfold Open; rewrite Hk; by apply wp_bind, wp_throw].
  eapply wp_reads; [by apply reads_Open|done|].
  case_bool_decide as Hd; [|by apply wp_throw]. simpl. specialize (λ result, Hbad result Hd).
  destruct (readArchive _ _) as [result|e]; [by destruct (Hbad result)|]. by apply wp_throw.
Qed.

Lemma wp_VersionContent_stored (c : C) id row content :
  stored_version (part c) (part c) id row content → portable (sv_manifest row) →
  reads (VersionContent (sv_script_id row) id) c content.
Proof.
  intros Hs Hp. eapply reads_bind; [apply reads_observe|].
  rewrite (find_version_found _ _ row) by (by destruct Hs as (? & ? & ? & ? & _)).
  eapply reads_bind; [by eapply stored_version_reads|]. apply reads_ret.
Qed.

(** C8: Publishing and reading are inverse: when [publish] returns a version, then now and
    after any further evolution of the library [VersionContent] of that version changes
    nothing and returns exactly the published content, unless a request fails.  The
    manifest is one an archive can carry ([portable]: its entrypoint is not the name of the
    manifest), the archive is within the limit of the reader, and the object in the bucket
    under the key of the version is not another text with the digest of the archive. *)
Theorem published_content_readable (input : PublishInput) (m : Manifest) (archive : string) (c : C) :
  honest (part c) → check_publish is_han input = Ok m → buildArchive (pin_Content input) m = Ok archive → portable m →
  len archive ≤ MaxScriptBytes * 2 + 1 →
  wp (publish is_han input) c (λ r c', ∀ v, r = Ok v →
    (∃ object, (part c' : Bucket) !! ver_ArtifactURI v = Some object ∧ collision (ob_body object) archive) ∨
    ∀ c'' : C, library_evolves (part c') (part c') (part c'') (part c'') →
      reads (VersionContent (ver_ScriptID v) (ver_ID v)) c'' (pin_Content input)).
Proof.
  intros Hh Hm Ha Hp Hl. eapply wp_mono; [apply wp_publish|]. intros r c' (_ & Hh' & Hr) v ->.
  destruct Hr as (m' & archive' & Hpub). destruct (is_published_determined _ _ _ _ _ _ _ _ _ Hpub Hm Ha) as [-> ->].
  destruct (is_published_stored _ _ _ _ _ _ _ Hpub (Hh' Hh) Hl) as [(row & Ev & Em & Hs)|Hc]; [right|by left].
  intros c'' Hev. rewrite Ev. simpl. apply wp_VersionContent_stored; [|by rewrite Em]. by eapply stored_version_evolves.
Qed.

(** A script may be published with the entrypoint [manifest.json], and then it is lost:
    in its archive the manifest follows under the same name, the reader takes the second
    file for the content and never sees a manifest, so that [VersionContent] of the
    version fails now and for ever (unless what the reader gets is another text with the
    digest of the archive). *)
Theorem manifest_entrypoint_unreadable (input : PublishInput) (m : Manifest) (archive : string) (c : C) :
  honest (part c) → check_publish is_han input = Ok m → buildArchive (pin_Content input) m = Ok archive →
  mf_Entrypoint m = "manifest.json" →
  wp (publish is_han input) c (λ r c', ∀ v, r = Ok v →
    (∃ object, (part c' : Bucket) !! ver_ArtifactURI v = Some object ∧
       collision (read_limited (MaxScriptBytes * 2 + 1) (ob_body object)) archive) ∨
    ∀ c'' : C, library_evolves (part c') (part c') (part c'') (part c'') →
      wp (VersionContent (ver_ScriptID v) (ver_ID v)) c'' (λ r' c3, c3 = c'' ∧ is_ok r' = false)).
Proof.
  intros Hh Hm Ha He. eapply wp_mono; [apply wp_publish|]. intros r c' (_ & Hh' & Hr) v ->.
  destruct Hr as (m' & archive' & Hpub). destruct (is_published_determined _ _ _ _ _ _ _ _ _ Hpub Hm Ha) as [-> ->].
  destruct Hpub as (_ & _ & Hp & Hk & object & Ho & Hv).
  destruct (readArchive_shadowed _ _ _ He Ha) as [e Hbad]. set (body := read_limited (MaxScriptBytes * 2 + 1) (ob_body object)).
  destruct (decide (body ≠ archive ∧ digest_hex body = digest_hex archive)) as [Hcol|Hnc]; [by left; exists object|right].
  intros c'' [Hv' Hb' _]. destruct Hp as (at_ & draft_at & updated_at & created_at & Ev & _ & _ & _ & _ & Ed). rewrite Ev. simpl.
  eapply (wp_VersionContent_unreadable c'' (ver_ID v) (version_row input m _ _ at_)).
  - eapply lookup_weaken; [|done]. rewrite Ed. simpl. by rewrite lookup_insert_eq.
  - eapply lookup_weaken; [|done]. rewrite Ev in Ho. exact Ho.
  - intros result Hd Hr. simpl in Hd, Hr. fold body in Hd, Hr. destruct (decide (body = archive)) as [E|Hne]; [|by destruct Hnc].
    rewrite E, He in Hr. unfold manifest_name in Hbad. by rewrite Hr in Hbad.
Qed.

(** What the publication at the end of a rollback leaves. *)
Definition restored (again : RollbackInput) (row : VersionRow) (content : string) (c : C) (v : Version) (c' : C) : Prop :=
  ver_Manifest v = sv_manifest row ∧ ver_ArtifactSHA256 v = sv_artifact_sha256 row ∧ ver_ArtifactURI v = sv_artifact_uri row ∧
  ver_Number v = next_version (sv_script_id row) (part c) ∧ ver_ID v ≠ rin_VersionID again ∧
  reads (VersionContent (ver_ScriptID v) (ver_ID v)) c' content.

Lemma republished again row content (c c' : C) v m' archive' :
  stored_version (part c) (part c) (rin_VersionID again) row content → portable (sv_manifest row) →
  rin_ScriptID again = sv_script_id row → (part c : Bucket) ⊆ part c' →
  is_published (rollback_input again content (sv_manifest row)) m' archive' (part c) v (part c') (part c') →
  restored again row content c v c'.
Proof.
  intros (input & archive & object & Hrow & Hsid & He & Hacc & <- & Hbuild & Hl & Hd & Hu & Hk & Ho & Hbody) Hp Hid Hb Hpub.
  assert (check_publish is_han (rollback_input again (pin_Content input) (sv_manifest row)) = Ok (sv_manifest row)) as Hagain.
  { destruct Hpub as (Hacc' & _). apply check_publish_again; [done|apply Hacc'|apply Hacc']. }
  destruct (is_published_determined _ _ _ _ _ _ _ _ _ Hpub Hagain Hbuild) as [-> ->].
  destruct Hpub as (Hacc' & _ & (at_ & draft_at & updated_at & created_at & Ev & _ & Hnew & _ & _ & Ed) & Hk' & _).
  assert (TrimSpace (rin_ScriptID again) = sv_script_id row) as Et by by rewrite Hid, Hsid, TrimSpace_idemp.
  set (row' := version_row _ _ _ _ _) in *.
  assert (sv_artifact_uri row' = sv_artifact_uri row) as Eu by (simpl; by rewrite Et, Hu).
  unfold restored. rewrite Ev. simpl. rewrite Et. split_and!; [done|done|by rewrite Hu|done|congruence|].
  rewrite <-Et. apply (wp_VersionContent_stored c' (ver_ID v) row' (pin_Content input)); [|done].
  exists (rollback_input again (pin_Content input) (sv_manifest row)), archive, object.
  rewrite Ed. simpl. rewrite lookup_insert_eq. split_and!; try done; [by rewrite Et, <-Hu|].
  eapply lookup_weaken; [|done]. by rewrite <-Ho, <-Eu.
Qed.

(** A rollback publishes the earlier version again, exactly: the new version has the
    next number, the manifest, digest and object of the old one, and is itself stored and
    readable; when [Rollback] fails the tables are unchanged or, when only the reply to the
    commit was lost, hold that same new version. *)
Theorem rollback_restores (again : RollbackInput) (c : C) (row : VersionRow) (content : string) :
  library_ok (part c) (part c) → stored_version (part c) (part c) (rin_VersionID again) row content → portable (sv_manifest row) →
  rin_ScriptID again = sv_script_id row →
  wp (Rollback is_han again) c (λ r c',
    library_ok (part c') (part c') ∧
    match r with
    | Ok v => restored again row content c v c'
    | Err _ => part (X := DB) c' = part c ∨ ∃ v, restored again row content c v c'
    end).
Proof.
  intros Hok Hs Hp Hid. assert (script_versions (part c) !! rin_VersionID again = Some row) as Hrow by by destruct Hs as (? & ? & ? & ? & _).
  eapply wp_reads; [apply reads_observe|by auto|]. rewrite Hid, (find_version_found _ _ _ Hrow).
  eapply wp_reads; [by eapply stored_version_reads|by auto|]. cbn [fst snd].
  eapply wp_mono; [apply wp_conj; [apply wp_publish|apply publish_step]|]. intros r c' [(Hb & _ & Hr) Hstep].
  destruct (Hstep Hok) as [Hok' _]. split; [done|].
  destruct r as [v|e]; [destruct Hr as (m' & archive' & Hr); by eapply republished|].
  destruct Hr as [Hr|(v & m' & archive' & Hr)]; [by left|right]. exists v. by eapply republished.
Qed.

(** ** The other operations *)

Definition tables_step (d d' : DB) : Prop := ∀ b, library_ok d b → library_ok d' b ∧ library_evolves d b d' b.

Lemma tables_step_refl d : tables_step d d.
Proof. by intros b Hok. Qed.

Lemma created_step id row draft d d1 d2 :
  insert_script id row d = Some d1 → insert_draft id draft d1 = Some d2 → sd_base_version_id draft = None → tables_step d d2.
Proof.
  intros H1 H2 Hb b [? ? ? H4 H5 H6]. unfold insert_script in H1. destruct (_ || _) eqn:E1 in H1; [done|]. injection H1 as <-.
  unfold insert_draft in H2. destruct (_ || _) in H2; [done|]. injection H2 as <-. repeat (apply orb_false_iff in E1 as [E1 ?]). tx_facts. rewrite <-eq_None_not_Some in E1.
  split; [split; simpl|split; simpl]; try done.
  - intros vid v Hv. destruct (H4 vid v Hv) as [? Hs]. split; [done|]. rewrite lookup_insert_is_Some'. by right.
  - intros sid. rewrite !lookup_insert_is_Some'. by rewrite H5.
  - intros sid r base [[<- <-]|[Hne Hr]]%lookup_insert_Some Hbase; [congruence|by eapply H6].
  - rewrite dom_insert. set_solver.
Qed.

Lemma draft_saved_step scriptID content m author runtime now at_ row d d1 :
  is_Some (scripts d !! scriptID) → upsert_draft scriptID None content m author now d = Some (d1, row) →
  tables_step d (touch_script scriptID runtime at_ d1).
Proof.
  intros Hs. unfold upsert_draft. destruct (negb _); [done|]. intros [= <- <-] b [H1 H2 H3 H4 H5 H6].
  split; [split; simpl|split; simpl]; try done.
  - intros vid v Hv. rewrite lookup_alter_is_Some. by eapply H4.
  - intros sid. rewrite lookup_alter_is_Some, lookup_insert_is_Some', <-H5. split; [by right|by intros [->|?]].
  - intros sid r base [[<- <-]|[Hne Hr]]%lookup_insert_Some Hbase; [|by eapply H6].
    destruct (script_drafts d !! scriptID) as [old|] eqn:Eo; simpl in Hbase; [by eapply H6|done].
  - by rewrite dom_alter.
Qed.

Lemma moves_Create input : moves tables_step (Service_Create (C := C) input).
Proof.
  unfold Service_Create. case_match; [apply db_spec_throw; intros d; apply tables_step_refl|].
  apply db_spec_transaction; [intros d; apply tables_step_refl|]. intros c. unfold insertAudit.
  repeat tx_step; try apply tables_step_refl; simplify_eq; by eapply created_step.
Qed.

Lemma moves_SaveDraft input : moves tables_step (SaveDraft (C := C) input).
Proof.
  unfold SaveDraft. repeat (case_match; try (apply db_spec_throw; intros d; apply tables_step_refl)).
  apply db_spec_transaction; [intros d; apply tables_step_refl|]. intros c. unfold lock_script.
  repeat tx_step; try apply tables_step_refl; tx_facts; by eapply draft_saved_step.
Qed.

Lemma tables_library_step {A} (m : Prog C A) (c : C) : moves tables_step m → wp m c (λ _ c', library_step c c').
Proof.
  intros H. eapply wp_mono; [apply H|]. intros r c' [Hc' Hstep] Hok. rewrite Hc' in Hstep |- *. rewrite part_set in Hstep |- *.
  rewrite apart. by apply Hstep.
Qed.

Lemma unchanged_step (c : C) : library_step c c.
Proof. done. Qed.

Lemma rollback_step input (c : C) : wp (Rollback is_han input) c (λ _ c', library_step c c').
Proof.
  apply wp_bind, wp_pool_query; [apply unchanged_step|]. case_match; [|apply wp_throw, unchanged_step].
  apply wp_bind. unfold read_version, Open. repeat first [wp_rule|apply wp_observe; [apply unchanged_step|]|apply unchanged_step|apply publish_step].
Qed.

(** ** Sequences of operations *)

Inductive LibraryOperation : Type :=
| LibraryCreate (input : ScriptCreateInput)
| LibrarySave (input : DraftInput)
| LibraryPublish (input : PublishInput)
| LibraryRollback (input : RollbackInput)
| LibraryRead (scriptID versionID : string).

Definition library_perform (op : LibraryOperation) : Prog C unit :=
  match op with
  | LibraryCreate input => ignore (Service_Create input)
  | LibrarySave input => ignore (SaveDraft input)
  | LibraryPublish input => ignore (Service_Publish is_han input)
  | LibraryRollback input => ignore (Rollback is_han input)
  | LibraryRead scriptID versionID => ignore (VersionContent scriptID versionID)
  end.

Lemma library_perform_step op (c : C) : wp (library_perform op) c (λ r c', is_ok r = true ∧ library_step c c').
Proof.
  destruct op; apply wp_ignore, wp_conj; try (by eapply wp_mono; [apply wp_any|]).
  - apply tables_library_step, moves_Create.
  - apply tables_library_step, moves_SaveDraft.
  - apply publish_step.
  - apply rollback_step.
  - unfold VersionContent, read_version, Open. repeat first [wp_rule|apply wp_observe; [apply unchanged_step|]|apply unchanged_step].
Qed.

(** C7: Every sequence of operations on the library, whatever fails and whatever is
    interrupted, keeps the library consistent: each version of a script has its own number
    and an archive in the store whose content has the recorded digest, each script has its
    draft and each draft is based on a version of its script; and no published version and
    no stored object is ever changed or removed. *)
Theorem library_invariant (ops : list LibraryOperation) (c : C) :
  library_ok (part c) (part c) →
  wp (for_each ops library_perform) c (λ r c',
    is_ok r = true ∧ library_ok (part c') (part c') ∧ library_evolves (part c) (part c) (part c') (part c')).
Proof.
  intros Hok. apply (wp_for_each _ _ _ (λ _ c', library_ok (part c') (part c') ∧ library_evolves (part c) (part c) (part c') (part c'))).
  - done.
  - intros op rest c1 [Hok1 Hev1] _. eapply wp_mono; [apply library_perform_step|]. intros [u|e] c2 [Hr Hs]; [|done].
    destruct (Hs Hok1) as [Hok2 Hev2]. split; [done|]. by eapply library_evolves_trans.
  - by intros c1 [? ?].
Qed.

(** The exact effect of [publish], errors included: a rejected input is answered with its
    error before anything happens; a returned version is recorded with the next number of
    its script, its archive is in the store, and the draft and the script follow it, in one
    step; any other error leaves the tables unchanged, unless only the reply to the commit
    was lost.  No object is ever overwritten. *)
Theorem publish_correct (input : PublishInput) (c : C) :
  wp (publish is_han input) c (λ r c',
    publish_post input c r c' ∧ ∀ e, check_publish is_han input = Err e → r = Err e ∧ c' = c).
Proof.
  apply wp_conj; [apply wp_publish|]. unfold publish. destruct (check_publish is_han input) as [m|e] eqn:Em.
  - eapply wp_mono; [apply wp_any|]. done.
  - apply wp_throw. by intros e' [= <-].
Qed.

End service.

(** ** A concrete library *)

(** A format that writes any value of a countable type in bytes. *)
Fixpoint pack (fuel : nat) (n : N) : string :=
  match fuel with
  | O => ""
  | S fuel => if (n =? 0)%N then "" else String (Stdlib.Strings.Ascii.ascii_of_N (N.land n (N.ones 8))) (pack fuel (N.shiftr n 8))
  end.
Fixpoint unpack (s : string) : N :=
  match s with EmptyString => 0 | String c s => Stdlib.Strings.Ascii.N_of_ascii c + 256 * unpack s end.

Definition digits (p : positive) : string := pack (Pos.size_nat p) (Npos p).
Definition undigits (s : string) : option positive := match unpack s with Npos p => Some p | N0 => None end.

Lemma unpack_packed fuel n : (n < 2 ^ N.of_nat fuel)%N → unpack (pack fuel n) = n.
Proof.
  revert n. induction fuel as [|fuel IH]; intros n Hn; [simpl in *; lia|]. cbn [pack]. destruct (N.eqb_spec n 0) as [->|Hne]; [done|].
  rewrite N.land_ones, N.shiftr_div_pow2. change (2 ^ 8)%N with 256%N. cbn [unpack].
  rewrite Stdlib.Strings.Ascii.N_ascii_embedding by (apply N.mod_lt; lia). rewrite IH.
  - rewrite N.add_comm. symmetry. by apply N.div_mod.
  - rewrite Nat2N.inj_succ, N.pow_succ_r' in Hn. apply N.Div0.div_lt_upper_bound. lia.
Qed.

Lemma undigits_digits p : undigits (digits p) = Some p.
Proof.
  unfold undigits, digits. rewrite unpack_packed; [done|].
  induction p as [p IH|p IH|]; cbn [Pos.size_nat]; rewrite ?Nat2N.inj_succ, ?N.pow_succ_r'; lia.
Qed.

Definition policy_fields (p : ArtifactPolicy) := (AllowedGlobs p, MaxFileBytes p, MaxTotalBytes p).
Definition parameter_fields (p : ParameterDefinition) := (pd_Name p, pd_Type p, pd_Required p, pd_Description p).
Definition manifest_fields (m : Manifest) : list positive :=
  [encode (policy_fields <$> mf_Artifacts m); encode (mf_Runtime m); encode (mf_Entrypoint m); encode (mf_Category m); encode (mf_Tags m);
   encode (dn_Mode (mf_Distribution m)); encode (dn_ServerGroupID (mf_Distribution m)); encode (dn_Labels (mf_Distribution m));
   encode (parameter_fields <$> mf_ParameterDefinitions m); encode (CPUMillicores (mf_Resources m));
   encode (MemoryBytes (mf_Resources m)); encode (DiskBytes (mf_Resources m))].

Definition fields_manifest (fields : list positive) : option Manifest :=
  match fields with
  | [policy; runtime; entrypoint; category; tags; mode; group; labels; parameters; cpu; memory; disk] =>
    policy ← decode policy; runtime ← decode runtime; entrypoint ← decode entrypoint; category ← decode category; tags ← decode tags;
    mode ← decode mode; group ← decode group; labels ← decode labels; parameters ← decode parameters;
    cpu ← decode cpu; memory ← decode memory; disk ← decode disk;
    Some (mkManifest (option_map (λ '(globs, file, total), mkArtifactPolicy globs file total) policy) runtime entrypoint category tags
      (mkDistributionRule mode group labels)
      (map (λ '(name, type, required, description), mkParameterDefinition name type required description) parameters)
      (mkResources cpu memory disk))
  | _ => None
  end.

Lemma fields_manifest_fields m : fields_manifest (manifest_fields m) = Some m.
Proof.
  destruct m as [policy ? ? ? ? [] ps []]. unfold fields_manifest, manifest_fields.
  do 12 (rewrite decode_encode; cbn [mbind option_bind]). simpl. do 2 f_equal; [by destruct policy as [[]|]|].
  induction ps as [|[] ps IH]; csimpl; congruence.
Qed.

#[local] Instance digits_json : ManifestJSON.
Proof.
  refine {| marshal := λ m, digits (encode (manifest_fields m));
            unmarshal := λ s _, p ← undigits s; fields ← decode p; fields_manifest fields |}.
  intros m _. rewrite undigits_digits. cbn [mbind option_bind]. rewrite decode_encode. apply fields_manifest_fields.
Defined.

Definition file_fields (file : ArchiveFile) : list positive := [encode (fl_name file); encode (fl_mode file); encode (fl_body file)].

Fixpoint fields_files (fields : list positive) : option (list ArchiveFile) :=
  match fields with
  | name :: mode :: body :: rest =>
    name ← decode name; mode ← decode mode; body ← decode body; files ← fields_files rest; Some (mkArchiveFile name mode body :: files)
  | _ => Some []
  end.

Lemma fields_files_fields files : fields_files (files ≫= file_fields) = Some files.
Proof.
  induction files as [|[name mode body] files IH]; [done|]. cbn -[encode decode]. do 3 (rewrite decode_encode; cbn [mbind option_bind]).
  by setoid_rewrite IH.
Qed.

#[local] Instance digits_archive : ArchiveFormat.
Proof.
  refine {| write_archive := λ files, Some (digits (encode (files ≫= file_fields)));
            read_archive := λ s, p ← undigits s; fields ← decode p; files ← fields_files fields; Some (files, true) |}.
  intros files bytes [= <-]. rewrite undigits_digits. cbn [mbind option_bind]. rewrite decode_encode. cbn [mbind option_bind].
  by rewrite fields_files_fields.
Defined.

Record Library : Type := mkLibrary { lib_db : DB; lib_bucket : Bucket }.

#[local] Instance library_db : Has DB Library.
Proof. by refine {| part := lib_db; set_part := λ d l, mkLibrary d (lib_bucket l) |}; intros []. Defined.
#[local] Instance library_bucket : Has Bucket Library.
Proof. by refine {| part := lib_bucket; set_part := λ b l, mkLibrary (lib_db l) b |}; intros []. Defined.
#[local] Instance library_db_bucket : Apart DB Bucket Library.
Proof. by split. Qed.
#[local] Instance library_bucket_db : Apart Bucket DB Library.
Proof. by split. Qed.

Definition cjk (rune : Z) : bool := (19968 <=? rune) && (rune <=? 40959).

Definition report_input (entrypoint : string) : PublishInput :=
  mkPublishInput None "script-1" "echo 1" " Bash " entrypoint "" ["daily"; " daily"] "首次" (mkDistributionRule DistributionOnDemand "" ∅)
    [] (mkResources 0 0 0) "".

Definition start_library : Library :=
  mkLibrary (empty_tables <| scripts := {["script-1" := mkScriptRow "report" "" "bash" None 1 1]} |>
               <| script_drafts := {["script-1" := mkDraftRow None "echo 0" no_manifest None 1 1]} |>) ∅.

Abbreviation publish_run entrypoint := (publish cjk (report_input entrypoint) (start_library, calm ["version-1"; "version-2"] 5)).
Abbreviation published_library := ((publish_run "main.sh").1.1).
Definition report_manifest (entrypoint : string) : Manifest :=
  mkManifest None "bash" entrypoint uncategorized ["daily"] (mkDistributionRule DistributionOnDemand "" ∅) [] (mkResources 100 134217728 134217728).
Definition report_archive (entrypoint : string) : string :=
  match buildArchive "echo 1" (report_manifest entrypoint) with Ok archive => archive | Err _ => "" end.

Lemma report_portable : portable (report_manifest "main.sh").
Proof. split; [by vm_compute|by vm_compute|done]. Qed.

Lemma report_accepted entrypoint :
  bool_decide (entrypoint ∈ ["main.sh"; "manifest.json"]) = true → check_publish cjk (report_input entrypoint) = Ok (report_manifest entrypoint).
Proof.
  intros H%bool_decide_eq_true. repeat (apply elem_of_cons in H as [->|H]; [by vm_compute|]). by apply elem_of_nil in H.
Qed.

Lemma report_built entrypoint : buildArchive "echo 1" (report_manifest entrypoint) = Ok (report_archive entrypoint).
Proof. done. Qed.

Lemma report_size : len (report_archive "main.sh") ≤ MaxScriptBytes * 2 + 1.
Proof. by vm_compute. Qed.

Lemma start_honest : honest (part (X := Bucket) start_library).
Proof. apply map_Forall_empty. Qed.

Lemma library_invariant_witness :
  let ops := [LibraryCreate (mkScriptCreateInput "report" "" "bash" "" "" [] "echo 0" "");
              LibraryPublish (report_input "main.sh");
              LibraryRollback (mkRollbackInput "script-1" "version-1" "回退" "");
              LibraryRead "script-1" "version-2"] in
  let '((c', _), r) := for_each ops (library_perform cjk) (mkLibrary empty_tables ∅, calm ["script-1"; "version-1"; "version-2"] 5) in
  is_ok r = true ∧ library_ok (lib_db c') (lib_bucket c') ∧ dom (script_versions (lib_db c')) = {["version-1"; "version-2"]}.
Proof.
  intros ops.
  assert (library_ok (part (X := DB) (mkLibrary empty_tables ∅)) (part (X := Bucket) (mkLibrary empty_tables ∅))) as Hok.
  { split; try done. intros id. split; by intros [? ?]. }
  pose proof (library_invariant cjk ops (mkLibrary empty_tables ∅) Hok (calm ["script-1"; "version-1"; "version-2"] 5)) as H.
  destruct (for_each ops (library_perform cjk) _) as [[c' o'] r] eqn:E. destruct H as (Hr & Hok' & _).
  split; [exact Hr|]. split; [exact Hok'|].
  assert (c' = (for_each ops (library_perform cjk) (mkLibrary empty_tables ∅, calm ["script-1"; "version-1"; "version-2"] 5)).1.1) as ->.
  { by rewrite E. }
  by vm_compute.
Defined.

Lemma published_content_readable_witness :
  ∃ v, (publish_run "main.sh").2 = Ok v ∧ ver_Number v = 1 ∧
  ((∃ object, (part published_library : Bucket) !! ver_ArtifactURI v = Some object ∧ collision (ob_body object) (report_archive "main.sh")) ∨
   reads (VersionContent (ver_ScriptID v) (ver_ID v)) published_library "echo 1").
Proof.
  assert (∃ v, (publish_run "main.sh").2 = Ok v ∧ ver_Number v = 1) as (v & Hv & Hn) by (eexists; split; [vm_compute; reflexivity|reflexivity]).
  exists v. split; [exact Hv|]. split; [exact Hn|].
  destruct (wp_result _ _ _ (calm ["version-1"; "version-2"] 5)
    (published_content_readable cjk (report_input "main.sh") (report_manifest "main.sh") (report_archive "main.sh") start_library
       start_honest (report_accepted "main.sh" eq_refl) (report_built "main.sh") report_portable report_size) v Hv) as [Hc|Hread];
    [left; exact Hc|right].
  exact (Hread published_library (library_evolves_refl _ _)).
Defined.

Lemma manifest_entrypoint_unreadable_witness :
  ∃ v, (publish_run "manifest.json").2 = Ok v ∧
  ((∃ object, (part (X := Bucket) (publish_run "manifest.json").1.1) !! ver_ArtifactURI v = Some object ∧
      collision (read_limited (MaxScriptBytes * 2 + 1) (ob_body object)) (report_archive "manifest.json")) ∨
   wp (VersionContent (ver_ScriptID v) (ver_ID v)) (publish_run "manifest.json").1.1 (λ r c, c = (publish_run "manifest.json").1.1 ∧ is_ok r = false)).
Proof.
  assert (∃ v, (publish_run "manifest.json").2 = Ok v) as (v & Hv) by (eexists; vm_compute; reflexivity).
  exists v. split; [exact Hv|].
  destruct (wp_result _ _ _ (calm ["version-1"; "version-2"] 5)
    (manifest_entrypoint_unreadable cjk (report_input "manifest.json") (report_manifest "manifest.json") (report_archive "manifest.json")
       start_library start_honest (report_accepted "manifest.json" eq_refl) (report_built "manifest.json") eq_refl) v Hv) as [Hc|Hread];
    [left; exact Hc|right].
  exact (Hread _ (library_evolves_refl _ _)).
Defined.


Definition report_digest : string := digest_hex (report_archive "main.sh").
Definition report_version : VersionRow := version_row (report_input "main.sh") (report_manifest "main.sh") report_digest 1 5.

Definition report_library : Library :=
  mkLibrary ((lib_db start_library) <| script_versions := {["version-1" := report_version]} |>)
    {[object_key "script-1" report_digest := mkObject (report_archive "main.sh") report_digest]}.

Lemma report_library_ok : library_ok (part (X := DB) report_library) (part (X := Bucket) report_library).
Proof.
  assert (∀ id row, script_versions (lib_db report_library) !! id = Some row → id = "version-1" ∧ row = report_version) as Hrow.
  { intros id row H. change (({["version-1" := report_version]} : gmap string VersionRow) !! id = Some row) in H.
    by apply lookup_singleton_Some in H as [<- <-]. }
  split.
  - by apply map_Forall_singleton.
  - intros id row [-> ->]%Hrow. eexists. split; [apply lookup_singleton_eq|done].
  - intros id id' row row' [-> _]%Hrow [-> _]%Hrow. done.
  - intros id row [-> ->]%Hrow. split; [done|]. by eexists.
  - intros id. change (is_Some (({["script-1" := mkScriptRow "report" "" "bash" None 1 1]} : gmap string ScriptRow) !! id) ↔
      is_Some (({["script-1" := mkDraftRow None "echo 0" no_manifest None 1 1]} : gmap string DraftRow) !! id)).
    destruct (decide (id = "script-1")) as [->|Hne]; [by rewrite !lookup_singleton_eq|]. by rewrite !lookup_singleton_ne.
  - intros id draft base H. change (({["script-1" := mkDraftRow None "echo 0" no_manifest None 1 1]} : gmap string DraftRow) !! id = Some draft) in H.
    by apply lookup_singleton_Some in H as [<- <-].
Qed.

Lemma report_stored : stored_version cjk (part (X := DB) report_library) (part (X := Bucket) report_library) "version-1" report_version "echo 1".
Proof.
  exists (report_input "main.sh"), (report_archive "main.sh"), (mkObject (report_archive "main.sh") report_digest).
  split_and!; [apply lookup_singleton_eq|reflexivity|reflexivity|by apply check_publish_iff, report_accepted|reflexivity|apply report_built|
    apply report_size|reflexivity|reflexivity|vm_compute; reflexivity|apply lookup_singleton_eq|reflexivity].
Qed.

Abbreviation rollback_run := (Rollback cjk (mkRollbackInput "script-1" "version-1" "回退" "") (report_library, calm ["version-2"] 6)).

Lemma rollback_restores_witness :
  ∃ v, rollback_run.2 = Ok v ∧ ver_Number v = 2 ∧ ver_Manifest v = report_manifest "main.sh" ∧ ver_ArtifactSHA256 v = report_digest ∧
    reads (VersionContent (ver_ScriptID v) (ver_ID v)) rollback_run.1.1 "echo 1".
Proof.
  assert (∃ v, rollback_run.2 = Ok v ∧ ver_Number v = 2) as (v & Hv & Hn) by (eexists; split; [vm_compute; reflexivity|reflexivity]).
  exists v. split; [exact Hv|]. split; [exact Hn|].
  pose proof (wp_result _ _ _ (calm ["version-2"] 6)
    (rollback_restores cjk (mkRollbackInput "script-1" "version-1" "回退" "") report_library report_version "echo 1" report_library_ok
       report_stored report_portable eq_refl)) as [_ H].
  rewrite Hv in H. destruct H as (H1 & H2 & _ & _ & _ & H3). split; [exact H1|]. split; [exact H2|exact H3].
Defined.

Lemma publish_correct_witness :
  publish cjk (report_input "../main.sh") (start_library, calm ["version-1"] 5) = ((start_library, calm ["version-1"] 5), Err ErrInvalidPublish) ∧
  publish_post cjk (report_input "main.sh") start_library (publish_run "main.sh").2 (publish_run "main.sh").1.1.
Proof.
  split; [vm_compute; reflexivity|].
  exact (proj1 (wp_result _ _ _ (calm ["version-1"; "version-2"] 5) (publish_correct cjk (report_input "main.sh") start_library))).
Defined.
