(* ===== verification/LogArchive.v ===== *)
(** * LogArchive

    [internal/logstream/archive.go], [archive_worker.go] and the download of
    [archive_http.go]: the logs of a finished run are written to the object store as one
    compressed file.

    [json.Encoder] into [gzip.Writer] is the interface [LogFormat].  The ingestion of
    artifacts in archive.go is not used by any command. *)

From S2P Require Import Prelude GoStd GoPath GoCrypto Model World Schema Session Lifecycle RunEvents Reconcile Sha256 Redaction Secrets Logs Accounts ObjectStore ScriptService ScriptLibrary.

Definition DefaultArchiveThreshold : Z := 1048576.
Definition ArchiveQuietPeriod : Duration := 30 * second.

Record ArchiveRecord : Type := mkArchiveRecord {
  rec_RunID : string; rec_ObjectKey : string; rec_ByteSize : Z; rec_SHA256 : string; rec_FirstLogAt : Time; rec_LastLogAt : Time;
  rec_ArchivedAt : Time; rec_LastLogCursor : Z; rec_ChunkCount : Z
}.

Record ArchiveInfo : Type := mkArchiveInfo {
  ai_Available : bool; ai_Current : bool; ai_ByteSize : Z; ai_SHA256 : string; ai_ArchivedAt : option Time; ai_ChunkCount : Z; ai_ObjectKey : string
}.

(** [archiveLogEntry] *)
Record archiveLogEntry : Type := mkArchiveLogEntry {
  en_runId : string; en_sequence : Z; en_stream : string; en_content : string; en_createdAt : Time
}.

Definition entry_of (chunk : LogChunk) : archiveLogEntry :=
  mkArchiveLogEntry (lg_RunID chunk) (lg_Sequence chunk) (lg_Stream chunk) (lg_Content chunk) (lg_CreatedAt chunk).

(** The texts of an entry are UTF-8. *)
Definition entry_text (e : archiveLogEntry) : Prop :=
  ValidString (en_runId e) = true ∧ ValidString (en_stream e) = true ∧ ValidString (en_content e) = true.

(** The compressed lines, and reading them.  The encoder fails on a time outside the
    years 0 to 9999 and replaces what is not UTF-8. *)
Class LogFormat : Type := {
  compress : list archiveLogEntry → option string;
  decompress : string → option (list archiveLogEntry);
  decompress_compress : ∀ entries bytes, compress entries = Some bytes → Forall entry_text entries → decompress bytes = Some entries
}.

(** ** The statements *)

Definition run_rows (runID : string) (rows : list LogRow) : list LogRow := filter (λ l, lc_task_run_id l = runID) rows.

(** [ORDER BY created_at, stream, sequence, archive_cursor] *)
Definition archive_order (a b : LogRow) : bool :=
  (lc_created_at a <? lc_created_at b) ||
  ((lc_created_at a =? lc_created_at b) &&
   (string_lt (lc_stream a) (lc_stream b) ||
    (bool_decide (lc_stream a = lc_stream b) &&
     ((lc_sequence a <? lc_sequence b) || ((lc_sequence a =? lc_sequence b) && (lc_archive_cursor a <? lc_archive_cursor b)))))).

Definition chunk_of (l : LogRow) : LogChunk :=
  mkLogChunk (lc_archive_cursor l) (lc_task_run_id l) (lc_execution_token l) (lc_sequence l) (lc_stream l) (lc_content l) (lc_created_at l).

Definition loaded_chunks (runID : string) (rows : list LogRow) : list LogChunk := chunk_of <$> stable_sort archive_order (run_rows runID rows).

Definition last_cursor (cursors : list Z) : Z := foldr Z.max 0 cursors.

Definition archive_row (record : ArchiveRecord) : ArchiveRow :=
  mkArchiveRow (rec_ObjectKey record) (rec_ByteSize record) (rec_SHA256 record) (rec_FirstLogAt record) (rec_LastLogAt record)
    (rec_ArchivedAt record) (rec_LastLogCursor record) (rec_ChunkCount record).

(** [ON CONFLICT ... DO UPDATE ... WHERE]: only an archive of at least as many chunks replaces one. *)
Definition supersedes (record : ArchiveRecord) (row : ArchiveRow) : bool :=
  (av_chunk_count row <? rec_ChunkCount record) ||
  ((rec_ChunkCount record =? av_chunk_count row) && (av_last_log_cursor row <=? rec_LastLogCursor record)).

Definition save_archive (record : ArchiveRecord) (d : DB) : option DB :=
  let archives := run_log_archives (logs d) in
  if negb (bool_decide (is_Some (task_runs d !! rec_RunID record))) || negb (len (rec_SHA256 record) =? 64) || (rec_ByteSize record <? 0) ||
     (rec_LastLogCursor record <? 0) || (rec_ChunkCount record <? 0) ||
     existsb (λ p, negb (bool_decide (p.1 = rec_RunID record)) && bool_decide (av_object_key p.2 = rec_ObjectKey record)) (map_to_list archives)
  then None
  else
    match archives !! rec_RunID record with
    | Some row => if supersedes record row then Some (d <| logs ::= λ l, l <| run_log_archives ::= <[rec_RunID record := archive_row record]> |> |>) else Some d
    | None => Some (d <| logs ::= λ l, l <| run_log_archives ::= <[rec_RunID record := archive_row record]> |> |>)
    end.

(** ** archive.go *)

Section archiver.
Context {C : Type} `{!Has DB C, !Has Bucket C, format : !LogFormat} (threshold : Z).

Definition LoadForArchive (runID : string) : Prog C (list LogChunk * bool) :=
  let! state := pool_query "读取归档任务状态" (λ d, tr_state <$> task_runs d !! runID) in
  match state with
  | None => throw ErrRunNotFound
  | Some state =>
    let! chunks := pool_query "读取待归档日志" (λ d, loaded_chunks runID (log_chunks d)) in
    ret (chunks, Terminal state)
  end.

Definition SaveArchive (record : ArchiveRecord) : Prog C unit :=
  pool "保存日志归档索引" (λ d, d' ← save_archive record d; Some (d', tt)).

Definition archive_key (runID checksum : string) : string := "runs/" +:+ runID +:+ "/logs/" +:+ checksum +:+ ".ndjson.gz".

(** What follows the loading: chunks may be accepted in between. *)
Definition archive_chunks (runID : string) (chunks : list LogChunk) (completed : bool) : Prog C string :=
  let uncompressed := foldr (λ chunk sum, len (lg_Content chunk) + sum) 0 chunks in
  let lastCursor := last_cursor (lg_ArchiveCursor <$> chunks) in
  match chunks with
  | [] => throw ErrRunNotArchivable
  | first :: rest =>
    if negb completed || (uncompressed <? threshold) then throw ErrRunNotArchivable
    else
      match compress (entry_of <$> chunks) with
      | None => throw (EOther "编码归档日志")
      | Some compressed =>
        let checksum := digest_hex compressed in
        let key := archive_key runID checksum in
        let! saved := catch (Put key compressed (len compressed) checksum) in
        match saved with
        | Err _ => throw (EOther "保存归档日志")
        | Ok _ =>
          let! now := clock_now in
          SaveArchive (mkArchiveRecord runID key (len compressed) checksum (lg_CreatedAt first) (lg_CreatedAt (List.last rest first)) now
            lastCursor (Z.of_nat (length chunks))) ;;!
          ret key
        end
      end
  end.

Definition Archive (runID : string) : Prog C string :=
  if bool_decide (TrimSpace runID = "") || (threshold <? 0) then throw ErrRunNotArchivable
  else
    let! loaded := LoadForArchive runID in
    archive_chunks runID loaded.1 loaded.2.

(** ** archive_worker.go *)

Definition archive_candidate (quietBefore : Time) (d : DB) (p : string * RunRow) : bool :=
  let rows := run_rows p.1 (log_chunks d) in
  let row := p.2 in
  negb (bool_decide (rows = [])) &&
  bool_decide (tr_state row ∈ [Succeeded; Failed; TimedOut; Cancelled; Expired]) &&
  (threshold <=? foldr Z.add 0 (lc_byte_size <$> rows)) && forallb (λ l, lc_received_at l <=? quietBefore) rows &&
  (default (tr_updated_at row) (tr_finished_at row) <=? quietBefore) &&
  match run_log_archives (logs d) !! p.1 with
  | None => true
  | Some archive => negb (av_last_log_cursor archive =? last_cursor (lc_archive_cursor <$> rows)) || negb (av_chunk_count archive =? Z.of_nat (length rows))
  end.

Definition candidate_time (d : DB) (p : string * RunRow) : Time :=
  match run_log_archives (logs d) !! p.1 with
  | Some archive => av_archived_at archive
  | None => default (rs_created_at (tr_spec p.2)) (tr_finished_at p.2)
  end.

Definition ListArchiveCandidates (quietBefore : Time) (limit : nat) : Prog C (list string) :=
  pool_query "读取日志归档候选" (λ d,
    take limit (stable_sort (λ a b, (candidate_time d a <? candidate_time d b) || ((candidate_time d a =? candidate_time d b) && string_lt a.1 b.1))
      (filter (λ p, archive_candidate quietBefore d p = true) (map_to_list (task_runs d)))).*1).

Fixpoint archive_each (ids : list string) : Prog C (list Error) :=
  match ids with
  | [] => ret []
  | id :: rest =>
    let! r := catch (Archive id) in
    let! failures := archive_each rest in
    ret (match r with Ok _ | Err ErrRunNotArchivable => failures | Err e => e :: failures end)
  end.

Definition Sweep : Prog C unit :=
  let! now := clock_now in
  let! ids := ListArchiveCandidates (now - ArchiveQuietPeriod) 10 in
  let! failures := archive_each ids in
  match failures with [] => ret tt | _ => throw (EJoined failures) end.

(** ** archive_http.go *)

Definition status_of (runID : string) (d : DB) : option ArchiveInfo :=
  match task_runs d !! runID with
  | None => None
  | Some _ =>
    let rows := run_rows runID (log_chunks d) in
    Some match run_log_archives (logs d) !! runID with
         | None => mkArchiveInfo false false 0 "" None 0 ""
         | Some archive =>
           mkArchiveInfo true ((av_last_log_cursor archive =? last_cursor (lc_archive_cursor <$> rows)) && (av_chunk_count archive =? Z.of_nat (length rows)))
             (av_byte_size archive) (av_sha256 archive) (Some (av_archived_at archive)) (av_chunk_count archive) (av_object_key archive)
         end
  end.

Definition ArchiveStatus (runID : string) : Prog C ArchiveInfo :=
  let! found := pool_query "" (status_of runID) in
  match found with Some info => ret info | None => throw ErrRunNotFound end.

Definition archiveInfo `{!UUIDs} (id : string) : Prog C ArchiveInfo :=
  match parse_uuid id with None => throw (EOther "errInvalidArchiveRun") | Some _ => ArchiveStatus id end.

(** The body that is sent for [GET /api/runs/{id}/logs/archive]. *)
Definition download_archive `{!UUIDs} (runID : string) : Prog C string :=
  let! info := archiveInfo runID in
  if negb (ai_Available info) then throw (EOther "ErrArchiveNotFound")
  else if negb (ai_Current info) then throw (EOther "ErrArchiveOutdated")
  else Open (ai_ObjectKey info).

End archiver.

(** ** What an archive holds *)

(** [row] is the index of the archive of the chunks of a run among [rows]. *)
Definition archive_of `{format : !LogFormat} (rows : list LogRow) (runID : string) (row : ArchiveRow) : Prop :=
  let chunks := loaded_chunks runID rows in
  ∃ bytes, compress (entry_of <$> chunks) = Some bytes ∧ av_sha256 row = digest_hex bytes ∧
    av_object_key row = archive_key runID (digest_hex bytes) ∧ av_last_log_cursor row = last_cursor (lg_ArchiveCursor <$> chunks) ∧
    av_chunk_count row = Z.of_nat (length chunks).

(** Every archive is of the chunks stored at some time, and its object is in the bucket. *)
Definition archived `{format : !LogFormat} (d : DB) (b : Bucket) : Prop :=
  map_Forall (λ runID row,
    (∃ rows, rows `prefix_of` log_chunks d ∧ archive_of rows runID row) ∧
    ∃ object, b !! av_object_key row = Some object ∧ digest_hex (ob_body object) = av_sha256 row) (run_log_archives (logs d)).

Lemma loaded_length runID rows : length (loaded_chunks runID rows) = length (run_rows runID rows).
Proof. unfold loaded_chunks. by rewrite length_fmap, stable_sort_perm. Qed.

Lemma run_rows_prefix runID rows rows' : rows `prefix_of` rows' → run_rows runID rows `prefix_of` run_rows runID rows'.
Proof. intros [l ->]. unfold run_rows. rewrite filter_app. by apply prefix_app_r. Qed.

(** As many chunks of the run are all of them. *)
Lemma same_length_rows runID rows rows' :
  rows `prefix_of` rows' → (length (run_rows runID rows') ≤ length (run_rows runID rows))%nat → run_rows runID rows = run_rows runID rows'.
Proof.
  intros [l Hl]%(run_rows_prefix runID) Hn. rewrite Hl, length_app in Hn. destruct l; [by rewrite Hl, app_nil_r|simpl in Hn; lia].
Qed.

Lemma last_cursor_perm l l' : l ≡ₚ l' → last_cursor l = last_cursor l'.
Proof. unfold last_cursor. induction 1; simpl; lia. Qed.

Lemma loaded_cursor runID rows : last_cursor (lg_ArchiveCursor <$> loaded_chunks runID rows) = last_cursor (lc_archive_cursor <$> run_rows runID rows).
Proof. unfold loaded_chunks. rewrite <-list_fmap_compose. apply last_cursor_perm. by rewrite stable_sort_perm. Qed.

(** An archive that is current is of all the chunks. *)
Lemma archive_of_current `{!LogFormat} rows rows' runID row :
  rows `prefix_of` rows' → archive_of rows runID row → av_chunk_count row = Z.of_nat (length (run_rows runID rows')) → archive_of rows' runID row.
Proof.
  intros Hp (bytes & H1 & H2 & H3 & H4 & H5) Hn. rewrite loaded_length in H5.
  assert (run_rows runID rows = run_rows runID rows') as E by (apply same_length_rows; [done|lia]).
  assert (loaded_chunks runID rows = loaded_chunks runID rows') as El by (unfold loaded_chunks; by rewrite E).
  exists bytes. rewrite <-El, loaded_length. by split_and!.
Qed.

(** ** The archives over time *)

Definition counts_grow (d d' : DB) : Prop :=
  ∀ runID row, run_log_archives (logs d) !! runID = Some row →
    ∃ row', run_log_archives (logs d') !! runID = Some row' ∧ av_chunk_count row ≤ av_chunk_count row'.

#[export] Instance counts_grow_preorder : PreOrder counts_grow.
Proof.
  split; [intros d runID row H; by exists row|]. intros d d' d'' H1 H2 runID row H. destruct (H1 _ _ H) as (row' & H' & ?).
  destruct (H2 _ _ H') as (row'' & H'' & ?). exists row''. split; [done|lia].
Qed.

Lemma save_archive_inv record d d' :
  save_archive record d = Some d' →
  (d' = d ∧ ∃ row, run_log_archives (logs d) !! rec_RunID record = Some row ∧ supersedes record row = false) ∨
  (d' = d <| logs ::= λ l, l <| run_log_archives ::= <[rec_RunID record := archive_row record]> |> |> ∧
   ∀ row, run_log_archives (logs d) !! rec_RunID record = Some row → supersedes record row = true).
Proof.
  unfold save_archive. destruct (_ || _); [done|]. destruct (_ !! rec_RunID record) as [row|]; [|intros [= <-]; by right].
  destruct (supersedes record row) eqn:E; intros [= <-]; [right|left; split; [done|by exists row]]. split; [done|]. by intros ? [= <-].
Qed.

Lemma superseded_counts record row : supersedes record row = true → av_chunk_count row ≤ rec_ChunkCount record.
Proof. unfold supersedes. intros [H|H]%orb_true_iff; [lia|]. apply andb_true_iff in H as [H _]. lia. Qed.

Lemma save_archive_counts record d d' : save_archive record d = Some d' → counts_grow d d'.
Proof.
  intros [[-> _]|[-> Hs]]%save_archive_inv; [done|]. intros runID row H. simpl. destruct (decide (rec_RunID record = runID)) as [<-|Hne].
  - exists (archive_row record). rewrite lookup_insert_eq. split; [done|]. by apply superseded_counts, Hs.
  - exists row. by rewrite lookup_insert_ne.
Qed.

(** The invariant of the streams is about the rows and the cursor. *)
Lemma logs_ok_rows d d' : log_chunks d' = log_chunks d → log_cursor (logs d') = log_cursor (logs d) → logs_ok d → logs_ok d'.
Proof. intros E1 E2 [H1 H2 H3]. split; [intros runID token stream; unfold stream_rows; rewrite E1; apply H1|by rewrite E1|by rewrite E1, E2]. Qed.

Lemma save_archive_ok record d d' : save_archive record d = Some d' → logs_ok d → logs_ok d'.
Proof. by intros [[-> _]|[-> _]]%save_archive_inv; [|apply logs_ok_rows]. Qed.

Lemma save_archive_rows record d d' : save_archive record d = Some d' → log_chunks d' = log_chunks d.
Proof. by intros [[-> _]|[-> _]]%save_archive_inv. Qed.

Section laws.
Context {C : Type} `{!Has DB C, !Has Bucket C, !Apart DB Bucket C, !Apart Bucket DB C, format : !LogFormat, range : !StringRange, uuids : !UUIDs}.
Context (threshold : Z) (redaction : option (string → string → Prog C (list string))) (redaction_reads : reads_only redaction).

Definition holds (c : C) : Prop := archived (part c) (part c : Bucket) ∧ honest (part c : Bucket) ∧ logs_ok (part c).

(** What the archiver and the arrival of chunks do to the state. *)
Definition archive_step (c c' : C) : Prop :=
  log_chunks (part c) `prefix_of` log_chunks (part c') ∧ counts_grow (part c) (part c') ∧ (holds c → holds c').

#[local] Instance archive_step_preorder : PreOrder archive_step.
Proof.
  split; [intros c; by split_and!|]. intros a b c (H1 & H2 & H3) (H4 & H5 & H6). split_and!; [by etrans|by etrans|auto].
Qed.

(** A snapshot of the chunks of a run. *)
Definition snapshot (runID : string) (chunks : list LogChunk) (d : DB) : Prop :=
  ∃ rows, rows `prefix_of` log_chunks d ∧ chunks = loaded_chunks runID rows.

Lemma snapshot_grows runID chunks (d d' : DB) : log_chunks d `prefix_of` log_chunks d' → snapshot runID chunks d → snapshot runID chunks d'.
Proof. intros Hp (rows & Hr & ->). exists rows. split; [by etrans|done]. Qed.

Lemma archived_bucket (d : DB) (b b' : Bucket) : archived d b → (∀ key object, b !! key = Some object → b' !! key = Some object) → archived d b'.
Proof. intros H Hb runID row Hrow. destruct (H _ _ Hrow) as (H1 & object & H2 & H3). split; [done|]. exists object. auto. Qed.

Lemma archived_logs (d d' : DB) (b : Bucket) :
  archived d b → log_chunks d `prefix_of` log_chunks d' → run_log_archives (logs d') = run_log_archives (logs d) → archived d' b.
Proof.
  intros H Hp E. unfold archived. rewrite E. intros runID row Hrow. destruct (H _ _ Hrow) as [(rows & Hr & Ha) Ho]. split; [|done].
  exists rows. split; [by etrans|done].
Qed.

Lemma step_put (c : C) key body :
  (part c : Bucket) !! key = None → archive_step c (set_part (<[key := mkObject body (digest_hex body)]> (part c : Bucket)) c).
Proof.
  intros Hk. split_and!; [by rewrite apart|by rewrite apart|]. intros (Ha & Hh & Hok). unfold holds. rewrite apart, part_set. split_and!; [| |done].
  - eapply archived_bucket; [done|]. intros k object Ho. destruct (decide (k = key)) as [->|Hne]; [congruence|by rewrite lookup_insert_ne].
  - by apply map_Forall_insert_2.
Qed.

Lemma step_save (c : C) record d bytes chunks object :
  save_archive record (part c) = Some d →
  snapshot (rec_RunID record) chunks (part c) → compress (entry_of <$> chunks) = Some bytes →
  rec_SHA256 record = digest_hex bytes → rec_ObjectKey record = archive_key (rec_RunID record) (digest_hex bytes) →
  rec_LastLogCursor record = last_cursor (lg_ArchiveCursor <$> chunks) → rec_ChunkCount record = Z.of_nat (length chunks) →
  (part c : Bucket) !! rec_ObjectKey record = Some object → digest_hex (ob_body object) = digest_hex bytes →
  archive_step c (set_part d c).
Proof.
  intros Hs (rows & Hr & ->) Hb E1 E2 E3 E4 Ho Hd. split_and!; rewrite ?part_set; [by rewrite (save_archive_rows _ _ _ Hs)|by eapply save_archive_counts|].
  intros (Ha & Hh & Hok). unfold holds. rewrite part_set, apart. split_and!; [|done|by eapply save_archive_ok]. apply save_archive_inv in Hs as [[-> _]|[-> _]]; [done|].
  apply map_Forall_insert_2; [|exact Ha]. simpl. split; [|exists object; by rewrite E1].
  exists rows. split; [done|]. exists bytes. by split_and!.
Qed.

(** What is left after [archive_chunks] returned: the index is at least of these chunks. *)
Lemma archive_chunks_step runID chunks completed (c : C) :
  holds c → snapshot runID chunks (part c) →
  wp (archive_chunks threshold runID chunks completed) c (λ r c', archive_step c c' ∧ log_chunks (part c') = log_chunks (part c) ∧
    task_runs (part c') = task_runs (part c) ∧
    (is_ok r = true → ∃ row, run_log_archives (logs (part c')) !! runID = Some row ∧ Z.of_nat (length chunks) ≤ av_chunk_count row)).
Proof.
  intros Hc Hsnap. unfold archive_chunks. assert (∀ e, wp (throw e) c (λ (r : Result string) c', archive_step c c' ∧ log_chunks (part c') = log_chunks (part c) ∧
    task_runs (part c') = task_runs (part c) ∧
    (is_ok r = true → ∃ row, run_log_archives (logs (part c')) !! runID = Some row ∧ Z.of_nat (length chunks) ≤ av_chunk_count row))) as Hthrow.
  { intros e. by apply wp_throw. }
  destruct chunks as [|first rest] eqn:Echunks; [apply Hthrow|]. rewrite <-Echunks in *. destruct (negb _ || _); [apply Hthrow|].
  destruct (compress _) as [bytes|] eqn:Eb; [|apply Hthrow]. apply wp_bind, wp_catch, wp_Put.
  - intros e. apply wp_throw. by split_and!.
  - intros Hk e. apply wp_throw. split_and!; [by apply step_put|by rewrite apart..|done].
  - intros object c1 Hv Ho Hkey Hc1. assert (archive_step c c1 ∧ part (X := DB) c1 = part c) as [H1 Ed].
    { destruct Hc1 as [->|(Hk & -> & ->)]; [done|]. split; [by apply step_put|by rewrite apart]. }
    pose proof H1 as (_ & _ & Hh%(λ f, f Hc)). pose proof Hh as (_ & Hh' & _). destruct (verified_digest _ _ _ _ _ Hh' Ho Hv) as (_ & Hd & _).
    apply wp_bind, wp_clock_now. intros now. apply wp_bind, wp_pool; [by rewrite <-Ed|].
    intros d u Hs. destruct (save_archive _ _) as [d'|] eqn:Es; [|done]. injection Hs as <- _.
    assert (archive_step c (set_part d' c1)) as H2.
    { etrans; [exact H1|]. eapply step_save; [exact Es|..]; [by rewrite Ed|done..|exact Hd]. }
    assert (log_chunks (part (set_part d' c1)) = log_chunks (part c)) as El by (rewrite part_set, <-Ed; by eapply save_archive_rows).
    assert (task_runs (part (set_part d' c1)) = task_runs (part c)) as Et.
    { rewrite part_set, <-Ed. by apply save_archive_inv in Es as [[-> _]|[-> _]]. }
    split; [apply wp_ret|by split_and!]. split_and!; [done..|]. intros _. rewrite part_set.
    apply save_archive_inv in Es as [[-> (row & Hrow & Hs)]|[-> _]]; simpl in *.
    + exists row. split; [done|]. apply orb_false_iff in Hs as [Hs _]. simpl in Hs. lia.
    + rewrite lookup_insert_eq. eexists. split; [done|]. simpl. lia.
Qed.

Lemma wp_LoadForArchive runID (c : C) (Q : Result (list LogChunk * bool) → C → Prop) :
  (∀ e, Q (Err e) c) →
  (∀ completed, is_Some (task_runs (part c) !! runID) → Q (Ok (loaded_chunks runID (log_chunks (part c)), completed)) c) →
  wp (LoadForArchive runID) c Q.
Proof.
  intros He HQ. apply wp_bind, wp_pool_query; [apply He|]. destruct (task_runs (part c) !! runID) as [row|]; [|apply wp_throw, He].
  apply wp_bind, wp_pool_query; [apply He|]. by apply wp_ret, HQ.
Qed.

Lemma accept_step chunk (c : C) : wp (Accept redaction chunk) c (λ _ c', archive_step c c').
Proof.
  eapply wp_mono; [by apply moves_Accept|]. intros r c' [Hc [(l & Hl & Hp & Ha) Hlogs]]. assert (part (X := Bucket) c' = part c) as Eb by (rewrite Hc; apply apart).
  assert (log_chunks (part c) `prefix_of` log_chunks (part c')) as Hp' by by rewrite Hl.
  assert (run_log_archives (logs (part c')) = run_log_archives (logs (part c))) as Ea by by rewrite Hl.
  split_and!; [done| |].
  - intros runID row Hrow. exists row. by rewrite Ea.
  - intros (Hh1 & Hh2 & Hok). unfold holds. rewrite Eb. split_and!; [by eapply archived_logs|done|by apply Hlogs].
Qed.

(** *** Archiving while chunks arrive *)

(** The archiver loads the chunks of a run and later writes them; chunks arrive and other
    parts of the platform work in between, and several archivers may be under way. *)
Inductive Activity : Type :=
  | Arrive (chunk : LogChunk)
  | Load (runID : string)
  | Store (loaded : nat)
  | Elsewhere (f : DB → DB).

Fixpoint archiving (pending : list (string * (list LogChunk * bool))) (acts : list Activity) : Prog C unit :=
  match acts with
  | [] => ret tt
  | Arrive chunk :: rest => ignore (Accept redaction chunk) ;;! archiving pending rest
  | Load runID :: rest =>
    let! r := catch (LoadForArchive runID) in
    archiving (match r with Ok loaded => pending ++ [(runID, loaded)] | Err _ => pending end) rest
  | Store n :: rest =>
    match pending !! n with
    | Some (runID, (chunks, completed)) => ignore (archive_chunks threshold runID chunks completed)
    | None => ret tt
    end ;;! archiving pending rest
  | Elsewhere f :: rest => local (λ c, (set_part (f (part c)) c, tt)) ;;! archiving pending rest
  end.

(** The rest of the platform does not touch the logs. *)
Definition leaves_logs (acts : list Activity) : Prop := ∀ f, Elsewhere f ∈ acts → ∀ d, logs (f d) = logs d.

Lemma archiving_step pending acts (c : C) :
  leaves_logs acts → holds c → Forall (λ p, snapshot p.1 p.2.1 (part c)) pending →
  wp (archiving pending acts) c (λ r c', r = Ok tt ∧ archive_step c c').
Proof.
  revert pending c. induction acts as [|act acts IH]; intros pending c Hl Hc Hp; [by apply wp_ret|].
  assert (∀ (c1 : C) pending', archive_step c c1 → Forall (λ p, snapshot p.1 p.2.1 (part c1)) pending' →
    wp (archiving pending' acts) c1 (λ r c', r = Ok tt ∧ archive_step c c')) as Hnext.
  { intros c1 pending' H1 Hp'. eapply wp_mono; [apply IH; [intros f Hf; apply Hl; by right|by apply H1|done]|]. intros r c2 [-> H2]. split; [done|by etrans]. }
  assert (∀ c1, archive_step c c1 → Forall (λ p, snapshot p.1 p.2.1 (part c1)) pending) as Hgrow.
  { intros c1 (H1 & _). eapply Forall_impl; [exact Hp|]. intros p. by apply snapshot_grows. }
  destruct act as [chunk|runID|n|f]; simpl.
  - apply wp_bind, wp_ignore. eapply wp_mono; [apply accept_step|]. auto.
  - apply wp_bind, wp_catch, wp_LoadForArchive; [intros e; by apply Hnext|]. intros completed _. apply Hnext; [done|].
    apply Forall_app. split; [done|]. apply Forall_singleton. by eexists.
  - apply wp_bind. destruct (pending !! n) as [[runID [chunks completed]]|] eqn:En; [|by apply wp_ret, Hnext].
    apply wp_ignore. eapply wp_mono; [apply archive_chunks_step; [done|]|intros r c1 (H1 & _); auto].
    by apply (Forall_lookup_1 _ _ _ _ Hp En).
  - apply wp_bind, wp_local. simpl. assert (logs (f (part c)) = logs (part c)) as Ef by (apply Hl; left).
    assert (archive_step c (set_part (f (part c)) c)) as H1; [|auto]. unfold archive_step, counts_grow, log_chunks. rewrite part_set, Ef. split_and!; [done| |].
    + intros runID row Hrow. by exists row.
    + intros (Ha & Hh & Hok). unfold holds. rewrite part_set, apart. split_and!; [|done|by apply (logs_ok_rows (part c)); unfold log_chunks; rewrite ?Ef].
      unfold archived, log_chunks. rewrite Ef. exact Ha.
Qed.

(** However the arrival of chunks, the loading and the writing of archives and the
    rest of the platform interleave, with whatever failures, every archive index stays
    that of the chunks of its run as they were at some time, its object has the recorded
    digest, and the number of chunks of an archive never decreases: a slow archiver does
    not replace the archive of a later one. *)
Theorem archives_never_regress acts (c : C) :
  leaves_logs acts → holds c →
  wp (archiving [] acts) c (λ r c', r = Ok tt ∧ holds c' ∧ counts_grow (part c) (part c') ∧ log_chunks (part c) `prefix_of` log_chunks (part c')).
Proof.
  intros Hl Hc. eapply wp_mono; [by apply archiving_step|]. intros r c' (-> & H1 & H2 & H3). by split_and!; try apply H3.
Qed.

(** What a complete archive of a run holds. *)
Definition log_entries (runID : string) (d : DB) : list archiveLogEntry := entry_of <$> loaded_chunks runID (log_chunks d).

Lemma status_archive runID (d : DB) info :
  status_of runID d = Some info → ai_Available info = true → ai_Current info = true →
  ∃ row, run_log_archives (logs d) !! runID = Some row ∧ av_chunk_count row = Z.of_nat (length (run_rows runID (log_chunks d))) ∧
    ai_ObjectKey info = av_object_key row ∧ ai_SHA256 info = av_sha256 row.
Proof.
  unfold status_of. destruct (task_runs d !! runID); [|done]. destruct (run_log_archives (logs d) !! runID) as [row|]; intros [= <-]; [|done].
  intros _ (_ & Hn)%andb_true_iff. exists row. split_and!; [done|lia|done..].
Qed.

Lemma validStream_text stream : validStream stream = true → ValidString stream = true.
Proof. intros Hs%bool_decide_eq_true. repeat (apply elem_of_cons in Hs as [->|Hs]; [reflexivity|]). by apply elem_of_nil in Hs. Qed.

Lemma entries_valid runID (d : DB) : logs_ok d → Forall entry_text (log_entries runID d).
Proof.
  intros Hok. unfold log_entries, loaded_chunks. apply Forall_forall. intros e He.
  apply list_elem_of_fmap in He as (chunk & -> & He). apply list_elem_of_fmap in He as (l & -> & He). apply elem_of_stable_sort, list_elem_of_filter in He as [_ He].
  destruct (lo_rows _ Hok _ He) as (Hs & Ht & _ & Hid). apply andb_true_iff in Ht as [Ht _]. apply andb_true_iff in Hid as [Hid _].
  split_and!; [exact Hid| |exact Ht]. unfold entry_of. simpl. by apply validStream_text.
Qed.

(** C27: A log archive that is downloaded after any such interleaving is the complete log
    of the run as it stands at the download: it decompresses to the entries of all the
    chunks stored for the run, unless two byte strings with the same SHA-256 digest are
    exhibited. *)
Theorem download_complete acts runID (c : C) :
  leaves_logs acts → holds c →
  wp (archiving [] acts ;;! download_archive runID) c (λ r c', ∀ body, r = Ok body →
    decompress body = Some (log_entries runID (part c')) ∨
    ∃ bytes, compress (log_entries runID (part c')) = Some bytes ∧ body ≠ bytes ∧ digest_hex body = digest_hex bytes).
Proof.
  intros Hl Hc. apply wp_bind. eapply wp_mono; [by apply archiving_step|]. intros r c1 (-> & _ & _ & (Ha & _ & Hok)%(λ f, f Hc)).
  apply wp_bind. unfold archiveInfo. destruct (parse_uuid runID) as [id|]; [|by apply wp_throw]. apply wp_bind, wp_pool_query; [done|]. destruct (status_of runID (part c1)) as [info|] eqn:Es; [|by apply wp_throw]. apply wp_ret.
  destruct (ai_Available info) eqn:Ea; [|by apply wp_throw]. destruct (ai_Current info) eqn:Ecur; [|by apply wp_throw].
  unfold Open. simpl. destruct (negb _); [by apply wp_throw|]. apply wp_bind, wp_observe; [done|]. destruct (_ !! ai_ObjectKey info) as [object|] eqn:Eo; [|by apply wp_throw].
  apply wp_bind, wp_observe; [done|]. rewrite Eo. apply wp_ret. intros body [= <-].
  destruct (status_archive _ _ _ Es Ea Ecur) as (row & Hrow & Hn & Hkey & _). destruct (Ha _ _ Hrow) as [(rows & Hr & Harch) (object' & Ho' & Hd)].
  rewrite Hkey, Ho' in Eo. injection Eo as ->. destruct (archive_of_current _ _ _ _ Hr Harch Hn) as (bytes & Hb & Hsha & _). fold (log_entries runID (part c1)) in Hb.
  destruct (decide (ob_body object = bytes)) as [->|Hne]; [left|right; exists bytes; rewrite Hd, Hsha; done].
  eapply decompress_compress; [exact Hb|by apply entries_valid].
Qed.

(** When [Archive] has succeeded, the archive of the run is current and the sweep does not list the
    run again, until further chunks arrive. *)
Theorem archived_is_current runID quietBefore (c : C) :
  holds c →
  wp (Archive threshold runID) c (λ r c', is_ok r = true →
    (∃ info, status_of runID (part c') = Some info ∧ ai_Available info = true ∧ ai_Current info = true) ∧
    ∀ row, archive_candidate threshold quietBefore (part c') (runID, row) = false).
Proof.
  intros Hc. unfold Archive. destruct (_ || _); [by apply wp_throw|]. apply wp_bind, wp_LoadForArchive; [done|]. intros completed [run Hrun].
  eapply wp_mono; [apply archive_chunks_step; [done|by eexists]|]. intros r c' ((_ & _ & (Ha & _)%(λ f, f Hc)) & El & Et & Hr) Hok.
  destruct (Hr Hok) as (row & Hrow & Hn). cbn [fst] in Hn. rewrite loaded_length, <-El in Hn. destruct (Ha _ _ Hrow) as [(rows & Hp & Harch) _].
  assert (av_chunk_count row = Z.of_nat (length (run_rows runID (log_chunks (part c'))))) as Hcount.
  { destruct Harch as (bytes & _ & _ & _ & _ & Hcount). rewrite loaded_length in Hcount.
    pose proof (prefix_length _ _ (run_rows_prefix runID _ _ Hp)). lia. }
  destruct (archive_of_current _ _ _ _ Hp Harch Hcount) as (bytes & _ & _ & _ & Hcur & _). rewrite loaded_cursor in Hcur.
  rewrite <-Et in Hrun. split.
  - unfold status_of. rewrite Hrun, Hrow. eexists. split; [done|]. cbn [ai_Available ai_Current]. by rewrite Hcur, Hcount, !Z.eqb_refl.
  - intros row'. unfold archive_candidate. cbn [fst snd]. rewrite Hrow, Hcur, Hcount, !Z.eqb_refl. apply andb_false_r.
Qed.

End laws.

(** ** Examples *)

(** Every identifier without blanks at its ends counts as canonical. *)
#[local] Instance trimmed_uuids : UUIDs.
Proof.
  refine {| parse_uuid := λ value, if bool_decide (TrimSpace value = value) then Some value else None |}.
  intros value id H. case_bool_decide; simplify_eq. by rewrite bool_decide_true.
Defined.

#[local] Existing Instances library_db library_bucket library_db_bucket library_bucket_db in_order.

Definition entry_fields (e : archiveLogEntry) : list positive :=
  [encode (en_runId e); encode (en_sequence e); encode (en_stream e); encode (en_content e); encode (en_createdAt e)].

Fixpoint fields_entries (fields : list positive) : option (list archiveLogEntry) :=
  match fields with
  | runID :: sequence :: stream :: content :: created :: rest =>
    runID ← decode runID; sequence ← decode sequence; stream ← decode stream; content ← decode content; created ← decode created;
    entries ← fields_entries rest; Some (mkArchiveLogEntry runID sequence stream content created :: entries)
  | _ => Some []
  end.

Lemma fields_entries_fields entries : fields_entries (entries ≫= entry_fields) = Some entries.
Proof.
  induction entries as [|[] entries IH]; [done|]. cbn -[encode decode]. do 5 (rewrite decode_encode; cbn [mbind option_bind]). by setoid_rewrite IH.
Qed.

#[local] Instance digits_format : LogFormat.
Proof.
  refine {| compress := λ entries, Some (digits (encode (entries ≫= entry_fields)));
            decompress := λ s, p ← undigits s; fields ← decode p; fields_entries fields |}.
  intros entries bytes [= <-] _. rewrite undigits_digits. cbn [mbind option_bind]. rewrite decode_encode. apply fields_entries_fields.
Defined.

Definition finish (d : DB) : DB := d <| task_runs ::= alter (λ r, r <| tr_state := Succeeded |>) "run-1" |>.

(** The archiver that loaded first writes last. *)
Definition late_writer : list Activity :=
  [Arrive (out 1 "a"); Elsewhere finish; Load "run-1"; Arrive (out 2 "b"); Load "run-1"; Store 1; Store 0].

Lemma late_writer_leaves : leaves_logs late_writer.
Proof.
  intros f Hf d. unfold late_writer in Hf. repeat (apply elem_of_cons in Hf as [Hf|Hf]; [first [discriminate|injection Hf as ->; reflexivity]|]).
  by apply elem_of_nil in Hf.
Qed.

Definition run_library : Library := mkLibrary example_db ∅.

Lemma run_library_holds : holds run_library.
Proof. split_and!; [apply map_Forall_empty..|exact example_logs_ok]. Qed.

Abbreviation late_run := (archiving (C := Library) 0 None [] late_writer (run_library, calm [] 9)).

Lemma archives_never_regress_witness :
  (av_chunk_count <$> run_log_archives (logs (lib_db late_run.1.1)) !! "run-1") = Some 2 ∧ holds late_run.1.1.
Proof.
  split; [vm_compute; reflexivity|].
  exact (proj1 (proj2 (wp_result _ _ _ (calm [] 9)
    (archives_never_regress (C := Library) 0 None (λ values H, match H with eq_refl => I end) late_writer run_library late_writer_leaves run_library_holds)))).
Defined.

Abbreviation late_download := ((archiving (C := Library) 0 None [] late_writer ;;! download_archive "run-1") (run_library, calm [] 9)).

Lemma download_complete_witness :
  is_ok late_download.2 = true ∧ (en_content <$> log_entries "run-1" (lib_db late_download.1.1)) = ["a"; "b"] ∧
  ∃ body, late_download.2 = Ok body ∧
    (decompress body = Some (log_entries "run-1" (lib_db late_download.1.1)) ∨
     ∃ bytes, compress (log_entries "run-1" (lib_db late_download.1.1)) = Some bytes ∧ body ≠ bytes ∧ digest_hex body = digest_hex bytes).
Proof.
  assert (is_ok late_download.2 = true) as Hok by (vm_compute; reflexivity). split; [exact Hok|]. split; [vm_compute; reflexivity|].
  pose proof (wp_result _ _ _ (calm [] 9)
    (download_complete (C := Library) 0 None (λ values H, match H with eq_refl => I end) late_writer "run-1" run_library late_writer_leaves run_library_holds)) as H.
  revert Hok H. generalize late_download. intros [[c o] [body|e]] Hok H; [|discriminate].
  exists body. split; [reflexivity|]. exact (H body eq_refl).
Defined.

Definition finished_library : Library := mkLibrary (finish (lib_db (Accept (C := Library) None (out 1 "a") (run_library, calm [] 9)).1.1)) ∅.

Lemma archived_is_current_witness :
  is_ok (Archive (C := Library) 0 "run-1" (finished_library, calm [] 9)).2 = true ∧
  ∃ info, status_of "run-1" (lib_db (Archive (C := Library) 0 "run-1" (finished_library, calm [] 9)).1.1) = Some info ∧ ai_Current info = true.
Proof.
  assert (holds finished_library) as Hh.
  { split; [apply map_Forall_empty|]. split; [apply map_Forall_empty|]. apply (logs_ok_rows (lib_db (Accept (C := Library) None (out 1 "a") (run_library, calm [] 9)).1.1)); [reflexivity..|].
    destruct (wp_result _ _ _ (calm [] 9) (moves_Accept (C := Library) None (out 1 "a") run_library (λ values H, match H with eq_refl => I end))) as [_ [_ Hl]].
    exact (Hl example_logs_ok). }
  assert (is_ok (Archive (C := Library) 0 "run-1" (finished_library, calm [] 9)).2 = true) as Hok by (vm_compute; reflexivity). split; [exact Hok|].
  destruct (wp_result _ _ _ (calm [] 9) (archived_is_current (C := Library) 0 "run-1" 100 finished_library Hh) Hok) as [(info & H1 & _ & H2) _].
  exists info. split; [exact H1|exact H2].
Defined.
