(* ===== verification/Alerts.v ===== *)
(** * Alerts

    [internal/alert]: the alerts of the platform, and the trigger of migration 000011 that
    queues a notification when an alert opens or is resolved.

    The tables of alerts, notifications and rules form a part of the state of their own,
    next to the tables of [Schema].  Identifiers that the database generates are drawn
    from the same source as those of the program. *)

From S2P Require Import Prelude GoStd GoFloat Model World Schema Session SchedulerService Redaction.

(** ** Data *)

Definition SeverityInfo : string := "info".
Definition SeverityWarning : string := "warning".
Definition SeverityCritical : string := "critical".
Definition StatusOpen : string := "open".
Definition StatusAcknowledged : string := "acknowledged".
Definition StatusResolved : string := "resolved".

Definition ErrInvalidEvent : Error := EOther "告警事件内容无效".
Definition ErrAlertNotFound : Error := EOther "告警不存在".

(** A row of [alerts]. *)
Record AlertRow : Type := mkAlertRow {
  at_kind : string; at_severity : string; at_source_type : string; at_source_id : string; at_title : string; at_message : string;
  at_status : string; at_occurrence_count : Z; at_first_occurred_at : Time; at_last_occurred_at : Time;
  at_acknowledged_by : option string; at_acknowledged_at : option Time; at_resolved_at : option Time; at_created_at : Time; at_updated_at : Time
}.

#[export] Instance eta_AlertRow : Eta AlertRow := λ a,
  mkAlertRow (at_kind a) (at_severity a) (at_source_type a) (at_source_id a) (at_title a) (at_message a) (at_status a) (at_occurrence_count a)
    (at_first_occurred_at a) (at_last_occurred_at a) (at_acknowledged_by a) (at_acknowledged_at a) (at_resolved_at a) (at_created_at a) (at_updated_at a).

(** [alert.Alert] *)
Record Alert : Type := mkAlert {
  aw_ID : string; aw_Event : AlertEvent; aw_Status : string; aw_Occurrences : Z; aw_FirstOccurredAt : Time; aw_LastOccurredAt : Time;
  aw_AcknowledgedBy : string; aw_AcknowledgedAt : option Time; aw_ResolvedAt : option Time
}.

(** notification/feishu.go *)
Record FrozenMessage : Type := mkFrozenMessage {
  fm_Code : string; fm_Severity : string; fm_Title : string; fm_SourceType : string; fm_SourceID : string; fm_OccurrenceCount : Z; fm_OccurredAt : Time
}.

(** A row of [notification_outbox]. *)
Record OutboxRow : Type := mkOutboxRow {
  ox_alert_id : option string; ox_event_type : string; ox_payload : FrozenMessage; ox_idempotency_key : string; ox_status : string;
  ox_attempts : Z; ox_next_attempt_at : Time; ox_lease_until : option Time; ox_last_error : string; ox_response_id : string;
  ox_created_at : Time; ox_sent_at : option Time; ox_updated_at : Time
}.

#[export] Instance eta_OutboxRow : Eta OutboxRow := λ o,
  mkOutboxRow (ox_alert_id o) (ox_event_type o) (ox_payload o) (ox_idempotency_key o) (ox_status o) (ox_attempts o) (ox_next_attempt_at o)
    (ox_lease_until o) (ox_last_error o) (ox_response_id o) (ox_created_at o) (ox_sent_at o) (ox_updated_at o).

(** The row of [notification_configs] for the channel 'feishu'. *)
Record ConfigRow : Type := mkConfigRow {
  nc_enabled : bool; nc_webhook_secret_id : string; nc_signing_secret_id : string; nc_masked_destination : string;
  nc_created_by : option string; nc_updated_by : option string; nc_created_at : Time; nc_updated_at : Time
}.

(** ops/rules.go *)
Record RuleKey : Type := mkRuleKey { rk_Code : string; rk_SourceType : string; rk_SourceID : string }.

#[export] Instance RuleKey_eq_dec : EqDecision RuleKey.
Proof. solve_decision. Defined.
#[export] Instance RuleKey_countable : Countable RuleKey.
Proof.
  refine (inj_countable' (λ k, (rk_Code k, rk_SourceType k, rk_SourceID k)) (λ '(a, b, c), mkRuleKey a b c) _). by intros [].
Defined.

Record RuleState : Type := mkRuleState {
  rl_Active : bool; rl_DesiredActive : bool; rl_ConsecutiveBad : Z; rl_ConsecutiveGood : Z; rl_LastValue : option float64; rl_LastEvaluatedAt : Time
}.

#[export] Instance eta_RuleState : Eta RuleState := λ s,
  mkRuleState (rl_Active s) (rl_DesiredActive s) (rl_ConsecutiveBad s) (rl_ConsecutiveGood s) (rl_LastValue s) (rl_LastEvaluatedAt s).

Record AlertTables : Type := mkAlertTables {
  alerts_rows : gmap string AlertRow;
  notification_config : option ConfigRow;
  notification_outbox : gmap string OutboxRow;
  alert_rule_states : gmap RuleKey RuleState
}.

#[export] Instance eta_AlertTables : Eta AlertTables := λ t,
  mkAlertTables (alerts_rows t) (notification_config t) (notification_outbox t) (alert_rule_states t).

Definition no_alert_tables : AlertTables := mkAlertTables ∅ None ∅ ∅.

(** ** The trigger *)

Definition feishu_enabled (t : AlertTables) : bool := match notification_config t with Some config => nc_enabled config | None => false end.

Definition alert_key (alertID event : string) : string := "alert:" +:+ alertID +:+ ":" +:+ event.

(** [enqueue_alert_notification]: [old] is the row before an [UPDATE] of the status;
    [id] and [now] are the defaults of the new row. *)
Definition enqueue_alert_notification (old : option AlertRow) (alertID : string) (new : AlertRow) (id : string) (now : Time) (t : AlertTables) : option AlertTables :=
  let event :=
    match old with
    | None => if bool_decide (at_status new = StatusOpen) then Some ("opened", at_last_occurred_at new) else None
    | Some old =>
      if negb (bool_decide (at_status old = StatusResolved)) && bool_decide (at_status new = StatusResolved) &&
         existsb (λ p, bool_decide (ox_alert_id p.2 = Some alertID) && bool_decide (ox_event_type p.2 = "opened")) (map_to_list (notification_outbox t))
      then Some ("recovered", default (at_updated_at new) (at_resolved_at new)) else None
    end in
  match event with
  | Some (event_type, event_time) =>
    if negb (feishu_enabled t) then Some t
    else if existsb (λ p, bool_decide (ox_idempotency_key p.2 = alert_key alertID event_type)) (map_to_list (notification_outbox t)) then Some t
    else if bool_decide (is_Some (notification_outbox t !! id)) then None
    else
      let payload := mkFrozenMessage (at_kind new) (at_severity new) (at_title new) (at_source_type new) (at_source_id new) (at_occurrence_count new) event_time in
      Some (t <| notification_outbox ::= <[id := mkOutboxRow (Some alertID) event_type payload (alert_key alertID event_type) "pending" 0 now None "" "" now None now]> |>)
  | None => Some t
  end.

(** ** postgres.go *)

(** [kind=$1 AND source_type=$2 AND source_id=$3] *)
Definition about (resourceType resourceID code : string) (a : AlertRow) : bool :=
  bool_decide (at_kind a = code) && bool_decide (at_source_type a = resourceType) && bool_decide (at_source_id a = resourceID).

Definition of_event (event : AlertEvent) (a : AlertRow) : bool := about (al_ResourceType event) (al_ResourceID event) (al_Code event) a.

Definition merge_target (event : AlertEvent) (mergeSince : Time) (t : AlertTables) : option (string * AlertRow) :=
  head (stable_sort (λ a b, at_last_occurred_at b.2 <? at_last_occurred_at a.2)
    (filter (λ p, of_event event p.2 && bool_decide (at_status p.2 = StatusOpen) && (mergeSince <=? at_last_occurred_at p.2) = true) (map_to_list (alerts_rows t)))).

Definition merged_alert (event : AlertEvent) (occurredAt : Time) (a : AlertRow) : AlertRow :=
  a <| at_occurrence_count := at_occurrence_count a + 1 |> <| at_severity := al_Severity event |> <| at_title := al_Title event |>
    <| at_message := al_Message event |> <| at_last_occurred_at := occurredAt |> <| at_updated_at := occurredAt |>.

Definition valid_severity (severity : string) : bool := bool_decide (severity ∈ [SeverityInfo; SeverityWarning; SeverityCritical]).

(** The number of rows; [integer] and the [CHECK] of the severity limit the new values. *)
Definition merge_alert (event : AlertEvent) (occurredAt mergeSince : Time) (t : AlertTables) : option (AlertTables * bool) :=
  match merge_target event mergeSince t with
  | None => Some (t, false)
  | Some (id, a) =>
    if negb (valid_severity (al_Severity event)) || (2 ^ 31 <=? at_occurrence_count a + 1) then None
    else Some (t <| alerts_rows ::= <[id := merged_alert event occurredAt a]> |>, true)
  end.

Definition new_alert (event : AlertEvent) (occurredAt : Time) : AlertRow :=
  mkAlertRow (al_Code event) (al_Severity event) (al_ResourceType event) (al_ResourceID event) (al_Title event) (al_Message event) StatusOpen 1
    occurredAt occurredAt None None None occurredAt occurredAt.

Definition insert_alert (event : AlertEvent) (occurredAt : Time) (id outboxID : string) (now : Time) (t : AlertTables) : option AlertTables :=
  if negb (valid_severity (al_Severity event)) || bool_decide (is_Some (alerts_rows t !! id)) then None
  else enqueue_alert_notification None id (new_alert event occurredAt) outboxID now (t <| alerts_rows ::= <[id := new_alert event occurredAt]> |>).

(** [ORDER BY last_occurred_at DESC, id DESC] *)
Definition latest_first (a b : string * AlertRow) : bool :=
  (at_last_occurred_at b.2 <? at_last_occurred_at a.2) || ((at_last_occurred_at a.2 =? at_last_occurred_at b.2) && string_lt b.1 a.1).

Definition resolve_target (resourceType resourceID code : string) (t : AlertTables) : option (string * AlertRow) :=
  head (stable_sort latest_first
    (filter (λ p, about resourceType resourceID code p.2 && bool_decide (at_status p.2 ∈ [StatusOpen; StatusAcknowledged]) = true) (map_to_list (alerts_rows t)))).

Definition resolved_alert (at_ : Time) (a : AlertRow) : AlertRow :=
  a <| at_status := StatusResolved |> <| at_resolved_at := Some at_ |> <| at_updated_at := at_ |>.

Definition resolve_alert (resourceType resourceID code : string) (at_ : Time) (outboxID : string) (now : Time) (t : AlertTables) : option AlertTables :=
  match resolve_target resourceType resourceID code t with
  | None => Some t
  | Some (id, a) => enqueue_alert_notification (Some a) id (resolved_alert at_ a) outboxID now (t <| alerts_rows ::= <[id := resolved_alert at_ a]> |>)
  end.

Definition acknowledged_alert (userID : string) (at_ : Time) (a : AlertRow) : AlertRow :=
  a <| at_status := StatusAcknowledged |> <| at_acknowledged_by := Some userID |> <| at_acknowledged_at := Some at_ |> <| at_updated_at := at_ |>.

Definition alert_of (p : string * AlertRow) : Alert :=
  let a := p.2 in
  mkAlert p.1 (mkAlertEvent (at_source_type a) (at_source_id a) (at_kind a) (at_severity a) (at_title a) (at_message a)) (at_status a)
    (at_occurrence_count a) (at_first_occurred_at a) (at_last_occurred_at a) (default "" (at_acknowledged_by a)) (at_acknowledged_at a) (at_resolved_at a).

Definition status_rank (a : AlertRow) : Z :=
  if bool_decide (at_status a = StatusOpen) then 0 else if bool_decide (at_status a = StatusAcknowledged) then 1 else 2.

Section repository.
Context {C : Type} `{!Has DB C, !Has AlertTables C}.

Definition MergeOrCreate (event : AlertEvent) (occurredAt mergeSince : Time) : Prog C unit :=
  transaction "" (
    let! merged := stmt (T := AlertTables) "合并告警" (merge_alert event occurredAt mergeSince) in
    (if merged : bool then ret tt
     else
       let! id := new_uuid in
       let! outboxID := new_uuid in
       let! now := clock_now in
       exec "创建告警" (insert_alert event occurredAt id outboxID now)) ;;!
    commit "").

Definition Alerts_List : Prog C (list Alert) :=
  pool_query (T := AlertTables) "读取告警" (λ t,
    alert_of <$> take 200 (stable_sort (λ a b, (status_rank a.2 <? status_rank b.2) ||
      ((status_rank a.2 =? status_rank b.2) && (at_last_occurred_at b.2 <? at_last_occurred_at a.2))) (map_to_list (alerts_rows t)))).

Definition Alerts_Resolve (resourceType resourceID code : string) (at_ : Time) : Prog C unit :=
  let! outboxID := new_uuid in
  let! now := clock_now in
  pool (T := AlertTables) "恢复告警" (λ t, t' ← resolve_alert resourceType resourceID code at_ outboxID now t; Some (t', tt)).

(** [acknowledged_by] references [users]. *)
Definition acknowledge_alert (id userID : string) (at_ : Time) (c : C) : option (C * bool) :=
  let t : AlertTables := part c in
  match alerts_rows t !! id with
  | Some a =>
    if negb (bool_decide (at_status a = StatusOpen)) then Some (c, false)
    else if negb (bool_decide (userID ∈ users (part c))) then None
    else Some (set_part (t <| alerts_rows ::= <[id := acknowledged_alert userID at_ a]> |>) c, true)
  | None => Some (c, false)
  end.

Definition Alerts_Acknowledge (id userID : string) (at_ : Time) : Prog C unit :=
  let! updated := remote "" (acknowledge_alert id userID at_) in
  if updated : bool then ret tt else throw ErrAlertNotFound.

(** ** service.go *)

Definition merge_window : Duration := 5 * minute.

Definition validEvent (event : AlertEvent) : bool :=
  negb (bool_decide (TrimSpace (al_ResourceType event) = "")) && negb (bool_decide (TrimSpace (al_ResourceID event) = "")) &&
  negb (bool_decide (TrimSpace (al_Code event) = "")) && negb (bool_decide (TrimSpace (al_Title event) = "")) && valid_severity (al_Severity event).

Definition Raise (event : AlertEvent) : Prog C unit :=
  if negb (validEvent event) then throw ErrInvalidEvent
  else let! now := clock_now in MergeOrCreate event now (now - merge_window).

Definition Alert_List : Prog C (list Alert) := Alerts_List.

Definition Acknowledge (id userID : string) : Prog C unit :=
  if bool_decide (TrimSpace id = "") || bool_decide (TrimSpace userID = "") then throw ErrInvalidEvent
  else let! now := clock_now in Alerts_Acknowledge id userID now.

Definition Resolve (resourceType resourceID code : string) : Prog C unit :=
  if bool_decide (TrimSpace resourceType = "") || bool_decide (TrimSpace resourceID = "") || bool_decide (TrimSpace code = "") then throw ErrInvalidEvent
  else let! now := clock_now in Alerts_Resolve resourceType resourceID code now.

End repository.

(** ** The invariant *)

Definition delivery_statuses : list string := ["pending"; "sending"; "retrying"; "sent"; "failed"].

(** The columns of a delivery fit its status. *)
Record delivery_ok (o : OutboxRow) : Prop := {
  dl_status : ox_status o ∈ delivery_statuses;
  dl_sent : ox_status o = "sent" ↔ is_Some (ox_sent_at o);
  dl_lease : ox_status o = "sending" ↔ is_Some (ox_lease_until o);
  dl_attempts : if bool_decide (ox_status o = "pending") then ox_attempts o = 0 else 0 < ox_attempts o
}.

Record alert_ok (a : AlertRow) : Prop := {
  ar_status : at_status a ∈ [StatusOpen; StatusAcknowledged; StatusResolved];
  ar_resolved : at_status a = StatusResolved ↔ is_Some (at_resolved_at a);
  ar_acknowledged : at_status a = StatusAcknowledged → is_Some (at_acknowledged_at a);
  ar_open : at_status a = StatusOpen → at_acknowledged_at a = None;
  ar_count : 0 < at_occurrence_count a < 2 ^ 31;
  ar_severity : valid_severity (at_severity a) = true
}.

(** The delivery announces the alert it names: its opening, or its recovery after its
    opening was announced. *)
Definition announces (t : AlertTables) (o : OutboxRow) : Prop :=
  match ox_alert_id o with
  | None => ox_event_type o = "test" ∧ ∃ request, ox_idempotency_key o = "notification:test:" +:+ request
  | Some id =>
    ox_idempotency_key o = alert_key id (ox_event_type o) ∧
    ∃ a, alerts_rows t !! id = Some a ∧
      (ox_event_type o = "opened" ∨
       ox_event_type o = "recovered" ∧ at_status a = StatusResolved ∧
       ∃ k o', notification_outbox t !! k = Some o' ∧ ox_alert_id o' = Some id ∧ ox_event_type o' = "opened")
  end.

Record alerting_ok (t : AlertTables) : Prop := {
  ao_alerts : map_Forall (λ _, alert_ok) (alerts_rows t);
  ao_deliveries : map_Forall (λ _, delivery_ok) (notification_outbox t);
  ao_announces : map_Forall (λ _ o, announces t o) (notification_outbox t);
  ao_keys : ∀ i j x y, notification_outbox t !! i = Some x → notification_outbox t !! j = Some y → ox_idempotency_key x = ox_idempotency_key y → i = j
}.

(** What never happens to an alert or a delivery. *)
Definition alert_evolves (a a' : AlertRow) : Prop :=
  at_kind a' = at_kind a ∧ at_source_type a' = at_source_type a ∧ at_source_id a' = at_source_id a ∧ at_first_occurred_at a' = at_first_occurred_at a ∧
  at_occurrence_count a ≤ at_occurrence_count a' ∧ (at_status a = StatusResolved → a' = a) ∧
  (at_status a = StatusAcknowledged → at_status a' ∈ [StatusAcknowledged; StatusResolved] ∧ at_occurrence_count a' = at_occurrence_count a).

Definition final_delivery (o : OutboxRow) : Prop := ox_status o = "sent" ∨ ox_status o = "failed".

Definition delivery_evolves (o o' : OutboxRow) : Prop :=
  ox_alert_id o' = ox_alert_id o ∧ ox_event_type o' = ox_event_type o ∧ ox_payload o' = ox_payload o ∧
  ox_idempotency_key o' = ox_idempotency_key o ∧ ox_created_at o' = ox_created_at o ∧ ox_attempts o ≤ ox_attempts o' ∧ (final_delivery o → o' = o).

Record alerting_evolves (t t' : AlertTables) : Prop := {
  ae_alerts : ∀ id a, alerts_rows t !! id = Some a → ∃ a', alerts_rows t' !! id = Some a' ∧ alert_evolves a a';
  ae_deliveries : ∀ id o, notification_outbox t !! id = Some o → ∃ o', notification_outbox t' !! id = Some o' ∧ delivery_evolves o o'
}.

#[export] Instance alert_evolves_preorder : PreOrder alert_evolves.
Proof.
  split; [intros a; unfold alert_evolves; split_and!; try done; intros H; split; [rewrite H; left|done]|].
  intros a b c (H1 & H2 & H3 & H4 & H5 & H6 & H7) (G1 & G2 & G3 & G4 & G5 & G6 & G7). unfold alert_evolves.
  split_and!; [congruence..|lia| |].
  - intros H. pose proof (H6 H) as ->. auto.
  - intros H. destruct (H7 H) as [[Hb|Hb%list_elem_of_singleton]%elem_of_cons Hc].
    + destruct (G7 Hb). split; [done|lia].
    + rewrite (G6 Hb), Hb. split; [right; left|done].
Qed.

#[export] Instance delivery_evolves_preorder : PreOrder delivery_evolves.
Proof.
  split; [intros o; unfold delivery_evolves; by split_and!|].
  intros a b c (H1 & H2 & H3 & H4 & H5 & H6 & H7) (G1 & G2 & G3 & G4 & G5 & G6 & G7). unfold delivery_evolves.
  split_and!; [congruence..|lia|]. intros H. pose proof (H7 H) as ->. auto.
Qed.

#[export] Instance alerting_evolves_preorder : PreOrder alerting_evolves.
Proof.
  split; [intros t; split; intros id x H; by exists x|]. intros t t' t'' [H1 H2] [G1 G2]. split.
  - intros id a H. destruct (H1 _ _ H) as (a' & H' & E). destruct (G1 _ _ H') as (a'' & H'' & E'). exists a''. split; [done|by etrans].
  - intros id o H. destruct (H2 _ _ H) as (o' & H' & E). destruct (G2 _ _ H') as (o'' & H'' & E'). exists o''. split; [done|by etrans].
Qed.

Definition alerting_step (t t' : AlertTables) : Prop := alerting_ok t → alerting_ok t' ∧ alerting_evolves t t'.

#[export] Instance alerting_step_preorder : PreOrder alerting_step.
Proof.
  split; [intros t; by split|]. intros a b c H1 H2 Hok. destruct (H1 Hok) as [Hb E1]. destruct (H2 Hb) as [Hc E2]. split; [done|by etrans].
Qed.

(** The operations on alerts and deliveries leave the configuration and the rules. *)
Definition alert_step (t t' : AlertTables) : Prop :=
  (notification_config t' = notification_config t ∧ alert_rule_states t' = alert_rule_states t) ∧ alerting_step t t'.

#[export] Instance alert_step_preorder : PreOrder alert_step.
Proof.
  split; [intros t; by split|]. intros a b c [[C1 R1] H1] [[C2 R2] H2]. split; [split; congruence|by etrans].
Qed.

(** *** One alert changes *)

(** The deliveries still announce their alerts when these only evolve. *)
Lemma announces_evolves t t' o :
  (∀ id a, alerts_rows t !! id = Some a → ∃ a', alerts_rows t' !! id = Some a' ∧ alert_evolves a a') →
  (∀ id o, notification_outbox t !! id = Some o → ∃ o', notification_outbox t' !! id = Some o' ∧ delivery_evolves o o') →
  ∀ o', delivery_evolves o o' → announces t o → announces t' o'.
Proof.
  intros Ha Ho o' (E1 & E2 & _ & E4 & _). unfold announces. rewrite E1, E2, E4. destruct (ox_alert_id o) as [id|]; [|done].
  intros (Hk & a & Hrow & Hev). split; [done|]. destruct (Ha _ _ Hrow) as (a' & Hrow' & _ & _ & _ & _ & _ & Hres & _). exists a'. split; [done|].
  destruct Hev as [Hev|(Hev & Hs & k & x & Hx & Hxa & Hxe)]; [by left|right]. rewrite (Hres Hs). split_and!; [done..|].
  destruct (Ho _ _ Hx) as (x' & Hx' & D1 & D2 & _). exists k, x'. by rewrite D1, D2.
Qed.

Lemma set_alert_step id a a' t :
  alerts_rows t !! id = Some a → alert_evolves a a' → (alert_ok a → alert_ok a') → alert_step t (t <| alerts_rows ::= <[id := a']> |>).
Proof.
  intros Hrow He Ha. split; [done|]. intros [H1 H2 H3 H4].
  assert (∀ k x, alerts_rows t !! k = Some x → ∃ x', alerts_rows (t <| alerts_rows ::= <[id := a']> |>) !! k = Some x' ∧ alert_evolves x x') as Hev.
  { intros k x Hx. simpl. destruct (decide (id = k)) as [<-|Hne]; [rewrite lookup_insert_eq|rewrite lookup_insert_ne by done]; [|by exists x].
    exists a'. split; [done|]. congruence. }
  split; [split; [|done| |done]|split; [exact Hev|intros k o Ho; by exists o]].
  - apply map_Forall_insert_2; [|done]. by apply Ha, (H1 id).
  - intros k o Ho. eapply announces_evolves; [exact Hev| |reflexivity|by apply (H3 k)]. intros k' o' Ho'. by exists o'.
Qed.

Lemma new_alert_step id a t : alerts_rows t !! id = None → alert_ok a → alert_step t (t <| alerts_rows ::= <[id := a]> |>).
Proof.
  intros Hrow Ha. split; [done|]. intros [H1 H2 H3 H4].
  assert (∀ k x, alerts_rows t !! k = Some x → ∃ x', alerts_rows (t <| alerts_rows ::= <[id := a]> |>) !! k = Some x' ∧ alert_evolves x x') as Hev.
  { intros k x Hx. simpl. rewrite lookup_insert_ne by congruence. by exists x. }
  split; [split; [|done| |done]|split; [exact Hev|intros k o Ho; by exists o]].
  - by apply map_Forall_insert_2.
  - intros k o Ho. eapply announces_evolves; [exact Hev| |reflexivity|by apply (H3 k)]. intros k' o' Ho'. by exists o'.
Qed.

(** *** A delivery is added or changes *)

Lemma new_delivery_step id o t :
  notification_outbox t !! id = None → delivery_ok o → (∀ k x, notification_outbox t !! k = Some x → ox_idempotency_key x ≠ ox_idempotency_key o) →
  announces t o → alert_step t (t <| notification_outbox ::= <[id := o]> |>).
Proof.
  intros Hrow Ho Hkey Hann. split; [done|]. intros [H1 H2 H3 H4].
  assert (∀ k x, notification_outbox t !! k = Some x → ∃ x', notification_outbox (t <| notification_outbox ::= <[id := o]> |>) !! k = Some x' ∧ delivery_evolves x x') as Hev.
  { intros k x Hx. simpl. rewrite lookup_insert_ne by congruence. by exists x. }
  assert (∀ x, announces t x → announces (t <| notification_outbox ::= <[id := o]> |>) x) as Hann'.
  { intros x. apply announces_evolves; [intros k a Ha; by exists a|exact Hev|reflexivity]. }
  split; [split|split; [intros k a Ha; by exists a|exact Hev]]; [done|by apply map_Forall_insert_2| |].
  - apply map_Forall_insert_2; [by apply Hann'|]. intros k x Hx. by apply Hann', (H3 k).
  - intros i j x y Hx Hy E. simpl in Hx, Hy. apply lookup_insert_Some in Hx as [[<- <-]|[Hi Hx]], Hy as [[<- <-]|[Hj Hy]]; [done| | |by eapply H4].
    + by destruct (Hkey _ _ Hy).
    + by destruct (Hkey _ _ Hx).
Qed.

Lemma set_delivery_step id o o' t :
  notification_outbox t !! id = Some o → delivery_evolves o o' → (delivery_ok o → delivery_ok o') → alert_step t (t <| notification_outbox ::= <[id := o']> |>).
Proof.
  intros Hrow He Ho. split; [done|]. intros [H1 H2 H3 H4].
  assert (∀ k x, notification_outbox t !! k = Some x → ∃ x', notification_outbox (t <| notification_outbox ::= <[id := o']> |>) !! k = Some x' ∧ delivery_evolves x x') as Hev.
  { intros k x Hx. simpl. destruct (decide (id = k)) as [<-|Hne]; [rewrite lookup_insert_eq|rewrite lookup_insert_ne by done]; [|by exists x].
    exists o'. split; [done|]. congruence. }
  assert (∀ x x', delivery_evolves x x' → announces t x → announces (t <| notification_outbox ::= <[id := o']> |>) x') as Hann'.
  { intros x x'. apply announces_evolves; [intros k a Ha; by exists a|exact Hev]. }
  split; [split|split; [intros k a Ha; by exists a|exact Hev]]; [done|apply map_Forall_insert_2; [by apply Ho, (H2 id)|done]| |].
  - apply map_Forall_insert_2; [by eapply Hann', (H3 id)|]. intros k x Hx. eapply Hann'; [reflexivity|by apply (H3 k)].
  - pose proof He as (_ & _ & _ & Ek & _).
    assert (∀ i x, notification_outbox (t <| notification_outbox ::= <[id := o']> |>) !! i = Some x →
      ∃ y, notification_outbox t !! i = Some y ∧ ox_idempotency_key x = ox_idempotency_key y) as Hback.
    { intros i x Hx. simpl in Hx. apply lookup_insert_Some in Hx as [[<- <-]|[Hi Hx]]; [by exists o|by exists x]. }
    intros i j x y Hx Hy E. destruct (Hback _ _ Hx) as (x0 & Hx0 & Ex), (Hback _ _ Hy) as (y0 & Hy0 & Ey). eapply H4; [exact Hx0|exact Hy0|congruence].
Qed.

(** *** The trigger *)

Lemma existsb_map {A} (m : gmap string A) (f : A → bool) :
  existsb (λ p, f p.2) (map_to_list m) = true ↔ ∃ k x, m !! k = Some x ∧ f x = true.
Proof.
  rewrite existsb_exists. split.
  - intros ([k x] & Hin%list_elem_of_In%elem_of_map_to_list & Hf). by exists k, x.
  - intros (k & x & Hx & Hf). exists (k, x). split; [|done]. by apply list_elem_of_In, elem_of_map_to_list.
Qed.

Lemma existsb_map_false {A} (m : gmap string A) (f : A → bool) :
  existsb (λ p, f p.2) (map_to_list m) = false → ∀ k x, m !! k = Some x → f x = false.
Proof.
  intros H k x Hx. destruct (f x) eqn:E; [|done]. assert (existsb (λ p, f p.2) (map_to_list m) = true) as H'; [|congruence].
  apply existsb_map. by exists k, x.
Qed.

(** A row of the outbox as the trigger writes it. *)
Definition pending_delivery (alertID event_type : string) (o : OutboxRow) : Prop :=
  ox_alert_id o = Some alertID ∧ ox_event_type o = event_type ∧ ox_idempotency_key o = alert_key alertID event_type ∧
  ox_status o = "pending" ∧ ox_attempts o = 0 ∧ ox_lease_until o = None ∧ ox_sent_at o = None.

Lemma pending_delivery_ok alertID event_type o : pending_delivery alertID event_type o → delivery_ok o.
Proof.
  intros (_ & _ & _ & H1 & H2 & H3 & H4). split; rewrite H1, ?H2, ?H3, ?H4; [left|split; [done|by intros []]|split; [done|by intros []]|done].
Qed.

Lemma enqueue_inv old alertID new id now t t' :
  enqueue_alert_notification old alertID new id now t = Some t' →
  t' = t ∨
  ∃ event_type o, t' = t <| notification_outbox ::= <[id := o]> |> ∧ notification_outbox t !! id = None ∧ pending_delivery alertID event_type o ∧
    (∀ k x, notification_outbox t !! k = Some x → ox_idempotency_key x ≠ alert_key alertID event_type) ∧ feishu_enabled t = true ∧
    (event_type = "opened" ∨
     event_type = "recovered" ∧ at_status new = StatusResolved ∧
     ∃ k x, notification_outbox t !! k = Some x ∧ ox_alert_id x = Some alertID ∧ ox_event_type x = "opened").
Proof.
  unfold enqueue_alert_notification. set (event := match old with None => _ | Some _ => _ end).
  assert (∀ e tm, event = Some (e, tm) → e = "opened" ∨ e = "recovered" ∧ at_status new = StatusResolved ∧
    ∃ k x, notification_outbox t !! k = Some x ∧ ox_alert_id x = Some alertID ∧ ox_event_type x = "opened") as Hevent.
  { intros e tm. unfold event. destruct old as [old|]; [|destruct (bool_decide _); [intros [= <- _]; by left|done]].
    destruct (_ && _) eqn:E; [|done]. intros [= <- _]. right. apply andb_true_iff in E as [[_ E1%bool_decide_eq_true]%andb_true_iff E2].
    destruct (proj1 (existsb_map (notification_outbox t) (λ o, bool_decide (ox_alert_id o = Some alertID) && bool_decide (ox_event_type o = "opened"))) E2)
      as (k & x & Hx & [F1%bool_decide_eq_true F2%bool_decide_eq_true]%andb_true_iff).
    split_and!; [done..|by exists k, x]. }
  destruct event as [[e tm]|]; [|intros [= <-]; by left]. specialize (Hevent _ _ eq_refl).
  destruct (feishu_enabled t) eqn:Ef; [|intros [= <-]; by left]. simpl. destruct (existsb _ _) eqn:Ek; [intros [= <-]; by left|].
  case_bool_decide as Hid; [done|]. intros [= <-]. right. eexists e, _. split; [done|]. split_and!; [by apply eq_None_not_Some| | |done|done].
  - by split_and!.
  - intros k x Hx. by apply (existsb_map_false _ (λ o, bool_decide (ox_idempotency_key o = alert_key alertID e))), bool_decide_eq_false in Hx.
Qed.

Lemma enqueue_step old alertID new id now t t' :
  enqueue_alert_notification old alertID new id now t = Some t' → alerts_rows t !! alertID = Some new → alert_step t t'.
Proof.
  intros [->|(e & o & -> & Hid & Hp & Hk & _ & He)]%enqueue_inv Hrow; [done|]. pose proof Hp as (P1 & P2 & P3 & _).
  apply new_delivery_step; [done|by eapply pending_delivery_ok|by rewrite P3|]. unfold announces. rewrite P1, P2, P3. split; [done|]. by exists new.
Qed.

(** *** The statements *)

Lemma head_filter_sorted {A} (less : A → A → bool) (f : A → bool) l x : head (stable_sort less (filter (λ p, f p = true) l)) = Some x → x ∈ l ∧ f x = true.
Proof.
  intros H. assert (x ∈ stable_sort less (filter (λ p, f p = true) l)) as Hin by (destruct (stable_sort _ _); simplify_eq/=; left).
  apply elem_of_stable_sort, list_elem_of_filter in Hin as [? ?]. done.
Qed.

Lemma merge_target_inv event since t id a :
  merge_target event since t = Some (id, a) →
  alerts_rows t !! id = Some a ∧ of_event event a = true ∧ at_status a = StatusOpen ∧ since ≤ at_last_occurred_at a.
Proof.
  intros [Hin H]%(head_filter_sorted _ (λ p, of_event event p.2 && bool_decide (at_status p.2 = StatusOpen) && (since <=? at_last_occurred_at p.2))).
  apply andb_true_iff in H as [[H1 H2%bool_decide_eq_true]%andb_true_iff H3]. apply elem_of_map_to_list in Hin. split_and!; [done..|simpl in H3; lia].
Qed.

Lemma resolve_target_inv rt ri code t id a :
  resolve_target rt ri code t = Some (id, a) →
  alerts_rows t !! id = Some a ∧ about rt ri code a = true ∧ at_status a ∈ [StatusOpen; StatusAcknowledged].
Proof.
  intros [Hin H]%(head_filter_sorted _ (λ p, about rt ri code p.2 && bool_decide (at_status p.2 ∈ [StatusOpen; StatusAcknowledged]))).
  apply andb_true_iff in H as [H1 H2%bool_decide_eq_true]. by apply elem_of_map_to_list in Hin.
Qed.

Lemma merge_alert_step event occurredAt since t t' b : merge_alert event occurredAt since t = Some (t', b) → alert_step t t'.
Proof.
  unfold merge_alert. destruct (merge_target _ _ _) as [[id a]|] eqn:E; [|by intros [= <- _]]. apply merge_target_inv in E as (Hrow & _ & Hs & _).
  destruct (_ || _) eqn:Eg; [done|]. intros [= <- _]. apply orb_false_iff in Eg as [Eg1%negb_false_iff Eg2]. apply (set_alert_step _ a); [done| |].
  - unfold alert_evolves, merged_alert. simpl. rewrite Hs. split_and!; [done..|lia|done|done].
  - intros [H1 H2 H3 H4 H5 H6]. unfold merged_alert. split; simpl; try done. lia.
Qed.

Lemma insert_alert_step event occurredAt id outboxID now t t' : insert_alert event occurredAt id outboxID now t = Some t' → alert_step t t'.
Proof.
  unfold insert_alert. destruct (_ || _) eqn:Eg; [done|]. apply orb_false_iff in Eg as [Eg1%negb_false_iff Eg2%bool_decide_eq_false].
  intros H. etrans; [|eapply enqueue_step; [exact H|simpl; by rewrite lookup_insert_eq]]. apply new_alert_step; [by apply eq_None_not_Some|].
  split; simpl; [left|split; [done|by intros []]|done|done|lia|done].
Qed.

Lemma resolve_alert_step rt ri code at_ outboxID now t t' : resolve_alert rt ri code at_ outboxID now t = Some t' → alert_step t t'.
Proof.
  unfold resolve_alert. destruct (resolve_target _ _ _ _) as [[id a]|] eqn:E; [|by intros [= <-]]. apply resolve_target_inv in E as (Hrow & _ & Hs).
  intros H. etrans; [|eapply enqueue_step; [exact H|simpl; by rewrite lookup_insert_eq]]. apply (set_alert_step _ a); [done| |].
  - unfold alert_evolves, resolved_alert. simpl. split_and!; [done..| |intros _; split; [right; left|done]].
    intros Hr. rewrite Hr in Hs. by apply elem_of_cons in Hs as [?|?%list_elem_of_singleton].
  - intros [H1 H2 H3 H4 H5 H6]. unfold resolved_alert. split; simpl; [right; right; left|by split|done|done|done|done].
Qed.

Lemma acknowledged_alert_step id a userID at_ t :
  alerts_rows t !! id = Some a → at_status a = StatusOpen → alert_step t (t <| alerts_rows ::= <[id := acknowledged_alert userID at_ a]> |>).
Proof.
  intros Hrow Hs. apply (set_alert_step _ a); [done| |].
  - unfold alert_evolves, acknowledged_alert. simpl. rewrite Hs. by split_and!.
  - intros [H1 H2 H3 H4 H5 H6]. unfold acknowledged_alert. split; simpl; [right; left| |done|done|done|done]. split; [done|]. rewrite <-H2, Hs. done.
Qed.

(** ** Raising and resolving *)

#[export] Instance latest_first_weak : StrictWeak latest_first.
Proof.
  apply (StrictWeak_ext _ (less_lex (less_flip (less_by Z.ltb (λ p : string * AlertRow, at_last_occurred_at p.2))) (less_flip (less_by string_lt fst)))); [|apply _].
  intros a b. unfold latest_first, less_lex, less_flip, less_by. destruct (Z.ltb_spec (at_last_occurred_at b.2) (at_last_occurred_at a.2)); [done|].
  destruct (Z.ltb_spec (at_last_occurred_at a.2) (at_last_occurred_at b.2)), (Z.eqb_spec (at_last_occurred_at a.2) (at_last_occurred_at b.2)); simpl; try done; lia.
Qed.

(** The alert that is resolved is the latest. *)
Lemma resolve_target_latest rt ri code t id a k b :
  resolve_target rt ri code t = Some (id, a) → alerts_rows t !! k = Some b → about rt ri code b = true → at_status b ∈ [StatusOpen; StatusAcknowledged] →
  at_last_occurred_at b ≤ at_last_occurred_at a.
Proof.
  unfold resolve_target. destruct (stable_sort _ _) as [|x rest] eqn:E; [done|]. intros [= ->] Hb Ha Hs.
  apply (stable_sort_head latest_first) in E as [_ E]. specialize (E (k, b)). unfold latest_first in E. simpl in E.
  apply orb_false_iff in E as [E _]; [lia|]. apply list_elem_of_filter. split; [|by apply elem_of_map_to_list].
  cbn [snd]. rewrite Ha. by rewrite bool_decide_true.
Qed.

Lemma resolve_target_exists rt ri code t k b :
  alerts_rows t !! k = Some b → about rt ri code b = true → at_status b ∈ [StatusOpen; StatusAcknowledged] → is_Some (resolve_target rt ri code t).
Proof.
  intros Hb Ha Hs. unfold resolve_target. destruct (stable_sort _ _) as [|x rest] eqn:E; [|done]. apply stable_sort_nil in E.
  assert ((k, b) ∈ filter (λ p, about rt ri code p.2 && bool_decide (at_status p.2 ∈ [StatusOpen; StatusAcknowledged]) = true) (map_to_list (alerts_rows t))) as H.
  { apply list_elem_of_filter. split; [cbn [snd]; rewrite Ha; by rewrite bool_decide_true|by apply elem_of_map_to_list]. }
  rewrite E in H. by apply elem_of_nil in H.
Qed.

(** The alert that is counted up is the latest of those it may be counted on. *)
Lemma merge_target_latest event since t id a k b :
  merge_target event since t = Some (id, a) → alerts_rows t !! k = Some b → of_event event b = true → at_status b = StatusOpen →
  since ≤ at_last_occurred_at b → at_last_occurred_at b ≤ at_last_occurred_at a.
Proof.
  unfold merge_target. intros H Hb He Hs Hl.
  destruct (stable_sort _ _) as [|x rest] eqn:E; [done|]. injection H as ->.
  change (λ a b : string * AlertRow, at_last_occurred_at b.2 <? at_last_occurred_at a.2) with (less_flip (less_by Z.ltb (λ p : string * AlertRow, at_last_occurred_at p.2))) in E.
  apply stable_sort_head in E as [_ E]; [|apply _]. specialize (E (k, b)). unfold less_flip, less_by in E. simpl in E.
  apply Z.ltb_ge, E, list_elem_of_filter. split; [|by apply elem_of_map_to_list]. cbn [snd]. rewrite He, bool_decide_true by done. simpl. lia.
Qed.

Lemma merge_target_none event since t k b :
  merge_target event since t = None → alerts_rows t !! k = Some b → of_event event b = true → at_status b = StatusOpen → at_last_occurred_at b < since.
Proof.
  intros H Hb He Hs. destruct (Z.ltb_spec (at_last_occurred_at b) since); [done|]. exfalso. unfold merge_target in H.
  destruct (stable_sort _ _) as [|x rest] eqn:E; [|done]. apply stable_sort_nil in E.
  assert ((k, b) ∈ filter (λ p, of_event event p.2 && bool_decide (at_status p.2 = StatusOpen) && (since <=? at_last_occurred_at p.2) = true) (map_to_list (alerts_rows t))) as Hin.
  { apply list_elem_of_filter. split; [|by apply elem_of_map_to_list]. cbn [snd]. rewrite He, bool_decide_true by done. simpl. lia. }
  rewrite E in Hin. by apply elem_of_nil in Hin.
Qed.

(** Keys of different alerts differ. *)
Lemma app_inj_tail (a b s : string) : a +:+ s = b +:+ s → a = b.
Proof.
  intros H. assert (chars a ++ chars s = chars b ++ chars s) as Hl by (by rewrite <-!chars_app, H). apply app_inv_tail in Hl. by apply chars_inj.
Qed.

Lemma alert_key_inj a b e : alert_key a e = alert_key b e → a = b.
Proof. unfold alert_key. intros H%(inj _). by apply app_inj_tail in H. Qed.

Lemma alert_key_events a b : alert_key a "opened" ≠ alert_key b "recovered".
Proof.
  unfold alert_key. intros H%(inj _). change (a +:+ ":opened" = b +:+ ":recovered") in H.
  assert (chars a ++ chars ":opened" = (chars b ++ chars ":re") ++ chars "covered") as Hl.
  { rewrite <-app_assoc. change (chars ":re" ++ chars "covered") with (chars ":recovered"). by rewrite <-!chars_app, H. }
  by apply app_inj_2 in Hl as [_ Hl].
Qed.

Lemma alert_key_test a e r : alert_key a e ≠ "notification:test:" +:+ r.
Proof. done. Qed.

(** Nothing was announced yet of an alert that is not in the table, and no recovery of
    one that is not resolved. *)
Lemma unannounced t id e :
  alerting_ok t →
  (e = "opened" ∧ alerts_rows t !! id = None ∨ e = "recovered" ∧ ∃ a, alerts_rows t !! id = Some a ∧ at_status a ≠ StatusResolved) →
  ∀ k x, notification_outbox t !! k = Some x → ox_idempotency_key x ≠ alert_key id e.
Proof.
  intros Hok He k x Hx Hk. pose proof (ao_announces _ Hok _ _ Hx) as Ha. unfold announces in Ha. rewrite Hk in Ha.
  destruct (ox_alert_id x) as [id'|]; [|destruct Ha as (_ & r & Ha); by apply alert_key_test in Ha].
  destruct Ha as (Ekey & a & Hrow & Hev). destruct He as [[-> Hnone]|[-> (a' & Ha' & Hs)]].
  - destruct Hev as [Ee|(Ee & _)]; rewrite Ee in Ekey; [apply alert_key_inj in Ekey as <-; congruence|by apply alert_key_events in Ekey].
  - destruct Hev as [Ee|(Ee & Hs' & _)]; rewrite Ee in Ekey; [by symmetry in Ekey; apply alert_key_events in Ekey|].
    apply alert_key_inj in Ekey as <-. congruence.
Qed.

(** What is queued when the status of an alert changes while notifications are enabled. *)
Definition queued (alertID event_type : string) (payload : FrozenMessage) (t t' : AlertTables) : Prop :=
  ∃ k o, notification_outbox t !! k = None ∧ notification_outbox t' = <[k := o]> (notification_outbox t) ∧ pending_delivery alertID event_type o ∧ ox_payload o = payload.

Definition message_of (a : AlertRow) (at_ : Time) : FrozenMessage :=
  mkFrozenMessage (at_kind a) (at_severity a) (at_title a) (at_source_type a) (at_source_id a) (at_occurrence_count a) at_.

Definition announced (t : AlertTables) (id : string) : Prop :=
  ∃ k o, notification_outbox t !! k = Some o ∧ ox_alert_id o = Some id ∧ ox_event_type o = "opened".

(** The alerts an event may be counted on: open, of the same kind and source, and seen
    in the last five minutes. *)
Definition same_alert (event : AlertEvent) (a : AlertRow) : Prop :=
  at_kind a = al_Code event ∧ at_source_type a = al_ResourceType event ∧ at_source_id a = al_ResourceID event.

Definition recent_open (event : AlertEvent) (now : Time) (t : AlertTables) (id : string) (a : AlertRow) : Prop :=
  alerts_rows t !! id = Some a ∧ same_alert event a ∧ at_status a = "open" ∧ now - 300 * second ≤ at_last_occurred_at a.

(** The event is counted on the alert [id], the one seen last of those. *)
Definition counted_on (event : AlertEvent) (now : Time) (t t' : AlertTables) (id : string) (a : AlertRow) : Prop :=
  recent_open event now t id a ∧ (∀ k b, recent_open event now t k b → at_last_occurred_at b ≤ at_last_occurred_at a) ∧
  t' = mkAlertTables
    (<[id := mkAlertRow (at_kind a) (al_Severity event) (at_source_type a) (at_source_id a) (al_Title event) (al_Message event) "open"
       (at_occurrence_count a + 1) (at_first_occurred_at a) now (at_acknowledged_by a) (at_acknowledged_at a) (at_resolved_at a) (at_created_at a) now]> (alerts_rows t))
    (notification_config t) (notification_outbox t) (alert_rule_states t).

(** A new alert is opened, and announced when notifications are enabled. *)
Definition opened_anew (event : AlertEvent) (now : Time) (t t' : AlertTables) (id : string) : Prop :=
  (∀ k b, ¬ recent_open event now t k b) ∧ alerts_rows t !! id = None ∧
  alerts_rows t' =
    <[id := mkAlertRow (al_Code event) (al_Severity event) (al_ResourceType event) (al_ResourceID event) (al_Title event) (al_Message event) "open" 1
       now now None None None now now]> (alerts_rows t) ∧
  notification_config t' = notification_config t ∧ alert_rule_states t' = alert_rule_states t ∧
  if feishu_enabled t
  then queued id "opened" (mkFrozenMessage (al_Code event) (al_Severity event) (al_Title event) (al_ResourceType event) (al_ResourceID event) 1 now) t t'
  else notification_outbox t' = notification_outbox t.

(** The exact effect of raising an alert. *)
Definition raised (event : AlertEvent) (now : Time) (t t' : AlertTables) : Prop :=
  (∃ id a, counted_on event now t t' id a) ∨ (∃ id, opened_anew event now t t' id).

Lemma of_event_same event a : of_event event a = true ↔ same_alert event a.
Proof. unfold of_event, about, same_alert. rewrite !andb_true_iff, !bool_decide_eq_true. tauto. Qed.

(** The exact effect of resolving an alert. *)
Definition resolved (rt ri code : string) (now : Time) (t t' : AlertTables) : Prop :=
  match resolve_target rt ri code t with
  | None => t' = t
  | Some (id, a) =>
    alerts_rows t' = <[id := resolved_alert now a]> (alerts_rows t) ∧
    notification_config t' = notification_config t ∧ alert_rule_states t' = alert_rule_states t ∧
    (feishu_enabled t = true → announced t id → queued id "recovered" (message_of a now) t t') ∧
    (feishu_enabled t = false ∨ ¬ announced t id → notification_outbox t' = notification_outbox t)
  end.

Lemma insert_alert_exact event now id outboxID dbnow t t' :
  alerting_ok t → merge_target event (now - merge_window) t = None → insert_alert event now id outboxID dbnow t = Some t' → raised event now t t'.
Proof.
  intros Hok Hm. unfold insert_alert. destruct (_ || _) eqn:Eg; [done|].
  apply orb_false_iff in Eg as [_ Eg%bool_decide_eq_false]. apply eq_None_not_Some in Eg.
  assert (∀ k b, ¬ recent_open event now t k b) as Hnone.
  { intros k b (Hb & He%of_event_same & Hs & Hl). pose proof (merge_target_none _ _ _ _ _ Hm Hb He Hs) as H. unfold merge_window, minute, second in H, Hl. lia. }
  intros H. right. exists id. split; [done|]. split; [done|]. revert H. unfold enqueue_alert_notification, feishu_enabled. simpl.
  destruct (match notification_config t with Some _ => _ | None => _ end) eqn:Ef; simpl; [|by intros [= <-]].
  destruct (existsb _ _) eqn:Ex.
  { destruct (proj1 (existsb_map (notification_outbox t) (λ o, bool_decide (ox_idempotency_key o = alert_key id "opened"))) Ex) as (k & x & Hx & Hk%bool_decide_eq_true).
    exfalso. eapply unannounced; [exact Hok|by left|exact Hx|exact Hk]. }
  destruct (bool_decide (is_Some (notification_outbox t !! outboxID))) eqn:Hid; [done|apply bool_decide_eq_false in Hid]. intros [= <-]. split_and!; [done..|]. eexists outboxID, _. split; [by apply eq_None_not_Some|]. by split_and!.
Qed.

Lemma resolve_alert_exact rt ri code now outboxID dbnow t t' :
  alerting_ok t → resolve_alert rt ri code now outboxID dbnow t = Some t' → resolved rt ri code now t t'.
Proof.
  intros Hok. unfold resolve_alert, resolved. destruct (resolve_target rt ri code t) as [[id a]|] eqn:Et; [|by intros [= <-]].
  apply resolve_target_inv in Et as (Hrow & _ & Hs). assert (at_status a ≠ StatusResolved) as Hne.
  { intros E. rewrite E in Hs. by apply elem_of_cons in Hs as [?|?%list_elem_of_singleton]. }
  unfold enqueue_alert_notification. rewrite bool_decide_false by done. unfold feishu_enabled at 1. cbn -[existsb].
  assert (existsb (λ p, bool_decide (ox_alert_id p.2 = Some id) && bool_decide (ox_event_type p.2 = "opened")) (map_to_list (notification_outbox t)) = true ↔ announced t id) as Hann.
  { etrans; [exact (existsb_map (notification_outbox t) (λ o, bool_decide (ox_alert_id o = Some id) && bool_decide (ox_event_type o = "opened")))|].
    unfold announced. setoid_rewrite andb_true_iff. by setoid_rewrite bool_decide_eq_true. }
  destruct (existsb _ _) eqn:Ea.
  - assert (announced t id) as Hann' by by apply Hann. fold (feishu_enabled t). destruct (feishu_enabled t) eqn:Ef; [|intros [= <-]; split_and!; [done..|by intros []]].
    simpl. destruct (existsb (λ p, bool_decide (ox_idempotency_key p.2 = _)) _) eqn:Ex.
    { destruct (proj1 (existsb_map (notification_outbox t) (λ o, bool_decide (ox_idempotency_key o = alert_key id "recovered"))) Ex) as (k & x & Hx & Hk%bool_decide_eq_true).
      exfalso. eapply unannounced; [exact Hok|right; split; [done|by exists a]|exact Hx|exact Hk]. }
    destruct (bool_decide (is_Some (notification_outbox t !! outboxID))) eqn:Hid; [done|apply bool_decide_eq_false in Hid]. intros [= <-]. split_and!; [done..| |by intros []]. intros _ _. eexists outboxID, _.
    split; [by apply eq_None_not_Some|]. by split_and!.
  - intros [= <-]. split_and!; [done..| |done]. intros _ H. by apply Hann in H.
Qed.

Section laws.
Context {C : Type} `{!Has DB C, !Has AlertTables C}.

Lemma MergeOrCreate_moves event occurredAt since : moves alert_step (MergeOrCreate (C := C) event occurredAt since).
Proof.
  apply db_spec_transaction; [done|]. intros c. repeat tx_step; try done; repeat match goal with
  | H : merge_alert _ _ _ _ = Some _ |- _ => apply merge_alert_step in H
  | H : insert_alert _ _ _ _ _ _ = Some _ |- _ => apply insert_alert_step in H
  end; by first [done | etrans].
Qed.

Lemma Resolve_moves rt ri code at_ : moves alert_step (Alerts_Resolve (C := C) rt ri code at_).
Proof.
  apply moves_bind; [apply _|apply moves_uuid; apply _|]. intros outboxID. apply moves_bind; [apply _|apply moves_clock; apply _|]. intros now.
  apply moves_pool; [apply _|]. intros t t' u H. destruct (resolve_alert _ _ _ _ _ _ _) as [t1|] eqn:E; simplify_eq/=. by eapply resolve_alert_step.
Qed.

Lemma Acknowledge_moves id userID at_ : moves alert_step (Alerts_Acknowledge (C := C) id userID at_).
Proof.
  intros c. apply wp_bind, wp_remote; [by rewrite set_part_same|]. intros c' b H.
  assert (c' = set_part (part c') c ∧ alert_step (part c) (part c')) as Hs; [|destruct b; (split; [by first [apply wp_ret|apply wp_throw]|done])].
  unfold acknowledge_alert in H. destruct (alerts_rows (part c) !! id) as [a|] eqn:Hrow; [|simplify_eq; by rewrite set_part_same].
  destruct (bool_decide (at_status a = StatusOpen)) eqn:Es; simpl in H; [|simplify_eq; by rewrite set_part_same].
  destruct (negb _); simplify_eq. rewrite part_set. split; [done|]. apply bool_decide_eq_true in Es. by apply acknowledged_alert_step.
Qed.

Lemma merge_alert_exact event now t t' :
  merge_alert event now (now - merge_window) t = Some (t', true) → raised event now t t'.
Proof.
  unfold merge_alert. destruct (merge_target _ _ _) as [[id a]|] eqn:Em; [|done]. destruct (_ || _); [done|]. intros [= <-].
  left. exists id, a. pose proof (merge_target_inv _ _ _ _ _ Em) as (Ha & He & Hs & Hl). split_and!.
  - split_and!; [done|by apply of_event_same|done|]. unfold merge_window, minute, second in *. lia.
  - intros k b (Hb & Hbe%of_event_same & Hbs & Hbl). eapply merge_target_latest; [done..|]. unfold merge_window, minute, second in *. lia.
  - destruct a; simpl in *. by subst.
Qed.

Lemma merge_alert_none event now since t t' : merge_alert event now since t = Some (t', false) → t' = t ∧ merge_target event since t = None.
Proof. unfold merge_alert. destruct (merge_target _ _ _) as [[id a]|]; [|by intros [= <-]]. by destruct (_ || _). Qed.

Lemma MergeOrCreate_exact event now :
  db_spec (MergeOrCreate (C := C) event now (now - merge_window)) (λ t r t', alerting_ok t → (r = Ok tt → raised event now t t') ∧ (t' = t ∨ raised event now t t')).
Proof.
  apply db_spec_transaction; [intros d _; split; [done|by left]|]. intros c.
  assert (∀ (d : AlertTables) e, tx_post c (λ (t : AlertTables) (r : Result unit) t', alerting_ok t → (r = Ok tt → raised event now t t') ∧ (t' = t ∨ raised event now t t')) (Err e) (c, d)) as Hexit.
  { intros d e. apply tx_exit. intros _. split; [done|by left]. }
  assert (∀ (d : AlertTables), (alerting_ok (part c) → raised event now (part c) d) → wp (commit "") (c, d)
    (tx_post c (λ (t : AlertTables) (r : Result unit) t', alerting_ok t → (r = Ok tt → raised event now t t') ∧ (t' = t ∨ raised event now t t')))) as Hcommit.
  { intros d Hd. apply wp_commit; [apply Hexit| |]; apply tx_committed; intros Hok; split; auto. }
  apply wp_bind, wp_stmt; [apply Hexit|]. intros d [|] Hm; (split; [|apply Hexit]).
  - apply wp_bind, wp_ret, Hcommit. intros _. by apply merge_alert_exact.
  - apply merge_alert_none in Hm as [-> Hm]. apply wp_bind, wp_bind, wp_new_uuid; [apply Hexit|]. intros id. apply wp_bind, wp_new_uuid; [apply Hexit|].
    intros outboxID. apply wp_bind, wp_clock_now. intros dbnow. apply wp_exec; [apply Hexit|]. intros d Hi. split; [|apply Hexit].
    apply Hcommit. intros Hok. by eapply insert_alert_exact.
Qed.

(** C24: Raising an alert at the instant the clock gives counts it on the alert seen last among
    the open alerts of the same kind and source of the five minutes before that instant,
    or, when there is none, opens exactly one new alert and, when notifications are
    enabled, queues exactly one message with its data; an alert that was acknowledged is
    not counted again.  A failure leaves the tables as they were, unless only the reply of
    the commit was lost; an invalid event changes nothing. *)
Theorem Raise_correct W event (c : C) :
  alerting_ok (part c) →
  under W (Raise event) c (λ r c', c' = set_part (part c' : AlertTables) c ∧
    if validEvent event
    then (r = Ok tt → ∃ now, clock_gives W now ∧ raised event now (part c) (part c')) ∧
         (part (X := AlertTables) c' = part c ∨ ∃ now, clock_gives W now ∧ raised event now (part c) (part c'))
    else r = Err ErrInvalidEvent ∧ c' = c).
Proof.
  intros Hok. unfold Raise. destruct (validEvent event); [|apply under_throw; by rewrite set_part_same].
  apply under_bind, under_clock_now. intros now HK. apply under_wp; [repeat forward_tx|].
  eapply wp_mono; [apply MergeOrCreate_exact|]. intros r c' [Hc H]. split; [done|]. destruct (H Hok) as [H1 [H2|H2]]; naive_solver.
Qed.

(** Resolving closes exactly the latest open or acknowledged alert of the resource and
    code, and queues one message of its recovery exactly when notifications are enabled
    and its opening was announced. *)
Theorem Resolve_effect rt ri code now (c : C) :
  alerting_ok (part c) →
  wp (Alerts_Resolve rt ri code now) c (λ r c', c' = set_part (part c' : AlertTables) c ∧
    (r = Ok tt → resolved rt ri code now (part c) (part c')) ∧ (part (X := AlertTables) c' = part c ∨ resolved rt ri code now (part c) (part c'))).
Proof.
  intros Hok. apply wp_bind, wp_new_uuid; [rewrite set_part_same; split_and!; [done|done|by left]|]. intros outboxID. apply wp_bind, wp_clock_now. intros dbnow.
  apply wp_pool; [rewrite set_part_same; split_and!; [done|done|by left]|]. intros t u H. destruct (resolve_alert _ _ _ _ _ _ _) as [t1|] eqn:E; [|done].
  injection H as -> _. rewrite part_set. apply (resolve_alert_exact _ _ _ _ _ _ _ _ Hok) in E. auto.
Qed.

(** *** Alerts that pile up *)

(** What happens to the source of an alert: its condition fails or is fine again. *)
Inductive AlertAction : Type := Fails (t : Time) | Recovers (t : Time).

Definition act (event : AlertEvent) (action : AlertAction) : Prog C unit :=
  match action with
  | Fails t => MergeOrCreate event t (t - merge_window)
  | Recovers t => Alerts_Resolve (al_ResourceType event) (al_ResourceID event) (al_Code event) t
  end.

(** Every failure comes more than five minutes after the one before. *)
Fixpoint spaced (last : Time) (actions : list AlertAction) : Prop :=
  match actions with
  | [] => True
  | Fails t :: rest => last + 300 * second < t ∧ spaced t rest
  | Recovers _ :: rest => spaced last rest
  end.

(** The alerts of the source that are open or acknowledged. *)
Definition unresolved (event : AlertEvent) (t : AlertTables) : gmap string AlertRow :=
  filter (λ p, of_event event p.2 = true ∧ at_status p.2 ∈ ["open"; "acknowledged"]) (alerts_rows t).

(** A failure adds one, a recovery takes one away. *)
Definition tally (n : nat) (actions : list AlertAction) : nat :=
  foldl (λ n action, match action with Fails _ => S n | Recovers _ => pred n end) n actions.

Definition seen_by (event : AlertEvent) (last : Time) (t : AlertTables) : Prop :=
  ∀ id a, unresolved event t !! id = Some a → at_last_occurred_at a ≤ last.

Lemma raised_adds event now t t' last :
  raised event now t t' → seen_by event last t → last + 300 * second < now →
  size (unresolved event t') = S (size (unresolved event t)) ∧ seen_by event now t'.
Proof.
  intros [(id & a & (Ha & He%of_event_same & Hs & Hl) & _)|(id & _ & Hid & Hrows & _)] Hseen Hlast.
  - assert (at_last_occurred_at a ≤ last); [|lia]. apply (Hseen id). apply map_lookup_filter_Some. split; [done|]. simpl. rewrite He, Hs. split; [done|left].
  - set (a := mkAlertRow _ _ _ _ _ _ _ _ _ _ _ _ _ _ _) in Hrows.
    assert (unresolved event t' = <[id := a]> (unresolved event t)) as E.
    { unfold unresolved. rewrite Hrows. apply map_filter_insert_True. simpl. split; [by apply of_event_same|left]. }
    unfold seen_by. rewrite E. split.
    + apply map_size_insert_None, map_lookup_filter_None. left. done.
    + intros k b [[<- <-]|[_ Hb]]%lookup_insert_Some; [done|]. specialize (Hseen k b Hb). unfold second in *. lia.
Qed.

Lemma resolved_removes event now t t' last :
  resolved (al_ResourceType event) (al_ResourceID event) (al_Code event) now t t' → seen_by event last t →
  size (unresolved event t') = pred (size (unresolved event t)) ∧ seen_by event last t'.
Proof.
  unfold resolved. intros Hr Hseen. destruct (resolve_target _ _ _ _) as [[id a]|] eqn:Et.
  - apply resolve_target_inv in Et as (Ha & He & Hs). destruct Hr as [Hrows _].
    assert (unresolved event t' = delete id (unresolved event t)) as E.
    { unfold unresolved. rewrite Hrows, map_filter_insert_False, map_filter_delete; [done|]. simpl. intros [_ H].
      by apply elem_of_cons in H as [?|?%list_elem_of_singleton]. }
    unfold seen_by. rewrite E. split; [|by intros k b [_ Hb]%lookup_delete_Some; eapply Hseen].
    apply (map_size_delete_Some). exists a. by apply map_lookup_filter_Some.
  - subst t'. split; [|done]. destruct (size (unresolved event t)) as [|n] eqn:En; [done|]. exfalso.
    assert (unresolved event t ≠ ∅) as (k & b & [Hb [He Hs]]%map_lookup_filter_Some)%map_choose by (intros E; by rewrite E, map_size_empty in En).
    destruct (resolve_target_exists _ _ _ _ _ _ Hb He Hs) as [x Hx]. congruence.
Qed.


End laws.

(** ** Examples *)

Record Desk : Type := mkDesk { dk_db : DB; dk_alerts : AlertTables }.

#[export] Instance desk_db : Has DB Desk.
Proof. by refine {| part := dk_db; set_part := λ d k, mkDesk d (dk_alerts k) |}; intros []. Defined.
#[export] Instance desk_alerts : Has AlertTables Desk.
Proof. by refine {| part := dk_alerts; set_part := λ t k, mkDesk (dk_db k) t |}; intros []. Defined.

Definition feishu_on : ConfigRow := mkConfigRow true "secret-1" "secret-2" "飞书机器人" None None 0 0.
Definition quiet_desk : Desk := mkDesk empty_tables (no_alert_tables <| notification_config := Some feishu_on |>).
Definition disk_event : AlertEvent := mkAlertEvent "server" "srv-1" "disk_low" SeverityWarning "磁盘不足" "".

Lemma quiet_desk_ok : alerting_ok (part (C := Desk) quiet_desk).
Proof. split; [apply map_Forall_empty..|]. intros i j x y H. change ((∅ : gmap string OutboxRow) !! i = Some x) in H. by rewrite lookup_empty in H. Qed.

Abbreviation raised_desk := (Raise disk_event (quiet_desk, calm ["alert-1"; "delivery-1"] 9)).

Lemma Raise_correct_witness :
  raised_desk.2 = Ok tt ∧ (map_to_list (notification_outbox (dk_alerts raised_desk.1.1))).*1 = ["delivery-1"] ∧
  raised disk_event 9 (dk_alerts quiet_desk) (dk_alerts raised_desk.1.1).
Proof.
  assert (raised_desk.2 = Ok tt) as Hr by (vm_compute; reflexivity). split; [exact Hr|]. split; [vm_compute; reflexivity|].
  assert (abides (at_times (eq 9)) (calm ["alert-1"; "delivery-1"] 9)) as Hclock by (repeat constructor).
  destruct (under_result _ _ _ _ _ (Raise_correct (at_times (eq 9)) disk_event quiet_desk quiet_desk_ok) Hclock) as (_ & H & _).
  destruct (H Hr) as (now & <- & Hraised). exact Hraised.
Defined.

Lemma raised_desk_ok : alerting_ok (part (C := Desk) raised_desk.1.1).
Proof.
  assert (moves alert_step (Raise (C := Desk) disk_event)) as H.
  { unfold Raise. apply moves_bind; [apply _|apply moves_clock; apply _|]. intros now. apply MergeOrCreate_moves. }
  apply (wp_result _ _ _ (calm ["alert-1"; "delivery-1"] 9) (H quiet_desk)), quiet_desk_ok.
Qed.

Abbreviation resolved_desk := (Alerts_Resolve "server" "srv-1" "disk_low" 20 (raised_desk.1.1, calm ["delivery-2"] 20)).

Lemma Resolve_effect_example :
  (at_status <$> alerts_rows (dk_alerts resolved_desk.1.1) !! "alert-1") = Some StatusResolved ∧
  (ox_event_type <$> notification_outbox (dk_alerts resolved_desk.1.1) !! "delivery-2") = Some "recovered" ∧
  resolved "server" "srv-1" "disk_low" 20 (dk_alerts raised_desk.1.1) (dk_alerts resolved_desk.1.1).
Proof.
  split; [vm_compute; reflexivity|]. split; [vm_compute; reflexivity|].
  destruct (wp_result _ _ _ (calm ["delivery-2"] 20) (Resolve_effect "server" "srv-1" "disk_low" 20 raised_desk.1.1 raised_desk_ok)) as (_ & H & _).
  apply H. vm_compute. reflexivity.
Defined.

(** Three daily failures after the first alert, and two recoveries. *)
Definition daily : list AlertAction := [Fails (86400 * second); Fails (172800 * second); Fails (259200 * second); Recovers (345600 * second); Recovers (432000 * second)].
Definition daily_ids : list string := ["alert-2"; "delivery-2"; "alert-3"; "delivery-3"; "alert-4"; "delivery-4"; "delivery-5"; "delivery-6"].
Abbreviation piled_up := (for_each daily (act disk_event) (raised_desk.1.1, calm daily_ids 9)).

