(* ===== verification/Notifications.v ===== *)
(** * Notifications

    [internal/notification]: the configuration of the Feishu channel, the outbox of
    messages and their delivery.

    A call fails when its context is over: [CallContext] is the context of the running
    call, which [in_ctx] consults.  The HTTP client and the decoding of a reply are the
    interface [FeishuAPI]: a request may let the context run out, and changes nothing
    else of the state. *)

From S2P Require Import Prelude GoStd GoPath GoCrypto Model World Schema Session Sha256 Redaction Secrets SchedulerService Accounts Alerts.

(** ** model.go *)

Definition ErrInvalidWebhook : Error := EOther "飞书 Webhook 地址无效".
Definition ErrInvalidConfig : Error := EOther "飞书通知配置无效".
Definition ErrUnavailable : Error := EOther "飞书通知服务尚未配置".
Definition ErrNotConfigured : Error := EOther "飞书通知尚未启用".
Definition ErrDeliveryNotFound : Error := EOther "通知发送记录不存在".
Definition ErrInvalidRequest : Error := EOther "测试通知请求标识无效".

Record FeishuConfigInput : Type := mkFeishuConfigInput { fi_Enabled : bool; fi_Webhook : string; fi_SigningSecret : string }.

Record FeishuConfigView : Type := mkFeishuConfigView { fv_Configured : bool; fv_Enabled : bool; fv_MaskedDestination : string; fv_UpdatedAt : Time }.

Record ConfigRecord : Type := mkConfigRecord {
  cr_Enabled : bool; cr_WebhookSecretID : string; cr_SigningSecretID : string; cr_MaskedDestination : string; cr_CreatedAt : Time; cr_UpdatedAt : Time
}.

#[export] Instance eta_ConfigRecord : Eta ConfigRecord := λ r,
  mkConfigRecord (cr_Enabled r) (cr_WebhookSecretID r) (cr_SigningSecretID r) (cr_MaskedDestination r) (cr_CreatedAt r) (cr_UpdatedAt r).

Definition no_config : ConfigRecord := mkConfigRecord false "" "" "" zero_time zero_time.

(** ** Webhooks (config.go) *)

(** [strings.Cut] at a byte. *)
Fixpoint cut_at (sep : ascii) (s : string) : string * string :=
  match s with
  | EmptyString => (EmptyString, EmptyString)
  | String a r => if bool_decide (a = sep) then (EmptyString, r) else let '(before, after) := cut_at sep r in (String a before, after)
  end.

Definition is_hex (c : ascii) : bool :=
  let x := byte_of c in ((48 <=? x) && (x <=? 57)) || ((97 <=? x) && (x <=? 102)) || ((65 <=? x) && (x <=? 70)).

(** [[0-9a-fA-F]{8}-[0-9a-fA-F]{4}-[0-9a-fA-F]{4}-[0-9a-fA-F]{4}-[0-9a-fA-F]{12}] *)
Definition hook_id (s : string) : bool :=
  let fields := split_on "-" s in
  bool_decide ((String.length <$> fields) = [8; 4; 4; 4; 12]%nat) && forallb (λ field, forallb is_hex (chars field)) fields.

Definition hook_prefix : string := "/open-apis/bot/v2/hook/".

(** [feishuWebhookPath.FindStringSubmatch] *)
Definition hook_match (path : string) : option string :=
  if HasPrefix path hook_prefix
  then let id := String.substring (String.length hook_prefix) (String.length path - String.length hook_prefix) path in
       if hook_id id then Some id else None
  else None.

Definition scheme_length : nat := 6.

(** The path of a URL that [url.Parse] reads with the scheme https, the host
    open.feishu.cn and neither a port, a user, a query, a fragment nor a path with
    escapes: the scheme is read in any case, and an empty query or fragment is none. *)
Definition feishu_path (value : string) : option string :=
  let '(url, fragment) := cut_at "#" value in
  let '(rest, query) := cut_at "?" url in
  let scheme := String.substring 0 scheme_length rest in
  let authority := "//open.feishu.cn" in
  let after := String.substring scheme_length (String.length rest - scheme_length) rest in
  if forallb (λ c, (32 <=? byte_of c) && negb (byte_of c =? 127)) (chars value) && bool_decide (fragment = "") && bool_decide (query = "") &&
     bool_decide (ToLower scheme = "https:") && HasPrefix after authority
  then let path := String.substring (String.length authority) (String.length after - String.length authority) after in
       if HasPrefix path "/" && negb (contains_byte "%" path) then Some path else None
  else None.

Definition ValidateFeishuWebhook `{!UUIDs} (value : string) : Result unit :=
  if negb (bool_decide (TrimSpace value = value)) || bool_decide (value = "") then Err ErrInvalidWebhook
  else
    match feishu_path value ≫= hook_match with
    | Some id => match parse_uuid id with Some _ => Ok tt | None => Err ErrInvalidWebhook end
    | None => Err ErrInvalidWebhook
    end.

(** For a webhook that passed [ValidateFeishuWebhook], the only ones it is called with. *)
Definition maskWebhook (webhook : string) : string :=
  match feishu_path webhook ≫= hook_match with
  | Some id => "飞书机器人 …" +:+ String.substring (String.length id - 4) 4 id
  | None => "飞书机器人"
  end.

Definition configView (record : ConfigRecord) : FeishuConfigView :=
  mkFeishuConfigView (negb (bool_decide (cr_WebhookSecretID record = "")) && negb (bool_decide (cr_SigningSecretID record = "")))
    (cr_Enabled record) (cr_MaskedDestination record) (cr_UpdatedAt record).

(** ** outbox.go *)

Definition DeliveryPending : string := "pending".
Definition DeliverySending : string := "sending".
Definition DeliveryRetrying : string := "retrying".
Definition DeliverySent : string := "sent".
Definition DeliveryFailed : string := "failed".

Record Delivery : Type := mkDelivery {
  dv_ID : string; dv_EventType : string; dv_Status : string; dv_Attempts : Z; dv_NextAttemptAt : Time; dv_LeaseUntil : option Time;
  dv_LastError : string; dv_ResponseID : string; dv_CreatedAt : Time; dv_SentAt : option Time; dv_UpdatedAt : Time
}.

Record ClaimedDelivery : Type := mkClaimedDelivery {
  cl_Delivery : Delivery; cl_Payload : FrozenMessage; cl_WebhookSecretID : string; cl_SigningSecretID : string
}.

Definition retryDelay (attempt : Z) : Duration :=
  if attempt =? 1 then minute else if attempt =? 2 then 5 * minute else if attempt =? 3 then 15 * minute else if attempt =? 4 then hour else 6 * hour.

(** ** The statements of postgres.go *)

Definition delivery_of (id : string) (o : OutboxRow) : Delivery :=
  mkDelivery id (ox_event_type o) (ox_status o) (ox_attempts o) (ox_next_attempt_at o) (ox_lease_until o) (ox_last_error o) (ox_response_id o)
    (ox_created_at o) (ox_sent_at o) (ox_updated_at o).

Definition record_of (row : ConfigRow) : ConfigRecord :=
  mkConfigRecord (nc_enabled row) (nc_webhook_secret_id row) (nc_signing_secret_id row) (nc_masked_destination row) (nc_created_at row) (nc_updated_at row).

(** [WHERE] of the candidate. *)
Definition delivery_due (now : Time) (o : OutboxRow) : bool :=
  (bool_decide (ox_status o ∈ [DeliveryPending; DeliveryRetrying]) && (ox_next_attempt_at o <=? now)) ||
  (bool_decide (ox_status o = DeliverySending) && match ox_lease_until o with Some lease => lease <=? now | None => false end).

(** [ORDER BY next_attempt_at, created_at, id] *)
Definition claim_order (a b : string * OutboxRow) : bool :=
  less_lex (less_by Z.ltb (λ p : string * OutboxRow, ox_next_attempt_at p.2))
    (less_lex (less_by Z.ltb (λ p : string * OutboxRow, ox_created_at p.2)) (less_by string_lt fst)) a b.

Definition claim_candidate (now : Time) (t : AlertTables) : option (string * OutboxRow) :=
  head (stable_sort claim_order (filter (λ p, delivery_due now p.2 = true) (map_to_list (notification_outbox t)))).

Definition claimed (now : Time) (lease : Duration) (o : OutboxRow) : OutboxRow :=
  o <| ox_status := DeliverySending |> <| ox_attempts := ox_attempts o + 1 |> <| ox_lease_until := Some (now + lease) |> <| ox_updated_at := now |>.

Definition claim_due (now : Time) (lease : Duration) (t : AlertTables) : option (AlertTables * option ClaimedDelivery) :=
  match notification_config t, claim_candidate now t with
  | Some config, Some (id, o) =>
    if negb (nc_enabled config) then Some (t, None)
    else if 2 ^ 31 <=? ox_attempts o + 1 then None
    else
      let o := claimed now lease o in
      Some (t <| notification_outbox ::= <[id := o]> |>,
            Some (mkClaimedDelivery (delivery_of id o) (ox_payload o) (nc_webhook_secret_id config) (nc_signing_secret_id config)))
  | _, _ => Some (t, None)
  end.

(** [UPDATE ... WHERE id=$1 AND status='sending']: the number of rows. *)
Definition update_sending (id : string) (f : OutboxRow → OutboxRow) (t : AlertTables) : option (AlertTables * bool) :=
  match notification_outbox t !! id with
  | Some o => if bool_decide (ox_status o = DeliverySending) then Some (t <| notification_outbox ::= <[id := f o]> |>, true) else Some (t, false)
  | None => Some (t, false)
  end.

Definition sent_delivery (responseID : string) (at_ : Time) (o : OutboxRow) : OutboxRow :=
  o <| ox_status := DeliverySent |> <| ox_response_id := responseID |> <| ox_sent_at := Some at_ |> <| ox_lease_until := None |>
    <| ox_last_error := "" |> <| ox_updated_at := at_ |>.

Definition failed_delivery (lastError : string) (next : Time) (terminal : bool) (at_ : Time) (o : OutboxRow) : OutboxRow :=
  o <| ox_status := if terminal then DeliveryFailed else DeliveryRetrying |> <| ox_next_attempt_at := next |> <| ox_lease_until := None |>
    <| ox_last_error := if 256 <? len lastError then String.substring 0 256 lastError else lastError |> <| ox_updated_at := at_ |>.

Definition find_delivery (key : string) (t : AlertTables) : option (string * OutboxRow) :=
  head (filter (λ p, ox_idempotency_key p.2 = key) (map_to_list (notification_outbox t))).

Definition test_delivery (payload : FrozenMessage) (key : string) (at_ : Time) : OutboxRow :=
  mkOutboxRow None "test" payload key DeliveryPending 0 at_ None "" "" at_ None at_.

Definition insert_test (id : string) (payload : FrozenMessage) (key : string) (at_ : Time) (t : AlertTables) : option AlertTables :=
  if bool_decide (is_Some (notification_outbox t !! id)) || bool_decide (is_Some (find_delivery key t)) then None
  else Some (t <| notification_outbox ::= <[id := test_delivery payload key at_]> |>).

(** ** feishu.go *)

Definition feishuResponseLimit : Z := 65536.

(** [hmac.New(sha256.New, key)] over [message]; a key is at most one block of 64 bytes,
    a longer one is hashed. *)
Definition hmac_sha256 (key message : list Z) : list Z :=
  let key := if 64 <? Z.of_nat (length key) then sha256_bytes key else key in
  let block := key ++ replicate (64 - length key) 0 in
  sha256_bytes ((Z.lxor 92 <$> block) ++ sha256_bytes ((Z.lxor 54 <$> block) ++ message)).

Definition SignFeishu (timestamp : Z) (secretValue : string) : string :=
  base64_padded false (hmac_sha256 (bytes_of (format_int timestamp +:+ String (byte_char 10) secretValue)) []).

Definition two_digits (z : Z) : string := String (digit_char (z / 10)) (String (digit_char (z mod 10)) "").

(** [t.UTC().Format("2006-01-02 15:04:05 UTC")], for years of four digits. *)
Definition format_utc (t : Time) : string :=
  let c := civil_in UTC t in
  two_digits (cv_year c / 100) +:+ two_digits (cv_year c mod 100) +:+ "-" +:+ two_digits (cv_month c) +:+ "-" +:+ two_digits (cv_day c) +:+ " " +:+
  two_digits (cv_hour c) +:+ ":" +:+ two_digits (cv_minute c) +:+ ":" +:+ two_digits (cv_second c) +:+ " UTC".

Record FeishuCard : Type := mkFeishuCard { fc_template : string; fc_title : string; fc_content : string }.
Record FeishuRequest : Type := mkFeishuRequest { fr_timestamp : string; fr_sign : string; fr_card : FeishuCard }.
Record FeishuReply : Type := mkFeishuReply { fp_Code : option Z; fp_MessageID : string; fp_RequestID : string; fp_DataMessageID : string }.

Definition newline : string := String (byte_char 10) "".

Definition feishuCard (payload : FrozenMessage) : FeishuCard :=
  let template :=
    if bool_decide (fm_Severity payload = "critical") then "red" else if bool_decide (fm_Severity payload = "warning") then "orange" else "blue" in
  mkFeishuCard template (fm_Title payload)
    ("**告警代码：** " +:+ fm_Code payload +:+ newline +:+ "**来源：** " +:+ fm_SourceType payload +:+ " / " +:+ fm_SourceID payload +:+ newline +:+
     "**累计次数：** " +:+ format_int (fm_OccurrenceCount payload) +:+ newline +:+ "**时间：** " +:+ format_utc (fm_OccurredAt payload)).

Record CallContext : Type := mkCallContext { ctx_done : bool }.

Class FeishuAPI (C : Type) : Type := {
  (** [httpClient.Do]: the status and the body *)
  http_post : string → FeishuRequest → Prog C (Z * string);
  decode_reply : string → option FeishuReply
}.

Class FeishuLaw {C : Type} `{!Has CallContext C, api : !FeishuAPI C} : Prop := {
  post_frame : ∀ webhook request (c : C), wp (http_post webhook request) c (λ _ c', ∃ ctx, c' = set_part (ctx : CallContext) c)
}.

Section send.
Context {C : Type} `{!Has CallContext C, api : !FeishuAPI C, uuids : !UUIDs}.

(** A call to the database or the like under the current context. *)
Definition in_ctx {A} (m : Prog C A) : Prog C A :=
  let! over := local (λ c, (c, ctx_done (part c))) in
  if over : bool then throw (EOther "context deadline exceeded") else m.

(** The first identifier of the reply that is not blank. *)
Definition reply_id (reply : FeishuReply) : string :=
  default "" (head (List.filter (λ id, negb (bool_decide (TrimSpace id = ""))) [fp_DataMessageID reply; fp_MessageID reply; fp_RequestID reply])).

Definition Send (webhook signingSecret : string) (payload : FrozenMessage) : Prog C string :=
  if negb (is_ok (ValidateFeishuWebhook webhook)) || bool_decide (signingSecret = "") then throw (EOther "飞书发送配置无效")
  else
    let! now := clock_now in
    let timestamp := unix_seconds now in
    let! response := catch (in_ctx (http_post webhook (mkFeishuRequest (format_int timestamp) (SignFeishu timestamp signingSecret) (feishuCard payload)))) in
    match response with
    | Err _ => throw (EOther "发送飞书请求失败")
    | Ok (status, body) =>
      if feishuResponseLimit <? len body then throw (EOther "飞书响应超过安全限制")
      else if (status <? 200) || (300 <=? status) then throw (EOther ("飞书返回 HTTP " +:+ format_int status))
      else
        match decode_reply body with
        | None => throw (EOther "飞书响应格式无效")
        | Some reply =>
          match fp_Code reply with
          | None => throw (EOther "飞书响应格式无效")
          | Some code => if negb (code =? 0) then throw (EOther ("飞书返回业务错误 " +:+ format_int code)) else ret (reply_id reply)
          end
        end
    end.

Lemma respects_in_ctx (R : C → C → Prop) `{!PreOrder R} {A} (m : Prog C A) : respects R m → respects R (in_ctx m).
Proof. intros H c. apply wp_bind, wp_local. simpl. destruct (ctx_done _); [by apply wp_throw|apply H]. Qed.

End send.

(** ** postgres.go *)

Section repository.
Context {C : Type} `{!Has DB C, !Has SecretTables C, !Has AlertTables C, !Has CallContext C}.

Definition Config_Get : Prog C (option ConfigRecord) :=
  pool_query (T := AlertTables) "读取飞书通知配置" (λ t, record_of <$> notification_config t).

(** [INSERT ... ON CONFLICT (channel) DO UPDATE], with the references to [secrets] and
    [users]. *)
Definition upsert_config (record : ConfigRecord) (actorID : string) (now : Time) (c : C) (t : AlertTables) : option (AlertTables * ConfigRecord) :=
  let known id := bool_decide (is_Some (secret_rows (part c) !! id)) in
  if negb (known (cr_WebhookSecretID record) && known (cr_SigningSecretID record) && bool_decide (actorID ∈ users (part c))) then None
  else
    let row :=
      match notification_config t with
      | None => mkConfigRow (cr_Enabled record) (cr_WebhookSecretID record) (cr_SigningSecretID record) (cr_MaskedDestination record)
                  (Some actorID) (Some actorID) now now
      | Some old => mkConfigRow (cr_Enabled record) (cr_WebhookSecretID record) (cr_SigningSecretID record) (cr_MaskedDestination record)
                      (nc_created_by old) (Some actorID) (nc_created_at old) now
      end in
    Some (t <| notification_config := Some row |>, record_of row).

Definition Config_Save (record : ConfigRecord) (actorID : string) : Prog C ConfigRecord :=
  if bool_decide (TrimSpace actorID = "") then throw ErrInvalidConfig
  else
    transaction (T := AlertTables) "开始飞书配置事务" (
      let! now := clock_now in
      let! record := remote "保存飞书通知配置" (λ '(c, t), p ← upsert_config record actorID now c t; Some ((c, p.1), p.2)) in
      exec "记录飞书配置审计" Some ;;!
      commit "提交飞书配置事务" ;;!
      ret record).

Definition referenced (t : AlertTables) (id : string) : bool :=
  match notification_config t with
  | Some row => bool_decide (nc_webhook_secret_id row = id) || bool_decide (nc_signing_secret_id row = id)
  | None => false
  end.

Definition unreferenced_secret (t : AlertTables) (id : string) (s : StoredSecret) : bool :=
  bool_decide (md_Scope (ss_Metadata s) = ScopeSystem) && HasPrefix (md_Name (ss_Metadata s)) "notification/feishu/" && negb (referenced t id).

Definition DeleteUnreferencedSystemSecrets : Prog C unit :=
  remote "清理未引用飞书系统秘密" (λ c,
    let t : AlertTables := part c in
    let rows := secret_rows (part c) in
    Some (set_part (mkSecretTables (filter (λ p, unreferenced_secret t p.1 p.2 = false) rows)) c, tt)).

Definition Outbox_EnqueueTest (actorID : string) (payload : FrozenMessage) (key : string) (at_ : Time) : Prog C Delivery :=
  if bool_decide (TrimSpace actorID = "") || bool_decide (TrimSpace key = "") then throw ErrUnavailable
  else
    transaction (T := AlertTables) "开始测试通知事务" (
      let! existing := query "" (find_delivery key) in
      match existing with
      | Some (id, o) =>
        if negb (bool_decide (ox_event_type o = "test")) then throw ErrInvalidRequest
        else commit "" ;;! ret (delivery_of id o)
      | None =>
        let! enabled := catch (query "检查飞书通知配置" feishu_enabled) in
        match enabled with
        | Ok true =>
          let! id := new_uuid in
          exec "创建飞书测试通知" (insert_test id payload key at_) ;;!
          exec "记录飞书测试审计" Some ;;!
          commit "提交飞书测试通知" ;;!
          ret (delivery_of id (test_delivery payload key at_))
        | _ => throw ErrNotConfigured
        end
      end).

Definition ClaimDue (now : Time) (lease : Duration) : Prog C (option ClaimedDelivery) :=
  in_ctx (pool (T := AlertTables) "领取通知发件箱" (claim_due now lease)).

Definition MarkSent (id responseID : string) (at_ : Time) : Prog C unit :=
  let! updated := in_ctx (pool (T := AlertTables) "完成通知发送" (update_sending id (sent_delivery responseID at_))) in
  if updated : bool then ret tt else throw ErrDeliveryNotFound.

Definition MarkFailed (id lastError : string) (next : Time) (terminal : bool) (at_ : Time) : Prog C unit :=
  let! updated := in_ctx (pool (T := AlertTables) "记录通知发送失败" (update_sending id (failed_delivery lastError next terminal at_))) in
  if updated : bool then ret tt else throw ErrDeliveryNotFound.

Definition Outbox_GetDelivery (id : string) : Prog C Delivery :=
  if bool_decide (TrimSpace id = "") then throw ErrDeliveryNotFound
  else
    let! found := pool_query (T := AlertTables) "读取通知发送记录" (λ t, notification_outbox t !! id) in
    match found with Some o => ret (delivery_of id o) | None => throw ErrDeliveryNotFound end.

End repository.

(** ** The services *)

Section services.
Context {C : Type} `{!Has DB C, !Has SecretTables C, !Has AlertTables C, !Has CallContext C}.
Context `{aead : !AEAD, api : !FeishuAPI C, uuids : !UUIDs} (read_file : string → option string) (keys : FileKeyProvider).

(** config.go *)

Definition Config_View : Prog C FeishuConfigView :=
  let! record := Config_Get in
  ret (match record with Some record => configView record | None => mkFeishuConfigView false false "" zero_time end).

Definition cleanupUnreferenced : Prog C unit := ignore DeleteUnreferencedSystemSecrets.

(** The two secrets of a new webhook, once the first one exists. *)
Definition store_signing (record : ConfigRecord) (actorID : string) (input : FeishuConfigInput) (webhookID : string) : Prog C FeishuConfigView :=
  let! name := new_uuid in
  let! signing := CreateSystem read_file keys actorID ("notification/feishu/signing/" +:+ name) (bytes_of (fi_SigningSecret input)) in
  let record := record <| cr_WebhookSecretID := webhookID |> <| cr_SigningSecretID := md_ID signing |>
                       <| cr_MaskedDestination := maskWebhook (fi_Webhook input) |> in
  let! saved := Config_Save record actorID in
  ret (configView saved).

Definition Config_Update (actorID : string) (input : FeishuConfigInput) : Prog C FeishuConfigView :=
  if bool_decide (TrimSpace actorID = "") then throw ErrUnavailable
  else
    let! existing := Config_Get in
    let hasWebhook := negb (bool_decide (fi_Webhook input = "")) in
    let hasSigningSecret := negb (bool_decide (fi_SigningSecret input = "")) in
    if negb (eqb hasWebhook hasSigningSecret) || (negb hasWebhook && negb (bool_decide (is_Some existing))) then throw ErrInvalidConfig
    else
      let record := (default no_config existing) <| cr_Enabled := fi_Enabled input |> in
      if hasWebhook then
        if negb (is_ok (ValidateFeishuWebhook (fi_Webhook input))) || bool_decide (TrimSpace (fi_SigningSecret input) = "") then throw ErrInvalidConfig
        else
          let! name := new_uuid in
          let! webhook := CreateSystem read_file keys actorID ("notification/feishu/webhook/" +:+ name) (bytes_of (fi_Webhook input)) in
          let! result := catch (store_signing record actorID input (md_ID webhook)) in
          cleanupUnreferenced ;;!
          match result with Ok view => ret view | Err e => throw e end
      else
        let! saved := Config_Save record actorID in
        cleanupUnreferenced ;;!
        ret (configView saved).

(** outbox.go *)

Definition nil_uuid : string := "00000000-0000-0000-0000-000000000000".

Definition test_key (actorID request : string) : string := "notification:test:" +:+ actorID +:+ ":" +:+ request.

Definition EnqueueTest (actorID requestID : string) : Prog C Delivery :=
  if bool_decide (TrimSpace actorID = "") then throw ErrUnavailable
  else
    match parse_uuid requestID with
    | None => throw ErrInvalidRequest
    | Some request =>
      if bool_decide (request = nil_uuid) then throw ErrInvalidRequest
      else
        let! now := clock_now in
        Outbox_EnqueueTest actorID (mkFrozenMessage "notification_test" "info" "云令飞书测试消息" "system" "yunling" 1 now) (test_key actorID request) now
    end.

Definition GetDelivery (id : string) : Prog C Delivery := Outbox_GetDelivery id.

Definition maxAttempts : Z := 24.

Definition recordFailure (claim : ClaimedDelivery) (message : string) (now : Time) : Prog C unit :=
  let attempts := dv_Attempts (cl_Delivery claim) in
  let terminal := maxAttempts <=? attempts in
  MarkFailed (dv_ID (cl_Delivery claim)) message (if terminal then now else now + retryDelay attempts) terminal now.

Definition deliver (claim : ClaimedDelivery) (now : Time) : Prog C unit :=
  let! values := catch (in_ctx (Secret_Resolve read_file keys [cl_WebhookSecretID claim; cl_SigningSecretID claim])) in
  match values with
  | Ok values =>
    if negb (size values =? 2)%nat then recordFailure claim "读取飞书通知凭据失败" now
    else
      let value id := text_of (default [] (values !! id)) in
      let! sent := catch (Send (value (cl_WebhookSecretID claim)) (value (cl_SigningSecretID claim)) (cl_Payload claim)) in
      match sent with
      | Ok responseID => MarkSent (dv_ID (cl_Delivery claim)) responseID now
      | Err _ => recordFailure claim "飞书消息发送失败" now
      end
  | Err _ => recordFailure claim "读取飞书通知凭据失败" now
  end.

Definition delivery_lease : Duration := 30 * second.

(** [for range 100] *)
Fixpoint deliver_rounds (rounds : nat) : Prog C unit :=
  match rounds with
  | O => ret tt
  | S rounds =>
    let! now := clock_now in
    let! claim := ClaimDue now delivery_lease in
    match claim with
    | None => ret tt
    | Some claim => deliver claim now ;;! deliver_rounds rounds
    end
  end.

Definition DeliverDue : Prog C unit := deliver_rounds 100.

(** [context.WithTimeout] *)
Definition with_timeout {A} (m : Prog C A) : Prog C A := local (λ c, (set_part (mkCallContext false) c, tt)) ;;! m.

End services.

(** ** The deliveries *)

Lemma claimed_evolves now lease o : ¬ final_delivery o → delivery_evolves o (claimed now lease o).
Proof. intros Hf. unfold delivery_evolves, claimed. simpl. split_and!; [done..|lia|done]. Qed.

Lemma claimed_ok now lease o : delivery_ok o → ¬ final_delivery o → delivery_ok (claimed now lease o).
Proof.
  intros [H1 H2 H3 H4] Hf. unfold claimed. split; simpl; [right; left| | |].
  - split; [done|]. intros Hs%H2. destruct Hf. by left.
  - by split.
  - case_bool_decide; lia.
Qed.

Lemma delivery_due_open now o : delivery_due now o = true → ¬ final_delivery o.
Proof.
  unfold delivery_due, final_delivery. intros [[H%bool_decide_eq_true _]%andb_true_iff|[H%bool_decide_eq_true _]%andb_true_iff]%orb_true_iff [E|E]; rewrite E in H.
  1, 2: by apply elem_of_cons in H as [?|?%list_elem_of_singleton].
  all: done.
Qed.

Lemma claim_candidate_inv now t id o : claim_candidate now t = Some (id, o) → notification_outbox t !! id = Some o ∧ delivery_due now o = true.
Proof. intros [Hin H]%(head_filter_sorted _ (λ p, delivery_due now p.2)). by apply elem_of_map_to_list in Hin. Qed.

Lemma claim_due_step now lease t t' claim : claim_due now lease t = Some (t', claim) → alert_step t t'.
Proof.
  unfold claim_due. destruct (notification_config t) as [config|]; [|by intros [= <- _]].
  destruct (claim_candidate now t) as [[id o]|] eqn:E; [|by intros [= <- _]]. apply claim_candidate_inv in E as [Hrow Hdue%delivery_due_open].
  destruct (negb _); [by intros [= <- _]|]. destruct (_ <=? _); [done|]. intros [= <- _].
  apply (set_delivery_step _ o); [done|by apply claimed_evolves|]. intros Hok. by apply claimed_ok.
Qed.

Lemma update_sending_step id f t t' b :
  (∀ o, ox_status o = DeliverySending → delivery_evolves o (f o) ∧ (delivery_ok o → delivery_ok (f o))) →
  update_sending id f t = Some (t', b) → alert_step t t'.
Proof.
  intros Hf. unfold update_sending. destruct (_ !! id) as [o|] eqn:Hrow; [|by intros [= <- _]].
  destruct (bool_decide (ox_status o = DeliverySending)) eqn:Es; [apply bool_decide_eq_true in Es|]; intros [= <- _]; [|done].
  destruct (Hf o Es). by apply (set_delivery_step _ o).
Qed.

Lemma sent_delivery_step responseID at_ o :
  ox_status o = DeliverySending → delivery_evolves o (sent_delivery responseID at_ o) ∧ (delivery_ok o → delivery_ok (sent_delivery responseID at_ o)).
Proof.
  intros Hs. split.
  - unfold delivery_evolves, sent_delivery, final_delivery. simpl. rewrite Hs. split_and!; [done..|lia|]. by intros [].
  - intros [H1 H2 H3 H4]. unfold sent_delivery. split; simpl; [by do 3 right; left|by split| |].
    + split; [done|by intros []].
    + rewrite Hs in H4. simpl in H4. lia.
Qed.

Lemma failed_delivery_step lastError next terminal at_ o :
  ox_status o = DeliverySending →
  delivery_evolves o (failed_delivery lastError next terminal at_ o) ∧ (delivery_ok o → delivery_ok (failed_delivery lastError next terminal at_ o)).
Proof.
  intros Hs. split.
  - unfold delivery_evolves, failed_delivery, final_delivery. simpl. rewrite Hs. split_and!; [done..|lia|]. by intros [].
  - intros [H1 H2 H3 H4]. rewrite Hs in H2, H3, H4. simpl in H4. unfold failed_delivery.
    assert (ox_sent_at o = None) as Hn by (apply eq_None_not_Some; by intros ?%H2).
    split; simpl; rewrite ?Hn; destruct terminal; simpl; try lia; try (split; [done|by intros []]); [by do 4 right; left|by do 2 right; left].
Qed.

Lemma find_delivery_None key t : find_delivery key t = None → ∀ k x, notification_outbox t !! k = Some x → ox_idempotency_key x ≠ key.
Proof.
  unfold find_delivery. intros H k x Hx Hk. destruct (filter _ _) as [|p l] eqn:E; [|done].
  assert ((k, x) ∈ filter (λ p, ox_idempotency_key p.2 = key) (map_to_list (notification_outbox t))) as Hin.
  { apply list_elem_of_filter. split; [done|by apply elem_of_map_to_list]. }
  rewrite E in Hin. by apply elem_of_nil in Hin.
Qed.

Lemma find_delivery_Some key t id o : find_delivery key t = Some (id, o) → notification_outbox t !! id = Some o ∧ ox_idempotency_key o = key.
Proof.
  unfold find_delivery. destruct (filter _ _) as [|p l] eqn:E; [done|]. intros [= ->].
  assert ((id, o) ∈ filter (λ p, ox_idempotency_key p.2 = key) (map_to_list (notification_outbox t))) as Hin by (rewrite E; left).
  by apply list_elem_of_filter in Hin as [? ?%elem_of_map_to_list].
Qed.

Lemma insert_test_step id payload request at_ t t' :
  insert_test id payload ("notification:test:" +:+ request) at_ t = Some t' → alert_step t t'.
Proof.
  unfold insert_test. destruct (_ || _) eqn:E; [done|]. apply orb_false_iff in E as [E1%bool_decide_eq_false E2%bool_decide_eq_false].
  intros [= <-]. apply eq_None_not_Some in E1, E2. apply new_delivery_step; [done| | |].
  - split; simpl; [left|split; [done|by intros []]|split; [done|by intros []]|done].
  - by apply find_delivery_None.
  - split; [done|]. by exists request.
Qed.

(** ** The configured secrets *)

Section relation.
Context {C : Type} `{!Has DB C, !Has SecretTables C, !Has AlertTables C, !Has CallContext C}.
Context `{!Apart AlertTables SecretTables C, !Apart SecretTables AlertTables C, !Apart CallContext AlertTables C, !Apart CallContext SecretTables C}.

(** The references of the configuration to [secrets]. *)
Definition config_ok (t : AlertTables) (s : SecretTables) : Prop :=
  match notification_config t with
  | Some row => is_Some (secret_rows s !! nc_webhook_secret_id row) ∧ is_Some (secret_rows s !! nc_signing_secret_id row)
  | None => True
  end.

Record ops_step (c c' : C) : Prop := {
  os_alerts : alerting_step (part c) (part c');
  os_secrets : secrets_ok (part c) → secrets_ok (part c');
  os_config : config_ok (part c) (part c) → config_ok (part c') (part c');
  os_rules : ∀ key, is_Some (alert_rule_states (part c) !! key) → is_Some (alert_rule_states (part c') !! key)
}.

#[export] Instance ops_step_preorder : PreOrder ops_step.
Proof. split; [by split|]. intros a b c [A1 S1 C1 R1] [A2 S2 C2 R2]. split; [by etrans|auto..]. Qed.

End relation.

(** Programs that keep the relation, whatever fails. *)
Abbreviation ops_keeps := (respects ops_step).
Abbreviation ops_same := (respects_same ops_step).
Abbreviation ops_ret := (respects_ret ops_step).
Abbreviation ops_throw := (respects_throw ops_step).
Abbreviation ops_bind := (respects_bind ops_step).
Abbreviation ops_catch := (respects_catch ops_step).
Abbreviation ops_ignore := (respects_ignore ops_step).
Abbreviation ops_clock := (respects_clock ops_step).
Abbreviation ops_uuid := (respects_uuid ops_step).
Abbreviation ops_for_each := (respects_for_each ops_step).
Abbreviation ops_in_ctx := (respects_in_ctx ops_step).

Section laws.
Context {C : Type} `{!Has DB C, !Has SecretTables C, !Has AlertTables C, !Has CallContext C}.
Context `{!Apart AlertTables SecretTables C, !Apart SecretTables AlertTables C, !Apart CallContext AlertTables C, !Apart CallContext SecretTables C}.

(** What only touches the alerts. *)
Lemma step_alerts (c : C) t : alert_step (part c) t → ops_step c (set_part t c).
Proof.
  intros [[Hc Hr] Ha]. split; rewrite ?part_set, ?apart; [done|done| |by rewrite Hr]. unfold config_ok. by rewrite Hc.
Qed.

Lemma ops_moves {A} (m : Prog C A) : moves alert_step m → ops_keeps m.
Proof. intros H c. eapply wp_mono; [apply H|]. intros r c' [-> Hs]. rewrite part_set in Hs. by apply step_alerts. Qed.

Lemma step_ctx (c : C) (ctx : CallContext) : ops_step c (set_part ctx c).
Proof. split; by rewrite !apart. Qed.

Lemma ops_Get : ops_keeps Config_Get.
Proof. apply ops_same. intros c. by apply wp_pool_query. Qed.

Lemma ops_EnqueueTest actorID payload request at_ : ops_keeps (Outbox_EnqueueTest actorID payload ("notification:test:" +:+ request) at_).
Proof.
  unfold Outbox_EnqueueTest. destruct (_ || _); [apply ops_throw|]. apply ops_moves, db_spec_transaction; [done|]. intros c.
  repeat tx_step; try done; tx_facts; try done.
  all: by eapply insert_test_step.
Qed.

Lemma ops_ClaimDue now lease : ops_keeps (ClaimDue now lease).
Proof. apply ops_in_ctx, ops_moves, moves_pool; [apply _|]. intros t t' claim. apply claim_due_step. Qed.

Lemma ops_MarkSent id responseID at_ : ops_keeps (MarkSent id responseID at_).
Proof.
  apply ops_bind; [|intros []; [apply ops_ret|apply ops_throw]]. apply ops_in_ctx, ops_moves, moves_pool; [apply _|].
  intros t t' b. apply update_sending_step. intros o. apply sent_delivery_step.
Qed.

Lemma ops_MarkFailed id lastError next terminal at_ : ops_keeps (MarkFailed id lastError next terminal at_).
Proof.
  apply ops_bind; [|intros []; [apply ops_ret|apply ops_throw]]. apply ops_in_ctx, ops_moves, moves_pool; [apply _|].
  intros t t' b. apply update_sending_step. intros o. apply failed_delivery_step.
Qed.

Lemma upsert_config_inv record actorID now (c : C) t t' saved :
  upsert_config record actorID now c t = Some (t', saved) →
  ∃ row, t' = t <| notification_config := Some row |> ∧ is_Some (secret_rows (part c) !! nc_webhook_secret_id row) ∧
    is_Some (secret_rows (part c) !! nc_signing_secret_id row) ∧ nc_enabled row = cr_Enabled record ∧
    nc_webhook_secret_id row = cr_WebhookSecretID record ∧ nc_signing_secret_id row = cr_SigningSecretID record.
Proof.
  unfold upsert_config. destruct (negb _) eqn:E; [done|]. apply negb_false_iff, andb_true_iff in E as [E _].
  apply andb_true_iff in E as [E1%bool_decide_eq_true E2%bool_decide_eq_true]. intros [= <- <-]. eexists. split; [done|].
  destruct (notification_config t); by split_and!.
Qed.

Lemma step_config (c : C) row :
  is_Some (secret_rows (part c) !! nc_webhook_secret_id row) → is_Some (secret_rows (part c) !! nc_signing_secret_id row) →
  ops_step c (set_part ((part c) <| notification_config := Some row |> : AlertTables) c).
Proof.
  intros H1 H2. split; rewrite ?part_set, ?apart; [|done|by intros _|done].
  intros [A1 A2 A3 A4]. split; [by split|]. split; intros id x Hx; by exists x.
Qed.

Lemma ops_Save record actorID : ops_keeps (Config_Save record actorID).
Proof.
  unfold Config_Save. case_bool_decide; [apply ops_throw|]. intros c. apply wp_transaction; [done|].
  apply wp_bind, wp_clock_now. intros now. apply wp_bind, wp_remote; [done|]. intros [c1 t1] saved Hup.
  destruct (upsert_config _ _ _ _ _) as [[t' saved']|] eqn:Eu; [|done]. injection Hup as <- <- <-. split; [|done].
  apply upsert_config_inv in Eu as (row & -> & H1 & H2 & _). apply wp_bind, wp_exec; [done|]. intros t2 [= <-]. split; [|done].
  apply wp_bind, wp_commit; [done| |]; [apply wp_ret|]; by apply step_config.
Qed.

(** The cleanup spares the secrets of the configuration. *)
Lemma ops_cleanup : ops_keeps cleanupUnreferenced.
Proof.
  apply ops_ignore. intros c. apply wp_remote; [done|]. intros c' u [= <- _].
  assert (ops_step c (set_part (mkSecretTables (filter (λ p, unreferenced_secret (part c) p.1 p.2 = false) (secret_rows (part c)))) c)) as H; [|done].
  split; rewrite ?part_set, ?apart; [done| | |done].
  - intros Hok id row [Hrow _]%map_lookup_filter_Some. by apply Hok.
  - unfold config_ok, unreferenced_secret, referenced. destruct (notification_config (part c)) as [row|]; [|done]. intros [[x Hx] [y Hy]]. simpl.
    split; [exists x|exists y]; apply map_lookup_filter_Some; (split; [done|]); simpl.
    + rewrite (bool_decide_true (nc_webhook_secret_id row = nc_webhook_secret_id row)) by done. apply andb_false_r.
    + rewrite (bool_decide_true (nc_signing_secret_id row = nc_signing_secret_id row)), orb_true_r by done. apply andb_false_r.
Qed.

(** *** The services *)

Context `{aead : !AEAD, api : !FeishuAPI C, law : !FeishuLaw, uuids : !UUIDs} (read_file : string → option string) (keys : FileKeyProvider).

Lemma create_secret_inserts creator name plaintext scope (c : C) :
  wp (create_secret read_file keys creator name plaintext scope) c (λ r c', c' = c ∧ is_ok r = false ∨ ∃ value m, insert_secret value c = Some (c', m) ∧ (∀ m', r = Ok m' → m' = m)).
Proof.
  unfold create_secret. cbv zeta. destruct (_ || _); [apply wp_throw; by left|].
  apply wp_bind, wp_catch, wp_ByVersion; [intros; apply wp_throw; by left|]. intros material Hm.
  rewrite (validMasterKey_material _ _ _ _ Hm). cbn [negb mk_Version mk_Material].
  apply wp_bind, wp_new_uuid; [by left|]. intros id. apply wp_bind, wp_clock_now. intros now.
  unfold rand_read, seal. apply wp_bind, wp_bind, wp_new_uuid; [by left|]. intros seed. apply wp_ret, wp_bind.
  destruct (negb _); [apply wp_throw; by left|]. unfold rand_read. apply wp_bind, wp_bind, wp_new_uuid; [by left|]. intros seed1. apply wp_ret, wp_ret, wp_bind.
  destruct (negb _); [apply wp_throw; by left|]. apply wp_bind, wp_bind, wp_new_uuid; [by left|]. intros seed2. apply wp_ret, wp_ret.
  apply wp_remote; [by left|]. intros c' m H. split; right; eexists _, m; (split; [exact H|]); [by intros m' [= <-]|done].
Qed.

Lemma step_insert_secret value (c c' : C) m : insert_secret value c = Some (c', m) → ops_step c c' ∧ is_Some (secret_rows (part c') !! md_ID m).
Proof.
  intros H. pose proof (insert_secret_kept value c c' m H) as (-> & Hk & Hrow). split; [|by rewrite Hrow].
  unfold insert_secret in H. destruct (_ || _) eqn:E; [done|]. injection H as <-. repeat (apply orb_false_iff in E as [E _]).
  apply bool_decide_eq_false, eq_None_not_Some in E. split; rewrite ?apart; [done|intros Hs; by apply Hk| |done]. rewrite part_set. unfold config_ok. simpl.
  destruct (notification_config (part c)) as [row|]; [|done]. intros [[x Hx] [y Hy]].
  split; rewrite lookup_insert_ne by congruence; [by exists x|by exists y].
Qed.

Lemma ops_CreateSystem creator name plaintext : ops_keeps (CreateSystem read_file keys creator name plaintext).
Proof.
  intros c. eapply wp_mono; [apply create_secret_inserts|]. intros r c' [[-> _]|(value & m & H & _)]; [done|]. by apply step_insert_secret in H as [? _].
Qed.

Lemma decrypt_all_same stored result (c : C) : wp (decrypt_all read_file keys stored result) c (λ _ c', c' = c).
Proof.
  revert result. induction stored as [|item rest IH]; intros result; simpl; [by apply wp_ret|].
  apply wp_bind, wp_catch, wp_ByVersion; [intros e; by apply wp_throw|]. intros material Hm.
  destruct (_ || _); [by apply wp_throw|]. destruct (open_sealed _ _ _ _) as [dataKey|]; [|by apply wp_throw].
  destruct (negb _); [by apply wp_throw|]. destruct (open_sealed dataKey _ _ _) as [p|]; [apply IH|by apply wp_throw].
Qed.

Lemma Secret_Resolve_same refs (c : C) : wp (Secret_Resolve read_file keys refs) c (λ _ c', c' = c).
Proof.
  unfold Secret_Resolve. destruct (unique_refs ∅ refs) as [unique|]; [|by apply wp_throw]. apply wp_bind. unfold Secrets_Load.
  destruct unique as [|u us]; [apply wp_ret|apply wp_pool_query; [done|]]; (destruct (negb _); [by apply wp_throw|apply decrypt_all_same]).
Qed.

Lemma wp_in_ctx {A} (m : Prog C A) (c : C) (Q : Result A → C → Prop) : (∀ e, Q (Err e) c) → wp m c Q → wp (in_ctx m) c Q.
Proof. intros He Hm. apply wp_bind, wp_local. simpl. destruct (ctx_done _); [apply wp_throw, He|done]. Qed.

Lemma Send_frame webhook signing payload (c : C) : wp (Send webhook signing payload) c (λ _ c', ∃ ctx, c' = set_part (ctx : CallContext) c).
Proof.
  assert (∃ ctx, c = set_part (ctx : CallContext) c) as Hc by (exists (part c); by rewrite set_part_same).
  unfold Send. destruct (_ || _); [by apply wp_throw|]. apply wp_bind, wp_clock_now. intros now. apply wp_bind, wp_catch, wp_in_ctx; [intros e; by apply wp_throw|].
  eapply wp_mono; [apply post_frame|]. intros [[status body]|e] c' Hc'; [|by apply wp_throw]. destruct (_ <? _); [by apply wp_throw|].
  destruct (_ || _); [by apply wp_throw|]. destruct (decode_reply body) as [reply|]; [|by apply wp_throw]. destruct (fp_Code reply) as [code|]; [|by apply wp_throw].
  destruct (negb _); [by apply wp_throw|by apply wp_ret].
Qed.

Lemma ops_Send webhook signing payload : ops_keeps (Send webhook signing payload).
Proof. intros c. eapply wp_mono; [apply Send_frame|]. intros r c' [ctx ->]. apply step_ctx. Qed.

Lemma ops_recordFailure claim message now : ops_keeps (recordFailure claim message now).
Proof. apply ops_MarkFailed. Qed.

Lemma ops_deliver claim now : ops_keeps (deliver read_file keys claim now).
Proof.
  apply ops_bind; [apply ops_catch, ops_in_ctx, ops_same, Secret_Resolve_same|]. intros [values|e]; [|apply ops_recordFailure].
  destruct (negb _); [apply ops_recordFailure|]. apply ops_bind; [apply ops_catch, ops_Send|]. intros [responseID|e]; [apply ops_MarkSent|apply ops_recordFailure].
Qed.

Lemma ops_DeliverDue : ops_keeps (DeliverDue read_file keys).
Proof.
  unfold DeliverDue. generalize 100%nat. intros n. induction n as [|n IH]; [apply ops_ret|]. apply ops_bind; [apply ops_clock|]. intros now.
  apply ops_bind; [apply ops_ClaimDue|]. intros [claim|]; [|apply ops_ret]. apply ops_bind; [apply ops_deliver|]. by intros _.
Qed.

Lemma ops_store_signing record actorID input webhookID : ops_keeps (store_signing read_file keys record actorID input webhookID).
Proof.
  apply ops_bind; [apply ops_uuid|]. intros name. apply ops_bind; [apply ops_CreateSystem|]. intros signing.
  apply ops_bind; [apply ops_Save|]. intros saved. apply ops_ret.
Qed.

Lemma ops_Update actorID input : ops_keeps (Config_Update read_file keys actorID input).
Proof.
  unfold Config_Update. case_bool_decide; [apply ops_throw|]. apply ops_bind; [apply ops_Get|]. intros existing.
  destruct (_ || _); [apply ops_throw|]. destruct (negb (bool_decide (fi_Webhook input = ""))).
  - destruct (_ || _); [apply ops_throw|]. apply ops_bind; [apply ops_uuid|]. intros name. apply ops_bind; [apply ops_CreateSystem|].
    intros webhook. apply ops_bind; [apply ops_catch, ops_store_signing|]. intros result. apply ops_bind; [apply ops_cleanup|].
    intros _. destruct result; [apply ops_ret|apply ops_throw].
  - apply ops_bind; [apply ops_Save|]. intros saved. apply ops_bind; [apply ops_cleanup|]. intros _. apply ops_ret.
Qed.

Lemma ops_test actorID requestID : ops_keeps (EnqueueTest actorID requestID).
Proof.
  unfold EnqueueTest. case_bool_decide; [apply ops_throw|]. destruct (parse_uuid _) as [request|]; [|apply ops_throw].
  case_bool_decide; [apply ops_throw|]. apply ops_bind; [apply ops_clock|]. intros now. apply ops_EnqueueTest.
Qed.

(** *** Delivering *)

(** A delivery that may be taken up at the instant [now]: not tried yet or to be tried
    again and due, or taken up by a pass whose lease is over. *)
Definition takeable (now : Time) (o : OutboxRow) : Prop :=
  (ox_status o = "pending" ∨ ox_status o = "retrying") ∧ ox_next_attempt_at o ≤ now ∨
  ox_status o = "sending" ∧ ∃ lease, ox_lease_until o = Some lease ∧ lease ≤ now.

Definition none_takeable (now : Time) (t : AlertTables) : Prop := ∀ k b, notification_outbox t !! k = Some b → ¬ takeable now b.

(** The one that comes first: by the time of its attempt, of its creation, and by its
    identifier. *)
Definition first_takeable (now : Time) (t : AlertTables) (id : string) (o : OutboxRow) : Prop :=
  notification_outbox t !! id = Some o ∧ takeable now o ∧
  ∀ k b, notification_outbox t !! k = Some b → takeable now b →
    ox_next_attempt_at o < ox_next_attempt_at b ∨ ox_next_attempt_at o = ox_next_attempt_at b ∧
    (ox_created_at o < ox_created_at b ∨ ox_created_at o = ox_created_at b ∧ (id = k ∨ string_lt id k = true)).

Lemma delivery_due_spec now o : delivery_due now o = true ↔ takeable now o.
Proof.
  unfold delivery_due, takeable. rewrite orb_true_iff, !andb_true_iff, !bool_decide_eq_true, Z.leb_le, elem_of_cons, list_elem_of_singleton.
  destruct (ox_lease_until o) as [lease|]; [rewrite Z.leb_le; naive_solver|naive_solver].
Qed.

Lemma claim_candidate_first now t id o : claim_candidate now t = Some (id, o) → first_takeable now t id o.
Proof.
  intros H. pose proof (claim_candidate_inv _ _ _ _ H) as [Hrow Hdue%delivery_due_spec]. split_and!; [done..|]. intros k b Hb Hk%delivery_due_spec.
  unfold claim_candidate in H. destruct (stable_sort _ _) as [|x rest] eqn:E; [discriminate H|]. injection H as ->.
  assert (StrictWeak claim_order) as HW by (apply less_lex_weak; apply _).
  apply stable_sort_head in E as [_ E]; [|done]. specialize (E (k, b)). unfold claim_order in E. rewrite !less_lex_false in E. unfold less_by in E. simpl in E.
  destruct E as [E1 E2]; [apply list_elem_of_filter; split; [done|by apply elem_of_map_to_list]|]. rewrite !Z.ltb_lt, !Z.ltb_ge in *.
  destruct E2 as [E2|[E2 E3]]; [by left|]. destruct (Z.eq_dec (ox_next_attempt_at o) (ox_next_attempt_at b)); [right; split; [done|]|left; lia].
  destruct E3 as [E3|E3]; [by left|]. destruct (Z.eq_dec (ox_created_at o) (ox_created_at b)); [right; split; [done|]|left; lia].
  destruct (string_lt id k) eqn:Es; [by right|left; by apply string_lt_sep].
Qed.

Lemma claim_candidate_none now t : claim_candidate now t = None → none_takeable now t.
Proof.
  intros H k b Hb Hk%delivery_due_spec. unfold claim_candidate in H. destruct (stable_sort _ _) as [|x rest] eqn:E; [|discriminate H]. apply stable_sort_nil in E.
  assert ((k, b) ∈ filter (λ p, delivery_due now p.2 = true) (map_to_list (notification_outbox t))) as Hin; [|rewrite E in Hin; by apply elem_of_nil in Hin].
  apply list_elem_of_filter. split; [done|by apply elem_of_map_to_list].
Qed.

(** A delivery as it is taken up for 30 seconds. *)
Definition taken (now : Time) (o : OutboxRow) : OutboxRow :=
  mkOutboxRow (ox_alert_id o) (ox_event_type o) (ox_payload o) (ox_idempotency_key o) "sending" (ox_attempts o + 1) (ox_next_attempt_at o)
    (Some (now + 30 * second)) (ox_last_error o) (ox_response_id o) (ox_created_at o) (ox_sent_at o) now.

(** The address and the signing secret of the configuration can be read. *)
Definition credentials (config : option ConfigRow) (secrets : SecretTables) (webhook signing : string) : Prop :=
  ∃ row wrow srow w s, config = Some row ∧ nc_webhook_secret_id row ≠ nc_signing_secret_id row ∧
    TrimSpace (nc_webhook_secret_id row) ≠ "" ∧ TrimSpace (nc_signing_secret_id row) ≠ "" ∧
    secret_rows secrets !! nc_webhook_secret_id row = Some wrow ∧ Secrets.opened read_file keys wrow = Some w ∧
    secret_rows secrets !! nc_signing_secret_id row = Some srow ∧ Secrets.opened read_file keys srow = Some s ∧
    webhook = text_of w ∧ signing = text_of s.

Lemma credentials_dec config secrets :
  (∃ webhook signing, credentials config secrets webhook signing) ∨ ∀ webhook signing, ¬ credentials config secrets webhook signing.
Proof.
  destruct config as [row|]; [|right; by intros w s (? & ? & ? & ? & ? & ? & _)].
  destruct (decide (nc_webhook_secret_id row ≠ nc_signing_secret_id row ∧ TrimSpace (nc_webhook_secret_id row) ≠ "" ∧ TrimSpace (nc_signing_secret_id row) ≠ ""))
    as [(H1 & H2 & H3)|Hn]; [|right; intros w s (? & ? & ? & ? & ? & [= <-] & H); apply Hn; split_and!; apply H].
  destruct (secret_rows secrets !! nc_webhook_secret_id row) as [wrow|] eqn:Ew; [|right; intros w s (? & ? & ? & ? & ? & [= <-] & _ & _ & _ & H & _); congruence].
  destruct (Secrets.opened read_file keys wrow) as [w|] eqn:Eow; [|right; intros ? ? (? & ? & ? & ? & ? & [= <-] & _ & _ & _ & H & H' & _); simplify_eq; congruence].
  destruct (secret_rows secrets !! nc_signing_secret_id row) as [srow|] eqn:Es; [|right; intros ? ? (? & ? & ? & ? & ? & [= <-] & _ & _ & _ & _ & _ & H & _); congruence].
  destruct (Secrets.opened read_file keys srow) as [s|] eqn:Eos; [|right; intros ? ? (? & ? & ? & ? & ? & [= <-] & _ & _ & _ & _ & _ & H & H' & _); simplify_eq; congruence].
  left. exists (text_of w), (text_of s), row, wrow, srow, w, s. by split_and!.
Qed.

(** Resolving the two secrets of the configuration finds out whether they can be read. *)
Lemma credentials_resolved W row (c : C) :
  secrets_ok (part c) → notification_config (part c) = Some row →
  under W (Secret_Resolve read_file keys [nc_webhook_secret_id row; nc_signing_secret_id row]) c (λ r c', c' = c ∧
    match r with
    | Ok values =>
      if (size values =? 2)%nat
      then credentials (notification_config (part c)) (part c) (text_of (default [] (values !! nc_webhook_secret_id row))) (text_of (default [] (values !! nc_signing_secret_id row)))
      else ∀ webhook signing, ¬ credentials (notification_config (part c)) (part c) webhook signing
    | Err _ => faulty W ∨ ∀ webhook signing, ¬ credentials (notification_config (part c)) (part c) webhook signing
    end).
Proof.
  clear law. intros Hsok Hconf. rewrite Hconf. destruct (credentials_dec (Some row) (part c)) as [(webhook & signing & Hc)|Hno].
  - destruct Hc as (row' & wrow & srow & w & s & [= <-] & Hne & Hb1 & Hb2 & Hw & How & Hs & Hos & -> & ->).
    eapply under_mono; [by eapply Secret_Resolve_two|]. intros [values|e] c' [-> H]; (split; [done|]); [|by left].
    destruct H as (-> & -> & ->). simpl. exists row, wrow, srow, w, s. by split_and!.
  - eapply under_mono; [apply under_conj; (apply under_wp; [apply forward_Resolve|]); [by apply Secret_Resolve_spec|by apply Secret_Resolve_dom]|].
    intros [values|e] c' [[-> H1] H2]; (split; [done|]); [|by right]. destruct (size values =? 2)%nat eqn:Esz; [apply Nat.eqb_eq in Esz|done].
    destruct (H1 values eq_refl) as [V _]. destruct (H2 values eq_refl) as [Hd Hr].
    destruct (Hr (nc_webhook_secret_id row)) as [Hb1 [wrow Hw]]; [left|]. destruct (Hr (nc_signing_secret_id row)) as [Hb2 [srow Hs]]; [right; left|].
    destruct (V _ wrow ltac:(left) Hw) as (w & How & Hvw). destruct (V _ srow ltac:(right; left) Hs) as (s & Hos & Hvs). rewrite Hvw, Hvs. simpl.
    exists row, wrow, srow, w, s. split_and!; try done. intros E. rewrite <-E in Hd.
    assert (dom values = {[nc_webhook_secret_id row]}) as Hd' by (rewrite Hd; set_solver). by rewrite <-size_dom, Hd', size_singleton in Esz.
Qed.

(** A reply with which the message was accepted, and the identifier it gives. *)
Definition accepted (reply : Result (Z * string)) (responseID : string) : Prop :=
  ∃ status body answer, reply = Ok (status, body) ∧ 200 ≤ status < 300 ∧ len body ≤ 65536 ∧ decode_reply body = Some answer ∧
    fp_Code answer = Some 0 ∧ responseID = reply_id answer.

(** The request made at the instant [t]. *)
Definition request_at (t : Time) (signing : string) (payload : FrozenMessage) : FeishuRequest :=
  mkFeishuRequest (format_int (unix_seconds t)) (SignFeishu (unix_seconds t) signing) (feishuCard payload).

Section replies.
(** What may happen, and the replies the webhook may give. *)
Context (W : Regime) (replies : string → FeishuRequest → Result (Z * string) → Prop).

(** The message of [o] was accepted by the webhook; or it was not: it could not be sent,
    or the reply does not accept it. *)
Definition message_accepted (webhook signing : string) (o : OutboxRow) (responseID : string) : Prop :=
  ∃ t reply, clock_gives W t ∧ replies webhook (request_at t signing (ox_payload o)) reply ∧ accepted reply responseID.

Definition message_refused (webhook signing : string) (o : OutboxRow) : Prop :=
  is_ok (ValidateFeishuWebhook webhook) = false ∨ signing = "" ∨
  ∃ t reply, clock_gives W t ∧ replies webhook (request_at t signing (ox_payload o)) reply ∧ ∀ responseID, ¬ accepted reply responseID.

Inductive attempt_failed (config : option ConfigRow) (secrets : SecretTables) (o : OutboxRow) : string → Prop :=
  | no_credentials : faulty W ∨ (∀ webhook signing, ¬ credentials config secrets webhook signing) → attempt_failed config secrets o "读取飞书通知凭据失败"
  | not_sent webhook signing : credentials config secrets webhook signing → message_refused webhook signing o → attempt_failed config secrets o "飞书消息发送失败".

(** What an attempt at [now] makes of a delivery. *)
Inductive outcome (config : option ConfigRow) (secrets : SecretTables) (now : Time) (o : OutboxRow) : OutboxRow → Prop :=
  | delivered webhook signing responseID :
      credentials config secrets webhook signing → message_accepted webhook signing o responseID →
      outcome config secrets now o (mkOutboxRow (ox_alert_id o) (ox_event_type o) (ox_payload o) (ox_idempotency_key o) "sent" (ox_attempts o + 1)
        (ox_next_attempt_at o) None "" responseID (ox_created_at o) (Some now) now)
  | retried message :
      attempt_failed config secrets o message → ox_attempts o < 23 →
      outcome config secrets now o (mkOutboxRow (ox_alert_id o) (ox_event_type o) (ox_payload o) (ox_idempotency_key o) "retrying" (ox_attempts o + 1)
        (now + nth (Z.to_nat (ox_attempts o)) [60; 300; 900; 3600] 21600 * second) None message (ox_response_id o) (ox_created_at o) (ox_sent_at o) now)
  | abandoned message :
      attempt_failed config secrets o message → 23 ≤ ox_attempts o →
      outcome config secrets now o (mkOutboxRow (ox_alert_id o) (ox_event_type o) (ox_payload o) (ox_idempotency_key o) "failed" (ox_attempts o + 1)
        now None message (ox_response_id o) (ox_created_at o) (ox_sent_at o) now).

Lemma under_in_ctx {A} (m : Prog C A) (c : C) (Q : Result A → C → Prop) :
  (ctx_done (part c) = true → ∀ e, Q (Err e) c) → (ctx_done (part c) = false → under W m c Q) → under W (in_ctx m) c Q.
Proof. intros He Hm. apply under_bind, under_local. simpl. destruct (ctx_done (part c)); [by apply under_throw, He|by apply Hm]. Qed.

Lemma update_sending_exact id f t t' b o :
  update_sending id f t = Some (t', b) → notification_outbox t !! id = Some o → ox_status o = DeliverySending → t' = t <| notification_outbox ::= <[id := f o]> |> ∧ b = true.
Proof. unfold update_sending. intros H Hrow Hs. rewrite Hrow, bool_decide_true in H by done. by simplify_eq. Qed.

Context (posts : ∀ webhook request (c : C), under W (http_post webhook request) c (λ r c', replies webhook request r ∧ ∃ ctx, c' = set_part (ctx : CallContext) c)).

Lemma Send_replies webhook signing o (c : C) :
  ctx_done (part c) = false →
  under W (Send webhook signing (ox_payload o)) c (λ r c', (∃ ctx, c' = set_part (ctx : CallContext) c) ∧
    match r with Ok responseID => message_accepted webhook signing o responseID | Err _ => message_refused webhook signing o end).
Proof.
  intros Hctx. assert (∃ ctx, c = set_part (ctx : CallContext) c) as Hc by (exists (part c); by rewrite set_part_same).
  unfold Send. destruct (_ || _) eqn:Eb.
  { apply under_throw. split; [done|]. apply orb_true_iff in Eb as [E|E]; [left; by destruct (is_ok _)|right; left; by apply bool_decide_eq_true in E]. }
  apply under_bind, under_clock_now. intros t Ht. apply under_bind, under_catch, under_in_ctx; [by rewrite Hctx|]. intros _.
  eapply under_mono; [apply posts|]. intros reply c' [Hreply Hc'].
  assert (∀ e : Error, (∀ responseID, ¬ accepted reply responseID) → under (A := string) W (throw e) c' (λ r c', (∃ ctx, c' = set_part (ctx : CallContext) c) ∧
    match r with Ok responseID => message_accepted webhook signing o responseID | Err _ => message_refused webhook signing o end)) as Hno.
  { intros e Hno. apply under_throw. split; [done|]. right. right. by exists t, reply. }
  destruct reply as [[status body]|e]; [|apply Hno; by intros responseID (? & ? & ? & ? & _)].
  destruct (Z.ltb_spec feishuResponseLimit (len body)) as [Hl|Hl]; unfold feishuResponseLimit in Hl.
  { apply Hno. intros responseID (? & ? & ? & [= <- <-] & _ & ? & _). lia. }
  destruct ((status <? 200) || _) eqn:Es; [|apply orb_false_iff in Es as [Es1%Z.ltb_ge Es2%Z.leb_gt]].
  { apply Hno. intros responseID (? & ? & ? & [= <- <-] & Hs & _). apply orb_true_iff in Es as [E%Z.ltb_lt|E%Z.leb_le]; lia. }
  destruct (decode_reply body) as [answer|] eqn:Ed; [|apply Hno; intros responseID (? & ? & ? & [= <- <-] & _ & _ & ? & _); congruence].
  destruct (fp_Code answer) as [code|] eqn:Ec; [|apply Hno; intros responseID (? & ? & ? & [= <- <-] & _ & _ & ? & ? & _); congruence].
  destruct (Z.eqb_spec code 0) as [->|Hne]; simpl; [|apply Hno; intros responseID (? & ? & ? & [= <- <-] & _ & _ & ? & ? & _); congruence].
  apply under_ret. split; [done|]. exists t, (Ok (status, body)). split_and!; [done..|]. by exists status, body, answer.
Qed.

(** The pieces of the table the claim was made from. *)
Definition claim_of (claim : ClaimedDelivery) (t : AlertTables) (id : string) (o : OutboxRow) : Prop :=
  dv_ID (cl_Delivery claim) = id ∧ dv_Attempts (cl_Delivery claim) = ox_attempts o + 1 ∧ cl_Payload claim = ox_payload o ∧
  ∃ row, notification_config t = Some row ∧ cl_WebhookSecretID claim = nc_webhook_secret_id row ∧ cl_SigningSecretID claim = nc_signing_secret_id row.

(** The outcome of a delivery that was taken up is recorded, or it stays as it was taken
    up. *)
Definition attempted (c : C) (now : Time) (id : string) (o : OutboxRow) (r : Result unit) (c' : C) : Prop :=
  part (X := SecretTables) c' = part c ∧
  (is_ok r = false ∧ part (X := AlertTables) c' = part c ∨
   ∃ o', outcome (notification_config (part c)) (part c) now o o' ∧ part c' = (part c) <| notification_outbox ::= <[id := o']> |>).

Lemma mark_attempted now id o f context (c c1 : C) :
  notification_outbox (part c) !! id = Some (taken now o) → part (X := AlertTables) c1 = part c → part (X := SecretTables) c1 = part c →
  outcome (notification_config (part c)) (part c) now o (f (taken now o)) →
  under W (let! updated := in_ctx (pool (T := AlertTables) context (update_sending id f)) in if updated : bool then ret tt else throw ErrDeliveryNotFound) c1 (attempted c now id o).
Proof.
  intros Hrow Ht Hs Ho. assert (∀ e, attempted c now id o (Err e) c1) as Hfail by (intros e; split; [done|by left]).
  apply under_bind, under_in_ctx; [by intros|]. intros _. apply under_pool; [by intros|]. intros t b Hu. rewrite Ht in Hu.
  eapply update_sending_exact in Hu as [-> ->]; [|done..].
  assert (∀ r, attempted c now id o r (set_part ((part c) <| notification_outbox ::= <[id := f (taken now o)]> |>) c1)) as Hdone.
  { intros r. split; [by rewrite apart|]. right. exists (f (taken now o)). by rewrite part_set. }
  split; [by apply under_ret|done].
Qed.

Lemma failure_attempted claim message now id o (c c1 : C) :
  notification_outbox (part c) !! id = Some (taken now o) → 0 ≤ ox_attempts o → len message ≤ 256 → claim_of claim (part c) id o →
  part (X := AlertTables) c1 = part c → part (X := SecretTables) c1 = part c → attempt_failed (notification_config (part c)) (part c) o message →
  under W (recordFailure claim message now) c1 (attempted c now id o).
Proof.
  intros Hrow Hnn Hlen (Hid & Hn & _) Ht Hs Hf. unfold recordFailure, MarkFailed. rewrite Hid, Hn. apply mark_attempted; [done..|].
  unfold failed_delivery. destruct (Z.ltb_spec 256 (len message)); [lia|]. unfold maxAttempts. destruct (Z.leb_spec 24 (ox_attempts o + 1)).
  - apply (abandoned _ _ now o message); [done|lia].
  - assert (retryDelay (ox_attempts o + 1) = nth (Z.to_nat (ox_attempts o)) [60; 300; 900; 3600] 21600 * second) as ->; [|apply (retried _ _ now o message); [done|lia]].
    unfold retryDelay. destruct (Z.to_nat (ox_attempts o)) as [|[|[|[|n]]]] eqn:E; repeat (case_match; try lia).
    all: try (unfold hour, minute, second; simpl; lia). destruct n; simpl; unfold hour, minute, second; lia.
Qed.

Lemma deliver_attempted claim now id o (c : C) :
  secrets_ok (part c) → ctx_done (part c) = false → 0 ≤ ox_attempts o → claim_of claim (part c) id o →
  notification_outbox (part c) !! id = Some (taken now o) → under W (deliver read_file keys claim now) c (attempted c now id o).
Proof.
  intros Hsok Hctx Hnn Hclaim Hrow. pose proof Hclaim as (Hid & Hn & Hp & row & Hconf & Hw & Hs).
  assert (faulty W ∨ (∀ webhook signing, ¬ credentials (notification_config (part c)) (part c) webhook signing) →
    under W (recordFailure claim "读取飞书通知凭据失败" now) c (attempted c now id o)) as Hnocred.
  { intros H. eapply failure_attempted; [done..|]. by apply no_credentials. }
  apply under_bind, under_catch, under_in_ctx; [by rewrite Hctx|]. intros _. rewrite Hw, Hs.
  eapply under_mono; [by apply credentials_resolved|]. intros [values|e] c1 [-> Hv]; [|by apply Hnocred]. destruct (size values =? 2)%nat; simpl; [|apply Hnocred; by right].
  rewrite Hp. apply under_bind, under_catch. eapply under_mono; [by apply Send_replies|].
  intros [responseID|e] c1 [[ctx ->] Hsent].
  - unfold MarkSent. rewrite Hid. apply mark_attempted; [done|by rewrite apart..|]. by apply (delivered _ _ now o _ _ responseID Hv).
  - eapply failure_attempted; [done..|by rewrite apart|by rewrite apart|]. by eapply not_sent.
Qed.

End replies.

#[local] Instance final_delivery_dec o : Decision (final_delivery o).
Proof. unfold final_delivery. apply _. Defined.

(** The work left in the outbox: the attempts that the deliveries may still take. *)
Definition delivery_work (o : OutboxRow) : nat := if decide (final_delivery o) then 0 else S (Z.to_nat (maxAttempts - ox_attempts o)).
Definition outbox_work (t : AlertTables) : nat := map_fold (λ _ o n, (delivery_work o + n)%nat) 0%nat (notification_outbox t).

Lemma outbox_work_insert id o o' (t : AlertTables) :
  notification_outbox t !! id = Some o → (delivery_work o' < delivery_work o)%nat → (outbox_work (t <| notification_outbox ::= <[id := o']> |>) < outbox_work t)%nat.
Proof.
  intros Hrow Hw. unfold outbox_work. simpl. rewrite <-(insert_delete_id _ _ _ Hrow) at 2. rewrite <-(insert_delete_eq (notification_outbox t) id o').
  rewrite !map_fold_insert_L; [lia|..]; try (intros; lia); by rewrite lookup_delete_eq.
Qed.

Lemma outcome_work W replies config secrets now o o' :
  ¬ final_delivery o → outcome W replies config secrets now o o' → (delivery_work o' < delivery_work o)%nat.
Proof.
  intros Hf Ho. unfold delivery_work at 2. rewrite decide_False by done. destruct Ho as [webhook signing responseID _ _|message _ Hn|message _ Hn]; unfold delivery_work.
  - rewrite decide_True by by left. lia.
  - rewrite decide_False by by intros []. unfold maxAttempts. cbn in *. lia.
  - rewrite decide_True by by right. lia.
Qed.

Lemma claim_due_Some now t t' claim :
  claim_due now delivery_lease t = Some (t', Some claim) →
  ∃ id o, first_takeable now t id o ∧ feishu_enabled t = true ∧ t' = t <| notification_outbox ::= <[id := taken now o]> |> ∧ claim_of claim t' id o.
Proof.
  unfold claim_due, feishu_enabled. destruct (notification_config t) as [config|] eqn:Ec; [|done]. destruct (claim_candidate now t) as [[id o]|] eqn:E; [|done].
  apply claim_candidate_first in E. destruct (nc_enabled config) eqn:En; [|done]. simpl. destruct (_ <=? _); [done|]. intros [= <- <-].
  exists id, o. split_and!; [done..|]. unfold claim_of. split_and!; [done..|]. by exists config.
Qed.

Lemma claim_due_None now lease t t' : claim_due now lease t = Some (t', None) → t' = t ∧ (feishu_enabled t = false ∨ none_takeable now t).
Proof.
  unfold claim_due, feishu_enabled. destruct (notification_config t) as [config|]; [|intros [= <-]; by auto].
  destruct (claim_candidate now t) as [[id o]|] eqn:E; [|intros [= <-]; split; [done|right; by apply claim_candidate_none]].
  destruct (nc_enabled config); simpl; [by destruct (_ <=? _)|intros [= <-]; by auto].
Qed.

(** The attempts of the deliveries are counted from 0. *)
Definition attempts_ok (t : AlertTables) : Prop := ∀ id o, notification_outbox t !! id = Some o → 0 ≤ ox_attempts o.

Lemma outcome_attempts W replies config secrets now o o' : outcome W replies config secrets now o o' → ox_attempts o' = ox_attempts o + 1.
Proof. by intros []. Qed.

(** One round: nothing is taken up, or the first delivery that may be. *)
Definition round_effect (W : Regime) (replies : string → FeishuRequest → Result (Z * string) → Prop) (now : Time) (c : C) (r : Result unit) (c' : C) : Prop :=
  part (X := AlertTables) c' = part c ∧ (r = Ok tt → feishu_enabled (part c) = false ∨ none_takeable now (part c)) ∨
  ∃ id o o', feishu_enabled (part c) = true ∧ first_takeable now (part c) id o ∧ part c' = (part c) <| notification_outbox ::= <[id := o']> |> ∧
    (outcome W replies (notification_config (part c)) (part c) now o o' ∨ is_ok r = false ∧ o' = taken now o).

Section rounds.
Context `{!Apart AlertTables CallContext C} (W : Regime) (replies : string → FeishuRequest → Result (Z * string) → Prop).
Context (posts : ∀ webhook request (c : C), under W (http_post webhook request) c (λ r c', replies webhook request r ∧ ∃ ctx, c' = set_part (ctx : CallContext) c)).

(** A round, before what follows it: [k] goes on after a delivery was attempted. *)
Lemma round_exact (k : Prog C unit) (c : C) (Q : Result unit → C → Prop) :
  secrets_ok (part c) → attempts_ok (part c) →
  (∀ r now c', clock_gives W now → round_effect W replies now c r c' → r ≠ Ok tt ∨ part (X := AlertTables) c' = part c → Q r c') →
  (∀ now c' id o o', clock_gives W now → part (X := SecretTables) c' = part c → first_takeable now (part c) id o → feishu_enabled (part c) = true →
     outcome W replies (notification_config (part c)) (part c) now o o' → part c' = (part c) <| notification_outbox ::= <[id := o']> |> → under W k c' Q) →
  under W (let! now := clock_now in let! claim := ClaimDue now delivery_lease in
           match claim with None => ret tt | Some claim => deliver read_file keys claim now ;;! k end) c Q.
Proof.
  intros Hsok Hat Hend Hgo. apply under_bind, under_clock_now. intros now Hnow.
  apply under_bind, under_in_ctx; [intros _ e; apply (Hend _ now); [done|by left|by left]|]. intros Hctx.
  apply under_pool; [intros _; apply (Hend _ now); [done|by left|by left]|]. intros t [claim|] Hc.
  - apply claim_due_Some in Hc as (id & o & Hfirst & Hen & Et & Hclaim). set (c1 := set_part t c).
    assert (part (X := AlertTables) c1 = t) as P1 by apply part_set. assert (part (X := SecretTables) c1 = part c) as P2 by (unfold c1; by rewrite apart).
    assert (notification_config t = notification_config (part c)) as Ec by (by rewrite Et).
    assert (∀ r, is_ok r = false → Q r c1) as Hstop.
    { intros r Hr. apply (Hend _ now); [done| |left; by intros ->]. right. exists id, o, (taken now o). split_and!; [done|done|by rewrite P1|by right]. }
    split; [|intros _; by apply Hstop]. apply under_bind. eapply under_mono.
    { apply (deliver_attempted W replies posts claim now id o c1).
      - by rewrite P2.
      - unfold c1. by rewrite apart.
      - eapply Hat, Hfirst.
      - by rewrite P1.
      - rewrite P1, Et. simpl. apply lookup_insert_eq. }
    intros r c2 [S2 H2]. rewrite P1, P2, Ec in H2. destruct H2 as [[Hr E2]|(o' & Ho & E2)].
    + destruct r as [u|e]; [done|]. apply (Hend _ now); [done| |by left]. right. exists id, o, (taken now o). split_and!; [done|done|by rewrite E2|by right].
    + assert (part c2 = (part c) <| notification_outbox ::= <[id := o']> |>) as E by (rewrite E2, Et; simpl; by rewrite insert_insert_eq).
      destruct r as [u|e]; [by eapply Hgo; [..|rewrite S2, P2|done| |exact Ho|exact E]|].
      apply (Hend _ now); [done| |by left]. right. exists id, o, o'. split_and!; [done|done|done|by left].
  - apply claim_due_None in Hc as [-> Hnone]. rewrite set_part_same. split; [apply under_ret|intros _]; (apply (Hend _ now); [done|by left|by right]).
Qed.

(** C17: The loop over the outbox ends because nothing is left to do, not because its rounds
    are used up: every round whose outcome is recorded takes a delivery closer to sent or
    failed, a delivery is given up after the 24th recorded failure, and a pass with more
    rounds than attempts left that ends without error has read an instant at which
    nothing could be taken up any more, or notifications are switched off. *)
Theorem outbox_drained rounds (c : C) :
  secrets_ok (part c) → attempts_ok (part c) → (outbox_work (part c) < rounds)%nat →
  under W (deliver_rounds read_file keys rounds) c (λ r c', r = Ok tt →
    feishu_enabled (part c') = false ∨ ∃ now, clock_gives W now ∧ none_takeable now (part c')).
Proof.
  revert c. induction rounds as [|rounds IH]; intros c Hsok Hat Hw; [lia|]. simpl. apply round_exact; [done..| |].
  - intros r now c' Hnow Hr Hd Eok. destruct Hd as [Hd|Hd]; [done|]. rewrite Hd. destruct Hr as [[_ H]|(id & o & o' & Hen & Hf & Hc' & Ho)].
    + destruct (H Eok) as [?|?]; [by left|right; by exists now].
    + rewrite Hd in Hc'. exfalso. assert (notification_outbox (part c) !! id = Some o') as E by (rewrite Hc'; simpl; apply lookup_insert_eq).
      pose proof (proj1 Hf). simplify_eq. destruct Ho as [Ho%outcome_attempts|[Hr _]]; [lia|by subst].
  - intros now c' id o o' Hnow Hs Hf Hen Ho Hc'. apply IH; rewrite ?Hs, ?Hc'; [done| |].
    + intros k x. simpl. intros [[<- <-]|[_ Hx]]%lookup_insert_Some; [|by eapply Hat].
      apply outcome_attempts in Ho as ->. pose proof (Hat _ _ (proj1 Hf)). lia.
    + apply outcome_work in Ho; [|by eapply delivery_due_open, delivery_due_spec, Hf]. pose proof (outbox_work_insert _ _ _ _ (proj1 Hf) Ho). lia.
Qed.

(** C18: One round of the outbox, at the instant the clock gives, takes up the delivery that
    comes first among those due, if notifications are enabled.  The delivery becomes sent
    exactly when the webhook accepted its message, with the identifier of that reply; it
    is to be retried after 1, 5, 15, 60 and then every 360 minutes, or failed with the
    24th attempt, exactly when the message could not be sent or was not accepted, or the
    credentials could not be read (which without faults of the database means that they
    are not there); if the outcome could not be recorded, it stays taken up until its
    lease of 30 seconds is over, and an error is returned.  No other delivery changes. *)
Theorem delivery_round_exact (c : C) :
  secrets_ok (part c) → attempts_ok (part c) →
  under W (deliver_rounds read_file keys 1) c (λ r c', ∃ now, clock_gives W now ∧ round_effect W replies now c r c').
Proof.
  intros Hsok Hat. simpl. apply round_exact; [done..| |].
  - intros r now c' Hnow Hr _. by exists now.
  - intros now c' id o o' Hnow Hs Hf Hen Ho Hc'. apply under_ret. exists now. split; [done|]. right. exists id, o, o'. split_and!; [done|done|done|by left].
Qed.

End rounds.

Lemma EnqueueTest_found actorID payload key at_ :
  db_spec (Outbox_EnqueueTest (C := C) actorID payload key at_) (λ t r t', ∀ d, r = Ok d → ∃ o, notification_outbox t' !! dv_ID d = Some o ∧ ox_idempotency_key o = key).
Proof.
  unfold Outbox_EnqueueTest. destruct (_ || _); [by apply db_spec_throw|]. apply db_spec_transaction; [done|]. intros c.
  repeat tx_step; try done; intros d [= <-]; simpl.
  - apply find_delivery_Some in Hcase as [? ?]. by exists o.
  - unfold insert_test in Hstmt. destruct (_ || _); [done|]. simplify_eq. simpl. rewrite lookup_insert_eq. by eexists.
Qed.

Lemma EnqueueTest_spec actorID requestID (c : C) :
  wp (EnqueueTest actorID requestID) c (λ r c', ops_step c c' ∧ ∀ d, r = Ok d →
    ∃ request o, parse_uuid requestID = Some request ∧ notification_outbox (part c') !! dv_ID d = Some o ∧ ox_idempotency_key o = test_key actorID request).
Proof.
  apply wp_conj; [apply ops_test|]. unfold EnqueueTest. case_bool_decide; [by apply wp_throw|]. destruct (parse_uuid requestID) as [request|]; [|by apply wp_throw].
  case_bool_decide; [by apply wp_throw|]. apply wp_bind, wp_clock_now. intros now. eapply wp_mono; [apply EnqueueTest_found|].
  intros r c' [_ Hf] d Hd. destruct (Hf d Hd) as (o & Ho & Hk). by exists request, o.
Qed.

(** A test message is queued once per request: asking again with the same request,
    after anything else that the operations did and whatever failed, returns the same
    delivery. *)
Theorem test_request_idempotent actorID requestID (between : Prog C unit) (c : C) :
  ops_keeps between → alerting_ok (part c) →
  wp (EnqueueTest actorID requestID) c (λ r c1, ∀ d, r = Ok d →
    wp (between ;;! EnqueueTest actorID requestID) c1 (λ r' _, ∀ d', r' = Ok d' → dv_ID d' = dv_ID d)).
Proof.
  intros Hb Hok. eapply wp_mono; [apply EnqueueTest_spec|]. intros r c1 [H1 Hr] d Hd. destruct (Hr d Hd) as (request & o & Hp & Ho & Hk).
  destruct (os_alerts _ _ H1 Hok) as [Hok1 _]. apply wp_bind. eapply wp_mono; [apply Hb|]. intros [[]|e] c2 H2; [|done].
  eapply wp_mono; [apply EnqueueTest_spec|]. intros r' c3 [H3 Hr'] d' Hd'. destruct (Hr' d' Hd') as (request' & o' & Hp' & Ho' & Hk').
  rewrite Hp in Hp'. injection Hp' as <-. assert (ops_step c1 c3) as H13 by by etrans. destruct (os_alerts _ _ H13 Hok1) as [Hok3 [_ He]].
  destruct (He _ _ Ho) as (o3 & Ho3 & _ & _ & _ & Hk3 & _). eapply (ao_keys _ Hok3); [exact Ho'|exact Ho3|congruence].
Qed.

(** *** A webhook that does not answer *)

(** A request to the webhook and a pass over the outbox both get ten seconds, and the
    context of the request is derived from that of the pass.  A request is made after its
    pass began, so that the pass is over when a request waits until the end. *)
Definition feishuRequestTimeout : Duration := 10 * second.
Definition loop_timeout : Duration := 10 * second.

Lemma request_ends_pass begun made : begun ≤ made → Z.min (begun + loop_timeout) (made + feishuRequestTimeout) = begun + loop_timeout.
Proof. unfold loop_timeout, feishuRequestTimeout. lia. Qed.

(** Nothing was recorded: the delivery is as it was, or only taken up, any number of
    times. *)
Definition unrecorded (o o' : OutboxRow) : Prop :=
  o' = o ∨ ∃ attempts lease at_, ox_attempts o < attempts ∧
    o' = mkOutboxRow (ox_alert_id o) (ox_event_type o) (ox_payload o) (ox_idempotency_key o) "sending" attempts (ox_next_attempt_at o)
      (Some lease) (ox_last_error o) (ox_response_id o) (ox_created_at o) (ox_sent_at o) at_.

#[local] Instance unrecorded_preorder : PreOrder unrecorded.
Proof.
  split; [by left|]. intros a b c H1 H2. destruct H1 as [->|(n & l & u & Hn & ->)]; [exact H2|].
  destruct H2 as [->|(n' & l' & u' & Hn' & ->)]; right; [by exists n, l, u|]. exists n', l', u'. simpl in *. split; [lia|done].
Qed.

Lemma taken_unrecorded now o : unrecorded o (taken now o).
Proof. right. exists (ox_attempts o + 1), (now + 30 * second), now. split; [lia|done]. Qed.

(** The stored address is valid and the signing secret not empty. *)
Definition usable (c : C) : Prop :=
  secrets_ok (part c) ∧ ∃ webhook signing, credentials (notification_config (part c)) (part c) webhook signing ∧
    is_ok (ValidateFeishuWebhook webhook) = true ∧ signing ≠ "".

Definition stuck (c c' : C) : Prop :=
  part (X := SecretTables) c' = part c ∧ notification_config (part c') = notification_config (part c) ∧
  ∀ id, option_Forall2 unrecorded (notification_outbox (part c) !! id) (notification_outbox (part c') !! id).

#[local] Instance stuck_preorder : PreOrder stuck.
Proof.
  split; [by intros c; split_and!|]. intros a b c (S1 & C1 & O1) (S2 & C2 & O2). split_and!; [by etrans..|]. intros id. etrans; [apply O1|apply O2].
Qed.

Lemma stuck_usable c c' : stuck c c' → usable c → usable c'.
Proof. intros (Hs & Hc & _). unfold usable. by rewrite Hs, Hc. Qed.

Lemma stuck_ctx (c : C) (ctx : CallContext) : stuck c (set_part ctx c).
Proof. unfold stuck. by rewrite !apart. Qed.

Lemma credentials_unique config secrets w s w' s' : credentials config secrets w s → credentials config secrets w' s' → w' = w ∧ s' = s.
Proof.
  intros (row & wrow & srow & wb & sb & -> & _ & _ & _ & H1 & H2 & H3 & H4 & -> & ->) (row' & wrow' & srow' & wb' & sb' & [= <-] & _ & _ & _ & H1' & H2' & H3' & H4' & -> & ->).
  by simplify_eq.
Qed.

Section hanging.
(** No request to the database fails, and the server of the webhook accepts the connection
    and does not answer: the request ends with the context of the pass. *)
Context `{!Apart AlertTables CallContext C} (W : Regime) (calm : ¬ faulty W).
Context (hangs : ∀ webhook request (c : C), under W (http_post webhook request) c (λ r c', is_ok r = false ∧ c' = set_part (mkCallContext true) c)).

Lemma Send_hangs webhook signing payload (c : C) :
  is_ok (ValidateFeishuWebhook webhook) = true → signing ≠ "" → ctx_done (part c) = false →
  under W (Send webhook signing payload) c (λ r c', is_ok r = false ∧ c' = set_part (mkCallContext true) c).
Proof.
  intros Hw Hs Hctx. unfold Send. rewrite Hw, bool_decide_false by done. simpl. apply under_bind, under_clock_now. intros now _.
  apply under_bind, under_catch, under_in_ctx; [by rewrite Hctx|]. intros _. eapply under_mono; [apply hangs|]. intros [x|e] c' [? ->]; [done|by apply under_throw].
Qed.

Lemma deliver_hangs claim now id o (c : C) :
  usable c → ctx_done (part c) = false → claim_of claim (part c) id o →
  under W (deliver read_file keys claim now) c (λ r c', is_ok r = false ∧ c' = set_part (mkCallContext true) c).
Proof.
  intros (Hsok & webhook & signing & Hcred & Hvalid & Hne) Hctx (_ & _ & _ & row & Hconf & Hw & Hs).
  apply under_bind, under_catch, under_in_ctx; [by rewrite Hctx|]. intros _. rewrite Hw, Hs. eapply under_mono; [by apply credentials_resolved|].
  intros [values|e] c1 [-> Hv]; [|destruct Hv as [Hv|Hv]; [done|by apply Hv in Hcred]].
  destruct (size values =? 2)%nat; simpl; [|by apply Hv in Hcred]. destruct (credentials_unique _ _ _ _ _ _ Hcred Hv) as [-> ->].
  apply under_bind, under_catch. eapply under_mono; [by apply Send_hangs|]. intros [x|e] c1 [Hr ->]; [done|].
  apply under_bind, under_in_ctx; [intros _ e'; by split|]. by rewrite part_set.
Qed.

Lemma DeliverDue_stuck (c : C) : usable c → ctx_done (part c) = false → under W (DeliverDue read_file keys) c (λ _ c', stuck c c').
Proof.
  intros Hu Hctx. unfold DeliverDue. generalize 99%nat. intros rounds. simpl.
  apply under_bind, under_clock_now. intros now _. apply under_bind, under_in_ctx; [by rewrite Hctx|]. intros _. apply under_pool; [by intros [?|_]|]. intros t [claim|] Hc.
  - apply claim_due_Some in Hc as (id & o & Hfirst & _ & -> & Hclaim). split; [|by intros]. set (c1 := set_part _ c).
    assert (stuck c c1) as H1.
    { unfold stuck, c1. rewrite apart, part_set. split_and!; [done..|]. intros k. simpl. destruct (decide (id = k)) as [<-|Hne]; [|by rewrite lookup_insert_ne].
      rewrite lookup_insert_eq, (proj1 Hfirst). constructor. apply taken_unrecorded. }
    apply under_bind. eapply under_mono.
    + apply (deliver_hangs claim now id o); [by eapply stuck_usable|unfold c1; by rewrite apart|unfold c1; by rewrite part_set].
    + intros [x|e] c2 [? ->]; [done|]. etrans; [exact H1|apply stuck_ctx].
  - apply claim_due_None in Hc as [-> _]. rewrite set_part_same. split; [by apply under_ret|by intros].
Qed.

(** C25: While the webhook accepts connections without answering, and even though no request
    to the database fails, no attempt is ever recorded, because a request is cut off only
    by the end of the pass, with which nothing can be recorded any more: however many
    passes there are, every delivery is as it was or only taken up, with the time of its
    next attempt and its last error unchanged, also after 24 attempts. *)
Theorem hanging_webhook_unrecorded passes (c : C) :
  usable c →
  under W (for_each (seq 0 passes) (λ _, ignore (with_timeout (DeliverDue read_file keys)))) c (λ r c', r = Ok tt ∧
    ∀ id, option_Forall2 unrecorded (notification_outbox (part c) !! id) (notification_outbox (part c') !! id)).
Proof.
  intros Hu. eapply under_mono; [apply under_for_each with (I := λ c', stuck c c'); [done|]|by intros r c' (-> & _ & _ & H)].
  intros _ c1 H1 _. apply under_ignore, under_bind, under_local. simpl. eapply under_mono.
  - apply DeliverDue_stuck; [eapply stuck_usable; [|exact Hu]; etrans; [exact H1|apply stuck_ctx]|by rewrite part_set].
  - intros r c2 H2. split; [done|]. etrans; [exact H1|]. etrans; [apply stuck_ctx|exact H2].
Qed.

End hanging.

End laws.

(** ** Examples *)

#[local] Existing Instance plain_aead.

Record Console : Type := mkConsole { co_db : DB; co_secrets : SecretTables; co_alerts : AlertTables; co_ctx : CallContext }.

#[export] Instance console_db : Has DB Console.
Proof. by refine {| part := co_db; set_part := λ d c, mkConsole d (co_secrets c) (co_alerts c) (co_ctx c) |}; intros []. Defined.
#[export] Instance console_secrets : Has SecretTables Console.
Proof. by refine {| part := co_secrets; set_part := λ s c, mkConsole (co_db c) s (co_alerts c) (co_ctx c) |}; intros []. Defined.
#[export] Instance console_alerts : Has AlertTables Console.
Proof. by refine {| part := co_alerts; set_part := λ t c, mkConsole (co_db c) (co_secrets c) t (co_ctx c) |}; intros []. Defined.
#[export] Instance console_ctx : Has CallContext Console.
Proof. by refine {| part := co_ctx; set_part := λ x c, mkConsole (co_db c) (co_secrets c) (co_alerts c) x |}; intros []. Defined.
#[export] Instance console_apart1 : Apart AlertTables SecretTables Console.
Proof. by split. Qed.
#[export] Instance console_apart2 : Apart SecretTables AlertTables Console.
Proof. by split. Qed.
#[export] Instance console_apart3 : Apart CallContext AlertTables Console.
Proof. by split. Qed.
#[export] Instance console_apart4 : Apart CallContext SecretTables Console.
Proof. by split. Qed.

#[export] Instance console_apart5 : Apart AlertTables CallContext Console.
Proof. by split. Qed.

(** A server that accepts every message, and one that does not answer. *)
Definition answering : FeishuAPI Console :=
  {| http_post _ _ := ret (200, "{}"); decode_reply _ := Some (mkFeishuReply (Some 0) "" "request-1" " ") |}.
Definition silent : FeishuAPI Console :=
  {| http_post _ _ := local (λ c, (set_part (mkCallContext true) c, tt)) ;;! throw (EOther "timeout"); decode_reply _ := None |}.

Lemma answering_law : FeishuLaw (api := answering).
Proof. split. intros webhook request c. apply wp_ret. exists (part c). by rewrite set_part_same. Qed.

Lemma silent_hangs W webhook request (c : Console) :
  under W (http_post (FeishuAPI := silent) webhook request) c (λ r c', is_ok r = false ∧ c' = set_part (mkCallContext true) c).
Proof. apply under_bind, under_local. by apply under_throw. Qed.

Lemma answering_posts W webhook request (c : Console) :
  under W (http_post (FeishuAPI := answering) webhook request) c (λ r c', r = Ok (200, "{}") ∧ ∃ ctx, c' = set_part (ctx : CallContext) c).
Proof. apply under_ret. split; [done|]. exists (part c). by rewrite set_part_same. Qed.

Definition hook : string := "https://open.feishu.cn/open-apis/bot/v2/hook/01234567-89ab-cdef-0123-456789abcdef".

#[local] Instance any_uuid : UUIDs.
Proof.
  refine {| parse_uuid := λ value, if bool_decide (TrimSpace value = value) then Some value else None |}.
  intros value id H. case_bool_decide; simplify_eq. by rewrite bool_decide_true.
Defined.

Lemma hook_valid : ValidateFeishuWebhook hook = Ok tt ∧ maskWebhook hook = "飞书机器人 …cdef" ∧
  is_ok (ValidateFeishuWebhook (hook +:+ "/")) = false ∧ is_ok (ValidateFeishuWebhook ("https://open.feishu.cn.example" +:+ hook_prefix)) = false.
Proof. by vm_compute. Qed.

(** The vector of RFC 4231, test case 2. *)
Lemma hmac_vector :
  take 8 (hmac_sha256 (bytes_of "Jefe") (bytes_of "what do ya want for nothing?")) = [91; 220; 193; 70; 191; 96; 117; 78].
Proof. by vm_compute. Qed.

Definition store_both : Prog Console Metadata :=
  CreateSystem key_file vault_keys "" "notification/feishu/webhook/1" (bytes_of hook) ;;!
  CreateSystem key_file vault_keys "" "notification/feishu/signing/1" (bytes_of "sign").

Definition console : Console :=
  mkConsole empty_tables
    (co_secrets (store_both (mkConsole empty_tables (mkSecretTables ∅) no_alert_tables (mkCallContext false),
      calm ["secret-1"; "k1"; "n1"; "w1"; "secret-2"; "k2"; "n2"; "w2"] 5)).1.1)
    (dk_alerts raised_desk.1.1) (mkCallContext false).

Lemma console_secrets_ok : secrets_ok (part (C := Console) console).
Proof.
  assert (map_Forall (λ id row, md_ID (ss_Metadata row) = id) (secret_rows (part (C := Console) console))) as H; [|exact H].
  apply map_Forall_to_list. vm_compute. repeat constructor.
Qed.

Lemma console_attempts_ok : attempts_ok (part (C := Console) console).
Proof.
  assert (map_Forall (λ _ o, 0 ≤ ox_attempts o) (notification_outbox (part (C := Console) console))) as H; [|exact H].
  apply map_Forall_to_list. vm_compute. repeat constructor. discriminate.
Qed.

Abbreviation at_ten := (at_times (eq 10)).
Lemma ten_abides : abides at_ten (calm [] 10).
Proof. repeat constructor. Qed.

Abbreviation drained := (deliver_rounds (api := answering) key_file vault_keys 100 (console, calm [] 10)).

Lemma outbox_drained_witness :
  (outbox_work (part (C := Console) console) < 100)%nat ∧ (ox_status <$> notification_outbox (co_alerts drained.1.1) !! "delivery-1") = Some DeliverySent ∧
  none_takeable 10 (co_alerts drained.1.1).
Proof.
  assert ((outbox_work (part (C := Console) console) < 100)%nat) as Hw by (vm_compute; repeat constructor). split; [exact Hw|].
  assert (drained.2 = Ok tt) as Hr by (vm_compute; reflexivity). split; [vm_compute; reflexivity|].
  assert (feishu_enabled (part (C := Console) drained.1.1) = true) as Hen by (vm_compute; reflexivity).
  pose proof (under_result _ _ _ _ (calm [] 10) (outbox_drained (api := answering) key_file vault_keys at_ten (λ _ _ r, r = Ok (200, "{}"))
    (answering_posts at_ten) 100 console console_secrets_ok console_attempts_ok Hw) ten_abides) as H.
  revert Hr Hen H. generalize drained. intros run Hr Hen H. destruct (H Hr) as [H'|(now & <- & H')]; [rewrite H' in Hen; discriminate Hen|exact H'].
Defined.

Abbreviation one_round := (deliver_rounds (api := answering) key_file vault_keys 1 (console, calm [] 10)).

(** The message is sent, because the webhook accepted it. *)
Lemma delivery_round_exact_witness :
  one_round.2 = Ok tt ∧ (ox_attempts <$> notification_outbox (co_alerts one_round.1.1) !! "delivery-1") = Some 1 ∧
  ∃ id o o', first_takeable 10 (part (C := Console) console) id o ∧
    part (C := Console) one_round.1.1 = (part console) <| notification_outbox ::= <[id := o']> |> ∧
    outcome (C := Console) (api := answering) key_file vault_keys at_ten (λ _ _ r, r = Ok (200, "{}"))
      (notification_config (part (C := Console) console)) (part (C := Console) console) 10 o o'.
Proof.
  assert (one_round.2 = Ok tt) as Hr by (vm_compute; reflexivity). split; [exact Hr|]. split; [vm_compute; reflexivity|].
  assert (feishu_enabled (part (C := Console) console) = true) as Hen by (vm_compute; reflexivity).
  assert (bool_decide (is_Some (claim_candidate 10 (part (C := Console) console))) = true) as Hc by (vm_compute; reflexivity).
  pose proof (under_result _ _ _ _ (calm [] 10) (delivery_round_exact (api := answering) key_file vault_keys at_ten (λ _ _ r, r = Ok (200, "{}"))
    (answering_posts at_ten) console console_secrets_ok console_attempts_ok) ten_abides) as H.
  revert Hr H. generalize one_round. intros run Hr (now & <- & [[_ H]|(id & o & o' & _ & Ho & Hp & [H|[H _]])]).
  - destruct (H Hr) as [H0|H0]; [rewrite H0 in Hen; discriminate Hen|].
    destruct (claim_candidate 10 (part (C := Console) console)) as [[id o]|] eqn:E; [|discriminate Hc].
    apply claim_candidate_inv in E as [E1 E2%delivery_due_spec]. destruct (H0 _ _ E1 E2).
  - exists id, o, o'. split; [exact Ho|]. split; [exact Hp|exact H].
  - rewrite Hr in H. discriminate H.
Defined.

Lemma console_alerting_ok : alerting_ok (part (C := Console) console).
Proof. exact raised_desk_ok. Qed.

Definition test_request : string := "0f8fad5b-d9cb-469f-a165-70867728950e".

Abbreviation tested := (EnqueueTest (C := Console) "user-1" test_request (console, calm ["delivery-9"; "unused"] 10)).

Lemma test_request_idempotent_witness :
  is_ok tested.2 = true ∧ ∀ d, tested.2 = Ok d →
    wp (DeliverDue (api := answering) key_file vault_keys ;;! EnqueueTest (C := Console) "user-1" test_request) tested.1.1 (λ r' _, ∀ d', r' = Ok d' → dv_ID d' = dv_ID d).
Proof.
  split; [vm_compute; reflexivity|].
  exact (wp_result _ _ _ (calm ["delivery-9"; "unused"] 10)
    (test_request_idempotent "user-1" test_request (DeliverDue (api := answering) key_file vault_keys) console
       (ops_DeliverDue (law := answering_law) key_file vault_keys) console_alerting_ok)).
Defined.

Lemma console_usable : usable (C := Console) key_file vault_keys console.
Proof.
  split; [exact console_secrets_ok|]. exists (text_of (bytes_of hook)), (text_of (bytes_of "sign")). split.
  - exists feishu_on. do 2 eexists. exists (bytes_of hook), (bytes_of "sign").
    do 8 (split; [first [discriminate | vm_compute; first [reflexivity | discriminate]]|]). split; reflexivity.
  - rewrite !text_of_bytes. split; [vm_compute; reflexivity|discriminate].
Qed.

(** Passes every 31 seconds. *)
Definition clock_of_passes : Oracle := mkOracle [] [] (10, (λ n, 10 + Z.of_nat n * 31 * second) <$> seq 1 100).

Abbreviation hanging_passes := (for_each (seq 0 30) (λ _, ignore (with_timeout (DeliverDue (api := silent) key_file vault_keys))) (console, clock_of_passes)).

Lemma hanging_webhook_unrecorded_witness :
  (ox_attempts <$> notification_outbox (co_alerts hanging_passes.1.1) !! "delivery-1") = Some 30 ∧
  ∀ id, option_Forall2 unrecorded (notification_outbox (part (C := Console) console) !! id) (notification_outbox (part (C := Console) hanging_passes.1.1) !! id).
Proof.
  split; [vm_compute; reflexivity|].
  assert (abides without_faults clock_of_passes) as Ho.
  { split; [|constructor]. apply Forall_forall. intros x _. exact I. }
  exact (proj2 (under_result _ _ _ _ clock_of_passes
    (hanging_webhook_unrecorded (api := silent) key_file vault_keys without_faults without_faults_calm (silent_hangs without_faults) 30 console console_usable) Ho)).
Defined.
