(* ===== verification/OpsRules.v ===== *)
(** * OpsRules

    [internal/ops]: the rules that watch servers and runs, the state they keep in
    [alert_rule_states], and one pass of the loop that evaluates them and delivers the
    notifications.

    The scan runs under a context of its own, like the delivery; the health endpoint is
    the interface [SuccessRecorder]. *)

From Stdlib Require Import SpecFloat.
From S2P Require Import Prelude GoStd GoFloat GoCrypto Model World Schema Session SchedulerService Redaction Secrets Accounts Alerts Notifications.

Definition offlineThreshold : Duration := 2 * minute.
Definition queueThreshold : Duration := 10 * minute.
Definition snapshotMaxAge : Duration := 2 * minute.

(** ** rules.go: data *)

Record ResourceSample : Type := mkResourceSample {
  rp_MemoryTotalBytes : Z; rp_MemoryAvailableBytes : Z; rp_DiskTotalBytes : Z; rp_DiskAvailableBytes : Z; rp_CollectedAt : Time
}.

Record ServerObservation : Type := mkServerObservation {
  so_ID : string; so_Name : string; so_Enabled : bool; so_Draining : bool; so_LastSeenAt : option Time; so_Samples : list ResourceSample
}.

Record RunObservation : Type := mkRunObservation { ro_ID : string; ro_TaskName : string; ro_State : RunState; ro_QueuedAt : Time }.

Record RuleSnapshot : Type := mkRuleSnapshot { rn_Servers : list ServerObservation; rn_Runs : list RunObservation }.

Record Evaluation : Type := mkEvaluation {
  ev_Key : RuleKey; ev_Bad : bool; ev_Good : bool; ev_Value : option float64; ev_EvaluatedAt : Time; ev_RequiredConsecutive : Z;
  ev_SampleBased : bool; ev_Event : AlertEvent
}.

Record Transition : Type := mkTransition { tn_Evaluation : Evaluation; tn_DesiredActive : bool }.

(** ** rules.go: evaluation *)

Definition evaluateServerAvailability (server : ServerObservation) (now : Time) : Evaluation :=
  let bad := so_Enabled server && match so_LastSeenAt server with None => true | Some seen => negb (now - offlineThreshold <? seen) end in
  mkEvaluation (mkRuleKey "agent_offline" "server" (so_ID server)) bad (negb bad) None now 1 false
    (mkAlertEvent "server" (so_ID server) "agent_offline" SeverityCritical "服务器离线"
       ("执行服务器 " +:+ so_Name server +:+ " 已超过 2 分钟没有心跳")).

Definition resourceEvaluation (server : ServerObservation) (code title : string) (value : option float64) (bad good : bool) (evaluatedAt : Time) (required : Z) : Evaluation :=
  mkEvaluation (mkRuleKey code "server" (so_ID server)) bad good value evaluatedAt required (bool_decide (is_Some value))
    (mkAlertEvent "server" (so_ID server) code SeverityWarning title ("执行服务器 " +:+ so_Name server +:+ " 的可用资源低于告警阈值")).

(** [float64(available) / float64(total) * 100] *)
Definition percentage (available total : Z) : float64 := float_mul (float_div (float_of_int available) (float_of_int total)) (float_of_int 100).

Definition below (value : float64) (limit : Z) : bool := SFltb value (float_of_int limit).
Definition above (value : float64) (limit : Z) : bool := SFltb (float_of_int limit) value.

Definition memory_title : string := "服务器可用内存不足".
Definition disk_title : string := "服务器可用磁盘不足".

Definition evaluate_sample (server : ServerObservation) (now : Time) (sample : ResourceSample) : list Evaluation :=
  if (now <? rp_CollectedAt sample) || (snapshotMaxAge <? now - rp_CollectedAt sample) then []
  else
    (if 0 <? rp_MemoryTotalBytes sample
     then let value := percentage (rp_MemoryAvailableBytes sample) (rp_MemoryTotalBytes sample) in
          [resourceEvaluation server "memory_low" memory_title (Some value) (below value 10) (above value 15) (rp_CollectedAt sample) 2]
     else []) ++
    (if 0 <? rp_DiskTotalBytes sample
     then let value := percentage (rp_DiskAvailableBytes sample) (rp_DiskTotalBytes sample) in
          [resourceEvaluation server "disk_low" disk_title (Some value) (below value 15) (above value 20) (rp_CollectedAt sample) 2]
     else []).

Definition evaluate_server (now : Time) (server : ServerObservation) : list Evaluation :=
  evaluateServerAvailability server now ::
  (if negb (so_Enabled server)
   then [resourceEvaluation server "memory_low" memory_title None false true now 1; resourceEvaluation server "disk_low" disk_title None false true now 1]
   else stable_sort (λ a b, rp_CollectedAt a <? rp_CollectedAt b) (so_Samples server) ≫= evaluate_sample server now).

Definition evaluate_run (now : Time) (run : RunObservation) : list Evaluation :=
  let queueBad := bool_decide (ro_State run = Queued) && negb (now - queueThreshold <? ro_QueuedAt run) in
  mkEvaluation (mkRuleKey "queue_timeout" "run" (ro_ID run)) queueBad (negb queueBad) None now 1 false
    (mkAlertEvent "run" (ro_ID run) "queue_timeout" SeverityWarning "任务排队超过 10 分钟" ("任务 " +:+ ro_TaskName run +:+ " 正在等待可用服务器")) ::
  (if bool_decide (ro_State run ∈ [Failed; TimedOut])
   then [mkEvaluation (mkRuleKey "task_failed" "run" (ro_ID run)) true false None now 1 false
           (mkAlertEvent "run" (ro_ID run) "task_failed" SeverityCritical (if bool_decide (ro_State run = TimedOut) then "任务执行超时" else "任务执行失败")
              ("任务 " +:+ ro_TaskName run +:+ " 已结束，请在执行记录中查看状态"))]
   else []).

Definition evaluateSnapshot (snapshot : RuleSnapshot) (now : Time) : list Evaluation :=
  (rn_Servers snapshot ≫= evaluate_server now) ++ (rn_Runs snapshot ≫= evaluate_run now).

Definition tn_Key (t : Transition) : RuleKey := ev_Key (tn_Evaluation t).

(** The keys in the order of their first occurrence. *)
Fixpoint first_keys (seen : gset RuleKey) (keys : list RuleKey) : list RuleKey :=
  match keys with
  | [] => []
  | key :: rest => if bool_decide (key ∈ seen) then first_keys seen rest else key :: first_keys ({[key]} ∪ seen) rest
  end.

Definition deduplicateTransitions (values : list Transition) : list Transition :=
  let latest := foldl (λ (m : gmap RuleKey Transition) value, <[tn_Key value := value]> m) ∅ values in
  omap (λ key, latest !! key) (first_keys ∅ (tn_Key <$> values)).

(** ** postgres.go *)

Definition new_rule_state : RuleState := mkRuleState false false 0 0 None 0.

Definition ruled (sourceType : string) (sourceID : string) (t : AlertTables) : bool :=
  existsb (λ p, bool_decide (rk_SourceType p.1 = sourceType) && bool_decide (rk_SourceID p.1 = sourceID)) (map_to_list (alert_rule_states t)).

Definition sample_of (row : ServerSnapshotRow) : ResourceSample :=
  mkResourceSample (ss_memory_total_bytes row) (ss_memory_available_bytes row) (ss_disk_total_bytes row) (ss_disk_available_bytes row) (ss_collected_at row).

(** The two latest snapshots, in the order of their times. *)
Definition samples_of (serverID : string) (d : DB) : list ResourceSample :=
  let latest := take 2 (stable_sort (λ a b, ss_collected_at b <? ss_collected_at a) (filter (λ row, ss_server_id row = serverID) (server_snapshots d))) in
  sample_of <$> stable_sort (λ a b, ss_collected_at a <? ss_collected_at b) latest.

Definition observed_servers (d : DB) (t : AlertTables) : list ServerObservation :=
  (λ p, mkServerObservation p.1 (se_name p.2) (se_enabled p.2) (se_drain_requested p.2) (se_last_seen_at p.2) []) <$>
    stable_sort (λ a b, string_lt a.1 b.1) (filter (λ p, se_enabled p.2 || ruled "server" p.1 t = true) (map_to_list (servers d))).

(** [WHERE] of the runs. *)
Definition run_observed (now : Time) (t : AlertTables) (id : string) (row : RunRow) : bool :=
  (bool_decide (tr_state row = Queued) && (rs_queued_at (tr_spec row) <=? now - queueThreshold)) ||
  (bool_decide (tr_state row ∈ [Failed; TimedOut]) && negb (bool_decide (is_Some (alert_rule_states t !! mkRuleKey "task_failed" "run" id)))) ||
  ruled "run" id t.

Definition observe_run (d : DB) (p : string * RunRow) : option RunObservation :=
  definition ← task_definitions d !! rs_task_definition_id (tr_spec p.2);
  Some (mkRunObservation p.1 (df_name definition) (tr_state p.2) (rs_queued_at (tr_spec p.2))).

Definition observed_runs (now : Time) (d : DB) (t : AlertTables) : list RunObservation :=
  omap (observe_run d) (stable_sort (λ a b, string_lt a.1 b.1) (filter (λ p, run_observed now t p.1 p.2 = true) (map_to_list (task_runs d)))).

Section repository.
Context {C : Type} `{!Has DB C, !Has AlertTables C, !Has CallContext C}.

Definition Snapshot_ (now : Time) : Prog C RuleSnapshot :=
  let! found := in_ctx (observe "读取运维服务器" (λ c, observed_servers (part c) (part c))) in
  let! found := match found with
                | [] => ret []
                | _ => in_ctx (observe "读取服务器资源快照" (λ c,
                         (λ s, mkServerObservation (so_ID s) (so_Name s) (so_Enabled s) (so_Draining s) (so_LastSeenAt s) (samples_of (so_ID s) (part c))) <$> found))
                end in
  let! runs := in_ctx (observe "读取运维任务运行" (λ c, observed_runs now (part c) (part c))) in
  ret (mkRuleSnapshot found runs).

(** [INSERT ... ON CONFLICT DO NOTHING] and the [SELECT]. *)
Definition load_state (key : RuleKey) (t : AlertTables) : AlertTables * RuleState :=
  match alert_rule_states t !! key with
  | Some state => (t, state)
  | None => (t <| alert_rule_states ::= <[key := new_rule_state]> |>, new_rule_state)
  end.

Definition loadRuleState (key : RuleKey) : TxOn AlertTables C RuleState :=
  exec "创建运维规则状态" (λ t, Some (load_state key t).1) ;;!
  query_one "锁定运维规则状态" (λ t, alert_rule_states t !! key).

(** The state after an evaluation. *)
Definition evaluate (e : Evaluation) (s : RuleState) : RuleState :=
  if ev_SampleBased e && negb (rl_LastEvaluatedAt s <? ev_EvaluatedAt e) then s
  else
    let s := s <| rl_LastEvaluatedAt := ev_EvaluatedAt e |> <| rl_LastValue := ev_Value e |> in
    if ev_Bad e then
      let s := s <| rl_ConsecutiveBad := rl_ConsecutiveBad s + 1 |> <| rl_ConsecutiveGood := 0 |> in
      if ev_RequiredConsecutive e <=? rl_ConsecutiveBad s then s <| rl_DesiredActive := true |> else s
    else if ev_Good e then
      let s := s <| rl_ConsecutiveGood := rl_ConsecutiveGood s + 1 |> <| rl_ConsecutiveBad := 0 |> in
      if ev_RequiredConsecutive e <=? rl_ConsecutiveGood s then s <| rl_DesiredActive := false |> else s
    else s <| rl_ConsecutiveBad := 0 |> <| rl_ConsecutiveGood := 0 |>.

(** [UPDATE alert_rule_states SET ...]: the column active stays. *)
Definition save_state (key : RuleKey) (s : RuleState) (t : AlertTables) : option AlertTables :=
  if (2 ^ 31 <=? rl_ConsecutiveBad s) || (2 ^ 31 <=? rl_ConsecutiveGood s) then None
  else Some (t <| alert_rule_states ::= alter (λ row, s <| rl_Active := rl_Active row |>) key |>).

(** The loop over the evaluations, with the maps [states] and [latestEvaluations]. *)
Fixpoint apply_each (evaluations : list Evaluation) (states : gmap RuleKey RuleState) (latest : gmap RuleKey Evaluation) :
    TxOn AlertTables C (gmap RuleKey RuleState * gmap RuleKey Evaluation) :=
  match evaluations with
  | [] => ret (states, latest)
  | e :: rest =>
    let! state := match states !! ev_Key e with Some state => ret state | None => loadRuleState (ev_Key e) end in
    let latest := <[ev_Key e := e]> latest in
    if ev_SampleBased e && negb (rl_LastEvaluatedAt state <? ev_EvaluatedAt e) then apply_each rest (<[ev_Key e := state]> states) latest
    else
      let state := evaluate e state in
      exec "保存运维规则状态" (save_state (ev_Key e) state) ;;!
      apply_each rest (<[ev_Key e := state]> states) latest
  end.

Definition transition_of (states : gmap RuleKey RuleState) (latest : gmap RuleKey Evaluation) (key : RuleKey) : option Transition :=
  state ← states !! key; e ← latest !! key;
  if eqb (rl_DesiredActive state) (rl_Active state) then None else Some (mkTransition e (rl_DesiredActive state)).

Definition Apply_ (evaluations : list Evaluation) : Prog C (list Transition) :=
  in_ctx (transaction (T := AlertTables) "开始运维规则事务" (
    let! p := apply_each evaluations ∅ ∅ in
    commit "提交运维规则状态" ;;!
    ret (omap (transition_of p.1 p.2) (first_keys ∅ (ev_Key <$> evaluations))))).

Definition mark_applied (key : RuleKey) (desired : bool) (t : AlertTables) : AlertTables :=
  match alert_rule_states t !! key with
  | Some s => if eqb (rl_DesiredActive s) desired then t <| alert_rule_states ::= <[key := s <| rl_Active := desired |>]> |> else t
  | None => t
  end.

Definition MarkApplied (key : RuleKey) (desired : bool) : Prog C unit :=
  in_ctx (pool (T := AlertTables) "确认运维告警状态" (λ t, Some (mark_applied key desired t, tt))).

(** ** rules.go: the engine *)

Definition applyTransition (transition : Transition) : Prog C unit :=
  if tn_DesiredActive transition then in_ctx (Raise (ev_Event (tn_Evaluation transition)))
  else let key := tn_Key transition in in_ctx (Resolve (rk_SourceType key) (rk_SourceID key) (rk_Code key)).

Fixpoint apply_transitions (transitions : list Transition) : Prog C (list Error) :=
  match transitions with
  | [] => ret []
  | transition :: rest =>
    let! applied := catch (applyTransition transition) in
    match applied with
    | Err e => let! failures := apply_transitions rest in ret (e :: failures)
    | Ok _ =>
      let! marked := catch (MarkApplied (tn_Key transition) (tn_DesiredActive transition)) in
      let! failures := apply_transitions rest in
      ret (match marked with Err e => e :: failures | Ok _ => failures end)
    end
  end.

Definition Rules_Scan : Prog C unit :=
  let! now := clock_now in
  let! snapshot := Snapshot_ now in
  let! transitions := Apply_ (evaluateSnapshot snapshot now) in
  let! failures := apply_transitions (deduplicateTransitions transitions) in
  match failures with [] => ret tt | _ => throw (EJoined failures) end.

End repository.

(** ** loop.go *)

Class SuccessRecorder (C : Type) : Type := { mark_successful_scan : option (Time → Prog C unit) }.

(** [OperationalScanner]: the backups. *)
Class OperationalScanner (C : Type) : Type := {
  ensure_schedules : Time → Prog C unit;
  run_backup : Prog C unit;
  run_verification : Prog C unit
}.

Section loop.
Context {C : Type} `{!Has DB C, !Has SecretTables C, !Has AlertTables C, !Has CallContext C}.
Context `{aead : !AEAD, api : !FeishuAPI C, uuids : !UUIDs, health : !SuccessRecorder C} (read_file : string → option string) (keys : FileKeyProvider).

Definition record_success (succeeded : bool) : Prog C unit :=
  match mark_successful_scan with
  | Some mark => if succeeded then (let! now := clock_now in mark now) else ret tt
  | None => ret tt
  end.

(** The errors go to [onError]. *)
Definition reported (r : Result unit) : list Error := match r with Ok _ => [] | Err e => [e] end.

Definition runControlOnce : Prog C (list Error) :=
  let! rules := catch (with_timeout Rules_Scan) in
  let! outbox := catch (with_timeout (DeliverDue read_file keys)) in
  record_success (is_ok rules || is_ok outbox) ;;!
  ret (reported rules ++ reported outbox).

Definition runOperationalOnce (backup : option (OperationalScanner C)) : Prog C (list Error) :=
  match backup with
  | None => ret []
  | Some scanner =>
    let! schedules := catch (with_timeout (let! now := clock_now in ensure_schedules now)) in
    let! backups := catch (with_timeout run_backup) in
    let! verification := catch (with_timeout run_verification) in
    record_success (is_ok schedules || is_ok backups || is_ok verification) ;;!
    ret (reported schedules ++ reported backups ++ reported verification)
  end.

End loop.

(** ** The states of the rules *)

(** The states after a batch of evaluations, one after the other. *)
Definition applied_states (evaluations : list Evaluation) (states : gmap RuleKey RuleState) : gmap RuleKey RuleState :=
  foldl (λ m e, <[ev_Key e := evaluate e (default new_rule_state (m !! ev_Key e))]> m) states evaluations.

(** The state of one rule after the evaluations of its key. *)
Definition rule_after (key : RuleKey) (evaluations : list Evaluation) (s : RuleState) : RuleState :=
  foldl (λ s e, evaluate e s) s (filter (λ e, ev_Key e = key) evaluations).

Lemma evaluate_active e s : rl_Active (evaluate e s) = rl_Active s.
Proof. unfold evaluate. destruct (_ && _); [done|]. destruct (ev_Bad e), (ev_Good e); simpl; by repeat case_match. Qed.

Lemma applied_states_lookup evaluations states key :
  applied_states evaluations states !! key =
  if bool_decide (key ∈ ev_Key <$> evaluations) then Some (rule_after key evaluations (default new_rule_state (states !! key))) else states !! key.
Proof.
  unfold applied_states, rule_after. revert states. induction evaluations as [|e rest IH]; intros states; csimpl; [done|].
  rewrite IH. destruct (decide (ev_Key e = key)) as [<-|Hne].
  - rewrite lookup_insert_eq, filter_cons_True by done. simpl. rewrite (bool_decide_true (_ ∈ ev_Key e :: _)) by left.
    case_bool_decide as Hin; [done|]. f_equal. assert (filter (λ e0, ev_Key e0 = ev_Key e) rest = []) as ->; [|done].
    clear IH. induction rest as [|x rest IHr]; [done|]. apply not_elem_of_cons in Hin as [Hx Hin]. rewrite filter_cons_False by congruence. by apply IHr.
  - rewrite lookup_insert_ne, filter_cons_False by done. assert (bool_decide (key ∈ ev_Key e :: (ev_Key <$> rest)) = bool_decide (key ∈ ev_Key <$> rest)) as ->; [|done].
    apply bool_decide_ext. set_solver.
Qed.

Definition last_evaluations (evaluations : list Evaluation) (m : gmap RuleKey Evaluation) : gmap RuleKey Evaluation :=
  foldl (λ m e, <[ev_Key e := e]> m) m evaluations.

(** The transitions of a batch: the rules whose desired state differs, in the order of
    their first evaluation, each with its last one. *)
Definition transitions_of (evaluations : list Evaluation) (states : gmap RuleKey RuleState) : list Transition :=
  omap (transition_of (applied_states evaluations states) (last_evaluations evaluations ∅)) (first_keys ∅ (ev_Key <$> evaluations)).

(** ** Hysteresis *)

(** Samples that were evaluated before change nothing. *)
Lemma evaluate_seen e s : ev_SampleBased e = true → ev_EvaluatedAt e ≤ rl_LastEvaluatedAt s → evaluate e s = s.
Proof. intros Hs Ht. unfold evaluate. rewrite Hs. destruct (Z.ltb_spec (rl_LastEvaluatedAt s) (ev_EvaluatedAt e)); [lia|done]. Qed.

Definition is_bad (e : Evaluation) : bool := ev_Bad e.
Definition is_good (e : Evaluation) : bool := negb (ev_Bad e) && ev_Good e.

(** How many of the last elements satisfy [p]. *)
Definition trailing {A} (p : A → bool) (l : list A) : Z := foldl (λ n x, if p x then n + 1 else 0) 0 l.

Lemma trailing_snoc {A} (p : A → bool) l x : trailing p (l ++ [x]) = if p x then trailing p l + 1 else 0.
Proof. unfold trailing. by rewrite foldl_app. Qed.

(** Every evaluation counts: it is not of a sample, or of a later one than before. *)
Fixpoint counted (last : Time) (es : list Evaluation) : Prop :=
  match es with
  | [] => True
  | e :: rest => (ev_SampleBased e = true → last < ev_EvaluatedAt e) ∧ counted (ev_EvaluatedAt e) rest
  end.

Lemma counted_snoc last es e :
  counted last (es ++ [e]) ↔ counted last es ∧ (ev_SampleBased e = true → foldl (λ _ x, ev_EvaluatedAt x) last es < ev_EvaluatedAt e).
Proof. revert last. induction es as [|x es IH]; intros last; simpl; [naive_solver|]. rewrite IH. naive_solver. Qed.

Lemma evaluate_counters es s :
  counted (rl_LastEvaluatedAt s) es → rl_ConsecutiveBad s = 0 → rl_ConsecutiveGood s = 0 →
  let s' := foldl (λ s e, evaluate e s) s es in
  rl_ConsecutiveBad s' = trailing is_bad es ∧ rl_ConsecutiveGood s' = trailing is_good es ∧ rl_LastEvaluatedAt s' = foldl (λ _ x, ev_EvaluatedAt x) (rl_LastEvaluatedAt s) es.
Proof.
  intros Hc H0 H1. induction es as [|e es IH] using rev_ind; [done|]. apply counted_snoc in Hc as [Hc Ht]. rewrite !foldl_app, !trailing_snoc. simpl.
  destruct (IH Hc) as (I1 & I2 & I3). set (s1 := foldl _ s es) in *. unfold evaluate, is_bad, is_good. rewrite I3.
  destruct (ev_SampleBased e && _) eqn:E.
  { apply andb_true_iff in E as [E1 E2]. specialize (Ht E1). lia. }
  destruct (ev_Bad e), (ev_Good e); simpl; repeat case_match; simpl; by rewrite ?I1, ?I2.
Qed.

Lemma evaluate_desired e s :
  (ev_SampleBased e && negb (rl_LastEvaluatedAt s <? ev_EvaluatedAt e)) = false →
  rl_DesiredActive (evaluate e s) =
  if is_bad e && (ev_RequiredConsecutive e <=? rl_ConsecutiveBad s + 1) then true
  else if is_good e && (ev_RequiredConsecutive e <=? rl_ConsecutiveGood s + 1) then false else rl_DesiredActive s.
Proof. intros E. unfold evaluate, is_bad, is_good. rewrite E. destruct (ev_Bad e), (ev_Good e); simpl; by repeat case_match. Qed.

(** The evaluations that count: a sample that is not later than the evaluation that
    counted last was seen before and is left out. *)
Fixpoint fresh (last : Time) (es : list Evaluation) : list Evaluation :=
  match es with
  | [] => []
  | e :: rest => if ev_SampleBased e && (ev_EvaluatedAt e <=? last) then fresh last rest else e :: fresh (ev_EvaluatedAt e) rest
  end.

Lemma fresh_counted last es : counted last (fresh last es).
Proof.
  revert last. induction es as [|e es IH]; intros last; simpl; [done|]. destruct (_ && _) eqn:E; [apply IH|]. split; [|apply IH].
  intros Hs. rewrite Hs in E. simpl in E. lia.
Qed.

Lemma evaluate_fresh es s : foldl (λ s e, evaluate e s) s es = foldl (λ s e, evaluate e s) s (fresh (rl_LastEvaluatedAt s) es).
Proof.
  revert s. induction es as [|e es IH]; intros s; simpl; [done|]. destruct (_ && _) eqn:E.
  - apply andb_true_iff in E as [E1 E2%Z.leb_le]. by rewrite evaluate_seen by done.
  - simpl. rewrite IH. assert (rl_LastEvaluatedAt (evaluate e s) = ev_EvaluatedAt e) as ->; [|done]. unfold evaluate.
    destruct (ev_SampleBased e && negb _) eqn:E'; [|by repeat case_match]. apply andb_true_iff in E' as [E1 E2]. rewrite E1 in E. simpl in E. lia.
Qed.

(** The list ends with an evaluation that raises the rule: as many bad ones in a row as
    it requires; or with one that clears it. *)
Definition raises (l : list Evaluation) : Prop :=
  match last l with Some e => ev_Bad e = true ∧ ev_RequiredConsecutive e ≤ trailing is_bad l | None => False end.
Definition clears (l : list Evaluation) : Prop :=
  match last l with Some e => ev_Bad e = false ∧ ev_Good e = true ∧ ev_RequiredConsecutive e ≤ trailing is_good l | None => False end.

Lemma hysteresis_counted es :
  counted 0 es →
  rl_DesiredActive (foldl (λ s e, evaluate e s) new_rule_state es) = true ↔
  ∃ k, (k ≤ length es)%nat ∧ raises (take k es) ∧ ∀ j, (k < j ≤ length es)%nat → ¬ clears (take j es).
Proof.
  induction es as [|e es IH] using rev_ind; intros Hc; [split; [done|]; intros (k & _ & Hk & _); by rewrite take_nil in Hk|].
  apply counted_snoc in Hc as [Hc Hlast]. specialize (IH Hc). destruct (evaluate_counters es new_rule_state Hc eq_refl eq_refl) as (Hb & Hg & Ht).
  rewrite foldl_app. simpl. set (s := foldl (λ s e, evaluate e s) new_rule_state es) in *.
  rewrite evaluate_desired, Hb, Hg; [|rewrite Ht; destruct (ev_SampleBased e); [simpl; specialize (Hlast eq_refl); lia|done]].
  assert (∀ j, (j ≤ length es)%nat → take j (es ++ [e]) = take j es) as Htake by (intros j Hj; by rewrite take_app_le).
  assert (take (S (length es)) (es ++ [e]) = es ++ [e]) as Hall by (apply take_ge; rewrite length_app; simpl; lia).
  assert (raises (es ++ [e]) ↔ is_bad e && (ev_RequiredConsecutive e <=? trailing is_bad es + 1) = true) as Hraise.
  { unfold raises. rewrite last_snoc, trailing_snoc, andb_true_iff, Z.leb_le. unfold is_bad. destruct (ev_Bad e); naive_solver. }
  assert (clears (es ++ [e]) ↔ is_good e && (ev_RequiredConsecutive e <=? trailing is_good es + 1) = true) as Hclear.
  { unfold clears. rewrite last_snoc, trailing_snoc, andb_true_iff, Z.leb_le. unfold is_good. destruct (ev_Bad e), (ev_Good e); simpl; naive_solver. }
  rewrite length_app. simpl. rewrite Nat.add_1_r. destruct (is_bad e && _) eqn:E1.
  { split; [intros _|done]. exists (S (length es)). split; [lia|]. split; [by rewrite Hall; apply Hraise|intros j Hj; lia]. }
  assert (¬ raises (es ++ [e])) as Nr by (rewrite Hraise; congruence). destruct (is_good e && _) eqn:E2.
  - split; [done|]. intros (k & Hk & Hkb & Hkg). exfalso. destruct (decide (k = S (length es))) as [->|Hne]; [by rewrite Hall in Hkb|].
    apply (Hkg (S (length es))); [lia|]. rewrite Hall. by apply Hclear.
  - assert (¬ clears (es ++ [e])) as Nc by (rewrite Hclear; congruence). rewrite IH. split; intros (k & Hk & Hkb & Hkg).
    + exists k. split; [lia|]. rewrite Htake by lia. split; [done|]. intros j Hj. destruct (decide (j = S (length es))) as [->|Hne]; [by rewrite Hall|].
      rewrite Htake by lia. apply Hkg. lia.
    + destruct (decide (k = S (length es))) as [->|Hne]; [by rewrite Hall in Hkb|]. exists k. rewrite Htake in Hkb by lia. split; [lia|]. split; [done|].
      intros j Hj. rewrite <-(Htake j) by lia. apply Hkg. lia.
Qed.

(** C16: However often the same samples are read again and whatever numbers of consecutive
    evaluations are required: a rule is desired active exactly when the evaluations that
    count (samples seen before left out) ended at some point with as many bad ones in a
    row as the last of them required, and at no later point with as many good ones as
    required there.  Single outliers, values between the two thresholds and samples read
    twice neither raise nor clear a rule that requires two. *)
Theorem rule_hysteresis es :
  let counting := fresh 0 es in
  rl_DesiredActive (foldl (λ s e, evaluate e s) new_rule_state es) = true ↔
  ∃ k, (k ≤ length counting)%nat ∧ raises (take k counting) ∧ ∀ j, (k < j ≤ length counting)%nat → ¬ clears (take j counting).
Proof. cbv zeta. rewrite evaluate_fresh. apply hysteresis_counted, fresh_counted. Qed.

Section laws.
Context {C : Type} `{!Has DB C, !Has AlertTables C, !Has CallContext C}.

(** The map of the loop holds the rows of the keys it has seen. *)
Definition loaded (states : gmap RuleKey RuleState) (t : AlertTables) : Prop := states ⊆ alert_rule_states t.

Lemma load_state_default key t :
  (load_state key t).1 = t <| alert_rule_states ::= <[key := default new_rule_state (alert_rule_states t !! key)]> |>.
Proof.
  unfold load_state. destruct (alert_rule_states t !! key) as [s|] eqn:E; [|done]. simpl. rewrite insert_id by done. by destruct t.
Qed.

Definition with_rules (t : AlertTables) (m : gmap RuleKey RuleState) : AlertTables := t <| alert_rule_states := m |>.

Lemma save_state_inv key s t t' row :
  save_state key s t = Some t' → alert_rule_states t !! key = Some row → rl_Active row = rl_Active s → t' = with_rules t (<[key := s]> (alert_rule_states t)).
Proof.
  unfold save_state. destruct (_ || _); [done|]. intros [= <-] Hrow Ha. unfold with_rules. simpl.
  assert (alter (λ row, s <| rl_Active := rl_Active row |>) key (alert_rule_states t) = <[key := s]> (alert_rule_states t)) as E.
  { apply map_eq. intros k. destruct (decide (key = k)) as [<-|Hne]; [|by rewrite lookup_alter_ne, lookup_insert_ne].
    rewrite lookup_alter_eq, lookup_insert_eq, Hrow. simpl. rewrite Ha. by destruct s. }
  by rewrite <-E.
Qed.

Lemma apply_each_spec evaluations states latest (c : C) t (Q : Result (gmap RuleKey RuleState * gmap RuleKey Evaluation) → C * AlertTables → Prop) :
  loaded states t → (∀ e t', Q (Err e) (c, t')) →
  (∀ states', (∀ key, key ∈ ev_Key <$> evaluations ∨ is_Some (states !! key) → states' !! key = applied_states evaluations (alert_rule_states t) !! key) →
     Q (Ok (states', last_evaluations evaluations latest)) (c, with_rules t (applied_states evaluations (alert_rule_states t)))) →
  wp (apply_each evaluations states latest) (c, t) Q.
Proof.
  revert states latest t. induction evaluations as [|e rest IH]; intros states latest t Hl He HQ; simpl.
  { apply wp_ret. assert (with_rules t (alert_rule_states t) = t) as Et by by destruct t. rewrite <-Et at 1. apply HQ. intros key [Hk|[s Hs]]; [by apply elem_of_nil in Hk|].
    rewrite Hs. symmetry. by eapply lookup_weaken. }
  set (s := default new_rule_state (alert_rule_states t !! ev_Key e)). set (t1 := with_rules t (<[ev_Key e := s]> (alert_rule_states t))).
  assert (∀ k : RuleState → TxOn AlertTables C (gmap RuleKey RuleState * gmap RuleKey Evaluation), wp (k s) (c, t1) Q →
    wp (let! state := match states !! ev_Key e with Some state => ret state | None => loadRuleState (ev_Key e) end in k state) (c, t) Q) as Hload.
  { intros k Hk. apply wp_bind. destruct (states !! ev_Key e) as [state|] eqn:Es.
    - assert (alert_rule_states t !! ev_Key e = Some state) as Hrow by by eapply lookup_weaken. assert (s = state) as <- by (unfold s; by rewrite Hrow).
      apply wp_ret. assert (t1 = t) as E; [|by rewrite E in Hk]. unfold t1, with_rules. rewrite insert_id by done. by destruct t.
    - apply wp_bind, wp_exec; [apply He|]. intros t2 [= <-]. split; [|apply He]. rewrite load_state_default. apply wp_query_one; [apply He|].
      intros state. simpl. rewrite lookup_insert_eq. intros [= <-]. exact Hk. }
  apply Hload. clear Hload. assert (loaded states t1) as Hl1.
  { unfold loaded, t1. simpl. apply map_subseteq_spec. intros key x Hx. pose proof (lookup_weaken _ _ _ _ Hx Hl) as Hx'. destruct (decide (ev_Key e = key)) as [<-|Hne].
    - rewrite lookup_insert_eq. unfold s. by rewrite Hx'.
    - by rewrite lookup_insert_ne. }
  assert (∀ s', evaluate e s = s' → ∀ t2, t2 = with_rules t (<[ev_Key e := s']> (alert_rule_states t)) → wp (apply_each rest (<[ev_Key e := s']> states) (<[ev_Key e := e]> latest)) (c, t2) Q) as Hrest.
  { intros s' Hs' t2 ->. apply IH; [|done|].
    - apply insert_mono. exact Hl.
    - intros states' Hstates'. unfold applied_states in HQ. simpl in HQ. fold s in HQ. rewrite Hs' in HQ. apply HQ. intros key Hk. apply Hstates'.
      destruct (decide (ev_Key e = key)) as [<-|Hne]; [right; by rewrite lookup_insert_eq|]. destruct Hk as [[Hk|Hk]%elem_of_cons|Hk]; [congruence|by left|right].
      by rewrite lookup_insert_ne. }
  destruct (ev_SampleBased e && _) eqn:Eskip.
  - apply Hrest; [unfold evaluate; by rewrite Eskip|done].
  - apply wp_bind, wp_exec; [apply He|]. intros t2 Hsave. split; [|apply He]. apply Hrest; [done|].
    eapply save_state_inv in Hsave; [|simpl; by rewrite lookup_insert_eq|by rewrite evaluate_active]. rewrite Hsave. unfold with_rules, t1. simpl. by rewrite insert_insert_eq.
Qed.

Lemma elem_of_first_keys seen keys key : key ∈ first_keys seen keys ↔ key ∈ keys ∧ key ∉ seen.
Proof.
  revert seen. induction keys as [|k keys IH]; intros seen; simpl; [set_solver|]. case_bool_decide as Hk; [rewrite IH; set_solver|].
  rewrite !elem_of_cons, IH, not_elem_of_union, not_elem_of_singleton. destruct (decide (key = k)) as [->|]; naive_solver.
Qed.

Lemma first_keys_NoDup seen keys : NoDup (first_keys seen keys).
Proof.
  revert seen. induction keys as [|k keys IH]; intros seen; simpl; [constructor|]. case_bool_decide; [apply IH|]. constructor; [|apply IH].
  rewrite elem_of_first_keys. set_solver.
Qed.

Lemma omap_ext_in {A B} (f g : A → option B) (l : list A) : (∀ x, x ∈ l → f x = g x) → omap f l = omap g l.
Proof.
  induction l as [|x l IH]; intros H; [done|]. simpl. rewrite (H x) by left. assert (omap f l = omap g l) as E by (apply IH; intros y Hy; apply H; by right).
  destruct (g x); [by f_equal|done].
Qed.

(** Applying a batch of evaluations is applying them one after the other to the
    state of their rule, whatever rules the batch mixes: rules that were not evaluated
    are untouched, samples that were seen before count once, and the transitions are
    exactly the rules whose desired state differs from the one in force, in the order of
    their first evaluation.  A failure leaves the states as they were, unless only the
    reply of the commit was lost. *)
Lemma Apply_exact evaluations (c : C) :
  let rules := alert_rule_states (part c) in
  wp (Apply_ evaluations) c (λ r c', c' = set_part (part c' : AlertTables) c ∧
    (∀ ts, r = Ok ts → ts = transitions_of evaluations rules ∧ part c' = with_rules (part c) (applied_states evaluations rules)) ∧
    (part (X := AlertTables) c' = part c ∨ part c' = with_rules (part c) (applied_states evaluations rules))).
Proof.
  intros rules. apply wp_in_ctx; [intros e; rewrite set_part_same; split_and!; [done|done|by left]|].
  apply wp_transaction; [rewrite set_part_same; split_and!; [done|done|by left]|]. apply wp_bind, apply_each_spec.
  - apply map_empty_subseteq.
  - intros e t'. simpl. rewrite set_part_same. split_and!; [done|done|by left].
  - intros states' Hst. apply wp_bind, wp_commit; simpl; [rewrite set_part_same; split_and!; [done|done|by left]|apply wp_ret|]; simpl; rewrite part_set;
      (split_and!; [done| |by right]); [|done].
    intros ts [= <-]. split; [|done]. apply omap_ext_in. intros key [Hk _]%elem_of_first_keys. unfold transition_of. rewrite Hst by by left. done.
Qed.

(** *** The transitions of a scan *)

Lemma last_evaluations_lookup evaluations m key e :
  last_evaluations evaluations m !! key = Some e → (e ∈ evaluations ∧ ev_Key e = key) ∨ m !! key = Some e.
Proof.
  unfold last_evaluations. revert m. induction evaluations as [|x rest IH]; intros m; simpl; [by right|]. intros [[H1 H2]|H]%IH; [left; split; [by right|done]|].
  apply lookup_insert_Some in H as [[<- <-]|[_ H]]; [left; split; [left|done]|by right].
Qed.

Lemma last_evaluations_total evaluations m key : key ∈ ev_Key <$> evaluations → is_Some (last_evaluations evaluations m !! key).
Proof.
  unfold last_evaluations. revert m. assert (∀ rest (m : gmap RuleKey Evaluation), is_Some (m !! key) → is_Some (foldl (λ m e, <[ev_Key e := e]> m) m rest !! key)) as Hkeep.
  { intros rest. induction rest as [|x rest IH]; intros m H; [done|]. simpl. apply IH. destruct (decide (ev_Key x = key)) as [<-|]; [by rewrite lookup_insert_eq|by rewrite lookup_insert_ne]. }
  induction evaluations as [|x rest IH]; intros m; csimpl; [intros H; by apply elem_of_nil in H|]. intros [->|H]%elem_of_cons; [|by apply IH].
  apply Hkeep. by rewrite lookup_insert_eq.
Qed.

Section of_batch.
Context (evaluations : list Evaluation) (rules : gmap RuleKey RuleState).

Lemma transition_of_inv key t :
  transition_of (applied_states evaluations rules) (last_evaluations evaluations ∅) key = Some t →
  tn_Key t = key ∧ tn_Evaluation t ∈ evaluations ∧ ∃ s, applied_states evaluations rules !! key = Some s ∧ tn_DesiredActive t = rl_DesiredActive s ∧ rl_DesiredActive s ≠ rl_Active s.
Proof.
  unfold transition_of, tn_Key. destruct (applied_states _ _ !! key) as [s|]; [|done]. simpl. destruct (last_evaluations _ _ !! key) as [e|] eqn:El; [|done]. simpl.
  destruct (eqb _ _) eqn:Eq; [done|]. intros [= <-]. simpl. apply last_evaluations_lookup in El as [[H1 H2]|H]; [|done]. split_and!; [done..|]. exists s. split_and!; [done..|].
  intros E. rewrite E, eqb_reflx in Eq. done.
Qed.

Lemma elem_of_transitions t :
  t ∈ transitions_of evaluations rules →
  tn_Key t ∈ ev_Key <$> evaluations ∧ tn_Evaluation t ∈ evaluations ∧
  ∃ s, applied_states evaluations rules !! tn_Key t = Some s ∧ tn_DesiredActive t = rl_DesiredActive s ∧ rl_DesiredActive s ≠ rl_Active s.
Proof.
  intros (key & Hk & Ht)%list_elem_of_omap. apply elem_of_first_keys in Hk as [Hk _]. apply transition_of_inv in Ht as (<- & He & Hs). done.
Qed.

(** Every rule that is not in force as desired has its transition. *)
Lemma transitions_complete key s :
  key ∈ ev_Key <$> evaluations → applied_states evaluations rules !! key = Some s → rl_DesiredActive s ≠ rl_Active s → key ∈ tn_Key <$> transitions_of evaluations rules.
Proof.
  intros Hk Hs Hne. destruct (last_evaluations_total evaluations ∅ key Hk) as [e He].
  assert (transition_of (applied_states evaluations rules) (last_evaluations evaluations ∅) key = Some (mkTransition e (rl_DesiredActive s))) as Ht.
  { unfold transition_of. rewrite Hs. simpl. rewrite He. simpl. destruct (eqb _ _) eqn:Eq; [|done]. apply eqb_prop in Eq. done. }
  apply list_elem_of_fmap. exists (mkTransition e (rl_DesiredActive s)). split; [by apply transition_of_inv in Ht as [? _]|].
  apply list_elem_of_omap. exists key. split; [|done]. apply elem_of_first_keys. split; [done|set_solver].
Qed.

Lemma transitions_NoDup : NoDup (tn_Key <$> transitions_of evaluations rules).
Proof.
  unfold transitions_of. eapply sublist_NoDup; [apply (first_keys_NoDup ∅ (ev_Key <$> evaluations))|]. generalize (first_keys ∅ (ev_Key <$> evaluations)). intros keys.
  induction keys as [|key keys IH]; [done|]. simpl. destruct (transition_of _ _ key) as [t|] eqn:Et; [|by apply sublist_cons].
  apply transition_of_inv in Et as [<- _]. by apply sublist_skip.
Qed.

End of_batch.

Lemma first_keys_id seen keys : NoDup keys → (∀ key, key ∈ keys → key ∉ seen) → first_keys seen keys = keys.
Proof.
  revert seen. induction keys as [|k keys IH]; intros seen Hnd Hs; [done|]. apply NoDup_cons in Hnd as [Hk Hnd]. simpl. rewrite bool_decide_false by (apply Hs; left).
  f_equal. apply IH; [done|]. intros key Hin. apply not_elem_of_union. split; [|apply Hs; by right]. intros ->%elem_of_singleton. done.
Qed.

(** Transitions of distinct rules are taken as they are. *)
Lemma deduplicate_distinct ts : NoDup (tn_Key <$> ts) → deduplicateTransitions ts = ts.
Proof.
  intros Hnd. unfold deduplicateTransitions. rewrite first_keys_id by (done || set_solver).
  set (ins := λ (m : gmap RuleKey Transition) value, <[tn_Key value := value]> m).
  assert (∀ l m key, key ∉ tn_Key <$> l → foldl ins m l !! key = m !! key) as Hkeep.
  { intros l. induction l as [|x l IH]; intros m key Hk; [done|]. apply not_elem_of_cons in Hk as [Hx Hk]. simpl. rewrite IH by done. unfold ins. by rewrite lookup_insert_ne. }
  assert (∀ l m, NoDup (tn_Key <$> l) → ∀ t, t ∈ l → foldl ins m l !! tn_Key t = Some t) as Hlook.
  { intros l. induction l as [|x l IH]; intros m Hl t Ht; [by apply elem_of_nil in Ht|]. apply NoDup_cons in Hl as [Hx Hl]. simpl.
    apply elem_of_cons in Ht as [->|Ht]; [|by apply IH]. rewrite Hkeep by done. unfold ins. by rewrite lookup_insert_eq. }
  specialize (Hlook ts ∅ Hnd). clear Hkeep Hnd. generalize dependent (foldl ins ∅ ts). intros m Hlook. induction ts as [|t ts IH]; [done|]. simpl.
  rewrite (Hlook t) by left. f_equal. apply IH. intros t' Ht'. apply Hlook. by right.
Qed.

(** *** Alerts of rules *)

Definition about_key (key : RuleKey) (a : AlertRow) : bool := about (rk_SourceType key) (rk_SourceID key) (rk_Code key) a.

Definition open_alert (key : RuleKey) (t : AlertTables) : Prop := ∃ id a, alerts_rows t !! id = Some a ∧ about_key key a = true ∧ at_status a = StatusOpen.

Lemma about_key_inj key key' a : about_key key a = true → about_key key' a = true → key = key'.
Proof.
  unfold about_key, about. destruct key, key'. rewrite !andb_true_iff, !bool_decide_eq_true. simpl. intros [[<- <-] <-] [[<- <-] <-]. done.
Qed.

Lemma raised_keeps_open event now t t' key : raised event now t t' → open_alert key t → open_alert key t'.
Proof.
  intros [(id' & b & (Hb & _ & Hbs & _) & _ & ->)|(id' & _ & Hn & Hrows & _)] (id & a & Ha & Hk & Hs).
  - destruct (decide (id' = id)) as [->|Hne].
    + eexists id, _. simpl. rewrite lookup_insert_eq. split; [done|]. simplify_eq. done.
    + exists id, a. simpl. by rewrite lookup_insert_ne.
  - exists id, a. rewrite Hrows, lookup_insert_ne by congruence. done.
Qed.

Lemma raised_opens event now t t' : raised event now t t' → open_alert (mkRuleKey (al_Code event) (al_ResourceType event) (al_ResourceID event)) t'.
Proof.
  intros [(id & b & (Hb & He%of_event_same & _) & _ & ->)|(id & _ & _ & Hrows & _)]; eexists id, _.
  - simpl. rewrite lookup_insert_eq. done.
  - rewrite Hrows, lookup_insert_eq. split_and!; [done| |done]. unfold about_key, about. simpl. by rewrite !bool_decide_true.
Qed.

Lemma resolved_keeps_open rt ri code now t t' key :
  resolved rt ri code now t t' → key ≠ mkRuleKey code rt ri → open_alert key t → open_alert key t'.
Proof.
  unfold resolved. intros Hr Hne (id & a & Ha & Hk & Hs). destruct (resolve_target _ _ _ _) as [[id' b]|] eqn:E; [|subst; by exists id, a].
  apply resolve_target_inv in E as (Hb & He & _). destruct Hr as [Hrows _]. exists id, a. rewrite Hrows, lookup_insert_ne; [done|]. intros ->. simplify_eq.
  destruct Hne. by eapply about_key_inj.
Qed.

(** The event of an evaluation is about the key of its rule. *)
Definition own_event (e : Evaluation) : Prop := mkRuleKey (al_Code (ev_Event e)) (al_ResourceType (ev_Event e)) (al_ResourceID (ev_Event e)) = ev_Key e.

Lemma evaluateSnapshot_own snapshot now e : e ∈ evaluateSnapshot snapshot now → own_event e.
Proof.
  unfold evaluateSnapshot. rewrite elem_of_app, !list_elem_of_bind. intros [(server & He & _)|(run & He & _)].
  - unfold evaluate_server in He. apply elem_of_cons in He as [->|He]; [done|]. destruct (negb _).
    + by apply elem_of_cons in He as [->|[->|He%elem_of_nil]%elem_of_cons].
    + apply list_elem_of_bind in He as (sample & He & _). unfold evaluate_sample in He. destruct (_ || _); [by apply elem_of_nil in He|].
      apply elem_of_app in He as [He|He]; (destruct (_ <? _); [|by apply elem_of_nil in He]); by apply list_elem_of_singleton in He as ->.
  - unfold evaluate_run in He. apply elem_of_cons in He as [->|He]; [done|]. destruct (bool_decide _); [|by apply elem_of_nil in He].
    by apply list_elem_of_singleton in He as ->.
Qed.

(** *** Putting the transitions into force *)

Lemma Resolve_exact rt ri code (c : C) :
  alerting_ok (part c) →
  wp (Resolve rt ri code) c (λ r c', alert_step (part c) (part c') ∧ (r = Ok tt → ∃ now, resolved rt ri code now (part c) (part c'))).
Proof.
  intros Hok. unfold Resolve. destruct (_ || _); [by apply wp_throw|]. apply wp_bind, wp_clock_now. intros now.
  apply wp_bind, wp_new_uuid; [done|]. intros outboxID. apply wp_bind, wp_clock_now. intros dbnow. apply wp_pool; [done|]. intros t u H.
  destruct (resolve_alert _ _ _ _ _ _ _) as [t1|] eqn:E; [|done]. injection H as -> _. rewrite part_set. pose proof (resolve_alert_step _ _ _ _ _ _ _ _ E).
  split; [|done]. split; [done|]. intros _. exists now. by eapply resolve_alert_exact.
Qed.

Lemma Raise_exact event (c : C) :
  alerting_ok (part c) → wp (Raise event) c (λ r c', alert_step (part c) (part c') ∧ (r = Ok tt → ∃ now, raised event now (part c) (part c'))).
Proof.
  intros Hok. unfold Raise. destruct (negb _); [by apply wp_throw|]. apply wp_bind, wp_clock_now. intros now.
  eapply wp_mono; [apply wp_conj; [apply MergeOrCreate_exact|apply MergeOrCreate_moves]|]. intros r c' [[_ He] [_ Hs]]. split; [done|].
  intros Hr. exists now. by apply (proj1 (He Hok)).
Qed.

(** What a transition does when it succeeds. *)
Definition in_force (t : Transition) (d d' : AlertTables) : Prop :=
  (tn_DesiredActive t = true → own_event (tn_Evaluation t) → open_alert (tn_Key t) d') ∧
  (∀ key, key ≠ tn_Key t → open_alert key d → open_alert key d').

Lemma applyTransition_spec t (c : C) :
  alerting_ok (part c) → own_event (tn_Evaluation t) →
  wp (applyTransition t) c (λ r c', alert_step (part c) (part c') ∧ (r = Ok tt → in_force t (part c) (part c'))).
Proof.
  intros Hok Hown. unfold applyTransition. destruct (tn_DesiredActive t) eqn:Ed; (apply wp_in_ctx; [done|]).
  - eapply wp_mono; [by apply Raise_exact|]. intros r c' [Hs Hr]. split; [done|]. intros Hok'. destruct (Hr Hok') as [now Hr']. split.
    + intros _ _. unfold tn_Key. rewrite <-Hown. by eapply raised_opens.
    + intros key _. by eapply raised_keeps_open.
  - eapply wp_mono; [by apply Resolve_exact|]. intros r c' [Hs Hr]. split; [done|]. intros Hok'. destruct (Hr Hok') as [now Hr']. split; [by rewrite Ed|].
    intros key Hne. eapply resolved_keeps_open; [exact Hr'|]. unfold tn_Key in *. by destruct (ev_Key _).
Qed.

Definition settle (s : RuleState) : RuleState := s <| rl_Active := rl_DesiredActive s |>.

Lemma apply_transitions_spec ts (c : C) :
  alerting_ok (part c) → NoDup (tn_Key <$> ts) → (∀ t, t ∈ ts → own_event (tn_Evaluation t)) →
  (∀ t, t ∈ ts → ∃ s, alert_rule_states (part c) !! tn_Key t = Some s ∧ rl_DesiredActive s = tn_DesiredActive t) →
  wp (apply_transitions ts) c (λ r c', r = Ok [] →
    (∀ key, alert_rule_states (part c') !! key = if bool_decide (key ∈ tn_Key <$> ts) then settle <$> alert_rule_states (part c) !! key else alert_rule_states (part c) !! key) ∧
    (∀ t, t ∈ ts → tn_DesiredActive t = true → open_alert (tn_Key t) (part c')) ∧
    (∀ key, key ∉ tn_Key <$> ts → open_alert key (part c) → open_alert key (part c'))).
Proof.
  revert c. induction ts as [|t ts IH]; intros c Hok Hnd Hown Hst.
  { apply wp_ret. intros _. split_and!; [done| |done]. intros t Ht. by apply elem_of_nil in Ht. }
  apply NoDup_cons in Hnd as [Hk Hnd]. simpl. apply wp_bind, wp_catch. eapply wp_mono; [apply applyTransition_spec; [done|apply Hown; left]|].
  intros [[]|e] c1 [[[_ Hrules] Hstep] Hforce].
  2: { apply wp_bind. eapply wp_mono; [apply wp_any|]. intros [fs|e'] c2 _; [by apply wp_ret|done]. }
  destruct (Hforce eq_refl) as [Hf1 Hf2]. destruct (Hstep Hok) as [Hok1 _]. apply wp_bind, wp_catch, wp_in_ctx.
  { intros e. simpl. apply wp_bind. eapply wp_mono; [apply wp_any|]. intros [fs|e'] c2 _; [by apply wp_ret|done]. }
  apply wp_pool; simpl.
  { apply wp_bind. eapply wp_mono; [apply wp_any|]. intros [fs|e'] c2 _; [by apply wp_ret|done]. }
  intros t2 u [= <- _]. split; cycle 1.
  { apply wp_bind. eapply wp_mono; [apply wp_any|]. intros [fs|e'] c2 _; [by apply wp_ret|done]. }
  destruct (Hst t) as (s & Hs & Hd); [left|]. rewrite <-Hrules in Hs.
  assert (mark_applied (tn_Key t) (tn_DesiredActive t) (part c1) = with_rules (part c1) (<[tn_Key t := settle s]> (alert_rule_states (part c1)))) as Hm.
  { unfold mark_applied. rewrite Hs, Hd, eqb_reflx. unfold with_rules, settle. by rewrite Hd. }
  assert (alerting_ok (with_rules (part c1) (<[tn_Key t := settle s]> (alert_rule_states (part c1))))) as Hok2 by (destruct Hok1; by split).
  rewrite Hm. apply wp_bind. eapply wp_mono; [apply IH; rewrite ?part_set; [done|done|intros t' Ht'; apply Hown; by right|]|].
  - intros t' Ht'. destruct (Hst t') as (s' & Hs' & Hd'); [by right|]. exists s'. simpl. rewrite lookup_insert_ne, Hrules; [done|].
    intros E. destruct Hk. rewrite E. apply list_elem_of_fmap. by exists t'.
  - intros [fs|e'] c2 H2; [|done]. apply wp_ret. intros [= ->]. rewrite part_set in H2. simpl in H2. destruct (H2 eq_refl) as (R1 & R2 & R3). split_and!.
    + intros key. rewrite R1. destruct (decide (tn_Key t = key)) as [<-|Hne].
      * rewrite bool_decide_false, (bool_decide_true (_ ∈ tn_Key t :: _)), lookup_insert_eq, <-Hrules, Hs by (done || left). done.
      * rewrite lookup_insert_ne, Hrules by done. destruct (bool_decide (key ∈ tn_Key <$> ts)) eqn:B1.
        -- apply bool_decide_eq_true in B1. rewrite bool_decide_true; [done|by right].
        -- apply bool_decide_eq_false in B1. rewrite bool_decide_false; [done|]. intros [?|?]%elem_of_cons; [congruence|done].
    + intros t' [->|Ht']%elem_of_cons Hdes; [|by apply R2]. apply R3; [done|]. apply Hf1; [done|]. apply Hown. left.
    + intros key [Hne Hni]%not_elem_of_cons Ho. apply R3; [done|]. by apply Hf2.
Qed.

(** *** A scan *)

(** What the three queries of a snapshot read. *)
Definition snapshot_at (now : Time) (d : DB) (t : AlertTables) : RuleSnapshot :=
  mkRuleSnapshot
    ((λ s, mkServerObservation (so_ID s) (so_Name s) (so_Enabled s) (so_Draining s) (so_LastSeenAt s) (samples_of (so_ID s) d)) <$> observed_servers d t)
    (observed_runs now d t).

Lemma Snapshot_spec now (c : C) : wp (Snapshot_ now) c (λ r c', c' = c ∧ ∀ snapshot, r = Ok snapshot → snapshot = snapshot_at now (part c) (part c)).
Proof.
  apply wp_bind, wp_in_ctx; [done|]. apply wp_observe; [done|]. apply wp_bind. unfold snapshot_at.
  destruct (observed_servers _ _) as [|server rest]; [apply wp_ret|apply wp_in_ctx; [done|]; apply wp_observe; [done|]];
    (apply wp_bind, wp_in_ctx; [done|]; apply wp_observe; [done|]; apply wp_ret; split; [done|by intros snapshot [= <-]]).
Qed.

Lemma settle_same s : rl_DesiredActive s = rl_Active s → settle s = s.
Proof. unfold settle. intros ->. by destruct s. Qed.

Lemma transitions_settle evaluations rules key :
  (if bool_decide (key ∈ tn_Key <$> transitions_of evaluations rules)
   then settle <$> applied_states evaluations rules !! key else applied_states evaluations rules !! key) =
  if bool_decide (key ∈ ev_Key <$> evaluations) then Some (settle (rule_after key evaluations (default new_rule_state (rules !! key)))) else rules !! key.
Proof.
  pose proof (applied_states_lookup evaluations rules key) as Hl. destruct (bool_decide (key ∈ ev_Key <$> evaluations)) eqn:Bk.
  - apply bool_decide_eq_true in Bk. rewrite Hl. destruct (bool_decide (key ∈ tn_Key <$> transitions_of _ _)) eqn:Bt; [done|]. apply bool_decide_eq_false in Bt.
    f_equal. symmetry. apply settle_same. set (s := rule_after _ _ _) in *. destruct (decide (rl_DesiredActive s = rl_Active s)) as [|Hne]; [done|].
    destruct Bt. by eapply transitions_complete.
  - rewrite bool_decide_false; [done|]. apply bool_decide_eq_false in Bk. intros (t & -> & Ht)%list_elem_of_fmap. by apply elem_of_transitions in Ht as [? _].
Qed.

(** The state of a rule after a scan: its evaluations one after the other, and then in
    force what they ask for. *)
Definition scanned (evaluations : list Evaluation) (rules : gmap RuleKey RuleState) (key : RuleKey) : option RuleState :=
  if bool_decide (key ∈ ev_Key <$> evaluations) then Some (settle (rule_after key evaluations (default new_rule_state (rules !! key)))) else rules !! key.

Definition in_force_before (rules : gmap RuleKey RuleState) (key : RuleKey) : bool := match rules !! key with Some s => rl_Active s | None => false end.

Lemma rule_after_active key evaluations s : rl_Active (rule_after key evaluations s) = rl_Active s.
Proof. unfold rule_after. revert s. induction (filter _ evaluations) as [|e rest IH]; intros s; [done|]. simpl. by rewrite IH, evaluate_active. Qed.

Lemma applied_active evaluations rules key s : applied_states evaluations rules !! key = Some s → rl_Active s = in_force_before rules key.
Proof.
  rewrite applied_states_lookup. unfold in_force_before. destruct (bool_decide _); [|by intros ->]. intros [= <-]. rewrite rule_after_active. by destruct (rules !! key).
Qed.

(** C15: A scan that reports no error leaves the state of every rule it evaluated as the
    evaluations of that rule, one after the other, make it, with the state in force equal
    to the desired one, and every other rule untouched; a rule that it put into force has
    an open alert, and no open alert of a rule that it did not clear is closed. *)
Theorem Scan_settles (c : C) :
  alerting_ok (part c) →
  wp Rules_Scan c (λ r c', r = Ok tt → ∃ now, let rules := alert_rule_states (part c) in
    let evaluations := evaluateSnapshot (snapshot_at now (part c) (part c)) now in
    (∀ key, alert_rule_states (part c') !! key = scanned evaluations rules key) ∧
    (∀ key s, scanned evaluations rules key = Some s → rl_Active s = true → in_force_before rules key = false → open_alert key (part c')) ∧
    (∀ key s, scanned evaluations rules key = Some s → rl_Active s = true → open_alert key (part c) → open_alert key (part c'))).
Proof.
  intros Hok. apply wp_bind, wp_clock_now. intros now. apply wp_bind. eapply wp_mono; [apply Snapshot_spec|]. intros [snapshot|e] c1 [-> Hsn]; [|done].
  specialize (Hsn _ eq_refl) as ->. apply wp_bind. eapply wp_mono; [apply Apply_exact|]. cbv zeta.
  set (evals := evaluateSnapshot _ _). set (rules := alert_rule_states (part c)). intros [ts|e] c1 (_ & Hts & _); [|done]. destruct (Hts _ eq_refl) as [-> Hc1].
  pose proof (transitions_NoDup evals rules) as Hnd. rewrite deduplicate_distinct by done.
  assert (alerting_ok (part c1)) as Hok1 by (rewrite Hc1; destruct Hok; by split).
  apply wp_bind. eapply wp_mono; [apply apply_transitions_spec; [done|done| |]|].
  - intros t (_ & He & _)%elem_of_transitions. by eapply evaluateSnapshot_own.
  - intros t (_ & _ & s & Hs & Hd & _)%elem_of_transitions. exists s. by rewrite Hc1.
  - intros [fs|e] c2 H; [|done]. destruct fs; [|by apply wp_throw]. apply wp_ret. intros _. destruct (H eq_refl) as (R1 & R2 & R3). exists now. fold evals.
    assert (∀ key, scanned evals rules key = (if bool_decide (key ∈ tn_Key <$> transitions_of evals rules)
      then settle <$> applied_states evals rules !! key else applied_states evals rules !! key)) as Hsc by (intros key; symmetry; apply transitions_settle).
    rewrite Hc1 in R1, R3.
    assert (∀ key s, scanned evals rules key = Some s → rl_Active s = true → key ∈ tn_Key <$> transitions_of evals rules → open_alert key (part c2)) as Hraised.
    { intros key s Hs Ha Hin. rewrite Hsc, bool_decide_true in Hs by done. apply list_elem_of_fmap in Hin as (t & -> & Ht). apply R2; [done|].
      apply elem_of_transitions in Ht as (_ & _ & s0 & Hs0 & -> & _). rewrite Hs0 in Hs. by injection Hs as <-. }
    split_and!.
    + intros key. by rewrite R1, Hsc.
    + intros key s Hs Ha Hb. destruct (decide (key ∈ tn_Key <$> transitions_of evals rules)) as [Hin|Hout].
      * by eapply Hraised.
      * exfalso. rewrite Hsc, bool_decide_false in Hs by done. apply applied_active in Hs. congruence.
    + intros key s Hs Ha Ho. destruct (decide (key ∈ tn_Key <$> transitions_of evals rules)) as [Hin|Hout]; [by eapply Hraised|by apply R3].
Qed.

End laws.

(** ** Operating the console *)

(** What the handlers and the loop call. *)
Inductive Operation : Type :=
  | ORaise (event : AlertEvent)
  | OResolve (resourceType resourceID code : string)
  | OAcknowledge (id userID : string)
  | OConfigure (actorID : string) (input : FeishuConfigInput)
  | OTest (actorID requestID : string)
  | OControl.

Section operations.
Context {C : Type} `{!Has DB C, !Has SecretTables C, !Has AlertTables C, !Has CallContext C}.
Context `{!Apart AlertTables SecretTables C, !Apart SecretTables AlertTables C, !Apart CallContext AlertTables C, !Apart CallContext SecretTables C}.
Context `{aead : !AEAD, api : !FeishuAPI C, law : !FeishuLaw, uuids : !UUIDs} (read_file : string → option string) (keys : FileKeyProvider).

(** The health endpoint has no tables. *)
Context `{health : !SuccessRecorder C} (health_same : ∀ mark now (c : C), mark_successful_scan = Some mark → wp (mark now) c (λ _ c', c' = c)).

Definition operate (operation : Operation) : Prog C unit :=
  match operation with
  | ORaise event => ignore (Raise event)
  | OResolve resourceType resourceID code => ignore (Resolve resourceType resourceID code)
  | OAcknowledge id userID => ignore (Acknowledge id userID)
  | OConfigure actorID input => ignore (Config_Update read_file keys actorID input)
  | OTest actorID requestID => ignore (EnqueueTest actorID requestID)
  | OControl => ignore (runControlOnce read_file keys)
  end.

Lemma step_rules (c : C) m :
  (∀ key, is_Some (alert_rule_states (part c) !! key) → is_Some (m !! key)) → ops_step c (set_part (with_rules (part c) m) c).
Proof.
  intros H. split; rewrite ?part_set, ?apart; [|done..|done]. intros [A1 A2 A3 A4]. split; [by split|]. split; intros id x Hx; by exists x.
Qed.

Lemma ops_Snapshot now : ops_keeps (Snapshot_ now).
Proof. apply ops_same. intros c. eapply wp_mono; [apply Snapshot_spec|]. by intros r c' [-> _]. Qed.

Lemma ops_Apply evaluations : ops_keeps (Apply_ evaluations).
Proof.
  intros c. eapply wp_mono; [apply Apply_exact|]. cbv zeta. intros r c' (Hc' & _ & [E|E]); rewrite E in Hc'; subst c'; [by rewrite set_part_same|].
  apply step_rules. intros key Hk. rewrite applied_states_lookup. by destruct (bool_decide _).
Qed.

Lemma ops_MarkApplied key desired : ops_keeps (MarkApplied key desired).
Proof.
  apply ops_in_ctx. intros c. apply wp_pool; [done|]. intros t u [= <- _]. assert (ops_step c (set_part (mark_applied key desired (part c)) c)) as H; [|done].
  unfold mark_applied. destruct (alert_rule_states (part c) !! key) as [s|] eqn:Es; [|by rewrite set_part_same]. destruct (eqb _ _); [|by rewrite set_part_same].
  apply step_rules. intros k Hk. destruct (decide (key = k)) as [<-|Hne]; [by rewrite lookup_insert_eq|by rewrite lookup_insert_ne].
Qed.

Lemma ops_Raise event : ops_keeps (Raise event).
Proof.
  unfold Raise. destruct (negb _); [apply ops_throw|]. apply ops_bind; [apply ops_clock|]. intros now. apply ops_moves, MergeOrCreate_moves.
Qed.

Lemma ops_Resolve rt ri code : ops_keeps (Resolve rt ri code).
Proof.
  unfold Resolve. destruct (_ || _); [apply ops_throw|]. apply ops_bind; [apply ops_clock|]. intros now. apply ops_moves, Resolve_moves.
Qed.

Lemma ops_Acknowledge id userID : ops_keeps (Acknowledge id userID).
Proof.
  unfold Acknowledge. destruct (_ || _); [apply ops_throw|]. apply ops_bind; [apply ops_clock|]. intros now. apply ops_moves, Acknowledge_moves.
Qed.

Lemma ops_applyTransition t : ops_keeps (applyTransition t).
Proof. unfold applyTransition. destruct (tn_DesiredActive t); apply ops_in_ctx; [apply ops_Raise|apply ops_Resolve]. Qed.

Lemma ops_apply_transitions ts : ops_keeps (apply_transitions ts).
Proof.
  induction ts as [|t ts IH]; [apply ops_ret|]. apply ops_bind; [apply ops_catch, ops_applyTransition|]. intros [[]|e].
  - apply ops_bind; [apply ops_catch, ops_MarkApplied|]. intros marked. apply ops_bind; [apply IH|]. intros fs. apply ops_ret.
  - apply ops_bind; [apply IH|]. intros fs. apply ops_ret.
Qed.

Lemma ops_Scan : ops_keeps Rules_Scan.
Proof.
  apply ops_bind; [apply ops_clock|]. intros now. apply ops_bind; [apply ops_Snapshot|]. intros snapshot. apply ops_bind; [apply ops_Apply|].
  intros ts. apply ops_bind; [apply ops_apply_transitions|]. intros [|e fs]; [apply ops_ret|apply ops_throw].
Qed.

Lemma ops_with_timeout {A} (m : Prog C A) : ops_keeps m → ops_keeps (with_timeout m).
Proof. intros H. apply ops_bind; [|by intros _]. intros c. apply wp_local. apply step_ctx. Qed.

Lemma ops_Control : ops_keeps (runControlOnce read_file keys).
Proof.
  apply ops_bind; [apply ops_catch, ops_with_timeout, ops_Scan|]. intros rules. apply ops_bind; [apply ops_catch, ops_with_timeout, ops_DeliverDue|].
  intros outbox. apply ops_bind; [|intros _; apply ops_ret]. unfold record_success. destruct mark_successful_scan as [mark|] eqn:Em; [|apply ops_ret].
  destruct (_ || _); [|apply ops_ret]. apply ops_bind; [apply ops_clock|]. intros now. apply ops_same. intros c. by apply health_same.
Qed.

Lemma ops_operate operation : ops_keeps (operate operation).
Proof.
  destruct operation; apply ops_ignore; [apply ops_Raise|apply ops_Resolve|apply ops_Acknowledge|apply ops_Update|apply ops_test|apply ops_Control].
Qed.

(** C14: Whatever is raised, resolved, acknowledged, configured, tested, scanned and
    delivered, in whatever order and whatever fails, the tables of the alerts stay well
    formed, the notification configuration keeps naming secrets that exist, resolved
    alerts stay resolved and a delivery that was sent or given up is not touched again. *)
Theorem operations_invariant operations (c : C) :
  alerting_ok (part c) → secrets_ok (part c) → config_ok (part c) (part c) →
  wp (for_each operations operate) c (λ _ c',
    alerting_ok (part c') ∧ secrets_ok (part c') ∧ config_ok (part c') (part c') ∧ alerting_evolves (part c) (part c')).
Proof.
  intros Ha Hs Hc. eapply wp_mono; [apply ops_for_each, ops_operate|]. intros r c' [S1 S2 S3 _]. destruct (S1 Ha) as [Ha' He]. auto.
Qed.

(** A run that a rule once had a state of is read by every later scan, whatever its
    state and however old it is: no operation removes the state of a rule, and the last
    condition of the query takes every run that has one, although the condition before
    it leaves out the failed runs that were evaluated. *)
Theorem scanned_for_ever operations (c : C) id code :
  is_Some (alert_rule_states (part c) !! mkRuleKey code "run" id) →
  wp (for_each operations operate) c (λ _ c', ∀ now row, run_observed now (part c') id row = true).
Proof.
  intros Hst. eapply wp_mono; [apply ops_for_each, ops_operate|]. intros r c' [_ _ _ Hr] now row. destruct (Hr _ Hst) as [s Hs].
  assert (ruled "run" id (part c') = true) as Hru; [|unfold run_observed; by rewrite Hru, orb_true_r]. apply existsb_exists. exists (mkRuleKey code "run" id, s).
  split; [|simpl; by rewrite !bool_decide_true]. apply list_elem_of_In. by apply elem_of_map_to_list.
Qed.

End operations.

(** ** Examples *)

#[local] Existing Instances plain_aead any_uuid.

Definition no_health : SuccessRecorder Console := {| mark_successful_scan := None |}.

Lemma no_health_same mark now (c : Console) : mark_successful_scan (SuccessRecorder := no_health) = Some mark → wp (mark now) c (λ _ c', c' = c).
Proof. done. Qed.

(** A server that was never seen. *)
Definition silent_server : Console :=
  mkConsole (empty_tables <| servers := {["srv-9" := new_server "node" "" "" ∅]} |>) (co_secrets console) (co_alerts console) (mkCallContext false).

Lemma silent_server_ok : alerting_ok (part (C := Console) silent_server).
Proof. exact console_alerting_ok. Qed.

Definition offline_key : RuleKey := mkRuleKey "agent_offline" "server" "srv-9".

Abbreviation scanned_server := (Rules_Scan (C := Console) (silent_server, calm ["alert-9"; "delivery-9"] 10)).

Lemma Scan_settles_witness :
  (rl_Active <$> alert_rule_states (co_alerts scanned_server.1.1) !! offline_key) = Some true ∧ open_alert offline_key (part (C := Console) scanned_server.1.1).
Proof.
  assert (scanned_server.2 = Ok tt) as Hr by (vm_compute; reflexivity).
  assert ((rl_Active <$> alert_rule_states (part (C := Console) scanned_server.1.1) !! offline_key) = Some true) as Ha by (vm_compute; reflexivity). split; [exact Ha|].
  pose proof (wp_result _ _ _ (calm ["alert-9"; "delivery-9"] 10) (Scan_settles silent_server silent_server_ok)) as H.
  revert Hr Ha H. generalize scanned_server. intros run Hr Ha H. destruct (H Hr) as (now & H1 & H2 & _). clear H.
  rewrite H1 in Ha. destruct (scanned _ _ offline_key) as [s|] eqn:Es; [|discriminate Ha]. apply (H2 _ s Es); [by injection Ha|vm_compute; reflexivity].
Defined.

Definition memory_sample (at_ : Time) (bad good : bool) : Evaluation :=
  mkEvaluation (mkRuleKey "memory_low" "server" "srv-1") bad good (Some (float_of_int 5)) at_ 2 true disk_event.

(** Bad, good, bad, bad, and between the thresholds. *)
Definition memory_samples : list Evaluation :=
  [memory_sample 1 true false; memory_sample 2 false true; memory_sample 3 true false; memory_sample 4 true false; memory_sample 5 false false].

(** The last sample read again and again does not raise the rule; a second one does. *)
Lemma rule_hysteresis_example :
  rl_DesiredActive (foldl (λ s e, evaluate e s) new_rule_state (take 3 memory_samples ++ take 3 memory_samples)) = false ∧
  rl_DesiredActive (foldl (λ s e, evaluate e s) new_rule_state (take 3 memory_samples ++ memory_samples)) = true.
Proof. vm_compute. split; reflexivity. Qed.

Definition evening : list Operation :=
  [OControl; OAcknowledge "alert-1" "user-1"; OTest "user-1" test_request; ORaise disk_event; OControl; OResolve "server" "srv-1" "disk_low"; OControl].

Lemma silent_server_secrets : secrets_ok (part (C := Console) silent_server) ∧ config_ok (part (C := Console) silent_server) (part (C := Console) silent_server).
Proof. 
  destruct console_usable as (Hsok & webhook & signing & (row & wrow & srow & w & s & Hconf & _ & _ & _ & Hw & _ & Hs & _) & _). split; [exact Hsok|].
  unfold config_ok. change (part (C := Console) (X := AlertTables) silent_server) with (part (C := Console) (X := AlertTables) console).
  change (part (C := Console) (X := SecretTables) silent_server) with (part (C := Console) (X := SecretTables) console). rewrite Hconf, Hw, Hs. by split.
Qed.

Abbreviation operated := (for_each evening (operate (C := Console) (api := answering) (health := no_health) key_file vault_keys)
  (silent_server, calm ["alert-9"; "delivery-9"; "delivery-10"; "delivery-11"; "delivery-12"] 10)).

Lemma operations_invariant_witness :
  operated.2 = Ok tt ∧ (ox_status <$> notification_outbox (co_alerts operated.1.1) !! "delivery-9") = Some DeliverySent ∧
  alerting_ok (part (C := Console) operated.1.1).
Proof.
  split; [vm_compute; reflexivity|]. split; [vm_compute; reflexivity|].
  destruct silent_server_secrets as [Hs Hc].
  exact (proj1 (wp_result _ _ _ _ (operations_invariant (api := answering) (law := answering_law) (health := no_health) key_file vault_keys no_health_same
    evening silent_server silent_server_ok Hs Hc))).
Defined.

(** A run that failed, once evaluated. *)
Definition failed_run : Console :=
  mkConsole empty_tables (co_secrets console) ((co_alerts console) <| alert_rule_states := {[mkRuleKey "task_failed" "run" "run-1" := new_rule_state]} |>) (mkCallContext false).

Lemma scanned_for_ever_witness :
  is_Some (alert_rule_states (part (C := Console) failed_run) !! mkRuleKey "task_failed" "run" "run-1") ∧ ∀ row, run_observed (10 ^ 18) (part (C := Console) (for_each evening (operate (C := Console) (api := answering) (health := no_health) key_file vault_keys) (failed_run, calm [] 10)).1.1) "run-1" row = true.
Proof.
  assert (is_Some (alert_rule_states (part (C := Console) failed_run) !! mkRuleKey "task_failed" "run" "run-1")) as H by (vm_compute; by eexists).
  split; [exact H|].
  exact (wp_result _ _ _ (calm [] 10) (scanned_for_ever (api := answering) (law := answering_law) (health := no_health) key_file vault_keys no_health_same
    evening failed_run "run-1" "task_failed" H) (10 ^ 18)).
Defined.
