(* ===== verification/Backups.v ===== *)
(** * Backups

    [internal/backup]: the backups of the platform and the checks that they can be
    restored, as states in PostgreSQL ([postgres.go]) and as the service that works on
    them ([service.go], [retention.go], and the free space of [config.go]).

    What runs pg_dump, mc, restic and psql stays behind the interfaces of the source:
    [BackupTools] has the methods of [DataExporter], [LocalSnapshotter],
    [RemoteSnapshotter], [RetentionRepository] and [BackupVerifier], and the calls of the
    file system.  They let the context of the call run out, and change nothing else of the
    state.  The service is the one [cmd/ops] builds, with all of its parts. *)

From S2P Require Import Prelude GoStd GoPath GoFloat GoCrypto Model World Schema Session SchedulerService Redaction Secrets Accounts Alerts Notifications OpsRules.

(** ** model.go *)

Definition TriggerScheduled : string := "scheduled".
Definition TriggerManual : string := "manual".

Definition StatusQueued : string := "queued".
Definition StatusExporting : string := "exporting".
Definition StatusSnapshotting : string := "snapshotting".
Definition StatusUploading : string := "uploading".
Definition StatusSucceeded : string := "succeeded".
Definition StatusDegraded : string := "degraded".
Definition StatusFailed : string := "failed".

Definition VerificationQueued : string := "queued".
Definition VerificationRestoring : string := "restoring".
Definition VerificationChecking : string := "checking".
Definition VerificationSucceeded : string := "succeeded".
Definition VerificationFailed : string := "failed".

Definition ErrUnavailable : Error := EOther "备份服务尚未配置".
Definition ErrInvalidRequest : Error := EOther "备份请求无效".
Definition ErrInvalidTransition : Error := EOther "备份状态转换无效".

Record BackupRun : Type := mkBackupRun {
  bn_ID : string; bn_TriggerType : string; bn_Status : string; bn_ScheduledFor : option Time; bn_RequestedBy : string;
  bn_LocalSnapshotID : string; bn_COSSnapshotID : string; bn_ManifestSHA256 : string; bn_ByteSize : Z; bn_ObjectCount : Z;
  bn_Attempts : Z; bn_NextAttemptAt : Time; bn_LeaseUntil : option Time; bn_ErrorMessage : string;
  bn_StartedAt : option Time; bn_FinishedAt : option Time; bn_CreatedAt : Time; bn_UpdatedAt : Time
}.

#[export] Instance eta_BackupRun : Eta BackupRun := λ r,
  mkBackupRun (bn_ID r) (bn_TriggerType r) (bn_Status r) (bn_ScheduledFor r) (bn_RequestedBy r) (bn_LocalSnapshotID r) (bn_COSSnapshotID r)
    (bn_ManifestSHA256 r) (bn_ByteSize r) (bn_ObjectCount r) (bn_Attempts r) (bn_NextAttemptAt r) (bn_LeaseUntil r) (bn_ErrorMessage r)
    (bn_StartedAt r) (bn_FinishedAt r) (bn_CreatedAt r) (bn_UpdatedAt r).

Record RestoreVerification : Type := mkRestoreVerification {
  rv_ID : string; rv_BackupRunID : string; rv_TriggerType : string; rv_Status : string; rv_ScheduledFor : option Time; rv_RequestedBy : string;
  rv_TemporaryDatabase : string; rv_MigrationVersion : string; rv_CheckedObjects : Z; rv_LeaseUntil : option Time; rv_ErrorMessage : string;
  rv_StartedAt : option Time; rv_FinishedAt : option Time; rv_CreatedAt : Time; rv_UpdatedAt : Time
}.

Record SnapshotResult : Type := mkSnapshotResult { sn_SnapshotID : string; sn_ManifestSHA256 : string; sn_ByteSize : Z; sn_ObjectCount : Z }.

Record VerificationResult : Type := mkVerificationResult {
  vt_VerificationID : string; vt_TemporaryDatabase : string; vt_MigrationVersion : string; vt_CheckedObjects : Z; vt_ErrorMessage : string
}.

#[export] Instance eta_VerificationResult : Eta VerificationResult := λ r,
  mkVerificationResult (vt_VerificationID r) (vt_TemporaryDatabase r) (vt_MigrationVersion r) (vt_CheckedObjects r) (vt_ErrorMessage r).

Record Summary : Type := mkSummary {
  sm_Status : string; sm_NextBackupAt : option Time; sm_LatestLocalBackup : option BackupRun; sm_LatestCOSBackup : option BackupRun;
  sm_LatestVerification : option RestoreVerification
}.

(** ** The tables of migration 000012 *)

Record BackupRow : Type := mkBackupRow {
  bk_trigger_type : string; bk_status : string; bk_scheduled_for : option Time; bk_idempotency_key : option string; bk_requested_by : option string;
  bk_local_snapshot_id : string; bk_cos_snapshot_id : string; bk_manifest_sha256 : string; bk_byte_size : Z; bk_object_count : Z;
  bk_attempts : Z; bk_next_attempt_at : Time; bk_lease_until : option Time; bk_error_message : string;
  bk_started_at : option Time; bk_finished_at : option Time; bk_created_at : Time; bk_updated_at : Time
}.

#[export] Instance eta_BackupRow : Eta BackupRow := λ r,
  mkBackupRow (bk_trigger_type r) (bk_status r) (bk_scheduled_for r) (bk_idempotency_key r) (bk_requested_by r) (bk_local_snapshot_id r)
    (bk_cos_snapshot_id r) (bk_manifest_sha256 r) (bk_byte_size r) (bk_object_count r) (bk_attempts r) (bk_next_attempt_at r) (bk_lease_until r)
    (bk_error_message r) (bk_started_at r) (bk_finished_at r) (bk_created_at r) (bk_updated_at r).

Record VerificationRow : Type := mkVerificationRow {
  vf_backup_run_id : string; vf_trigger_type : string; vf_status : string; vf_scheduled_for : option Time; vf_idempotency_key : option string;
  vf_requested_by : option string; vf_temporary_database : string; vf_migration_version : string; vf_checked_objects : Z;
  vf_lease_until : option Time; vf_error_message : string; vf_started_at : option Time; vf_finished_at : option Time; vf_created_at : Time; vf_updated_at : Time
}.

#[export] Instance eta_VerificationRow : Eta VerificationRow := λ r,
  mkVerificationRow (vf_backup_run_id r) (vf_trigger_type r) (vf_status r) (vf_scheduled_for r) (vf_idempotency_key r) (vf_requested_by r)
    (vf_temporary_database r) (vf_migration_version r) (vf_checked_objects r) (vf_lease_until r) (vf_error_message r) (vf_started_at r)
    (vf_finished_at r) (vf_created_at r) (vf_updated_at r).

Record BackupTables : Type := mkBackupTables { backup_runs : gmap string BackupRow; restore_verifications : gmap string VerificationRow }.

#[export] Instance eta_BackupTables : Eta BackupTables := λ t, mkBackupTables (backup_runs t) (restore_verifications t).

(** [status IN ('exporting', 'snapshotting', 'uploading')] *)
Definition active_statuses : list string := [StatusExporting; StatusSnapshotting; StatusUploading].
Definition verifying_statuses : list string := [VerificationRestoring; VerificationChecking].

Definition backup_leased (r : BackupRow) : bool := bool_decide (bk_status r ∈ active_statuses) && bool_decide (is_Some (bk_lease_until r)).
Definition verification_leased (r : VerificationRow) : bool := bool_decide (vf_status r ∈ verifying_statuses) && bool_decide (is_Some (vf_lease_until r)).

Definition same_value {A} `{!EqDecision A} (a b : option A) : bool := match a, b with Some x, Some y => bool_decide (x = y) | _, _ => false end.

(** The unique columns, and the unique indexes on the leases. *)
Definition backups_clash (a b : BackupRow) : bool :=
  same_value (bk_scheduled_for a) (bk_scheduled_for b) || same_value (bk_idempotency_key a) (bk_idempotency_key b) || (backup_leased a && backup_leased b).
Definition verifications_clash (a b : VerificationRow) : bool :=
  same_value (vf_scheduled_for a) (vf_scheduled_for b) || same_value (vf_idempotency_key a) (vf_idempotency_key b) ||
  (verification_leased a && verification_leased b).

(** A row under a unique index: the others must not clash with it. *)
Definition put_row {R} (clash : R → R → bool) (id : string) (r : R) (m : gmap string R) : option (gmap string R) :=
  if existsb (λ p, negb (bool_decide (p.1 = id)) && clash r p.2) (map_to_list m) then None else Some (<[id := r]> m).

(** The [CHECK]s on numbers, and the range of [integer]. *)
Definition backup_numbers (r : BackupRow) : bool :=
  (0 <=? bk_byte_size r) && (0 <=? bk_object_count r) && (0 <=? bk_attempts r) && (bk_attempts r <? 2 ^ 31).

Definition put_backup (id : string) (r : BackupRow) (t : BackupTables) : option BackupTables :=
  if negb (backup_numbers r) then None else m ← put_row backups_clash id r (backup_runs t); Some (t <| backup_runs := m |>).
Definition put_verification (id : string) (r : VerificationRow) (t : BackupTables) : option BackupTables :=
  if vf_checked_objects r <? 0 then None else m ← put_row verifications_clash id r (restore_verifications t); Some (t <| restore_verifications := m |>).

(** ** The statements of postgres.go *)

Definition scanBackup (id : string) (r : BackupRow) : BackupRun :=
  mkBackupRun id (bk_trigger_type r) (bk_status r) (bk_scheduled_for r) (default "" (bk_requested_by r)) (bk_local_snapshot_id r) (bk_cos_snapshot_id r)
    (bk_manifest_sha256 r) (bk_byte_size r) (bk_object_count r) (bk_attempts r) (bk_next_attempt_at r) (bk_lease_until r) (bk_error_message r)
    (bk_started_at r) (bk_finished_at r) (bk_created_at r) (bk_updated_at r).

Definition scanVerification (id : string) (r : VerificationRow) : RestoreVerification :=
  mkRestoreVerification id (vf_backup_run_id r) (vf_trigger_type r) (vf_status r) (vf_scheduled_for r) (default "" (vf_requested_by r))
    (vf_temporary_database r) (vf_migration_version r) (vf_checked_objects r) (vf_lease_until r) (vf_error_message r) (vf_started_at r)
    (vf_finished_at r) (vf_created_at r) (vf_updated_at r).

(** A request: by hand with a key and an actor, or for a slot of the schedule. *)
Inductive Request : Type :=
  | ByHand (key actorID : string) (at_ : Time)
  | ForSlot (slot now : Time).

Definition request_key (q : Request) : option string := match q with ByHand key _ _ => Some key | ForSlot _ _ => None end.
Definition request_slot (q : Request) : option Time := match q with ByHand _ _ _ => None | ForSlot slot _ => Some slot end.
Definition request_actor (q : Request) : option string := match q with ByHand _ actorID _ => Some actorID | ForSlot _ _ => None end.
Definition request_trigger (q : Request) : string := match q with ByHand _ _ _ => TriggerManual | ForSlot _ _ => TriggerScheduled end.
Definition request_created (q : Request) : Time := match q with ByHand _ _ at_ => at_ | ForSlot _ now => now end.
Definition request_due (q : Request) : Time := match q with ByHand _ _ at_ => at_ | ForSlot slot _ => slot end.

(** [WHERE idempotency_key=$1] or [WHERE scheduled_for=$1] *)
Definition find_backup (q : Request) (t : BackupTables) : option (string * BackupRow) :=
  head (filter (λ p, same_value (bk_idempotency_key p.2) (request_key q) || same_value (bk_scheduled_for p.2) (request_slot q) = true) (map_to_list (backup_runs t))).
Definition find_verification (q : Request) (t : BackupTables) : option (string * VerificationRow) :=
  head (filter (λ p, same_value (vf_idempotency_key p.2) (request_key q) || same_value (vf_scheduled_for p.2) (request_slot q) = true) (map_to_list (restore_verifications t))).

Definition new_backup (q : Request) : BackupRow :=
  mkBackupRow (request_trigger q) StatusQueued (request_slot q) (request_key q) (request_actor q) "" "" "" 0 0 0 (request_due q) None "" None None
    (request_created q) (request_created q).
Definition new_verification (backupRunID : string) (q : Request) : VerificationRow :=
  mkVerificationRow backupRunID (request_trigger q) VerificationQueued (request_slot q) (request_key q) (request_actor q) "" "" 0 None "" None None
    (request_created q) (request_created q).

(** [requested_by] references [users]. *)
Definition known_actor (q : Request) (d : DB) : bool := match request_actor q with Some actorID => bool_decide (actorID ∈ users d) | None => true end.

Definition insert_backup (id : string) (q : Request) (d : DB) (t : BackupTables) : option BackupTables :=
  if negb (known_actor q d) || bool_decide (is_Some (backup_runs t !! id)) then None else put_backup id (new_backup q) t.

(** [backup_run_id] references [backup_runs]. *)
Definition insert_verification (id backupRunID : string) (q : Request) (d : DB) (t : BackupTables) : option BackupTables :=
  if negb (known_actor q d) || negb (bool_decide (is_Some (backup_runs t !! backupRunID))) || bool_decide (is_Some (restore_verifications t !! id)) then None
  else put_verification id (new_verification backupRunID q) t.

(** [lease_until <= $1] *)
Definition lease_over (lease : option Time) (now : Time) : bool := match lease with Some l => l <=? now | None => false end.

Definition backup_due (now : Time) (r : BackupRow) : bool :=
  (bool_decide (bk_status r ∈ active_statuses) && lease_over (bk_lease_until r) now) ||
  (bool_decide (bk_status r ∈ [StatusQueued; StatusDegraded]) && (bk_next_attempt_at r <=? now)).

(** [ORDER BY CASE ... END, next_attempt_at, created_at, id] *)
Definition backup_before (a b : string * BackupRow) : bool :=
  less_lex (less_by Z.ltb (λ p : string * BackupRow, if bool_decide (bk_status p.2 ∈ active_statuses) then 0 else 1))
    (less_lex (less_by Z.ltb (λ p : string * BackupRow, bk_next_attempt_at p.2))
      (less_lex (less_by Z.ltb (λ p : string * BackupRow, bk_created_at p.2)) (less_by string_lt fst))) a b.

Definition backup_candidate (now : Time) (t : BackupTables) : option (string * BackupRow) :=
  head (stable_sort backup_before (filter (λ p, backup_due now p.2 = true) (map_to_list (backup_runs t)))).

Definition claimed_backup (now : Time) (lease : Duration) (r : BackupRow) : BackupRow :=
  r <| bk_status := if bool_decide (bk_local_snapshot_id r = "") then StatusExporting else StatusUploading |> <| bk_attempts := bk_attempts r + 1 |>
    <| bk_lease_until := Some (now + lease) |> <| bk_started_at := Some (default now (bk_started_at r)) |> <| bk_error_message := "" |> <| bk_updated_at := now |>.

Definition claim_backup (now : Time) (lease : Duration) (t : BackupTables) : option (BackupTables * option BackupRun) :=
  match backup_candidate now t with
  | None => Some (t, None)
  | Some (id, r) => t' ← put_backup id (claimed_backup now lease r) t; Some (t', Some (scanBackup id (claimed_backup now lease r)))
  end.

Definition verification_due (now : Time) (r : VerificationRow) : bool :=
  (bool_decide (vf_status r = VerificationQueued) && match vf_scheduled_for r with Some slot => slot <=? now | None => true end) ||
  (bool_decide (vf_status r ∈ verifying_statuses) && lease_over (vf_lease_until r) now).

Definition verification_before (a b : string * VerificationRow) : bool :=
  less_lex (less_by Z.ltb (λ p : string * VerificationRow, if bool_decide (vf_status p.2 ∈ verifying_statuses) then 0 else 1))
    (less_lex (less_by Z.ltb (λ p : string * VerificationRow, vf_created_at p.2)) (less_by string_lt fst)) a b.

Definition verification_candidate (now : Time) (t : BackupTables) : option (string * VerificationRow) :=
  head (stable_sort verification_before (filter (λ p, verification_due now p.2 = true) (map_to_list (restore_verifications t)))).

Definition claimed_verification (now : Time) (lease : Duration) (r : VerificationRow) : VerificationRow :=
  r <| vf_status := VerificationRestoring |> <| vf_lease_until := Some (now + lease) |> <| vf_started_at := Some (default now (vf_started_at r)) |>
    <| vf_error_message := "" |> <| vf_updated_at := now |>.

Definition claim_verification (now : Time) (lease : Duration) (t : BackupTables) : option (BackupTables * option RestoreVerification) :=
  match verification_candidate now t with
  | None => Some (t, None)
  | Some (id, r) => t' ← put_verification id (claimed_verification now lease r) t; Some (t', Some (scanVerification id (claimed_verification now lease r)))
  end.

(** [UPDATE backup_runs SET ... WHERE id=$1 AND ...]: whether a row was updated. *)
Definition update_backup (id : string) (where_ : BackupRow → bool) (set : BackupRow → BackupRow) (t : BackupTables) : option (BackupTables * bool) :=
  match backup_runs t !! id with
  | Some r => if where_ r then t' ← put_backup id (set r) t; Some (t', true) else Some (t, false)
  | None => Some (t, false)
  end.
Definition update_verification (id : string) (where_ : VerificationRow → bool) (set : VerificationRow → VerificationRow) (t : BackupTables) : option (BackupTables * bool) :=
  match restore_verifications t !! id with
  | Some r => if where_ r then t' ← put_verification id (set r) t; Some (t', true) else Some (t, false)
  | None => Some (t, false)
  end.

(** [value[:maximum]] and then without the bytes of a character that was cut. *)
Fixpoint trim_invalid (fuel : nat) (s : string) : string :=
  match fuel with
  | O => s
  | S fuel => if ValidString s then s else trim_invalid fuel (String.substring 0 (String.length s - 1) s)
  end.

Definition truncate (value : string) (maximum : nat) : string :=
  if (String.length value <=? maximum)%nat then value else trim_invalid maximum (String.substring 0 maximum value).

Definition local_snapshot (result : SnapshotResult) (at_ : Time) (r : BackupRow) : BackupRow :=
  r <| bk_status := StatusUploading |> <| bk_local_snapshot_id := sn_SnapshotID result |> <| bk_manifest_sha256 := sn_ManifestSHA256 result |>
    <| bk_byte_size := sn_ByteSize result |> <| bk_object_count := sn_ObjectCount result |> <| bk_updated_at := at_ |>.

Definition succeeded_backup (cosSnapshotID : string) (at_ : Time) (r : BackupRow) : BackupRow :=
  r <| bk_status := StatusSucceeded |> <| bk_cos_snapshot_id := cosSnapshotID |> <| bk_lease_until := None |> <| bk_error_message := "" |>
    <| bk_finished_at := Some at_ |> <| bk_updated_at := at_ |>.

Definition degraded_backup (message : string) (retryAt : Time) (r : BackupRow) : BackupRow :=
  r <| bk_status := StatusDegraded |> <| bk_next_attempt_at := retryAt |> <| bk_lease_until := None |> <| bk_error_message := truncate message 4096 |>
    <| bk_updated_at := retryAt |>.

Definition failed_backup (message : string) (at_ : Time) (r : BackupRow) : BackupRow :=
  r <| bk_status := StatusFailed |> <| bk_lease_until := None |> <| bk_error_message := truncate message 4096 |> <| bk_finished_at := Some at_ |>
    <| bk_updated_at := at_ |>.

Definition completed_verification (result : VerificationResult) (at_ : Time) (r : VerificationRow) : VerificationRow :=
  r <| vf_status := if bool_decide (TrimSpace (vt_ErrorMessage result) = "") then VerificationSucceeded else VerificationFailed |>
    <| vf_temporary_database := vt_TemporaryDatabase result |> <| vf_migration_version := vt_MigrationVersion result |>
    <| vf_checked_objects := vt_CheckedObjects result |> <| vf_lease_until := None |> <| vf_error_message := truncate (vt_ErrorMessage result) 4096 |>
    <| vf_finished_at := Some at_ |> <| vf_updated_at := at_ |>.

(** [ORDER BY created_at DESC, id DESC] *)
Definition newest_backup (a b : string * BackupRow) : bool :=
  less_lex (less_flip (less_by Z.ltb (λ p : string * BackupRow, bk_created_at p.2))) (less_flip (less_by string_lt fst)) a b.
Definition newest_verification (a b : string * VerificationRow) : bool :=
  less_lex (less_flip (less_by Z.ltb (λ p : string * VerificationRow, vf_created_at p.2))) (less_flip (less_by string_lt fst)) a b.

Definition boundedLimit (limit : Z) : Z := if limit <=? 0 then 20 else if 100 <? limit then 100 else limit.

Definition listed_backups (limit : Z) (t : BackupTables) : list BackupRun :=
  (λ p, scanBackup p.1 p.2) <$> take (Z.to_nat (boundedLimit limit)) (stable_sort newest_backup (map_to_list (backup_runs t))).
Definition listed_verifications (limit : Z) (t : BackupTables) : list RestoreVerification :=
  (λ p, scanVerification p.1 p.2) <$> take (Z.to_nat (boundedLimit limit)) (stable_sort newest_verification (map_to_list (restore_verifications t))).

(** ** postgres.go: the repository *)

Section repository.
Context {C : Type} `{!Has DB C, !Has BackupTables C, !Has CallContext C, uuids : !UUIDs}.

(** Which request the arguments make: the actor and the key are UUIDs, or both blank. *)
Definition request_of (actorID idempotencyKey : string) (at_ now : Time) : option Request :=
  if negb (bool_decide (TrimSpace actorID = "")) || negb (bool_decide (TrimSpace idempotencyKey = ""))
  then actor ← parse_uuid actorID; _ ← parse_uuid idempotencyKey; Some (ByHand idempotencyKey actor at_)
  else Some (ForSlot at_ now).

Definition is_manual (q : Request) : bool := match q with ByHand _ _ _ => true | ForSlot _ _ => false end.

Definition RequestBackup (actorID idempotencyKey : string) (at_ : Time) : Prog C BackupRun :=
  if bool_decide (at_ = zero_time) then throw ErrInvalidRequest
  else
    let! now := clock_now in
    match request_of actorID idempotencyKey at_ now with
    | None => throw ErrInvalidRequest
    | Some q =>
      in_ctx (transaction (T := BackupTables) "开始创建备份事务" (
        let! found := query "查找幂等备份" (find_backup q) in
        match found with
        | Some (id, r) => commit "提交幂等备份事务" ;;! ret (scanBackup id r)
        | None =>
          let! id := new_uuid in
          remote "创建备份记录" (λ '(c, t), t' ← insert_backup id q (part c) t; Some ((c, t'), tt)) ;;!
          (if is_manual q then exec "记录备份操作审计" Some else ret tt) ;;!
          commit "提交备份请求" ;;!
          ret (scanBackup id (new_backup q))
        end))
    end.

Definition ClaimBackup (now : Time) (lease : Duration) : Prog C (option BackupRun) :=
  if lease <=? 0 then throw ErrInvalidRequest
  else
    in_ctx (transaction (T := BackupTables) "开始领取备份事务" (
      let! run := stmt "领取备份" (claim_backup now lease) in
      commit "提交备份领取" ;;!
      ret run)).

(** [transition] *)
Definition transition (update : BackupTables → option (BackupTables * bool)) : Prog C unit :=
  let! updated := in_ctx (pool (T := BackupTables) "更新备份状态" update) in
  if updated : bool then ret tt else throw ErrInvalidTransition.

Definition MarkLocalSnapshot (id : string) (result : SnapshotResult) (at_ : Time) : Prog C unit :=
  if bool_decide (sn_SnapshotID result = "") || bool_decide (sn_ManifestSHA256 result = "") || (sn_ByteSize result <? 0) || (sn_ObjectCount result <? 0)
  then throw ErrInvalidRequest
  else transition (update_backup id (λ r, bool_decide (bk_status r ∈ [StatusExporting; StatusSnapshotting])) (local_snapshot result at_)).

Definition uploading_with_snapshot (r : BackupRow) : bool := bool_decide (bk_status r = StatusUploading) && negb (bool_decide (bk_local_snapshot_id r = "")).

Definition MarkBackupSucceeded (id cosSnapshotID : string) (at_ : Time) : Prog C unit :=
  if bool_decide (TrimSpace cosSnapshotID = "") then throw ErrInvalidRequest
  else transition (update_backup id uploading_with_snapshot (succeeded_backup cosSnapshotID at_)).

Definition MarkBackupDegraded (id message : string) (retryAt : Time) : Prog C unit :=
  transition (update_backup id uploading_with_snapshot (degraded_backup message retryAt)).

Definition MarkBackupFailed (id message : string) (at_ : Time) : Prog C unit :=
  transition (update_backup id (λ r, bool_decide (bk_status r ∈ active_statuses)) (failed_backup message at_)).

Definition RequestVerification (actorID backupRunID idempotencyKey : string) (at_ : Time) : Prog C RestoreVerification :=
  if bool_decide (at_ = zero_time) then throw ErrInvalidRequest
  else
    match parse_uuid backupRunID with
    | None => throw ErrInvalidRequest
    | Some backupRunID =>
      let! now := clock_now in
      match request_of actorID idempotencyKey at_ now with
      | None => throw ErrInvalidRequest
      | Some q =>
        in_ctx (transaction (T := BackupTables) "开始恢复校验事务" (
          let! found := query "查找幂等恢复校验" (find_verification q) in
          match found with
          | Some (id, r) => commit "提交幂等恢复校验" ;;! ret (scanVerification id r)
          | None =>
            let! id := new_uuid in
            remote "创建恢复校验" (λ '(c, t), t' ← insert_verification id backupRunID q (part c) t; Some ((c, t'), tt)) ;;!
            (if is_manual q then exec "记录备份操作审计" Some else ret tt) ;;!
            commit "提交恢复校验请求" ;;!
            ret (scanVerification id (new_verification backupRunID q))
          end))
      end
    end.

Definition ClaimVerification (now : Time) (lease : Duration) : Prog C (option RestoreVerification) :=
  if lease <=? 0 then throw ErrInvalidRequest
  else
    in_ctx (transaction (T := BackupTables) "开始领取恢复校验事务" (
      let! verification := stmt "领取恢复校验" (claim_verification now lease) in
      commit "提交恢复校验领取" ;;!
      ret verification)).

Definition CompleteVerification (result : VerificationResult) (at_ : Time) : Prog C unit :=
  transition (update_verification (vt_VerificationID result) (λ r, bool_decide (vf_status r ∈ verifying_statuses)) (completed_verification result at_)).

Definition ListBackups (limit : Z) : Prog C (list BackupRun) := in_ctx (pool_query (T := BackupTables) "读取备份历史" (listed_backups limit)).

Definition ListVerifications (limit : Z) : Prog C (list RestoreVerification) :=
  in_ctx (pool_query (T := BackupTables) "读取恢复校验历史" (listed_verifications limit)).

(** [SELECT min(scheduled_for) ... WHERE ... scheduled_for > now()] *)
Definition next_backup (now : Time) (t : BackupTables) : option Time :=
  foldr (λ p best,
    match bk_scheduled_for p.2 with
    | Some slot =>
      if bool_decide (bk_trigger_type p.2 = TriggerScheduled) && bool_decide (bk_status p.2 = StatusQueued) && (now <? slot)
      then Some (match best with Some b => Z.min slot b | None => slot end) else best
    | None => best
    end) None (map_to_list (backup_runs t)).

(** The status of the first run of the list that is not queued. *)
Definition summary_status (backups : list BackupRun) : string :=
  match head (filter (λ run, bn_Status run ≠ StatusQueued) backups) with
  | None => "not_started"
  | Some run =>
    if bool_decide (bn_Status run = StatusSucceeded) then "healthy" else if bool_decide (bn_Status run = StatusDegraded) then "degraded"
    else if bool_decide (bn_Status run = StatusFailed) then "failed" else "active"
  end.

Definition Summary_ : Prog C Summary :=
  let! now := clock_now in
  let! next := in_ctx (pool_query (T := BackupTables) "读取下一次备份时间" (next_backup now)) in
  let! backups := ListBackups 100 in
  let! verifications := ListVerifications 1 in
  ret (mkSummary (summary_status backups) next (head (filter (λ run, bn_LocalSnapshotID run ≠ "") backups))
    (head (filter (λ run, bn_COSSnapshotID run ≠ "") backups)) (match verifications with [v] => Some v | _ => None end)).

(** *** Schedules *)

(** [t.AddDate(0, 0, days)] *)
Definition add_days (loc : Location) (t : Time) (days : Z) : Time :=
  let s := local_seconds loc t in
  let '(y, m, d) := civil_from_days (s / 86400) in
  date_in loc y m (d + days) (s mod 86400) (t mod second).

Definition slot_on (loc : Location) (day : Time) (h : Z) : Time :=
  let c := civil_in loc day in date_in loc (cv_year c) (cv_month c) (cv_day c) (h * 3600 + 1800) 0.

Definition backup_slots (loc : Location) (now : Time) : list Time :=
  filter (λ slot, now - 6 * hour ≤ slot ≤ now + 24 * hour)
    ([-1; 0; 1] ≫= λ offset, slot_on loc (add_days loc now offset) <$> [0; 6; 12; 18]).

Definition verification_slot (loc : Location) (now : Time) : Time :=
  let c := civil_in loc now in date_in loc (cv_year c) (cv_month c) 1 (3 * 3600 + 1800) 0.

(** [ORDER BY finished_at DESC NULLS LAST, created_at DESC LIMIT 1] *)
Definition finished_before (a b : string * BackupRow) : bool :=
  less_lex (less_by Z.ltb (λ p : string * BackupRow, match bk_finished_at p.2 with Some _ => 0 | None => 1 end))
    (less_lex (less_flip (less_by Z.ltb (λ p : string * BackupRow, default 0 (bk_finished_at p.2))))
      (less_flip (less_by Z.ltb (λ p : string * BackupRow, bk_created_at p.2)))) a b.

Definition latest_succeeded (t : BackupTables) : option string :=
  fst <$> head (stable_sort finished_before
    (filter (λ p, bool_decide (bk_status p.2 = StatusSucceeded) && negb (bool_decide (bk_cos_snapshot_id p.2 = "")) = true) (map_to_list (backup_runs t)))).

Definition EnsureSchedules (LoadLocation : string → option Location) (now : Time) : Prog C unit :=
  match LoadLocation "Asia/Shanghai" with
  | None => throw (EOther "加载备份时区")
  | Some location =>
    for_each (backup_slots location now) (λ slot, RequestBackup "" "" slot ;;! ret tt) ;;!
    if now <? verification_slot location now then ret tt
    else
      let! backupID := in_ctx (pool_query (T := BackupTables) "选择恢复校验备份" latest_succeeded) in
      match backupID with
      | None => ret tt
      | Some backupID => RequestVerification "" backupID "" (verification_slot location now) ;;! ret tt
      end
  end.

End repository.

(** ** config.go: the free space *)

Definition twoGiB : Z := 2147483648.

(** [int64]: three halves do not overflow below the limit. *)
Definition RequiredFreeBytes (latest : Z) : Z :=
  if latest <=? 0 then twoGiB
  else if go_div int64_max 3 * 2 <? latest then int64_max
  else let required := wrap64 (latest + go_div latest 2) in if required <? twoGiB then twoGiB else required.

Definition HasEnoughSpace (available latest : Z) : bool := RequiredFreeBytes latest <=? available.

(** ** service.go *)

(** [ExportResult], without the manifest itself. *)
Record ExportResult : Type := mkExportResult { ex_Root : string; ex_ManifestSHA256 : string; ex_ByteSize : Z; ex_ObjectCount : Z }.

Class BackupTools (C : Type) : Type := {
  availableBytes : Prog C Z;
  Export : BackupRun → Prog C ExportResult;
  SnapshotLocal : string → string → Prog C string;
  CopyToCOS : string → string → Prog C string;
  ForgetLocal : string → Prog C unit;
  ForgetCOS : string → Prog C unit;
  RemoveAll : string → Prog C unit;
  (** the result comes with or without an error *)
  Verify : RestoreVerification → BackupRun → Prog C (VerificationResult * option Error)
}.

(** A program that changes nothing but the context of the call. *)
Definition ctx_only {C A} `{!Has CallContext C} (m : Prog C A) : Prop := ∀ c, wp m c (λ _ c', ∃ ctx, c' = set_part (ctx : CallContext) c).

Class BackupToolsLaw (C : Type) `{!Has CallContext C, tools : !BackupTools C} : Prop := {
  available_frame : ctx_only availableBytes;
  export_frame : ∀ run, ctx_only (Export run);
  snapshot_frame : ∀ root id, ctx_only (SnapshotLocal root id);
  copy_frame : ∀ snapshot id, ctx_only (CopyToCOS snapshot id);
  forget_local_frame : ∀ age, ctx_only (ForgetLocal age);
  forget_cos_frame : ∀ age, ctx_only (ForgetCOS age);
  remove_frame : ∀ root, ctx_only (RemoveAll root);
  verify_frame : ∀ verification run, ctx_only (Verify verification run)
}.

Section service.
Context {C : Type} `{!Has DB C, !Has AlertTables C, !Has BackupTables C, !Has CallContext C, tools : !BackupTools C}.

Definition backup_lease : Duration := 30 * minute.

(** The alerts of the service; their errors are dropped. *)
Definition raise_alert (code severity title message : string) : Prog C unit :=
  ignore (in_ctx (Raise (mkAlertEvent "system" "backup" code severity title message))).
Definition resolve_code (code : string) : Prog C unit := ignore (in_ctx (Resolve "system" "backup" code)).

Definition fail {A} (runID safeMessage : string) : Prog C A :=
  let! now := clock_now in
  let! marked := catch (MarkBackupFailed runID safeMessage now) in
  match marked with
  | Err _ => throw (EOther safeMessage)
  | Ok _ => raise_alert "backup_failed" SeverityCritical "自动备份失败" safeMessage ;;! throw (EOther safeMessage)
  end.

Definition latestSuccessfulBytes : Prog C Z :=
  let! runs := ListBackups 100 in
  ret (match head (filter (λ run, bn_Status run = StatusSucceeded ∧ 0 < bn_ByteSize run) runs) with Some run => bn_ByteSize run | None => 0 end).

(** [Retention.Apply] *)
Definition Retention_Apply (run : BackupRun) : Prog C unit :=
  if negb (bool_decide (bn_Status run = StatusSucceeded)) || bool_decide (bn_LocalSnapshotID run = "") || bool_decide (bn_COSSnapshotID run = "") then ret tt
  else ForgetLocal "7d" ;;! ForgetCOS "30d".

(** An error of a tool fails the run. *)
Definition or_fail {A B} (runID safeMessage : string) (m : Prog C A) (k : A → Prog C B) : Prog C B :=
  let! r := catch m in
  match r with Ok a => k a | Err _ => fail runID safeMessage end.

(** [if run.LocalSnapshotID == ""] *)
Definition make_local (run : BackupRun) : Prog C BackupRun :=
  or_fail (bn_ID run) "读取历史备份大小失败" latestSuccessfulBytes (λ latestBytes,
  or_fail (bn_ID run) "检查备份空间失败" availableBytes (λ available,
  if negb (HasEnoughSpace available latestBytes) then
    raise_alert "backup_space_insufficient" SeverityCritical "备份空间不足" "专用备份目录可用空间低于安全阈值" ;;!
    fail (bn_ID run) "备份暂存空间不足"
  else
    or_fail (bn_ID run) "导出备份数据失败" (Export run) (λ exported,
    or_fail (bn_ID run) "生成本机快照失败" (SnapshotLocal (ex_Root exported) (bn_ID run)) (λ snapshotID,
    let! now := clock_now in
    MarkLocalSnapshot (bn_ID run) (mkSnapshotResult snapshotID (ex_ManifestSHA256 exported) (ex_ByteSize exported) (ex_ObjectCount exported)) now ;;!
    RemoveAll (ex_Root exported) ;;!
    ret (run <| bn_LocalSnapshotID := snapshotID |> <| bn_ManifestSHA256 := ex_ManifestSHA256 exported |> <| bn_ByteSize := ex_ByteSize exported |>
           <| bn_ObjectCount := ex_ObjectCount exported |> <| bn_Status := StatusUploading |>))))).

(** The copy to the remote repository. *)
Definition upload (run : BackupRun) : Prog C unit :=
  let! copied := catch (CopyToCOS (bn_LocalSnapshotID run) (bn_ID run)) in
  match copied with
  | Err _ =>
    let! now := clock_now in
    let! marked := catch (MarkBackupDegraded (bn_ID run) "COS 快照复制失败" (now + 15 * minute)) in
    match marked with
    | Err _ => throw (EOther "记录 COS 降级状态")
    | Ok _ =>
      raise_alert "backup_cos_degraded" SeverityWarning "COS 备份暂时不可用" "本机加密快照已保留，将自动续传到 COS" ;;!
      throw (EOther "COS 快照复制失败，已进入持久化重试")
    end
  | Ok cosSnapshotID =>
    let! now := clock_now in
    MarkBackupSucceeded (bn_ID run) cosSnapshotID now ;;!
    resolve_code "backup_cos_degraded" ;;!
    resolve_code "backup_failed" ;;!
    resolve_code "backup_space_insufficient" ;;!
    let! applied := catch (Retention_Apply (run <| bn_COSSnapshotID := cosSnapshotID |> <| bn_Status := StatusSucceeded |>)) in
    match applied with
    | Err _ => raise_alert "backup_retention_failed" SeverityWarning "备份保留清理失败" "新备份已经成功，旧快照清理将在后续重试"
    | Ok _ => resolve_code "backup_retention_failed"
    end
  end.

Definition RunBackup : Prog C unit :=
  let! now := clock_now in
  let! claimed := ClaimBackup now backup_lease in
  match claimed with
  | None => ret tt
  | Some run =>
    let! run := if bool_decide (bn_LocalSnapshotID run = "") then make_local run else ret run in
    upload run
  end.

Definition completeVerificationFailure (verification : RestoreVerification) (message : string) : Prog C unit :=
  let! now := clock_now in
  CompleteVerification (mkVerificationResult (rv_ID verification) "" "" 0 message) now ;;!
  raise_alert "backup_verification_failed" SeverityCritical "备份恢复校验失败" message ;;!
  throw (EOther message).

Definition RunVerification : Prog C unit :=
  let! now := clock_now in
  let! claimed := ClaimVerification now backup_lease in
  match claimed with
  | None => ret tt
  | Some verification =>
    let! backups := catch (ListBackups 100) in
    match backups with
    | Err _ => completeVerificationFailure verification "恢复校验读取备份失败"
    | Ok backups =>
      match head (filter (λ run, bn_ID run = rv_BackupRunID verification) backups) with
      | None => completeVerificationFailure verification "恢复校验对应备份不存在"
      | Some selected =>
        let! verified := Verify verification selected in
        let! now := clock_now in
        match verified with
        | (result, Some _) =>
          let result := if bool_decide (vt_ErrorMessage result = "") then result <| vt_ErrorMessage := "恢复校验失败" |> else result in
          CompleteVerification result now ;;!
          raise_alert "backup_verification_failed" SeverityCritical "备份恢复校验失败" (vt_ErrorMessage result) ;;!
          throw (EOther "备份恢复校验失败")
        | (result, None) =>
          CompleteVerification result now ;;!
          resolve_code "backup_verification_failed" ;;!
          raise_alert "backup_verification_succeeded" SeverityInfo "备份恢复校验成功" "COS 快照已通过隔离恢复与完整性检查"
        end
      end
    end
  end.

End service.

(** ** The invariant *)

Definition backup_statuses : list string := StatusQueued :: StatusDegraded :: StatusSucceeded :: StatusFailed :: active_statuses.

(** A run that is over. *)
Definition backup_over (r : BackupRow) : Prop := bk_status r = StatusSucceeded ∨ bk_status r = StatusFailed.

Record backup_ok (r : BackupRow) : Prop := {
  bo_status : bk_status r ∈ backup_statuses;
  bo_lease : is_Some (bk_lease_until r) ↔ bk_status r ∈ active_statuses;
  bo_unsaved : bk_status r ∈ [StatusQueued; StatusExporting; StatusSnapshotting] → bk_local_snapshot_id r = "";
  bo_local : bk_status r ∈ [StatusUploading; StatusDegraded; StatusSucceeded] → bk_local_snapshot_id r ≠ "";
  bo_remote : bk_status r = StatusSucceeded → TrimSpace (bk_cos_snapshot_id r) ≠ "";
  bo_finished : is_Some (bk_finished_at r) ↔ backup_over r
}.

(** The snapshot of a run is made once, and a run that is over is left alone. *)
Record backup_evolves (r r' : BackupRow) : Prop := {
  be_request : (bk_trigger_type r', bk_scheduled_for r', bk_idempotency_key r', bk_requested_by r', bk_created_at r') =
               (bk_trigger_type r, bk_scheduled_for r, bk_idempotency_key r, bk_requested_by r, bk_created_at r);
  be_attempts : bk_attempts r ≤ bk_attempts r';
  be_snapshot : bk_local_snapshot_id r ≠ "" →
    (bk_local_snapshot_id r', bk_manifest_sha256 r', bk_byte_size r', bk_object_count r') =
    (bk_local_snapshot_id r, bk_manifest_sha256 r, bk_byte_size r, bk_object_count r);
  be_over : backup_over r → r' = r
}.

#[export] Instance backup_evolves_preorder : PreOrder backup_evolves.
Proof.
  split; [by split|]. intros a b c [A1 A2 A3 A4] [B1 B2 B3 B4]. split; [by rewrite B1|lia| |].
  - intros Ha. specialize (A3 Ha). injection A3 as E1 E2 E3 E4. rewrite B3 by (by rewrite E1). by rewrite E1, E2, E3, E4.
  - intros Ha. specialize (A4 Ha) as ->. by apply B4.
Qed.

Definition verification_over (r : VerificationRow) : Prop := vf_status r = VerificationSucceeded ∨ vf_status r = VerificationFailed.

Record verification_ok (r : VerificationRow) : Prop := {
  vo_status : vf_status r ∈ VerificationQueued :: VerificationSucceeded :: VerificationFailed :: verifying_statuses;
  vo_lease : is_Some (vf_lease_until r) ↔ vf_status r ∈ verifying_statuses;
  vo_finished : is_Some (vf_finished_at r) ↔ verification_over r
}.

Definition verification_evolves (r r' : VerificationRow) : Prop :=
  (vf_backup_run_id r', vf_trigger_type r', vf_scheduled_for r', vf_idempotency_key r', vf_requested_by r', vf_created_at r') =
  (vf_backup_run_id r, vf_trigger_type r, vf_scheduled_for r, vf_idempotency_key r, vf_requested_by r, vf_created_at r) ∧
  (verification_over r → r' = r).

#[export] Instance verification_evolves_preorder : PreOrder verification_evolves.
Proof.
  split; [by split|]. intros a b c [A1 A2] [B1 B2]. split; [by rewrite B1|]. intros Ha. specialize (A2 Ha) as ->. by apply B2.
Qed.

(** No two rows clash. *)
Definition unclashed {R} (clash : R → R → bool) (m : gmap string R) : Prop :=
  ∀ i j a b, i ≠ j → m !! i = Some a → m !! j = Some b → clash a b = false.

Record backups_ok (t : BackupTables) : Prop := {
  tk_backups : ∀ id r, backup_runs t !! id = Some r → backup_ok r;
  tk_unique : unclashed backups_clash (backup_runs t);
  tk_verifications : ∀ id r, restore_verifications t !! id = Some r → verification_ok r;
  tk_verifications_unique : unclashed verifications_clash (restore_verifications t);
  tk_references : ∀ id r, restore_verifications t !! id = Some r → is_Some (backup_runs t !! vf_backup_run_id r)
}.

Record backups_evolve (t t' : BackupTables) : Prop := {
  te_backups : ∀ id r, backup_runs t !! id = Some r → ∃ r', backup_runs t' !! id = Some r' ∧ backup_evolves r r';
  te_verifications : ∀ id r, restore_verifications t !! id = Some r → ∃ r', restore_verifications t' !! id = Some r' ∧ verification_evolves r r'
}.

#[export] Instance backups_evolve_preorder : PreOrder backups_evolve.
Proof.
  split.
  - intros t. split; intros id r H; by exists r.
  - intros a b c [A1 A2] [B1 B2]. split; intros id r Hr.
    + destruct (A1 id r Hr) as (r1 & H1 & E1). destruct (B1 id r1 H1) as (r2 & H2 & E2). exists r2. split; [done|by etrans].
    + destruct (A2 id r Hr) as (r1 & H1 & E1). destruct (B2 id r1 H1) as (r2 & H2 & E2). exists r2. split; [done|by etrans].
Qed.

Definition backups_step (t t' : BackupTables) : Prop := backups_ok t → backups_ok t' ∧ backups_evolve t t'.

#[export] Instance backups_step_preorder : PreOrder backups_step.
Proof.
  split; [by intros t H|]. intros a b c H1 H2 Ha. destruct (H1 Ha) as [Hb E1]. destruct (H2 Hb) as [Hc E2]. split; [done|by etrans].
Qed.

(** *** Writing one row *)

Lemma same_value_sym {A} `{!EqDecision A} (a b : option A) : same_value a b = same_value b a.
Proof. destruct a, b; simpl; try done. apply bool_decide_ext. naive_solver. Qed.

Lemma same_value_None {A} `{!EqDecision A} (a : option A) : same_value a None = false.
Proof. by destruct a. Qed.

Lemma backups_clash_sym a b : backups_clash a b = backups_clash b a.
Proof. unfold backups_clash. by rewrite (same_value_sym (bk_scheduled_for a)), (same_value_sym (bk_idempotency_key a)), (andb_comm (backup_leased a)). Qed.

Lemma verifications_clash_sym a b : verifications_clash a b = verifications_clash b a.
Proof. unfold verifications_clash. by rewrite (same_value_sym (vf_scheduled_for a)), (same_value_sym (vf_idempotency_key a)), (andb_comm (verification_leased a)). Qed.

Lemma put_row_inv {R} (clash : R → R → bool) id r (m m' : gmap string R) :
  put_row clash id r m = Some m' → m' = <[id := r]> m ∧ ∀ k x, m !! k = Some x → k ≠ id → clash r x = false.
Proof.
  unfold put_row. destruct (existsb _ _) eqn:E; [done|]. intros [= <-]. split; [done|]. intros k x Hx Hne.
  destruct (clash r x) eqn:Ec; [|done]. assert (existsb (λ p, negb (bool_decide (p.1 = id)) && clash r p.2) (map_to_list m) = true) as H; [|congruence].
  apply existsb_exists. exists (k, x). split; [by apply list_elem_of_In, elem_of_map_to_list|]. simpl. by rewrite bool_decide_false, Ec.
Qed.

Lemma unclashed_insert {R} (clash : R → R → bool) id r (m : gmap string R) :
  (∀ a b, clash a b = clash b a) → unclashed clash m → (∀ k x, m !! k = Some x → k ≠ id → clash r x = false) → unclashed clash (<[id := r]> m).
Proof.
  intros Hsym Hu Hr i j a b Hne Ha Hb. apply lookup_insert_Some in Ha as [[<- <-]|[Hi Ha]], Hb as [[<- <-]|[Hj Hb]]; [done|by apply (Hr j)| |by apply (Hu i j)].
  rewrite Hsym. by apply (Hr i).
Qed.

Lemma put_backup_inv id r t t' : put_backup id r t = Some t' →
  t' = t <| backup_runs ::= <[id := r]> |> ∧ ∀ k x, backup_runs t !! k = Some x → k ≠ id → backups_clash r x = false.
Proof.
  unfold put_backup. destruct (negb _); [done|]. intros (m & Hm & [= <-])%bind_Some. apply put_row_inv in Hm as [-> Hm]. done.
Qed.

Lemma put_verification_inv id r t t' : put_verification id r t = Some t' →
  t' = t <| restore_verifications ::= <[id := r]> |> ∧ ∀ k x, restore_verifications t !! k = Some x → k ≠ id → verifications_clash r x = false.
Proof.
  unfold put_verification. destruct (_ <? _); [done|]. intros (m & Hm & [= <-])%bind_Some. apply put_row_inv in Hm as [-> Hm]. done.
Qed.

(** A new row, or one that evolves. *)
Lemma put_backup_step id r' t t' :
  put_backup id r' t = Some t' →
  match backup_runs t !! id with Some r => backup_ok r → backup_ok r' ∧ backup_evolves r r' | None => backup_ok r' end → backups_step t t'.
Proof.
  intros [-> Hc]%put_backup_inv Hr [K1 K2 K3 K4 K5].
  assert (backup_ok r') as Hok by (destruct (backup_runs t !! id) as [r|] eqn:E; [by eapply Hr, K1|done]). split.
  - split; simpl; [|by apply unclashed_insert; [apply backups_clash_sym|..]|done|done|].
    + intros k x [[<- <-]|[_ Hx]]%lookup_insert_Some; [done|by eapply K1].
    + intros k x Hx. destruct (decide (id = vf_backup_run_id x)) as [<-|Hne]; [by rewrite lookup_insert_eq|]. rewrite lookup_insert_ne by done. by eapply K5.
  - split; simpl; [|intros k x Hx; by exists x]. intros k x Hx. destruct (decide (id = k)) as [<-|Hne].
    + rewrite lookup_insert_eq. exists r'. split; [done|]. rewrite Hx in Hr. by apply Hr, (K1 id).
    + rewrite lookup_insert_ne by done. by exists x.
Qed.

Lemma put_verification_step id r' t t' :
  put_verification id r' t = Some t' → is_Some (backup_runs t !! vf_backup_run_id r') →
  match restore_verifications t !! id with Some r => verification_ok r → verification_ok r' ∧ verification_evolves r r' | None => verification_ok r' end →
  backups_step t t'.
Proof.
  intros [-> Hc]%put_verification_inv Hb Hr [K1 K2 K3 K4 K5].
  assert (verification_ok r') as Hok by (destruct (restore_verifications t !! id) as [r|] eqn:E; [by eapply Hr, K3|done]). split.
  - split; simpl; [done|done| |by apply unclashed_insert; [apply verifications_clash_sym|..]|].
    + intros k x [[<- <-]|[_ Hx]]%lookup_insert_Some; [done|by eapply K3].
    + intros k x [[<- <-]|[_ Hx]]%lookup_insert_Some; [done|by eapply K5].
  - split; simpl; [intros k x Hx; by exists x|]. intros k x Hx. destruct (decide (id = k)) as [<-|Hne].
    + rewrite lookup_insert_eq. exists r'. split; [done|]. rewrite Hx in Hr. by apply Hr, (K3 id).
    + rewrite lookup_insert_ne by done. by exists x.
Qed.

(** *** The statements *)

(** Facts about the constants of the statuses: closed memberships, and cases. *)
Ltac in_statuses := match goal with |- ?P => apply (bool_decide_unpack P); vm_compute; exact I end.

Ltac status_cases :=
  repeat match goal with
  | H : _ ∈ active_statuses |- _ => unfold active_statuses in H
  | H : _ ∈ verifying_statuses |- _ => unfold verifying_statuses in H
  | H : _ ∈ _ :: _ |- _ => apply elem_of_cons in H as [H|H]
  | H : _ ∈ [] |- _ => apply elem_of_nil in H; contradiction
  | H : is_Some None |- _ => destruct H as [? H]; discriminate H
  | H : backup_over _ |- _ => destruct H as [H|H]
  | H : verification_over _ |- _ => destruct H as [H|H]
  end.

Ltac status_absurd :=
  exfalso; status_cases; simpl in *;
  unfold StatusQueued, StatusExporting, StatusSnapshotting, StatusUploading, StatusSucceeded, StatusDegraded, StatusFailed,
    VerificationQueued, VerificationRestoring, VerificationChecking, VerificationSucceeded, VerificationFailed in *;
  congruence.

Lemma backup_candidate_inv now t id r : backup_candidate now t = Some (id, r) → backup_runs t !! id = Some r ∧ backup_due now r = true.
Proof. intros [Hin H]%(head_filter_sorted _ (λ p, backup_due now p.2)). by apply elem_of_map_to_list in Hin. Qed.

Lemma verification_candidate_inv now t id r :
  verification_candidate now t = Some (id, r) → restore_verifications t !! id = Some r ∧ verification_due now r = true.
Proof. intros [Hin H]%(head_filter_sorted _ (λ p, verification_due now p.2)). by apply elem_of_map_to_list in Hin. Qed.

Lemma backup_due_open now r : backup_due now r = true → ¬ backup_over r.
Proof.
  unfold backup_due. intros [[H%bool_decide_eq_true _]%andb_true_iff|[H%bool_decide_eq_true _]%andb_true_iff]%orb_true_iff Ho; status_absurd.
Qed.

Lemma verification_due_open now r : verification_due now r = true → ¬ verification_over r.
Proof.
  unfold verification_due. intros [[H%bool_decide_eq_true _]%andb_true_iff|[H%bool_decide_eq_true _]%andb_true_iff]%orb_true_iff Ho; status_absurd.
Qed.

(** A claimed run exports, or goes on with the snapshot it has. *)
Lemma claimed_backup_step now lease r :
  ¬ backup_over r → backup_ok r → backup_ok (claimed_backup now lease r) ∧ backup_evolves r (claimed_backup now lease r).
Proof.
  intros Ho [O1 O2 O3 O4 O5 O6]. split; [|split; [done|simpl; lia|done|done]]. unfold claimed_backup.
  destruct (bool_decide (bk_local_snapshot_id r = "")) eqn:El; [apply bool_decide_eq_true in El|apply bool_decide_eq_false in El].
  - split; simpl; [in_statuses|split; [intros _; in_statuses|done]|done|intros H; status_absurd|intros H; status_absurd|].
    rewrite O6. split; [done|]. intros H. status_absurd.
  - split; simpl; [in_statuses|split; [intros _; in_statuses|done]|intros H; status_absurd|done|intros H; status_absurd|].
    rewrite O6. split; [done|]. intros H. status_absurd.
Qed.

Lemma claim_backup_step now lease t t' run : claim_backup now lease t = Some (t', run) → backups_step t t'.
Proof.
  unfold claim_backup. destruct (backup_candidate now t) as [[id r]|] eqn:E; [|by intros [= <- _]]. apply backup_candidate_inv in E as [Hr Hd].
  intros (t1 & Hp & [= <- _])%bind_Some. eapply put_backup_step; [exact Hp|]. rewrite Hr. by apply claimed_backup_step, (backup_due_open now).
Qed.

Lemma claimed_verification_step now lease r :
  ¬ verification_over r → verification_ok r → verification_ok (claimed_verification now lease r) ∧ verification_evolves r (claimed_verification now lease r).
Proof.
  intros Ho [O1 O2 O3]. split; [|done]. split; simpl; [in_statuses|split; [intros _; in_statuses|done]|]. rewrite O3. split; [done|]. intros H. status_absurd.
Qed.

Lemma claim_verification_step now lease t t' v : claim_verification now lease t = Some (t', v) → backups_step t t'.
Proof.
  unfold claim_verification. destruct (verification_candidate now t) as [[id r]|] eqn:E; [|by intros [= <- _]]. apply verification_candidate_inv in E as [Hr Hd].
  intros (t1 & Hp & [= <- _])%bind_Some Hok. eapply put_verification_step; [exact Hp|exact (tk_references _ Hok id r Hr)| |done]. rewrite Hr.
  by apply claimed_verification_step, (verification_due_open now).
Qed.

Lemma update_backup_step id where_ set t t' b :
  (∀ r, where_ r = true → backup_ok r → backup_ok (set r) ∧ backup_evolves r (set r)) → update_backup id where_ set t = Some (t', b) → backups_step t t'.
Proof.
  unfold update_backup. intros Hs. destruct (backup_runs t !! id) as [r|] eqn:Er; [|by intros [= <- _]]. destruct (where_ r) eqn:Ew; [|by intros [= <- _]].
  intros (t1 & Hp & [= <- _])%bind_Some. eapply put_backup_step; [exact Hp|]. rewrite Er. auto.
Qed.

Lemma local_snapshot_step result at_ r :
  sn_SnapshotID result ≠ "" → bk_status r ∈ [StatusExporting; StatusSnapshotting] → backup_ok r →
  backup_ok (local_snapshot result at_ r) ∧ backup_evolves r (local_snapshot result at_ r).
Proof.
  intros Hn Hs [O1 O2 O3 O4 O5 O6]. assert (bk_local_snapshot_id r = "") as El by (apply O3; by right). assert (bk_status r ∈ active_statuses) as Ha by (status_cases; rewrite Hs; in_statuses).
  split.
  - split; simpl; [in_statuses|rewrite O2; split; [intros _; in_statuses|done]|intros H; status_absurd|done|intros H; status_absurd|].
    rewrite O6. split; intros H; status_absurd.
  - split; simpl; [done|lia|done|]. intros H. status_absurd.
Qed.

Lemma uploading_inv r : uploading_with_snapshot r = true → bk_status r = StatusUploading ∧ bk_local_snapshot_id r ≠ "".
Proof. unfold uploading_with_snapshot. by intros [H1%bool_decide_eq_true H2%negb_true_iff%bool_decide_eq_false]%andb_true_iff. Qed.

Lemma succeeded_backup_step cos at_ r :
  TrimSpace cos ≠ "" → uploading_with_snapshot r = true → backup_ok r →
  backup_ok (succeeded_backup cos at_ r) ∧ backup_evolves r (succeeded_backup cos at_ r).
Proof.
  intros Hc [Hs Hl]%uploading_inv [O1 O2 O3 O4 O5 O6]. split.
  - split; simpl; [in_statuses|split; intros H; status_absurd|intros H; status_absurd|done|done|]. split; [intros _; by left|done].
  - split; simpl; [done|lia|done|]. intros H. status_absurd.
Qed.

Lemma degraded_backup_step message at_ r :
  uploading_with_snapshot r = true → backup_ok r → backup_ok (degraded_backup message at_ r) ∧ backup_evolves r (degraded_backup message at_ r).
Proof.
  intros [Hs Hl]%uploading_inv [O1 O2 O3 O4 O5 O6]. split.
  - split; simpl; [in_statuses|split; intros H; status_absurd|intros H; status_absurd|done|intros H; status_absurd|]. rewrite O6. split; intros H; status_absurd.
  - split; simpl; [done|lia|done|]. intros H. status_absurd.
Qed.

Lemma failed_backup_step message at_ r :
  bk_status r ∈ active_statuses → backup_ok r → backup_ok (failed_backup message at_ r) ∧ backup_evolves r (failed_backup message at_ r).
Proof.
  intros Hs [O1 O2 O3 O4 O5 O6]. split.
  - split; simpl; [in_statuses|split; intros H; status_absurd|intros H; status_absurd|intros H; status_absurd|intros H; status_absurd|]. split; [intros _; by right|done].
  - split; simpl; [done|lia|done|]. intros H. status_absurd.
Qed.

Lemma new_backup_ok q : backup_ok (new_backup q).
Proof. split; simpl; [in_statuses|split; intros H; status_absurd|done|intros H; status_absurd|intros H; status_absurd|split; intros H; status_absurd]. Qed.

Lemma insert_backup_step id q d t t' : insert_backup id q d t = Some t' → backups_step t t'.
Proof.
  unfold insert_backup. destruct (_ || _) eqn:E; [done|]. apply orb_false_iff in E as [_ E%bool_decide_eq_false%eq_None_not_Some].
  intros Hp. eapply put_backup_step; [exact Hp|]. rewrite E. apply new_backup_ok.
Qed.

Lemma insert_verification_step id backupRunID q d t t' : insert_verification id backupRunID q d t = Some t' → backups_step t t'.
Proof.
  unfold insert_verification. destruct (_ || _) eqn:E; [done|]. apply orb_false_iff in E as [E E2%bool_decide_eq_false%eq_None_not_Some].
  apply orb_false_iff in E as [_ E1%negb_false_iff%bool_decide_eq_true]. intros Hp. eapply put_verification_step; [exact Hp|done|]. rewrite E2.
  split; simpl; [in_statuses|split; intros H; status_absurd|split; intros H; status_absurd].
Qed.

Lemma completed_verification_step result at_ r :
  vf_status r ∈ verifying_statuses → verification_ok r → verification_ok (completed_verification result at_ r) ∧ verification_evolves r (completed_verification result at_ r).
Proof.
  intros Hs [O1 O2 O3]. unfold completed_verification. split.
  - destruct (bool_decide _); (split; simpl; [in_statuses|split; intros H; status_absurd|]); (split; [intros _|done]); [by left|by right].
  - split; [done|]. intros H. status_absurd.
Qed.

Lemma complete_step result at_ t t' b :
  update_verification (vt_VerificationID result) (λ r, bool_decide (vf_status r ∈ verifying_statuses)) (completed_verification result at_) t = Some (t', b) → backups_step t t'.
Proof.
  unfold update_verification. destruct (_ !! _) as [r|] eqn:Er; [|by intros [= <- _]]. destruct (bool_decide _) eqn:Ew; [|by intros [= <- _]]. apply bool_decide_eq_true in Ew.
  intros (t1 & Hp & [= <- _])%bind_Some Hok. eapply put_verification_step; [exact Hp|exact (tk_references _ Hok _ _ Er)| |done]. rewrite Er. by apply completed_verification_step.
Qed.

(** ** The slots of the schedule *)

(** A location that is eight hours ahead of UTC from the second [start] on, as Shanghai
    has been since September 1991. *)
Definition eight_hours_since (start : Z) (loc : Location) : Prop := ∀ s, start ≤ s → loc s = 28800.

Lemma days_from_civil_add y m d k : days_from_civil y m (d + k) = days_from_civil y m d + k.
Proof. unfold days_from_civil. lia. Qed.

Lemma date_in_eight start loc y m d secs nsec :
  eight_hours_since start loc → start + 28800 ≤ days_from_civil y m d * 86400 + secs →
  date_in loc y m d secs nsec = (days_from_civil y m d * 86400 + secs - 28800) * second + nsec.
Proof. intros H Hs. unfold date_in. rewrite (H (days_from_civil y m d * 86400 + secs)) by lia. cbv zeta. by rewrite H, Z.eqb_refl by lia. Qed.

(** The slots are half past 0, 6, 12 and 18 on the three days. *)
Lemma slot_on_eight start loc now offset h :
  eight_hours_since start loc → start + 3 * 86400 ≤ unix_seconds now → -1 ≤ offset → 0 ≤ h →
  slot_on loc (add_days loc now offset) h = ((local_seconds loc now / 86400 + offset) * 86400 + h * 3600 + 1800 - 28800) * second.
Proof.
  intros He Hstart Ho Hh. unfold slot_on, add_days. set (s := local_seconds loc now).
  assert (s = unix_seconds now + 28800) as Hnow by (unfold s, local_seconds; rewrite He; lia).
  assert (start + 3 * 86400 + 28800 - 86400 < s / 86400 * 86400) as Hday by (pose proof (Z.div_mod s 86400 ltac:(lia)); pose proof (Z.mod_pos_bound s 86400 ltac:(lia)); lia).
  pose proof (Z.mod_pos_bound s 86400 ltac:(lia)) as Hmod.
  pose proof (civil_roundtrip (s / 86400)) as H1. destruct (civil_from_days (s / 86400)) as [[y m] d].
  destruct H1 as (Hd & _). rewrite (date_in_eight start loc y m (d + offset)), days_from_civil_add, Hd; [|done|rewrite days_from_civil_add, Hd; lia]. set (t := (_ * second + _)).
  assert (local_seconds loc t = (s / 86400 + offset) * 86400 + s mod 86400) as Hs.
  { assert (unix_seconds t = (s / 86400 + offset) * 86400 + s mod 86400 - 28800) as Et.
    { unfold unix_seconds, t. rewrite Z.div_add_l by done. rewrite (Z.div_small (now mod second)) by by apply Z.mod_pos_bound. lia. }
    unfold local_seconds. rewrite Et, He; lia. }
  unfold civil_in. rewrite Hs. assert (((s / 86400 + offset) * 86400 + s mod 86400) / 86400 = s / 86400 + offset) as ->.
  { rewrite Z.div_add_l by done. rewrite (Z.div_small (s mod 86400)) by by apply Z.mod_pos_bound. lia. }
  pose proof (civil_roundtrip (s / 86400 + offset)) as H2. destruct (civil_from_days _) as [[y' m'] d']. destruct H2 as (Hd' & _). simpl.
  rewrite (date_in_eight start), Hd'; [lia|done|rewrite Hd'; lia].
Qed.

(** Everything in terms of local seconds. *)
Lemma slot_arithmetic n u :
  n - 21600 ≤ u ≤ n + 86400 → (u + 27000) mod 21600 = 0 →
  let s := n + 28800 in let v := u + 28800 in let offset := v / 86400 - s / 86400 in let h := (v mod 86400 - 1800) / 3600 in
  offset ∈ [-1; 0; 1] ∧ h ∈ [0; 6; 12; 18] ∧ (s / 86400 + offset) * 86400 + h * 3600 + 1800 - 28800 = u.
Proof.
  intros Hw Hm s v offset h.
  assert (offset = -1 ∨ offset = 0 ∨ offset = 1) as Ho by (unfold offset, s, v; Z.div_mod_to_equations; lia).
  assert ((h = 0 ∨ h = 6 ∨ h = 12 ∨ h = 18) ∧ v mod 86400 = h * 3600 + 1800) as [Hh Hv] by (unfold h, v; Z.div_mod_to_equations; lia).
  split_and!; [set_solver|set_solver|]. replace (s / 86400 + offset) with (v / 86400) by (unfold offset; lia).
  pose proof (Z.div_mod v 86400 ltac:(lia)). lia.
Qed.

Lemma slots_complete start loc now u :
  eight_hours_since start loc → start + 3 * 86400 ≤ unix_seconds now →
  now - 6 * hour ≤ u * second ≤ now + 24 * hour → (u + 27000) mod 21600 = 0 → u * second ∈ backup_slots loc now.
Proof.
  intros He Hstart Hw Hm. assert (now / second - 21600 ≤ u ≤ now / second + 86400) as Hu.
  { unfold hour, minute in Hw. pose proof (Z.div_mod now second ltac:(done)). pose proof (Z.mod_pos_bound now second ltac:(done)). unfold second in *. lia. }
  destruct (slot_arithmetic _ _ Hu Hm) as (Ho & Hh & Heq). unfold backup_slots. apply list_elem_of_filter. split; [done|]. apply list_elem_of_bind.
  eexists. split; [|exact Ho]. apply list_elem_of_fmap. eexists. split; [|exact Hh]. rewrite (slot_on_eight start); [|done|done| |].
  - f_equal. assert (local_seconds loc now = now / second + 28800) as -> by (unfold local_seconds; rewrite He; unfold unix_seconds in *; lia). by symmetry.
  - rewrite !elem_of_cons, elem_of_nil in Ho. lia.
  - rewrite !elem_of_cons, elem_of_nil in Hh. lia.
Qed.

Lemma head_filter_first {A} (P : A → Prop) `{!∀ x, Decision (P x)} (l : list A) x :
  head (filter P l) = Some x → ∃ i, l !! i = Some x ∧ P x ∧ ∀ j y, (j < i)%nat → l !! j = Some y → ¬ P y.
Proof.
  induction l as [|a l IH]; [done|]. destruct (decide (P a)) as [Ha|Ha].
  - rewrite filter_cons_True by done. intros [= ->]. exists 0%nat. split_and!; [done|done|]. intros j y Hj. lia.
  - rewrite filter_cons_False by done. intros (i & Hi & Hp & Hmin)%IH. exists (S i). split_and!; [done|done|]. intros [|j] y Hj Hy; [by simplify_eq/=|]. apply (Hmin j); [lia|done].
Qed.

#[export] Instance newest_backup_weak : StrictWeak newest_backup.
Proof.
  apply (StrictWeak_ext _ (less_lex (less_flip (less_by Z.ltb (λ p : string * BackupRow, bk_created_at p.2))) (less_flip (less_by string_lt fst)))); [|apply _].
  reflexivity.
Qed.

(** ** The operations *)

Section relation.
Context {C : Type} `{!Has AlertTables C, !Has BackupTables C}.

Record service_step (c c' : C) : Prop := {
  st_backups : backups_step (part c) (part c');
  st_alerts : alert_step (part c) (part c')
}.

#[export] Instance service_step_preorder : PreOrder service_step.
Proof. split; [by split|]. intros a b c [A1 A2] [B1 B2]. split; by etrans. Qed.

End relation.

Abbreviation backup_safe := (respects service_step).
Abbreviation safe_same := (respects_same service_step).
Abbreviation safe_ret := (respects_ret service_step).
Abbreviation safe_throw := (respects_throw service_step).
Abbreviation safe_bind := (respects_bind service_step).
Abbreviation safe_catch := (respects_catch service_step).
Abbreviation safe_ignore := (respects_ignore service_step).
Abbreviation safe_clock := (respects_clock service_step).
Abbreviation safe_in_ctx := (respects_in_ctx service_step).
Abbreviation safe_for_each := (respects_for_each service_step).

(** What the loop and the handlers call. *)
Inductive BackupOperation : Type :=
  | BPass
  | BSchedules
  | BBackup
  | BVerification
  | BRequest (actorID idempotencyKey : string)
  | BRequestVerification (actorID backupRunID idempotencyKey : string).

Section laws.
Context {C : Type} `{!Has DB C, !Has AlertTables C, !Has BackupTables C, !Has CallContext C}.
Context `{!Apart AlertTables BackupTables C, !Apart BackupTables AlertTables C, !Apart CallContext AlertTables C, !Apart CallContext BackupTables C}.
Context `{uuids : !UUIDs}.

Lemma step_backups (c : C) (t : BackupTables) : backups_step (part c) t → service_step c (set_part t c).
Proof. intros H. split; by rewrite ?part_set, ?apart. Qed.

Lemma step_raised (c : C) (t : AlertTables) : alert_step (part c) t → service_step c (set_part t c).
Proof. intros H. split; by rewrite ?part_set, ?apart. Qed.

Lemma step_context (c : C) (ctx : CallContext) : service_step c (set_part ctx c).
Proof. split; by rewrite !apart. Qed.

Lemma safe_moves {A} (m : Prog C A) : moves backups_step m → backup_safe m.
Proof. intros H c. eapply wp_mono; [apply H|]. intros r c' [-> Hs]. rewrite part_set in Hs. by apply step_backups. Qed.

Lemma safe_alert_moves {A} (m : Prog C A) : moves alert_step m → backup_safe m.
Proof. intros H c. eapply wp_mono; [apply H|]. intros r c' [-> Hs]. rewrite part_set in Hs. by apply step_raised. Qed.

Lemma safe_tool {A} (m : Prog C A) : ctx_only m → backup_safe m.
Proof. intros H c. eapply wp_mono; [apply H|]. intros r c' [ctx ->]. apply step_context. Qed.

Lemma safe_RequestBackup actorID key at_ : backup_safe (RequestBackup actorID key at_).
Proof.
  unfold RequestBackup. case_bool_decide; [apply safe_throw|]. apply safe_bind; [apply safe_clock|]. intros now. destruct (request_of _ _ _ _) as [q|]; [|apply safe_throw].
  apply safe_in_ctx. intros c. apply wp_transaction; [done|]. apply wp_bind, wp_query; [done|]. destruct (find_backup q (part c)) as [[id r]|].
  - apply wp_bind, wp_commit; [done| |]; [apply wp_ret|]; simpl; by rewrite set_part_same.
  - apply wp_bind, wp_new_uuid; [done|]. intros id. apply wp_bind, wp_remote; [done|]. intros [c1 t1] u Hi. destruct (insert_backup _ _ _ _) as [t2|] eqn:Et; [|done].
    injection Hi as <- <- _. split; [|done]. apply insert_backup_step in Et. assert (service_step c (set_part t2 c)) as Hs by by apply step_backups.
    apply wp_bind. destruct (is_manual q); [apply wp_exec; [done|]; intros t3 [= <-]; split; [|done]|apply wp_ret];
      (apply wp_bind, wp_commit; [done| |done]; by apply wp_ret).
Qed.

Lemma safe_RequestVerification actorID backupRunID key at_ : backup_safe (RequestVerification actorID backupRunID key at_).
Proof.
  unfold RequestVerification. case_bool_decide; [apply safe_throw|]. destruct (parse_uuid backupRunID) as [bid|]; [|apply safe_throw].
  apply safe_bind; [apply safe_clock|]. intros now. destruct (request_of _ _ _ _) as [q|]; [|apply safe_throw].
  apply safe_in_ctx. intros c. apply wp_transaction; [done|]. apply wp_bind, wp_query; [done|]. destruct (find_verification q (part c)) as [[id r]|].
  - apply wp_bind, wp_commit; [done| |]; [apply wp_ret|]; simpl; by rewrite set_part_same.
  - apply wp_bind, wp_new_uuid; [done|]. intros id. apply wp_bind, wp_remote; [done|]. intros [c1 t1] u Hi. destruct (insert_verification _ _ _ _ _) as [t2|] eqn:Et; [|done].
    injection Hi as <- <- _. split; [|done]. apply insert_verification_step in Et. assert (service_step c (set_part t2 c)) as Hs by by apply step_backups.
    apply wp_bind. destruct (is_manual q); [apply wp_exec; [done|]; intros t3 [= <-]; split; [|done]|apply wp_ret];
      (apply wp_bind, wp_commit; [done| |done]; by apply wp_ret).
Qed.

Lemma safe_stmt {A} begin label1 label2 (f : BackupTables → option (BackupTables * A)) :
  (∀ t t' a, f t = Some (t', a) → backups_step t t') →
  backup_safe (in_ctx (transaction (T := BackupTables) begin (let! a := stmt label1 f in commit label2 ;;! ret a))).
Proof.
  intros Hf. apply safe_in_ctx, safe_moves, db_spec_transaction; [done|]. intros c. repeat tx_step; try done; by eapply Hf.
Qed.

Lemma safe_ClaimBackup now lease : backup_safe (ClaimBackup now lease).
Proof. unfold ClaimBackup. destruct (_ <=? _); [apply safe_throw|]. apply safe_stmt. intros t t' run. apply claim_backup_step. Qed.

Lemma safe_ClaimVerification now lease : backup_safe (ClaimVerification now lease).
Proof. unfold ClaimVerification. destruct (_ <=? _); [apply safe_throw|]. apply safe_stmt. intros t t' v. apply claim_verification_step. Qed.

Lemma safe_transition update : (∀ t t' b, update t = Some (t', b) → backups_step t t') → backup_safe (transition update).
Proof.
  intros Hu. apply safe_bind; [|intros []; [apply safe_ret|apply safe_throw]]. apply safe_in_ctx, safe_moves, moves_pool; [apply _|done].
Qed.

Lemma safe_MarkLocalSnapshot id result at_ : backup_safe (MarkLocalSnapshot id result at_).
Proof.
  unfold MarkLocalSnapshot. destruct (_ || _) eqn:E; [apply safe_throw|]. repeat (apply orb_false_iff in E as [E _]). apply bool_decide_eq_false in E.
  apply safe_transition. intros t t' b. apply update_backup_step. intros r Hs%bool_decide_eq_true. by apply local_snapshot_step.
Qed.

Lemma safe_MarkBackupSucceeded id cos at_ : backup_safe (MarkBackupSucceeded id cos at_).
Proof.
  unfold MarkBackupSucceeded. case_bool_decide; [apply safe_throw|]. apply safe_transition. intros t t' b. apply update_backup_step. intros r. by apply succeeded_backup_step.
Qed.

Lemma safe_MarkBackupDegraded id message at_ : backup_safe (MarkBackupDegraded id message at_).
Proof. apply safe_transition. intros t t' b. apply update_backup_step. intros r. apply degraded_backup_step. Qed.

Lemma safe_MarkBackupFailed id message at_ : backup_safe (MarkBackupFailed id message at_).
Proof. apply safe_transition. intros t t' b. apply update_backup_step. intros r Hs%bool_decide_eq_true. by apply failed_backup_step. Qed.

Lemma safe_CompleteVerification result at_ : backup_safe (CompleteVerification result at_).
Proof. apply safe_transition. intros t t' b. apply complete_step. Qed.

Lemma safe_query {A} label (f : BackupTables → A) : backup_safe (in_ctx (pool_query (T := BackupTables) label f)).
Proof. apply safe_in_ctx, safe_same. intros c. by apply wp_pool_query. Qed.

Lemma safe_EnsureSchedules LoadLocation now : backup_safe (EnsureSchedules LoadLocation now).
Proof.
  unfold EnsureSchedules. destruct (LoadLocation _) as [location|]; [|apply safe_throw]. apply safe_bind.
  { apply safe_for_each. intros slot. apply safe_bind; [apply safe_RequestBackup|]. intros run. apply safe_ret. }
  intros _. destruct (_ <? _); [apply safe_ret|]. apply safe_bind; [apply safe_query|]. intros [backupID|]; [|apply safe_ret].
  apply safe_bind; [apply safe_RequestVerification|]. intros v. apply safe_ret.
Qed.

Lemma safe_raise code severity title message : backup_safe (raise_alert code severity title message).
Proof.
  apply safe_ignore, safe_in_ctx. unfold Raise. destruct (negb _); [apply safe_throw|]. apply safe_bind; [apply safe_clock|]. intros now.
  apply safe_alert_moves, MergeOrCreate_moves.
Qed.

Lemma safe_resolve code : backup_safe (resolve_code code).
Proof.
  apply safe_ignore, safe_in_ctx. unfold Resolve. destruct (_ || _); [apply safe_throw|]. apply safe_bind; [apply safe_clock|]. intros now.
  apply safe_alert_moves, Resolve_moves.
Qed.

Lemma safe_fail {A} runID message : backup_safe (fail (A := A) runID message).
Proof.
  apply safe_bind; [apply safe_clock|]. intros now. apply safe_bind; [apply safe_catch, safe_MarkBackupFailed|]. intros [[]|e]; [|apply safe_throw].
  apply safe_bind; [apply safe_raise|]. intros _. apply safe_throw.
Qed.

Lemma safe_or_fail {A B} runID message (m : Prog C A) (k : A → Prog C B) : backup_safe m → (∀ a, backup_safe (k a)) → backup_safe (or_fail runID message m k).
Proof. intros Hm Hk. apply safe_bind; [by apply safe_catch|]. intros [a|e]; [apply Hk|apply safe_fail]. Qed.

Context `{tools : !BackupTools C, law : !BackupToolsLaw C}.

Lemma safe_make_local run : backup_safe (make_local run).
Proof.
  apply safe_or_fail; [apply safe_bind; [apply safe_query|intros runs; apply safe_ret]|]. intros latest. apply safe_or_fail; [apply safe_tool, available_frame|].
  intros available. destruct (negb _).
  { apply safe_bind; [apply safe_raise|]. intros _. apply safe_fail. }
  apply safe_or_fail; [apply safe_tool, export_frame|]. intros exported. apply safe_or_fail; [apply safe_tool, snapshot_frame|]. intros snapshot.
  apply safe_bind; [apply safe_clock|]. intros now. apply safe_bind; [apply safe_MarkLocalSnapshot|]. intros _.
  apply safe_bind; [apply safe_tool, remove_frame|]. intros _. apply safe_ret.
Qed.

Lemma retention_frame run : backup_safe (Retention_Apply run).
Proof.
  unfold Retention_Apply. destruct (_ || _); [apply safe_ret|]. apply safe_bind; [apply safe_tool, forget_local_frame|]. intros _. apply safe_tool, forget_cos_frame.
Qed.

Lemma safe_upload run : backup_safe (upload run).
Proof.
  apply safe_bind; [apply safe_catch, safe_tool, copy_frame|]. intros [cos|e].
  - apply safe_bind; [apply safe_clock|]. intros now. apply safe_bind; [apply safe_MarkBackupSucceeded|]. intros _.
    do 3 (apply safe_bind; [apply safe_resolve|]; intros _). apply safe_bind; [apply safe_catch, retention_frame|]. intros [[]|e]; [apply safe_resolve|apply safe_raise].
  - apply safe_bind; [apply safe_clock|]. intros now. apply safe_bind; [apply safe_catch, safe_MarkBackupDegraded|]. intros [[]|e']; [|apply safe_throw].
    apply safe_bind; [apply safe_raise|]. intros _. apply safe_throw.
Qed.

Lemma safe_RunBackup : backup_safe RunBackup.
Proof.
  apply safe_bind; [apply safe_clock|]. intros now. apply safe_bind; [apply safe_ClaimBackup|]. intros [run|]; [|apply safe_ret].
  apply safe_bind; [|intros run'; apply safe_upload]. destruct (bool_decide _); [apply safe_make_local|apply safe_ret].
Qed.

Lemma safe_complete_failure v message : backup_safe (completeVerificationFailure v message).
Proof.
  apply safe_bind; [apply safe_clock|]. intros now. apply safe_bind; [apply safe_CompleteVerification|]. intros _. apply safe_bind; [apply safe_raise|].
  intros _. apply safe_throw.
Qed.

Lemma safe_RunVerification : backup_safe RunVerification.
Proof.
  apply safe_bind; [apply safe_clock|]. intros now. apply safe_bind; [apply safe_ClaimVerification|]. intros [v|]; [|apply safe_ret].
  apply safe_bind; [apply safe_catch, safe_query|]. intros [backups|e]; [|apply safe_complete_failure].
  destruct (head _) as [selected|]; [|apply safe_complete_failure]. apply safe_bind; [apply safe_tool, verify_frame|]. intros [result err].
  apply safe_bind; [apply safe_clock|]. intros now'. destruct err as [e|].
  - apply safe_bind; [apply safe_CompleteVerification|]. intros _. apply safe_bind; [apply safe_raise|]. intros _. apply safe_throw.
  - apply safe_bind; [apply safe_CompleteVerification|]. intros _. apply safe_bind; [apply safe_resolve|]. intros _. apply safe_raise.
Qed.

(** The service is what the loop calls. *)
Definition backup_scanner (LoadLocation : string → option Location) : OperationalScanner C :=
  {| ensure_schedules := EnsureSchedules LoadLocation; run_backup := RunBackup; run_verification := RunVerification |}.

(** The health endpoint has no tables. *)
Context `{health : !SuccessRecorder C} (health_same : ∀ mark now (c : C), mark_successful_scan = Some mark → wp (mark now) c (λ _ c', c' = c)).

Definition operate_backups (LoadLocation : string → option Location) (operation : BackupOperation) : Prog C unit :=
  let! now := clock_now in
  match operation with
  | BPass => ignore (runOperationalOnce (Some (backup_scanner LoadLocation)))
  | BSchedules => ignore (with_timeout (EnsureSchedules LoadLocation now))
  | BBackup => ignore (with_timeout RunBackup)
  | BVerification => ignore (with_timeout RunVerification)
  | BRequest actorID idempotencyKey => ignore (with_timeout (RequestBackup actorID idempotencyKey now))
  | BRequestVerification actorID backupRunID idempotencyKey => ignore (with_timeout (RequestVerification actorID backupRunID idempotencyKey now))
  end.

Lemma safe_with_timeout {A} (m : Prog C A) : backup_safe m → backup_safe (with_timeout m).
Proof. intros H. apply safe_bind; [|by intros _]. intros c. apply wp_local. apply step_context. Qed.

Lemma safe_pass LoadLocation : backup_safe (runOperationalOnce (Some (backup_scanner LoadLocation))).
Proof.
  assert (∀ succeeded, backup_safe (record_success (C := C) succeeded)) as Hmark.
  { intros succeeded. unfold record_success. destruct mark_successful_scan as [mark|] eqn:Em; repeat respects_step. apply safe_same. intros c. by apply health_same. }
  unfold runOperationalOnce. simpl. repeat respects_step; [apply safe_with_timeout; repeat respects_step; apply safe_EnsureSchedules| | |apply Hmark];
    apply safe_with_timeout; [apply safe_RunBackup|apply safe_RunVerification].
Qed.

Lemma safe_operate LoadLocation operation : backup_safe (operate_backups LoadLocation operation).
Proof.
  apply safe_bind; [apply safe_clock|]. intros now.
  destruct operation; apply safe_ignore; [apply safe_pass|..]; apply safe_with_timeout;
    [apply safe_EnsureSchedules|apply safe_RunBackup|apply safe_RunVerification|apply safe_RequestBackup|apply safe_RequestVerification].
Qed.

(** C19: Whatever is scheduled, requested, backed up and verified, in whatever order and
    whatever fails, the tables stay well formed: no slot and no key has two runs, at most
    one backup and one verification hold a lease, a run that succeeded has both of its
    snapshots, and every verification is of a backup that exists.  The local snapshot of a
    run is made once, and a run or a verification that is over is not touched again. *)
Theorem backups_invariant LoadLocation operations (c : C) :
  backups_ok (part c) → alerting_ok (part c) →
  wp (for_each operations (operate_backups LoadLocation)) c (λ _ c', backups_ok (part c') ∧ alerting_ok (part c') ∧ backups_evolve (part c) (part c')).
Proof.
  intros Hb Ha. eapply wp_mono; [apply safe_for_each, safe_operate|]. intros r c' [S1 [_ S2]]. destruct (S1 Hb) as [? ?]. by destruct (S2 Ha) as [? _].
Qed.

(** *** One backup *)

(** The tables of the backups stay. *)
Definition backups_same (c c' : C) : Prop := part (X := BackupTables) c' = part c.

#[local] Instance backups_same_preorder : PreOrder backups_same.
Proof. split; [done|]. unfold backups_same. intros a b c -> ->. done. Qed.

Lemma same_alert_moves {A} (m : Prog C A) : moves alert_step m → respects backups_same m.
Proof. intros H c. eapply wp_mono; [apply H|]. intros r c' [-> _]. unfold backups_same. by rewrite apart. Qed.

Lemma same_tool {A} (m : Prog C A) : ctx_only m → respects backups_same m.
Proof. intros H c. eapply wp_mono; [apply H|]. intros r c' [ctx ->]. unfold backups_same. by rewrite apart. Qed.

Lemma same_raise code severity title message : respects backups_same (raise_alert code severity title message).
Proof. unfold raise_alert, Raise. respects_step. apply (respects_in_ctx backups_same). repeat respects_step. apply same_alert_moves, MergeOrCreate_moves. Qed.

Lemma same_resolve code : respects backups_same (resolve_code code).
Proof. unfold resolve_code, Resolve. respects_step. apply (respects_in_ctx backups_same). repeat respects_step. apply same_alert_moves, Resolve_moves. Qed.

Lemma same_retention run : respects backups_same (Retention_Apply run).
Proof. unfold Retention_Apply. repeat respects_step; apply same_tool; [apply forget_local_frame|apply forget_cos_frame]. Qed.

(** Only the run [id] may change. *)
Definition only_run (id : string) (c c' : C) : Prop :=
  restore_verifications (part c') = restore_verifications (part c) ∧ ∀ k, k ≠ id → backup_runs (part c') !! k = backup_runs (part c) !! k.

#[local] Instance only_run_preorder id : PreOrder (only_run id).
Proof. split; [done|]. intros a b c [A1 A2] [B1 B2]. split; [by rewrite B1|]. intros k Hk. by rewrite B2, A2. Qed.

Lemma only_same id {A} (m : Prog C A) : respects backups_same m → respects (only_run id) m.
Proof. intros H c. eapply wp_mono; [apply H|]. intros r c' Hs. unfold only_run. by rewrite Hs. Qed.

Lemma update_backup_only id where_ set t t' b :
  update_backup id where_ set t = Some (t', b) →
  restore_verifications t' = restore_verifications t ∧ (∀ k, k ≠ id → backup_runs t' !! k = backup_runs t !! k) ∧
  (b = true → ∃ r, backup_runs t !! id = Some r ∧ where_ r = true ∧ backup_runs t' !! id = Some (set r)).
Proof.
  unfold update_backup. destruct (backup_runs t !! id) as [r|] eqn:Er; [|by intros [= <- <-]]. destruct (where_ r) eqn:Ew; [|by intros [= <- <-]].
  intros (t1 & [-> _]%put_backup_inv & [= <- <-])%bind_Some. simpl. split_and!; [done|intros k Hk; by rewrite lookup_insert_ne|]. intros _. exists r.
  by rewrite lookup_insert_eq.
Qed.

Lemma only_update id where_ set : respects (only_run id) (transition (update_backup id where_ set)).
Proof.
  unfold transition. repeat respects_step. apply (respects_in_ctx (only_run id)). intros c. apply wp_pool; [done|]. intros t b (H1 & H2 & _)%update_backup_only.
  assert (only_run id c (set_part t c)) as H; [|done]. split; by rewrite part_set.
Qed.

Lemma only_query id {A} label (f : BackupTables → A) : respects (only_run id) (in_ctx (pool_query (T := BackupTables) label f)).
Proof. apply (respects_in_ctx (only_run id)), (respects_observe (only_run id)). Qed.

(** The calls of the service, for the run [id]. *)
Ltac only_step :=
  first
    [ respects_step
    | apply only_update
    | apply only_query
    | apply only_same; first [apply same_raise|apply same_resolve|apply same_retention|apply same_tool; solve [auto using available_frame, export_frame, snapshot_frame, copy_frame, remove_frame]] ].

Lemma only_fail {A} id message : respects (only_run id) (fail (A := A) id message).
Proof. unfold fail, MarkBackupFailed. repeat only_step. Qed.

Lemma only_or_fail {A B} id message (m : Prog C A) (k : A → Prog C B) :
  respects (only_run id) m → (∀ a, respects (only_run id) (k a)) → respects (only_run id) (or_fail id message m k).
Proof. intros Hm Hk. unfold or_fail. repeat only_step; [done|apply Hk|apply only_fail]. Qed.

Lemma only_make_local run : respects (only_run (bn_ID run)) (make_local run).
Proof.
  unfold make_local, latestSuccessfulBytes, ListBackups, MarkLocalSnapshot. repeat first [apply only_fail|apply only_or_fail; [|intros ?]|only_step].
Qed.

Lemma only_upload run : respects (only_run (bn_ID run)) (upload run).
Proof. unfold upload, MarkBackupSucceeded, MarkBackupDegraded. repeat only_step. Qed.

(** A pass that reports no error has made both snapshots. *)
Lemma transition_done update (c : C) :
  wp (transition update) c (λ r c', r = Ok tt → update (part c) = Some (part c', true)).
Proof.
  apply wp_bind, wp_in_ctx; [done|]. apply wp_pool; [done|]. intros t b Hu. split; [|done].
  destruct b; [apply wp_ret|by apply wp_throw]. intros _. by rewrite part_set.
Qed.

Lemma upload_done run (c : C) :
  wp (upload run) c (λ r c', r = Ok tt → ∃ row, backup_runs (part c') !! bn_ID run = Some row ∧ bk_status row = StatusSucceeded).
Proof.
  apply wp_bind, wp_catch. eapply wp_mono; [apply wp_any|]. intros [cos|e] c1 _.
  - apply wp_bind, wp_clock_now. intros now. apply wp_bind. unfold MarkBackupSucceeded. case_bool_decide; [by apply wp_throw|].
    eapply wp_mono; [apply transition_done|]. intros [[]|e] c2 H2; [|done]. specialize (H2 eq_refl) as (_ & _ & (r & _ & _ & Hr)%(λ f, f eq_refl))%update_backup_only.
    assert (respects backups_same (resolve_code (C := C) "backup_cos_degraded" ;;! resolve_code "backup_failed" ;;! resolve_code "backup_space_insufficient" ;;!
      let! applied := catch (Retention_Apply (run <| bn_COSSnapshotID := cos |> <| bn_Status := StatusSucceeded |>)) in
      match applied with
      | Err _ => raise_alert "backup_retention_failed" SeverityWarning "备份保留清理失败" "新备份已经成功，旧快照清理将在后续重试"
      | Ok _ => resolve_code "backup_retention_failed"
      end)) as Hsame.
    { repeat respects_step; auto using same_resolve, same_raise, same_retention. }
    eapply wp_mono; [apply Hsame|]. intros r' c3 H3 _. exists (succeeded_backup cos now r). by rewrite H3.
  - apply wp_bind, wp_clock_now. intros now. apply wp_bind, wp_catch. eapply wp_mono; [apply wp_any|]. intros [[]|e'] c2 _; [|by apply wp_throw].
    apply wp_bind. eapply wp_mono; [apply wp_any|]. intros [[]|e'] c3 _; [by apply wp_throw|done].
Qed.

(** A run that may be taken up at [now]: its lease is over, or it waits and is due. *)
Definition run_due (now : Time) (r : BackupRow) : Prop :=
  (bk_status r ∈ ["exporting"; "snapshotting"; "uploading"] ∧ ∃ lease, bk_lease_until r = Some lease ∧ lease ≤ now) ∨
  (bk_status r ∈ ["queued"; "degraded"] ∧ bk_next_attempt_at r ≤ now).

Definition run_active (r : BackupRow) : Prop := bk_status r ∈ ["exporting"; "snapshotting"; "uploading"].

(** The one that comes first: a run whose lease is over before one that waits, then by the
    time of the attempt, of the creation, and by the identifier. *)
Definition comes_first (id : string) (r : BackupRow) (k : string) (b : BackupRow) : Prop :=
  run_active r ∧ ¬ run_active b ∨ (run_active r ↔ run_active b) ∧
  (bk_next_attempt_at r < bk_next_attempt_at b ∨ bk_next_attempt_at r = bk_next_attempt_at b ∧
   (bk_created_at r < bk_created_at b ∨ bk_created_at r = bk_created_at b ∧ (id = k ∨ string_lt id k = true))).

Definition first_run_due (now : Time) (t : BackupTables) (id : string) (r : BackupRow) : Prop :=
  backup_runs t !! id = Some r ∧ run_due now r ∧ ∀ k b, backup_runs t !! k = Some b → run_due now b → comes_first id r k b.

Lemma backup_due_spec now r : backup_due now r = true ↔ run_due now r.
Proof.
  unfold backup_due, run_due, lease_over. rewrite orb_true_iff, !andb_true_iff, !bool_decide_eq_true, Z.leb_le.
  destruct (bk_lease_until r) as [lease|]; [rewrite Z.leb_le|]; naive_solver.
Qed.

Lemma backup_candidate_first now t id r : backup_candidate now t = Some (id, r) → first_run_due now t id r.
Proof.
  intros H. pose proof (backup_candidate_inv _ _ _ _ H) as [Hrow Hdue%backup_due_spec]. split_and!; [done..|]. intros k b Hb Hk%backup_due_spec.
  unfold backup_candidate in H. destruct (stable_sort _ _) as [|x rest] eqn:E; [discriminate H|]. injection H as ->.
  assert (StrictWeak backup_before) as HW by (apply less_lex_weak; apply _).
  apply stable_sort_head in E as [_ E]; [|done]. specialize (E (k, b)). unfold backup_before in E. rewrite !less_lex_false in E. unfold less_by in E. simpl in E.
  destruct E as [E1 E2]; [apply list_elem_of_filter; split; [done|by apply elem_of_map_to_list]|]. unfold comes_first, run_active.
  change active_statuses with ["exporting"; "snapshotting"; "uploading"] in *.
  destruct (bool_decide_reflect (bk_status r ∈ ["exporting"; "snapshotting"; "uploading"])), (bool_decide_reflect (bk_status b ∈ ["exporting"; "snapshotting"; "uploading"])); simpl in E1; try done; [right|by left|right];
    (split; [done|]); (destruct E2 as [E2|[E2 E3]]; [done|]); rewrite !Z.ltb_lt, !Z.ltb_ge in *.
  all: destruct E3 as [E3|[E3 E4]]; [by left|]; (destruct (Z.eq_dec (bk_next_attempt_at r) (bk_next_attempt_at b)); [right; split; [done|]|left; lia]).
  all: destruct E4 as [E4|E4]; [by left|]; (destruct (Z.eq_dec (bk_created_at r) (bk_created_at b)); [right; split; [done|]|left; lia]).
  all: destruct (string_lt id k) eqn:Es; [by right|left; by apply string_lt_sep].
Qed.

Lemma backup_candidate_none now t k b : backup_candidate now t = None → backup_runs t !! k = Some b → ¬ run_due now b.
Proof.
  intros H Hb Hk%backup_due_spec. unfold backup_candidate in H. destruct (stable_sort _ _) as [|x rest] eqn:E; [|discriminate H]. apply stable_sort_nil in E.
  assert ((k, b) ∈ filter (λ p, backup_due now p.2 = true) (map_to_list (backup_runs t))) as Hin; [|rewrite E in Hin; by apply elem_of_nil in Hin].
  apply list_elem_of_filter. split; [done|by apply elem_of_map_to_list].
Qed.

(** What becomes of the tables in a pass at [now]: nothing is due and nothing changes, or
    only the run that is due first changes. *)
Definition backed_up (now : Time) (succeeded : Prop) (t t' : BackupTables) : Prop :=
  (∀ k b, backup_runs t !! k = Some b → ¬ run_due now b) ∧ t' = t ∨
  ∃ id row row', first_run_due now t id row ∧ restore_verifications t' = restore_verifications t ∧
    (∀ k, k ≠ id → backup_runs t' !! k = backup_runs t !! k) ∧ backup_runs t' !! id = Some row' ∧ backup_evolves row row' ∧
    (succeeded → bk_status row' = "succeeded" ∧ bk_local_snapshot_id row' ≠ "" ∧ TrimSpace (bk_cos_snapshot_id row') ≠ "").

Lemma claim_backup_inv now lease t t' run :
  claim_backup now lease t = Some (t', run) →
  match backup_candidate now t with
  | None => t' = t ∧ run = None
  | Some (id, row) => t' = t <| backup_runs ::= <[id := claimed_backup now lease row]> |> ∧ run = Some (scanBackup id (claimed_backup now lease row))
  end.
Proof.
  unfold claim_backup. destruct (backup_candidate now t) as [[id row]|]; [|by intros [= <- <-]]. by intros (t1 & [-> _]%put_backup_inv & [= <- <-])%bind_Some.
Qed.

Lemma make_local_same_id run (c : C) : wp (make_local run) c (λ r _, ∀ run', r = Ok run' → bn_ID run' = bn_ID run).
Proof.
  assert (∀ message c1, wp (fail (A := BackupRun) (bn_ID run) message) c1 (λ r _, ∀ run', r = Ok run' → bn_ID run' = bn_ID run)) as Hfail.
  { intros message c1. apply wp_bind, wp_clock_now. intros now. apply wp_bind, wp_catch. eapply wp_mono; [apply wp_any|]. intros [[]|e] c2 _; [|by apply wp_throw].
    apply wp_bind. eapply wp_mono; [apply wp_any|]. intros [[]|e] c3 _; [by apply wp_throw|done]. }
  assert (∀ A message (m : Prog C A) k c1, (∀ a c2, wp (k a) c2 (λ r _, ∀ run', r = Ok run' → bn_ID run' = bn_ID run)) →
    wp (or_fail (bn_ID run) message m k) c1 (λ r _, ∀ run', r = Ok run' → bn_ID run' = bn_ID run)) as Hor.
  { intros A message m k c1 Hk. apply wp_bind, wp_catch. eapply wp_mono; [apply wp_any|]. intros [a|e] c2 _; [apply Hk|apply Hfail]. }
  apply Hor. intros latest c1. apply Hor. intros available c2. destruct (negb _).
  { apply wp_bind. eapply wp_mono; [apply wp_any|]. intros [[]|e] c3 _; [apply Hfail|done]. }
  apply Hor. intros exported c3. apply Hor. intros snapshot c4. apply wp_bind, wp_clock_now. intros now.
  apply wp_bind. eapply wp_mono; [apply wp_any|]. intros [[]|e] c5 _; [|done]. apply wp_bind. eapply wp_mono; [apply wp_any|]. intros [[]|e] c6 _; [|done].
  apply wp_ret. by intros run' [= <-].
Qed.

(** The work on a claimed run. *)
Lemma work_spec run (c : C) :
  wp (let! run := if bool_decide (bn_LocalSnapshotID run = "") then make_local run else ret run in upload run) c (λ r c',
    only_run (bn_ID run) c c' ∧ service_step c c' ∧ (r = Ok tt → ∃ row, backup_runs (part c') !! bn_ID run = Some row ∧ bk_status row = StatusSucceeded)).
Proof.
  assert (∀ c1 run', bn_ID run' = bn_ID run → only_run (bn_ID run) c c1 → service_step c c1 →
    wp (upload run') c1 (λ r c', only_run (bn_ID run) c c' ∧ service_step c c' ∧ (r = Ok tt → ∃ row, backup_runs (part c') !! bn_ID run = Some row ∧ bk_status row = StatusSucceeded))) as Hup.
  { intros c1 run' Hid Ho Hs. eapply wp_mono; [apply wp_conj; [apply only_upload|apply wp_conj; [apply safe_upload|apply upload_done]]|].
    intros r c' (H1 & H2 & H3). rewrite Hid in H1, H3. split_and!; [by etrans|by etrans|done]. }
  apply wp_bind. destruct (bool_decide _); [|apply wp_ret; by apply Hup].
  eapply wp_mono; [apply wp_conj; [apply only_make_local|apply wp_conj; [apply safe_make_local|apply make_local_same_id]]|].
  intros [run'|e] c1 (H1 & H2 & H3); [apply Hup; auto|done].
Qed.

Lemma untouched now (P : Prop) (t : BackupTables) : ¬ P → backed_up now P t t.
Proof.
  intros HP. destruct (backup_candidate now t) as [[id row]|] eqn:E; [right|left; split; [by intros k b; eapply backup_candidate_none|done]].
  apply backup_candidate_first in E. exists id, row, row. split_and!; [done|done|done|apply E|done|done].
Qed.

Lemma worked now (t t1 : BackupTables) id row (c1 c' : C) (P : Prop) :
  backups_ok t → backup_candidate now t = Some (id, row) → t1 = t <| backup_runs ::= <[id := claimed_backup now backup_lease row]> |> → backups_step t t1 → part c1 = t1 →
  only_run id c1 c' → service_step c1 c' → (P → ∃ row', backup_runs (part c') !! id = Some row' ∧ bk_status row' = StatusSucceeded) →
  backed_up now P t (part c').
Proof.
  intros Hok Ec -> Hstep Hc1 [O1 O2] [S1 _] HP. rewrite Hc1 in O1, O2, S1. apply backup_candidate_first in Ec. pose proof (proj1 Ec) as Hrow.
  destruct (Hstep Hok) as [Hok1 Hev1]. destruct (S1 Hok1) as [Hok2 Hev2]. assert (backups_evolve t (part c')) as Hev by (by etrans).
  destruct (te_backups _ _ Hev id row Hrow) as (row' & Hr' & He'). right. exists id, row, row'. split_and!; [done|done| |done|done|].
  - intros k Hk. rewrite O2 by done. simpl. by rewrite lookup_insert_ne.
  - intros Hp. destruct (HP Hp) as (row2 & Hr2 & Hs2). rewrite Hr' in Hr2. injection Hr2 as <-. destruct (tk_backups _ Hok2 id row' Hr') as [_ _ _ B4 B5 _].
    split_and!; [done|apply B4; rewrite Hs2; in_statuses|by apply B5].
Qed.

(** C20: A pass of the backups works on at most one run: of those whose lease is over or
    which wait and are due at the instant the pass starts, the one that comes first.  It
    touches no other run; the run keeps the local snapshot it has; and when the pass
    reports no error, either no run was due and nothing changed, or the run succeeded
    with a local and a remote snapshot. *)
Theorem RunBackup_correct (c : C) :
  backups_ok (part c) → starting RunBackup c (λ now r c', backed_up now (r = Ok tt) (part c) (part c')).
Proof.
  intros Hok. apply starting_clock. intros now.
  assert (∀ e : Error, backed_up now (@Err Error unit e = Ok tt) (part c) (part c)) as Herr by (intros e; by apply untouched).
  apply wp_bind. unfold ClaimBackup. destruct (backup_lease <=? 0) eqn:El; [done|]. clear El. apply wp_in_ctx; [done|]. apply wp_transaction; [done|].
  apply wp_bind, wp_stmt; [done|]. intros t run Hclaim. split; [|done]. pose proof (claim_backup_step _ _ _ _ _ Hclaim) as Hstep. apply claim_backup_inv in Hclaim.
  destruct (backup_candidate now (part c)) as [[id row]|] eqn:Ec.
  - destruct Hclaim as [Ht ->]. pose proof (part_set t c) as Hp. apply wp_bind, wp_commit; simpl; [done|apply wp_ret|]; simpl.
    + eapply wp_mono; [exact (work_spec (scanBackup id (claimed_backup now backup_lease row)) (set_part t c))|]. intros r c' (H1 & H2 & H3). by eapply worked.
    + by eapply (worked now _ t id row (set_part t c)).
  - destruct Hclaim as [-> ->]. assert (∀ P, backed_up now P (part c) (part c)) as Hnone by (intros P; left; split; [by intros k b; eapply backup_candidate_none|done]).
    apply wp_bind, wp_commit; simpl; [done|apply wp_ret, wp_ret|]; simpl; by rewrite set_part_same.
Qed.

(** *** Requests *)

(** A row that answers a request. *)
Definition answers (q : Request) (row : BackupRow) : bool :=
  same_value (bk_idempotency_key row) (request_key q) || same_value (bk_scheduled_for row) (request_slot q).

Lemma find_backup_Some q t id row : find_backup q t = Some (id, row) → backup_runs t !! id = Some row ∧ answers q row = true.
Proof.
  unfold find_backup. intros H. assert ((id, row) ∈ filter (λ p, answers q p.2 = true) (map_to_list (backup_runs t))) as Hin.
  { unfold answers. destruct (filter _ _); [done|]. simpl in H. injection H as ->. left. }
  apply list_elem_of_filter in Hin as [? ?%elem_of_map_to_list]. done.
Qed.

Lemma find_backup_None q t id row : find_backup q t = None → backup_runs t !! id = Some row → answers q row = false.
Proof.
  unfold find_backup. intros H Hr. destruct (answers q row) eqn:E; [|done].
  assert ((id, row) ∈ filter (λ p, answers q p.2 = true) (map_to_list (backup_runs t))) as Hin by (apply list_elem_of_filter; split; [done|by apply elem_of_map_to_list]).
  unfold answers in Hin. destruct (filter _ _); [by apply elem_of_nil in Hin|done].
Qed.

Lemma answers_new q : answers q (new_backup q) = true.
Proof. unfold answers. destruct q; simpl; by rewrite bool_decide_true. Qed.

Lemma RequestBackup_spec actorID key at_ (c : C) :
  wp (RequestBackup actorID key at_) c (λ r c', ∀ run, r = Ok run →
    ∃ q now row, request_of actorID key at_ now = Some q ∧ backup_runs (part c') !! bn_ID run = Some row ∧ answers q row = true).
Proof.
  unfold RequestBackup. case_bool_decide; [by apply wp_throw|]. apply wp_bind, wp_clock_now. intros now. destruct (request_of actorID key at_ now) as [q|] eqn:Eq; [|by apply wp_throw].
  apply wp_in_ctx; [done|]. apply wp_transaction; [done|]. apply wp_bind, wp_query; [done|]. destruct (find_backup q (part c)) as [[id r]|] eqn:Ef.
  - apply find_backup_Some in Ef as [Hr Ha]. apply wp_bind, wp_commit; [done| |done]. apply wp_ret. intros run [= <-]. exists q, now, r. simpl. by rewrite part_set.
  - apply wp_bind, wp_new_uuid; [done|]. intros id. apply wp_bind, wp_remote; [done|]. intros [c1 t1] u Hi. destruct (insert_backup _ _ _ _) as [t2|] eqn:Et; [|done].
    injection Hi as <- <- _. split; [|done]. unfold insert_backup in Et. destruct (_ || _); [done|]. apply put_backup_inv in Et as [-> _].
    apply wp_bind. destruct (is_manual q); [apply wp_exec; [done|]; intros t3 [= <-]; split; [|done]|apply wp_ret];
      (apply wp_bind, wp_commit; [done| |done]; apply wp_ret; intros run [= <-]; exists q, now, (new_backup q); simpl; rewrite part_set; simpl; rewrite lookup_insert_eq;
       split_and!; [done|done|apply answers_new]).
Qed.

(** Requests with the same key or slot are answered by the same run. *)
Lemma answers_unique q q' t i j a b :
  backups_ok t → request_key q = request_key q' → request_slot q = request_slot q' →
  backup_runs t !! i = Some a → backup_runs t !! j = Some b → answers q a = true → answers q' b = true → i = j.
Proof.
  intros Hok Hk Hs Ha Hb Haa Hbb. destruct (decide (i = j)) as [|Hne]; [done|]. exfalso. pose proof (tk_unique _ Hok i j a b Hne Ha Hb) as Hc.
  unfold answers in *. rewrite <-Hk, <-Hs in Hbb. unfold backups_clash in Hc. apply orb_false_iff in Hc as [[C1 C2]%orb_false_iff _].
  destruct q; simpl in *.
  - rewrite same_value_None, orb_false_r in Haa, Hbb.
    destruct (bk_idempotency_key a), (bk_idempotency_key b); simpl in *; try done. rewrite bool_decide_eq_true in Haa, Hbb. rewrite bool_decide_eq_false in C2. congruence.
  - rewrite same_value_None in Haa, Hbb. simpl in Haa, Hbb.
    destruct (bk_scheduled_for a), (bk_scheduled_for b); simpl in *; try done. rewrite bool_decide_eq_true in Haa, Hbb. rewrite bool_decide_eq_false in C1. congruence.
Qed.

Lemma answers_evolves q a b : backup_evolves a b → answers q b = answers q a.
Proof. intros [E _ _ _]. injection E as _ E1 E2 _ _. unfold answers. by rewrite E1, E2. Qed.

(** A request by hand that is repeated with its key, by whomever and whenever and
    whatever ran in between, is answered by the run of the first one: it makes no second
    backup. *)
Theorem backup_request_idempotent actorID actorID' key at_ at_' (between : Prog C unit) (c : C) :
  TrimSpace key ≠ "" → backup_safe between → backups_ok (part c) →
  wp (RequestBackup actorID key at_) c (λ r c1, ∀ run, r = Ok run →
    wp (between ;;! RequestBackup actorID' key at_') c1 (λ r' _, ∀ run', r' = Ok run' → bn_ID run' = bn_ID run)).
Proof.
  intros Hkey Hbetween Hok. eapply wp_mono; [apply wp_conj; [apply RequestBackup_spec|apply safe_RequestBackup]|]. intros r c1 [H1 [S1 _]] run Hr.
  destruct (H1 run Hr) as (q & now & row & Hq & Hrow & Ha). destruct (S1 Hok) as [Hok1 _]. apply wp_bind. eapply wp_mono; [apply Hbetween|].
  intros [[]|e] c2 [S2 _]; [|done]. destruct (S2 Hok1) as [Hok2 Hev2]. destruct (te_backups _ _ Hev2 _ _ Hrow) as (row2 & Hrow2 & He2). rewrite <-(answers_evolves q _ _ He2) in Ha.
  eapply wp_mono; [apply wp_conj; [apply RequestBackup_spec|apply safe_RequestBackup]|]. intros r' c3 [H3 [S3 _]] run' Hr'.
  destruct (H3 run' Hr') as (q' & now' & row' & Hq' & Hrow' & Ha'). destruct (S3 Hok2) as [Hok3 Hev3]. destruct (te_backups _ _ Hev3 _ _ Hrow2) as (row3 & Hrow3 & He3).
  rewrite <-(answers_evolves q _ _ He3) in Ha. symmetry. unfold request_of in Hq, Hq'. rewrite (bool_decide_false (TrimSpace key = "")) in Hq, Hq' by done. rewrite orb_true_r in Hq, Hq'.
  destruct (parse_uuid actorID) as [actor|]; [|done]. destruct (parse_uuid actorID') as [actor'|]; [|done]. simpl in Hq, Hq'. destruct (parse_uuid key); [|done]. simpl in Hq, Hq'.
  injection Hq as <-. injection Hq' as <-. by eapply (answers_unique _ _ _ _ _ _ _ Hok3).
Qed.

(** *** A backup that takes too long *)

(** While a run is active no other can be claimed. *)
Lemma claim_exclusive now lease t t' run id row :
  backups_ok t → backup_runs t !! id = Some row → bk_status row ∈ active_statuses → claim_backup now lease t = Some (t', run) →
  (t' = t ∧ run = None) ∨
  (t' = t <| backup_runs ::= <[id := claimed_backup now lease row]> |> ∧ run = Some (scanBackup id (claimed_backup now lease row))).
Proof.
  intros Hok Hrow Hs. unfold claim_backup. destruct (backup_candidate now t) as [[k x]|] eqn:Ec; [|intros [= <- <-]; by left].
  apply backup_candidate_inv in Ec as [Hx _]. intros (t1 & [-> Hc]%put_backup_inv & [= <- <-])%bind_Some. right. destruct (decide (k = id)) as [->|Hne]; [by simplify_eq|].
  exfalso. specialize (Hc id row Hrow ltac:(congruence)). unfold backups_clash in Hc. apply orb_false_iff in Hc as [_ Hc].
  assert (backup_leased (claimed_backup now lease x) = true) as H1.
  { unfold backup_leased, claimed_backup. simpl. destruct (bool_decide (bk_local_snapshot_id x = "")); by vm_compute. }
  assert (backup_leased row = true) as H2.
  { unfold backup_leased. rewrite !bool_decide_true; [done| |done]. by apply (bo_lease row (tk_backups _ Hok id row Hrow)). }
  by rewrite H1, H2 in Hc.
Qed.

Section slow.
Context `{!Apart BackupTables CallContext C}.
(** No request to the database fails; the export outlasts the context of the pass, and
    there is room for one and a half times any backup that is recorded. *)
Context (W : Regime) (calm : ¬ faulty W).
Context (slow : ∀ run (c : C), under W (Export run) c (λ r c', is_ok r = false ∧ c' = set_part (mkCallContext true) c)).
Context (roomy : ∀ c : C, under W availableBytes c (λ r c', c' = c ∧ ∃ available, r = Ok available ∧
  ∀ latest, latest = 0 ∨ (∃ k row, backup_runs (part c) !! k = Some row ∧ bk_byte_size row = latest) → HasEnoughSpace available latest = true)).

(** The run [id] is being exported, with what was asked for and without an end; no other
    run, no verification and no alert is different. *)
Definition exporting (id : string) (row : BackupRow) (c c' : C) : Prop :=
  backups_ok (part c') ∧
  (∃ row', backup_runs (part c') !! id = Some row' ∧ bk_status row' = "exporting" ∧ bk_finished_at row' = None ∧ bk_local_snapshot_id row' = "" ∧
     bk_attempts row ≤ bk_attempts row') ∧
  (∀ k, k ≠ id → backup_runs (part c') !! k = backup_runs (part c) !! k) ∧ restore_verifications (part c') = restore_verifications (part c) ∧
  part (X := AlertTables) c' = part c.

Lemma exporting_ctx id row c c' (ctx : CallContext) : exporting id row c c' → exporting id row c (set_part ctx c').
Proof. unfold exporting. by rewrite !apart. Qed.

Lemma latest_recorded (t : BackupTables) run :
  head (filter (λ run, bn_Status run = StatusSucceeded ∧ 0 < bn_ByteSize run) (listed_backups 100 t)) = Some run →
  ∃ k row, backup_runs t !! k = Some row ∧ bk_byte_size row = bn_ByteSize run.
Proof.
  intros H. assert (run ∈ listed_backups 100 t) as Hin.
  { assert (run ∈ filter (λ run, bn_Status run = StatusSucceeded ∧ 0 < bn_ByteSize run) (listed_backups 100 t)) as Hf by (destruct (filter _ _); simplify_eq/=; left).
    by apply list_elem_of_filter in Hf as [_ Hf]. }
  apply list_elem_of_fmap in Hin as ([k row] & -> & Hin). exists k, row. split; [|done]. apply elem_of_take in Hin as (i & Hi & _).
  apply list_elem_of_lookup_2, elem_of_stable_sort, elem_of_map_to_list in Hi. done.
Qed.

(** The export is cut off, and the failure cannot be recorded. *)
Lemma make_local_slow run (c : C) : ctx_done (part c) = false → under W (make_local run) c (λ r c', is_ok r = false ∧ c' = set_part (mkCallContext true) c).
Proof.
  intros Hctx. apply under_bind, under_catch, under_bind, under_in_ctx; [by rewrite Hctx|]. intros _. apply under_pool_query; [by intros|]. apply under_ret.
  apply under_bind, under_catch. eapply under_mono; [apply roomy|]. intros r c1 (-> & available & -> & Hroom). cbv beta iota.
  rewrite Hroom; [|destruct (head _) as [x|] eqn:E; [right; by apply latest_recorded|by left]]. cbn [negb].
  apply under_bind, under_catch. eapply under_mono; [apply slow|]. intros [x|e] c1 [Hx ->]; [done|]. apply under_bind, under_clock_now. intros now _.
  apply under_bind, under_catch, under_bind, under_in_ctx; [|by rewrite part_set]. intros _ e'. by apply under_throw.
Qed.

Lemma RunBackup_slow id row (c c1 : C) : ctx_done (part c1) = false → exporting id row c c1 → under W RunBackup c1 (λ _ c', exporting id row c c').
Proof.
  intros Hctx Hexp. pose proof Hexp as (Hok & (row1 & Hrow & Hs & Hfin & Hsnap & Hatt) & Ho & Hv & Ha). apply under_bind, under_clock_now. intros now _.
  apply under_bind. unfold ClaimBackup. destruct (_ <=? _); [by apply under_throw|]. apply under_in_ctx; [by rewrite Hctx|]. intros _.
  apply under_transaction; [done|]. apply under_bind, under_stmt; [done|]. intros t run Hclaim. split; [|done].
  pose proof (claim_backup_step _ _ _ _ _ Hclaim) as Hstep. destruct (Hstep Hok) as [Hok1 _].
  assert (bk_status row1 ∈ active_statuses) as Hact by (rewrite Hs; in_statuses).
  destruct (claim_exclusive _ _ _ _ _ id row1 Hok Hrow Hact Hclaim) as [[-> ->]|[-> ->]].
  { apply under_bind, under_commit; simpl; [done|]. apply under_ret, under_ret. simpl. by rewrite set_part_same. }
  set (c2 := set_part ((part c1) <| backup_runs ::= <[id := claimed_backup now backup_lease row1]> |> : BackupTables) c1).
  assert (exporting id row c c2) as Hexp2.
  { unfold exporting, c2. rewrite part_set, apart. split_and!; [done| | |done|done].
    - eexists. simpl. rewrite lookup_insert_eq. split; [done|]. simpl. rewrite bool_decide_true by done. split_and!; [done..|lia].
    - intros k Hk. simpl. rewrite lookup_insert_ne by done. by apply Ho. }
  apply under_bind, under_commit; simpl; [done|]. fold c2. apply under_ret. simpl. rewrite bool_decide_true by done. apply under_bind.
  eapply under_mono; [apply make_local_slow; unfold c2; by rewrite apart|]. intros [run|e] c3 [Hr ->]; [done|by apply exporting_ctx].
Qed.

(** C22: While the export of the run that is being worked on takes longer than the 30
    minutes a pass has, and even though no request to the database fails and there is
    room for the export, no pass ever takes up another run, none marks the run as failed
    and none raises an alert, because the failure would have to be recorded with the
    context that has run out: however many passes there are, the run is still being
    exported, and every other run, every verification and every alert is as it was. *)
Theorem slow_export_starves passes id row (c : C) :
  backups_ok (part c) → backup_runs (part c) !! id = Some row → bk_status row = "exporting" →
  under W (for_each (seq 0 passes) (λ _, ignore (with_timeout RunBackup))) c (λ r c', r = Ok tt ∧ exporting id row c c').
Proof.
  intros Hok Hrow Hs. apply under_for_each.
  - pose proof (tk_backups _ Hok id row Hrow) as [_ _ B3 _ _ B6]. split_and!; [done| |done|done|done]. exists row. split_and!; [done|done| |apply B3; rewrite Hs; in_statuses|done].
    destruct (bk_finished_at row) as [t|]; [|done]. destruct (proj1 B6 (ex_intro _ t eq_refl)) as [E|E]; rewrite E in Hs; discriminate Hs.
  - intros _ c1 H1 _. apply under_ignore, under_bind, under_local. simpl. eapply under_mono; [apply RunBackup_slow; [by rewrite part_set|by apply exporting_ctx]|]. done.
Qed.

End slow.

(** *** The schedule *)

Lemma Request_slot slot (c : C) :
  wp (RequestBackup "" "" slot) c (λ r c', is_ok r = true → ∃ id row, backup_runs (part c') !! id = Some row ∧ bk_scheduled_for row = Some slot).
Proof.
  eapply wp_mono; [apply RequestBackup_spec|]. intros [run|e] c' H Hk; [|done]. destruct (H run eq_refl) as (q & now & row & Hq & Hrow & Ha). exists (bn_ID run), row. split; [done|].
  unfold request_of in Hq. simpl in Hq. injection Hq as <-. unfold answers in Ha. simpl in Ha. rewrite same_value_None in Ha. simpl in Ha.
  destruct (bk_scheduled_for row) as [x|]; [|done]. simpl in Ha. apply bool_decide_eq_true in Ha. by subst.
Qed.

Definition has_run (slot : Time) (t : BackupTables) : Prop := ∃ id row, backup_runs t !! id = Some row ∧ bk_scheduled_for row = Some slot.

Lemma has_run_evolves slot t t' : backups_evolve t t' → has_run slot t → has_run slot t'.
Proof.
  intros [E _] (id & row & Hr & Hs). destruct (E id row Hr) as (row' & Hr' & [Er _ _ _]). injection Er as _ Es _ _ _. exists id, row'. by rewrite Es.
Qed.

Lemma Ensure_slots slots (c : C) :
  backups_ok (part c) →
  wp (for_each slots (λ slot, RequestBackup "" "" slot ;;! ret tt)) c (λ r c', backups_ok (part c') ∧ (r = Ok tt → ∀ slot, slot ∈ slots → has_run slot (part c'))).
Proof.
  revert c. induction slots as [|slot slots IH]; intros c Hok; [apply wp_ret; split; [done|]; intros _ x Hx; by apply elem_of_nil in Hx|].
  apply wp_bind, wp_bind. eapply wp_mono; [apply wp_conj; [apply Request_slot|apply safe_RequestBackup]|]. intros [run|e] c1 [H1 [S1 _]]; destruct (S1 Hok) as [Hok1 _]; [|done].
  apply wp_ret. eapply wp_mono; [apply wp_conj; [by apply IH|apply safe_for_each; intros x; apply safe_bind; [apply safe_RequestBackup|intros ?; apply safe_ret]]|].
  intros r c2 [[Hok2 H2] [S2 _]]. destruct (S2 Hok1) as [_ Hev]. split; [done|]. intros Hr x [->|Hx]%elem_of_cons; [|by apply H2]. eapply has_run_evolves; [exact Hev|]. by apply H1.
Qed.

(** C21: When the schedules were ensured without error, every full slot of the schedule
    (half past 0, 6, 12 and 18 in Shanghai) from six hours ago to a day ahead has a run,
    and exactly one.  The offset of the location need only be eight hours since three days
    before now, as that of Shanghai has been since 1991. *)
Theorem schedules_complete LoadLocation location start now u (c : C) :
  LoadLocation "Asia/Shanghai" = Some location → eight_hours_since start location → start + 3 * 86400 ≤ unix_seconds now → backups_ok (part c) →
  now - 6 * hour ≤ u * second ≤ now + 24 * hour → (u + 8 * 3600 - 30 * 60) mod (6 * 3600) = 0 →
  wp (EnsureSchedules LoadLocation now) c (λ r c', r = Ok tt →
    ∃ id row, backup_runs (part c') !! id = Some row ∧ bk_scheduled_for row = Some (u * second) ∧
      ∀ id' row', backup_runs (part c') !! id' = Some row' → bk_scheduled_for row' = Some (u * second) → id' = id).
Proof.
  intros Hloc Height Hstart Hok Hw Hm. replace (u + 8 * 3600 - 30 * 60) with (u + 27000) in Hm by lia.
  pose proof (slots_complete start location now u Height Hstart Hw Hm) as Hin.
  unfold EnsureSchedules. rewrite Hloc. apply wp_bind. eapply wp_mono; [by apply Ensure_slots|]. intros [[]|e] c1 [Hok1 H1]; [|done]. specialize (H1 eq_refl _ Hin).
  assert (∀ m : Prog C unit, backup_safe m → wp m c1 (λ r c', r = Ok tt → ∃ id row, backup_runs (part c') !! id = Some row ∧ bk_scheduled_for row = Some (u * second) ∧
    ∀ id' row', backup_runs (part c') !! id' = Some row' → bk_scheduled_for row' = Some (u * second) → id' = id)) as Hrest.
  { intros m Hsafe. eapply wp_mono; [apply Hsafe|]. intros r c2 [S _] _. destruct (S Hok1) as [Hok2 Hev]. destruct (has_run_evolves _ _ _ Hev H1) as (id & row & Hr & Hs).
    exists id, row. split_and!; [done|done|]. intros id' row' Hr' Hs'. destruct (decide (id' = id)) as [|Hne]; [done|]. exfalso.
    pose proof (tk_unique _ Hok2 id' id row' row Hne Hr' Hr) as Hc. unfold backups_clash in Hc. rewrite Hs, Hs' in Hc. simpl in Hc. by rewrite bool_decide_true in Hc. }
  apply Hrest. destruct (_ <? _); [apply safe_ret|]. apply safe_bind; [apply safe_query|]. intros [backupID|]; [|apply safe_ret].
  apply safe_bind; [apply safe_RequestVerification|]. intros v. apply safe_ret.
Qed.

(** *** The summary *)

(** C23: The summary shows the state of the run that was created last among those that
    were started, whenever they ended.  Scheduled runs are created a day ahead, so a backup
    requested by hand that succeeded hides the failures of all the scheduled ones that
    follow it for a day. *)
Theorem summary_hides_failures m row (c : C) :
  backup_runs (part c) !! m = Some row → bk_status row = StatusSucceeded →
  (∀ id r, id ≠ m → backup_runs (part c) !! id = Some r → bk_status r ≠ StatusQueued → bk_created_at r < bk_created_at row) →
  wp Summary_ c (λ r _, ∀ s, r = Ok s → sm_Status s ∈ ["healthy"; "not_started"]).
Proof.
  intros Hrow Hs Hlast. apply wp_bind, wp_clock_now. intros now. apply wp_bind, wp_in_ctx; [done|]. apply wp_pool_query; [done|].
  apply wp_bind, wp_in_ctx; [done|]. apply wp_pool_query; [done|]. apply wp_bind, wp_in_ctx; [done|]. apply wp_pool_query; [done|]. apply wp_ret. intros s [= <-]. simpl.
  unfold summary_status. destruct (head _) as [run|] eqn:Eh; [|right; left]. apply head_filter_first in Eh as (i & Hi & Hp & Hmin). unfold listed_backups in Hi, Hmin.
  set (l := stable_sort newest_backup (map_to_list (backup_runs (part c)))) in *. set (n := Z.to_nat _) in *. apply list_lookup_fmap_Some in Hi as ([k r] & -> & Hi).
  apply lookup_take_Some in Hi as [Hi Hn]. simpl in Hp. assert ((k, r) ∈ map_to_list (backup_runs (part c))) as Hk%elem_of_map_to_list by (apply (elem_of_stable_sort newest_backup); by eapply list_elem_of_lookup_2).
  destruct (decide (k = m)) as [->|Hne].
  { assert (r = row) as -> by congruence. rewrite (bool_decide_true (bn_Status (scanBackup (m, row).1 (m, row).2) = StatusSucceeded)) by exact Hs. left. }
  exfalso.
  specialize (Hlast k r Hne Hk Hp). assert ((m, row) ∈ l) as (j & Hj)%list_elem_of_lookup_1 by (apply elem_of_stable_sort; by apply elem_of_map_to_list).
  assert (newest_backup (m, row) (k, r) = true) as Hlt.
  { unfold newest_backup. apply less_lex_true. left. unfold less_flip, less_by. simpl. lia. }
  destruct (decide (j < i)%nat) as [Hlt'|Hge].
  - eapply (Hmin j (scanBackup m row)); [done| |simpl; by rewrite Hs]. rewrite list_lookup_fmap, lookup_take_lt by lia. by rewrite Hj.
  - assert (i ≠ j) as Hij by (intros ->; simplify_eq). pose proof (stable_sort_lookup newest_backup _ i j _ _ ltac:(lia) Hi Hj) as H. congruence.
Qed.

End laws.

(** ** Examples *)

#[local] Existing Instance any_uuid.

Record Vault : Type := mkVault { va_db : DB; va_alerts : AlertTables; va_backups : BackupTables; va_ctx : CallContext }.

#[export] Instance vault_db : Has DB Vault.
Proof. by refine {| part := va_db; set_part := λ d c, mkVault d (va_alerts c) (va_backups c) (va_ctx c) |}; intros []. Defined.
#[export] Instance vault_alerts : Has AlertTables Vault.
Proof. by refine {| part := va_alerts; set_part := λ t c, mkVault (va_db c) t (va_backups c) (va_ctx c) |}; intros []. Defined.
#[export] Instance vault_backups : Has BackupTables Vault.
Proof. by refine {| part := va_backups; set_part := λ t c, mkVault (va_db c) (va_alerts c) t (va_ctx c) |}; intros []. Defined.
#[export] Instance vault_ctx : Has CallContext Vault.
Proof. by refine {| part := va_ctx; set_part := λ x c, mkVault (va_db c) (va_alerts c) (va_backups c) x |}; intros []. Defined.
#[export] Instance vault_apart1 : Apart AlertTables BackupTables Vault.
Proof. by split. Qed.
#[export] Instance vault_apart2 : Apart BackupTables AlertTables Vault.
Proof. by split. Qed.
#[export] Instance vault_apart3 : Apart CallContext AlertTables Vault.
Proof. by split. Qed.
#[export] Instance vault_apart4 : Apart CallContext BackupTables Vault.
Proof. by split. Qed.

#[export] Instance vault_apart5 : Apart BackupTables CallContext Vault.
Proof. by split. Qed.

(** Tools that do their work, and an export that outlasts every context. *)
Definition good_tools : BackupTools Vault := {|
  availableBytes := ret int64_max;
  Export run := ret (mkExportResult ("/staging/" +:+ bn_ID run) "digest" 1000 2);
  SnapshotLocal _ id := ret ("local-" +:+ id);
  CopyToCOS _ id := ret ("cos-" +:+ id);
  ForgetLocal _ := ret tt;
  ForgetCOS _ := ret tt;
  RemoveAll _ := ret tt;
  Verify verification run := ret (mkVerificationResult (rv_ID verification) "yunling_verify" "19" (bn_ObjectCount run) "", None)
|}.

Definition slow_tools : BackupTools Vault := {|
  availableBytes := ret int64_max;
  Export _ := local (λ c, (set_part (mkCallContext true) c, tt)) ;;! throw (EOther "context deadline exceeded");
  SnapshotLocal _ id := ret id;
  CopyToCOS _ id := ret id;
  ForgetLocal _ := ret tt;
  ForgetCOS _ := ret tt;
  RemoveAll _ := ret tt;
  Verify verification run := ret (mkVerificationResult (rv_ID verification) "" "" 0 "", None)
|}.

Lemma ret_ctx_only {A} (a : A) : ctx_only (C := Vault) (ret a).
Proof. intros c. apply wp_ret. exists (part c). by rewrite set_part_same. Qed.

Lemma good_tools_law : BackupToolsLaw Vault (tools := good_tools).
Proof. split; intros; apply ret_ctx_only. Qed.

Lemma slow_export W run (c : Vault) : under W (Export (BackupTools := slow_tools) run) c (λ r c', is_ok r = false ∧ c' = set_part (mkCallContext true) c).
Proof. apply under_bind, under_local. by apply under_throw. Qed.

Lemma enough_space latest : HasEnoughSpace int64_max latest = true.
Proof.
  unfold HasEnoughSpace, RequiredFreeBytes. apply Z.leb_le. destruct (latest <=? 0); [by vm_compute|]. destruct (_ <? latest); [done|].
  pose proof (wrap64_range (latest + go_div latest 2)) as [_ H]. cbv zeta. destruct (_ <? twoGiB); [by vm_compute|exact H].
Qed.

Lemma slow_roomy W (c : Vault) :
  under W (availableBytes (BackupTools := slow_tools)) c (λ r c', c' = c ∧ ∃ available, r = Ok available ∧
    ∀ latest, latest = 0 ∨ (∃ k row, backup_runs (part c) !! k = Some row ∧ bk_byte_size row = latest) → HasEnoughSpace available latest = true).
Proof. apply under_ret. split; [done|]. exists int64_max. split; [done|]. intros latest _. apply enough_space. Qed.

(** Noon in Shanghai on some day. *)
Definition noon : Time := (20000 * 86400 + 4 * 3600) * second.
(** Summer time until September 1991, the offset of standard time since. *)
Definition shanghai : Location := λ s, if s <? 684867600 then 32400 else 28800.
Definition zones (name : string) : option Location := if bool_decide (name = "Asia/Shanghai") then Some shanghai else None.

Lemma shanghai_eight : eight_hours_since 684867600 shanghai.
Proof. intros s Hs. unfold shanghai. destruct (Z.ltb_spec s 684867600); [lia|reflexivity]. Qed.

Definition empty_vault : Vault := mkVault empty_tables no_alert_tables (mkBackupTables ∅ ∅) (mkCallContext false).

Lemma empty_vault_ok : backups_ok (part (C := Vault) empty_vault) ∧ alerting_ok (part (C := Vault) empty_vault).
Proof.
  split; [split; [intros id r Hr|intros i j a b _ Ha|intros id r Hr|intros i j a b _ Ha|intros id r Hr]; simpl in *; by rewrite lookup_empty in *|].
  split; [apply map_Forall_empty..|]. intros i j x y H. change ((∅ : gmap string OutboxRow) !! i = Some x) in H. by rewrite lookup_empty in H.
Qed.

Definition run_ids : list string := ["r1"; "r2"; "r3"; "r4"; "r5"; "n1"; "n2"; "n3"; "n4"; "v1"; "n5"; "n6"; "n7"].
(** No health endpoint is attached. *)
Definition no_recorder : SuccessRecorder Vault := {| mark_successful_scan := None |}.

Lemma no_recorder_same mark now (c : Vault) : mark_successful_scan (SuccessRecorder := no_recorder) = Some mark → wp (mark now) c (λ _ c', c' = c).
Proof. done. Qed.

Abbreviation day_of_backups := (for_each [BPass; BPass] (operate_backups (C := Vault) (tools := good_tools) (health := no_recorder) zones)
  (empty_vault, calm run_ids noon)).

Lemma backups_invariant_witness :
  (bk_status <$> backup_runs (va_backups day_of_backups.1.1) !! "r1") = Some StatusSucceeded ∧
  (vf_status <$> restore_verifications (va_backups day_of_backups.1.1) !! "v1") = Some VerificationSucceeded ∧
  backups_ok (part (C := Vault) day_of_backups.1.1).
Proof.
  split; [vm_compute; reflexivity|]. split; [vm_compute; reflexivity|]. destruct empty_vault_ok as [Hb Ha].
  exact (proj1 (wp_result _ _ _ _ (backups_invariant (tools := good_tools) (law := good_tools_law) (health := no_recorder) no_recorder_same zones [BPass; BPass] empty_vault Hb Ha))).
Defined.

(** A run that is due. *)
Definition due_row : BackupRow := new_backup (ForSlot noon noon).
Definition vault_of (rows : gmap string BackupRow) : Vault := mkVault empty_tables no_alert_tables (mkBackupTables rows ∅) (mkCallContext false).

Lemma vault_ok rows : map_Forall (λ _ r, backup_ok r) rows → unclashed backups_clash rows → backups_ok (part (C := Vault) (vault_of rows)).
Proof. intros H1 H2. split; simpl; [exact H1|exact H2|intros id r Hr|intros i j a b _ Ha|intros id r Hr]; by rewrite lookup_empty in *. Qed.

Lemma due_ok : backups_ok (part (C := Vault) (vault_of {["r1" := due_row]})).
Proof.
  apply vault_ok; [apply map_Forall_singleton, new_backup_ok|]. intros i j a b Hne [<- <-]%lookup_singleton_Some [<- <-]%lookup_singleton_Some. done.
Qed.

Abbreviation one_backup := (RunBackup (C := Vault) (tools := good_tools) (vault_of {["r1" := due_row]}, calm [] noon)).

Lemma RunBackup_correct_witness :
  one_backup.2 = Ok tt ∧ (bk_status <$> backup_runs (va_backups one_backup.1.1) !! "r1") = Some StatusSucceeded ∧
  backed_up noon (one_backup.2 = Ok tt) (part (C := Vault) (vault_of {["r1" := due_row]})) (part (C := Vault) one_backup.1.1).
Proof.
  split; [vm_compute; reflexivity|]. split; [vm_compute; reflexivity|].
  exact (starting_result _ _ _ (calm [] noon) (RunBackup_correct (tools := good_tools) (law := good_tools_law) (vault_of {["r1" := due_row]}) due_ok)).
Defined.

(** Someone who may ask for a backup. *)
Definition staffed : Vault :=
  mkVault (empty_tables <| accounts := no_accounts <| user_rows := {["ann" := mkUserRow "ann@example.org" "Ann" "" true false None 0 0]} |> |>)
    no_alert_tables (mkBackupTables ∅ ∅) (mkCallContext false).

Lemma staffed_ok : backups_ok (part (C := Vault) staffed).
Proof. exact (proj1 empty_vault_ok). Qed.

Abbreviation asked := (RequestBackup (C := Vault) "ann" "key-1" noon (staffed, calm ["r1"] noon)).

Lemma backup_request_idempotent_witness :
  (bn_ID <$> match asked.2 with Ok run => Some run | Err _ => None end) = Some "r1" ∧
  ∀ run, asked.2 = Ok run → wp (RunBackup (tools := good_tools) ;;! RequestBackup (C := Vault) "ann" "key-1" (noon + hour)) asked.1.1 (λ r' _, ∀ run', r' = Ok run' → bn_ID run' = bn_ID run).
Proof.
  split; [vm_compute; reflexivity|]. assert (TrimSpace "key-1" ≠ "") as Hk by (vm_compute; discriminate).
  exact (wp_result _ _ _ (calm ["r1"] noon) (backup_request_idempotent "ann" "ann" "key-1" noon (noon + hour) (RunBackup (tools := good_tools)) staffed Hk
    (safe_RunBackup (law := good_tools_law)) staffed_ok)).
Defined.

(** A run being exported, and one that waits. *)
Definition exporting_row : BackupRow := claimed_backup noon backup_lease due_row.
Definition waiting_row : BackupRow := new_backup (ForSlot (noon + 6 * hour) noon).
Definition busy_rows : gmap string BackupRow := {["r1" := exporting_row; "r2" := waiting_row]}.

Lemma busy_ok : backups_ok (part (C := Vault) (vault_of busy_rows)).
Proof.
  assert (backup_ok exporting_row) as H1 by (apply claimed_backup_step; [intros H; status_absurd|apply new_backup_ok]).
  apply vault_ok.
  - apply map_Forall_insert_2; [exact H1|]. apply map_Forall_singleton, new_backup_ok.
  - intros i j a b Hne Ha Hb. unfold busy_rows in *. apply lookup_insert_Some in Ha as [[<- <-]|[_ [<- <-]%lookup_singleton_Some]], Hb as [[<- <-]|[_ [<- <-]%lookup_singleton_Some]]; try done; vm_compute; reflexivity.
Qed.

(** A pass every hour, after the lease of the one before. *)
Definition clock_of_hours : Oracle := mkOracle [] [] (noon + hour, (λ n, noon + (Z.of_nat n / 2 + 1) * hour) <$> seq 1 200).

Abbreviation slow_day := (for_each (seq 0 20) (λ _, ignore (with_timeout (RunBackup (C := Vault) (tools := slow_tools)))) (vault_of busy_rows, clock_of_hours)).

Lemma slow_export_starves_witness :
  (bk_attempts <$> backup_runs (va_backups slow_day.1.1) !! "r1") = Some 21 ∧ (bk_status <$> backup_runs (va_backups slow_day.1.1) !! "r2") = Some StatusQueued ∧
  exporting "r1" exporting_row (vault_of busy_rows) slow_day.1.1.
Proof.
  split; [vm_compute; reflexivity|]. split; [vm_compute; reflexivity|].
  assert (abides without_faults clock_of_hours) as Ho.
  { split; [|constructor]. apply Forall_forall. intros x _. exact I. }
  exact (proj2 (under_result _ _ _ _ clock_of_hours (slow_export_starves (tools := slow_tools) without_faults without_faults_calm (slow_export without_faults)
    (slow_roomy without_faults) 20 "r1" exporting_row (vault_of busy_rows) busy_ok eq_refl eq_refl) Ho)).
Defined.

(** Half past six in the evening. *)
Definition evening_slot : Z := 20000 * 86400 + 10 * 3600 + 1800.

Abbreviation scheduled_day := (EnsureSchedules (C := Vault) zones noon (empty_vault, calm run_ids noon)).

Lemma schedules_complete_witness :
  scheduled_day.2 = Ok tt ∧ ∃ id row, backup_runs (part (C := Vault) scheduled_day.1.1) !! id = Some row ∧ bk_scheduled_for row = Some (evening_slot * second).
Proof.
  assert (scheduled_day.2 = Ok tt) as Hr by (vm_compute; reflexivity). split; [exact Hr|].
  assert (noon - 6 * hour ≤ evening_slot * second ≤ noon + 24 * hour) as Hw by (vm_compute; split; discriminate).
  assert ((evening_slot + 8 * 3600 - 30 * 60) mod (6 * 3600) = 0) as Hm by (vm_compute; reflexivity).
  assert (684867600 + 3 * 86400 ≤ unix_seconds noon) as Hstart by (vm_compute; discriminate).
  pose proof (wp_result _ _ _ (calm run_ids noon) (schedules_complete zones shanghai 684867600 noon evening_slot empty_vault eq_refl shanghai_eight Hstart (proj1 empty_vault_ok) Hw Hm)) as H.
  revert Hr H. generalize scheduled_day. intros run Hr H. destruct (H Hr) as (id & row & H1 & H2 & _). exists id, row. split; [exact H1|exact H2].
Defined.

(** A backup by hand at noon, and the scheduled one of the evening that failed. *)
Definition hand_row : BackupRow := succeeded_backup "cos-1" (noon + hour) (local_snapshot (mkSnapshotResult "local-1" "digest" 1000 2) noon (claimed_backup noon backup_lease (new_backup (ByHand "key-1" "ann" noon)))).
Definition failed_row : BackupRow := failed_backup "导出备份数据失败" (noon + 7 * hour) (claimed_backup (noon + 6 * hour) backup_lease (new_backup (ForSlot (noon + 6 * hour) (noon - hour)))).
Definition hidden_rows : gmap string BackupRow := {["r1" := hand_row; "r2" := failed_row]}.

Abbreviation shown := (Summary_ (C := Vault) (vault_of hidden_rows, calm [] (noon + 8 * hour))).

Lemma summary_hides_failures_witness :
  (sm_Status <$> match shown.2 with Ok s => Some s | Err _ => None end) = Some "healthy" ∧ bk_status failed_row = StatusFailed ∧
  ∀ s, shown.2 = Ok s → sm_Status s ∈ ["healthy"; "not_started"].
Proof.
  split; [vm_compute; reflexivity|]. split; [reflexivity|].
  assert (∀ id r, id ≠ "r1" → backup_runs (part (C := Vault) (vault_of hidden_rows)) !! id = Some r → bk_status r ≠ StatusQueued → bk_created_at r < bk_created_at hand_row) as H.
  { intros id r Hne Hr _. change (hidden_rows !! id = Some r) in Hr. unfold hidden_rows in Hr. apply lookup_insert_Some in Hr as [[<- _]|[_ [<- <-]%lookup_singleton_Some]]; [done|vm_compute; reflexivity]. }
  exact (wp_result _ _ _ (calm [] (noon + 8 * hour)) (summary_hides_failures "r1" hand_row (vault_of hidden_rows) eq_refl eq_refl H)).
Defined.
