(* ===== verification/FleetStore.v ===== *)
(** * FleetStore

    [internal/server/postgres.go] and [groups_postgres.go]: the tables of the servers,
    of the enrollment tokens and of the agents' identities. *)

From Stdlib Require Import SpecFloat.
From S2P Require Import Prelude GoStd GoPath GoFloat Model World Schema Session SchedulerStore.

(** ** enrollment.go and credentials.go: the records *)

Record EnrollmentTokenInput : Type := mkEnrollmentTokenInput {
  ei_Name : string; ei_CloudProvider : string; ei_Region : string; ei_Labels : gmap string string
}.

Record EnrollmentTokenRecord : Type := mkEnrollmentTokenRecord {
  etr_ID : string; etr_TokenHash : string; etr_Name : string; etr_CloudProvider : string; etr_Region : string;
  etr_Labels : gmap string string; etr_ExpiresAt : Time; etr_CreatedAt : Time
}.

Record EnrollmentClaim : Type := mkEnrollmentClaim {
  ec_TokenHash : string; ec_ServerID : string; ec_IdentityID : string; ec_CredentialHash : string; ec_UsedAt : Time
}.

Record PendingAgentIdentity : Type := mkPendingAgentIdentity {
  pi_IdentityID : string; pi_ServerID : string; pi_CredentialHash : string; pi_CreatedAt : Time
}.

(** query.go *)
Record ServerView : Type := mkServerView {
  vw_ID : string; vw_Name : string; vw_CloudProvider : string; vw_Region : string; vw_Status : string;
  vw_Enabled : bool; vw_Draining : bool; vw_Labels : gmap string string; vw_ServerGroupID : string;
  vw_Runtimes : list string; vw_AgentVersion : string; vw_AgentOS : string; vw_AgentArch : string;
  vw_AgentCapabilities : list string; vw_UpgradeStatus : string; vw_SchedulingWeight : Z; vw_CPUUsagePercent : float64;
  vw_MemoryTotalBytes : Z; vw_MemoryAvailableBytes : Z; vw_DiskTotalBytes : Z; vw_DiskAvailableBytes : Z;
  vw_RunningTasks : Z; vw_LastSeenAt : option Time
}.

(** [None] is nil: the field is left as it is. *)
Record UpdateServerInput : Type := mkUpdateServerInput {
  us_Name : option string; us_Labels : option (gmap string string); us_ServerGroupID : option string;
  us_SchedulingWeight : option Z; us_Enabled : option bool; us_Draining : option bool
}.

Record Group : Type := mkGroup { gr_ID : string; gr_Name : string; gr_ServerCount : Z; gr_CreatedAt : Time }.

Definition validServerUpdate (input : UpdateServerInput) : bool :=
  if bool_decide (us_Name input = None) && bool_decide (us_Labels input = None) && bool_decide (us_ServerGroupID input = None) &&
     bool_decide (us_SchedulingWeight input = None) && bool_decide (us_Enabled input = None) && bool_decide (us_Draining input = None)
  then false
  else if match us_Name input with Some name => bool_decide (TrimSpace name = "") | None => false end then false
  else if match us_SchedulingWeight input with Some w => (w <? 1) || (1000 <? w) | None => false end then false
  else forallb (λ key, negb (bool_decide (TrimSpace key = ""))) (map_to_list (default ∅ (us_Labels input))).*1.

Definition normalizedGroupName (name : string) : Result string :=
  let name := TrimSpace name in
  if bool_decide (name = "") || (80 <? Z.of_nat (length (runes name))) then Err ErrInvalidGroup else Ok name.

Section store.
Context {C : Type} `{!Has DB C}.

(** ** Heartbeats *)

Definition MaxInt64 : Z := 2 ^ 63 - 1.

Definition LatestHeartbeatSequence (serverID : string) : Prog C (option Z) :=
  pool_query "" (λ d, se_last_heartbeat_sequence <$> servers d !! serverID).

Definition heartbeat_row (heartbeat : Heartbeat) (receivedAt : Time) (s : ServerRow) : ServerRow :=
  s <| se_last_heartbeat_sequence := hb_Sequence heartbeat |> <| se_last_seen_at := Some receivedAt |>
    <| se_status := if bool_decide (se_status s = StatusQuarantined) then se_status s
                    else if se_drain_requested s then StatusDraining else StatusOnline |>
    <| se_runtimes := hb_Runtimes heartbeat |> <| se_agent_version := hb_AgentVersion heartbeat |>
    <| se_agent_os := hb_AgentOS heartbeat |> <| se_agent_arch := hb_AgentArch heartbeat |>
    <| se_agent_capabilities := hb_Capabilities heartbeat |>.

(** [WHERE id = $1 AND enabled = true AND last_heartbeat_sequence < $2] *)
Definition heartbeat_due (heartbeat : Heartbeat) (s : ServerRow) : bool :=
  se_enabled s && (se_last_heartbeat_sequence s <? hb_Sequence heartbeat).

Definition cpu_usage (heartbeat : Heartbeat) : float64 :=
  if 0 <? hb_CPUTotalMilli heartbeat
  then float_min (float_mul (float_div (float_of_int (hb_CPUUsedMilli heartbeat)) (float_of_int (hb_CPUTotalMilli heartbeat)))
                    (float_of_int 100)) (float_of_int 100)
  else float_of_int 0.

Definition snapshot_row (id : string) (heartbeat : Heartbeat) (receivedAt : Time) : ServerSnapshotRow :=
  let memoryAvailable := Z.max (wrap64 (hb_MemoryTotalBytes heartbeat - hb_MemoryUsedBytes heartbeat)) 0 in
  let diskTotal := if hb_DiskTotalBytes heartbeat <? hb_DiskFreeBytes heartbeat then hb_DiskFreeBytes heartbeat
                   else hb_DiskTotalBytes heartbeat in
  mkServerSnapshotRow id (hb_ServerID heartbeat) (hb_CPUTotalMilli heartbeat) (hb_CPUUsedMilli heartbeat)
    (hb_MemoryTotalBytes heartbeat) memoryAvailable diskTotal (hb_DiskFreeBytes heartbeat) (hb_RunningTasks heartbeat)
    receivedAt (cpu_usage heartbeat).

(** The checks of [server_snapshots]. *)
Definition snapshot_checks (heartbeat : Heartbeat) (row : ServerSnapshotRow) : bool :=
  SFleb (float_of_int 0) (ss_cpu_usage_percent row) && SFleb (ss_cpu_usage_percent row) (float_of_int 100) &&
  (0 <=? ss_cpu_total_milli row) && (0 <=? ss_memory_total_bytes row) && (0 <=? ss_memory_available_bytes row) &&
  (0 <=? ss_disk_total_bytes row) && (0 <=? ss_disk_available_bytes row) && (0 <=? ss_running_tasks row) &&
  (0 <=? ss_cpu_used_milli row) && (0 <=? hb_MemoryUsedBytes heartbeat).

Definition insert_snapshot (heartbeat : Heartbeat) (row : ServerSnapshotRow) (d : DB) : option DB :=
  if existsb (λ s, bool_decide (ss_id s = ss_id row)) (server_snapshots d) || negb (snapshot_checks heartbeat row) then None
  else Some (d <| server_snapshots := server_snapshots d ++ [row] |>).

Definition SaveHeartbeat (heartbeat : Heartbeat) (receivedAt : Time) : Prog C bool :=
  if MaxInt64 <? hb_Sequence heartbeat then throw ErrInvalidHeartbeat
  else transaction "" (
    let! updated := stmt "" (λ d,
      match servers d !! hb_ServerID heartbeat with
      | Some s =>
        if heartbeat_due heartbeat s
        then Some (d <| servers ::= <[hb_ServerID heartbeat := heartbeat_row heartbeat receivedAt s]> |>, true)
        else Some (d, false)
      | None => Some (d, false)
      end) in
    if negb updated then ret false
    else
      let! id := new_uuid in
      exec "" (insert_snapshot heartbeat (snapshot_row id heartbeat receivedAt)) ;;!
      commit "" ;;!
      ret true).

Definition offline_due (cutoff : Time) (s : ServerRow) : bool :=
  (bool_decide (se_status s = StatusOnline) || bool_decide (se_status s = StatusDraining)) &&
  match se_last_seen_at s with Some t => t <? cutoff | None => false end.

Definition MarkOfflineBefore (cutoff : Time) : Prog C (list string) :=
  pool "" (λ d,
    Some (d <| servers ::= fmap (λ s, if offline_due cutoff s then s <| se_status := StatusOffline |> else s) |>,
          (filter (λ p, offline_due cutoff p.2 = true) (map_to_list (servers d))).*1)).

(** ** Enrollment *)

Definition token_of_record (record : EnrollmentTokenRecord) : TokenRow :=
  mkTokenRow (etr_TokenHash record) (etr_Name record) (etr_CloudProvider record) (etr_Region record) (etr_Labels record)
    (etr_ExpiresAt record) None (etr_CreatedAt record).

Definition hash_in_use (hash : string) (tokens : gmap string TokenRow) : bool :=
  existsb (λ p, bool_decide (et_token_hash p.2 = hash)) (map_to_list tokens).

Definition CreateEnrollmentToken (record : EnrollmentTokenRecord) : Prog C unit :=
  pool "" (λ d,
    let tokens := server_enrollment_tokens (fleet d) in
    if bool_decide (is_Some (tokens !! etr_ID record)) || hash_in_use (etr_TokenHash record) tokens then None
    else Some (d <| fleet ::= λ f, f <| server_enrollment_tokens ::= <[etr_ID record := token_of_record record]> |> |>, tt)).

Definition token_open (hash : string) (at_ : Time) (t : TokenRow) : bool :=
  bool_decide (et_token_hash t = hash) && bool_decide (et_used_at t = None) && (at_ <? et_expires_at t).

Definition find_token (hash : string) (at_ : Time) (d : DB) : option (string * TokenRow) :=
  List.find (λ p, token_open hash at_ p.2) (map_to_list (server_enrollment_tokens (fleet d))).

(** [servers_name_key]: the names are unique. *)
Definition server_name_used (name except : string) (d : DB) : bool :=
  existsb (λ p, bool_decide (se_name p.2 = name) && negb (bool_decide (p.1 = except))) (map_to_list (servers d)).

Definition insert_server (id : string) (row : ServerRow) (d : DB) : option DB :=
  if bool_decide (is_Some (servers d !! id)) || server_name_used (se_name row) id d then None
  else Some (d <| servers ::= <[id := row]> |>).

Definition credential_in_use (hash : string) (d : DB) : bool :=
  existsb (λ p, bool_decide (ai_credential_hash p.2 = hash)) (map_to_list (agent_identities (fleet d))).

Definition insert_identity (id : string) (row : IdentityRow) (d : DB) : option DB :=
  if bool_decide (is_Some (agent_identities (fleet d) !! id)) || credential_in_use (ai_credential_hash row) d ||
     negb (bool_decide (is_Some (servers d !! ai_server_id row)))
  then None
  else Some (d <| fleet ::= λ f, f <| agent_identities ::= <[id := row]> |> |>).

Definition use_token (id : string) (at_ : Time) (d : DB) : DB :=
  d <| fleet ::= λ f, f <| server_enrollment_tokens ::= alter (λ t, t <| et_used_at := Some at_ |>) id |> |>.

Definition ConsumeEnrollmentToken (claim : EnrollmentClaim) : Prog C bool :=
  transaction "" (
    let! token := query "" (find_token (ec_TokenHash claim) (ec_UsedAt claim)) in
    match token with
    | None => ret false
    | Some (tokenID, t) =>
      exec "" (insert_server (ec_ServerID claim)
                 (new_server (et_server_name t) (et_cloud_provider t) (et_region t) (et_labels t))) ;;!
      exec "" (insert_identity (ec_IdentityID claim)
                 (mkIdentityRow (ec_ServerID claim) (ec_CredentialHash claim) false None None None (ec_UsedAt claim))) ;;!
      exec "" (λ d, Some (use_token tokenID (ec_UsedAt claim) d)) ;;!
      commit "" ;;!
      ret true
    end).

(** ** Credentials *)

Definition identity_active (i : IdentityRow) : bool := bool_decide (ai_revoked_at i = None).

(** The identity of a credential, with the join on an enabled server. *)
Definition find_identity (hash : string) (d : DB) : option (string * IdentityRow) :=
  List.find (λ p, bool_decide (ai_credential_hash p.2 = hash) && identity_active p.2 &&
                  match servers d !! ai_server_id p.2 with Some s => se_enabled s | None => false end)
    (map_to_list (agent_identities (fleet d))).

Definition update_identities (f : string → IdentityRow → IdentityRow) (d : DB) : DB :=
  d <| fleet ::= λ t, t <| agent_identities ::= map_imap (λ id i, Some (f id i)) |> |>.

Definition revoke_if (b : bool) (at_ : Time) (i : IdentityRow) : IdentityRow :=
  if b && identity_active i then i <| ai_revoked_at := Some at_ |> else i.

Definition authenticated (identityID : string) (at_ : Time) (id : string) (i : IdentityRow) : IdentityRow :=
  if bool_decide (id = identityID)
  then i <| ai_last_authenticated_at := Some at_ |> <| ai_pending_activation := false |> else i.

Definition FindServerByCredentialHash (credentialHash : string) (authenticatedAt : Time) : Prog C string :=
  transaction "" (
    let! found := query "" (find_identity credentialHash) in
    match found with
    | None => throw ErrAgentCredentialInvalid
    | Some (identityID, i) =>
      (if ai_pending_activation i
       then exec "" (λ d, Some (update_identities (λ id other,
              revoke_if (bool_decide (ai_server_id other = ai_server_id i) && negb (bool_decide (id = identityID)))
                authenticatedAt other) d))
       else ret tt) ;;!
      exec "" (λ d, Some (update_identities (authenticated identityID authenticatedAt) d)) ;;!
      commit "" ;;!
      ret (ai_server_id i)
    end).

(** [rotated_from_id]: the newest active confirmed identity. *)
Definition rotated_from (serverID : string) (d : DB) : option string :=
  head (stable_sort (λ a b, ai_created_at b.2 <? ai_created_at a.2)
    (filter (λ p, ai_server_id p.2 = serverID ∧ ai_revoked_at p.2 = None ∧ ai_pending_activation p.2 = false)
       (map_to_list (agent_identities (fleet d))))).*1.

Definition CreatePendingIdentity (identity : PendingAgentIdentity) : Prog C unit :=
  transaction "" (
    let! exists_ := query "" (λ d, match servers d !! pi_ServerID identity with Some s => se_enabled s | None => false end) in
    if negb exists_ then throw ErrServerNotFound
    else
      exec "" (λ d, Some (update_identities (λ _ other,
        revoke_if (bool_decide (ai_server_id other = pi_ServerID identity) && ai_pending_activation other)
          (pi_CreatedAt identity) other) d)) ;;!
      exec "创建待激活代理身份" (λ d, insert_identity (pi_IdentityID identity)
        (mkIdentityRow (pi_ServerID identity) (pi_CredentialHash identity) true (rotated_from (pi_ServerID identity) d)
           None None (pi_CreatedAt identity)) d) ;;!
      commit "").

Definition RevokeServerCredentials (serverID : string) (revokedAt : Time) : Prog C unit :=
  transaction "" (
    let! affected := stmt "" (λ d,
      Some (d <| servers ::= alter (λ s, s <| se_status := StatusOffline |>) serverID |>,
            bool_decide (is_Some (servers d !! serverID)))) in
    if negb affected then throw ErrServerNotFound
    else
      exec "" (λ d, Some (update_identities (λ _ other,
        revoke_if (bool_decide (ai_server_id other = serverID)) revokedAt other) d)) ;;!
      commit "").

(** ** Management *)

(** [serverViewSelect] and [scanServerView]: the latest report and the latest upgrade
    of the server. *)
Definition upgrade_order (a b : string * TargetRow) : bool :=
  (ut_updated_at b.2 <? ut_updated_at a.2) || ((ut_updated_at a.2 =? ut_updated_at b.2) && string_lt b.1 a.1).

Definition latest_upgrade (serverID : string) (d : DB) : option TargetStatus :=
  (λ p, ut_status p.2) <$> head (stable_sort upgrade_order
    (filter (λ p, ut_server_id p.2 = serverID) (map_to_list (agent_upgrade_targets (upgrades d))))).

Definition scanServerView (d : DB) (id : string) (s : ServerRow) : ServerView :=
  let report := latest_snapshot id d in
  let field (f : ServerSnapshotRow → Z) := match report with Some r => f r | None => 0 end in
  mkServerView id (se_name s) (se_cloud_provider s) (se_region s) (se_status s) (se_enabled s) (se_drain_requested s)
    (se_labels s) (se_server_group_id s) (se_runtimes s) (se_agent_version s) (se_agent_os s) (se_agent_arch s)
    (se_agent_capabilities s) (match latest_upgrade id d with Some status => target_status_text status | None => "" end)
    (se_scheduling_weight s)
    (match report with Some r => ss_cpu_usage_percent r | None => float_of_int 0 end)
    (field ss_memory_total_bytes) (field ss_memory_available_bytes) (field ss_disk_total_bytes)
    (field ss_disk_available_bytes) (field ss_running_tasks) (se_last_seen_at s).

Definition ListServers : Prog C (list ServerView) :=
  pool_query "" (λ d, (λ p, scanServerView d p.1 p.2) <$>
    stable_sort (λ a b, string_lt (se_name a.2) (se_name b.2)) (map_to_list (servers d))).

Definition serverByID (id : string) : Prog C ServerView :=
  let! found := pool_query "" (λ d, scanServerView d id <$> servers d !! id) in
  match found with Some view => ret view | None => throw ErrServerNotFound end.

Definition validateGroup (groupID : string) : Prog C unit :=
  if bool_decide (groupID = "") then ret tt
  else if negb (bool_decide (TrimSpace groupID = groupID)) then throw ErrGroupNotFound
  else
    let! exists_ := pool_query "" (λ d, bool_decide (is_Some (server_groups (fleet d) !! groupID))) in
    if negb exists_ then throw ErrGroupNotFound else ret tt.

Definition updated_server (input : UpdateServerInput) (now : Time) (s : ServerRow) : ServerRow :=
  let enabled := default (se_enabled s) (us_Enabled input) in
  let draining := default (se_drain_requested s) (us_Draining input) in
  s <| se_name := match us_Name input with Some name => TrimSpace name | None => se_name s end |>
    <| se_labels := default (se_labels s) (us_Labels input) |>
    <| se_server_group_id := default (se_server_group_id s) (us_ServerGroupID input) |>
    <| se_scheduling_weight := default (se_scheduling_weight s) (us_SchedulingWeight input) |>
    <| se_enabled := enabled |>
    <| se_drain_requested := if enabled then draining else false |>
    <| se_status := if negb enabled then StatusOffline
                    else if draining && bool_decide (se_status s = StatusOnline) then StatusDraining
                    else if negb draining && bool_decide (se_status s = StatusDraining)
                    then if match se_last_seen_at s with Some t => now - 15 * second <=? t | None => false end
                         then StatusOnline else StatusOffline
                    else se_status s |>.

Definition update_server (id : string) (input : UpdateServerInput) (now : Time) (d : DB) : option (DB * bool) :=
  match servers d !! id with
  | None => Some (d, false)
  | Some s =>
    let s' := updated_server input now s in
    if server_name_used (se_name s') id d then None else Some (d <| servers ::= <[id := s']> |>, true)
  end.

Definition UpdateServer (id : string) (input : UpdateServerInput) : Prog C ServerView :=
  if bool_decide (TrimSpace id = "") || negb (validServerUpdate input) then throw ErrInvalidServerUpdate
  else
    (match us_ServerGroupID input with Some group => validateGroup group | None => ret tt end) ;;!
    let! now := clock_now in
    let! updated := pool "" (update_server id input now) in
    if negb updated then throw ErrServerNotFound else serverByID id.

(** ** Groups *)

Definition group_size (groupID : string) (d : DB) : Z :=
  Z.of_nat (length (filter (λ p : string * ServerRow, se_server_group_id p.2 = groupID) (map_to_list (servers d)))).

Definition ListGroups : Prog C (list Group) :=
  pool_query "" (λ d, (λ p, mkGroup p.1 (sg_name p.2) (group_size p.1 d) (sg_created_at p.2)) <$>
    stable_sort (λ a b, string_lt (sg_name a.2) (sg_name b.2) || (bool_decide (sg_name a.2 = sg_name b.2) && string_lt a.1 b.1))
      (map_to_list (server_groups (fleet d)))).

Definition group_name_used (name except : string) (d : DB) : bool :=
  existsb (λ p, bool_decide (sg_name p.2 = name) && negb (bool_decide (p.1 = except))) (map_to_list (server_groups (fleet d))).

(** A statement that can violate the unique name: [groupWriteError] maps code 23505. *)
Definition group_write {A} (result : option A) : Prog C A :=
  match result with Some a => ret a | None => throw ErrGroupNameExists end.

Definition CreateGroup (name : string) : Prog C Group :=
  match normalizedGroupName name with
  | Err e => throw e
  | Ok name =>
    let! id := new_uuid in
    let! now := clock_now in
    let! created := pool "" (λ d,
      if bool_decide (is_Some (server_groups (fleet d) !! id)) || group_name_used name id d then Some (d, None)
      else Some (d <| fleet ::= λ f, f <| server_groups ::= <[id := mkGroupRow name now]> |> |>, Some (mkGroup id name 0 now))) in
    group_write created
  end.

Definition RenameGroup (id name : string) : Prog C Group :=
  match normalizedGroupName name with
  | Err e => throw e
  | Ok name =>
    let! renamed := pool "" (λ d,
      match server_groups (fleet d) !! id with
      | None => Some (d, Some None)
      | Some g =>
        if group_name_used name id d then Some (d, None)
        else Some (d <| fleet ::= λ f, f <| server_groups ::= <[id := g <| sg_name := name |>]> |> |>,
                   Some (Some (mkGroup id name (group_size id d) (sg_created_at g))))
      end) in
    let! found := group_write renamed in
    match found with Some group => ret group | None => throw ErrGroupNotFound end
  end.

End store.
