(* ===== verification/FleetLaws.v ===== *)
(** * FleetLaws

    What the operations of [FleetStore] do, and what they keep: the invariant
    [fleet_ok] of the servers and of the agents' identities, and their evolution
    [fleet_evolves]. *)

From S2P Require Import Prelude GoStd GoPath GoFloat Model World Schema Session UpgradeStore FleetStore.

(** ** Effects *)

Section effects.
Context {C : Type} `{!Has DB C}.

Definition heartbeat_saved (heartbeat : Heartbeat) (at_ : Time) (d d' : DB) : Prop :=
  ∃ s id, servers d !! hb_ServerID heartbeat = Some s ∧ heartbeat_due heartbeat s = true ∧
    snapshot_checks heartbeat (snapshot_row id heartbeat at_) = true ∧
    d' = d <| servers := <[hb_ServerID heartbeat := heartbeat_row heartbeat at_ s]> (servers d) |>
           <| server_snapshots := server_snapshots d ++ [snapshot_row id heartbeat at_] |>.

Lemma insert_snapshot_inv heartbeat row d d' :
  insert_snapshot heartbeat row d = Some d' →
  snapshot_checks heartbeat row = true ∧ d' = d <| server_snapshots := server_snapshots d ++ [row] |>.
Proof.
  unfold insert_snapshot. destruct (_ || _) eqn:E; [done|]. intros [= <-].
  apply orb_false_iff in E as [_ E%negb_false_iff]. done.
Qed.

Lemma SaveHeartbeat_spec heartbeat at_ :
  db_spec (C := C) (SaveHeartbeat heartbeat at_) (λ d r d',
    match r with
    | Ok true => heartbeat_saved heartbeat at_ d d'
    | Ok false => d' = d ∧ ∀ s, servers d !! hb_ServerID heartbeat = Some s → heartbeat_due heartbeat s = false
    | Err ErrInvalidHeartbeat => d' = d ∧ MaxInt64 < hb_Sequence heartbeat
    | Err (EStorage _) => d' = d ∨ heartbeat_saved heartbeat at_ d d'
    | Err _ => False
    end).
Proof.
  unfold SaveHeartbeat. destruct (Z.ltb_spec MaxInt64 (hb_Sequence heartbeat)) as [Hm|Hm]; [by apply db_spec_throw|].
  apply db_spec_transaction; [by left|]. intros c. tx_step. tx_step; [tx_step; by left| |tx_step; by left].
  destruct (servers (part c) !! hb_ServerID heartbeat) as [s|] eqn:Es.
  - destruct (heartbeat_due heartbeat s) eqn:Ed; simplify_eq; simpl negb; cbv iota.
    + tx_step. tx_step; [tx_step; by left|]. tx_step. tx_step; [tx_step; by left| |tx_step; by left].
      apply insert_snapshot_inv in Hstmt as [Hc ->].
      assert (heartbeat_saved heartbeat at_ (part c) ((part c) <| servers := <[hb_ServerID heartbeat := heartbeat_row heartbeat at_ s]> (servers (part c)) |>
        <| server_snapshots := server_snapshots (part c) ++ [snapshot_row id heartbeat at_] |>)) as Hsaved by (by exists s, id).
      repeat tx_step; [by left|done|by right].
    + tx_step. apply tx_exit. split; [done|]. intros s' Hs'. by simplify_eq.
  - simplify_eq. simpl negb; cbv iota. tx_step. apply tx_exit. split; [done|]. intros s' Hs'. by simplify_eq.
Qed.

(** Enrollment: the token is open, the new server and identity are new. *)
Definition enrolled (claim : EnrollmentClaim) (d d' : DB) : Prop :=
  ∃ tokenID t, server_enrollment_tokens (fleet d) !! tokenID = Some t ∧
    token_open (ec_TokenHash claim) (ec_UsedAt claim) t = true ∧
    servers d !! ec_ServerID claim = None ∧ agent_identities (fleet d) !! ec_IdentityID claim = None ∧
    credential_in_use (ec_CredentialHash claim) d = false ∧
    d' = d <| servers := <[ec_ServerID claim := new_server (et_server_name t) (et_cloud_provider t) (et_region t) (et_labels t)]>
                           (servers d) |>
           <| fleet := mkFleetTables (alter (λ t, t <| et_used_at := Some (ec_UsedAt claim) |>) tokenID (server_enrollment_tokens (fleet d)))
                (<[ec_IdentityID claim := mkIdentityRow (ec_ServerID claim) (ec_CredentialHash claim) false None None None (ec_UsedAt claim)]>
                   (agent_identities (fleet d))) (server_groups (fleet d)) |>.

Lemma find_token_some hash at_ d id t :
  find_token hash at_ d = Some (id, t) → server_enrollment_tokens (fleet d) !! id = Some t ∧ token_open hash at_ t = true.
Proof.
  intros [Hin Ho]%find_some. split; [|exact Ho]. apply elem_of_map_to_list. by apply list_elem_of_In.
Qed.

Lemma find_token_none hash at_ d :
  find_token hash at_ d = None → ∀ id t, server_enrollment_tokens (fleet d) !! id = Some t → token_open hash at_ t = false.
Proof.
  intros H id t Ht. apply (find_none _ _ H (id, t)). by apply list_elem_of_In, elem_of_map_to_list.
Qed.

Lemma insert_server_inv id row d d' :
  insert_server id row d = Some d' → servers d !! id = None ∧ d' = d <| servers := <[id := row]> (servers d) |>.
Proof.
  unfold insert_server. destruct (_ || _) eqn:E; [done|]. intros [= <-].
  apply orb_false_iff in E as [E%bool_decide_eq_false _]. split; [|done]. by apply eq_None_not_Some.
Qed.

Lemma insert_identity_inv id row d d' :
  insert_identity id row d = Some d' →
  agent_identities (fleet d) !! id = None ∧ credential_in_use (ai_credential_hash row) d = false ∧
  is_Some (servers d !! ai_server_id row) ∧
  d' = d <| fleet := (fleet d) <| agent_identities := <[id := row]> (agent_identities (fleet d)) |> |>.
Proof.
  unfold insert_identity. destruct (_ || _) eqn:E; [done|]. intros [= <-].
  rewrite !orb_false_iff, negb_false_iff, bool_decide_eq_false, bool_decide_eq_true in E.
  destruct E as [[E1 E2] E3]. split_and!; [by apply eq_None_not_Some|done|done|done].
Qed.

Lemma ConsumeEnrollmentToken_spec claim :
  db_spec (C := C) (ConsumeEnrollmentToken claim) (λ d r d',
    match r with
    | Ok true => enrolled claim d d'
    | Ok false => d' = d ∧ ∀ id t, server_enrollment_tokens (fleet d) !! id = Some t →
        token_open (ec_TokenHash claim) (ec_UsedAt claim) t = false
    | Err (EStorage _) => d' = d ∨ enrolled claim d d'
    | Err _ => False
    end).
Proof.
  apply db_spec_transaction; [by left|]. intros c. tx_step. tx_step; [tx_step; by left|].
  destruct (find_token _ _ _) as [[tokenID t]|] eqn:Ef.
  - apply find_token_some in Ef as [Ht Ho]. tx_step. tx_step; [tx_step; by left| |tx_step; by left].
    apply insert_server_inv in Hstmt as [Hs ->]. tx_step. tx_step; [tx_step; by left| |tx_step; by left].
    apply insert_identity_inv in Hstmt as (Hi & Hc & _ & ->).
    assert (enrolled claim (part c) (use_token tokenID (ec_UsedAt claim) ((part c)
      <| servers := <[ec_ServerID claim := new_server (et_server_name t) (et_cloud_provider t) (et_region t) (et_labels t)]> (servers (part c)) |>
      <| fleet := (fleet (part c)) <| agent_identities := <[ec_IdentityID claim := mkIdentityRow (ec_ServerID claim)
           (ec_CredentialHash claim) false None None None (ec_UsedAt claim)]> (agent_identities (fleet (part c))) |> |>))) as He.
    { by exists tokenID, t. }
    tx_step. tx_step; [tx_step; by left| |tx_step; by left]. injection Hstmt as <-. revert He. generalize (use_token tokenID).
    intros f He. repeat tx_step; [by left|done|by right].
  - tx_step. apply tx_exit. split; [done|]. by apply find_token_none.
Qed.

(** Authentication: the identity is active and its server enabled; confirming a pending
    identity revokes the others of the server. *)
Definition confirmed (identityID : string) (i : IdentityRow) (at_ : Time) (id : string) (other : IdentityRow) : IdentityRow :=
  authenticated identityID at_ id
    (revoke_if (ai_pending_activation i && bool_decide (ai_server_id other = ai_server_id i) && negb (bool_decide (id = identityID)))
       at_ other).

Definition authenticated_as (hash : string) (at_ : Time) (serverID : string) (d d' : DB) : Prop :=
  ∃ id i s, agent_identities (fleet d) !! id = Some i ∧ ai_credential_hash i = hash ∧ ai_revoked_at i = None ∧
    ai_server_id i = serverID ∧ servers d !! serverID = Some s ∧ se_enabled s = true ∧
    d' = update_identities (confirmed id i at_) d.

Lemma find_identity_some hash d id i :
  find_identity hash d = Some (id, i) →
  agent_identities (fleet d) !! id = Some i ∧ ai_credential_hash i = hash ∧ ai_revoked_at i = None ∧
  ∃ s, servers d !! ai_server_id i = Some s ∧ se_enabled s = true.
Proof.
  intros [Hin Ho]%find_some. apply list_elem_of_In, elem_of_map_to_list in Hin. simpl in Ho.
  rewrite !andb_true_iff, bool_decide_eq_true in Ho. unfold identity_active in Ho. rewrite bool_decide_eq_true in Ho.
  destruct Ho as [[H1 H2] H3]. destruct (servers d !! ai_server_id i) as [s|]; [|done]. eauto 10.
Qed.

Lemma update_identities_twice f g d :
  update_identities g (update_identities f d) = update_identities (λ id i, g id (f id i)) d.
Proof.
  unfold update_identities. simpl. destruct d as [? ? ? ? ? ? ? ? ? ? ? ? ? [tokens identities groups] ?]. simpl. do 2 f_equal.
  apply map_eq. intros id. rewrite !map_lookup_imap. by destruct (identities !! id).
Qed.

Lemma update_identities_ext f g d : (∀ id i, f id i = g id i) → update_identities f d = update_identities g d.
Proof.
  intros H. unfold update_identities. simpl. do 2 f_equal. apply map_eq. intros id. rewrite !map_lookup_imap.
  destruct (agent_identities (fleet d) !! id); simpl; [by rewrite H|done].
Qed.

Lemma FindServerByCredentialHash_spec hash at_ :
  db_spec (C := C) (FindServerByCredentialHash hash at_) (λ d r d',
    match r with
    | Ok serverID => authenticated_as hash at_ serverID d d'
    | Err ErrAgentCredentialInvalid => d' = d ∧ find_identity hash d = None
    | Err (EStorage _) => d' = d ∨ ∃ serverID, authenticated_as hash at_ serverID d d'
    | Err _ => False
    end).
Proof.
  apply db_spec_transaction; [by left|]. intros c. tx_step. tx_step; [tx_step; by left|].
  destruct (find_identity hash (part c)) as [[id i]|] eqn:Ef; [|tx_step; by apply tx_exit].
  apply find_identity_some in Ef as (Hi & Hh & Hr & s & Hs & He).
  assert (authenticated_as hash at_ (ai_server_id i) (part c) (update_identities (confirmed id i at_) (part c))) as Ha.
  { by exists id, i, s. }
  tx_step. destruct (ai_pending_activation i) eqn:Ep.
  - tx_step; [tx_step; by left| |tx_step; by left]. injection Hstmt as <-.
    tx_step. tx_step; [tx_step; by left| |tx_step; by left]. rewrite update_identities_twice in Hstmt.
    injection Hstmt as Hd. rewrite (update_identities_ext _ (confirmed id i at_)) in Hd;
      [|intros id' i'; unfold confirmed; by rewrite Ep].
    rewrite Hd in Ha. repeat tx_step; [by left|done|right; by eexists].
  - tx_step. tx_step. tx_step; [tx_step; by left| |tx_step; by left]. injection Hstmt as Hd.
    rewrite (update_identities_ext _ (confirmed id i at_)) in Hd;
      [|intros id' i'; unfold confirmed, revoke_if; by rewrite Ep].
    rewrite Hd in Ha. repeat tx_step; [by left|done|right; by eexists].
Qed.

(** Rotation: pending identities of the server are revoked, the new one is pending. *)
Definition superseded (identity : PendingAgentIdentity) (_ : string) (other : IdentityRow) : IdentityRow :=
  revoke_if (bool_decide (ai_server_id other = pi_ServerID identity) && ai_pending_activation other) (pi_CreatedAt identity) other.

Definition pending_created (identity : PendingAgentIdentity) (d d' : DB) : Prop :=
  ∃ s d1, servers d !! pi_ServerID identity = Some s ∧ se_enabled s = true ∧
    d1 = update_identities (superseded identity) d ∧
    insert_identity (pi_IdentityID identity)
      (mkIdentityRow (pi_ServerID identity) (pi_CredentialHash identity) true (rotated_from (pi_ServerID identity) d1)
         None None (pi_CreatedAt identity)) d1 = Some d'.

Lemma CreatePendingIdentity_spec identity :
  db_spec (C := C) (CreatePendingIdentity identity) (λ d r d',
    match r with
    | Ok _ => pending_created identity d d'
    | Err ErrServerNotFound => d' = d ∧ ∀ s, servers d !! pi_ServerID identity = Some s → se_enabled s = false
    | Err (EStorage _) => d' = d ∨ pending_created identity d d'
    | Err _ => False
    end).
Proof.
  apply db_spec_transaction; [by left|]. intros c. tx_step. tx_step; [tx_step; by left|].
  destruct (servers (part c) !! pi_ServerID identity) as [s|] eqn:Es.
  2:{ simpl negb. cbv iota. tx_step. apply tx_exit. split; [done|]. intros s Hs. by simplify_eq. }
  destruct (se_enabled s) eqn:Ee; simpl negb; cbv iota.
  2:{ tx_step. apply tx_exit. split; [done|]. intros s' Hs. by simplify_eq. }
  tx_step. tx_step; [tx_step; by left| |tx_step; by left]. injection Hstmt as Hd.
  tx_step. tx_step; [tx_step; by left| |tx_step; by left].
  assert (pending_created identity (part c) d'0) as Hp by (by exists s, d').
  repeat tx_step; [by left|done|by right].
Qed.

Definition revoked_all (serverID : string) (at_ : Time) (d : DB) : DB :=
  update_identities (λ _ other, revoke_if (bool_decide (ai_server_id other = serverID)) at_ other)
    (d <| servers ::= alter (λ s, s <| se_status := StatusOffline |>) serverID |>).

Lemma RevokeServerCredentials_spec serverID at_ :
  db_spec (C := C) (RevokeServerCredentials serverID at_) (λ d r d',
    match r with
    | Ok _ => is_Some (servers d !! serverID) ∧ d' = revoked_all serverID at_ d
    | Err ErrServerNotFound => d' = d ∧ servers d !! serverID = None
    | Err (EStorage _) => d' = d ∨ is_Some (servers d !! serverID) ∧ d' = revoked_all serverID at_ d
    | Err _ => False
    end).
Proof.
  apply db_spec_transaction; [by left|]. intros c. tx_step. tx_step; [tx_step; by left| |tx_step; by left].
  injection Hstmt as Hd Ha. subst a. case_bool_decide as Hs; simpl negb; cbv iota.
  - tx_step. tx_step; [tx_step; by left| |tx_step; by left]. injection Hstmt as Hd'.
    assert (d'0 = revoked_all serverID at_ (part c)) as -> by (rewrite <-Hd', <-Hd; done).
    repeat tx_step; [by left|done|by right].
  - tx_step. apply tx_exit. split; [done|]. by apply eq_None_not_Some.
Qed.

Definition server_updated (id : string) (input : UpdateServerInput) (d d' : DB) : Prop :=
  ∃ s now, servers d !! id = Some s ∧ server_name_used (se_name (updated_server input now s)) id d = false ∧
    d' = d <| servers := <[id := updated_server input now s]> (servers d) |>.

Lemma update_server_inv id input now d d' b :
  update_server id input now d = Some (d', b) →
  if b then ∃ s, servers d !! id = Some s ∧ server_name_used (se_name (updated_server input now s)) id d = false ∧
    d' = d <| servers := <[id := updated_server input now s]> (servers d) |>
  else d' = d ∧ servers d !! id = None.
Proof.
  unfold update_server. destruct (servers d !! id) as [s|]; [|by intros [= <- <-]]. cbv zeta.
  destruct (server_name_used _ _ _) eqn:E; [done|]. intros [= <- <-]. by exists s.
Qed.

Lemma validateGroup_same group : db_spec (C := C) (validateGroup group) (λ d _ d', d' = d).
Proof.
  unfold validateGroup. case_bool_decide; [by apply db_spec_ret|]. case_bool_decide; [|by apply db_spec_throw].
  intros c. apply wp_bind, wp_pool_query; [by rewrite set_part_same|].
  case_bool_decide; [apply wp_ret|apply wp_throw]; by rewrite set_part_same.
Qed.

Lemma UpdateServer_spec id input :
  db_spec (C := C) (UpdateServer id input) (λ d r d',
    (d' = d ∧ is_ok r = false) ∨ (server_updated id input d d' ∧ TrimSpace id ≠ "" ∧ validServerUpdate input = true)).
Proof.
  unfold UpdateServer. destruct (_ || _) eqn:E; [apply db_spec_throw; auto|].
  apply orb_false_iff in E as [Hid%bool_decide_eq_false Hv%negb_false_iff]. intros c. apply wp_bind.
  assert (db_spec (C := C) (match us_ServerGroupID input with Some group => validateGroup group | None => ret tt end)
    (λ d _ d', d' = d)) as Hg by (destruct (us_ServerGroupID input); [apply validateGroup_same|by apply db_spec_ret]).
  eapply wp_mono; [apply Hg|]. intros [u|e] c1 [Hc1 Hd1]; [|split; [done|by left]].
  assert (c1 = c) as -> by (rewrite Hc1, Hd1; apply set_part_same). clear Hc1 Hd1.
  apply wp_bind, wp_clock_now. intros now. apply wp_bind.
  apply wp_pool; [rewrite set_part_same; auto|]. intros d' b Hu. apply update_server_inv in Hu.
  destruct b.
  - destruct Hu as (s & Hs & Hn & ->). rewrite !part_set.
    assert (server_updated id input (part c) ((part c) <| servers := <[id := updated_server input now s]> (servers (part c)) |>))
      as Hup by (by exists s, now).
    split; [|split; [done|right; auto]]. simpl negb. cbv iota. apply wp_bind, wp_pool_query; rewrite part_set; [auto|].
    destruct (_ <$> _); [apply wp_ret|apply wp_throw]; rewrite part_set; auto.
  - destruct Hu as [-> Hn]. rewrite !set_part_same. split; [|auto]. simpl negb. cbv iota. apply wp_throw.
    rewrite set_part_same. auto.
Qed.

End effects.

(** ** The invariant *)

(** An active identity of a server and its stage, by which it is unique. *)
Definition single_identity (m : gmap string IdentityRow) : Prop :=
  ∀ i j a b, m !! i = Some a → m !! j = Some b → ai_revoked_at a = None → ai_revoked_at b = None →
    ai_server_id a = ai_server_id b → ai_pending_activation a = ai_pending_activation b → i = j.

Definition distinct_hashes (m : gmap string IdentityRow) : Prop :=
  ∀ i j a b, m !! i = Some a → m !! j = Some b → ai_credential_hash a = ai_credential_hash b → i = j.

Definition distinct_tokens (m : gmap string TokenRow) : Prop :=
  ∀ i j a b, m !! i = Some a → m !! j = Some b → et_token_hash a = et_token_hash b → i = j.

Record fleet_ok (d : DB) : Prop := {
  fk_disabled : ∀ id s, servers d !! id = Some s → se_enabled s = false → se_status s = StatusOffline;
  fk_server : ∀ id i, agent_identities (fleet d) !! id = Some i → is_Some (servers d !! ai_server_id i);
  fk_hashes : distinct_hashes (agent_identities (fleet d));
  fk_single : single_identity (agent_identities (fleet d));
  fk_tokens : distinct_tokens (server_enrollment_tokens (fleet d))
}.

(** ** Evolution *)

Definition server_evolves (s s' : ServerRow) : Prop := se_last_heartbeat_sequence s ≤ se_last_heartbeat_sequence s'.

Record identity_evolves (i i' : IdentityRow) : Prop := {
  ie_server : ai_server_id i' = ai_server_id i;
  ie_hash : ai_credential_hash i' = ai_credential_hash i;
  ie_revoked : ∀ t, ai_revoked_at i = Some t → ai_revoked_at i' = Some t;
  ie_confirmed : ai_pending_activation i = false → ai_pending_activation i' = false
}.

Record token_evolves (t t' : TokenRow) : Prop := {
  te_hash : et_token_hash t' = et_token_hash t;
  te_expires : et_expires_at t' = et_expires_at t;
  te_used : ∀ u, et_used_at t = Some u → is_Some (et_used_at t')
}.

(** Nothing disappears from a map, and each value evolves. *)
Definition map_evolves {A} (R : A → A → Prop) (m m' : gmap string A) : Prop :=
  ∀ k a, m !! k = Some a → ∃ a', m' !! k = Some a' ∧ R a a'.

Lemma map_evolves_refl {A} (R : A → A → Prop) m : (∀ a, R a a) → map_evolves R m m.
Proof. intros H k a Hk. eauto. Qed.

Lemma map_evolves_trans {A} (R : A → A → Prop) m1 m2 m3 :
  (∀ a b c, R a b → R b c → R a c) → map_evolves R m1 m2 → map_evolves R m2 m3 → map_evolves R m1 m3.
Proof. intros H H1 H2 k a Hk. destruct (H1 k a Hk) as (b & Hb & ?). destruct (H2 k b Hb) as (c & ? & ?). eauto. Qed.

Lemma map_evolves_insert {A} (R : A → A → Prop) m k a' :
  (∀ a, R a a) → (∀ a, m !! k = Some a → R a a') → map_evolves R m (<[k := a']> m).
Proof.
  intros Hr H k' a Hk. destruct (decide (k' = k)) as [->|Hne]; [rewrite lookup_insert_eq|rewrite lookup_insert_ne by done]; eauto.
Qed.

Lemma map_evolves_alter {A} (R : A → A → Prop) m k f :
  (∀ a, R a a) → (∀ a, m !! k = Some a → R a (f a)) → map_evolves R m (alter f k m).
Proof.
  intros Hr H k' a Hk. destruct (decide (k' = k)) as [->|Hne]; [rewrite lookup_alter_eq, Hk|rewrite lookup_alter_ne by done];
    simpl; eauto.
Qed.

Lemma map_evolves_fmap {A} (R : A → A → Prop) (m : gmap string A) f : (∀ a, R a (f a)) → map_evolves R m (f <$> m).
Proof. intros H k a Hk. rewrite lookup_fmap, Hk. simpl. eauto. Qed.

Record fleet_evolves (d d' : DB) : Prop := {
  fe_servers : map_evolves server_evolves (servers d) (servers d');
  fe_identities : map_evolves identity_evolves (agent_identities (fleet d)) (agent_identities (fleet d'));
  fe_tokens : map_evolves token_evolves (server_enrollment_tokens (fleet d)) (server_enrollment_tokens (fleet d'))
}.

Lemma identity_evolves_refl i : identity_evolves i i.
Proof. by split. Qed.
Lemma identity_evolves_trans a b c : identity_evolves a b → identity_evolves b c → identity_evolves a c.
Proof. intros [] []. split; try congruence; auto. Qed.
Lemma token_evolves_refl t : token_evolves t t.
Proof. split; eauto. Qed.
Lemma token_evolves_trans a b c : token_evolves a b → token_evolves b c → token_evolves a c.
Proof. intros [? ? H1] [? ? H2]. split; try congruence. intros u Hu. destruct (H1 u Hu). eauto. Qed.

#[export] Instance fleet_evolves_preorder : PreOrder fleet_evolves.
Proof.
  split.
  - intros d. split; apply map_evolves_refl; [intros s; unfold server_evolves; lia|apply identity_evolves_refl|apply token_evolves_refl].
  - intros d1 d2 d3 [A1 A2 A3] [B1 B2 B3]. split; eapply map_evolves_trans; eauto.
    + intros a b c. unfold server_evolves. lia.
    + apply identity_evolves_trans.
    + apply token_evolves_trans.
Qed.

(** What the operations commit. *)
Definition fleet_sound (d d' : DB) : Prop := fleet_ok d → fleet_ok d' ∧ fleet_evolves d d'.

#[export] Instance fleet_sound_preorder : PreOrder fleet_sound.
Proof.
  split; [done|]. intros d1 d2 d3 H1 H2 Hok. destruct (H1 Hok) as [Hok2 E1]. destruct (H2 Hok2) as [Hok3 E2].
  split; [done|by etrans].
Qed.

(** A change of the servers. *)
Lemma fleet_sound_servers' d m :
  map_evolves server_evolves (servers d) m →
  ((∀ id s, servers d !! id = Some s → se_enabled s = false → se_status s = StatusOffline) →
   ∀ id s', m !! id = Some s' → se_enabled s' = false → se_status s' = StatusOffline) →
  fleet_sound d (d <| servers := m |>).
Proof.
  intros Hm Hd [H1 H2 H3 H4 H5]. split; split; simpl; try done.
  - by apply Hd.
  - intros id i Hi. destruct (H2 id i Hi) as [s Hs]. destruct (Hm _ _ Hs) as (s' & ? & _). eauto.
  - apply map_evolves_refl, identity_evolves_refl.
  - apply map_evolves_refl, token_evolves_refl.
Qed.


Lemma fleet_sound_servers d m :
  map_evolves server_evolves (servers d) m →
  (∀ id s', m !! id = Some s' → se_enabled s' = false → se_status s' = StatusOffline ∨ servers d !! id = Some s') →
  fleet_sound d (d <| servers := m |>).
Proof.
  intros Hm Hd. apply fleet_sound_servers'; [done|]. intros H1 id s' Hs He.
  destruct (Hd id s' Hs He) as [?|Hold]; [done|by eapply H1].
Qed.

(** Everything else may change freely. *)
Lemma fleet_sound_other d d' : servers d' = servers d → fleet d' = fleet d → fleet_sound d d'.
Proof.
  intros Es Ef [H1 H2 H3 H4 H5]. split; split; rewrite ?Es, ?Ef; try done.
  - apply map_evolves_refl. intros s. unfold server_evolves. lia.
  - apply map_evolves_refl, identity_evolves_refl.
  - apply map_evolves_refl, token_evolves_refl.
Qed.

Lemma fleet_sound_groups d g : fleet_sound d (d <| fleet := (fleet d) <| server_groups := g |> |>).
Proof.
  intros [H1 H2 H3 H4 H5]. split; split; simpl; try done.
  - apply map_evolves_refl. intros s. unfold server_evolves. lia.
  - apply map_evolves_refl, identity_evolves_refl.
  - apply map_evolves_refl, token_evolves_refl.
Qed.

(** Draining, as the upgrades ask for it. *)
Lemma fleet_sound_drain serverID draining d :
  fleet_sound d (d <| servers ::= alter (set_draining draining) serverID |>).
Proof.
  intros Hok. revert Hok. apply (fleet_sound_servers' d (alter (set_draining draining) serverID (servers d))).
  - apply map_evolves_alter; intros a; unfold server_evolves; simpl; lia.
  - intros H id s' Hs' He. destruct (decide (id = serverID)) as [->|Hne];
      [rewrite lookup_alter_eq in Hs'|rewrite lookup_alter_ne in Hs' by done; by eapply H].
    destruct (servers d !! serverID) as [s|] eqn:Es; [|done]. simpl in Hs'. injection Hs' as <-. simpl in *.
    rewrite (H serverID s) by done. by destruct draining.
Qed.

(** A pointwise change of the identities. *)
Lemma fleet_sound_identities f d :
  (∀ id i, identity_evolves i (f id i)) →
  (∀ i j a b, agent_identities (fleet d) !! i = Some a → agent_identities (fleet d) !! j = Some b →
     fleet_ok d → ai_revoked_at (f i a) = None → ai_revoked_at (f j b) = None → ai_server_id a = ai_server_id b →
     ai_pending_activation (f i a) = ai_pending_activation (f j b) → i = j) →
  fleet_sound d (update_identities f d).
Proof.
  intros Hf Hs Hok. pose proof Hok as [H1 H2 H3 H4 H5].
  assert (∀ id i', agent_identities (fleet (update_identities f d)) !! id = Some i' →
    ∃ i, agent_identities (fleet d) !! id = Some i ∧ i' = f id i) as Hl.
  { intros id i'. simpl. rewrite map_lookup_imap. destruct (agent_identities (fleet d) !! id) as [i|]; [|done]. intros [= <-]. eauto. }
  split; split.
  - done.
  - intros id i' (i & Hi & ->)%Hl. rewrite (ie_server _ _ (Hf id i)). by eapply H2.
  - intros i j a' b' (a & Ha & ->)%Hl (b & Hb & ->)%Hl. rewrite (ie_hash _ _ (Hf i a)), (ie_hash _ _ (Hf j b)). by apply H3.
  - intros i j a' b' (a & Ha & ->)%Hl (b & Hb & ->)%Hl Ra Rb. rewrite (ie_server _ _ (Hf i a)), (ie_server _ _ (Hf j b)).
    intros. by eapply (Hs i j a b).
  - exact H5.
  - apply map_evolves_refl. intros s. unfold server_evolves. lia.
  - intros id i Hi. exists (f id i). split; [|apply Hf]. simpl. by rewrite map_lookup_imap, Hi.
  - apply map_evolves_refl, token_evolves_refl.
Qed.

Lemma revoke_if_evolves b at_ i : identity_evolves i (revoke_if b at_ i).
Proof.
  unfold revoke_if, identity_active. destruct (b && _) eqn:E; [|apply identity_evolves_refl].
  apply andb_true_iff in E as [_ E%bool_decide_eq_true]. split; simpl; try done. congruence.
Qed.

Lemma revoke_if_active b at_ i : ai_revoked_at (revoke_if b at_ i) = None → b = false ∧ ai_revoked_at i = None.
Proof.
  unfold revoke_if, identity_active. destruct b; [|done]. simpl. case_bool_decide as E; [done|]. done.
Qed.

Lemma revoke_if_pending b at_ i : ai_pending_activation (revoke_if b at_ i) = ai_pending_activation i.
Proof. unfold revoke_if. by destruct (_ && _). Qed.
Lemma revoke_if_server b at_ i : ai_server_id (revoke_if b at_ i) = ai_server_id i.
Proof. unfold revoke_if. by destruct (_ && _). Qed.

(** Revoking a set of identities. *)
Lemma fleet_sound_revoke (which : string → IdentityRow → bool) at_ d :
  fleet_sound d (update_identities (λ id i, revoke_if (which id i) at_ i) d).
Proof.
  apply fleet_sound_identities; [intros; apply revoke_if_evolves|].
  intros i j a b Ha Hb Hok [_ Ra]%revoke_if_active [_ Rb]%revoke_if_active Es. rewrite !revoke_if_pending.
  by apply (fk_single _ Hok i j a b).
Qed.

Lemma fleet_sound_tokens d m :
  map_evolves token_evolves (server_enrollment_tokens (fleet d)) m →
  (distinct_tokens (server_enrollment_tokens (fleet d)) → distinct_tokens m) →
  fleet_sound d (d <| fleet := (fleet d) <| server_enrollment_tokens := m |> |>).
Proof.
  intros Hm Hd [H1 H2 H3 H4 H5]. split; split; simpl; try done.
  - by apply Hd.
  - apply map_evolves_refl. intros s. unfold server_evolves. lia.
  - apply map_evolves_refl, identity_evolves_refl.
Qed.

Lemma distinct_tokens_use id at_ m : distinct_tokens m → distinct_tokens (alter (λ t, t <| et_used_at := Some at_ |>) id m).
Proof.
  intros H i j a b.
  assert (∀ k t, alter (λ t, t <| et_used_at := Some at_ |>) id m !! k = Some t → ∃ t0, m !! k = Some t0 ∧ et_token_hash t = et_token_hash t0) as Hl.
  { intros k t. destruct (decide (k = id)) as [->|Hne]; [rewrite lookup_alter_eq|rewrite lookup_alter_ne by done; eauto].
    destruct (m !! id) as [t0|]; [|done]. simpl. intros [= <-]. eauto. }
  intros (a0 & Ha & Ea)%Hl (b0 & Hb & Eb)%Hl E. apply (H i j a0 b0); congruence.
Qed.

Lemma distinct_tokens_insert id t m : hash_in_use (et_token_hash t) m = false → distinct_tokens m → distinct_tokens (<[id := t]> m).
Proof.
  unfold hash_in_use. rewrite existsb_false_iff. intros Hn H i j a b.
  assert (∀ k x, m !! k = Some x → et_token_hash x ≠ et_token_hash t) as Hfree.
  { intros k x Hx. specialize (Hn (k, x)). rewrite bool_decide_eq_false in Hn. apply Hn. by apply elem_of_map_to_list. }
  destruct (decide (i = id)) as [->|Hi], (decide (j = id)) as [->|Hj]; rewrite ?lookup_insert_eq, ?lookup_insert_ne by done.
  - done.
  - intros [= <-] Hb E. by destruct (Hfree j b Hb).
  - intros Ha [= <-] E. by destruct (Hfree i a Ha).
  - apply H.
Qed.

Lemma credential_unused hash d :
  credential_in_use hash d = false → ∀ id i, agent_identities (fleet d) !! id = Some i → ai_credential_hash i ≠ hash.
Proof.
  unfold credential_in_use. rewrite existsb_false_iff. intros H id i Hi.
  specialize (H (id, i)). rewrite bool_decide_eq_false in H. apply H. by apply elem_of_map_to_list.
Qed.

(** A new identity: no active one of its stage exists on the server. *)
Lemma fleet_sound_new_identity id row d d' :
  insert_identity id row d = Some d' →
  (∀ j b, agent_identities (fleet d) !! j = Some b → ai_revoked_at b = None → ai_server_id b = ai_server_id row →
     ai_pending_activation b ≠ ai_pending_activation row) →
  fleet_sound d d'.
Proof.
  intros (Hn & Hu & Hserver & ->)%insert_identity_inv Hfree [H1 H2 H3 H4 H5]. pose proof (credential_unused _ _ Hu) as Hc.
  assert (∀ k a, <[id := row]> (agent_identities (fleet d)) !! k = Some a →
    (k = id ∧ a = row) ∨ (k ≠ id ∧ agent_identities (fleet d) !! k = Some a)) as Hl.
  { intros k a. destruct (decide (k = id)) as [->|Hne]; [rewrite lookup_insert_eq|rewrite lookup_insert_ne by done]; naive_solver. }
  split; split; simpl.
  - done.
  - intros k a [[-> ->]|[_ Ha]]%Hl; [done|by eapply H2].
  - intros i j a b [[-> ->]|[Hi Ha]]%Hl [[-> ->]|[Hj Hb]]%Hl E; [done| | |by eapply H3].
    + by destruct (Hc j b Hb).
    + by destruct (Hc i a Ha).
  - intros i j a b [[-> ->]|[Hi Ha]]%Hl [[-> ->]|[Hj Hb]]%Hl Ra Rb Es Ep; [done| | |by eapply H4].
    + by destruct (Hfree j b Hb Rb).
    + by destruct (Hfree i a Ha Ra).
  - exact H5.
  - apply map_evolves_refl. intros s. unfold server_evolves. lia.
  - apply map_evolves_insert; [apply identity_evolves_refl|]. congruence.
  - apply map_evolves_refl, token_evolves_refl.
Qed.

Lemma heartbeat_saved_sound heartbeat at_ d d' : heartbeat_saved heartbeat at_ d d' → fleet_sound d d'.
Proof.
  intros (s & id & Hs & Hd & _ & ->). apply andb_true_iff in Hd as [He Hseq%Z.ltb_lt].
  transitivity (d <| servers := <[hb_ServerID heartbeat := heartbeat_row heartbeat at_ s]> (servers d) |>);
    [|by apply fleet_sound_other]. apply fleet_sound_servers.
  - apply map_evolves_insert; [intros a; unfold server_evolves; lia|]. intros a Ha. simplify_eq. unfold server_evolves. simpl. lia.
  - intros k s'. destruct (decide (k = hb_ServerID heartbeat)) as [->|Hne]; [rewrite lookup_insert_eq|rewrite lookup_insert_ne by done; auto].
    intros [= <-] Hf. simpl in Hf. congruence.
Qed.

Lemma offline_sound cutoff d :
  fleet_sound d (d <| servers ::= fmap (λ s, if offline_due cutoff s then s <| se_status := StatusOffline |> else s) |>).
Proof.
  apply (fleet_sound_servers d ((λ s, if offline_due cutoff s then s <| se_status := StatusOffline |> else s) <$> servers d)).
  - apply map_evolves_fmap. intros s. unfold server_evolves. destruct (offline_due cutoff s); simpl; lia.
  - intros id s'. rewrite lookup_fmap. destruct (servers d !! id) as [s|]; [|done]. intros [= <-] _.
    destruct (offline_due cutoff s); auto.
Qed.

Lemma enrolled_sound claim d d' : enrolled claim d d' → fleet_sound d d'.
Proof.
  intros (tokenID & t & Ht & Ho & Hs & Hi & Hc & ->).
  set (row := new_server _ _ _ _). set (identity := mkIdentityRow _ _ _ _ _ _ _).
  set (d1 := d <| servers := <[ec_ServerID claim := row]> (servers d) |>).
  set (d2 := d1 <| fleet := (fleet d1) <| agent_identities := <[ec_IdentityID claim := identity]> (agent_identities (fleet d1)) |> |>).
  change (fleet_sound d (d2 <| fleet := (fleet d2) <| server_enrollment_tokens :=
    alter (λ t, t <| et_used_at := Some (ec_UsedAt claim) |>) tokenID (server_enrollment_tokens (fleet d2)) |> |>)).
  assert (fleet_sound d d1) as S1.
  { apply fleet_sound_servers.
    - apply map_evolves_insert; [intros a; unfold server_evolves; lia|]. congruence.
    - intros k s'. destruct (decide (k = ec_ServerID claim)) as [->|Hne]; [rewrite lookup_insert_eq|rewrite lookup_insert_ne by done; auto].
      by intros [= <-]. }
  assert (insert_identity (ec_IdentityID claim) identity d1 = Some d2) as Hins.
  { unfold insert_identity. rewrite bool_decide_eq_false_2 by (simpl; rewrite Hi; by intros []).
    change (credential_in_use (ai_credential_hash identity) d1) with (credential_in_use (ec_CredentialHash claim) d). rewrite Hc.
    rewrite bool_decide_eq_true_2; [done|]. simpl. rewrite lookup_insert_eq. eauto. }
  assert (fleet_ok d → fleet_sound d1 d2) as S2.
  { intros Hok. apply (fleet_sound_new_identity _ _ _ _ Hins). intros j b Hb _ Es.
    destruct (fk_server _ Hok j b Hb) as [s0 Hs0]. simpl in Es. rewrite Es, Hs in Hs0. done. }
  intros Hok. destruct (S1 Hok) as [Hok1 E1]. destruct (S2 Hok Hok1) as [Hok2 E2].
  assert (fleet_sound d2 (d2 <| fleet := (fleet d2) <| server_enrollment_tokens :=
    alter (λ t, t <| et_used_at := Some (ec_UsedAt claim) |>) tokenID (server_enrollment_tokens (fleet d2)) |> |>)) as S3.
  { apply fleet_sound_tokens; [|apply distinct_tokens_use]. apply map_evolves_alter; [apply token_evolves_refl|].
    intros a _. split; simpl; eauto. }
  destruct (S3 Hok2) as [Hok3 E3]. split; [done|]. etrans; [exact E1|]. by etrans.
Qed.

Lemma created_token_sound record d :
  server_enrollment_tokens (fleet d) !! etr_ID record = None →
  hash_in_use (etr_TokenHash record) (server_enrollment_tokens (fleet d)) = false →
  fleet_sound d (d <| fleet ::= λ f, f <| server_enrollment_tokens ::= <[etr_ID record := token_of_record record]> |> |>).
Proof.
  intros Hn Hh. apply (fleet_sound_tokens d (<[etr_ID record := token_of_record record]> (server_enrollment_tokens (fleet d)))).
  - apply map_evolves_insert; [apply token_evolves_refl|]. congruence.
  - by apply distinct_tokens_insert.
Qed.

Lemma authenticated_sound hash at_ serverID d d' : authenticated_as hash at_ serverID d d' → fleet_sound d d'.
Proof.
  intros (id & i & s & Hi & _ & Hr & Hserver & _ & _ & ->). apply fleet_sound_identities.
  - intros k a. unfold confirmed. set (b := ai_pending_activation i && _ && _).
    apply (identity_evolves_trans _ (revoke_if b at_ a)); [apply revoke_if_evolves|]. generalize (revoke_if b at_ a). intros x.
    unfold authenticated. case_bool_decide; [|apply identity_evolves_refl]. by split; simpl.
  - assert (∀ k a, k ≠ id → confirmed id i at_ k a = revoke_if (ai_pending_activation i && bool_decide (ai_server_id a = ai_server_id i)) at_ a)
      as Hother.
    { intros k a Hk. unfold confirmed, authenticated. rewrite bool_decide_eq_false_2 by done. simpl. by rewrite andb_true_r. }
    assert (∀ k a b, k ≠ id → agent_identities (fleet d) !! k = Some b → fleet_ok d → ai_revoked_at (confirmed id i at_ k b) = None →
      ai_server_id i = ai_server_id b → ai_pending_activation (confirmed id i at_ id a) = ai_pending_activation (confirmed id i at_ k b) →
      id = k) as Hsame.
    { intros k a b Hk Hb Hok. rewrite Hother by done. intros [Hw Rb]%revoke_if_active Es. rewrite revoke_if_pending.
      rewrite bool_decide_eq_true_2, andb_true_r in Hw by done. unfold confirmed, authenticated. rewrite bool_decide_eq_true_2 by done.
      simpl. intros Ep. apply (fk_single _ Hok id k i b); congruence. }
    intros j k a b Ha Hb Hok Ra Rb Es Ep. destruct (decide (j = id)) as [->|Hj], (decide (k = id)) as [->|Hk]; [done| | |].
    + apply (Hsame k a b); congruence.
    + symmetry. apply (Hsame j b a); congruence.
    + rewrite Hother in Ra, Rb, Ep by done. rewrite Hother in Ep by done. rewrite !revoke_if_pending in Ep.
      apply revoke_if_active in Ra as [_ Ra], Rb as [_ Rb]. by apply (fk_single _ Hok j k a b).
Qed.

Lemma pending_created_sound identity d d' : pending_created identity d d' → fleet_sound d d'.
Proof.
  intros (s & d1 & Hs & He & -> & Hins). transitivity (update_identities (superseded identity) d).
  { apply (fleet_sound_revoke (λ _ other, bool_decide (ai_server_id other = pi_ServerID identity) && ai_pending_activation other)). }
  apply (fleet_sound_new_identity _ _ _ _ Hins). intros j b Hb Rb Es. simpl in Es |- *.
  simpl in Hb. rewrite map_lookup_imap in Hb. destruct (agent_identities (fleet d) !! j) as [a|]; [|done]. simpl in Hb.
  injection Hb as <-. unfold superseded in *. apply revoke_if_active in Rb as [Hw _].
  rewrite revoke_if_server in Es. rewrite revoke_if_pending. rewrite bool_decide_eq_true_2 in Hw by done. simpl in Hw. congruence.
Qed.

Lemma revoked_all_sound serverID at_ d : fleet_sound d (revoked_all serverID at_ d).
Proof.
  unfold revoked_all. etrans; [|apply (fleet_sound_revoke (λ _ other, bool_decide (ai_server_id other = serverID)))].
  apply (fleet_sound_servers d (alter (λ s, s <| se_status := StatusOffline |>) serverID (servers d))).
  - apply map_evolves_alter; intros a; unfold server_evolves; simpl; lia.
  - intros k s'. destruct (decide (k = serverID)) as [->|Hne]; [rewrite lookup_alter_eq|rewrite lookup_alter_ne by done; auto].
    destruct (servers d !! serverID); [|done]. simpl. intros [= <-]. auto.
Qed.

Lemma server_updated_sound id input d d' : server_updated id input d d' → fleet_sound d d'.
Proof.
  intros (s & now & Hs & _ & ->). apply fleet_sound_servers.
  - apply map_evolves_insert; [intros a; unfold server_evolves; lia|]. intros a Ha. simplify_eq. unfold server_evolves. simpl. lia.
  - intros k s'. destruct (decide (k = id)) as [->|Hne]; [rewrite lookup_insert_eq|rewrite lookup_insert_ne by done; auto].
    intros [= <-] He. left. simpl in *. by rewrite He.
Qed.

(** ** The identities after a rotation and after an authentication *)

Lemma pending_created_identities identity d d' :
  pending_created identity d d' →
  ∃ row, agent_identities (fleet d') !! pi_IdentityID identity = Some row ∧ ai_credential_hash row = pi_CredentialHash identity ∧
    ai_server_id row = pi_ServerID identity ∧ ai_pending_activation row = true ∧
    ∀ id i, agent_identities (fleet d) !! id = Some i → ai_pending_activation i = false →
      agent_identities (fleet d') !! id = Some i.
Proof.
  intros (s & d1 & _ & _ & -> & (Hn & _ & _ & ->)%insert_identity_inv). eexists. simpl. rewrite lookup_insert_eq.
  split_and!; [done..|]. intros id i Hi Hp. simpl in Hn. rewrite map_lookup_imap in Hn.
  destruct (decide (id = pi_IdentityID identity)) as [->|Hne]; [by rewrite Hi in Hn|].
  rewrite lookup_insert_ne, map_lookup_imap, Hi by done. simpl. unfold superseded, revoke_if. by rewrite Hp, andb_false_r.
Qed.

(** An identity of the server that is active afterwards is the authenticated one, or the
    authenticated one was confirmed already. *)
Lemma authenticated_identities hash at_ serverID d d' :
  authenticated_as hash at_ serverID d d' →
  ∃ id0 i0, agent_identities (fleet d) !! id0 = Some i0 ∧ ai_credential_hash i0 = hash ∧ ai_server_id i0 = serverID ∧
    ∀ id i, agent_identities (fleet d') !! id = Some i → ai_server_id i = serverID → ai_revoked_at i = None →
      (id = id0 ∧ ai_credential_hash i = hash ∧ ai_pending_activation i = false) ∨ ai_pending_activation i0 = false.
Proof.
  intros (id0 & i0 & s & Hi0 & Hh & _ & Hserver & _ & _ & ->). exists id0, i0. split_and!; [done..|].
  intros id i Hi. simpl in Hi. rewrite map_lookup_imap in Hi. destruct (agent_identities (fleet d) !! id) as [a|] eqn:Ea; [|done].
  simpl in Hi. injection Hi as <-. unfold confirmed, authenticated. case_bool_decide as Hid.
  - subst id. simplify_eq. intros _ _. left. simpl. rewrite andb_false_r. unfold revoke_if. done.
  - rewrite revoke_if_server. intros Es [Hw _]%revoke_if_active. rewrite bool_decide_eq_true_2 in Hw by congruence.
    simpl in Hw. rewrite !andb_true_r in Hw. auto.
Qed.
