(* ===== verification/Dispatch.v ===== *)
(** * Dispatch

    [internal/dispatch]: handing assigned runs to the agents.  [Claim] takes a batch of
    assigned runs that have not been sent for a while; for each of them [Dispatch]
    sends the assignment, or fails the run when it must not or cannot be executed.

    The stores and the connection to the agents are interfaces: [DispatchStore] (with
    its PostgreSQL implementation here), the secret resolver, the event service and the
    command sender of [RunService]. *)

From S2P Require Import Prelude GoStd Model World Schema Session Lifecycle RunEvents Reconcile RunService TaskService.
From S2P Require Import GoPath Artifacts Json.

Definition DefaultBatchSize : Z := 20.
Definition DefaultRetryInterval : Duration := 10 * second.
Definition DefaultTasksMax : Z := 64.

Definition invalidPayloadMessage : string := "任务执行配置无效，无法下发".
Definition secretUnavailableMessage : string := "任务敏感参数不可用，无法下发".
Definition transientDispatchMessage : string := "目标服务器暂时不可用，任务将自动重试".

(** [Run] of dispatch/model.go. *)
Record DispatchRun : Type := mkDispatchRun {
  dr_Artifacts : option ArtifactPolicy;
  dr_ArtifactsSupported : bool;
  dr_ID : string;
  dr_ExecutionToken : string;
  dr_ServerID : string;
  dr_ScriptID : string;
  dr_ScriptVersionID : string;
  dr_Runtime : string;
  dr_Entrypoint : string;
  dr_Parameters : gmap string Value;
  dr_SecretBindings : gmap string string;
  dr_Resources : ResourceLimits;
  dr_Timeout : Duration;
  dr_Attempt : Z;
  dr_SyncState : string;
  dr_ScriptVerified : bool
}.

(** ** Interfaces *)

Class DispatchStore (C : Type) : Type := {
  ds_Claim : Time → Time → Z → Prog C (list DispatchRun);
  ds_RecordResult : string → string → string → Prog C unit
}.

(** [SecretResolver] and [FailureSink]; [None] is nil. *)
Class SecretResolver (C : Type) : Type := { resolver_ResolveForRun : option (list string → Prog C (gmap string string)) }.
Class FailureSink (C : Type) : Type := { sink_Apply : option (RunEvent → Prog C unit) }.

(** ** The PostgreSQL store *)

Section store.
Context {C : Type} `{!Has DB C}.

Definition dispatchable (cutoff : Time) (row : RunRow) : bool :=
  bool_decide (tr_state row = Assigned) && bool_decide (is_Some (tr_execution_token row)) &&
  bool_decide (is_Some (tr_assigned_server_id row)) &&
  match tr_last_dispatch_at row with Some t => t <=? cutoff | None => true end.

(** [ORDER BY assigned_at NULLS FIRST, created_at, id] *)
Definition assigned_before (a b : option Time) : bool :=
  match a, b with
  | None, Some _ => true
  | Some x, Some y => x <? y
  | _, None => false
  end.

Definition dispatch_order (a b : string * RunRow) : bool :=
  assigned_before (tr_assigned_at a.2) (tr_assigned_at b.2) ||
  (negb (assigned_before (tr_assigned_at b.2) (tr_assigned_at a.2)) &&
   ((rs_created_at (tr_spec a.2) <? rs_created_at (tr_spec b.2)) ||
    ((rs_created_at (tr_spec a.2) =? rs_created_at (tr_spec b.2)) && string_lt a.1 b.1))).

(** The common table expression [candidates]. *)
Definition dispatch_candidates (cutoff : Time) (limit : Z) (d : DB) : list (string * RunRow) :=
  take (Z.to_nat limit)
    (stable_sort dispatch_order (filter (λ p, dispatchable cutoff p.2 = true) (map_to_list (task_runs d)))).

Definition claimed_row (now : Time) (row : RunRow) : RunRow :=
  row <| tr_dispatch_attempts := tr_dispatch_attempts row + 1 |> <| tr_last_dispatch_at := Some now |>
      <| tr_dispatch_error := "" |> <| tr_updated_at := now |>.

(** The columns of the final [SELECT] for one claimed run. *)
Definition dispatch_run (d : DB) (id : string) (row : RunRow) : option DispatchRun :=
  let s := tr_spec row in
  match task_definitions d !! rs_task_definition_id s, script_versions d !! rs_script_version_id s,
        tr_assigned_server_id row with
  | Some definition, Some version, Some serverID =>
    match servers d !! serverID with
    | Some server =>
      let sync := script_syncs d !! (serverID, rs_script_version_id s) in
      Some (mkDispatchRun (mf_Artifacts (sv_manifest version))
        (bool_decide ("run_artifacts_v1" ∈ se_agent_capabilities server))
        id (default "" (tr_execution_token row)) serverID (sv_script_id version) (rs_script_version_id s)
        (rs_required_runtime s) (sv_entrypoint version) (rs_parameters_snapshot s)
        (default (df_secret_bindings definition) (queued_secret_refs (events_of d id)))
        (mkResourceLimits (CPUMillicores (rs_resources s)) (MemoryBytes (rs_resources s)) (DiskBytes (rs_resources s)) 0)
        (wrap64 (rs_timeout_seconds s * second)) (tr_dispatch_attempts row)
        (match sync with Some y => sy_status y | None => "" end)
        (match sync with
         | Some y => bool_decide (sy_status y = SyncReady) && bool_decide (sy_artifact_sha256 y = Some (sv_artifact_sha256 version))
         | None => false
         end))
    | None => None
    end
  | _, _, _ => None
  end.

(** The statement: claim the candidates, return them with what they need. *)
Definition claim_runs (cutoff now : Time) (limit : Z) (d : DB) : DB * list DispatchRun :=
  let candidates := dispatch_candidates cutoff limit d in
  let d' := d <| task_runs ::= λ runs, foldr (λ p, alter (claimed_row now) p.1) runs candidates |> in
  (d', omap (λ p, dispatch_run d p.1 (claimed_row now p.2)) candidates).

Definition Claim (cutoff now : Time) (limit : Z) : Prog C (list DispatchRun) :=
  if limit <=? 0 then ret []
  else transaction "开始派发领取事务" (
    let! runs := stmt "领取待派发运行" (λ d, Some (claim_runs cutoff now limit d)) in
    commit "提交派发领取事务" ;;!
    ret runs).

Definition maxDispatchErrorRunes : Z := 1000.

Definition truncateRunes (value : string) (limit : Z) : string :=
  if (limit <=? 0) || (Z.of_nat (length (runes value)) <=? limit) then value
  else string_of_runes (take (Z.to_nat limit) (runes value)).

Definition recorded_row (message : string) (now : Time) (row : RunRow) : RunRow :=
  row <| tr_dispatch_error := message |> <| tr_updated_at := now |>.

Definition RecordResult (runID executionToken dispatchError : string) : Prog C unit :=
  let message := truncateRunes dispatchError maxDispatchErrorRunes in
  let! now := clock_now in
  pool "记录任务派发结果" (λ d,
    Some (update_run runID (λ row,
      if bool_decide (tr_execution_token row = Some executionToken) && bool_decide (tr_state row = Assigned)
      then recorded_row message now row else row) d, tt)).

#[export] Instance PostgresDispatchStore : DispatchStore C := {| ds_Claim := Claim; ds_RecordResult := RecordResult |}.

End store.

(** ** The service *)

Section service.
Context {C : Type} `{!DispatchStore C, !SecretResolver C, !FailureSink C}
  (sender : option (string → ExecutionCommand → Prog C unit)).

(** The names in order with their references; [None] when one is blank. *)
Fixpoint binding_refs (bindings : gmap string string) (names : list string) : option (list string) :=
  match names with
  | [] => Some []
  | name :: rest =>
    let ref := TrimSpace (map_str bindings name) in
    if bool_decide (TrimSpace name = "") || bool_decide (ref = "") then None
    else match binding_refs bindings rest with Some refs => Some (ref :: refs) | None => None end
  end.

Fixpoint bound_values (bindings resolved : gmap string string) (names : list string) : option (gmap string string) :=
  match names with
  | [] => Some ∅
  | name :: rest =>
    match resolved !! TrimSpace (map_str bindings name), bound_values bindings resolved rest with
    | Some value, Some values => Some (<[name := value]> values)
    | _, _ => None
    end
  end.

Definition sorted_names (bindings : gmap string string) : list string :=
  stable_sort string_lt (map_to_list bindings).*1.

Definition resolveSecretBindings (bindings : gmap string string) : Prog C (option (gmap string string)) :=
  if bool_decide (bindings = ∅) then ret (Some ∅)
  else
    match resolver_ResolveForRun with
    | None => ret None
    | Some resolve =>
      let names := sorted_names bindings in
      match binding_refs bindings names with
      | None => ret None
      | Some refs =>
        let! resolved := catch (resolve refs) in
        match resolved with
        | Err _ => ret None
        | Ok resolved => ret (bound_values bindings resolved names)
        end
      end
    end.

Definition script_cache : string := "/var/lib/yunling-agent/script-cache/scripts".

(** The check of the entrypoint. *)
Definition entrypoint_rejected (entrypoint : string) : bool :=
  let cleaned := Clean entrypoint in
  bool_decide (TrimSpace entrypoint = "") || negb (bool_decide (cleaned = entrypoint)) || IsAbs entrypoint ||
  bool_decide (cleaned = ".") || bool_decide (cleaned = "..") || HasPrefix cleaned "../" ||
  contains_byte backslash_char entrypoint.

Definition assignment_for (run : DispatchRun) (secrets : gmap string string) : AgentAssignment :=
  let resources := dr_Resources run in
  mkAgentAssignment (dr_Artifacts run) (dr_ID run) (dr_ExecutionToken run) (dr_ScriptVersionID run) (dr_Runtime run)
    (Join [script_cache; dr_ScriptID run; dr_ScriptVersionID run; dr_Entrypoint run]) []
    (<["YUNLING_RUN_ID" := dr_ID run]> (<["YUNLING_SCRIPT_VERSION_ID" := dr_ScriptVersionID run]>
      (<["YUNLING_PARAMETERS_JSON" := json_params (dr_Parameters run)]> {["YUNLING_SECRETS_JSON" := json_strings secrets]})))
    (mkResourceLimits (rl_CPUMillicores resources) (rl_MemoryBytes resources) (rl_DiskBytes resources)
      (if rl_TasksMax resources <=? 0 then DefaultTasksMax else rl_TasksMax resources))
    (dr_Timeout run).

(** The command, or the message of the failure. *)
Definition executionCommand (run : DispatchRun) : Prog C (ExecutionCommand + string) :=
  if bool_decide (is_Some (dr_Artifacts run)) && negb (dr_ArtifactsSupported run)
  then ret (inr "执行服务器代理不支持运行产物采集，请升级代理后重新执行")
  else if negb (policy_Validate (dr_Artifacts run)) then ret (inr "运行产物策略无效，请检查脚本发布版本")
  else if entrypoint_rejected (dr_Entrypoint run) then ret (inr invalidPayloadMessage)
  else if negb (map_marshals (dr_Parameters run)) then ret (inr invalidPayloadMessage)
  else
    let! secrets := resolveSecretBindings (dr_SecretBindings run) in
    match secrets with
    | None => ret (inr secretUnavailableMessage)
    | Some secrets => ret (inl (CommandAssign (assignment_for run secrets)))
    end.

(** The [switch] of [Dispatch]. *)
Definition prepare (run : DispatchRun) : Prog C (ExecutionCommand + string) :=
  if bool_decide (dr_SyncState run = SyncFailed) then ret (inr "任务启动前脚本同步失败，请检查脚本同步记录")
  else if bool_decide (dr_SyncState run = SyncReady) && negb (dr_ScriptVerified run)
  then ret (inr "任务启动前脚本校验值不一致，已阻止执行")
  else if bool_decide (dr_SyncState run = SyncReady) && dr_ScriptVerified run then executionCommand run
  else ret (inr "任务启动前脚本尚未校验就绪，已阻止执行").

Definition failure_event (run : DispatchRun) (now : Time) (message : string) : RunEvent :=
  mkRunEvent None (dr_ID run) (dr_ExecutionToken run) 1 "failed" now (-1) message.

(** The outcome of an action that must not stop the loop: the error it adds. *)
Definition collect {A} (m : Prog C A) : Prog C (list Error) :=
  let! r := catch m in
  match r with Ok _ => ret [] | Err e => ret [e] end.

(** One round of the loop: the infrastructure errors it adds. *)
Definition dispatch_one (now : Time) (run : DispatchRun) : Prog C (list Error) :=
  let! prepared := prepare run in
  match prepared with
  | inr failureMessage =>
    match sink_Apply with
    | None => ret [EStorage "失败事件服务不可用"]
    | Some apply => collect (apply (failure_event run now failureMessage))
    end
  | inl command =>
    match sender with
    | None => collect (ds_RecordResult (dr_ID run) (dr_ExecutionToken run) transientDispatchMessage)
    | Some send =>
      let! sent := catch (send (dr_ServerID run) command) in
      match sent with
      | Ok _ => ret []
      | Err _ => collect (ds_RecordResult (dr_ID run) (dr_ExecutionToken run) transientDispatchMessage)
      end
    end
  end.

Fixpoint dispatch_all (now : Time) (runs : list DispatchRun) : Prog C (list Error) :=
  match runs with
  | [] => ret []
  | run :: rest =>
    let! errors := dispatch_one now run in
    let! others := dispatch_all now rest in
    ret (errors ++ others)
  end.

Definition Dispatch : Prog C unit :=
  let! now := clock_now in
  let! runs := ds_Claim (now - DefaultRetryInterval) now DefaultBatchSize in
  let! errors := dispatch_all now runs in
  match errors with [] => ret tt | _ => throw (EJoined errors) end.

End service.

(** ** Claiming *)

(** Changes of the dispatch columns only. *)
Definition same_progress (r r' : RunRow) : Prop :=
  tr_spec r' = tr_spec r ∧ tr_state r' = tr_state r ∧ tr_assigned_server_id r' = tr_assigned_server_id r ∧
  tr_execution_token r' = tr_execution_token r ∧ tr_finished_at r' = tr_finished_at r ∧
  tr_process_confirmed_gone r' = tr_process_confirmed_gone r.

Lemma bookkeeping_sound d d' :
  run_events d' = run_events d → resource_leases d' = resource_leases d →
  (∀ id, option_Forall2 same_progress (task_runs d !! id) (task_runs d' !! id)) → sound d d'.
Proof.
  intros He Hl Hr Hw. refine (db_change_sound _ _ _ Hw).
  assert (∀ i, events_of d' i = events_of d i) as Hev by (intros; unfold events_of; by rewrite He).
  split.
  - intros id. rewrite Hev. destruct (Hr id) as [r r' (E1 & E2 & E3 & E4 & E5 & E6)|]; [|done].
    split; [done| |done|done|].
    + intros [R1 R2 R3 R4]. split; rewrite ?E1, ?E2, ?E3, ?E4, ?E5, ?E6; done.
    + exists []. rewrite app_nil_r. split_and!; [done|done| |by rewrite E2]. by intros token.
  - intros id. rewrite Hl. destruct (resource_leases d !! id) as [l|] eqn:E; [|done]. split; [by split|].
    intros Hopen row' Hrow'. pose proof (Hr (rl_task_run_id l)) as H. rewrite Hrow' in H.
    inversion H as [r r' (E1 & E2 & _) Er Er'|]; simplify_eq. rewrite E2.
    by apply (proj1 (proj2 (wf_leases _ Hw)) _ _ _ E Hopen).
Qed.

Lemma foldr_alter_lookup (f : RunRow → RunRow) (l : list (string * RunRow)) (m : gmap string RunRow) id :
  NoDup l.*1 →
  foldr (λ p, alter f p.1) m l !! id = if bool_decide (id ∈ l.*1) then f <$> m !! id else m !! id.
Proof.
  induction l as [|[k v] l IH]; [done|]. rewrite fmap_cons. cbn [foldr fst]. intros [Hk Hnd]%NoDup_cons.
  destruct (decide (id = k)) as [->|Hne].
  - rewrite lookup_alter_eq, IH by done. rewrite bool_decide_eq_false_2 by done.
    by rewrite bool_decide_eq_true_2 by apply list_elem_of_here.
  - rewrite lookup_alter_ne by done. rewrite IH by done.
    assert (id ∈ k :: l.*1 ↔ id ∈ l.*1) as E by (rewrite elem_of_cons; naive_solver).
    by rewrite (bool_decide_ext _ _ E).
Qed.

Lemma candidates_spec cutoff limit d :
  let l := dispatch_candidates cutoff limit d in
  NoDup l.*1 ∧ (0 ≤ limit → Z.of_nat (length l) ≤ limit) ∧
  ∀ id row, (id, row) ∈ l → task_runs d !! id = Some row ∧ dispatchable cutoff row = true.
Proof.
  cbv zeta. unfold dispatch_candidates. set (all := stable_sort _ _).
  assert (NoDup all.*1) as Hnd.
  { apply NoDup_fmap_fst.
    - intros id r1 r2. unfold all. rewrite !elem_of_stable_sort, !list_elem_of_filter, !elem_of_map_to_list. naive_solver.
    - unfold all. rewrite stable_sort_perm. apply NoDup_filter, NoDup_map_to_list. }
  split_and!.
  - rewrite <-(take_drop (Z.to_nat limit) all), fmap_app in Hnd. by apply NoDup_app in Hnd as (? & _ & _).
  - intros H. rewrite length_take. lia.
  - intros id row Hin. apply (elem_of_take _ _ _) in Hin as (i & Hi & _).
    apply list_elem_of_lookup_2 in Hi. unfold all in Hi.
    rewrite elem_of_stable_sort, list_elem_of_filter, elem_of_map_to_list in Hi. naive_solver.
Qed.

(** The effect of a claim on the runs [ids]. *)
Definition claimed (now : Time) (ids : list string) (d d' : DB) : Prop :=
  d' = d <| task_runs := task_runs d' |> ∧
  ∀ id, task_runs d' !! id = if bool_decide (id ∈ ids) then claimed_row now <$> task_runs d !! id else task_runs d !! id.

Lemma claimed_sound now ids d d' : claimed now ids d d' → sound d d'.
Proof.
  intros [E H]. apply bookkeeping_sound; [by rewrite E|by rewrite E|]. intros id. rewrite H.
  destruct (bool_decide _), (task_runs d !! id); constructor; by repeat split.
Qed.

(** What a dispatched run says of its row. *)
Lemma dispatch_run_inv d id row run :
  dispatch_run d id row = Some run →
  dr_ID run = id ∧ tr_assigned_server_id row = Some (dr_ServerID run) ∧
  dr_ExecutionToken run = default "" (tr_execution_token row) ∧
  (dr_ScriptVerified run = true → script_matches d (dr_ServerID run) (dr_ScriptVersionID run)).
Proof.
  intros H. unfold dispatch_run in H.
  destruct (task_definitions d !! _); [|done]. destruct (script_versions d !! _) as [v|] eqn:Ev; [|done].
  destruct (tr_assigned_server_id row) as [sid|] eqn:Es; [|done]. destruct (servers d !! sid); [|done].
  injection H as <-. cbn [dr_ID dr_ServerID dr_ExecutionToken dr_ScriptVerified dr_ScriptVersionID].
  split_and!; [done|done|done|]. destruct (script_syncs d !! _) as [y|] eqn:Ey; [|done].
  intros [H1%bool_decide_eq_true H2%bool_decide_eq_true]%andb_true_iff. exists y, v. auto.
Qed.

Lemma claim_runs_spec cutoff now limit d d' runs :
  claim_runs cutoff now limit d = (d', runs) →
  let l := dispatch_candidates cutoff limit d in
  claimed now l.*1 d d' ∧
  ∀ run, run ∈ runs → ∃ row, task_runs d !! dr_ID run = Some row ∧ dispatchable cutoff row = true ∧
    dr_ID run ∈ l.*1 ∧ dispatch_run d (dr_ID run) (claimed_row now row) = Some run.
Proof.
  destruct (candidates_spec cutoff limit d) as (Hnd & _ & Hin).
  unfold claim_runs. set (l := dispatch_candidates cutoff limit d) in *. intros [= <- <-]. cbv zeta. split.
  - split; [done|]. intros id. simpl. by apply foldr_alter_lookup.
  - intros run ([id row] & Hl & Hrun)%list_elem_of_omap. simpl in Hrun. destruct (Hin _ _ Hl) as [Hrow Hd].
    destruct (dispatch_run_inv _ _ _ _ Hrun) as [-> _].
    exists row. split_and!; [done|done|by apply (list_elem_of_fmap_2 fst _ (id, row))|done].
Qed.

Section claim.
Context {C : Type} `{!Has DB C}.

(** A run that a claim may take: it is assigned, its execution has a token and a
    server, and its last dispatch is not after the cutoff. *)
Definition Claim_effect (cutoff now : Time) (limit : Z) (d d' : DB) (ids : list string) : Prop :=
  NoDup ids ∧ Z.of_nat (length ids) ≤ limit ∧ claimed now ids d d' ∧
  (∀ id, id ∈ ids → ∃ row, task_runs d !! id = Some row ∧ dispatchable cutoff row = true) ∧
  (∀ id row' cutoff', id ∈ ids → task_runs d' !! id = Some row' → cutoff' < now → dispatchable cutoff' row' = false).

Lemma claim_effect cutoff now limit d d' runs :
  0 < limit → claim_runs cutoff now limit d = (d', runs) →
  Claim_effect cutoff now limit d d' (dispatch_candidates cutoff limit d).*1.
Proof.
  intros Hl E. destruct (candidates_spec cutoff limit d) as (Hnd & Hlen & Hin).
  destruct (claim_runs_spec _ _ _ _ _ _ E) as [Hc Hr]. split_and!; [done|rewrite length_fmap; apply Hlen; lia|done| |].
  - intros id ([id' row] & -> & H)%list_elem_of_fmap. eauto.
  - intros id row' cutoff' Hid Hrow' Hlt. destruct Hc as [_ Hc]. rewrite Hc, bool_decide_eq_true_2 in Hrow' by done.
    apply fmap_Some in Hrow' as (row & _ & ->). unfold dispatchable. simpl.
    rewrite (proj2 (Z.leb_gt _ _) Hlt). by rewrite andb_false_r.
Qed.

Lemma Claim_spec cutoff now limit :
  db_spec (C := C) (Claim cutoff now limit) (λ d r d',
    (d' = d ∧ r = Ok [] ∧ limit ≤ 0) ∨
    (d' = d ∧ is_ok r = false) ∨
    (0 < limit ∧ ∃ runs, claim_runs cutoff now limit d = (d', runs) ∧ (is_ok r = true → r = Ok runs))).
Proof.
  unfold Claim. destruct (Z.leb_spec limit 0) as [Hl|Hl].
  { apply db_spec_ret. auto. }
  apply db_spec_transaction; [auto|]. intros c. tx_step. tx_step; [tx_step; auto| |tx_step; auto].
  assert (claim_runs cutoff now limit (part c) = (d', a)) as Hs by congruence.
  repeat tx_step; [auto|right; right|right; right]; (split; [done|]); exists a; (split; [exact Hs|]); simpl; congruence.
Qed.

(** A run returned by a claim, and the row it stands for. *)
Definition claimed_from (d : DB) (run : DispatchRun) : Prop :=
  ∃ row, task_runs d !! dr_ID run = Some row ∧ tr_state row = Assigned ∧
    tr_assigned_server_id row = Some (dr_ServerID run) ∧ tr_execution_token row = Some (dr_ExecutionToken run) ∧
    (dr_ScriptVerified run = true → script_matches d (dr_ServerID run) (dr_ScriptVersionID run)).

Lemma Claim_post cutoff now limit :
  db_spec (C := C) (Claim cutoff now limit) (λ d r d',
    (d' = d ∧ (is_ok r = true → r = Ok [])) ∨
    ∃ ids, Claim_effect cutoff now limit d d' ids ∧
      ∀ runs run, r = Ok runs → run ∈ runs → dr_ID run ∈ ids ∧ claimed_from d run).
Proof.
  eapply db_spec_mono; [apply Claim_spec|]. intros d r d' [(-> & -> & _)|[[-> Hr]|(Hl & runs & E & Hr)]].
  - left. auto.
  - left. split; [done|]. by rewrite Hr.
  - right. eexists. split; [by eapply claim_effect|]. intros runs' run -> Hrun. specialize (Hr eq_refl). simplify_eq.
    destruct (claim_runs_spec _ _ _ _ _ _ E) as [_ H]. destruct (H run Hrun) as (row & Hrow & Hdis & Hin & Hd).
    destruct (dispatch_run_inv _ _ _ _ Hd) as (_ & Hs & Ht & Hv). split; [done|].
    unfold dispatchable in Hdis. rewrite !andb_true_iff, !bool_decide_eq_true in Hdis.
    destruct Hdis as [[[Hst [token Etoken]] _] _]. exists row. split_and!; [done|done|done| |done].
    rewrite Ht. simpl. by rewrite Etoken.
Qed.

(** Claiming runs for dispatch takes at most the requested number of distinct runs,
    each assigned to a server and not dispatched after the cutoff, and marks exactly them
    as dispatched now; a returned run is a claimed one and names its server and execution,
    and it counts as verified only if the digest of the script on that server is the
    published one; a claimed run cannot be claimed again with a cutoff before that moment.  A failed claim changes nothing, or
    its commit took effect and only the reply was lost. *)
Theorem Claim_correct cutoff now limit :
  db_spec (C := C) (Claim cutoff now limit) (λ d r d',
    (d' = d ∧ (is_ok r = true → r = Ok [])) ∨
    ∃ ids, Claim_effect cutoff now limit d d' ids ∧
      ∀ runs run, r = Ok runs → run ∈ runs → dr_ID run ∈ ids ∧ claimed_from d run).
Proof. apply Claim_post. Qed.

Lemma Claim_sound cutoff now limit : db_spec (C := C) (Claim cutoff now limit) (λ d _ d', sound d d').
Proof.
  eapply db_spec_mono; [apply Claim_spec|]. intros d r d' [(-> & _)|[[-> _]|(Hl & runs & E & _)]]; [done|done|].
  destruct (claim_effect _ _ _ _ _ _ Hl E) as (_ & _ & Hc & _). by eapply claimed_sound.
Qed.

Lemma RecordResult_sound runID token text : db_spec (C := C) (RecordResult runID token text) (λ d _ d', sound d d').
Proof.
  intros c. unfold RecordResult. cbv zeta. apply wp_bind, wp_clock_now. intros now.
  apply wp_pool; [by rewrite set_part_same|]. intros d' u [= <- <-]. rewrite !part_set.
  assert (sound (part c) (update_run runID (λ row,
    if bool_decide (tr_execution_token row = Some token) && bool_decide (tr_state row = Assigned)
    then recorded_row (truncateRunes text maxDispatchErrorRunes) now row else row) (part c))) as Hs; [|done].
  apply bookkeeping_sound; [done|done|]. intros id. simpl.
  destruct (decide (id = runID)) as [->|Hne].
  - rewrite lookup_alter_eq. destruct (task_runs (part c) !! runID); constructor. by destruct (_ && _).
  - rewrite lookup_alter_ne by done. destruct (task_runs (part c) !! id); by constructor.
Qed.

End claim.

(** ** What is sent *)

(** The secrets the run asks for, all of them and nothing else. *)
Lemma bound_values_dom bindings resolved names values :
  bound_values bindings resolved names = Some values → dom values = list_to_set names.
Proof.
  revert values. induction names as [|name names IH]; intros values H; simpl in *; [by simplify_eq; rewrite dom_empty_L|].
  destruct (resolved !! _) as [value|]; [|done]. destruct (bound_values _ _ names) as [rest|]; [|done]. simplify_eq.
  rewrite dom_insert_L. by rewrite (IH rest).
Qed.

(** The command [command] executes [run], and [run] may be executed. *)
Definition command_for (run : DispatchRun) (command : ExecutionCommand) : Prop :=
  dr_SyncState run = SyncReady ∧ dr_ScriptVerified run = true ∧
  policy_Validate (dr_Artifacts run) = true ∧ (is_Some (dr_Artifacts run) → dr_ArtifactsSupported run = true) ∧
  entrypoint_rejected (dr_Entrypoint run) = false ∧
  ∃ secrets, dom secrets = dom (dr_SecretBindings run) ∧ command = CommandAssign (assignment_for run secrets).

Section sending.
Context {C : Type} `{!SecretResolver C} (I : C → Prop).

Hypothesis resolver_keeps : ∀ resolve refs c,
  resolver_ResolveForRun = Some resolve → I c → wp (resolve refs) c (λ _ c', I c').

Lemma wp_resolve bindings c :
  I c → wp (resolveSecretBindings bindings) c (λ r c', I c' ∧
    match r with Ok (Some secrets) => dom secrets = dom bindings | _ => True end).
Proof.
  intros H. unfold resolveSecretBindings. case_bool_decide as He; [apply wp_ret; split; [done|]; by rewrite He|].
  destruct resolver_ResolveForRun as [resolve|] eqn:Er; [|by apply wp_ret]. cbv zeta.
  destruct (binding_refs _ _) as [refs|]; [|by apply wp_ret].
  apply wp_bind, wp_catch. eapply wp_mono; [by apply resolver_keeps|]. intros [resolved|e] c' Hc'; apply wp_ret; [|done].
  split; [done|]. destruct (bound_values _ _ _) as [values|] eqn:Ev; [|done].
  rewrite (bound_values_dom _ _ _ _ Ev). unfold sorted_names. apply set_eq. intros name.
  rewrite elem_of_list_to_set, elem_of_stable_sort, elem_of_dom, list_elem_of_fmap. split.
  - intros ([k v] & -> & Hin%elem_of_map_to_list). by exists v.
  - intros [v Hv]. exists (name, v). by rewrite elem_of_map_to_list.
Qed.

Lemma wp_prepare run c :
  I c → wp (prepare run) c (λ r c', I c' ∧ match r with Ok (inl command) => command_for run command | _ => True end).
Proof.
  intros H. unfold prepare. case_bool_decide; [by apply wp_ret|].
  destruct (bool_decide (dr_SyncState run = SyncReady)) eqn:Es; [|by apply wp_ret].
  destruct (dr_ScriptVerified run) eqn:Ev; [|by apply wp_ret]. cbn [negb andb]. apply bool_decide_eq_true in Es.
  unfold executionCommand. destruct (_ && negb _) eqn:Ea; [by apply wp_ret|].
  destruct (policy_Validate _) eqn:Ep; [|by apply wp_ret]. cbn [negb].
  destruct (entrypoint_rejected _) eqn:Ee; [by apply wp_ret|]. destruct (map_marshals _); [|by apply wp_ret]. cbn [negb].
  apply wp_bind. eapply wp_mono; [by apply wp_resolve|]. intros [[secrets|]|e] c' [HI Hd]; [apply wp_ret|by apply wp_ret|done].
  split; [done|]. split_and!; try done; [|eauto].
  intros Hs. rewrite (bool_decide_eq_true_2 _ Hs) in Ea. by destruct (dr_ArtifactsSupported run).
Qed.

End sending.

(** [script_cache] as path elements. *)
Definition cache_elements : list string := ["var"; "lib"; "yunling-agent"; "script-cache"; "scripts"].

Lemma entrypoint_plain entrypoint :
  entrypoint_rejected entrypoint = false → ∃ es, entrypoint = join_elements es ∧ es ≠ [] ∧ Forall plain es.
Proof.
  intros H. unfold entrypoint_rejected in H. rewrite !orb_false_iff, !bool_decide_eq_false, negb_false_iff, bool_decide_eq_true in H.
  destruct H as ((((((H1 & H2) & H3) & H4) & H5) & H6) & H7). rewrite H2 in *.
  apply clean_relative; try done. intros ->. by apply H1.
Qed.

Lemma Forall_plain_dec l : forallb (λ e, negb (bool_decide (e = "")) && negb (bool_decide (e = ".")) &&
  negb (bool_decide (e = "..")) && negb (contains_byte slash e)) l = true → Forall plain l.
Proof.
  rewrite forallb_forall. intros H. apply Forall_forall. intros e He%list_elem_of_In. specialize (H e He).
  rewrite !andb_true_iff, !negb_true_iff, !bool_decide_eq_false in H. by destruct H as [[[]]].
Qed.

Lemma assignment_path run secrets :
  plain (dr_ScriptID run) → plain (dr_ScriptVersionID run) → entrypoint_rejected (dr_Entrypoint run) = false →
  ∃ es, es ≠ [] ∧ Forall plain es ∧ dr_Entrypoint run = join_elements es ∧
    aa_ScriptPath (assignment_for run secrets) =
      script_cache +:+ String slash (join_elements (dr_ScriptID run :: dr_ScriptVersionID run :: es)).
Proof.
  intros Hs Hv (es & E & Hne & Hes)%entrypoint_plain. exists es. split_and!; [done|done|done|]. cbn [assignment_for aa_ScriptPath].
  assert (Forall plain cache_elements) as Hbase by (by apply Forall_plain_dec).
  change script_cache with (String slash (join_elements cache_elements)).
  change (String slash (join_elements cache_elements) +:+ ?s) with (String slash (join_elements cache_elements +:+ s)).
  rewrite <-Join_rooted; [|done|done|done|by apply Forall_cons_2; [|apply Forall_cons_2]]. unfold Join. cbn [drop_empty].
  rewrite bool_decide_eq_false_2 by done. f_equal. rewrite E.
  by rewrite !(join_cons _ (_ :: _)), (join_cons _ es) by done.
Qed.

(** A command is sent only for a run whose script is ready and verified on its
    server and whose artifact policy is valid and supported there.  The command carries
    the identity, the token, the version and the policy of the run, a positive limit of
    tasks, and the secrets the task binds, no more and no fewer names.  When the
    identifiers of script and version are plain names, the file it executes is the
    entrypoint below the directory of that version in the script cache: no element of
    the path leads out of it. *)
Theorem prepared_command_safe {C} `{!SecretResolver C} run (c : C) :
  plain (dr_ScriptID run) → plain (dr_ScriptVersionID run) →
  wp (prepare run) c (λ r _, ∀ command, r = Ok (inl command) →
    dr_SyncState run = SyncReady ∧ dr_ScriptVerified run = true ∧
    (∀ policy, dr_Artifacts run = Some policy → policy_Validate (Some policy) = true ∧ dr_ArtifactsSupported run = true) ∧
    ∃ a secrets es, command = CommandAssign a ∧
      aa_RunID a = dr_ID run ∧ aa_ExecutionToken a = dr_ExecutionToken run ∧
      aa_ScriptVersionID a = dr_ScriptVersionID run ∧ aa_Artifacts a = dr_Artifacts run ∧
      0 < rl_TasksMax (aa_Resources a) ∧
      aa_Environment a !! "YUNLING_SECRETS_JSON" = Some (json_strings secrets) ∧
      dom secrets = dom (dr_SecretBindings run) ∧
      es ≠ [] ∧ Forall plain es ∧ dr_Entrypoint run = join_elements es ∧
      aa_ScriptPath a = script_cache +:+ String slash (join_elements (dr_ScriptID run :: dr_ScriptVersionID run :: es))).
Proof.
  intros Hs Hv. eapply wp_mono.
  { apply (wp_prepare (λ _, True)); [|done]. intros. by intros o; destruct (resolve refs (_, o)) as [[]]. }
  intros r c' [_ H] command ->. destruct H as (H1 & H2 & H3 & H4 & H5 & secrets & Hd & ->).
  split_and!; [done|done| |].
  - intros policy E. rewrite E in *. split; [done|]. by apply H4.
  - destruct (assignment_path run secrets Hs Hv H5) as (es & Hne & Hes & E & Hp).
    exists (assignment_for run secrets), secrets, es. split_and!; try done.
    cbn [assignment_for aa_Resources rl_TasksMax]. destruct (Z.leb_spec (rl_TasksMax (dr_Resources run)) 0); [done|lia].
Qed.

Definition example_run : DispatchRun :=
  mkDispatchRun None false "run-1" "token-1" "srv-1" "script-1" "v1" "bash" "bin/main.sh" ∅ ∅ (mkResourceLimits 100 100 100 0)
    (60 * second) 1 SyncReady true.

Lemma prepared_command_safe_witness :
  ∃ resolver : SecretResolver unit,
    wp (prepare example_run) tt (λ r _, ∀ command, r = Ok (inl command) → dr_ScriptVerified example_run = true) ∧
    (prepare example_run (tt, calm [] 0)).2 =
      Ok (inl (CommandAssign (assignment_for example_run ∅))) ∧
    aa_ScriptPath (assignment_for example_run ∅) = "/var/lib/yunling-agent/script-cache/scripts/script-1/v1/bin/main.sh".
Proof.
  exists {| resolver_ResolveForRun := None |}. split_and!.
  - eapply wp_mono; [apply (prepared_command_safe example_run tt); by split_and!|].
    intros r c' H command Hc. by destruct (H command Hc) as (_ & ? & _).
  - reflexivity.
  - vm_compute. reflexivity.
Defined.

(** ** A round of dispatching *)

Section round.
Context {C : Type} `{!Has DB C, !SecretResolver C, !FailureSink C} (send : string → ExecutionCommand → Prog C unit)
  (I : C → Prop).

Hypothesis resolver_keeps : ∀ resolve refs c,
  resolver_ResolveForRun = Some resolve → I c → wp (resolve refs) c (λ _ c', I c').
Hypothesis sink_keeps : ∀ apply event c, sink_Apply = Some apply → I c → wp (apply event) c (λ _ c', I c').
Hypothesis record_keeps : ∀ runID token text c, I c → wp (RecordResult runID token text) c (λ _ c', I c').

Lemma wp_collect {A} (m : Prog C A) c : wp m c (λ _ c', I c') → wp (collect m) c (λ _ c', I c').
Proof. intros H. apply wp_bind, wp_catch. eapply wp_mono; [exact H|]. intros [a|e] c' Hc'; by apply wp_ret. Qed.

(** The runs are handled one by one; what is sent for each is a command for it. *)
Lemma wp_dispatch_all now runs c :
  (∀ run command c, run ∈ runs → command_for run command → I c → wp (send (dr_ServerID run) command) c (λ _ c', I c')) →
  I c → wp (dispatch_all (Some send) now runs) c (λ _ c', I c').
Proof.
  revert c. induction runs as [|run runs IH]; intros c Hsend H; [by apply wp_ret|]. cbn [dispatch_all].
  assert (wp (dispatch_one (Some send) now run) c (λ _ c', I c')) as Hone.
  { apply wp_bind. eapply wp_mono; [by apply (wp_prepare I)|]. intros [[command|message]|e] c' [Hc' Hcmd]; [| |done].
    - apply wp_bind, wp_catch. eapply wp_mono; [apply Hsend; [left|done|done]|].
      intros [u|e] c'' Hc''; [by apply wp_ret|]. by apply wp_collect, record_keeps.
    - destruct sink_Apply as [apply|] eqn:Ea; [|by apply wp_ret]. apply wp_collect. by apply (sink_keeps apply). }
  apply wp_bind. eapply wp_mono; [exact Hone|]. intros [errors|e] c' Hc'; [|done].
  apply wp_bind. eapply wp_mono; [apply IH; [|done]; intros; apply Hsend; [by right|done|done]|].
  intros [others|e] c'' Hc''; [by apply wp_ret|done].
Qed.

Lemma wp_Dispatch c :
  I c →
  (∀ now, wp (Claim (now - DefaultRetryInterval) now DefaultBatchSize) c (λ r c', I c' ∧
     ∀ runs run command c'', r = Ok runs → run ∈ runs → command_for run command → I c'' →
       wp (send (dr_ServerID run) command) c'' (λ _ c3, I c3))) →
  wp (Dispatch (Some send)) c (λ _ c', I c').
Proof.
  intros H Hclaim. apply wp_bind, wp_clock_now. intros now. apply wp_bind. eapply wp_mono; [apply Hclaim|].
  intros [runs|e] c1 [H1 Hsend]; [|done]. apply wp_bind.
  eapply wp_mono; [apply wp_dispatch_all; [|exact H1]; intros; by eapply Hsend|].
  intros [[|e errors]|e] c2 H2; [by apply wp_ret|by apply wp_throw|done].
Qed.

End round.
