(* ===== verification/Hub.v ===== *)
(** * Hub

    [AgentConnectionHub] of [internal/server/connections.go]: the registry of the
    websocket connections of the agents, and the sending of commands over them.

    The hub's methods hold a mutex for each access to its maps, but a command is
    written after the mutex has been released: [hub_step] is the interleaving of the
    methods at that granularity, with the writes that are under way.  The connections
    themselves belong to the websocket library; a handle stands for the pointer, and
    the hub records what was written to it and which handles it started to close.

    The loop [for candidate := range m { connection = candidate; break }] takes an
    arbitrary key: [MapRange] is that choice, free to differ from one loop to the next. *)

From S2P Require Import Prelude GoStd Model World Schema Session RunService UpgradeStore UpgradeCoordinator.

Abbreviation Conn := nat (only parsing).

(** The values the server writes to agents: commands, and the JSON text of any other. *)
Inductive AgentMessage : Type :=
| MsgExecution (command : ExecutionCommand)
| MsgUpgrade (command : UpgradeCommand)
| MsgOther (json : string).

Record AgentConnectionHub : Type := mkHub {
  hub_connections : gmap string (gset Conn);
  hub_disabled : gset string;
  hub_closing : list Conn;
  hub_written : list (Conn * AgentMessage);
  hub_ranges : nat
}.

#[export] Instance eta_Hub : Eta AgentConnectionHub := λ h,
  mkHub (hub_connections h) (hub_disabled h) (hub_closing h) (hub_written h) (hub_ranges h).

Class MapRange : Type := {
  range_first : nat → gset Conn → option Conn;
  range_first_empty : ∀ n, range_first n ∅ = None;
  range_first_some : ∀ n s, s ≠ ∅ → ∃ connection, range_first n s = Some connection ∧ connection ∈ s
}.

(** ** The operations on the maps *)

Definition NewAgentConnectionHub : AgentConnectionHub := mkHub ∅ ∅ [] [] 0.

Definition connections_of (serverID : string) (h : AgentConnectionHub) : gset Conn :=
  default ∅ (hub_connections h !! serverID).

Definition closeDisabledConnection (connection : Conn) (h : AgentConnectionHub) : AgentConnectionHub :=
  h <| hub_closing := hub_closing h ++ [connection] |>.

Definition close_all (connections : gset Conn) (h : AgentConnectionHub) : AgentConnectionHub :=
  h <| hub_closing := hub_closing h ++ elements connections |>.

(** The function [Register] returns. *)
Definition unregister (serverID : string) (connection : Conn) (h : AgentConnectionHub) : AgentConnectionHub :=
  let rest := connections_of serverID h ∖ {[connection]} in
  if bool_decide (rest = ∅) then h <| hub_connections ::= delete serverID |>
  else h <| hub_connections ::= <[serverID := rest]> |>.

Definition Register (serverID : string) (connection : Conn) (h : AgentConnectionHub) :
    AgentConnectionHub * (AgentConnectionHub → AgentConnectionHub) :=
  if bool_decide (serverID ∈ hub_disabled h) then (closeDisabledConnection connection h, id)
  else (h <| hub_connections ::= <[serverID := {[connection]} ∪ connections_of serverID h]> |>, unregister serverID connection).

Definition Disconnect (serverID : string) (h : AgentConnectionHub) : AgentConnectionHub :=
  close_all (connections_of serverID h) (h <| hub_connections ::= delete serverID |>).

Definition Hub_SetEnabled (serverID : string) (enabled : bool) (h : AgentConnectionHub) : AgentConnectionHub :=
  if enabled then h <| hub_disabled := hub_disabled h ∖ {[serverID]} |>
  else
    close_all (connections_of serverID h)
      (h <| hub_disabled := {[serverID]} ∪ hub_disabled h |> <| hub_connections ::= delete serverID |>).

Section sending.
Context `{range : !MapRange}.

(** The loop over [h.connections[serverID]]. *)
Definition choose (serverID : string) (h : AgentConnectionHub) : AgentConnectionHub * option Conn :=
  (h <| hub_ranges := S (hub_ranges h) |>, range_first (hub_ranges h) (connections_of serverID h)).

Context {C : Type} `{!Has AgentConnectionHub C}.

Definition wrote (connection : Conn) (value : AgentMessage) (h : AgentConnectionHub) : AgentConnectionHub :=
  h <| hub_written := hub_written h ++ [(connection, value)] |>.

Definition Write (connection : Conn) (value : AgentMessage) : Prog C unit :=
  remote "write" (λ c, Some (set_part (wrote connection value (part c)) c, tt)).

Definition send_over (serverID : string) (value : AgentMessage) : Prog C unit :=
  let! connection := local (λ c, let '(h, r) := choose serverID (part c) in (set_part h c, r)) in
  match connection with
  | None => throw ErrAgentConnectionUnavailable
  | Some connection => Write connection value
  end.

Definition Hub_SendExecutionCommand (serverID : string) (command : ExecutionCommand) : Prog C unit :=
  send_over serverID (MsgExecution command).

Definition Hub_SendUpgradeCommand (serverID : string) (command : UpgradeCommand) : Prog C unit :=
  send_over serverID (MsgUpgrade (command <| uc_MessageType := "agent_upgrade_command" |>)).

#[export] Instance hub_CommandSender : CommandSender C := {| SendExecutionCommand := Hub_SendExecutionCommand |}.
#[export] Instance hub_UpgradeSender : UpgradeSender C := {| SendUpgradeCommand := Hub_SendUpgradeCommand |}.

End sending.

(** ** The interleaving of the methods

    A configuration: the hub, the connections that were accepted with the server they
    were authenticated for (a handle is never reused), the registered ones whose
    [unregister] has not run, the writes under way (after [choose], or a [Write] of the
    handler of a connection to that connection: [agentConnectHandler] answers log chunks
    and hands out synchronisations itself), and the finished ones, each with the server it
    was meant for. *)
Record Config : Type := mkConfig {
  cf_hub : AgentConnectionHub;
  cf_accepted : gmap Conn string;
  cf_registered : list (string * Conn);
  cf_writing : list (string * Conn * AgentMessage);
  cf_sent : list (string * Conn * AgentMessage)
}.

#[export] Instance eta_Config : Eta Config := λ k,
  mkConfig (cf_hub k) (cf_accepted k) (cf_registered k) (cf_writing k) (cf_sent k).

Section interleaving.
Context `{range : !MapRange}.

Inductive hub_step (k : Config) : Config → Prop :=
| step_accept serverID connection :
    cf_accepted k !! connection = None →
    hub_step k (mkConfig (Register serverID connection (cf_hub k)).1 (<[connection := serverID]> (cf_accepted k))
      (if bool_decide (serverID ∈ hub_disabled (cf_hub k)) then cf_registered k else (serverID, connection) :: cf_registered k)
      (cf_writing k) (cf_sent k))
| step_leave serverID connection before after :
    cf_registered k = before ++ (serverID, connection) :: after →
    hub_step k (k <| cf_hub ::= unregister serverID connection |> <| cf_registered := before ++ after |>)
| step_disconnect serverID : hub_step k (k <| cf_hub ::= Disconnect serverID |>)
| step_set_enabled serverID enabled : hub_step k (k <| cf_hub ::= Hub_SetEnabled serverID enabled |>)
| step_choose serverID value h connection :
    choose serverID (cf_hub k) = (h, Some connection) →
    hub_step k (k <| cf_hub := h |> <| cf_writing := (serverID, connection, value) :: cf_writing k |>)
| step_refuse serverID h :
    choose serverID (cf_hub k) = (h, None) → hub_step k (k <| cf_hub := h |>)
| step_reply serverID connection value :
    cf_accepted k !! connection = Some serverID →
    hub_step k (k <| cf_writing := (serverID, connection, value) :: cf_writing k |>)
| step_write serverID connection value before after :
    cf_writing k = before ++ (serverID, connection, value) :: after →
    hub_step k (k <| cf_hub ::= wrote connection value |> <| cf_writing := before ++ after |>
                  <| cf_sent := cf_sent k ++ [(serverID, connection, value)] |>)
| step_write_fails entry before after :
    cf_writing k = before ++ entry :: after → hub_step k (k <| cf_writing := before ++ after |>).

Definition hub_start : Config := mkConfig NewAgentConnectionHub ∅ [] [] [].

(** What the registry keeps true: no server has an empty entry, a disabled server has
    none, and a registered connection is one accepted for that server. *)
Record registry_ok (h : AgentConnectionHub) (accepted : gmap Conn string) : Prop := {
  rg_nonempty : ∀ s, hub_connections h !! s ≠ Some ∅;
  rg_disabled : ∀ s, s ∈ hub_disabled h → connections_of s h = ∅;
  rg_owner : ∀ s connection, connection ∈ connections_of s h → accepted !! connection = Some s
}.

Definition addressed (accepted : gmap Conn string) (l : list (string * Conn * AgentMessage)) : Prop :=
  ∀ s connection value, (s, connection, value) ∈ l → accepted !! connection = Some s.

Record hub_ok (k : Config) : Prop := {
  hk_registry : registry_ok (cf_hub k) (cf_accepted k);
  hk_writing : addressed (cf_accepted k) (cf_writing k);
  hk_sent : addressed (cf_accepted k) (cf_sent k);
  hk_written : hub_written (cf_hub k) = (λ e, (e.1.2, e.2)) <$> cf_sent k
}.

(** Removing connections from entries keeps the registry. *)
Lemma registry_shrink h h' accepted :
  registry_ok h accepted →
  (∀ s, hub_connections h' !! s = hub_connections h !! s ∨ hub_connections h' !! s = None ∨
     ∃ x, x ≠ ∅ ∧ x ⊆ connections_of s h ∧ hub_connections h' !! s = Some x) →
  (∀ s, s ∈ hub_disabled h' → s ∈ hub_disabled h ∨ hub_connections h' !! s = None) →
  registry_ok h' accepted.
Proof.
  intros [H1 H2 H3] Hs Hd.
  assert (∀ s, connections_of s h' ⊆ connections_of s h) as Hsub.
  { intros s. unfold connections_of at 1. destruct (Hs s) as [->|[->|(x & _ & Hx & ->)]]; simpl; [done|set_solver|done]. }
  split.
  - intros s. destruct (Hs s) as [->|[->|(x & Hx & _ & ->)]]; [done|done|congruence].
  - intros s Hin. destruct (Hd s Hin) as [Hdis|E]; [|unfold connections_of; by rewrite E].
    specialize (Hsub s). rewrite (H2 s Hdis) in Hsub. set_solver.
  - intros s connection Hc. by apply H3, Hsub.
Qed.

Lemma registry_drop serverID h h' accepted :
  registry_ok h accepted → hub_connections h' = delete serverID (hub_connections h) →
  (∀ s, s ∈ hub_disabled h' → s ∈ hub_disabled h ∨ s = serverID) → registry_ok h' accepted.
Proof.
  intros Hok E Hd. apply (registry_shrink h); [done| |]; intros s.
  - rewrite E. destruct (decide (s = serverID)) as [->|Hne]; [rewrite lookup_delete_eq|rewrite lookup_delete_ne by done]; auto.
  - intros [?| ->]%Hd; [auto|]. right. by rewrite E, lookup_delete_eq.
Qed.

Lemma registry_unregister serverID connection h accepted :
  registry_ok h accepted → registry_ok (unregister serverID connection h) accepted.
Proof.
  intros Hok. unfold unregister. cbv zeta. case_bool_decide as E; [by apply (registry_drop serverID h); auto|].
  apply (registry_shrink h); [done| |auto]. intros s. simpl.
  destruct (decide (s = serverID)) as [->|Hne]; [rewrite lookup_insert_eq|rewrite lookup_insert_ne by done; auto].
  right; right. eexists. split_and!; [done| |done]. set_solver.
Qed.

Lemma registry_register serverID connection h accepted :
  registry_ok h accepted → accepted !! connection = None →
  registry_ok (Register serverID connection h).1 (<[connection := serverID]> accepted).
Proof.
  intros [H1 H2 H3] Hfresh.
  assert (∀ s c, c ∈ connections_of s h → <[connection := serverID]> accepted !! c = Some s) as H3'.
  { intros s c Hc%H3. rewrite lookup_insert_ne; [done|congruence]. }
  unfold Register. case_bool_decide as Hdis; [by split|].
  assert (∀ s, connections_of s (h <| hub_connections ::= <[serverID := {[connection]} ∪ connections_of serverID h]> |>) =
    if bool_decide (s = serverID) then {[connection]} ∪ connections_of serverID h else connections_of s h) as Hc.
  { intros s. unfold connections_of. simpl. case_bool_decide as E; [subst; by rewrite lookup_insert_eq|by rewrite lookup_insert_ne]. }
  split; cbn [fst].
  - intros s. simpl. destruct (decide (s = serverID)) as [->|Hne]; [|by rewrite lookup_insert_ne].
    rewrite lookup_insert_eq. intros [= E]. set_solver.
  - intros s Hs. rewrite Hc, bool_decide_eq_false_2; [by apply H2|]. intros ->. by apply Hdis.
  - intros s c. rewrite Hc. case_bool_decide as E; [|apply H3']. subst s.
    intros [->%elem_of_singleton|Hin]%elem_of_union; [by rewrite lookup_insert_eq|by apply H3'].
Qed.

Lemma addressed_insert accepted connection serverID l :
  addressed accepted l → accepted !! connection = None → addressed (<[connection := serverID]> accepted) l.
Proof. intros Hl Hf s c value Hin%Hl. rewrite lookup_insert_ne; [done|congruence]. Qed.

Lemma addressed_incl accepted l l' : addressed accepted l → (∀ e, e ∈ l' → e ∈ l) → addressed accepted l'.
Proof. intros H Hl s c value Hin. by apply (H s c value), Hl. Qed.

Lemma elem_of_dropped {A} (x e : A) before after : e ∈ before ++ after → e ∈ before ++ x :: after.
Proof. rewrite !elem_of_app, elem_of_cons. tauto. Qed.

(** The connection a loop picks is a registered one. *)
Lemma choose_registered serverID h h' connection :
  choose serverID h = (h', connection) →
  h' = h <| hub_ranges := S (hub_ranges h) |> ∧
  match connection with Some c => c ∈ connections_of serverID h | None => connections_of serverID h = ∅ end.
Proof.
  unfold choose. intros [= <- <-]. split; [done|]. destruct (decide (connections_of serverID h = ∅)) as [E|E].
  - by rewrite E, range_first_empty.
  - destruct (range_first_some (hub_ranges h) _ E) as (c & -> & Hin). done.
Qed.

Lemma hub_ok_step k k' : hub_ok k → hub_step k k' → hub_ok k'.
Proof.
  intros [H1 H2 H3 H4] Hstep.
  destruct Hstep as [sid c Hf|sid c b a E|sid|sid en|sid v h c E|sid h E|sid c v E|sid c v b a E|e b a E].
  - split; cbn; [by apply registry_register|by apply addressed_insert|by apply addressed_insert|].
    rewrite <-H4. unfold Register. by case_bool_decide.
  - split; cbn; [by apply registry_unregister|done|done|]. rewrite <-H4. unfold unregister. cbv zeta. by case_bool_decide.
  - split; cbn; [|done|done|done]. by apply (registry_drop sid (cf_hub k)); auto.
  - split; cbn; [|done|done|by destruct en]. destruct en; simpl.
    + apply (registry_shrink (cf_hub k)); [done|by auto|]. intros s. simpl. set_solver.
    + apply (registry_drop sid (cf_hub k)); [done|done|]. intros s. simpl. set_solver.
  - apply choose_registered in E as [-> Hc]. split; cbn; [by apply (registry_shrink (cf_hub k)); auto| |done|done].
    intros s c' v' [[= -> -> ->]|Hin]%elem_of_cons; [by apply H1|by eapply H2].
  - apply choose_registered in E as [-> _]. split; cbn; [by apply (registry_shrink (cf_hub k)); auto|done|done|done].
  - split; cbn; [done| |done|done]. intros s c' v' [[= -> -> ->]|Hin]%elem_of_cons; [done|by eapply H2].
  - rewrite E in H2. split; cbn; [by apply (registry_shrink (cf_hub k)); auto| | |].
    + eapply addressed_incl; [exact H2|]. intros e. apply elem_of_dropped.
    + intros s c' v' [Hin|[= -> -> ->]%list_elem_of_singleton]%elem_of_app; [by eapply H3|].
      apply (H2 sid c v). apply elem_of_app. right. left.
    + by rewrite H4, fmap_app.
  - rewrite E in H2. split; cbn; [done| |done|done]. eapply addressed_incl; [exact H2|]. intros e'. apply elem_of_dropped.
Qed.

Lemma hub_ok_reachable k : rtc hub_step hub_start k → hub_ok k.
Proof.
  intros H. assert (∀ k0, hub_ok k0 → rtc hub_step k0 k → hub_ok k) as Hgen.
  { clear H. intros k0 Hok H. induction H as [|x y z Hxy Hyz IH]; [done|]. apply IH. by eapply hub_ok_step. }
  apply (Hgen hub_start); [|done]. split; cbn; [|by intros ??? []%elem_of_nil|by intros ??? []%elem_of_nil|done].
  by split.
Qed.

(** C39: However the methods of the hub and the replies of the handlers interleave, a
    message is only ever written to a connection that was accepted for the server it is
    meant for, and the messages written are exactly those sends and replies.  A disabled server has no registered connection, so
    that a send that starts while it is disabled finds none; a send that starts while a
    server has a connection finds one of that server. *)
Theorem hub_delivery k :
  rtc hub_step hub_start k →
  hub_written (cf_hub k) = (λ e, (e.1.2, e.2)) <$> cf_sent k ∧
  (∀ s connection value, (s, connection, value) ∈ cf_sent k → cf_accepted k !! connection = Some s) ∧
  (∀ s, s ∈ hub_disabled (cf_hub k) → (choose s (cf_hub k)).2 = None) ∧
  (∀ s, connections_of s (cf_hub k) ≠ ∅ →
     ∃ connection, (choose s (cf_hub k)).2 = Some connection ∧ cf_accepted k !! connection = Some s).
Proof.
  intros [H1 H2 H3 H4]%hub_ok_reachable. split_and!; [done|exact H3| |]; intros s Hs.
  - unfold choose. simpl. rewrite (rg_disabled _ _ H1 s Hs). apply range_first_empty.
  - destruct (choose s (cf_hub k)) as [h [connection|]] eqn:E; apply choose_registered in E as [_ Hc]; [|done].
    exists connection. split; [done|]. by apply (rg_owner _ _ H1).
Qed.

(** A send is a choice followed by its write. *)
Lemma choose_then_fail serverID (value : AgentMessage) connection h h1 accepted registered writing sent :
  choose serverID h = (h1, Some connection) →
  rtc hub_step (mkConfig h accepted registered writing sent) (mkConfig h1 accepted registered writing sent).
Proof.
  intros E. eapply rtc_l; [by eapply (step_choose (mkConfig h accepted registered writing sent) serverID value)|].
  apply rtc_once. by apply (step_write_fails
    (mkConfig h1 accepted registered ((serverID, connection, value) :: writing) sent) (serverID, connection, value) [] writing).
Qed.

Lemma choose_then_write serverID value connection h h1 accepted registered writing sent :
  choose serverID h = (h1, Some connection) →
  rtc hub_step (mkConfig h accepted registered writing sent)
    (mkConfig (wrote connection value h1) accepted registered writing (sent ++ [(serverID, connection, value)])).
Proof.
  intros E. eapply rtc_l; [by eapply (step_choose (mkConfig h accepted registered writing sent) serverID value)|].
  apply rtc_once. by apply (step_write
    (mkConfig h1 accepted registered ((serverID, connection, value) :: writing) sent) serverID connection value [] writing).
Qed.

Context {C : Type} `{!Has AgentConnectionHub C}.

(** Sending a command is one loop over the connections of the server followed by at
    most one write: a path of the interleaving relation that leaves the other writes
    alone.  Without a connection the error says so and nothing is written; a success
    means the message was written, once, to a connection of that server; any other
    failure leaves at most that one message. *)
Theorem send_refines_steps serverID value (c : C) :
  wp (send_over serverID value) c (λ r c',
    let h := part (X := AgentConnectionHub) c in
    let h' := part (X := AgentConnectionHub) c' in
    c' = set_part h' c ∧ hub_connections h' = hub_connections h ∧ hub_disabled h' = hub_disabled h ∧
    ∃ sent, hub_written h' = hub_written h ++ ((λ e, (e.1.2, e.2)) <$> sent) ∧
      (∀ accepted registered writing before,
         rtc hub_step (mkConfig h accepted registered writing before)
           (mkConfig h' accepted registered writing (before ++ sent))) ∧
      match r with
      | Ok _ => ∃ connection, connection ∈ connections_of serverID h ∧ sent = [(serverID, connection, value)]
      | Err e =>
        if bool_decide (connections_of serverID h = ∅) then e = ErrAgentConnectionUnavailable ∧ sent = []
        else sent = [] ∨ ∃ connection, connection ∈ connections_of serverID h ∧ sent = [(serverID, connection, value)]
      end).
Proof.
  apply wp_bind, wp_local. destruct (choose serverID (part c)) as [h1 connection] eqn:E. cbn [fst snd].
  pose proof (choose_registered _ _ _ _ E) as [E1 Hc].
  assert (hub_connections h1 = hub_connections (part c) ∧ hub_disabled h1 = hub_disabled (part c) ∧
    hub_written h1 = hub_written (part c)) as (Ec & Ed & Ew) by (by rewrite E1).
  destruct connection as [connection|].
  - assert (connections_of serverID (part c) ≠ ∅) as Hne by set_solver.
    apply wp_remote.
    + rewrite part_set. split_and!; [done|done|done|]. exists []. split_and!; [by rewrite app_nil_r| |].
      * intros accepted registered writing before. rewrite app_nil_r. by apply (choose_then_fail serverID value connection).
      * rewrite bool_decide_eq_false_2 by done. auto.
    + intros c' u [= <- <-]. rewrite !part_set.
      assert (∀ accepted registered writing before,
        rtc hub_step (mkConfig (part c) accepted registered writing before)
          (mkConfig (wrote connection value h1) accepted registered writing (before ++ [(serverID, connection, value)]))) as Hp.
      { intros. by apply choose_then_write. }
      split; (split_and!; [by rewrite set_part_twice|done|done|exists [(serverID, connection, value)]]).
      * split_and!; [simpl; by rewrite Ew|exact Hp|eauto].
      * split_and!; [simpl; by rewrite Ew|exact Hp|]. rewrite bool_decide_eq_false_2 by done. eauto.
  - apply wp_throw. rewrite part_set. split_and!; [done|done|done|]. exists [].
    split_and!; [by rewrite app_nil_r| |by rewrite bool_decide_eq_true_2].
    intros accepted registered writing before. rewrite app_nil_r. apply rtc_once.
    exact (step_refuse (mkConfig (part c) accepted registered writing before) serverID h1 E).
Qed.

End interleaving.

(** A range loop that takes the first of the keys in a fixed order. *)
Definition first_in_order : MapRange.
Proof.
  refine {| range_first := λ _ s, head (elements s) |}.
  - done.
  - intros _ s Hs. destruct (elements s) as [|connection l] eqn:E.
    + exfalso. by apply Hs, leibniz_equiv, elements_empty_inv.
    + exists connection. split; [done|]. apply elem_of_elements. rewrite E. left.
Defined.

(** Connection 7 of a server is accepted, a command is sent to it, the server is
    disabled while the command is written, and the handler still answers. *)
Lemma hub_delivery_witness :
  let value := MsgOther "x" in
  ∃ k, rtc (hub_step (range := first_in_order)) hub_start k ∧
    (∀ s connection value, (s, connection, value) ∈ cf_sent k → cf_accepted k !! connection = Some s) ∧
    hub_written (cf_hub k) = [(7%nat, value); (7%nat, MsgOther "ack")] ∧ hub_closing (cf_hub k) = [7%nat] ∧
    cf_sent k = [("srv-1", 7%nat, value); ("srv-1", 7%nat, MsgOther "ack")].
Proof.
  cbv zeta. eassert (rtc (hub_step (range := first_in_order)) hub_start _) as Hreach.
  { eapply rtc_l; [by apply (step_accept (range := first_in_order) hub_start "srv-1" 7%nat)|].
    eapply rtc_l; [by eapply (step_choose (range := first_in_order) _ "srv-1" (MsgOther "x") _ 7%nat)|].
    eapply rtc_l; [by apply (step_set_enabled (range := first_in_order) _ "srv-1" false)|].
    eapply rtc_l; [by apply (step_write (range := first_in_order) _ "srv-1" 7%nat (MsgOther "x") [] [])|].
    eapply rtc_l; [by apply (step_reply (range := first_in_order) _ "srv-1" 7%nat (MsgOther "ack"))|].
    apply rtc_once. by apply (step_write (range := first_in_order) _ "srv-1" 7%nat (MsgOther "ack") [] []). }
  eexists. split; [exact Hreach|]. pose proof (hub_delivery (range := first_in_order) _ Hreach) as (_ & Ho & _).
  split; [exact Ho|]. by vm_compute.
Defined.

(** ** What the hub promises to its clients *)

Section laws.
Context `{range : !MapRange} {C : Type} `{!Has AgentConnectionHub C, !Has DB C}.

(** The hub's part and the database are different parts. *)
Class Disjoint : Prop := { hub_not_db : ∀ (h : AgentConnectionHub) (c : C), part (X := DB) (set_part h c) = part c }.

Lemma send_over_frame `{!Disjoint} serverID value (c : C) :
  wp (send_over serverID value) c (λ _ c', part (X := DB) c' = part c).
Proof.
  apply wp_bind, wp_local. destruct (choose _ _) as [h [connection|]]; cbn [fst snd].
  - apply wp_remote; [apply hub_not_db|]. intros c' u [= <- <-]. by rewrite !hub_not_db.
  - apply wp_throw, hub_not_db.
Qed.

#[export] Instance hub_SenderLaw `{!Disjoint} : SenderLaw C.
Proof. split. intros. apply send_over_frame. Qed.

#[export] Instance hub_UpgradeSenderLaw `{!Disjoint} : UpgradeSenderLaw C.
Proof. split. intros. apply send_over_frame. Qed.

End laws.
