(* ===== verification/FleetService.v ===== *)
(** * FleetService

    The services of [internal/server] over their store: [Registry] (heartbeats and the
    detection of servers that went silent), [EnrollmentService], [CredentialService] and
    [ManagementService], with the registry's in-memory sequence numbers and the connection
    hub beside the tables. *)

From S2P Require Import Prelude GoStd GoPath GoFloat GoCrypto Model World Schema Session SchedulerService TaskService.
From S2P Require Import UpgradeStore UpgradeCoordinator Sha256 FleetStore FleetLaws Hub.

(** ** Secrets (enrollment.go) *)

Definition hashSecret (value : string) : string := Sum256 value.

(** ** The registry's memory *)

Record RegistryState : Type := mkRegistryState { rg_latest : gmap string Z; rg_loaded : gset string }.
#[export] Instance eta_Registry : Eta RegistryState := λ r, mkRegistryState (rg_latest r) (rg_loaded r).

Definition NewRegistry : RegistryState := mkRegistryState ∅ ∅.

Record ServerEvent : Type := mkServerEvent { sv_Type : string; sv_ServerID : string; sv_OccurredAt : Time }.

Class EventPublisher (C : Type) : Type := { Publish : ServerEvent → Prog C unit }.

Record EnrollmentToken : Type := mkEnrollmentToken { en_ID : string; en_Token : string; en_ExpiresAt : Time }.
Record AgentCredentials : Type := mkAgentCredentials { cr_ServerID : string; cr_Credential : string }.

Section service.
Context {C : Type} `{!Has DB C}.

Definition secureToken (count : nat) : Prog C string := let! value := rand_read count in ret (base64_encode true value).
Definition secureUUID : Prog C string := let! value := rand_read 16 in ret (uuid_text value).

(** ** registry.go *)

Section registry.
Context `{!Has RegistryState C, alerts : !AlertSink C, publisher : !EventPublisher C}.

Definition registry_do (f : RegistryState → RegistryState) : Prog C unit :=
  local (λ c, (set_part (f (part c)) c, tt)).
Definition registry_get {A} (f : RegistryState → A) : Prog C A := local (λ c, (c, f (part c))).

Definition log_spool_alert (heartbeat : Heartbeat) : AlertEvent :=
  let percentage := int_of_float (float_mul (float_div (float_of_int (hb_LogSpoolUsedBytes heartbeat))
                                               (float_of_int (hb_LogSpoolLimitBytes heartbeat))) (float_of_int 100)) in
  mkAlertEvent "server" (hb_ServerID heartbeat) "log_spool_near_limit" "warning" "日志缓冲接近上限"
    ("代理本地日志缓冲已使用 " +:+ format_int percentage +:+ "%，请检查中央连接或磁盘空间").

Definition spool_near_limit (heartbeat : Heartbeat) : bool :=
  let limit := hb_LogSpoolLimitBytes heartbeat in
  (0 <? limit) && (limit - go_div limit 5 <=? hb_LogSpoolUsedBytes heartbeat).

(** [if !r.loaded[heartbeat.ServerID] { ... }] *)
Definition load_sequence (id : string) : Prog C unit :=
  let! loaded := registry_get (λ r, bool_decide (id ∈ rg_loaded r)) in
  if loaded then ret tt
  else
    let! sequence := LatestHeartbeatSequence id in
    registry_do (λ r, match sequence with Some n => r <| rg_latest ::= <[id := n]> |> | None => r end) ;;!
    registry_do (λ r, r <| rg_loaded ::= union {[id]} |>).

(** The method holds the registry's mutex throughout. *)
Definition AcceptHeartbeat (heartbeat : Heartbeat) : Prog C unit :=
  let id := hb_ServerID heartbeat in
  if bool_decide (id = "") then throw ErrInvalidHeartbeat
  else
    load_sequence id ;;!
    let! latest := registry_get (λ r, rg_latest r !! id) in
    if match latest with Some n => hb_Sequence heartbeat <=? n | None => false end then ret tt
    else
      let! now := clock_now in
      let! accepted := SaveHeartbeat heartbeat now in
      if accepted : bool
      then
        registry_do (λ r, r <| rg_latest ::= <[id := hb_Sequence heartbeat]> |>) ;;!
        match sink_Raise with
        | Some raise => if spool_near_limit heartbeat then raise (log_spool_alert heartbeat) else ret tt
        | None => ret tt
        end
      else ret tt.

Definition offline_event (now : Time) (serverID : string) : ServerEvent := mkServerEvent "server.offline" serverID now.

Definition ReconcileOffline : Prog C unit :=
  let! now := clock_now in
  let! serverIDs := MarkOfflineBefore (now - 15 * second) in
  for_each serverIDs (λ serverID, Publish (offline_event now serverID)).

End registry.

(** ** enrollment.go *)

Definition tokenTTL : Duration := 10 * minute.

Definition CreateToken (input : EnrollmentTokenInput) : Prog C EnrollmentToken :=
  let! token := secureToken 32 in
  let! id := secureUUID in
  let! now := clock_now in
  let expiresAt := now + tokenTTL in
  CreateEnrollmentToken (mkEnrollmentTokenRecord id (hashSecret token) (ei_Name input) (ei_CloudProvider input)
    (ei_Region input) (ei_Labels input) expiresAt now) ;;!
  ret (mkEnrollmentToken id token expiresAt).

Definition Enroll (token : string) : Prog C AgentCredentials :=
  let! serverID := secureUUID in
  let! identityID := secureUUID in
  let! credential := secureToken 32 in
  let! now := clock_now in
  let! accepted := ConsumeEnrollmentToken (mkEnrollmentClaim (hashSecret token) serverID identityID (hashSecret credential) now) in
  if negb accepted then throw ErrEnrollmentTokenInvalid else ret (mkAgentCredentials serverID credential).

Definition Authenticate (credential : string) : Prog C string :=
  if bool_decide (credential = "") then throw ErrAgentCredentialInvalid
  else
    let! now := clock_now in
    let! found := catch (FindServerByCredentialHash (hashSecret credential) now) in
    match found with Ok serverID => ret serverID | Err _ => throw ErrAgentCredentialInvalid end.

(** ** credentials.go *)

Section connections.
Context `{!Has AgentConnectionHub C}.

Definition Rotate (serverID : string) : Prog C AgentCredentials :=
  let serverID := TrimSpace serverID in
  if bool_decide (serverID = "") then throw ErrInvalidCredentialOperation
  else
    let! identityID := secureUUID in
    let! credential := secureToken 32 in
    let! now := clock_now in
    CreatePendingIdentity (mkPendingAgentIdentity identityID serverID (hashSecret credential) now) ;;!
    ret (mkAgentCredentials serverID credential).

Definition hub_local (f : AgentConnectionHub → AgentConnectionHub) : Prog C unit :=
  local (λ c, (set_part (f (part c)) c, tt)).

Definition Revoke (serverID : string) : Prog C unit :=
  let serverID := TrimSpace serverID in
  if bool_decide (serverID = "") then throw ErrInvalidCredentialOperation
  else
    let! now := clock_now in
    RevokeServerCredentials serverID now ;;!
    hub_local (Disconnect serverID).

(** ** query.go: [ManagementService], whose disconnector is the hub *)

Definition Management_UpdateServer (id : string) (input : UpdateServerInput) : Prog C ServerView :=
  if bool_decide (TrimSpace id = "") || negb (validServerUpdate input) then throw ErrInvalidServerUpdate
  else
    let! updated := UpdateServer id input in
    match us_Enabled input with
    | Some enabled => hub_local (Hub_SetEnabled id enabled) ;;! ret updated
    | None => ret updated
    end.

End connections.
End service.

(** ** The laws of the parts *)

(** The subscribers of the registry's events leave the servers, the identities and the
    registry alone. *)
Class PublisherLaw {C : Type} `{!Has DB C, !Has RegistryState C, publisher : !EventPublisher C} : Prop := {
  publish_frame : ∀ event (c : C), wp (Publish event) c (λ _ c',
    servers (part c') = servers (part c) ∧ fleet (part c') = fleet (part c) ∧ part (X := RegistryState) c' = part c)
}.

Section laws.
Context {C : Type} `{!Has DB C, !Has RegistryState C, !Has AgentConnectionHub C}.
Context `{!Apart DB RegistryState C, !Apart RegistryState DB C, !Apart AgentConnectionHub DB C, !Apart AgentConnectionHub RegistryState C}.
Context `{alerts : !AlertSink C, publisher : !EventPublisher C, alert_law : !AlertLaw, publisher_law : !PublisherLaw}.

(** The remembered sequence numbers are never ahead of the tables. *)
Definition registry_ok (r : RegistryState) (d : DB) : Prop :=
  ∀ id n, rg_latest r !! id = Some n → ∃ s, servers d !! id = Some s ∧ n ≤ se_last_heartbeat_sequence s.

Lemma registry_ok_evolves r d d' : fleet_evolves d d' → registry_ok r d → registry_ok r d'.
Proof.
  intros He Hr id n Hn. destruct (Hr id n Hn) as (s & Hs & Hle). destruct (fe_servers _ _ He _ _ Hs) as (s' & Hs' & Hev).
  exists s'. split; [done|]. unfold server_evolves in Hev. lia.
Qed.

Record fleet_inv (d0 : DB) (c : C) : Prop := {
  fi_ok : fleet_ok (part c);
  fi_evolves : fleet_evolves d0 (part c);
  fi_registry : registry_ok (part c) (part c)
}.

Section keeping.
Context (d0 : DB).
Abbreviation ok := (fleet_inv d0).

Lemma fleet_inv_frame c c' :
  ok c → servers (part c') = servers (part c) → fleet (part c') = fleet (part c) →
  part (X := RegistryState) c' = part c → ok c'.
Proof.
  intros [H1 H2 H3] Hs Hf Hr. destruct (fleet_sound_other _ _ Hs Hf H1) as [Hok He].
  split; [done|by etrans|]. rewrite Hr. by eapply registry_ok_evolves.
Qed.

Lemma fleet_inv_db c d : ok c → fleet_sound (part c) d → ok (set_part d c).
Proof.
  intros [H1 H2 H3] Hs. destruct (Hs H1) as [Hok He]. split; rewrite ?part_set; [done|by etrans|].
  rewrite apart. by eapply registry_ok_evolves.
Qed.

End keeping.

(** ** Heartbeats *)

(** Reading the sequence of a server into the memory. *)
Lemma registry_ok_load r d id :
  registry_ok r d →
  registry_ok ((match se_last_heartbeat_sequence <$> servers d !! id with
                | Some n => r <| rg_latest ::= <[id := n]> |> | None => r end) <| rg_loaded ::= union {[id]} |>) d.
Proof.
  intros Hr k n. destruct (servers d !! id) as [s|] eqn:Es; simpl; [|by apply Hr].
  destruct (decide (k = id)) as [->|Hne]; [rewrite lookup_insert_eq|rewrite lookup_insert_ne by done; by apply Hr].
  intros [= <-]. eauto with lia.
Qed.

(** What a heartbeat leads to, up to the memory of the registry. *)
Definition heartbeat_effect (heartbeat : Heartbeat) (d : DB) (r : Result unit) (d' : DB) : Prop :=
  let stale := ∀ s, servers d !! hb_ServerID heartbeat = Some s → heartbeat_due heartbeat s = false in
  let saved := ∃ at_, heartbeat_saved heartbeat at_ d d' in
  match r with
  | Ok _ => saved ∨ (d' = d ∧ stale)
  | Err ErrInvalidHeartbeat => d' = d ∧ (hb_ServerID heartbeat = "" ∨ MaxInt64 < hb_Sequence heartbeat) ∨ saved
  | Err _ => d' = d ∨ saved
  end.

Lemma stale_sequence (r : RegistryState) (d : DB) heartbeat n :
  registry_ok r d → rg_latest r !! hb_ServerID heartbeat = Some n → hb_Sequence heartbeat ≤ n →
  ∀ s, servers d !! hb_ServerID heartbeat = Some s → heartbeat_due heartbeat s = false.
Proof.
  intros Hr Hn Hle s Hs. destruct (Hr _ _ Hn) as (s' & Hs' & Hseq). simplify_eq.
  unfold heartbeat_due. apply andb_false_intro2, Z.ltb_ge. lia.
Qed.

Lemma heartbeat_saved_evolves heartbeat at_ d d' r :
  heartbeat_saved heartbeat at_ d d' → registry_ok r d →
  registry_ok r d' ∧ registry_ok (r <| rg_latest ::= <[hb_ServerID heartbeat := hb_Sequence heartbeat]> |>) d'.
Proof.
  intros (s & id & Hs & Hd & _ & ->) Hr.
  apply andb_true_iff in Hd as [_ Hseq%Z.ltb_lt]. split; intros k n; simpl.
  - intros Hn. destruct (Hr k n Hn) as (s' & Hs' & Hle).
    destruct (decide (k = hb_ServerID heartbeat)) as [->|Hne]; [rewrite lookup_insert_eq|rewrite lookup_insert_ne by done; eauto].
    simplify_eq. eexists. split; [done|]. simpl. lia.
  - destruct (decide (k = hb_ServerID heartbeat)) as [->|Hne];
      [rewrite !lookup_insert_eq|rewrite !lookup_insert_ne by done; apply Hr].
    intros [= <-]. eexists. split; [done|]. simpl. lia.
Qed.

(** The registry after the load. *)
Lemma wp_registry_load id (c : C) Q :
  registry_ok (part c) (part c) →
  (∀ context, Q (Err (EStorage context)) c) →
  (∀ r, registry_ok r (part c) → Q (Ok tt) (set_part r c)) →
  wp (load_sequence id) c Q.
Proof.
  intros Hr He Hok. apply wp_bind, wp_local. cbn [fst snd]. case_bool_decide.
  - apply wp_ret. rewrite <-(set_part_same (X := RegistryState) c). by apply Hok.
  - apply wp_bind, wp_pool_query; [done|]. apply wp_bind, wp_local. cbn [fst snd]. apply wp_local. cbn [fst snd].
    rewrite part_set, set_part_twice. by apply Hok, registry_ok_load.
Qed.

Lemma wp_AcceptHeartbeat heartbeat (c : C) :
  registry_ok (part c) (part c) →
  wp (AcceptHeartbeat heartbeat) c (λ r c',
    heartbeat_effect heartbeat (part c) r (part c') ∧ registry_ok (part c') (part c')).
Proof.
  intros Hreg. unfold AcceptHeartbeat. case_bool_decide as Hid; [apply wp_throw; split; [left; auto|done]|]. apply wp_bind.
  apply wp_registry_load; [done|intros; split; [by left|done]|]. intros r Hr. apply wp_bind, wp_local. cbn [fst snd]. rewrite part_set.
  assert (part (X := DB) (set_part r c) = part c) as Hd by apply apart.
  destruct (match _ with Some n => _ | None => _ end) eqn:El.
  { apply wp_ret. rewrite Hd, part_set. split; [|done]. right. split; [done|].
    destruct (rg_latest r !! hb_ServerID heartbeat) as [n|] eqn:En; [|done]. apply Z.leb_le in El.
    by eapply stale_sequence. }
  apply wp_bind, wp_clock_now. intros at_. apply wp_bind. eapply wp_mono; [apply SaveHeartbeat_spec|].
  intros res c' [Hc' Hs]. rewrite Hd in Hs.
  assert (part (X := RegistryState) c' = r) as Hpr by (rewrite Hc', apart; apply part_set).
  destruct res as [[]|e].
  - destruct (heartbeat_saved_evolves _ _ _ _ _ Hs Hr) as [H1 H2].
    apply wp_bind, wp_local. cbn [fst snd]. rewrite Hpr.
    set (c2 := set_part _ c'). assert (part (X := DB) c2 = part c') as Hd2 by apply apart.
    assert (registry_ok (part c2) (part c2)) as Hok2 by (rewrite Hd2; unfold c2; by rewrite part_set).
    assert (heartbeat_effect heartbeat (part c) (Ok tt) (part c2)) as Heff by (left; exists at_; by rewrite Hd2).
    destruct sink_Raise as [raise|] eqn:E; [|by apply wp_ret]. destruct (spool_near_limit _); [|by apply wp_ret].
    eapply wp_mono; [by apply raise_frame|]. intros res c3 ->. split; [|done].
    destruct res as [[]|e]; [done|]. assert (∃ at_, heartbeat_saved heartbeat at_ (part c) (part c2)) by (exists at_; by rewrite Hd2).
    destruct e; simpl; auto.
  - destruct Hs as [Hs Hst]. apply wp_ret. rewrite Hpr, Hs. split; [by right|done].
  - rewrite Hpr. destruct e; try done.
    + destruct Hs as [Hs|Hs]; [rewrite Hs; split; [by left|done]|]. split; [simpl; eauto|]. by destruct (heartbeat_saved_evolves _ _ _ _ _ Hs Hr).
    + destruct Hs as [Hs Hm]. rewrite Hs. split; [left; auto|done].
Qed.

(** ** The operations of the fleet *)

Inductive FleetOperation : Type :=
| FleetHeartbeat (heartbeat : Heartbeat)
| FleetReconcileOffline
| FleetCreateToken (input : EnrollmentTokenInput)
| FleetEnroll (token : string)
| FleetAuthenticate (credential : string)
| FleetRotate (serverID : string)
| FleetRevoke (serverID : string)
| FleetUpdate (id : string) (input : UpdateServerInput)
| FleetDrain (serverID : string) (draining : bool)
| FleetCreateGroup (name : string)
| FleetRenameGroup (id name : string).

Definition fleet_perform (op : FleetOperation) : Prog C unit :=
  match op with
  | FleetHeartbeat heartbeat => ignore (AcceptHeartbeat heartbeat)
  | FleetReconcileOffline => ignore ReconcileOffline
  | FleetCreateToken input => ignore (CreateToken input)
  | FleetEnroll token => ignore (Enroll token)
  | FleetAuthenticate credential => ignore (Authenticate credential)
  | FleetRotate serverID => ignore (Rotate serverID)
  | FleetRevoke serverID => ignore (Revoke serverID)
  | FleetUpdate id input => ignore (Management_UpdateServer id input)
  | FleetDrain serverID draining => ignore (SetServerDraining serverID draining)
  | FleetCreateGroup name => ignore (CreateGroup name)
  | FleetRenameGroup id name => ignore (RenameGroup id name)
  end.

Definition fleet_perform_all (ops : list FleetOperation) : Prog C unit := for_each ops fleet_perform.

(** What the operations change in the tables: the runs are left alone. *)
Definition fleet_change (d d' : DB) : Prop := fleet_sound d d' ∧ same_runs d d'.

Lemma enrolled_change claim d d' : enrolled claim d d' → fleet_change d d'.
Proof. intros H. split; [by eapply enrolled_sound|]. by destruct H as (? & ? & _ & _ & _ & _ & _ & ->). Qed.
Lemma authenticated_change hash at_ serverID d d' : authenticated_as hash at_ serverID d d' → fleet_change d d'.
Proof. intros H. split; [by eapply authenticated_sound|]. by destruct H as (? & ? & ? & _ & _ & _ & _ & _ & _ & ->). Qed.
Lemma pending_created_change identity d d' : pending_created identity d d' → fleet_change d d'.
Proof.
  intros H. split; [by eapply pending_created_sound|].
  destruct H as (s & d1 & _ & _ & -> & (_ & _ & _ & ->)%insert_identity_inv). done.
Qed.
Lemma revoked_all_change serverID at_ d : fleet_change d (revoked_all serverID at_ d).
Proof. split; [apply revoked_all_sound|done]. Qed.
Lemma server_updated_change id input d d' : server_updated id input d d' → fleet_change d d'.
Proof. intros H. split; [by eapply server_updated_sound|]. by destruct H as (? & ? & _ & _ & ->). Qed.
Lemma heartbeat_saved_change heartbeat at_ d d' : heartbeat_saved heartbeat at_ d d' → fleet_change d d'.
Proof. intros H. split; [by eapply heartbeat_saved_sound|]. by destruct H as (? & ? & _ & _ & _ & ->). Qed.

(** What an invariant has to allow for the operations to keep it. *)
Class FleetContract (I : C → Prop) : Prop := {
  fc_db : ∀ c d, I c → fleet_change (part c) d → I (set_part d c);
  fc_hub : ∀ c (h : AgentConnectionHub), I c → I (set_part h c);
  fc_heartbeat : ∀ heartbeat, keeps I (AcceptHeartbeat heartbeat);
  fc_publish : ∀ event, keeps I (Publish event)
}.

Section operations.
Context (ok : C → Prop) `{!FleetContract ok}.

Lemma keeps_change {A} (m : Prog C A) : db_spec m (λ d _ d', d' = d ∨ fleet_change d d') → keeps ok m.
Proof.
  intros Hm c Hc. eapply wp_mono; [apply Hm|]. intros r c' [Hc' Hs]. rewrite Hc'.
  destruct Hs as [Hs|Hs]; [rewrite Hs, set_part_same; done|]. by apply fc_db.
Qed.

Lemma keeps_pool_change {A} context (f : DB → option (DB * A)) :
  (∀ d d' a, f d = Some (d', a) → fleet_change d d') → keeps ok (pool context f).
Proof.
  intros H c Hc. apply wp_pool; [done|]. intros d a Hf. assert (ok (set_part d c)); [|done].
  apply fc_db; [done|by eapply H].
Qed.

Lemma keeps_hub_local f : keeps ok (hub_local f).
Proof. intros c Hc. apply wp_local. by apply fc_hub. Qed.

Lemma keeps_rand count : keeps ok (rand_read count).
Proof. apply keeps_bind; [apply keeps_uuid|intros; apply keeps_ret]. Qed.
Lemma keeps_token count : keeps ok (secureToken count).
Proof. apply keeps_bind; [apply keeps_rand|intros; apply keeps_ret]. Qed.
Lemma keeps_secure_uuid : keeps ok secureUUID.
Proof. apply keeps_bind; [apply keeps_rand|intros; apply keeps_ret]. Qed.

Lemma keeps_ignore {A} (m : Prog C A) : keeps ok m → keeps ok (ignore m).
Proof. intros Hm. apply keeps_bind; [by apply keeps_catch|intros; apply keeps_ret]. Qed.

Lemma keeps_offline : keeps ok ReconcileOffline.
Proof.
  apply keeps_bind; [apply keeps_clock|intros now]. apply keeps_bind.
  - apply keeps_pool_change. intros d d' ids [= <- _]. split; [apply offline_sound|done].
  - intros ids. apply keeps_for_each. intros serverID. apply fc_publish.
Qed.

Lemma keeps_CreateToken input : keeps ok (CreateToken input).
Proof.
  apply keeps_bind; [apply keeps_token|intros token]. apply keeps_bind; [apply keeps_secure_uuid|intros id].
  apply keeps_bind; [apply keeps_clock|intros now]. apply keeps_bind; [|intros; apply keeps_ret].
  apply keeps_pool_change. intros d d' u Hd. cbv zeta in Hd. destruct (_ || _) eqn:E; [done|].
  apply orb_false_iff in E as [E1%bool_decide_eq_false E2]. injection Hd as <- _.
  split; [|done]. apply created_token_sound; [by apply eq_None_not_Some|done].
Qed.

Lemma keeps_Enroll token : keeps ok (Enroll token).
Proof.
  do 2 (apply keeps_bind; [apply keeps_secure_uuid|intros ?]). apply keeps_bind; [apply keeps_token|intros credential].
  apply keeps_bind; [apply keeps_clock|intros now]. apply keeps_bind.
  - apply keeps_change. eapply db_spec_mono; [apply ConsumeEnrollmentToken_spec|].
    intros d [[]|[]] d'; naive_solver eauto using enrolled_change.
  - intros []; [apply keeps_ret|apply keeps_throw].
Qed.

Lemma keeps_Authenticate credential : keeps ok (Authenticate credential).
Proof.
  unfold Authenticate. case_bool_decide as Hempty; [apply keeps_throw|]. apply keeps_bind; [apply keeps_clock|intros now].
  apply keeps_bind; [|intros []; [apply keeps_ret|apply keeps_throw]]. apply keeps_catch, keeps_change.
  eapply db_spec_mono; [apply FindServerByCredentialHash_spec|].
  intros d [serverID|[]] d'; naive_solver eauto using authenticated_change.
Qed.

Lemma keeps_Rotate serverID : keeps ok (Rotate serverID).
Proof.
  unfold Rotate. cbv zeta. case_bool_decide as Hempty; [apply keeps_throw|]. apply keeps_bind; [apply keeps_secure_uuid|intros identityID].
  apply keeps_bind; [apply keeps_token|intros credential]. apply keeps_bind; [apply keeps_clock|intros now].
  apply keeps_bind; [|intros; apply keeps_ret]. apply keeps_change. eapply db_spec_mono; [apply CreatePendingIdentity_spec|].
  intros d [u|[]] d'; naive_solver eauto using pending_created_change.
Qed.

Lemma keeps_Revoke serverID : keeps ok (Revoke serverID).
Proof.
  unfold Revoke. cbv zeta. case_bool_decide as Hempty; [apply keeps_throw|]. apply keeps_bind; [apply keeps_clock|intros now].
  apply keeps_bind; [|intros; apply keeps_hub_local]. apply keeps_change. eapply db_spec_mono; [apply RevokeServerCredentials_spec|].
  intros d [u|[]] d'; naive_solver eauto using revoked_all_change.
Qed.

Lemma keeps_UpdateServer id input : keeps ok (Management_UpdateServer id input).
Proof.
  unfold Management_UpdateServer. destruct (_ || _); [apply keeps_throw|]. apply keeps_bind.
  - apply keeps_change. eapply db_spec_mono; [apply UpdateServer_spec|].
    intros d r d' [[-> _]|[H _]]; eauto using server_updated_change.
  - intros view. destruct (us_Enabled input); [|apply keeps_ret].
    apply keeps_bind; [apply keeps_hub_local|intros; apply keeps_ret].
Qed.

Lemma keeps_SetServerDraining serverID draining : keeps ok (SetServerDraining serverID draining).
Proof.
  apply keeps_bind; [|intros []; [apply keeps_ret|apply keeps_throw]].
  apply keeps_pool_change. intros d d' b [= <- _]. split; [apply fleet_sound_drain|done].
Qed.

Lemma keeps_groups {A} context (f : DB → option (DB * A)) :
  (∀ d d' a, f d = Some (d', a) → ∃ g, d' = d <| fleet := (fleet d) <| server_groups := g |> |>) → keeps ok (pool context f).
Proof. intros H. apply keeps_pool_change. intros d d' a Hf. destruct (H d d' a Hf) as [g ->]. split; [apply fleet_sound_groups|done]. Qed.

Lemma keeps_CreateGroup name : keeps ok (CreateGroup name).
Proof.
  unfold CreateGroup. destruct (normalizedGroupName name); [|apply keeps_throw].
  apply keeps_bind; [apply keeps_uuid|intros id]. apply keeps_bind; [apply keeps_clock|intros now].
  apply keeps_bind; [|intros []; [apply keeps_ret|apply keeps_throw]]. apply keeps_groups.
  intros d d' created Hd. destruct (_ || _); injection Hd as <- _; [exists (server_groups (fleet d)); by destruct d as [? ? ? ? ? ? ? ? ? ? ? ? ? [] ?]|].
  by eexists.
Qed.

Lemma keeps_RenameGroup id name : keeps ok (RenameGroup id name).
Proof.
  unfold RenameGroup. destruct (normalizedGroupName name); [|apply keeps_throw].
  apply keeps_bind.
  - apply keeps_groups. intros d d' renamed Hd.
    assert (∃ g, d = d <| fleet := (fleet d) <| server_groups := g |> |>) as Hsame
      by (exists (server_groups (fleet d)); by destruct d as [? ? ? ? ? ? ? ? ? ? ? ? ? [] ?]).
    destruct (_ !! id); [|injection Hd as <- _; done]. destruct (group_name_used _ _ _); injection Hd as <- _; [done|by eexists].
  - intros found. apply keeps_bind; [destruct found; [apply keeps_ret|apply keeps_throw]|].
    intros []; [apply keeps_ret|apply keeps_throw].
Qed.

Lemma keeps_fleet_perform op : keeps ok (fleet_perform op).
Proof.
  destruct op; apply keeps_ignore.
  - apply fc_heartbeat.
  - apply keeps_offline.
  - apply keeps_CreateToken.
  - apply keeps_Enroll.
  - apply keeps_Authenticate.
  - apply keeps_Rotate.
  - apply keeps_Revoke.
  - apply keeps_UpdateServer.
  - apply keeps_SetServerDraining.
  - apply keeps_CreateGroup.
  - apply keeps_RenameGroup.
Qed.

Lemma keeps_fleet_all ops : keeps ok (fleet_perform_all ops).
Proof. apply keeps_for_each, keeps_fleet_perform. Qed.

End operations.

(** The invariant of the fleet is one. *)
Section invariant.
Context (d0 : DB).
Abbreviation ok := (fleet_inv d0).

Lemma keeps_heartbeat heartbeat : keeps ok (AcceptHeartbeat heartbeat).
Proof.
  intros c [H1 H2 H3]. eapply wp_mono; [by apply wp_AcceptHeartbeat|]. intros r c' [He Hr].
  assert (part (X := DB) c' = part c ∨ ∃ at_, heartbeat_saved heartbeat at_ (part c) (part c')) as [Hd|[at_ Hs]].
  { destruct r as [u|[]]; simpl in He; naive_solver. }
  - split; [by rewrite Hd|by rewrite Hd|done].
  - destruct (heartbeat_saved_sound _ _ _ _ Hs H1) as [Hok Hev]. split; [done|by etrans|done].
Qed.

#[export] Instance fleet_inv_contract : FleetContract ok.
Proof.
  split.
  - intros c d Hc [Hs _]. by apply fleet_inv_db.
  - intros c h Hc. apply (fleet_inv_frame d0 c); [done|by rewrite apart..].
  - apply keeps_heartbeat.
  - intros event c Hc. eapply wp_mono; [apply publish_frame|]. intros r c' (Hs & Hf & Hr). by eapply fleet_inv_frame.
Qed.

End invariant.
End laws.
