(* ===== verification/Platform.v ===== *)
(** * Platform

    The composition [cmd/api/main.go] and [cmd/scheduler/main.go] build: the database,
    the Redis leases, the scheduler's queue and the connections of the agents in one
    state, the PostgreSQL and Redis stores as the scheduler's stores, the connection hub
    as the command sender, and the operations the handlers and loops call.

    The alert service and the secret service have tables of their own, outside this
    state: they are parameters that leave it alone. *)

From S2P Require Import Prelude GoStd GoCrypto GoFloat Model World SchedulerCore RedisLease Schema Session Lifecycle RunEvents Reconcile.
From S2P Require Import SchedulerStore SchedulerService RunService Cron TaskService Artifacts Dispatch UpgradeStore UpgradeCoordinator ScriptSync FleetStore FleetLaws Hub FleetService.
Import Filtering Scoring Queueing Cron.

Record Platform : Type := mkPlatform {
  pl_db : DB;
  pl_redis : gmap string LeaseState;
  pl_queue : gmap string Run;
  pl_hub : AgentConnectionHub;
  pl_registry : RegistryState
}.

#[export] Instance platform_db : Has DB Platform.
Proof. by refine {| part := pl_db; set_part := λ d c, mkPlatform d (pl_redis c) (pl_queue c) (pl_hub c) (pl_registry c) |}; try intros []. Defined.
#[export] Instance platform_redis : Has (gmap string LeaseState) Platform.
Proof. by refine {| part := pl_redis; set_part := λ r c, mkPlatform (pl_db c) r (pl_queue c) (pl_hub c) (pl_registry c) |}; try intros []. Defined.
#[export] Instance platform_queue : Has (gmap string Run) Platform.
Proof. by refine {| part := pl_queue; set_part := λ q c, mkPlatform (pl_db c) (pl_redis c) q (pl_hub c) (pl_registry c) |}; try intros []. Defined.
#[export] Instance platform_hub : Has AgentConnectionHub Platform.
Proof. by refine {| part := pl_hub; set_part := λ h c, mkPlatform (pl_db c) (pl_redis c) (pl_queue c) h (pl_registry c) |}; try intros []. Defined.

#[export] Instance platform_registry : Has RegistryState Platform.
Proof. by refine {| part := pl_registry; set_part := λ r c, mkPlatform (pl_db c) (pl_redis c) (pl_queue c) (pl_hub c) r |}; try intros []. Defined.

#[export] Instance apart_db_registry : Apart DB RegistryState Platform.
Proof. by split. Qed.
#[export] Instance apart_registry_db : Apart RegistryState DB Platform.
Proof. by split. Qed.
#[export] Instance apart_hub_db : Apart AgentConnectionHub DB Platform.
Proof. by split. Qed.
#[export] Instance apart_hub_registry : Apart AgentConnectionHub RegistryState Platform.
Proof. by split. Qed.
#[export] Instance platform_disjoint : Disjoint (C := Platform).
Proof. by split. Qed.

(** ** The wiring *)

#[export] Instance PostgresRunStore : RunStore Platform := {|
  store_Get := SchedulerStore.Get;
  store_ListQueued := ListQueued;
  store_CountActive := CountActive;
  store_Assign := Assign;
  store_Expire := Expire;
  store_SetQueueReason := Some SetQueueReason;
  store_RetryFailed := Some RetryFailed;
  store_ListReleasedLeases := Some ListReleasedLeases;
  store_ListActiveLeases := Some ListActiveLeases
|}.

#[export] Instance PostgresServerSource : ServerSource Platform := {| source_Snapshots := Snapshots |}.

#[export] Instance RedisLeaseStore : LeaseStore Platform := {|
  leases_TryReserve := λ request, on_part (TryReserve request);
  leases_Release := λ lease, on_part (Release lease);
  leases_Restore := Some (λ lease now, on_part (Restore lease now))
|}.

#[export] Instance EventServiceSink : FailureSink Platform := {| sink_Apply := Some Apply |}.

(** [offlineRunPublisher] of cmd/api/main.go, the subscriber of the registry's events. *)
Definition publish_offline (event : ServerEvent) : Prog Platform unit :=
  if bool_decide (sv_Type event = "server.offline") then ServerOffline (sv_ServerID event) else ret tt.

#[export] Instance offlineRunPublisher : EventPublisher Platform := {| Publish := publish_offline |}.

Class SecretLaw `{!SecretResolver Platform} : Prop := {
  resolve_frame : ∀ resolve refs (c : Platform), resolver_ResolveForRun = Some resolve → wp (resolve refs) c (λ _ c', c' = c)
}.

(** ** What every operation keeps

    The tables are well formed and have evolved from [d0], the Redis counters are the
    sums of the leases, the queue is indexed by the runs it holds. *)
Record platform_ok (d0 : DB) (c : Platform) : Prop := {
  po_db : wf_db (pl_db c);
  po_evolves : evolves d0 (pl_db c);
  po_redis : redis_inv (pl_redis c);
  po_queue : queue_ok (pl_queue c)
}.

Section keeping.
Context (d0 : DB).
Abbreviation ok := (platform_ok d0).

Lemma ok_db c d : ok c → sound (pl_db c) d → ok (set_part d c).
Proof. intros [H1 H2 H3 H4] Hs. destruct (Hs H1) as [Hw He]. split; [done| |done|done]. simpl. by etrans. Qed.

Lemma keeps_sound {A} (m : Prog Platform A) : db_spec m (λ d _ d', sound d d') → keeps ok m.
Proof. intros Hm c Hc. eapply wp_mono; [apply Hm|]. intros r c' [-> Hs]. by apply ok_db. Qed.

Lemma keeps_query {A} context (f : DB → A) : keeps ok (pool_query context f).
Proof. intros c Hc. by apply wp_pool_query. Qed.

Lemma same_runs_sound d d' : same_runs d d' → sound d d'.
Proof.
  intros (Hr & He & Hl). apply bookkeeping_sound; [done|done|]. intros id. rewrite Hr.
  destruct (task_runs d !! id); by constructor.
Qed.

Lemma keeps_same {A} (m : Prog Platform A) : db_spec m (λ d _ d', same_runs d d') → keeps ok m.
Proof. intros Hm. apply keeps_sound. eapply db_spec_mono; [exact Hm|]. intros d r d'. apply same_runs_sound. Qed.

Lemma keeps_redis {A} (m : Prog (gmap string LeaseState) A) :
  (∀ r, redis_inv r → wp m r (λ _, redis_inv)) → keeps ok (on_part m).
Proof.
  intros Hm c [H1 H2 H3 H4]. apply wp_on_part. eapply wp_mono; [by apply Hm|]. intros r x Hx. by split.
Qed.

Lemma keeps_hub {A} (f : AgentConnectionHub → AgentConnectionHub * A) :
  keeps ok (local (λ c : Platform, let '(h, a) := f (part c) in (set_part h c, a))).
Proof. intros c [H1 H2 H3 H4]. apply wp_local. destruct (f (part c)). by split. Qed.

Lemma keeps_send `{!MapRange} serverID value : keeps ok (send_over serverID value).
Proof.
  apply keeps_bind; [apply keeps_hub|]. intros [connection|]; [|apply keeps_throw].
  intros c [H1 H2 H3 H4]. apply wp_remote; [done|]. intros c' u [= <- <-]. by split.
Qed.

(** The stores meet the scheduler's contract. *)
#[export] Instance platform_contract `{alerts : !AlertSink Platform, alert_law : !AlertLaw} : StoreContract (C := Platform) ok.
Proof.
  split.
  - intros id. apply keeps_bind; [apply keeps_query|]. intros [run|]; [apply keeps_ret|apply keeps_throw].
  - apply keeps_query.
  - intros id. apply keeps_query.
  - intros a. apply keeps_sound, Assign_sound.
  - intros id t. apply keeps_sound, Expire_sound.
  - intros id reason. apply keeps_sound, SetQueueReason_sound.
  - intros t. apply keeps_sound, RetryFailed_sound.
  - intros t. apply keeps_query.
  - intros t. apply keeps_query.
  - intros run. apply keeps_bind; [apply keeps_clock|]. intros now. apply keeps_query.
  - intros request. apply keeps_redis. intros r. apply TryReserve_inv.
  - intros lease. apply keeps_redis. intros r. apply Release_inv.
  - intros lease t. apply keeps_redis. intros r. apply Restore_inv.
  - unfold keeps_opt. destruct sink_Raise as [raise|] eqn:E; [|done]. intros event c Hc.
    eapply wp_mono; [by apply raise_frame|]. by intros r c' ->.
  - intros c q [H1 H2 H3 H4] Hq. by split.
  - by intros c [].
Qed.

End keeping.

(** ** The operations of the running system *)

(** What the HTTP handlers, the agents' connections and the periodic loops call. *)
Inductive Operation : Type :=
| OpCreateTask (input : CreateInput)
| OpUpdateTask (id : string) (input : CreateInput)
| OpDeleteTask (id : string)
| OpEnableTask (id : string) (enabled cancelQueued : bool)
| OpCreateSchedule (input : ScheduleInput)
| OpUpdateSchedule (id : string) (input : ScheduleInput)
| OpDeleteSchedule (definitionID id : string)
| OpTrigger (definitionID : string) (request : Trigger)
| OpScheduleDue (now : Time)
| OpScan
| OpHandleEvent (event : SchedulerEvent)
| OpDispatch
| OpRunEvent (event : RunEvent)
| OpReport (report : RunningReport)
| OpServerOffline (serverID : string)
| OpCancelRun (id : string)
| OpRetryRun (id : string)
| OpConnect (serverID : string) (connection : nat)
| OpLeave (serverID : string) (connection : nat)
| OpFleet (op : FleetOperation)
| OpSync (op : SyncOperation).

Section system.
Context `{range : !MapRange, alerts : !AlertSink Platform, secrets : !SecretResolver Platform} (LoadLocation : string → option Location)
  (artifactBaseURL : string).

Definition forget {A} (m : Prog Platform A) : Prog Platform unit := m ;;! ret tt.

Definition hub_do (f : AgentConnectionHub → AgentConnectionHub) : Prog Platform unit :=
  local (λ c, let '(h, a) := (f (part c), tt) in (set_part h c, a)).

Definition perform (op : Operation) : Prog Platform unit :=
  match op with
  | OpCreateTask input => forget (Create input)
  | OpUpdateTask id input => forget (Update id input)
  | OpDeleteTask id => Delete id
  | OpEnableTask id enabled cancelQueued => SetEnabled id enabled cancelQueued
  | OpCreateSchedule input => forget (CreateSchedule LoadLocation input)
  | OpUpdateSchedule id input => forget (UpdateSchedule LoadLocation id input)
  | OpDeleteSchedule definitionID id => DeleteSchedule definitionID id
  | OpTrigger definitionID request => forget (Trigger_ LoadLocation definitionID request)
  | OpScheduleDue now => forget (ScheduleDue LoadLocation now)
  | OpScan => SchedulerService.Scan
  | OpHandleEvent event => HandleEvent event
  | OpDispatch => Dispatch (Some SendExecutionCommand)
  | OpRunEvent event => Apply event
  | OpReport report => Reconcile report
  | OpServerOffline serverID => ServerOffline serverID
  | OpCancelRun id => CancelRun (Some SendExecutionCommand) id
  | OpRetryRun id => forget (RunService_RetryRun id)
  | OpConnect serverID connection => hub_do (λ h, (Register serverID connection h).1)
  | OpLeave serverID connection => hub_do (unregister serverID connection)
  | OpFleet op => fleet_perform op
  | OpSync op => sync_perform artifactBaseURL op
  end.

(** The operations one after the other; each one's error goes to its caller. *)
Definition perform_all (ops : list Operation) : Prog Platform unit := for_each ops (λ op, forget (catch (perform op))).

Section invariant.
Context `{alert_law : !AlertLaw, secret_law : !SecretLaw} (d0 : DB).
Abbreviation ok := (platform_ok d0).

Lemma keeps_forget {A} (m : Prog Platform A) : keeps ok m → keeps ok (forget m).
Proof. intros Hm. apply keeps_bind; [done|]. intros. apply keeps_ret. Qed.

Lemma keeps_Reconcile report : keeps ok (Reconcile report).
Proof.
  unfold Reconcile. case_bool_decide; [apply keeps_throw|]. apply keeps_bind.
  - destruct (is_zero_time _); [|apply keeps_ret]. apply keeps_bind; [apply keeps_clock|intros; apply keeps_ret].
  - intros report'. destruct (existsb _ _); [apply keeps_throw|]. apply keeps_bind; [apply keeps_clock|].
    intros now. apply keeps_sound, ReconcileRunning_sound.
Qed.

Lemma keeps_ServerOffline serverID : keeps ok (ServerOffline serverID).
Proof.
  unfold ServerOffline. case_bool_decide; [apply keeps_throw|]. apply keeps_bind; [apply keeps_clock|].
  intros now. apply keeps_sound, MarkServerRunsUnknown_sound.
Qed.

Lemma keeps_Retry id : keeps ok (Retry id).
Proof.
  unfold Retry. case_bool_decide; [apply keeps_throw|]. apply keeps_bind; [apply keeps_clock|].
  intros now. apply keeps_sound, retryRun_sound.
Qed.

(** Cancelling changes the tables and the hub, nothing else. *)
Lemma CancelRun_rest id (c : Platform) :
  wp (CancelRun (Some SendExecutionCommand) id) c (λ _ c', pl_redis c' = pl_redis c ∧ pl_queue c' = pl_queue c).
Proof.
  apply wp_transaction; [done|].
  assert (∀ serverID command, wp (SendExecutionCommand serverID command) c (λ _ c',
    pl_redis c' = pl_redis c ∧ pl_queue c' = pl_queue c)) as Hsend.
  { intros serverID command. apply wp_bind, wp_local. destruct (choose _ _) as [h [connection|]]; [|by apply wp_throw].
    apply wp_remote; [done|]. by intros c' u [= <- <-]. }
  tx_step. tx_step; [done|]. tx_step; [|by tx_step]. destruct p as [[state serverID] token].
  unfold appendSystemRunEvent, exec. repeat tx_step; try done.
  eapply wp_mono; [apply Hsend|]. intros [u|e] c' Hc'; repeat tx_step; by try destruct Hc'.
Qed.

Lemma keeps_CancelRun id : keeps ok (CancelRun (Some SendExecutionCommand) id).
Proof.
  intros c [H1 H2 H3 H4] o.
  assert (wp (CancelRun (Some SendExecutionCommand) id) c (λ _ c', sound (part c) (part c'))) as Hs.
  { apply (CancelRun_sound (Some SendExecutionCommand) id c). intros send [= <-] serverID command c1. apply send_over_frame. }
  specialize (Hs o). pose proof (CancelRun_rest id c o) as Hrest.
  destruct (CancelRun _ _ _) as [[c' o'] r]. destruct Hrest as [Hr Hq]. destruct (Hs H1) as [Hw He].
  split; [done|by etrans|by rewrite Hr|by rewrite Hq].
Qed.

Lemma keeps_Dispatch : keeps ok (Dispatch (Some SendExecutionCommand)).
Proof.
  intros c Hc. apply (wp_Dispatch SendExecutionCommand ok); [..|done|].
  - intros resolve refs c' Hr Hc'. eapply wp_mono; [by apply resolve_frame|]. by intros r c'' ->.
  - intros apply_ event c' [= <-]. apply keeps_sound, Apply_sound.
  - intros runID token text. apply keeps_sound, RecordResult_sound.
  - intros now. eapply wp_mono; [apply (keeps_sound d0 _ (Claim_sound _ _ _) c Hc)|]. intros r c' Hc'. split; [done|].
    intros. by apply keeps_send.
Qed.

Lemma keeps_hub_do f : keeps ok (hub_do f).
Proof. exact (keeps_hub d0 (λ h, (f h, tt))). Qed.

Lemma keeps_registry_do f : keeps ok (registry_do f).
Proof. intros c [H1 H2 H3 H4]. apply wp_local. by split. Qed.

Lemma keeps_AcceptHeartbeat heartbeat : keeps ok (AcceptHeartbeat heartbeat).
Proof.
  unfold AcceptHeartbeat, load_sequence. case_bool_decide as Hid; [apply keeps_throw|]. apply keeps_bind; [|intros _].
  - apply keeps_bind; [intros c Hc; by apply wp_local|]. intros []; [apply keeps_ret|].
    apply keeps_bind; [apply keeps_query|]. intros sequence. apply keeps_bind; [apply keeps_registry_do|].
    intros _. apply keeps_registry_do.
  - apply keeps_bind; [intros c Hc; by apply wp_local|]. intros latest. destruct (match latest with Some _ => _ | None => _ end);
      [apply keeps_ret|]. apply keeps_bind; [apply keeps_clock|]. intros now. apply keeps_bind.
    + apply keeps_same. eapply db_spec_mono; [apply SaveHeartbeat_spec|].
      assert (∀ d d', heartbeat_saved heartbeat now d d' → same_runs d d') as Hs by (intros d d' [_ ?]%heartbeat_saved_change; done).
      intros d [[]|[]] d' H; try done; [by apply Hs|by destruct H as [-> _]|destruct H as [->|H]; [done|by apply Hs]|by destruct H as [-> _]].
    + intros []; [|apply keeps_ret]. apply keeps_bind; [apply keeps_registry_do|intros _].
      destruct sink_Raise as [raise|] eqn:E; [|apply keeps_ret]. destruct (spool_near_limit heartbeat); [|apply keeps_ret].
      intros c Hc. eapply wp_mono; [by apply raise_frame|]. by intros r c' ->.
Qed.

#[export] Instance platform_fleet_contract : FleetContract ok.
Proof.
  split.
  - intros c d Hc [_ Hs]. apply ok_db; [done|by apply same_runs_sound].
  - intros c h [H1 H2 H3 H4]. by split.
  - apply keeps_AcceptHeartbeat.
  - intros event. cbn. unfold publish_offline. case_bool_decide as Ht; [apply keeps_ServerOffline|apply keeps_ret].
Qed.

Lemma keeps_perform op : keeps ok (perform op).
Proof.
  destruct op; cbn [perform].
  - apply keeps_forget, keeps_same, Create_same.
  - apply keeps_forget, keeps_same, Update_same.
  - apply keeps_same, Delete_same.
  - apply keeps_sound, (SetEnabled_sound LoadLocation).
  - apply keeps_forget, keeps_same, CreateSchedule_same.
  - apply keeps_forget, keeps_same, UpdateSchedule_same.
  - apply keeps_same, DeleteSchedule_same.
  - apply keeps_forget, keeps_sound, trigger_sound.
  - apply keeps_forget, keeps_sound, ScheduleDue_sound.
  - apply (keeps_Scan ok).
  - apply (keeps_HandleEvent ok).
  - apply keeps_Dispatch.
  - apply keeps_sound, Apply_sound.
  - apply keeps_Reconcile.
  - apply keeps_ServerOffline.
  - apply keeps_CancelRun.
  - apply keeps_forget, keeps_Retry.
  - apply keeps_hub_do.
  - apply keeps_hub_do.
  - apply (keeps_fleet_perform ok).
  - apply keeps_same. eapply db_spec_mono; [apply sync_perform_change|]. by intros d r d' [_ [m ->]].
Qed.

End invariant.

(** C1: Whatever operations the system performs, in whatever order, and whatever fails
    on the way: the tables stay well formed and only evolve (no run disappears, its
    specification never changes, its state follows the lifecycle, its event log is only
    extended, leases are only released), the Redis counters stay equal to the sums of
    the recorded leases, and the queue stays indexed by the runs it holds. *)
Theorem system_invariant `{alert_law : !AlertLaw, secret_law : !SecretLaw} ops (c : Platform) :
  wf_db (pl_db c) → redis_inv (pl_redis c) → queue_ok (pl_queue c) →
  wp (perform_all ops) c (λ r c', r = Ok tt ∧ wf_db (pl_db c') ∧ evolves (pl_db c) (pl_db c') ∧
    redis_inv (pl_redis c') ∧ queue_ok (pl_queue c')).
Proof.
  intros H1 H2 H3. assert (platform_ok (pl_db c) c) as Hok by (split; done).
  apply wp_for_each with (I := λ _ c', platform_ok (pl_db c) c'); [done| |].
  - intros op rest c1 Hc1 _. apply wp_bind, wp_catch. eapply wp_mono; [by apply keeps_perform|].
    intros r c2 Hc2. by apply wp_ret.
  - intros c1 [? ? ? ?]. done.
Qed.

End system.

(** ** One scheduling decision *)

Section scheduling.
Context `{alerts : !AlertSink Platform, alert_law : !AlertLaw}.

(** The outcome [OutcomeAssigned]: the run of [id] as the tables [d] describe it was
    assigned, in one commit, to a server that is fit for it, and its resources were
    reserved there within what the server reported as available. *)
Definition placed (id : string) (d : DB) (run : Run) (c' : Platform) : Prop :=
  ∃ a row now item server,
    find_run id d = Some run ∧ assigned_effect a row d (pl_db c') ∧ as_RunID a = id ∧
    servers d !! as_ServerID a = Some server ∧
    item = snapshot_of d now (run_ScriptVersionID run) (as_ServerID a) server ∧ schedulable run item ∧
    le_RunID (as_Lease a) = id ∧ le_ServerID (as_Lease a) = as_ServerID a ∧ le_Resources (as_Lease a) = run_Resources run ∧
    res_le (total (ls_amounts (server_leases (pl_redis c') (as_ServerID a))))
      (mkResources (CPUAvailableMillicores item) (MemoryAvailableBytes item) (DiskAvailableBytes item)) ∧
    pl_queue c' !! id = None.

(** The same for a candidate of the ranked list. *)
Definition candidate_placed (run : Run) (d : DB) (candidate : Candidate) (c' : Platform) : Prop :=
  ∃ a row, assigned_effect a row d (pl_db c') ∧ as_RunID a = run_ID run ∧ as_ServerID a = cd_ServerID candidate ∧
    le_RunID (as_Lease a) = run_ID run ∧ le_ServerID (as_Lease a) = cd_ServerID candidate ∧
    le_Resources (as_Lease a) = run_Resources run ∧
    res_le (total (ls_amounts (server_leases (pl_redis c') (cd_ServerID candidate)))) (cd_Available candidate) ∧
    pl_queue c' !! run_ID run = None.

Lemma wp_try_candidates run now l (c : Platform) :
  redis_inv (pl_redis c) →
  wp (try_candidates run now l) c (λ r c', match r with
    | Ok (Some OutcomeAssigned) => ∃ candidate, candidate ∈ l ∧ candidate_placed run (pl_db c) candidate c'
    | _ => True
    end).
Proof.
  revert c. induction l as [|candidate l IH]; intros c Hr; [by apply wp_ret|]. cbn [try_candidates].
  set (request := mkLeaseRequest _ _ _ _ _ _). apply wp_bind, wp_on_part. eapply wp_mono.
  { apply wp_conj; [by apply TryReserve_spec|by apply TryReserve_inv]. }
  intros [[lease|]|e] r' [Hres Hr']; [| |done].
  2:{ eapply wp_mono; [by apply (IH (set_part r' c))|]. intros [[[]|]|e] c' H; try done.
      destruct H as (candidate' & Hin & H). exists candidate'. split; [by right|exact H]. }
  destruct Hres as (_ & E1 & E2 & E3 & _ & _ & _ & Hle).
  apply wp_bind, wp_new_uuid; [done|]. intros token. apply wp_bind, wp_catch.
  eapply wp_mono; [apply Assign_spec|]. intros [[]|e] c1 [E Hpost]; cbn beta iota.
  - apply wp_bind, wp_local. apply wp_ret. destruct Hpost as [row Hrow]. exists candidate. split; [left|].
    eexists _, row. split_and!; [exact Hrow|done|done|done|done|done| |].
    + rewrite E. exact Hle.
    + simpl. apply lookup_delete_eq.
  - apply wp_bind. eapply wp_mono; [apply wp_any|]. intros [u|e'] c2 _; [by apply wp_ret|done].
  - apply wp_bind. eapply wp_mono; [apply wp_any|]. intros [u|e'] c2 _; [by apply wp_throw|done].
Qed.

Lemma find_run_id id d run : find_run id d = Some run → run_ID run = id.
Proof.
  unfold find_run, scanRun. destruct (task_runs d !! id); [|done]. cbv zeta.
  destruct (task_definitions d !! _); [|done]. destruct (script_versions d !! _); [|done]. by intros [= <-].
Qed.

Lemma wp_place id run now (c : Platform) :
  redis_inv (pl_redis c) → find_run id (pl_db c) = Some run →
  wp (place run now) c (λ r c', r = Ok OutcomeAssigned → placed id (pl_db c) run c').
Proof.
  intros Hr Hrun. pose proof (find_run_id _ _ _ Hrun) as Hid. unfold place.
  apply wp_bind, wp_pool_query; [done|]. destruct (_ && _).
  { apply wp_bind. eapply wp_mono; [apply wp_any|]. intros [|] c1 _; [|done].
    apply wp_bind. eapply wp_mono; [apply wp_any|]. intros [|] c2 _; [by apply wp_ret|done]. }
  apply wp_bind, wp_bind, wp_clock_now. intros now'. apply wp_pool_query; [done|]. cbv zeta.
  set (items := fmap _ _). apply wp_bind. eapply wp_mono; [by apply wp_try_candidates|].
  intros [[outcome|]|e] c1 H; [|clear H|done].
  - apply wp_ret. intros [= ->]. destruct H as (candidate & Hin & a & row & Ha & E1 & E2 & E3 & E4 & E5 & E6 & E7).
    unfold RankCandidates in Hin. rewrite elem_of_stable_sort in Hin.
    apply elem_of_Filter in Hin as (item & Hitem & Hf). pose proof (filter_one_candidate _ _ _ Hf) as (F1 & F2 & _).
    unfold items in Hitem. apply list_elem_of_fmap in Hitem as ([serverID server] & -> & Hs).
    rewrite elem_of_stable_sort, elem_of_map_to_list in Hs.
    assert (as_ServerID a = serverID) as Es by (by rewrite E2, F1).
    exists a, row, now', (snapshot_of (pl_db c) now' (run_ScriptVersionID run) serverID server), server.
    rewrite F1 in E4, E6. rewrite F2 in E6. rewrite Es, <-Hid.
    split_and!; [by rewrite Hid|exact Ha|exact E1|exact Hs|done|apply filter_one_schedulable; eauto|exact E3|exact E4|
      exact E5|exact E6|exact E7].
  - apply wp_bind. eapply wp_mono; [apply wp_any|]. intros [|] c2 _; [|done].
    apply wp_bind. eapply wp_mono; [apply wp_any|]. intros [|] c3 _; [by apply wp_ret|done].
Qed.

(** C2: When the scheduler reports a run as assigned, it is: one commit has moved the
    queued run of that name to a server whose row and latest report make it fit (online,
    enabled, not draining, labels, runtime, capability, a free slot, script not blocked,
    enough resources), within the concurrency limit of its task, with a fresh execution
    token and an open lease; the sum of the leases Redis holds for that server, this one
    included, fits what the server reported; and the run has left the queue. *)
Theorem ScheduleOne_assigns id (c : Platform) :
  redis_inv (pl_redis c) →
  wp (ScheduleOne id) c (λ r c', r = Ok OutcomeAssigned → ∃ run, placed id (pl_db c) run c').
Proof.
  intros Hr. apply wp_bind, wp_bind, wp_pool_query; [done|].
  destruct (find_run id (part (X := DB) c)) as [run|] eqn:Erun; [apply wp_ret|by apply wp_throw].
  destruct (negb _); [apply wp_ret; by case_bool_decide|]. apply wp_bind, wp_clock_now. intros now.
  destruct (now <? _); [by apply wp_ret|]. apply wp_bind.
  destruct (waited_too_long run now).
  - eapply wp_mono; [apply Expire_spec|]. intros [[]|e] c1 [E H]; cbn beta iota.
    + apply wp_bind, wp_local. apply wp_bind. eapply wp_mono; [apply wp_any|].
      intros [u|e] c2 _; [by apply wp_ret|done].
    + assert (c1 = c) as -> by (rewrite E; destruct H as [-> _]; by destruct c).
      eapply wp_mono; [by apply wp_place|]. intros r c' Hp Hok. exists run. auto.
    + done.
  - apply wp_ret. eapply wp_mono; [by apply wp_place|]. intros r c' Hp Hok. exists run. auto.
Qed.

End scheduling.

(** ** One round of dispatching *)

Section dispatching.
Context `{range : !MapRange, secrets : !SecretResolver Platform, secret_law : !SecretLaw}.

(** A written message that dispatching the runs of [d] justifies. *)
Definition justified (d : DB) (h : AgentConnectionHub) (e : nat * AgentMessage) : Prop :=
  ∃ run command, claimed_from d run ∧ command_for run command ∧
    e.1 ∈ connections_of (dr_ServerID run) h ∧ e.2 = MsgExecution command.

(** Since [c0], only justified messages were written. *)
Definition wrote_justified (c0 c : Platform) : Prop :=
  hub_connections (pl_hub c) = hub_connections (pl_hub c0) ∧
  ∃ sent, hub_written (pl_hub c) = hub_written (pl_hub c0) ++ sent ∧ Forall (justified (pl_db c0) (pl_hub c0)) sent.

Lemma db_spec_hub {A} (m : Prog Platform A) (P : DB → Result A → DB → Prop) c0 c :
  db_spec m P → wrote_justified c0 c → wp m c (λ _ c', wrote_justified c0 c').
Proof. intros Hm Hc. eapply wp_mono; [apply Hm|]. by intros r c' [-> _]. Qed.

Lemma send_justified c0 c run command :
  claimed_from (pl_db c0) run → command_for run command → wrote_justified c0 c →
  wp (SendExecutionCommand (dr_ServerID run) command) c (λ _ c', wrote_justified c0 c').
Proof.
  intros Hrun Hcmd (Hconn & sent & Hw & Hj). apply wp_bind, wp_local.
  destruct (choose (dr_ServerID run) (part c)) as [h connection] eqn:E. apply choose_registered in E as [-> Hc].
  destruct connection as [connection|]; [|apply wp_throw; split; [done|by exists sent]].
  apply wp_remote; [split; [done|by exists sent]|]. intros c' u [= <- <-].
  assert (justified (pl_db c0) (pl_hub c0) (connection, MsgExecution command)) as Hnew.
  { exists run, command. split_and!; [done|done| |done]. unfold connections_of in *. simpl in *. by rewrite <-Hconn. }
  split; (split; [done|]); exists (sent ++ [(connection, MsgExecution command)]); simpl; rewrite Hw;
    (split; [by rewrite app_assoc|apply Forall_app; auto]).
Qed.

(** C3: What a round of dispatching sends.  Every message it writes is the command to
    execute a run that was assigned when the round began, over a connection of the very
    server the run is assigned to, with the token of that execution; the script is on
    that server with the digest of the published version, and the artifact policy and
    the entrypoint passed their checks. *)
Theorem dispatch_sends_assigned (c : Platform) :
  wp (Dispatch (Some SendExecutionCommand)) c (λ _ c', ∃ sent,
    hub_written (pl_hub c') = hub_written (pl_hub c) ++ sent ∧
    ∀ connection message, (connection, message) ∈ sent → ∃ run row a secrets,
      message = MsgExecution (CommandAssign a) ∧ a = assignment_for run secrets ∧
      dom secrets = dom (dr_SecretBindings run) ∧
      task_runs (pl_db c) !! aa_RunID a = Some row ∧ tr_state row = Assigned ∧
      tr_execution_token row = Some (aa_ExecutionToken a) ∧ tr_assigned_server_id row = Some (dr_ServerID run) ∧
      connection ∈ connections_of (dr_ServerID run) (pl_hub c) ∧
      script_matches (pl_db c) (dr_ServerID run) (aa_ScriptVersionID a) ∧
      policy_Validate (aa_Artifacts a) = true ∧ entrypoint_rejected (dr_Entrypoint run) = false).
Proof.
  eapply wp_mono.
  - apply (wp_Dispatch SendExecutionCommand (wrote_justified c)).
    + intros resolve refs c' Hr Hc'. eapply wp_mono; [by apply resolve_frame|]. by intros r c'' ->.
    + intros apply_ event c' [= <-]. apply (db_spec_hub _ _ _ _ (Apply_sound event)).
    + intros runID token text c'. apply (db_spec_hub _ _ _ _ (RecordResult_sound runID token text)).
    + split; [done|]. exists []. by rewrite app_nil_r.
    + intros now. eapply wp_mono; [apply Claim_post|]. intros r c' [Ec Hp]. split.
      { rewrite Ec. split; [done|]. exists []. by rewrite app_nil_r. }
      intros runs run command c'' -> Hrun Hcmd Hc''. apply send_justified; [|done|done].
      destruct Hp as [[_ Hnil]|(ids & _ & Hruns)]; [|by apply (Hruns runs run)].
      specialize (Hnil eq_refl). simplify_eq. by apply elem_of_nil in Hrun.
  - intros r c' (_ & sent & Hw & Hj). exists sent. split; [done|]. intros connection message Hin.
    rewrite Forall_forall in Hj. destruct (Hj _ Hin) as (run & command & (row & R1 & R2 & R3 & R4 & R5) & Hcmd & Hconn & Hm).
    destruct Hcmd as (C1 & C2 & C3 & C4 & C5 & secrets' & Hdom & ->).
    exists run, row, (assignment_for run secrets'), secrets'. simpl in Hm. subst message.
    split_and!; try done. by apply R5.
Qed.

End dispatching.

(** ** A system at work *)

(** The scheduled task of [due_db], a server that can run it, and its connection. *)
Definition fleet_db : DB := due_db
  <| servers := {["srv-1" := mkServerRow "node" StatusOnline true false ∅ ["bash"] [] 4 1 "1.0.0" "linux" "amd64" (Some 0) 1 "" "" ""]} |>
  <| server_snapshots := [mkServerSnapshotRow "snap-1" "srv-1" 4000 0 1000 1000 1000 1000 0 0 (float_of_int 0)] |>
  <| script_syncs := {[("srv-1", "ver-1") := mkSyncRow SyncReady (Some "sum") "" "" (Some 0) 0 None 0 0]} |>.

Definition fleet_platform : Platform :=
  mkPlatform fleet_db ∅ ∅ (mkHub {["srv-1" := {[7%nat]}]} ∅ [] [] 0) NewRegistry.

Definition base_url : string := "https://yunling.example".

Definition no_alerts : AlertSink Platform := {| sink_Raise := None |}.
Definition no_secrets : SecretResolver Platform := {| resolver_ResolveForRun := None |}.

Lemma no_alerts_law : AlertLaw (alerts := no_alerts).
Proof. by split. Qed.
Lemma no_secrets_law : SecretLaw (SecretResolver0 := no_secrets).
Proof. by split. Qed.

Definition day : list Operation :=
  [OpScheduleDue 5; OpScan; OpDispatch;
   OpRunEvent (mkRunEvent None "run-1" "token-1" 1 "started" 6 0 "");
   OpRunEvent (mkRunEvent None "run-1" "token-1" 2 "succeeded" 7 0 "done");
   OpScan].

Definition after_day : (Platform * Oracle) * Result unit :=
  perform_all (range := first_in_order) (alerts := no_alerts) (secrets := no_secrets) (λ _, Some UTC) base_url day
    (fleet_platform, calm ["run-1"; "lease-1"; "token-1"] 5).

Lemma system_invariant_witness :
  evolves fleet_db (pl_db after_day.1.1) ∧ redis_inv (pl_redis after_day.1.1) ∧
  (tr_state <$> task_runs (pl_db after_day.1.1) !! "run-1") = Some Succeeded ∧
  (er_state <$> events_of (pl_db after_day.1.1) "run-1") = [Queued; Assigned; Running; Succeeded] ∧
  ls_reserved (server_leases (pl_redis after_day.1.1) "srv-1") = mkResources 0 0 0.
Proof.
  pose proof (system_invariant (range := first_in_order) (alerts := no_alerts) (secrets := no_secrets) (λ _, Some UTC) base_url
    (alert_law := no_alerts_law) (secret_law := no_secrets_law) day fleet_platform
    (wf_no_runs fleet_db eq_refl eq_refl eq_refl) redis_inv_empty NewQueue_ok
    (calm ["run-1"; "lease-1"; "token-1"] 5)) as H.
  change (perform_all _ _ _ _) with after_day in H. destruct after_day as [[c' o'] r'] eqn:E.
  destruct H as (_ & _ & He & Hr & _). split; [exact He|split; [exact Hr|]].
  apply (f_equal (λ x, x.1.1)) in E. cbn [fst] in *. rewrite <-E. vm_compute. auto.
Defined.

(** The run waiting to be placed. *)
Definition queued_fleet : Platform :=
  (perform_all (range := first_in_order) (alerts := no_alerts) (secrets := no_secrets) (λ _, Some UTC) base_url [OpScheduleDue 5]
    (fleet_platform, calm ["run-1"] 5)).1.1.

Lemma ScheduleOne_assigns_witness :
  let '((c', _), r) := ScheduleOne (AlertSink0 := no_alerts) "run-1" (queued_fleet, calm ["lease-1"; "token-1"] 5) in
  r = Ok OutcomeAssigned ∧ ∃ run, placed "run-1" (pl_db queued_fleet) run c'.
Proof.
  pose proof (ScheduleOne_assigns (alerts := no_alerts) "run-1" queued_fleet) as H.
  assert (redis_inv (pl_redis queued_fleet)) as Hr by exact redis_inv_empty.
  specialize (H Hr (calm ["lease-1"; "token-1"] 5)). cbn beta in H.
  destruct (ScheduleOne "run-1" (queued_fleet, calm ["lease-1"; "token-1"] 5)) as [[c' o'] r] eqn:E.
  assert (r = Ok OutcomeAssigned) as Hok; [|auto].
  apply (f_equal snd) in E. cbn [snd] in E. rewrite <-E. vm_compute. reflexivity.
Defined.

(** The run placed, waiting to be sent. *)
Definition assigned_fleet : Platform :=
  (ScheduleOne (AlertSink0 := no_alerts) "run-1" (queued_fleet, calm ["lease-1"; "token-1"] 5)).1.1.

Lemma dispatch_sends_assigned_witness :
  let '((c', _), r) := Dispatch (SecretResolver0 := no_secrets) (Some (SendExecutionCommand (CommandSender := hub_CommandSender (range := first_in_order))))
                         (assigned_fleet, calm [] 6) in
  r = Ok tt ∧ fst <$> hub_written (pl_hub c') = [7%nat] ∧
  ∃ sent, hub_written (pl_hub c') = hub_written (pl_hub assigned_fleet) ++ sent ∧
    ∀ connection message, (connection, message) ∈ sent → ∃ run, connection ∈ connections_of (dr_ServerID run) (pl_hub assigned_fleet).
Proof.
  pose proof (dispatch_sends_assigned (range := first_in_order) (secrets := no_secrets) (secret_law := no_secrets_law)
    assigned_fleet (calm [] 6)) as H. cbn beta in H.
  destruct (Dispatch _ _) as [[c' o'] r] eqn:E.
  split_and!.
  - apply (f_equal snd) in E. cbn [snd] in E. rewrite <-E. vm_compute. reflexivity.
  - apply (f_equal (λ x, x.1.1)) in E. cbn [fst] in E. rewrite <-E. vm_compute. reflexivity.
  - destruct H as (sent & Hw & Hs). exists sent. split; [done|]. intros connection message Hin.
    destruct (Hs connection message Hin) as (run & _ & _ & _ & _ & _ & _ & _ & _ & _ & _ & Hc & _). by exists run.
Defined.
