(* ===== verification/FleetSafety.v ===== *)
(** * FleetSafety

    What the registration, the credentials, the heartbeats and the detection of silent
    servers guarantee in the composed system of [Platform]. *)

From S2P Require Import Prelude GoStd GoCrypto GoPath GoFloat Model World Schema Session Lifecycle RunEvents Reconcile SchedulerService.
From S2P Require Import TaskService UpgradeStore UpgradeCoordinator Sha256 FleetStore FleetLaws Hub FleetService Platform.

(** ** The subscriber of the registry's events *)

Definition tables_kept (c c' : Platform) : Prop :=
  servers (pl_db c') = servers (pl_db c) ∧ fleet (pl_db c') = fleet (pl_db c) ∧ pl_registry c' = pl_registry c.

Lemma offline_tables_frame serverID at_ d d' :
  offline_tables serverID at_ d d' → servers d' = servers d ∧ fleet d' = fleet d.
Proof. intros [Ht _]. rewrite Ht. done. Qed.

Lemma ServerOffline_frame serverID (c : Platform) : wp (ServerOffline serverID) c (λ _ c', tables_kept c c').
Proof.
  unfold ServerOffline. case_bool_decide as Hid; [by apply wp_throw|]. apply wp_bind, wp_clock_now. intros now.
  eapply wp_mono; [apply MarkServerRunsUnknown_spec|]. intros r c' [Hc' Hr].
  assert (servers (pl_db c') = servers (pl_db c) ∧ fleet (pl_db c') = fleet (pl_db c)) as [H1 H2].
  { destruct r as [u|e]; [by eapply offline_tables_frame|]. destruct Hr as [_ [Hd|Hd]]; [|by eapply offline_tables_frame].
    cbn in Hd. by rewrite Hd. }
  split_and!; [done|done|]. by rewrite Hc'.
Qed.

#[export] Instance offline_publisher_law : PublisherLaw (C := Platform).
Proof.
  split. intros event c. cbn. unfold publish_offline. case_bool_decide as Ht; [|by apply wp_ret].
  eapply wp_mono; [apply ServerOffline_frame|]. by intros r c' (? & ? & ?).
Qed.

Section safety.
Context `{alerts : !AlertSink Platform, alert_law : !AlertLaw}.

(** ** Sequences of operations *)

Lemma fleet_perform_ok op (c : Platform) : wp (fleet_perform op) c (λ r _, r = Ok tt).
Proof. destruct op; apply wp_ignore; (eapply wp_mono; [apply wp_any|done]). Qed.

Lemma wp_fleet_all ops (c : Platform) (Q : Result unit → Platform → Prop) :
  fleet_ok (pl_db c) → registry_ok (pl_registry c) (pl_db c) →
  (∀ c', fleet_inv (pl_db c) c' → Q (Ok tt) c') → wp (fleet_perform_all ops) c Q.
Proof.
  intros Hok Hr HQ. apply wp_for_each with (I := λ _ c', fleet_inv (pl_db c) c'); [by split| |done].
  intros op rest c1 Hc1 _. eapply wp_mono; [apply wp_conj; [apply fleet_perform_ok|exact (keeps_fleet_perform (fleet_inv (pl_db c)) op c1 Hc1)]|].
  intros r c2 [-> Hc2]. done.
Qed.

(** C4: The fleet's tables stay consistent and only evolve, whatever is asked of the
    services in whatever order and whatever fails: disabled servers are offline, every
    identity belongs to a server, credential and token digests are unique, a server has at
    most one confirmed and one pending active identity; servers, identities and tokens
    are never lost, heartbeat sequences never go back, a revocation or a used token is
    never undone; and the registry's memory never runs ahead of the tables. *)
Theorem fleet_invariant ops (c : Platform) :
  fleet_ok (pl_db c) → registry_ok (pl_registry c) (pl_db c) →
  wp (fleet_perform_all ops) c (λ r c',
    r = Ok tt ∧ fleet_ok (pl_db c') ∧ fleet_evolves (pl_db c) (pl_db c') ∧ registry_ok (pl_registry c') (pl_db c')).
Proof. intros Hok Hr. apply wp_fleet_all; [done..|]. by intros c' []. Qed.

(** ** Credentials *)

Lemma Authenticate_post credential (c : Platform) :
  wp (Authenticate credential) c (λ r c',
    match r with
    | Ok serverID => ∃ at_, authenticated_as (hashSecret credential) at_ serverID (pl_db c) (pl_db c')
    | Err e => e = ErrAgentCredentialInvalid
    end).
Proof.
  unfold Authenticate. case_bool_decide as He; [by apply wp_throw|]. apply wp_bind, wp_clock_now. intros now.
  apply wp_bind, wp_catch. eapply wp_mono; [apply FindServerByCredentialHash_spec|].
  intros [serverID|e] c' [_ Hs]; [|by apply wp_throw]. apply wp_ret. by exists now.
Qed.

(** A revoked identity and the digest of its credential. *)
Definition revoked_credential (hash : string) (d : DB) : Prop :=
  ∃ id i, agent_identities (fleet d) !! id = Some i ∧ ai_credential_hash i = hash ∧ is_Some (ai_revoked_at i).

Lemma revoked_credential_evolves hash d d' : fleet_evolves d d' → revoked_credential hash d → revoked_credential hash d'.
Proof.
  intros He (id & i & Hi & Hh & [t Ht]). destruct (fe_identities _ _ He _ _ Hi) as (i' & Hi' & [_ E2 E3 _]).
  exists id, i'. rewrite E2, (E3 t) by done. eauto.
Qed.

Lemma revoked_not_authenticated credential (c : Platform) :
  fleet_ok (pl_db c) → revoked_credential (hashSecret credential) (pl_db c) →
  wp (Authenticate credential) c (λ r _, r = Err ErrAgentCredentialInvalid).
Proof.
  intros Hok (id & i & Hi & Hh & [t Ht]). eapply wp_mono; [apply Authenticate_post|]. intros [serverID|e] c'; [|by intros ->].
  intros (at_ & id' & i' & s & Hi' & Hh' & Hr' & _). assert (id' = id) as -> by (eapply (fk_hashes _ Hok); eauto; congruence).
  simplify_eq.
Qed.

(** C5: A revoked credential never authenticates again, whatever the services do in
    between. *)
Theorem revoked_never_authenticates credential ops (c : Platform) :
  fleet_ok (pl_db c) → registry_ok (pl_registry c) (pl_db c) →
  revoked_credential (hashSecret credential) (pl_db c) →
  wp (fleet_perform_all ops ;;! Authenticate credential) c (λ r _, r = Err ErrAgentCredentialInvalid).
Proof.
  intros Hok Hr Hrev. apply wp_bind, wp_fleet_all; [done..|]. intros c' [H1 H2 H3].
  apply revoked_not_authenticated; [done|by eapply revoked_credential_evolves].
Qed.

(** Revoking the credentials of a server: it is offline, has no connection left, and
    none of its credentials is active. *)
Theorem Revoke_locks_out serverID (c : Platform) :
  wp (Revoke serverID) c (λ r c',
    match r with
    | Ok _ => let id := TrimSpace serverID in
        (∃ s, servers (pl_db c') !! id = Some s ∧ se_status s = StatusOffline) ∧
        connections_of id (pl_hub c') = ∅ ∧
        ∀ identity i, agent_identities (fleet (pl_db c')) !! identity = Some i → ai_server_id i = id → is_Some (ai_revoked_at i)
    | Err (EStorage _) => pl_hub c' = pl_hub c
    | Err e => c' = c ∧
        (e = ErrInvalidCredentialOperation ∧ TrimSpace serverID = "" ∨
         e = ErrServerNotFound ∧ servers (pl_db c) !! TrimSpace serverID = None)
    end).
Proof.
  unfold Revoke. cbv zeta. case_bool_decide as Hid; [apply wp_throw; auto|].
  apply wp_bind, wp_clock_now. intros now. apply wp_bind. eapply wp_mono; [apply RevokeServerCredentials_spec|].
  intros [u|e] c' [Hc' Hs].
  - destruct Hs as [[s Hserver] Hd]. apply wp_local. cbn [fst snd]. cbn in Hd |- *. rewrite Hd. split_and!.
    + exists (s <| se_status := StatusOffline |>). split; [|done]. simpl. rewrite lookup_alter_eq. cbn in Hserver. by rewrite Hserver.
    + unfold connections_of. simpl. by rewrite lookup_delete_eq.
    + intros identity i Hi Hserver'. simpl in Hi. rewrite map_lookup_imap in Hi.
      destruct (agent_identities (fleet (pl_db c)) !! identity) as [i0|]; [|done]. simpl in Hi. injection Hi as <-.
      rewrite revoke_if_server in Hserver'. unfold revoke_if, identity_active. rewrite bool_decide_eq_true_2 by done. simpl.
      case_bool_decide as Hr; [by eexists|]. by apply not_eq_None_Some.
  - destruct e; try done; [by rewrite Hc'|]. destruct Hs as [Hd Hn]. split; [rewrite Hc', Hd; by destruct c|by right].
Qed.

(** ** Enrollment *)

Definition used_token (hash : string) (d : DB) : Prop :=
  ∃ id t, server_enrollment_tokens (fleet d) !! id = Some t ∧ et_token_hash t = hash ∧ is_Some (et_used_at t).

Lemma used_token_evolves hash d d' : fleet_evolves d d' → used_token hash d → used_token hash d'.
Proof.
  intros He (id & t & Ht & Hh & [u Hu]). destruct (fe_tokens _ _ He _ _ Ht) as (t' & Ht' & [E1 _ E3]).
  exists id, t'. rewrite E1. eauto.
Qed.

Lemma wp_rand count (c : Platform) (Q : Result (list Z) → Platform → Prop) :
  Q (Err (EStorage "uuid")) c → (∀ value, Q (Ok value) c) → wp (rand_read count) c Q.
Proof. intros H0 H. apply wp_bind, wp_new_uuid; [done|]. intros id. by apply wp_ret. Qed.

Lemma wp_token count (c : Platform) (Q : Result string → Platform → Prop) :
  Q (Err (EStorage "uuid")) c → (∀ token, Q (Ok token) c) → wp (secureToken count) c Q.
Proof. intros H0 H. apply wp_bind, wp_rand; [done|]. intros id. by apply wp_ret. Qed.

Lemma wp_secure_uuid (c : Platform) (Q : Result string → Platform → Prop) :
  Q (Err (EStorage "uuid")) c → (∀ id, Q (Ok id) c) → wp secureUUID c Q.
Proof. intros H0 H. apply wp_bind, wp_rand; [done|]. intros id. by apply wp_ret. Qed.

Lemma Enroll_post token (c : Platform) :
  wp (Enroll token) c (λ r c', c' = set_part (pl_db c') c ∧
    match r with
    | Ok credentials => ∃ claim, enrolled claim (pl_db c) (pl_db c') ∧ ec_TokenHash claim = hashSecret token ∧
        cr_ServerID credentials = ec_ServerID claim ∧ hashSecret (cr_Credential credentials) = ec_CredentialHash claim
    | Err ErrEnrollmentTokenInvalid => pl_db c' = pl_db c
    | Err e => ∃ context, e = EStorage context
    end).
Proof.
  assert (c = set_part (pl_db c) c) as Hsame by (by destruct c).
  apply wp_bind, wp_secure_uuid; [by eauto|]. intros serverID. apply wp_bind, wp_secure_uuid; [by eauto|]. intros identityID.
  apply wp_bind, wp_token; [by eauto|]. intros credential. apply wp_bind, wp_clock_now. intros now. apply wp_bind.
  eapply wp_mono; [apply ConsumeEnrollmentToken_spec|]. intros [[]|e] c' [Hc' Hs]; simpl negb; cbv iota.
  - apply wp_ret. split; [exact Hc'|]. by eexists.
  - apply wp_throw. split; [exact Hc'|]. by destruct Hs.
  - split; [exact Hc'|]. destruct e; try done. by eexists.
Qed.

Lemma enrolled_uses claim d d' : enrolled claim d d' → used_token (ec_TokenHash claim) d'.
Proof.
  intros (id & t & Ht & Ho & _ & _ & _ & ->). exists id, (t <| et_used_at := Some (ec_UsedAt claim) |>). simpl.
  rewrite lookup_alter_eq, Ht. unfold token_open in Ho. rewrite !andb_true_iff, !bool_decide_eq_true in Ho. naive_solver.
Qed.

Lemma used_token_not_enrolled token (c : Platform) :
  fleet_ok (pl_db c) → used_token (hashSecret token) (pl_db c) →
  wp (Enroll token) c (λ r c', r = Err ErrEnrollmentTokenInvalid ∨ ∃ context, r = Err (EStorage context)).
Proof.
  intros Hok (id & t & Ht & Hh & Hu). eapply wp_mono; [apply Enroll_post|]. intros [credentials|e] c' [_ H].
  - destruct H as (claim & (id' & t' & Ht' & Ho & _) & Hc & _). unfold token_open in Ho.
    rewrite !andb_true_iff, !bool_decide_eq_true in Ho. destruct Ho as [[Ho1 Ho2] _].
    assert (id' = id) as -> by (eapply (fk_tokens _ Hok); eauto; congruence). simplify_eq. rewrite Ho2 in Hu. by destruct Hu.
  - destruct e; eauto; by destruct H.
Qed.

(** An enrollment token registers one server: once it was consumed, it is refused for
    ever, whatever the services do in between. *)
Theorem enrollment_once token ops (c : Platform) :
  fleet_ok (pl_db c) → registry_ok (pl_registry c) (pl_db c) →
  wp (Enroll token) c (λ r c', ∀ credentials, r = Ok credentials →
    servers (pl_db c) !! cr_ServerID credentials = None ∧
    find_identity (hashSecret (cr_Credential credentials)) (pl_db c') ≠ None ∧
    wp (fleet_perform_all ops ;;! Enroll token) c' (λ r' _,
      r' = Err ErrEnrollmentTokenInvalid ∨ ∃ context, r' = Err (EStorage context))).
Proof.
  intros Hok Hr. eapply wp_mono; [apply Enroll_post|]. intros r c' [Hc' H] credentials ->.
  destruct H as (claim & He & Hh & Hs & Hcred). destruct (enrolled_sound _ _ _ He Hok) as [Hok' Hev]. split_and!.
  - rewrite Hs. by destruct He as (? & ? & _ & _ & ? & _).
  - rewrite Hcred. destruct He as (id & t & _ & _ & _ & _ & _ & ->). unfold find_identity. simpl. intros Hn.
    set (row := mkIdentityRow _ _ _ _ _ _ _) in Hn.
    pose proof (find_none _ _ Hn (ec_IdentityID claim, row)) as Hf. simpl in Hf.
    rewrite lookup_insert_eq, !bool_decide_eq_true_2 in Hf by done. simpl in Hf. discriminate Hf.
    apply list_elem_of_In, elem_of_map_to_list. by rewrite lookup_insert_eq.
  - apply wp_bind, wp_fleet_all; [done| |].
    { rewrite Hc'. by eapply registry_ok_evolves. }
    intros c2 [H1 H2 H3]. apply used_token_not_enrolled; [done|]. eapply used_token_evolves; [exact H2|].
    rewrite <-Hh. by eapply enrolled_uses.
Qed.

(** ** Rotation *)

(** Rotating a credential does not interrupt the agent: every confirmed credential
    stays as it is and the new one is the only pending one of the server.  When the new
    one is first used, it is confirmed and every other credential of the server is
    revoked. *)
Theorem rotation_handover serverID (c : Platform) :
  fleet_ok (pl_db c) →
  wp (Rotate serverID) c (λ r c', ∀ credentials, r = Ok credentials →
    (∀ id i, agent_identities (fleet (pl_db c)) !! id = Some i → ai_pending_activation i = false →
       agent_identities (fleet (pl_db c')) !! id = Some i) ∧
    wp (Authenticate (cr_Credential credentials)) c' (λ r' c'', ∀ server, r' = Ok server →
      server = TrimSpace serverID ∧
      ∀ id i, agent_identities (fleet (pl_db c'')) !! id = Some i → ai_server_id i = server →
        ai_revoked_at i = None →
        ai_credential_hash i = hashSecret (cr_Credential credentials) ∧ ai_pending_activation i = false)).
Proof.
  intros Hok. unfold Rotate. cbv zeta. case_bool_decide as Hid; [by apply wp_throw|].
  apply wp_bind, wp_secure_uuid; [done|]. intros identityID. apply wp_bind, wp_token; [done|]. intros credential.
  apply wp_bind, wp_clock_now. intros now. apply wp_bind. eapply wp_mono; [apply CreatePendingIdentity_spec|].
  intros [u|e] c' [_ Hp]; [|done]. apply wp_ret. intros credentials [= <-].
  destruct (pending_created_sound _ _ _ Hp Hok) as [Hok' _].
  destruct (pending_created_identities _ _ _ Hp) as (row & Hnew & Hrow1 & Hrow2 & Hrow3 & Hkept). split; [exact Hkept|].
  eapply wp_mono; [apply Authenticate_post|]. intros r c'' Ha server ->. simpl in Ha.
  destruct Ha as (at_ & Ha). destruct (authenticated_identities _ _ _ _ _ Ha) as (id0 & i0 & Hi0 & Hh0 & Hs0 & Hrest).
  assert (id0 = identityID) as -> by (eapply (fk_hashes _ Hok'); eauto; simpl in Hrow1; congruence).
  assert (i0 = row) as -> by (simpl in Hnew; congruence). split; [simpl in Hrow2; congruence|].
  intros id i Hi Hserver Hact. destruct (Hrest id i Hi Hserver Hact) as [Hcase|Hcase]; [|simpl in Hrow3; congruence].
  split; [by destruct Hcase as (_ & ? & _)|by destruct Hcase as (_ & _ & ?)].
Qed.

(** ** Heartbeats *)

(** The registry's memory is only a shortcut: a heartbeat is recorded, with the
    server's new status and a snapshot of its resources, exactly when the server is
    enabled and the sequence is newer than the recorded one; every other heartbeat leaves
    the tables as they are.  A sequence that does not fit the column is refused. *)
Theorem AcceptHeartbeat_exact heartbeat (c : Platform) :
  registry_ok (pl_registry c) (pl_db c) →
  wp (AcceptHeartbeat heartbeat) c (λ r c',
    heartbeat_effect heartbeat (pl_db c) r (pl_db c') ∧ registry_ok (pl_registry c') (pl_db c')).
Proof. exact (wp_AcceptHeartbeat heartbeat c). Qed.

(** ** Disabling a server *)


(** Disabling a server locks its agent out at once: it is offline, its connections
    are dropped, new ones are refused, and none of its credentials authenticates. *)
Theorem disabled_locked_out id input (c : Platform) :
  us_Enabled input = Some false →
  wp (Management_UpdateServer id input) c (λ r c', is_ok r = true →
    (∃ s, servers (pl_db c') !! id = Some s ∧ se_enabled s = false ∧ se_status s = StatusOffline) ∧
    connections_of id (pl_hub c') = ∅ ∧
    (∀ connection, connections_of id (Register id connection (pl_hub c')).1 = ∅) ∧
    ∀ credential, wp (Authenticate credential) c' (λ r' _, r' ≠ Ok id)).
Proof.
  intros Hen. unfold Management_UpdateServer. destruct (_ || _); [by apply wp_throw|]. apply wp_bind.
  eapply wp_mono; [apply UpdateServer_spec|]. intros [view|e] c' [_ Hs]; [|done]. destruct Hs as [[_ Hs]|[Hs _]]; [done|].
  destruct Hs as (s & now & Hserver & _ & Hd). rewrite Hen. apply wp_bind, wp_local. cbn [fst snd]. apply wp_ret. intros _.
  assert (servers (pl_db c') !! id = Some (updated_server input now s)) as Hnew by (cbn in Hd; rewrite Hd; apply lookup_insert_eq).
  assert (connections_of id (Hub_SetEnabled id false (pl_hub c')) = ∅) as Hconn
    by (unfold connections_of; simpl; by rewrite lookup_delete_eq).
  split_and!.
  - eexists. split; [exact Hnew|]. simpl. by rewrite Hen.
  - exact Hconn.
  - intros connection. unfold Register. cbn [part set_part platform_hub pl_hub]. rewrite bool_decide_eq_true_2 by (simpl; by apply elem_of_union_l, elem_of_singleton).
    exact Hconn.
  - intros credential. eapply wp_mono; [apply Authenticate_post|]. intros r c2 Ha ->.
    destruct Ha as (at_ & id' & i & s' & _ & _ & _ & _ & Hs' & He & _). simpl in Hs'. simplify_eq. simpl in He. by rewrite Hen in He.
Qed.

(** ** Silent servers *)

(** No run is active on the server. *)
Definition idle (serverID : string) (d : DB) : Prop :=
  ∀ runID row, task_runs d !! runID = Some row → on_server serverID active row = false.

Lemma offline_tables_runs serverID at_ d d' :
  offline_tables serverID at_ d d' →
  ∀ i, task_runs d' !! i = (λ row, if on_server serverID active row then set_unknown false at_ row else row) <$> task_runs d !! i.
Proof. intros [Ht _] i. rewrite Ht. apply (update_runs_where_lookup (on_server serverID active) (set_unknown false at_)). Qed.

Lemma offline_idle serverID at_ d d' : offline_tables serverID at_ d d' → idle serverID d'.
Proof.
  intros H runID row. rewrite (offline_tables_runs _ _ _ _ H). destruct (task_runs d !! runID) as [row0|]; [|done].
  intros [= <-]. destruct (on_server serverID active row0) eqn:E; [|done]. unfold on_server. simpl. apply andb_false_r.
Qed.

Lemma offline_keeps_idle other serverID at_ d d' : offline_tables serverID at_ d d' → idle other d → idle other d'.
Proof.
  intros H Hi runID row. rewrite (offline_tables_runs _ _ _ _ H). destruct (task_runs d !! runID) as [row0|] eqn:E; [|done].
  intros [= <-]. destruct (on_server serverID active row0); [unfold on_server; simpl; apply andb_false_r|by eapply Hi].
Qed.

(** One event of the registry. *)
Lemma wp_publish_offline now serverID (c : Platform) :
  wp (Publish (offline_event now serverID)) c (λ r c',
    tables_kept c c' ∧
    (pl_db c' = pl_db c ∧ is_ok r = false ∨ ∃ at_, offline_tables serverID at_ (pl_db c) (pl_db c'))).
Proof.
  change (Publish (offline_event now serverID)) with (ServerOffline (C := Platform) serverID).
  apply wp_conj; [apply ServerOffline_frame|]. unfold ServerOffline. case_bool_decide as Hid; [apply wp_throw; by left|].
  apply wp_bind, wp_clock_now. intros at_. eapply wp_mono; [apply MarkServerRunsUnknown_spec|].
  intros [u|e] c' [_ Hr]; [right; by exists at_|]. destruct Hr as [_ [Hd|Hd]]; [by left|right; by exists at_].
Qed.

Lemma marked_offline cutoff (m : gmap string ServerRow) id s :
  m !! id = Some s → se_status s = StatusOffline ∨ offline_due cutoff s = true →
  ∃ s', ((λ s, if offline_due cutoff s then s <| se_status := StatusOffline |> else s) <$> m) !! id = Some s' ∧
    se_status s' = StatusOffline.
Proof.
  intros Hs Hor. rewrite lookup_fmap, Hs. eexists. split; [done|]. destruct (offline_due cutoff s) eqn:E; [done|naive_solver].
Qed.

(** A pass over the silent servers that succeeds leaves nothing behind: every server
    that was online or draining and not heard of for 15 seconds is offline, and no run
    is active on it any more. *)
Theorem ReconcileOffline_complete (c : Platform) :
  wp ReconcileOffline c (λ r c', r = Ok tt → ∃ now, ∀ id s,
    servers (pl_db c) !! id = Some s → offline_due (now - 15 * second) s = true →
    (∃ s', servers (pl_db c') !! id = Some s' ∧ se_status s' = StatusOffline) ∧ idle id (pl_db c')).
Proof.
  apply wp_bind, wp_clock_now. intros now. apply wp_bind, wp_pool; [done|]. intros d ids [= <- <-]. split; [|done].
  set (marked := filter _ _). set (c1 := set_part _ c).
  apply wp_for_each with (I := λ rest c', servers (pl_db c') = servers (pl_db c1) ∧
    ∀ id, id ∈ marked.*1 → id ∈ rest ∨ idle id (pl_db c')).
  - split; [done|]. auto.
  - intros id rest c2 [Hs Hi] _. eapply wp_mono; [apply wp_publish_offline|]. intros [u|e] c3 [(Hs3 & _) Hr]; [|done].
    destruct Hr as [[_ Hr]|[at_ Ht]]; [done|]. split; [congruence|]. intros k Hk.
    destruct (Hi k Hk) as [Hin|Hidle]; [|right; by eapply offline_keeps_idle].
    apply elem_of_cons in Hin as [->|Hin]; [right; by eapply offline_idle|by left].
  - intros c2 [Hs Hi] _. exists now. intros id s Hserver Hdue. split.
    + rewrite Hs. apply (marked_offline _ _ _ s Hserver). by right.
    + destruct (Hi id) as [Hin|]; [|by apply elem_of_nil in Hin|done]. apply list_elem_of_fmap. exists (id, s).
      split; [done|]. apply list_elem_of_filter. split; [done|]. by apply elem_of_map_to_list.
Qed.

(** The rows of the runs of a server. *)
Definition same_rows (serverID : string) (d d' : DB) : Prop :=
  ∀ runID row, task_runs d !! runID = Some row → tr_assigned_server_id row = Some serverID → task_runs d' !! runID = Some row.

Lemma offline_other_rows id serverID at_ d0 d d' :
  offline_tables serverID at_ d d' → serverID ≠ id → same_rows id d0 d → same_rows id d0 d'.
Proof.
  intros H Hne Hd runID row Hrow Hid. rewrite (offline_tables_runs _ _ _ _ H), (Hd runID row) by done. simpl.
  unfold on_server. rewrite bool_decide_eq_false_2 by congruence. done.
Qed.

Definition left_behind (id : string) (c0 c : Platform) : Prop :=
  (∃ s, servers (pl_db c) !! id = Some s ∧ se_status s = StatusOffline) ∧ same_rows id (pl_db c0) (pl_db c).

Lemma reconcile_leaves id c0 (c : Platform) : left_behind id c0 c → wp ReconcileOffline c (λ _ c', left_behind id c0 c').
Proof.
  intros Hc. apply wp_bind, wp_clock_now. intros now. apply wp_bind, wp_pool; [done|]. intros d ids [= <- <-].
  destruct Hc as [(s & Hs & Hst) Hrows]. set (c1 := set_part _ c).
  assert (left_behind id c0 c1) as Hc1.
  { split; [|done]. apply (marked_offline _ _ _ s Hs). by left. }
  split; [|done]. apply wp_for_each with (I := λ _ c', left_behind id c0 c'); [done| |done].
  intros serverID rest c2 [(s2 & Hs2 & Hst2) Hrows2] Hin. eapply wp_mono; [apply wp_publish_offline|].
  assert (serverID ≠ id) as Hne.
  { intros ->. apply list_elem_of_fmap in Hin as ([k row] & -> & [Hdue Hrow%elem_of_map_to_list]%list_elem_of_filter).
    simpl in *. simplify_eq. unfold offline_due in Hdue. by rewrite Hst in Hdue. }
  intros r c3 [(Hs3 & _) Hr]. assert (left_behind id c0 c3) as Hc3; [|by destruct r].
  split; [rewrite Hs3; eauto|]. destruct Hr as [[-> _]|[at_ Ht]]; [done|by eapply offline_other_rows].
Qed.

(** The passes leave a server behind that is offline already. *)
Lemma passes_leave passes id c0 (c : Platform) :
  left_behind id c0 c →
  wp (for_each (replicate passes tt) (λ _, ignore ReconcileOffline)) c (λ _ c', left_behind id c0 c').
Proof.
  intros Hc. apply wp_for_each with (I := λ _ c', left_behind id c0 c'); [done| |done].
  intros _ rest c1 Hc1 _. apply wp_ignore. by apply reconcile_leaves.
Qed.

(** C31: The registry marks the silent servers before it reports them, and stops at the
    first report that fails.  A server left behind that way is offline and is never
    reported again: however many passes follow, the runs it was executing stay as they
    are, active on a server that is gone. *)
Theorem offline_report_lost passes id s (c : Platform) :
  servers (pl_db c) !! id = Some s → se_status s = StatusOffline →
  wp (for_each (replicate passes tt) (λ _, ignore ReconcileOffline)) c (λ _ c', same_rows id (pl_db c) (pl_db c')).
Proof.
  intros Hs Hst. eapply wp_mono; [apply (passes_leave passes id c)|by intros r c' []]. split; [eauto|]. by intros runID row.
Qed.

(** C32: Disabling a server makes it offline without a report: the runs it was executing
    keep their rows, active on a server whose agent is locked out, however many passes
    over the silent servers follow. *)
Theorem disabled_runs_stranded passes id input (c : Platform) :
  us_Enabled input = Some false →
  wp (Management_UpdateServer id input) c (λ r c', is_ok r = true →
    wp (for_each (replicate passes tt) (λ _, ignore ReconcileOffline)) c' (λ _ c'', same_rows id (pl_db c) (pl_db c''))).
Proof.
  intros Hen. unfold Management_UpdateServer. destruct (_ || _); [by apply wp_throw|]. apply wp_bind.
  eapply wp_mono; [apply UpdateServer_spec|]. intros [view|e] c' [_ Hs]; [|done]. destruct Hs as [[_ Hs]|[Hs _]]; [done|].
  destruct Hs as (s & now & Hserver & _ & Hd). rewrite Hen. apply wp_bind, wp_local. cbn [fst snd]. apply wp_ret. intros _.
  eapply wp_mono; [apply (passes_leave passes id c)|by intros r c2 []]. cbn in Hd. split; simpl; rewrite Hd.
  - simpl. rewrite lookup_insert_eq. eexists. split; [done|]. simpl. by rewrite Hen.
  - by intros runID row.
Qed.
End safety.

(** ** A fleet at work *)

Definition random (count : nat) (seed : string) : list Z := take count ((byte_of <$> chars seed) ++ replicate count 0).

Definition the_token : string := base64_encode true (random 32 "token").
Definition the_server : string := uuid_text (random 16 "server").
Definition the_credential : string := base64_encode true (random 32 "credential").
Definition new_credential : string := base64_encode true (random 32 "next credential").

Definition new_platform : Platform := mkPlatform (due_db <| servers := ∅ |>) ∅ ∅ NewAgentConnectionHub NewRegistry.

Definition beat (sequence : Z) : Heartbeat :=
  mkHeartbeat the_server sequence 0 4000 1000 1000 500 1000 500 1 90 100 ["bash"] "1.0.0" "linux" "amd64" [] None.

(** A token is issued and used, the agent reports, its credential is rotated. *)
Definition fleet_ops : list FleetOperation :=
  [FleetCreateToken (mkEnrollmentTokenInput "node" "cloud" "eu" ∅); FleetEnroll the_token;
   FleetHeartbeat (beat 1); FleetHeartbeat (beat 1); FleetRotate the_server].

Definition fleet_seeds : list string :=
  ["token"; "token id"; "server"; "identity"; "credential"; "snapshot"; "next identity"; "next credential"].

Definition enrolled_platform : Platform :=
  (fleet_perform_all (alerts := no_alerts) (take 4 fleet_ops) (new_platform, calm (take 6 fleet_seeds) 100)).1.1.

Definition rotated_run : (Platform * Oracle) * Result unit :=
  fleet_perform_all (alerts := no_alerts) fleet_ops (new_platform, calm fleet_seeds 100).

Lemma new_platform_ok : fleet_ok (pl_db new_platform) ∧ registry_ok (pl_registry new_platform) (pl_db new_platform).
Proof.
  assert (agent_identities (fleet (pl_db new_platform)) = ∅) as Hi by done.
  assert (server_enrollment_tokens (fleet (pl_db new_platform)) = ∅) as Ht by done.
  split; [split|done]; unfold distinct_hashes, single_identity, distinct_tokens; rewrite ?Hi, ?Ht; done.
Qed.

Lemma fleet_invariant_witness :
  fleet_ok (pl_db rotated_run.1.1) ∧ fleet_evolves (pl_db new_platform) (pl_db rotated_run.1.1) ∧
  size (agent_identities (fleet (pl_db rotated_run.1.1))) = 2%nat ∧
  length (server_snapshots (pl_db rotated_run.1.1)) = 1%nat ∧
  rg_latest (pl_registry rotated_run.1.1) !! the_server = Some 1.
Proof.
  pose proof (fleet_invariant (alerts := no_alerts) (alert_law := no_alerts_law) fleet_ops new_platform
    (proj1 new_platform_ok) (proj2 new_platform_ok) (calm fleet_seeds 100)) as H.
  change (fleet_perform_all _ _) with rotated_run in H. destruct rotated_run as [[c' o'] r] eqn:E.
  destruct H as (_ & Hok & Hev & _). split; [exact Hok|split; [exact Hev|]].
  apply (f_equal (λ x, x.1.1)) in E. cbn [fst] in *. rewrite <-E. vm_compute. auto.
Defined.

(** The state a sequence of operations leads to. *)
Definition fleet_after (ops : list FleetOperation) (seeds : list string) : Platform :=
  (fleet_perform_all (alerts := no_alerts) ops (new_platform, calm seeds 100)).1.1.

Lemma fleet_after_ok ops seeds :
  fleet_ok (pl_db (fleet_after ops seeds)) ∧ registry_ok (pl_registry (fleet_after ops seeds)) (pl_db (fleet_after ops seeds)).
Proof.
  unfold fleet_after. pose proof (wp_fleet_all (alerts := no_alerts) (alert_law := no_alerts_law) ops new_platform
    (λ _ c', fleet_ok (pl_db c') ∧ registry_ok (pl_registry c') (pl_db c')) (proj1 new_platform_ok) (proj2 new_platform_ok)) as H.
  assert (∀ c', fleet_inv (pl_db new_platform) c' → fleet_ok (pl_db c') ∧ registry_ok (pl_registry c') (pl_db c')) as Hq
    by (by intros c' []).
  specialize (H Hq (calm seeds 100)). by destruct (fleet_perform_all _ _) as [[]].
Qed.

Definition revoked_platform : Platform := fleet_after (take 4 fleet_ops ++ [FleetRevoke the_server]) fleet_seeds.

Lemma revoked_never_authenticates_witness :
  let '(_, r) := (fleet_perform_all (alerts := no_alerts) [FleetRotate the_server; FleetAuthenticate new_credential] ;;!
                  Authenticate the_credential) (revoked_platform, calm (drop 6 fleet_seeds) 200) in
  r = Err ErrAgentCredentialInvalid.
Proof.
  assert (revoked_credential (hashSecret the_credential) (pl_db revoked_platform)) as Hrev.
  { exists (uuid_text (random 16 "identity")). eexists. split; [vm_compute; reflexivity|].
    split; [vm_compute; reflexivity|eexists; reflexivity]. }
  pose proof (revoked_never_authenticates (alerts := no_alerts) (alert_law := no_alerts_law) the_credential
    [FleetRotate the_server; FleetAuthenticate new_credential] revoked_platform
    (proj1 (fleet_after_ok _ _)) (proj2 (fleet_after_ok _ _)) Hrev (calm (drop 6 fleet_seeds) 200)) as H.
  destruct (bind _ _ _) as [[c' o'] r]. exact H.
Defined.

Definition token_platform : Platform := fleet_after (take 1 fleet_ops) (take 2 fleet_seeds).

Lemma enrollment_once_witness :
  let '((c', _), r) := Enroll the_token (token_platform, calm (take 3 (drop 2 fleet_seeds)) 200) in
  r = Ok (mkAgentCredentials the_server the_credential) ∧
  wp (fleet_perform_all (alerts := no_alerts) [FleetHeartbeat (beat 1)] ;;! Enroll the_token) c' (λ r' _,
    r' = Err ErrEnrollmentTokenInvalid ∨ ∃ context, r' = Err (EStorage context)).
Proof.
  pose proof (enrollment_once (alerts := no_alerts) (alert_law := no_alerts_law) the_token [FleetHeartbeat (beat 1)] token_platform
    (proj1 (fleet_after_ok _ _)) (proj2 (fleet_after_ok _ _)) (calm (take 3 (drop 2 fleet_seeds)) 200)) as H.
  destruct (Enroll _ _) as [[c' o'] r] eqn:E.
  assert (r = Ok (mkAgentCredentials the_server the_credential)) as Hr
    by (apply (f_equal snd) in E; cbn [snd] in E; rewrite <-E; vm_compute; reflexivity).
  split; [exact Hr|]. by destruct (H _ Hr) as (_ & _ & ?).
Defined.

Lemma rotation_handover_witness :
  let '((c', _), r) := Rotate the_server (enrolled_platform, calm ["next identity"; "next credential"] 200) in
  r = Ok (mkAgentCredentials the_server new_credential) ∧
  (Authenticate the_credential (c', calm [] 300)).2 = Ok the_server ∧
  (Authenticate the_credential ((Authenticate new_credential (c', calm [] 300)).1.1, calm [] 301)).2 = Err ErrAgentCredentialInvalid ∧
  wp (Authenticate new_credential) c' (λ r' c'', ∀ server, r' = Ok server → server = TrimSpace the_server).
Proof.
  pose proof (rotation_handover the_server enrolled_platform (proj1 (fleet_after_ok (take 4 fleet_ops) (take 6 fleet_seeds)))
    (calm ["next identity"; "next credential"] 200)) as H.
  destruct (Rotate _ _) as [[c' o'] r] eqn:E.
  assert (r = Ok (mkAgentCredentials the_server new_credential)) as Hr
    by (apply (f_equal snd) in E; cbn [snd] in E; rewrite <-E; vm_compute; reflexivity).
  apply (f_equal (λ x, x.1.1)) in E. cbn [fst] in E. split; [exact Hr|]. destruct (H _ Hr) as [_ Ha]. split_and!.
  - rewrite <-E. vm_compute. reflexivity.
  - rewrite <-E. vm_compute. reflexivity.
  - eapply wp_mono; [exact Ha|]. intros r' c'' Hs server Hserver. exact (proj1 (Hs server Hserver)).
Defined.

Lemma AcceptHeartbeat_exact_witness :
  let '((c', _), r) := AcceptHeartbeat (alerts := no_alerts) (beat 2) (enrolled_platform, calm ["snapshot 2"] 200) in
  r = Ok tt ∧ heartbeat_effect (beat 2) (pl_db enrolled_platform) r (pl_db c') ∧
  (se_last_heartbeat_sequence <$> servers (pl_db c') !! the_server) = Some 2.
Proof.
  pose proof (AcceptHeartbeat_exact (alerts := no_alerts) (alert_law := no_alerts_law) (beat 2) enrolled_platform
    (proj2 (fleet_after_ok (take 4 fleet_ops) (take 6 fleet_seeds))) (calm ["snapshot 2"] 200)) as H.
  destruct (AcceptHeartbeat _ _) as [[c' o'] r] eqn:E. destruct H as [H _]. split_and!.
  - apply (f_equal snd) in E. cbn [snd] in E. rewrite <-E. vm_compute. reflexivity.
  - exact H.
  - apply (f_equal (λ x, x.1.1)) in E. cbn [fst] in E. rewrite <-E. vm_compute. reflexivity.
Defined.

Definition disable_input : UpdateServerInput := mkUpdateServerInput None None None None (Some false) None.

Lemma disabled_locked_out_witness :
  let '((c', _), r) := Management_UpdateServer the_server disable_input (enrolled_platform, calm [] 200) in
  is_ok r = true ∧ connections_of the_server (pl_hub c') = ∅ ∧ (Authenticate the_credential (c', calm [] 300)).2 = Err ErrAgentCredentialInvalid.
Proof.
  pose proof (disabled_locked_out the_server disable_input enrolled_platform eq_refl (calm [] 200)) as H.
  destruct (Management_UpdateServer _ _ _) as [[c' o'] r] eqn:E.
  assert (is_ok r = true) as Hr by (apply (f_equal snd) in E; cbn [snd] in E; rewrite <-E; vm_compute; reflexivity).
  split; [exact Hr|]. split; [exact (proj1 (proj2 (H Hr)))|].
  apply (f_equal (λ x, x.1.1)) in E. cbn [fst] in E. rewrite <-E. vm_compute. reflexivity.
Defined.

(** Two servers that went silent, each with a running run; the report of the first one
    meets a database error. *)
Definition running_on (serverID token : string) : RunRow :=
  example_row <| tr_state := Running |> <| tr_assigned_server_id := Some serverID |> <| tr_execution_token := Some token |>.

Definition silent_server (name : string) : ServerRow :=
  mkServerRow name StatusOnline true false ∅ ["bash"] [] 4 1 "1.0.0" "linux" "amd64" (Some 0) 1 "" "" "".

Definition silent_platform : Platform :=
  mkPlatform (due_db <| servers := {["srv-1" := silent_server "one"; "srv-2" := silent_server "two"]} |>
                     <| task_runs := {["run-1" := running_on "srv-1" "tok-1"; "run-2" := running_on "srv-2" "tok-2"]} |>)
    ∅ ∅ NewAgentConnectionHub NewRegistry.

Definition interrupted_pass : (Platform * Oracle) * Result unit :=
  ReconcileOffline (silent_platform, mkOracle [Fine; LostRequest] [] (60 * second, [])).

Lemma ReconcileOffline_complete_example :
  let '((c', _), r) := ReconcileOffline (silent_platform, calm [] (60 * second)) in
  r = Ok tt ∧ (tr_state <$> task_runs (pl_db c') !! "run-1") = Some Unknown ∧ (tr_state <$> task_runs (pl_db c') !! "run-2") = Some Unknown.
Proof. vm_compute. auto. Qed.

Lemma offline_report_lost_witness :
  is_ok interrupted_pass.2 = false ∧
  ∃ id run, (tr_state <$> task_runs (pl_db interrupted_pass.1.1) !! run) = Some Running ∧
    (tr_assigned_server_id <$> task_runs (pl_db interrupted_pass.1.1) !! run) = Some (Some id) ∧
    (se_status <$> servers (pl_db interrupted_pass.1.1) !! id) = Some StatusOffline ∧
    let '((c', _), _) := for_each (replicate 3 tt) (λ _, ignore ReconcileOffline) (interrupted_pass.1.1, calm [] (600 * second)) in
    same_rows id (pl_db interrupted_pass.1.1) (pl_db c').
Proof.
  split; [vm_compute; reflexivity|]. exists "srv-2", "run-2".
  split; [vm_compute; reflexivity|]. split; [vm_compute; reflexivity|]. split; [vm_compute; reflexivity|].
  assert (∃ s, servers (pl_db interrupted_pass.1.1) !! "srv-2" = Some s ∧ se_status s = StatusOffline) as (s & Hs & Hst)
    by (eexists; split; [vm_compute; reflexivity|reflexivity]).
  pose proof (offline_report_lost 3 "srv-2" s interrupted_pass.1.1 Hs Hst (calm [] (600 * second))) as H.
  destruct (for_each _ _ _) as [[c' o'] r]. exact H.
Defined.

Lemma disabled_runs_stranded_witness :
  let '((c', _), r) := Management_UpdateServer "srv-1" disable_input (silent_platform, calm [] (5 * second)) in
  is_ok r = true ∧
  (tr_state <$> task_runs (pl_db (for_each (replicate 3 tt) (λ _, ignore ReconcileOffline) (c', calm [] (600 * second))).1.1) !! "run-1")
    = Some Running ∧
  wp (for_each (replicate 3 tt) (λ _, ignore ReconcileOffline)) c' (λ _ c'', same_rows "srv-1" (pl_db silent_platform) (pl_db c'')).
Proof.
  pose proof (disabled_runs_stranded 3 "srv-1" disable_input silent_platform eq_refl (calm [] (5 * second))) as H.
  destruct (Management_UpdateServer _ _ _) as [[c' o'] r] eqn:E.
  assert (is_ok r = true) as Hr by (apply (f_equal snd) in E; cbn [snd] in E; rewrite <-E; vm_compute; reflexivity).
  split; [exact Hr|]. split; [|exact (H Hr)].
  apply (f_equal (λ x, x.1.1)) in E. cbn [fst] in E. rewrite <-E. vm_compute. reflexivity.
Defined.
